(* ===== verification/_CoqProject ===== *)
-Q . S2P
Prelude.v
PyDict.v
PyStr.v
Json.v
PyFloat.v
ModelFile.v
ModelFileFacts.v
JobStatus.v
ModelState.v
Model.v
ModelFrames.v
ModelIndex.v
ModelProjection.v
ModelCoherence.v
ModelVersions.v
ModelBehaviour.v
ModelCounters.v
ModelDiff.v
PathPair.v
PathPairFacts.v
AutoQueue.v
AutoQueueFacts.v
AutoQueueCycle.v
AutoQueuePatterns.v
AutoQueueRemote.v
LftpStatus.v
SystemFile.v
SystemFileFacts.v
TransferEvidence.v
ScanInputs.v
TransferEvidenceFacts.v
ScanInputsFacts.v
SplitRootFacts.v
EffectiveFacts.v
LifecycleState.v
Exclude.v
ControllerPersist.v
ControllerPersistFacts.v
ControllerFile.v
ManagedExtract.v
ExtractArchive.v
Dispatch.v
DispatchFacts.v
Ini.v
Config.v
ConfigFacts.v
ConfigLoad.v
ConfigFile.v
ConfigApi.v
ConfigApiFacts.v
ConfigView.v
Base64.v
AuthStore.v
AuthFacts.v
AuthToy.v
AuthSteps.v
AuthKeys.v
AuthHandover.v
AuthClaim.v
AuthFile.v
WebAuth.v
WebAuthFacts.v
AdminApi.v
Regex.v
LftpParser.v
LftpParserFacts.v
LftpRows.v
LftpRoundTrip.v
LftpSnapshot.v
LftpKnown.v
ModelPages.v
ModelApi.v
ModelPagesFacts.v
ModelAnnounce.v
ModelStreamFacts.v
