(* ===== verification/Prelude.v ===== *)
(** * SeedSync: a verification of the service core

    SeedSync mirrors files from a remote server.  Its Python service (under
    [src/src/python]) scans both sides, drives LFTP, keeps a model of the
    known files, decides what to queue, extract and delete, and publishes the
    model to web clients.  This library models the parts of the service that
    keep state or decide something, and proves what they promise.

    ** The parts of the program and how they interact

    The scanners produce trees of [SystemFile]s, pruned by the exclusion
    globs; LFTP prints its queue and jobs, which a parser reads as
    [LftpJobStatus] records, and leaves pget sidecars.  A
    builder turns these into candidate [ModelFile] trees; differences between
    the live [Model] and a candidate are applied to the live one, which
    notifies listeners and publishes a flat copy of every root, overlaid with
    the live transfer counters, for asynchronous readers.  The auto queue is
    such a listener: once per cycle it sends QUEUE, EXTRACT and DELETE_REMOTE
    commands to the controller, by the patterns and path pairs configured.
    Extractions are queued in a dispatcher and carried out by its worker
    thread.  Patterns, path pairs, the controller's markers and the keys of the
    authentication store are kept in JSON files between runs, the settings in
    an INI file.  Web requests pass a gate that asks the authentication store
    before a handler runs; handlers change the settings and the keys, serve
    pages of the model and stream its changes.

    ** Files and sources

    - [Prelude]: exceptions, the error and state monads ([result], [st]), the
      program logics on them ([within], [triple], [spec], [returns],
      [raises]), their hints and tactics, lists.  [PyDict]: insertion-ordered
      dictionaries.  [PyStr]: dynamic values, strings, POSIX paths, [fnmatch].
      [Json]: [json.dumps]/[json.loads] and their round trip.  [PyFloat]:
      binary64 floats, their conversions and [repr].
    - [ModelFile], [ModelFileFacts]: [model/file.py]; a record of slots with
      the packed flag word, the sparse runtime dictionary and the children.  A
      reference to a live object ([fileref]) is its identity, the names of its
      ancestors and its value.
    - [JobStatus]: [lftp/job_status.py].  [Regex]: Python regular expressions
      as syntax, run by a backtracking matcher.  [LftpParser]:
      [lftp/job_status_parser.py], every pattern and every branch of the
      reading of a [jobs -v] snapshot.  [LftpParserFacts] (answers and jobs of
      any output), [LftpRows], [LftpRoundTrip], [LftpSnapshot] (rows, the job
      list and the whole snapshot as LFTP prints them) and [LftpKnown] (headers
      of mirrors with exclusions) hold the theorems.
    - [ModelState], [Model]: [model/model.py], one definition per method over
      the record [model]; listener calls are events of a log.  [ModelFrames],
      [ModelIndex], [ModelProjection], [ModelCoherence], [ModelVersions],
      [ModelBehaviour], [ModelCounters] hold its theorems, by aspect.
    - [ModelPages], [ModelApi]: how web clients get the model.  The first is the
      part of [controller/controller.py] they read (pages of roots and of
      children, the roots of changed identities), over the class [Timestamps]
      of the text of times; the second is [web/handler/model_api.py] (cursors,
      page handlers, the queue of a stream and its rounds).  [ModelPagesFacts]
      holds the theorems on pages, [ModelAnnounce] that a call announces what it
      changes, [ModelStreamFacts] the composition of model, queue and client.
    - [ModelDiff]: [model/diff.py] and the composition of candidates.
    - [PathPair], [PathPairFacts]: [common/path_pair.py]; pairs, collection,
      file format, and the manager with its rollback and backups.
    - [AutoQueue] and [AutoQueueFacts], [AutoQueueCycle], [AutoQueuePatterns],
      [AutoQueueRemote]: [controller/auto_queue.py]; the controller is the
      class [AutoQueueController], whose answers are the inputs of a cycle.
    - [LftpStatus]: [common/lftp_status.py].
    - [SystemFile], [SystemFileFacts]: [system/file.py].  [Exclude]:
      [common/exclude_patterns.py].
    - [TransferEvidence], [ScanInputs], [LifecycleState]:
      [controller/model_builder.py], the part of the builder that judges the
      scans: pure functions on scanned trees, the record [ScanInputs] of the
      source buckets with the queries on them, and the lifecycle verdict of a
      root.  [TransferEvidenceFacts] (trees by path, coverage, completion),
      [ScanInputsFacts] (relative paths, buckets, trusted and publishable
      leaves), [SplitRootFacts] (the overlay of a running transfer, confirmed
      deletions) and [EffectiveFacts] (their composition) hold the theorems.
    - [ControllerPersist], [ControllerPersistFacts], [ControllerFile]:
      [controller/controller_persist.py] and [controller/persist_keys.py].
    - [ManagedExtract]: [common/managed_extract.py].  [ExtractArchive]:
      [controller/extract/extract.py], over the class [ExtractEnv] of what the
      disk, the archive readers and the external tool answer.  [Dispatch],
      [DispatchFacts]: [controller/extract/dispatch.py] and
      [extract_request.py]; the worker thread is a transition function that
      interleaves with the calls of other threads.

    - [Ini], [Config]: [common/config.py] over a model of [configparser]:
      checkers, converters, the eight sections, migrations of older files and
      the first configuration of [seedsync.py].  A setting is None, a bool, an
      int or a str.  [ConfigFacts], [ConfigLoad], [ConfigFile]: the values a
      section can hold, what loading accepts, the file.
      [ConfigApi], [ConfigApiFacts], [ConfigView]: [web/handler/config.py],
      [web/config_restart.py] and [web/serialize/serialize_config.py]; the
      outcome of the write to disk is an input.
    - [Base64], [AuthStore]: [web/auth_store.py], one definition per method
      over the record [ApiKeyStore], which carries the files written and a
      counter that numbers the draws from clock, random source and disk.
      What the program gets from outside (PBKDF2, SHA-256, ISO times, clock,
      random text, disk failures) is the class [AuthWorld]; what the theorems
      use of it (times read back to the second, random draws are plain
      text and do not repeat, digests are 64 hex digits) is the class [AuthLaws] of [AuthFacts], and [AuthToy] is a
      world in which they hold.  [AuthSteps] (operation sequences as steps on
      the keys), [AuthKeys], [AuthHandover], [AuthClaim] and [AuthFile] hold
      the theorems.
    - [WebAuth], [WebAuthFacts]: the request predicates and the gate of
      [web/web_app.py], over the class [WebWorld] (URL parsing, address
      classification).  [AdminApi]: [web/handler/admin.py].

    ** What the theorems show

    - The model: the representation invariant of files, their equality and
      identifiers; the three indices of the model agree after any sequence of
      operations, raising ones included; adding, removing and updating refine
      a finite map; after any such sequence readers see exactly the projection
      of the stored roots and of the counters in force; version numbers are
      announced in order; counters of one transfer never go back and counters
      of another job are fenced off; differences and composed candidates are
      exact.
    - Delivery: following the cursors of pages visits every root, or every
      child, once and in the order of identities, and a cursor reads back; a
      returning call announces every root whose view it changed; under any
      interleaving of model calls, stream events and readings a client's copy of
      a scope is exact, or an event is waiting that makes it exact or asks it
      to read again.
    - The auto queue: which commands a cycle sends, and in which order, is
      characterised exactly and shown safe (nothing stopped, unmatched, not
      transferable or disabled is queued; nothing is deleted remotely without
      a completion this process observed); a failing cycle keeps its work.
    - Transfer status: the matcher gives the first outcome, in the order of
      priority, of the set of all outcomes of a pattern; whatever LFTP prints,
      parsing ends in a snapshot or in one of two errors, with the outcome that
      fits; every job of a snapshot is that of a row of the output; a snapshot
      printed from queued and running transfers reads back to exactly them;
      headers with any list of exclusions are read exactly.
    - Scan evidence: the walks over scanned trees are equivalent to statements
      about paths (when a staged copy is complete, which final leaves a
      transfer may omit, which staged leaves may be published); overlaying a
      running transfer never raises, never hides a verified final leaf and
      invents none, so the proof behind an automatic move rests on scanned
      files; a confirmed deletion removes exactly one node; the buckets are
      one map; every lifecycle verdict is justified by a marker or a status.
    - Extraction: a request finds exactly its archives, tasks are served once
      and in order under every interleaving, every accepted task is reported
      within a bounded number of worker moves, and an extraction never moves a
      file outside its target directory.
    - Files on disk: patterns, path pairs, markers, scanned trees and pget
      maps read back what was written; arbitrary content gives a valid value
      or the documented error, the exception found apart; saving path pairs is
      transactional.
    - Settings: what is saved loads back to the same configuration; reading
      arbitrary text gives a configuration or one of the listed errors; a
      refused or unsaved request changes nothing; no sequence of requests
      leaves FTPS without a password; no secret is served.
    - Authentication: any sequence of operations, failing ones included, keeps
      the store well-formed; revocation is final; rotation locks out the
      sessions of the former secret; a created key authenticates; a bootstrap
      proof works once and in time; a recovery version gets one window; an
      administrator is claimed only through a live window, which closes; the
      store file and the window survive a restart; a request is let through
      only on grounds that hold at that moment.
    - Parsing: the coverage computed from a pget sidecar is the exact number
      of bytes outside its open ranges; exclusion keeps exactly the allowed
      paths.

    ** Conventions and bounds

    Strings are over code points below 256.  Integers are unbounded, as in
    Python, with the interpreter's limit of 4300 digits on conversions; floats
    are IEEE binary64.  Random draws are idealised as never repeating.  An exception keeps what was written before it.  Loops
    that are not structural carry fuel: one unit per character for the JSON
    reader (shown sufficient by the round trip), for glob translation, for the
    text removed from an identifier and for folder names (shown sufficient);
    one per node for the breadth-first search (shown sufficient); one more
    than the existing backups for a free backup name; and for printing a float
    the decimal exponents and the seventeen digits binary64 can need.  The
    regular expression matcher needs none (it recurs on the pattern, a repeat
    on the characters left), nor does the status parser, whose loops recur on
    the lines and count those a row has consumed.  Locks
    are not modelled, calls under one lock being one step; where threads
    interleave (the dispatcher) the steps are explicit.

    ** Not modelled

    Process and thread start-up, logging, breadcrumb traces and performance
    counters (output only); the LFTP, SSH and rclone drivers, scanners,
    validation and deletion processes (external programs and the file system);
    the other HTTP handlers, routing tables, web pages and log streams (glue over
    the modelled state); the model summary and the acknowledgement of a
    completion; migration and backup of whole installations, and with it
    the journal and marker that bind a first-administrator claim to a
    completed migration; of the model builder the cached model and its invalidation, the
    retained transfer snapshots and the rendering of model trees; the
    controller apart from its page queries, and the model updater, which orchestrate the parts above. *)

From stdpp Require Export strings sorting gmap list.
From Stdlib Require Export ZArith Lia.

Open Scope Z_scope.

(** ** Exceptions and the two effect monads *)

(** The exception classes the modelled code raises. *)
Inductive exn :=
  | TypeError
  | ValueError
  | KeyError
  | IndexError
  | OverflowError
  | OSError
  | RuntimeError
  | ModelError (msg : string)
  | PathPairError (msg : string)
  | PathPairConflictError (msg : string)
  | PersistError (msg : string)
  | ExtractError (msg : string)
  | ExtractDispatchError (msg : string)
  | ConfigError (msg : string)
  | AttributeError
  | AssertionError
  | LftpJobStatusParserError (msg : string)
  | LftpKnownOptionsMirrorHeaderError
  | ModelPageCursorError (msg : string)
  | CursorContractError
  | HttpAbort (status : Z)
  | DuplicateSectionError
  | DuplicateOptionError
  | ParsingError
  | AppError (msg : string)
  | ExternalError (msg : string).

#[export] Instance exn_eq_dec : EqDecision exn.
Proof. solve_decision. Defined.

(** Outcome of a Python call: a returned value or a raised exception. *)
Inductive result (A : Type) :=
  | Ok (a : A)
  | Raise (e : exn).
Arguments Ok {A} a.
Arguments Raise {A} e.

#[export] Instance result_ret : MRet result := fun A a => Ok a.
#[export] Instance result_bind : MBind result := fun A B f m =>
  match m with Ok a => f a | Raise e => Raise e end.

Definition is_ok {A} (r : result A) : bool :=
  match r with Ok _ => true | Raise _ => false end.

(** State-passing code that may raise.  As in Python, what was written before
    the exception stays written. *)
Definition st (S A : Type) : Type := S -> result A * S.

#[export] Instance st_ret {S} : MRet (st S) := fun A a s => (Ok a, s).
#[export] Instance st_bind {S} : MBind (st S) := fun A B f m s =>
  match m s with
  | (Ok a, s') => f a s'
  | (Raise e, s') => (Raise e, s')
  end.

Definition raise {S A} (e : exn) : st S A := fun s => (Raise e, s).
Definition gets {S A} (f : S -> A) : st S A := fun s => (Ok (f s), s).
Definition modify {S} (f : S -> S) : st S unit := fun s => (Ok tt, f s).
Definition lift {S A} (r : result A) : st S A := fun s => (r, s).

Definition when {S} (b : bool) (m : st S unit) : st S unit :=
  if b then m else mret tt.

(** [for x in l: f x] *)
Fixpoint mfor {S A} (l : list A) (f : A -> st S unit) : st S unit :=
  match l with
  | [] => mret tt
  | x :: l' => f x;; mfor l' f
  end.

(** [try: m finally: fin]; an exception of [fin] replaces the outcome. *)
Definition mfinally {S A} (m : st S A) (fin : st S unit) : st S A := fun s =>
  let '(r, s1) := m s in
  match fin s1 with
  | (Ok _, s2) => (r, s2)
  | (Raise e, s2) => (Raise e, s2)
  end.

(** ** Transition relations established by stateful code

    [within R m]: every run of [m], raising or not, relates its start state
    to its final state by [R].  For a preorder [R] the relation composes along
    the program; [keeps I] is preservation of an invariant. *)
Definition within {S A} (R : relation S) (m : st S A) : Prop := forall s, R s (m s).2.

Definition keeps {S} (I : S -> Prop) : relation S := fun s s' => I s -> I s'.

#[export] Instance keeps_preorder {S} (I : S -> Prop) : PreOrder (keeps I).
Proof. split; [intros s; unfold keeps; auto | intros a b c; unfold keeps; auto]. Qed.

Create HintDb within.

Section within.
Context {S : Type} (R : relation S) `{!PreOrder R}.

Lemma within_ret {A} (a : A) : within R (mret (M := st S) a).
Proof. intros s. simpl. reflexivity. Qed.

Lemma within_raise {A} e : within R (raise (A := A) e).
Proof. intros s. simpl. reflexivity. Qed.

Lemma within_lift {A} (r : result A) : within R (lift r).
Proof. intros s. simpl. reflexivity. Qed.

Lemma within_gets {A} (f : S -> A) : within R (gets f).
Proof. intros s. simpl. reflexivity. Qed.

Lemma within_modify (f : S -> S) : (forall s, R s (f s)) -> within R (modify f).
Proof. intros H s. simpl. apply H. Qed.

Lemma within_bind {A B} (m : st S A) (k : A -> st S B) :
    within R m -> (forall a, within R (k a)) -> within R (m ≫= k).
Proof.
    intros Hm Hk s. specialize (Hm s). unfold mbind, st_bind.
    destruct (m s) as [[a|e] s'] eqn:E; simpl in *; [|done].
    etransitivity; [exact Hm|]. apply Hk.
Qed.

  (** The continuation after a read only has to behave at the state read. *)
Lemma within_bind_gets {A B} (f : S -> A) (k : A -> st S B) :
    (forall s, R s (k (f s) s).2) -> within R (gets f ≫= k).
Proof. intros H s. apply H. Qed.

Lemma within_when b m : within R m -> within R (when b m).
Proof. intros H. destruct b; [exact H | apply within_ret]. Qed.

Lemma within_mfor {A} (l : list A) f :
    (forall x, x ∈ l -> within R (f x)) -> within R (mfor l f).
Proof.
    induction l as [|x l IH]; simpl; intros H; [apply within_ret|].
    apply within_bind; [apply H; left|]. intros _. apply IH.
    intros y Hy. apply H. by right.
Qed.

Lemma within_mfinally {A} (m : st S A) fin :
    within R m -> within R fin -> within R (mfinally m fin).
Proof.
    intros Hm Hf s. unfold mfinally. specialize (Hm s).
    destruct (m s) as [r s1]; simpl in *. specialize (Hf s1).
    destruct (fin s1) as [[u|e] s2]; simpl in *; by etransitivity.
Qed.
End within.

#[export] Hint Resolve within_ret within_raise within_lift within_gets within_when : within.

(** One step of the syntax-directed [within] argument. *)
Ltac within_step :=
  lazymatch goal with
  | |- within _ (mret _) => apply within_ret; exact _
  | |- within _ (raise _) => apply within_raise; exact _
  | |- within _ (lift _) => apply within_lift; exact _
  | |- within _ (gets _) => apply within_gets; exact _
  | |- within _ (when _ _) => apply within_when; [exact _|]
  | |- within _ (mfor _ _) => apply within_mfor; [exact _|intros ? ?]
  | |- within _ (mfinally _ _) => apply within_mfinally; [exact _| |]
  | |- within _ (mbind _ _) => apply within_bind; [exact _| |intros ?]
  end.

(** Walks a program built from the combinators; leaves the primitive updates
    and the calls not in the hint base. *)
Ltac within_auto :=
  repeat first
    [ solve [eauto with within]
    | within_step
    | match goal with
      | |- within _ (if ?b then _ else _) => destruct b
      | |- within _ (match ?x with _ => _ end) => destruct x
      | |- within _ (let '(_, _) := ?x in _) => destruct x
      end ].

(** Evaluation of a bind at a state whose first step is known. *)
Lemma st_bind_ok {S A B} (m : st S A) (k : A -> st S B) s a s' :
  m s = (Ok a, s') -> (m ≫= k) s = k a s'.
Proof. intros H. unfold mbind, st_bind. by rewrite H. Qed.

Lemma st_bind_raise {S A B} (m : st S A) (k : A -> st S B) s e s' :
  m s = (Raise e, s') -> (m ≫= k) s = (Raise e, s').
Proof. intros H. unfold mbind, st_bind. by rewrite H. Qed.

(** The part [pi] of the state is left alone. *)
Definition unchanged {S T} (pi : S -> T) : relation S := fun s s' => pi s' = pi s.

#[export] Instance unchanged_preorder {S T} (pi : S -> T) : PreOrder (unchanged pi).
Proof. split; [intros s; done | intros a b c; unfold unchanged; congruence]. Qed.

(** ** Total correctness

    [triple P m Q]: from a state satisfying [P] the program returns (it does
    not raise) and establishes [Q]. *)
Definition triple {S A} (P : S -> Prop) (m : st S A) (Q : A -> S -> Prop) : Prop :=
  forall s, P s -> exists a s', m s = (Ok a, s') /\ Q a s'.

Section triple.
Context {S : Type}.
Implicit Types (P : S -> Prop).

Lemma triple_ret {A} P (a : A) : triple P (mret (M := st S) a) (fun x s => x = a /\ P s).
Proof. intros s H. by exists a, s. Qed.

Lemma triple_gets {A} P (f : S -> A) : triple P (gets f) (fun x s => x = f s /\ P s).
Proof. intros s H. by exists (f s), s. Qed.

Lemma triple_modify P (f : S -> S) (Q : S -> Prop) :
  (forall s, P s -> Q (f s)) -> triple P (modify f) (fun _ s => Q s).
Proof. intros H s Hs. exists tt, (f s). split; [done|]. by apply H. Qed.

Lemma triple_bind {A B} P (m : st S A) (Q : A -> S -> Prop) (k : A -> st S B) R :
  triple P m Q -> (forall a, triple (Q a) (k a) R) -> triple P (m ≫= k) R.
Proof.
  intros Hm Hk s Hs. destruct (Hm s Hs) as (a & s1 & E & HQ).
  destruct (Hk a s1 HQ) as (b & s2 & E2 & HR). exists b, s2. split; [|done].
  by rewrite (st_bind_ok _ _ _ _ _ E).
Qed.

Lemma triple_conseq {A} P P' (m : st S A) (Q Q' : A -> S -> Prop) :
  triple P' m Q' -> (forall s, P s -> P' s) -> (forall a s, Q' a s -> Q a s) -> triple P m Q.
Proof.
  intros H HP HQ s Hs. destruct (H s (HP s Hs)) as (a & s' & E & HQ'). exists a, s'. auto.
Qed.

(** A loop with an invariant that may mention the elements still to visit. *)
Lemma triple_mfor {A} (I : list A -> S -> Prop) (l : list A) f :
  (forall x l', x ∈ l -> triple (I (x :: l')) (f x) (fun _ => I l')) ->
  triple (I l) (mfor l f) (fun _ => I []).
Proof.
  induction l as [|x l IH]; intros H; simpl.
  - intros s Hs. by exists tt, s.
  - eapply triple_bind; [apply (H x l); left|]. intros u. apply IH.
    intros y l' Hy. apply H. by right.
Qed.

(** With an invariant that does not change along the loop. *)
Lemma triple_mfor_inv {A} P (l : list A) f :
  (forall x, x ∈ l -> triple P (f x) (fun _ => P)) -> triple P (mfor l f) (fun _ => P).
Proof. intros H. apply (triple_mfor (fun _ => P)). auto. Qed.

Lemma triple_mfinally {A} P (m : st S A) (Q : A -> S -> Prop) fin (R : A -> S -> Prop) :
  triple P m Q -> (forall a, triple (Q a) fin (fun _ => R a)) -> triple P (mfinally m fin) R.
Proof.
  intros Hm Hf s Hs. destruct (Hm s Hs) as (a & s1 & E & HQ).
  destruct (Hf a s1 HQ) as (u & s2 & E2 & HR). exists a, s2. split; [|done].
  unfold mfinally. by rewrite E, E2.
Qed.
End triple.

(** ** Partial correctness with an exceptional postcondition

    [spec P m Q E]: a run from [P] that returns establishes [Q], one that
    raises leaves the state in [E]. *)
Definition spec {S A} (P : S -> Prop) (m : st S A) (Q : A -> S -> Prop) (E : S -> Prop) : Prop :=
  forall s, P s -> match m s with (Ok a, s') => Q a s' | (Raise _, s') => E s' end.

Section spec.
Context {S : Type}.
Implicit Types (P E : S -> Prop).

Lemma spec_bind {A B} P (m : st S A) (Q : A -> S -> Prop) (k : A -> st S B) R E :
  spec P m Q E -> (forall a, spec (Q a) (k a) R E) -> spec P (m ≫= k) R E.
Proof.
  intros Hm Hk s Hs. specialize (Hm s Hs). unfold mbind, st_bind.
  destruct (m s) as [[a|e] s']; [by apply Hk | exact Hm].
Qed.

Lemma spec_gets {A B} P (f : S -> A) (k : A -> st S B) R E :
  (forall s, P s -> spec (fun s' => s' = s) (k (f s)) R E) -> spec P (gets f ≫= k) R E.
Proof. intros H s Hs. by apply (H s Hs). Qed.

Lemma spec_lift {A B} P (r : result A) (k : A -> st S B) R E :
  (forall e, r = Raise e -> forall s, P s -> E s) ->
  (forall a, r = Ok a -> spec P (k a) R E) -> spec P (lift r ≫= k) R E.
Proof.
  intros He Hk s Hs. unfold mbind, st_bind, lift. destruct r as [a|e]; [by apply Hk | by eapply He].
Qed.

(** Code that leaves [pi] alone keeps what depends on [pi] only. *)
Lemma spec_frame {A T} (pi : S -> T) P (m : st S A) E :
  within (unchanged pi) m -> (forall s s', unchanged pi s s' -> P s -> P s') ->
  (forall s, P s -> E s) -> spec P m (fun _ => P) E.
Proof.
  intros Hm HP HE s Hs. specialize (Hm s). destruct (m s) as [[a|e] s']; simpl in Hm; eauto.
Qed.

Lemma spec_within (I : S -> Prop) {A} (m : st S A) :
  within (keeps I) m <-> spec I m (fun _ => I) I.
Proof.
  split; intros H s Hs; specialize (H s); unfold keeps in *; destruct (m s) as [[a|e] s']; auto.
Qed.

Lemma spec_mfinally {A} P (m : st S A) (Q : A -> S -> Prop) E fin (R : A -> S -> Prop) E' :
  spec P m Q E -> (forall a, triple (Q a) fin (fun _ => R a)) -> triple E fin (fun _ => E') ->
  spec P (mfinally m fin) R E'.
Proof.
  intros Hm HQ HE s Hs. specialize (Hm s Hs). unfold mfinally.
  destruct (m s) as [[a|e] s1]; [destruct (HQ a s1 Hm) as (u & s2 & -> & ?)
                                |destruct (HE s1 Hm) as (u & s2 & -> & ?)]; done.
Qed.

Lemma spec_conseq {A} P P' (m : st S A) (Q Q' : A -> S -> Prop) E E' :
  spec P' m Q' E' -> (forall s, P s -> P' s) -> (forall a s, Q' a s -> Q a s) ->
  (forall s, E' s -> E s) -> spec P m Q E.
Proof.
  intros H HP HQ HE s Hs. specialize (H s (HP s Hs)). destruct (m s) as [[a|e] s']; auto.
Qed.
End spec.

(** ** Code that never raises *)
Definition returns {S A} (m : st S A) : Prop := forall s, exists a s', m s = (Ok a, s').

Create HintDb returns.

Section returns.
Context {S : Type}.

Lemma returns_ret {A} (a : A) : returns (mret (M := st S) a).
Proof. intros s. by exists a, s. Qed.

Lemma returns_gets {A} (f : S -> A) : returns (gets f).
Proof. intros s. by exists (f s), s. Qed.

Lemma returns_modify (f : S -> S) : returns (modify f).
Proof. intros s. by exists tt, (f s). Qed.

Lemma returns_bind {A B} (m : st S A) (k : A -> st S B) :
  returns m -> (forall a, returns (k a)) -> returns (m ≫= k).
Proof.
  intros Hm Hk s. destruct (Hm s) as (a & s' & E). rewrite (st_bind_ok _ _ _ _ _ E). apply Hk.
Qed.

Lemma returns_when b (m : st S unit) : returns m -> returns (when b m).
Proof. intros H. destruct b; [exact H | apply returns_ret]. Qed.

Lemma returns_mfor {A} (l : list A) (f : A -> st S unit) : (forall x, returns (f x)) -> returns (mfor l f).
Proof.
  intros H. induction l as [|x l IH]; simpl; [apply returns_ret|]. by apply returns_bind.
Qed.

Lemma triple_frame {A T} (pi : S -> T) (P : S -> Prop) (m : st S A) :
  returns m -> within (unchanged pi) m -> (forall s s', unchanged pi s s' -> P s -> P s') ->
  triple P m (fun _ => P).
Proof.
  intros Ht Hw HP s Hs. destruct (Ht s) as (a & s' & E). exists a, s'. split; [done|].
  specialize (Hw s). rewrite E in Hw. by eapply HP.
Qed.

Lemma triple_spec {A} (P : S -> Prop) (m : st S A) (Q : A -> S -> Prop) (E : S -> Prop) :
  triple P m Q -> spec P m Q E.
Proof. intros H s Hs. by destruct (H s Hs) as (a & s' & -> & HQ). Qed.

(** Reading the state: the continuation may depend on the state read. *)
Lemma triple_read {A B} (P : S -> Prop) (f : S -> A) (k : A -> st S B) R :
  (forall s, P s -> triple (fun s' => s' = s) (k (f s)) R) -> triple P (gets f ≫= k) R.
Proof. intros H s Hs. by apply (H s Hs). Qed.

Lemma triple_lift {A B} (P : S -> Prop) (a : A) (k : A -> st S B) R :
  triple P (k a) R -> triple P (lift (Ok a) ≫= k) R.
Proof. intros H s Hs. by apply (H s Hs). Qed.

(** The last step of a program whose value is known. *)
Lemma triple_mret {A} (P : S -> Prop) (a : A) (Q : A -> S -> Prop) :
  (forall s, P s -> Q a s) -> triple P (mret (M := st S) a) Q.
Proof. intros H s Hs. exists a, s. auto. Qed.

Lemma triple_weaken {A} (P : S -> Prop) (m : st S A) (Q Q' : A -> S -> Prop) :
  triple P m Q' -> (forall a s, Q' a s -> Q a s) -> triple P m Q.
Proof. intros H HQ. by eapply triple_conseq. Qed.

Lemma triple_pre {A} (P P' : S -> Prop) (m : st S A) (Q : A -> S -> Prop) :
  triple P' m Q -> (forall s, P s -> P' s) -> triple P m Q.
Proof. intros H HP. by eapply triple_conseq. Qed.

Lemma triple_pure {A} (phi : Prop) (P : S -> Prop) (m : st S A) (Q : A -> S -> Prop) :
  (phi -> triple P m Q) -> triple (fun s => phi /\ P s) m Q.
Proof. intros H s [Hphi Hs]. by apply H. Qed.

Lemma triple_assoc {A} (P : S -> Prop) (m k : st S unit) (rest : st S A) R :
  triple P ((m;; k);; rest) R -> triple P (m;; k;; rest) R.
Proof.
  intros H s Hs. destruct (H s Hs) as (a & s' & E & HR). exists a, s'. split; [|done].
  rewrite <- E. unfold mbind, st_bind. by destruct (m s) as [[]].
Qed.

Lemma spec_pre {A} (P P' : S -> Prop) (m : st S A) (Q : A -> S -> Prop) (E : S -> Prop) :
  spec P' m Q E -> (forall s, P s -> P' s) -> spec P m Q E.
Proof. intros H HP. by eapply spec_conseq. Qed.
End returns.

#[export] Hint Resolve returns_ret returns_gets returns_modify returns_when : returns.

Ltac returns_auto :=
  repeat first
    [ solve [eauto with returns]
    | lazymatch goal with
      | |- returns (mbind _ _) => apply returns_bind; [|intros ?]
      | |- returns (mfor _ _) => apply returns_mfor; intros ?
      | |- returns (when _ _) => apply returns_when
      | |- returns (if ?b then _ else _) => destruct b
      | |- returns (match ?x with _ => _ end) => destruct x
      end ].

(** ** Refusals

    [raises P m e Q]: from [P] the program raises [e] and leaves the state
    in [Q]. *)
Definition raises {S A} (P : S -> Prop) (m : st S A) (e : exn) (Q : S -> Prop) : Prop :=
  forall s, P s -> exists s', m s = (Raise e, s') /\ Q s'.

Section raises.
Context {S : Type}.

Lemma raises_bind {A B} (P : S -> Prop) (m : st S A) (P' : A -> S -> Prop) (k : A -> st S B) e Q :
  triple P m P' -> (forall a, raises (P' a) (k a) e Q) -> raises P (m ≫= k) e Q.
Proof.
  intros Hm Hk s Hs. destruct (Hm s Hs) as (a & s1 & E & H1). destruct (Hk a s1 H1) as (s2 & E2 & H2).
  exists s2. split; [|done]. by rewrite (st_bind_ok _ _ _ _ _ E).
Qed.

Lemma raises_read {A B} (P : S -> Prop) (f : S -> A) (k : A -> st S B) e Q :
  (forall s, P s -> raises (fun s' => s' = s) (k (f s)) e Q) -> raises P (gets f ≫= k) e Q.
Proof. intros H s Hs. by apply (H s Hs). Qed.

Lemma raises_raise {A} (P Q : S -> Prop) e : (forall s, P s -> Q s) -> raises P (raise (A := A) e) e Q.
Proof. intros H s Hs. exists s. auto. Qed.

Lemma raises_lift {A B} (P Q : S -> Prop) e (k : A -> st S B) :
  (forall s, P s -> Q s) -> raises P (lift (Raise e) ≫= k) e Q.
Proof. intros H s Hs. exists s. auto. Qed.
End raises.

(** ** Lists *)

Lemma filter_all_id {A} (P : A -> Prop) {HP : forall x, Decision (P x)} (l : list A) :
  (forall x, x ∈ l -> P x) -> filter P l = l.
Proof.
  induction l as [|x l IH]; intros H; [done|].
  rewrite filter_cons_True by (apply H; left). f_equal. apply IH. intros y Hy. apply H. by right.
Qed.

(** A comprehension with a filter: [[b for a in l if (b := f a) is not None]]. *)
Fixpoint filter_map {A B} (f : A -> option B) (l : list A) : list B :=
  match l with
  | [] => []
  | x :: l' => match f x with Some y => y :: filter_map f l' | None => filter_map f l' end
  end.

Lemma elem_of_filter_map {A B} (f : A -> option B) (l : list A) y :
  y ∈ filter_map f l <-> exists x, x ∈ l /\ f x = Some y.
Proof.
  induction l as [|x l IH]; simpl.
  - split; [intros H; inversion H | intros (x & H & _); inversion H].
  - destruct (f x) as [z|] eqn:E; setoid_rewrite elem_of_cons; rewrite IH; naive_solver.
Qed.

Lemma elem_of_concat_map {A B} (f : A -> list B) l y : y ∈ concat (map f l) <-> exists x, x ∈ l /\ y ∈ f x.
Proof.
  induction l as [|x l IH]; simpl; [split; [intros H; inversion H|intros (? & H & _); inversion H]|].
  rewrite elem_of_app, IH. setoid_rewrite elem_of_cons. naive_solver.
Qed.

(** ** Sorted identifiers *)
Definition sorted_ids (X : gset string) : list string := merge_sort String.le (elements X).

Lemma elem_of_sorted_ids X x : x ∈ sorted_ids X <-> x ∈ X.
Proof. unfold sorted_ids. by rewrite merge_sort_Permutation, elem_of_elements. Qed.

Lemma NoDup_sorted_ids X : NoDup (sorted_ids X).
Proof. unfold sorted_ids. rewrite merge_sort_Permutation. apply NoDup_elements. Qed.

Lemma StronglySorted_sorted_ids X : StronglySorted String.le (sorted_ids X).
Proof. apply StronglySorted_merge_sort; apply _. Qed.
