(* ===== verification/PyDict.v ===== *)
(** * Python dictionaries

    A [dict] keeps insertion order, and the modelled code relies on it (the
    order of [items()] decides the order of notifications and commands), so a
    dictionary is the list of its items.  Assignment to a present key keeps
    the key's position; a new key goes to the end.  The lemmas give the
    finite-map view ([dget] after each operation) and the key order. *)

From S2P Require Import Prelude.

Section dict.
Context {K : Type} `{!EqDecision K}.

Definition dict (V : Type) : Type := list (K * V).

(** [d.get(k)] *)
Fixpoint dget {V} (d : dict V) (k : K) : option V :=
  match d with
  | [] => None
  | (k', v) :: d' => if decide (k = k') then Some v else dget d' k
  end.

(** [k in d] *)
Definition dhas {V} (d : dict V) (k : K) : bool :=
  match dget d k with Some _ => true | None => false end.

(** [d[k] = v] *)
Fixpoint dset {V} (d : dict V) (k : K) (v : V) : dict V :=
  match d with
  | [] => [(k, v)]
  | (k', v') :: d' => if decide (k = k') then (k', v) :: d' else (k', v') :: dset d' k v
  end.

(** [d.pop(k, None)] *)
Fixpoint dpop {V} (d : dict V) (k : K) : dict V :=
  match d with
  | [] => []
  | (k', v') :: d' => if decide (k = k') then d' else (k', v') :: dpop d' k
  end.

Definition dkeys {V} (d : dict V) : list K := map fst d.
Definition dvals {V} (d : dict V) : list V := map snd d.

(** [d.update(l)], and a comprehension [{k: v for ...}] as an update of [{}] *)
Definition dupdate {V} (d : dict V) (l : list (K * V)) : dict V :=
  fold_left (fun acc kv => dset acc kv.1 kv.2) l d.
Definition dfrom {V} (l : list (K * V)) : dict V := dupdate [] l.

(** A dictionary proper: no key twice. *)
Definition dwf {V} (d : dict V) : Prop := NoDup (dkeys d).

Context {V : Type}.
Implicit Types (d : dict V) (k : K) (v : V).

Lemma dget_dset_eq d k v : dget (dset d k v) k = Some v.
Proof.
    induction d as [|[k' v'] d IH]; simpl; [by rewrite decide_True|].
    case_decide; simpl; [by rewrite decide_True | by rewrite decide_False].
Qed.

Lemma dget_dset_ne d k k' v : k <> k' -> dget (dset d k v) k' = dget d k'.
Proof.
    intros Hne. induction d as [|[k1 v1] d IH]; simpl; [by rewrite decide_False|].
    destruct (decide (k = k1)) as [->|]; simpl; [by rewrite !decide_False|].
    destruct (decide (k' = k1)); auto.
Qed.

Lemma dget_dset d k k' v :
    dget (dset d k v) k' = if decide (k = k') then Some v else dget d k'.
Proof. case_decide as E; [subst; apply dget_dset_eq | by apply dget_dset_ne]. Qed.

Lemma dget_None d k : dget d k = None <-> k ∉ dkeys d.
Proof.
    induction d as [|[k' v'] d IH]; simpl; [split; [intros _; apply not_elem_of_nil|done]|].
    rewrite not_elem_of_cons. case_decide; [naive_solver|]. rewrite IH. naive_solver.
Qed.

Lemma dget_is_Some d k : is_Some (dget d k) <-> k ∈ dkeys d.
Proof.
    rewrite <- not_eq_None_Some, dget_None.
    split; [intros H; destruct (decide (k ∈ dkeys d)); naive_solver | naive_solver].
Qed.

Lemma dget_Some_keys d k v : dget d k = Some v -> k ∈ dkeys d.
Proof. intros H. apply dget_is_Some. by exists v. Qed.

Lemma dhas_true d k : dhas d k = true <-> is_Some (dget d k).
Proof.
    unfold dhas. destruct (dget d k) as [v|]; [by split; [exists v|]|].
    split; [done|]. by intros [v Hv].
Qed.

Lemma dhas_false d k : dhas d k = false <-> dget d k = None.
Proof. unfold dhas. by destruct (dget d k). Qed.

Lemma dget_elem_of d k v : dwf d -> dget d k = Some v <-> (k, v) ∈ d.
Proof.
    unfold dwf. induction d as [|[k' v'] d IH]; simpl; intros Hnd.
    - split; [done | intros H; inversion H].
    - apply NoDup_cons in Hnd as [Hk Hnd]. rewrite elem_of_cons. case_decide as E.
      + subst k'. split; [intros [= ->]; by left|].
        intros [[= ->]|Hin]; [done|]. destruct Hk.
        apply list_elem_of_In, in_map_iff. exists (k, v).
        split; [done|]. by apply list_elem_of_In.
      + rewrite IH by done. naive_solver.
Qed.

Lemma dget_Some_elem_of d k v : dget d k = Some v -> (k, v) ∈ d.
Proof.
    induction d as [|[k' v'] d IH]; simpl; [done|].
    case_decide; [intros [= ->]; subst; left | intros; right; auto].
Qed.

Lemma dkeys_dset_fresh d k v : k ∉ dkeys d -> dset d k v = d ++ [(k, v)].
Proof.
    induction d as [|[k' v'] d IH]; simpl; [done|].
    rewrite not_elem_of_cons. intros [? ?]. rewrite decide_False by done. by rewrite IH.
Qed.

Lemma dkeys_dset_present d k v : k ∈ dkeys d -> dkeys (dset d k v) = dkeys d.
Proof.
    induction d as [|[k' v'] d IH]; simpl; [intros H; inversion H|].
    rewrite elem_of_cons. case_decide; simpl; [by subst|].
    intros [?|?]; [done|]. by rewrite IH.
Qed.

Lemma elem_of_dkeys_dset d k v k' : k' ∈ dkeys (dset d k v) <-> k' = k \/ k' ∈ dkeys d.
Proof.
    rewrite <- !dget_is_Some, dget_dset. case_decide as E; [subst|]; naive_solver.
Qed.

Lemma dset_dset d k v v' : dset (dset d k v) k v' = dset d k v'.
Proof.
    induction d as [|[k1 v1] d IH]; simpl; [by rewrite decide_True|].
    case_decide; simpl; [by rewrite decide_True | rewrite decide_False by done; by rewrite IH].
Qed.

Lemma dwf_dset d k v : dwf d -> dwf (dset d k v).
Proof.
    unfold dwf. intros H. destruct (decide (k ∈ dkeys d)).
    - by rewrite dkeys_dset_present.
    - rewrite dkeys_dset_fresh by done. unfold dkeys in *. rewrite map_app.
      apply NoDup_app; split_and!; simpl; [done| |apply NoDup_singleton].
      intros x Hx ->%list_elem_of_singleton. done.
Qed.

Lemma dget_dpop_ne d k k' : k <> k' -> dget (dpop d k) k' = dget d k'.
Proof.
    intros Hne. induction d as [|[k1 v1] d IH]; simpl; [done|].
    destruct (decide (k = k1)) as [->|]; simpl; [by rewrite decide_False|].
    case_decide; auto.
Qed.

Lemma elem_of_dkeys_dpop_sub d k k' : k' ∈ dkeys (dpop d k) -> k' ∈ dkeys d.
Proof.
    induction d as [|[k1 v1] d IH]; simpl; [done|]. case_decide; simpl.
    - by right.
    - rewrite !elem_of_cons. naive_solver.
Qed.

Lemma dwf_dpop d k : dwf d -> dwf (dpop d k).
Proof.
    unfold dwf. induction d as [|[k1 v1] d IH]; simpl; [done|].
    intros [Hk Hnd]%NoDup_cons. case_decide; simpl; [done|].
    apply NoDup_cons. split; [|auto]. by intros ?%elem_of_dkeys_dpop_sub.
Qed.

Lemma dget_dpop_eq d k : dwf d -> dget (dpop d k) k = None.
Proof.
    unfold dwf. induction d as [|[k1 v1] d IH]; simpl; [done|].
    intros [Hk Hnd]%NoDup_cons. case_decide; simpl.
    - subst. by apply dget_None.
    - rewrite decide_False by done. auto.
Qed.

Lemma dget_dpop d k k' :
    dwf d -> dget (dpop d k) k' = if decide (k = k') then None else dget d k'.
Proof. intros H. case_decide as E; [subst; by apply dget_dpop_eq | by apply dget_dpop_ne]. Qed.

Lemma dkeys_dpop_filter d k : dwf d -> dkeys (dpop d k) = filter (fun x => x <> k) (dkeys d).
Proof.
    unfold dwf. induction d as [|[k1 v1] d IH]; simpl; [done|].
    intros [Hk Hnd]%NoDup_cons. rewrite filter_cons. case_decide; simpl.
    - subst. rewrite decide_False by naive_solver. symmetry. apply filter_all_id. intros x Hx ->. done.
    - rewrite decide_True by done. by rewrite IH.
Qed.

Lemma dwf_nil : dwf ([] : dict V).
Proof. apply NoDup_nil_2. Qed.

Lemma dwf_dupdate d l : dwf d -> dwf (dupdate d l).
Proof.
    unfold dupdate. revert d. induction l as [|[k v] l IH]; simpl; intros d H; [done|].
    apply IH. by apply dwf_dset.
Qed.

Lemma dwf_dfrom (l : list (K * V)) : dwf (dfrom (V := V) l).
Proof. apply dwf_dupdate, dwf_nil. Qed.

Lemma dget_dupdate_not_in d l k : k ∉ map fst l -> dget (dupdate d l) k = dget d k.
Proof.
    unfold dupdate. revert d. induction l as [|[k1 v1] l IH]; simpl; intros d H; [done|].
    apply not_elem_of_cons in H as [? ?]. rewrite IH by done. by apply dget_dset_ne.
Qed.

Lemma elem_of_dkeys_dupdate d l k :
    k ∈ dkeys (dupdate d l) <-> k ∈ dkeys d \/ k ∈ map fst l.
Proof.
    unfold dupdate. revert d. induction l as [|[k1 v1] l IH]; simpl; intros d.
    - split; [auto | intros [?|H]; [done|inversion H]].
    - rewrite IH, elem_of_dkeys_dset, elem_of_cons. naive_solver.
Qed.

  (** Every item of an update comes from one of the two sides. *)
Lemma dget_dupdate_inv d l k v :
    dget (dupdate d l) k = Some v -> dget d k = Some v \/ (k, v) ∈ l.
Proof.
    unfold dupdate. revert d. induction l as [|[k1 v1] l IH]; simpl; intros d H; [auto|].
    apply IH in H as [H|H]; [|right; by right].
    rewrite dget_dset in H. case_decide; [|auto].
    injection H as <-. subst. right. left.
Qed.

  (** With distinct keys an update is the list read first. *)
Lemma dget_dfrom (l : list (K * V)) k : NoDup (map fst l) -> dget (dfrom l) k = dget l k.
Proof.
    unfold dfrom.
    assert (Hg : forall d : dict V, NoDup (map fst l) -> dget (dupdate d l) k =
      match dget l k with Some v => Some v | None => dget d k end); [|intros H; rewrite Hg by done; by destruct (dget l k)].
    unfold dupdate. induction l as [|[k1 v1] l IH]; simpl; intros d Hnd; [done|].
    apply NoDup_cons in Hnd as [Hk1 Hnd]. rewrite IH by done.
    destruct (decide (k = k1)) as [->|].
    - rewrite dget_dset_eq. apply dget_None in Hk1. by rewrite Hk1.
    - by rewrite dget_dset_ne.
Qed.
End dict.

Arguments dict K V : clear implicits.

#[export] Hint Resolve dwf_nil dwf_dset dwf_dpop dwf_dupdate dwf_dfrom : core.

(** The key set of a dictionary with string keys. *)
Definition dkeyset {V} (d : dict string V) : gset string := list_to_set (dkeys d).

Lemma elem_of_dkeyset {V} (d : dict string V) k : k ∈ dkeyset d <-> is_Some (dget d k).
Proof. unfold dkeyset. by rewrite elem_of_list_to_set, dget_is_Some. Qed.

(** Case analysis on the lookups of updated dictionaries. *)
Ltac dict_simpl :=
  repeat match goal with
    | |- context [dget (dset _ ?k _) ?k] => rewrite dget_dset_eq
    | H : ?k <> ?k' |- context [dget (dset _ ?k _) ?k'] => rewrite (dget_dset_ne _ k k') by exact H
    | H : context [dget (dset _ ?k _) ?k] |- _ => rewrite dget_dset_eq in H
    end.

Lemma Forall_dset {K V} `{EqDecision K} (P : K * V -> Prop) (d : dict K V) k v :
  Forall P d -> P (k, v) -> Forall P (dset d k v).
Proof.
  intros Hd Hv. induction Hd as [|[k' v'] d Hk Hd IH]; [by apply Forall_singleton|]. simpl.
  destruct (decide (k = k')) as [<-|]; by constructor.
Qed.
