(* ===== verification/PyStr.v ===== *)
(** * Python values, strings and POSIX paths

    A Python [str] is a sequence of code points; the model's alphabet is the
    code points 0..255, so a [str] is a Rocq [string].  On that alphabet
    [lower], [strip], [splitlines], the decimal digits and the JSON escapes
    below are exactly Python's.  [os.path] is [posixpath].  [fnmatch] follows
    the translation of [fnmatch.translate] (character classes included). *)

From S2P Require Import Prelude.
From Stdlib Require Export Ascii.

(** ** Dynamic values

    What a setter of the model classes can be handed.  Datetimes are naive
    and compared as instants; floats are carried opaquely. *)
Inductive pyval :=
  | PyNone
  | PyBool (b : bool)
  | PyInt (z : Z)
  | PyFloat (q : Z)
  | PyStr (s : string)
  | PyDatetime (t : Z)
  | PyList (l : list pyval).

(** [a == b]: a [bool] equals the integer it stands for; lists elementwise. *)
Fixpoint py_eq (a b : pyval) : bool :=
  match a, b with
  | PyNone, PyNone => true
  | PyBool x, PyBool y => Bool.eqb x y
  | PyBool x, PyInt y => Z.b2z x =? y
  | PyInt x, PyBool y => x =? Z.b2z y
  | PyInt x, PyInt y => x =? y
  | PyFloat x, PyFloat y => x =? y
  | PyStr x, PyStr y => String.eqb x y
  | PyDatetime x, PyDatetime y => x =? y
  | PyList x, PyList y =>
      (fix go (x y : list pyval) : bool :=
         match x, y with
         | [], [] => true
         | u :: x', v :: y' => py_eq u v && go x' y'
         | _, _ => false
         end) x y
  | _, _ => false
  end.

(** [type(a) is type(b) and a == b], which for [None] and booleans is [is]. *)
Definition py_same (a b : pyval) : bool :=
  match a, b with
  | PyBool _, PyInt _ | PyInt _, PyBool _ => false
  | _, _ => py_eq a b
  end.

(** ** Characters and strings *)

Definition chars (s : string) : list ascii := String.list_ascii_of_string s.
Definition str (l : list ascii) : string := String.string_of_list_ascii l.

Lemma str_chars s : str (chars s) = s.
Proof. apply String.string_of_list_ascii_of_string. Qed.

Lemma chars_str l : chars (str l) = l.
Proof. apply String.list_ascii_of_string_of_list_ascii. Qed.

#[export] Instance chars_inj : Inj (=) (=) chars.
Proof. intros a b H. by rewrite <- (str_chars a), H, str_chars. Qed.

#[export] Instance str_inj : Inj (=) (=) str.
Proof. intros a b H. by rewrite <- (chars_str a), H, chars_str. Qed.

Lemma chars_app s t : chars (s +:+ t) = chars s ++ chars t.
Proof. induction s as [|c s IH]; [done|]. simpl. unfold chars in *. by rewrite <- IH. Qed.

Lemma str_app l k : str (l ++ k) = str l +:+ str k.
Proof. apply (inj chars). by rewrite chars_app, !chars_str. Qed.

Definition ord (c : ascii) : Z := Z.of_N (N_of_ascii c).
Definition chr (z : Z) : ascii := ascii_of_N (Z.to_N z).

(** [str.lower] on code points below 256 *)
Definition lower_char (c : ascii) : ascii :=
  let n := ord c in
  if ((65 <=? n) && (n <=? 90)) || ((192 <=? n) && (n <=? 222) && negb (n =? 215))
  then chr (n + 32) else c.
Definition lower (s : string) : string := str (map lower_char (chars s)).

(** [str.isspace] for one character *)
Definition is_space (c : ascii) : bool :=
  let n := ord c in
  ((9 <=? n) && (n <=? 13)) || ((28 <=? n) && (n <=? 32)) || (n =? 133) || (n =? 160).

Fixpoint drop_while {A} (p : A -> bool) (l : list A) : list A :=
  match l with
  | [] => []
  | x :: l' => if p x then drop_while p l' else l
  end.

Definition rstrip_by (p : ascii -> bool) (l : list ascii) : list ascii :=
  rev (drop_while p (rev l)).

(** [s.strip()] *)
Definition strip (s : string) : string :=
  str (rstrip_by is_space (drop_while is_space (chars s))).

(** [s.rstrip(c)] *)
Definition rstrip_char (c : ascii) (s : string) : string :=
  str (rstrip_by (fun x => Ascii.eqb x c) (chars s)).

Fixpoint split_chars (c : ascii) (cur l : list ascii) : list (list ascii) :=
  match l with
  | [] => [rev cur]
  | x :: l' => if Ascii.eqb x c then rev cur :: split_chars c [] l' else split_chars c (x :: cur) l'
  end.

(** [s.split(c)] for a one-character separator *)
Definition split (c : ascii) (s : string) : list string := map str (split_chars c [] (chars s)).

Fixpoint prefix_of (p l : list ascii) : bool :=
  match p, l with
  | [], _ => true
  | x :: p', y :: l' => Ascii.eqb x y && prefix_of p' l'
  | _ :: _, [] => false
  end.

Definition startswith (s p : string) : bool := prefix_of (chars p) (chars s).
Definition endswith (s p : string) : bool := prefix_of (rev (chars p)) (rev (chars s)).

Fixpoint infix_of (p l : list ascii) : bool :=
  prefix_of p l || match l with [] => false | _ :: l' => infix_of p l' end.

(** [p in s] *)
Definition contains (s p : string) : bool := infix_of (chars p) (chars s).

(** Line boundaries of [str.splitlines]; CR LF counts once. *)
Definition is_line_break (c : ascii) : bool :=
  let n := ord c in
  ((10 <=? n) && (n <=? 13)) || ((28 <=? n) && (n <=? 30)) || (n =? 133).

Fixpoint splitlines_chars (cur l : list ascii) : list (list ascii) :=
  match l with
  | [] => match cur with [] => [] | _ => [rev cur] end
  | x :: l' =>
      if is_line_break x then
        match l' with
        | y :: l'' => if (ord x =? 13) && (ord y =? 10)
                      then rev cur :: splitlines_chars [] l''
                      else rev cur :: splitlines_chars [] l'
        | [] => [rev cur]
        end
      else splitlines_chars (x :: cur) l'
  end.

Definition splitlines (s : string) : list string := map str (splitlines_chars [] (chars s)).

Definition is_digit (c : ascii) : bool := (48 <=? ord c) && (ord c <=? 57).

Definition digit_value (c : ascii) : Z := ord c - 48.

Definition digits_value (l : list ascii) : Z :=
  fold_left (fun acc c => acc * 10 + digit_value c) l 0.

(** ** POSIX paths *)

Definition slash : ascii := "/".
Definition dot : ascii := ".".

(** [os.path.join(a, b)] *)
Definition path_join (a b : string) : string :=
  if startswith b "/" then b
  else if String.eqb a "" || endswith a "/" then a +:+ b
  else a +:+ "/" +:+ b.

(** [os.path.normpath(p)] *)
Definition normal_step (absolute : bool) (acc : list string) (comp : string) : list string :=
  if String.eqb comp "" || String.eqb comp "." then acc
  else if negb (String.eqb comp "..") then comp :: acc
  else match acc with
       | [] => if absolute then [] else [comp]
       | top :: rest => if String.eqb top ".." then comp :: acc else rest
       end.

Fixpoint join_path (l : list string) : string :=
  match l with [] => "" | [a] => a | a :: l' => a +:+ "/" +:+ join_path l' end.

Definition normpath (p : string) : string :=
  if String.eqb p "" then "." else
  let slashes := if negb (startswith p "/") then ""
                 else if startswith p "//" && negb (startswith p "///") then "//" else "/" in
  let comps := fold_left (normal_step (startswith p "/")) (split slash p) [] in
  let joined := slashes +:+ join_path (rev comps) in
  if String.eqb joined "" then "." else joined.

(** The characters after, and up to and including, the last [c]. *)
Fixpoint after_last (c : ascii) (cur l : list ascii) : list ascii :=
  match l with
  | [] => cur
  | x :: l' => if Ascii.eqb x c then after_last c l' l' else after_last c cur l'
  end.

(** [os.path.basename(p)] *)
Definition basename (p : string) : string := str (after_last slash (chars p) (chars p)).

(** [os.path.dirname(p)] *)
Definition dirname (p : string) : string :=
  let l := chars p in
  let base := after_last slash l l in
  let head := take (length l - length base) l in
  if forallb (fun x => Ascii.eqb x slash) head then str head
  else str (rstrip_by (fun x => Ascii.eqb x slash) head).

(** [os.path.splitext(p)]: the last dot of the last component splits, unless
    only dots precede it in that component. *)
Definition splitext (p : string) : string * string :=
  let l := chars p in
  let base := after_last slash l l in
  if negb (existsb (fun x => Ascii.eqb x dot) base) then (p, "") else
  let ext := after_last dot base base in
  let stem := take (length base - length ext - 1) base in
  if forallb (fun x => Ascii.eqb x dot) stem then (p, "")
  else (str (take (length l - length ext - 1) l), str (dot :: ext)).

(** ** fnmatch *)

(** A compiled pattern: what [fnmatch.translate] turns each part into. *)
Inductive glob_item :=
  | GStar
  | GAny
  | GLit (c : ascii)
  | GClass (neg : bool) (ranges : list (ascii * ascii))
  | GNever.

(** Scans for the closing bracket: body of the class and rest, or [None].
    A ['!'] and then a [']'] in first position belong to the body. *)
Fixpoint class_close (acc l : list ascii) : option (list ascii * list ascii) :=
  match l with
  | [] => None
  | x :: l' => if Ascii.eqb x "]" then Some (rev acc, l') else class_close (x :: acc) l'
  end.

Definition class_body (l : list ascii) : option (list ascii * list ascii) :=
  let '(pre1, l1) :=
    match l with
    | x :: l' => if Ascii.eqb x "!" then ([x], l') else ([], l)
    | [] => ([], l)
    end in
  let '(pre2, l2) :=
    match l1 with
    | x :: l' => if Ascii.eqb x "]" then ([x], l') else ([], l1)
    | [] => ([], l1)
    end in
  class_close (rev (pre1 ++ pre2)) l2.

(** [pat.find('-', k, j)] on the class body, from offset [k]. *)
Fixpoint find_hyphen (k : nat) (l : list ascii) : option nat :=
  match l, k with
  | [], _ => None
  | x :: l', O => if Ascii.eqb x "-" then Some O else option_map S (find_hyphen O l')
  | _ :: l', S k' => option_map S (find_hyphen k' l')
  end.

(** The chunks between the range-forming hyphens; [k] is the first offset
    at which a hyphen may form a range.  Fuel: each chunk is non-empty. *)
Fixpoint class_chunks (fuel : nat) (k : nat) (l : list ascii) : list (list ascii) :=
  match fuel with
  | O => [l]
  | S fuel' =>
      match find_hyphen k l with
      | None => [l]
      | Some i => take i l :: class_chunks fuel' 2 (drop (S i) l)
      end
  end.

(** A trailing hyphen is literal: an empty last chunk becomes a hyphen on the
    previous one. *)
Fixpoint fix_last_chunk (cs : list (list ascii)) : list (list ascii) :=
  match cs with
  | [c; []] => [c ++ ["-"%char]]
  | c :: cs' => c :: fix_last_chunk cs'
  | [] => []
  end.

(** Empty ranges are removed from the right. *)
Fixpoint drop_empty_ranges (cs : list (list ascii)) : list (list ascii) :=
  match cs with
  | [] => []
  | c :: cs' =>
      match drop_empty_ranges cs' with
      | [] => [c]
      | d :: ds =>
          match last c, d with
          | Some x, y :: d' =>
              if ord y <? ord x
              then (take (length c - 1) c ++ d') :: ds
              else c :: d :: ds
          | _, _ => c :: d :: ds
          end
      end
  end.

(** The class denoted by the chunks joined with range hyphens. *)
Fixpoint chunk_ranges (cs : list (list ascii)) : list (ascii * ascii) :=
  match cs with
  | [] => []
  | c :: cs' =>
      map (fun x => (x, x)) c ++
      (match last c, cs' with
       | Some x, (y :: _) :: _ => [(x, y)]
       | _, _ => []
       end) ++ chunk_ranges cs'
  end.

Definition class_item (body : list ascii) : glob_item :=
  let neg0 := match body with x :: _ => Ascii.eqb x "!" | [] => false end in
  let cs := drop_empty_ranges
              (fix_last_chunk (class_chunks (length body) (if neg0 then 2 else 1)%nat body)) in
  match cs with
  | [] | [[]] => GNever
  | (x :: c) :: ds =>
      if Ascii.eqb x "!" then
        match c, ds with
        | [], [] => GAny
        | [], _ => GClass true (("-"%char, "-"%char) :: chunk_ranges ds)
        | _, _ => GClass true (chunk_ranges (c :: ds))
        end
      else GClass false (chunk_ranges cs)
  | [] :: _ => GClass false (chunk_ranges cs)
  end.

(** [fnmatch.translate]; the fuel is the length of the pattern. *)
Fixpoint glob_compile (fuel : nat) (l : list ascii) : list glob_item :=
  match fuel, l with
  | O, _ | _, [] => []
  | S fuel', x :: l' =>
      if Ascii.eqb x "*" then GStar :: glob_compile fuel' l'
      else if Ascii.eqb x "?" then GAny :: glob_compile fuel' l'
      else if Ascii.eqb x "[" then
        match class_body l' with
        | None => GLit x :: glob_compile fuel' l'
        | Some (body, rest) => class_item body :: glob_compile fuel' rest
        end
      else GLit x :: glob_compile fuel' l'
  end.

Definition in_ranges (c : ascii) (rs : list (ascii * ascii)) : bool :=
  existsb (fun '(a, b) => (ord a <=? ord c) && (ord c <=? ord b)) rs.

Definition item_matches (i : glob_item) (c : ascii) : bool :=
  match i with
  | GStar | GNever => false
  | GAny => true
  | GLit x => Ascii.eqb x c
  | GClass neg rs => xorb neg (in_ranges c rs)
  end.

Fixpoint glob_match (p : list glob_item) (s : list ascii) : bool :=
  match p with
  | [] => match s with [] => true | _ => false end
  | GStar :: p' =>
      (fix star (s : list ascii) : bool :=
         glob_match p' s || match s with [] => false | _ :: s' => star s' end) s
  | i :: p' =>
      match s with
      | [] => false
      | c :: s' => item_matches i c && glob_match p' s'
      end
  end.

(** [fnmatch.fnmatchcase(name, pat)]; on POSIX [fnmatch.fnmatch] is the same. *)
Definition fnmatch (name pat : string) : bool :=
  glob_match (glob_compile (String.length pat) (chars pat)) (chars name).

Example fnmatch_ex1 : fnmatch "movie.2020.mkv" "*.20[0-2]?.mk[!a-u]" = true.
Proof. reflexivity. Qed.
Example fnmatch_ex2 : fnmatch "a]" "a[]-]" = true.
Proof. reflexivity. Qed.
Example fnmatch_ex3 : fnmatch "x" "[z-a]" = false.
Proof. reflexivity. Qed.
Example fnmatch_ex4 : fnmatch "[x" "[x" = true.
Proof. reflexivity. Qed.
Example fnmatch_ex5 : map (fun s => fnmatch s "[a-b-c]") ["a"; "b"; "-"; "c"; "d"] = [true; true; true; true; false].
Proof. reflexivity. Qed.

(** ** JSON strings *)

Definition hex_char (n : Z) : ascii := chr (if n <? 10 then 48 + n else 87 + n).

Definition hex_value (c : ascii) : option Z :=
  let n := ord c in
  if (48 <=? n) && (n <=? 57) then Some (n - 48)
  else if (97 <=? n) && (n <=? 102) then Some (n - 87)
  else if (65 <=? n) && (n <=? 70) then Some (n - 55)
  else None.

Definition quote : ascii := chr 34.
Definition backslash : ascii := chr 92.

(** One character as [json.dumps] writes it ([ensure_ascii]). *)
Definition esc_char (c : ascii) : list ascii :=
  let n := ord c in
  if n =? 34 then [backslash; quote]
  else if n =? 92 then [backslash; backslash]
  else if n =? 10 then [backslash; "n"%char]
  else if n =? 13 then [backslash; "r"%char]
  else if n =? 9 then [backslash; "t"%char]
  else if n =? 12 then [backslash; "f"%char]
  else if n =? 8 then [backslash; "b"%char]
  else if (32 <=? n) && (n <=? 126) then [c]
  else [backslash; "u"%char; "0"%char; "0"%char; hex_char (n / 16); hex_char (n mod 16)].

Definition json_str_chars (s : string) : list ascii :=
  quote :: concat (map esc_char (chars s)) ++ [quote].

(** [json.dumps(s)] for a string *)
Definition json_str (s : string) : string := str (json_str_chars s).

(** Reads the rest of a JSON string literal: contents and remaining input.
    [None] on a malformed literal, and on an escape outside the alphabet. *)
Fixpoint unesc (l : list ascii) : option (list ascii * list ascii) :=
  match l with
  | [] => None
  | x :: r =>
      if ord x =? 34 then Some ([], r)
      else if ord x =? 92 then
        match r with
        | e :: r1 =>
            let push c rest :=
              match rest with Some (s, k) => Some (c :: s, k) | None => None end in
            let n := ord e in
            if n =? 34 then push quote (unesc r1)
            else if n =? 92 then push backslash (unesc r1)
            else if n =? 47 then push slash (unesc r1)
            else if n =? 110 then push (chr 10) (unesc r1)
            else if n =? 114 then push (chr 13) (unesc r1)
            else if n =? 116 then push (chr 9) (unesc r1)
            else if n =? 102 then push (chr 12) (unesc r1)
            else if n =? 98 then push (chr 8) (unesc r1)
            else if n =? 117 then
              match r1 with
              | a :: b :: c :: d :: r2 =>
                  match hex_value a, hex_value b, hex_value c, hex_value d with
                  | Some 0, Some 0, Some h, Some k => push (chr (16 * h + k)) (unesc r2)
                  | _, _, _, _ => None
                  end
              | _ => None
              end
            else None
        | [] => None
        end
      else if ord x <? 32 then None
      else match unesc r with Some (s, k) => Some (x :: s, k) | None => None end
  end.

Lemma unesc_esc_char c rest :
  unesc (esc_char c ++ rest) =
  match unesc rest with Some (s, k) => Some (c :: s, k) | None => None end.
Proof. destruct c as [[] [] [] [] [] [] [] []]; reflexivity. Qed.

Lemma unesc_esc l r : unesc (concat (map esc_char l) ++ quote :: r) = Some (l, r).
Proof.
  induction l as [|c l IH]; [reflexivity|].
  cbn [map concat]. by rewrite <- app_assoc, unesc_esc_char, IH.
Qed.

Lemma json_str_unesc s r : unesc (tail (json_str_chars s) ++ r) = Some (chars s, r).
Proof. unfold json_str_chars. cbn [tail]. rewrite <- app_assoc. apply unesc_esc. Qed.

(** ** Facts about values *)

Section pyval_ind.
Context (P : pyval -> Prop)
  (Hnone : P PyNone) (Hbool : forall b, P (PyBool b)) (Hint : forall z, P (PyInt z))
  (Hfloat : forall q, P (PyFloat q)) (Hstr : forall s, P (PyStr s))
  (Hdt : forall t, P (PyDatetime t)) (Hlist : forall l, Forall P l -> P (PyList l)).

(** Induction with a hypothesis for every element of a list. *)
Fixpoint pyval_nested_ind (v : pyval) : P v :=
  match v with
  | PyNone => Hnone
  | PyBool b => Hbool b
  | PyInt z => Hint z
  | PyFloat q => Hfloat q
  | PyStr s => Hstr s
  | PyDatetime t => Hdt t
  | PyList l => Hlist l ((fix go (l : list pyval) : Forall P l :=
      match l with
      | [] => @Forall_nil_2 _ P
      | x :: l' => @Forall_cons_2 _ P x l' (pyval_nested_ind x) (go l')
      end) l)
  end.
End pyval_ind.

Lemma py_eq_refl v : py_eq v v = true.
Proof.
  induction v using pyval_nested_ind; simpl;
    rewrite ?Z.eqb_refl, ?String.eqb_refl, ?Bool.eqb_reflx; try done.
  induction H as [|x l Hx _ IH]; [done|]. by rewrite Hx, IH.
Qed.

Lemma py_eq_sym v w : py_eq v w = py_eq w v.
Proof.
  revert w. induction v using pyval_nested_ind; intros [] ; simpl;
    rewrite ?(Z.eqb_sym z), ?(Z.eqb_sym q), ?(Z.eqb_sym t), ?(String.eqb_sym s); try done.
  - by destruct b, b0.
  - rename l0 into k. revert k. induction H as [|x l Hx _ IH]; intros [|y k]; try done.
    by rewrite Hx, IH.
Qed.

Lemma py_eq_trans u v w : py_eq u v = true -> py_eq v w = true -> py_eq u w = true.
Proof.
  revert v w. induction u using pyval_nested_ind; intros [] []; cbn [py_eq]; try done;
    try (repeat match goal with b : bool |- _ => destruct b end; cbn [Z.b2z Bool.eqb]; intros; lia);
    rewrite ?String.eqb_eq; try congruence.
  - rename l0 into k, l1 into m. revert k m.
    induction H as [|x l Hx _ IH]; intros [|y k] [|z m]; try done.
    rewrite !andb_true_iff. intros [? ?] [? ?]. eauto.
Qed.

Lemma py_same_refl v : py_same v v = true.
Proof. destruct v; try done; apply py_eq_refl. Qed.

Lemma py_same_None v : py_same v PyNone = true <-> v = PyNone.
Proof. by destruct v. Qed.

Lemma py_same_False v : py_same v (PyBool false) = true <-> v = PyBool false.
Proof. destruct v as [| [] | | | | |]; simpl; naive_solver. Qed.

(** ** Facts about paths *)

Lemma startswith_spec s p : startswith s p = true <-> exists t, s = p +:+ t.
Proof.
  unfold startswith. split.
  - intros H. assert (Hp : exists l, chars s = chars p ++ l).
    { revert H. generalize (chars s). generalize (chars p). intros l.
      induction l as [|x l IH]; intros k H; [by exists k|].
      destruct k as [|y k]; simpl in H; [done|].
      apply andb_true_iff in H as [->%Ascii.eqb_eq Hk].
      apply IH in Hk as [l' ->]. by exists l'. }
    destruct Hp as [l Hl]. exists (str l). apply (inj chars). by rewrite chars_app, chars_str.
  - intros [t ->]. rewrite chars_app. generalize (chars t). generalize (chars p). intros l k.
    induction l as [|x l IH]; simpl; [done|]. by rewrite Ascii.eqb_refl.
Qed.

(** ** Facts about [split] *)

Lemma chars_nil s : chars s = [] <-> s = "".
Proof. by destruct s. Qed.

Lemma split_chars_last c l : forall cur, c ∉ l -> split_chars c cur l = [rev cur ++ l].
Proof.
  induction l as [|x l IH]; intros cur Hc; [by rewrite app_nil_r|]. apply not_elem_of_cons in Hc as [Hx Hl].
  cbn [split_chars]. rewrite (proj2 (Ascii.eqb_neq x c)) by congruence. rewrite IH by done. cbn [rev]. by rewrite <- app_assoc.
Qed.

Lemma split_chars_app c l rest : forall cur, c ∉ l -> split_chars c cur (l ++ c :: rest) = (rev cur ++ l) :: split_chars c [] rest.
Proof.
  induction l as [|x l IH]; intros cur Hc.
  - cbn [app split_chars]. by rewrite Ascii.eqb_refl, app_nil_r.
  - apply not_elem_of_cons in Hc as [Hx Hl]. cbn [app split_chars]. rewrite (proj2 (Ascii.eqb_neq x c)) by congruence.
    rewrite IH by done. cbn [rev]. by rewrite <- app_assoc.
Qed.

Lemma split_chars_back c l : forall cur, exists h t, split_chars c cur l = h :: t /\
  rev cur ++ l = h ++ concat (map (cons c) t).
Proof.
  induction l as [|x l IH]; intros cur; [by exists (rev cur), []|]. cbn [split_chars].
  destruct (Ascii.eqb_spec x c) as [->|Hne].
  - destruct (IH []) as (h & t & -> & E). exists (rev cur), (h :: t). split; [done|]. simpl in E. rewrite E. simpl. done.
  - destruct (IH (x :: cur)) as (h & t & E1 & E2). exists h, t. split; [done|]. rewrite <- E2. cbn [rev]. by rewrite <- app_assoc.
Qed.

(** ** Facts about [strip] *)

Lemma drop_while_stop {A} (p : A -> bool) l :
  match drop_while p l with [] => True | x :: _ => p x = false end.
Proof. induction l as [|x l IH]; simpl; [done|]. destruct (p x) eqn:E; [done|]. by rewrite E. Qed.

Lemma drop_while_stuck {A} (p : A -> bool) l :
  match l with [] => True | x :: _ => p x = false end -> drop_while p l = l.
Proof. destruct l as [|x l]; simpl; [done|]. by intros ->. Qed.

Lemma drop_while_suffix {A} (p : A -> bool) l : exists k, l = k ++ drop_while p l.
Proof.
  induction l as [|x l [k IH]]; simpl; [by exists []|]. destruct (p x); [exists (x :: k); simpl; by f_equal|by exists []].
Qed.

Lemma strip_strip s : strip (strip s) = strip s.
Proof.
  unfold strip, rstrip_by. rewrite chars_str. f_equal. f_equal.
  set (a := drop_while is_space (chars s)). pose proof (drop_while_stop is_space (chars s)) as Ha. fold a in Ha.
  set (b := drop_while is_space (rev a)). pose proof (drop_while_stop is_space (rev a)) as Hb. fold b in Hb.
  rewrite (drop_while_stuck is_space (rev b)); [rewrite rev_involutive; by apply drop_while_stuck|].
  destruct (drop_while_suffix is_space (rev a)) as [k Hk]. fold b in Hk.
  destruct (rev b) as [|x r] eqn:E; [done|].
  assert (Ea : a = (x :: r) ++ rev k) by (rewrite <- (rev_involutive a), Hk, rev_app_distr, E; done).
  by rewrite Ea in Ha.
Qed.

(** No space at either end. *)
Definition trimmed (l : list ascii) : Prop :=
  match l with [] => True | c :: _ => is_space c = false end /\ match rev l with [] => True | c :: _ => is_space c = false end.

Lemma strip_trimmed l : trimmed l -> strip (str l) = str l.
Proof.
  intros [Hh Hl]. unfold strip, rstrip_by. rewrite chars_str, (drop_while_stuck is_space l Hh), (drop_while_stuck is_space _ Hl).
  by rewrite rev_involutive.
Qed.

Lemma trimmed_strip s : strip s = s -> trimmed (chars s).
Proof.
  intros H. assert (Hc : chars s = rstrip_by is_space (drop_while is_space (chars s))) by (rewrite <- H at 1; apply chars_str).
  split.
  - rewrite Hc. unfold rstrip_by. set (a := drop_while is_space (chars s)).
    pose proof (drop_while_stop is_space (chars s)) as Ha. fold a in Ha.
    destruct (drop_while_suffix is_space (rev a)) as [k Hk]. destruct (rev (drop_while is_space (rev a))) as [|x r] eqn:E; [done|].
    assert (Ea : a = (x :: r) ++ rev k) by (rewrite <- (rev_involutive a), Hk, rev_app_distr, E; done). by rewrite Ea in Ha.
  - rewrite Hc. unfold rstrip_by. rewrite rev_involutive. apply drop_while_stop.
Qed.

Lemma trimmed_app l k : trimmed l -> trimmed k -> l <> [] -> k <> [] -> forall m, trimmed (l ++ m ++ k).
Proof.
  intros [Hl _] [_ Hk] Nl Nk m. split.
  - by destruct l.
  - rewrite !rev_app_distr. destruct (rev k) eqn:E; [|done]. apply (f_equal (@rev ascii)) in E. rewrite rev_involutive in E. done.
Qed.

Lemma rstrip_snoc_space l c : is_space c = true -> rstrip_by is_space (l ++ [c]) = rstrip_by is_space l.
Proof. intros H. unfold rstrip_by. rewrite rev_app_distr. cbn [rev app drop_while]. by rewrite H. Qed.

Lemma rstrip_trimmed l : trimmed l -> rstrip_by is_space l = l.
Proof. intros [_ Hl]. unfold rstrip_by. rewrite (drop_while_stuck is_space _ Hl). apply rev_involutive. Qed.

Lemma strip_snoc_space s c : is_space c = true -> strip (s +:+ str [c]) = strip s.
Proof.
  intros H. unfold strip. rewrite chars_app, chars_str. f_equal.
  destruct (drop_while is_space (chars s)) as [|x l] eqn:E.
  - assert (Hs : drop_while is_space (chars s ++ [c]) = []).
    { revert E. induction (chars s) as [|y k IH]; simpl; [by rewrite H|]. by destruct (is_space y). }
    by rewrite Hs.
  - assert (Hs : drop_while is_space (chars s ++ [c]) = (x :: l) ++ [c]).
    { revert E. induction (chars s) as [|y k IH]; simpl; [done|]. destruct (is_space y); [done|]. by intros [= -> ->]. }
    rewrite Hs. by apply rstrip_snoc_space.
Qed.
