(* ===== verification/Json.v ===== *)
(** * JSON as the service reads and writes it

    The parts of Python's [json] module that the persisted files go through:
    [json.dumps] with an indent and [json.loads], over strings of code points
    below 256.  Reading back what was written gives the same value. *)

From S2P Require Import Prelude PyDict PyStr.

(** A decoded value; a number with a fraction or exponent keeps its text. *)
Inductive json :=
  | JNull
  | JBool (b : bool)
  | JInt (z : Z)
  | JFloat (text : string)
  | JStr (s : string)
  | JArr (l : list json)
  | JObj (l : list (string * json)).

Section json_ind'.
Context (P : json -> Prop)
  (Hnull : P JNull) (Hbool : forall b, P (JBool b)) (Hint : forall z, P (JInt z))
  (Hfloat : forall t, P (JFloat t)) (Hstr : forall s, P (JStr s))
  (Harr : forall l, Forall P l -> P (JArr l))
  (Hobj : forall l, Forall (fun kv => P kv.2) l -> P (JObj l)).

Fixpoint json_ind' (v : json) : P v :=
  match v with
  | JNull => Hnull
  | JBool b => Hbool b
  | JInt z => Hint z
  | JFloat t => Hfloat t
  | JStr s => Hstr s
  | JArr l => Harr l ((fix go l : Forall P l :=
      match l with [] => Forall_nil_2 _ | x :: l' => Forall_cons_2 _ _ _ (json_ind' x) (go l') end) l)
  | JObj l => Hobj l ((fix go l : Forall (fun kv => P kv.2) l :=
      match l with [] => Forall_nil_2 _ | x :: l' => Forall_cons_2 _ _ _ (json_ind' x.2) (go l') end) l)
  end.
End json_ind'.

(** ** Decimal numbers *)

Fixpoint show_digits (fuel : nat) (z : Z) (acc : list ascii) : list ascii :=
  match fuel with
  | O => acc
  | S n => let acc' := chr (48 + z mod 10) :: acc in
           if z <? 10 then acc' else show_digits n (z / 10) acc'
  end.

(** [str(z)] *)
Definition show_int (z : Z) : list ascii :=
  if z <? 0 then "-"%char :: show_digits (S (Z.to_nat (Z.log2 (- z)))) (- z) []
  else show_digits (S (Z.to_nat (Z.log2 z))) z [].

Lemma ord_chr z : 0 <= z < 256 -> ord (chr z) = z.
Proof.
  intros H. unfold ord, chr. rewrite N_ascii_embedding; [lia|]. lia.
Qed.

Lemma is_digit_chr z : 0 <= z < 10 -> is_digit (chr (48 + z)) = true.
Proof. intros H. unfold is_digit. rewrite ord_chr by lia. lia. Qed.

Lemma digits_value_app l k :
  digits_value (l ++ k) = digits_value l * 10 ^ (Z.of_nat (length k)) + digits_value k.
Proof.
  unfold digits_value.
  assert (H : forall k a, fold_left (fun acc c => acc * 10 + digit_value c) k a =
    a * 10 ^ Z.of_nat (length k) + fold_left (fun acc c => acc * 10 + digit_value c) k 0).
  { clear. induction k as [|c k IH]; intros a; [simpl; lia|].
    cbn [fold_left length]. rewrite IH, (IH (0 * 10 + digit_value c)).
    rewrite Nat2Z.inj_succ, Z.pow_succ_r by lia. lia. }
  rewrite fold_left_app. apply H.
Qed.

Lemma show_digits_spec n z acc : 0 <= z < 10 ^ Z.of_nat n -> (n <> 0)%nat -> (forall c, c ∈ acc -> is_digit c = true) ->
  (forall c, c ∈ show_digits n z acc -> is_digit c = true) /\
  digits_value (show_digits n z acc) = z * 10 ^ Z.of_nat (length acc) + digits_value acc /\
  exists c l, show_digits n z acc = c :: l /\ (c = "0"%char -> z = 0 /\ l = acc).
Proof.
  revert z acc. induction n as [|n IH]; intros z acc Hz Hn Hacc; [lia|].
  rewrite Nat2Z.inj_succ, Z.pow_succ_r in Hz by lia. cbn [show_digits]. pose proof (Z.mod_pos_bound z 10 ltac:(lia)) as Hm.
  set (c := chr (48 + z mod 10)).
  assert (Hc : is_digit c = true) by (by apply is_digit_chr).
  assert (Hv : digit_value c = z mod 10) by (unfold digit_value, c; rewrite ord_chr by lia; lia).
  assert (Hacc' : forall x, x ∈ c :: acc -> is_digit x = true).
  { intros x [->|Hx]%elem_of_cons; auto. }
  assert (Hval : digits_value (c :: acc) = z mod 10 * 10 ^ Z.of_nat (length acc) + digits_value acc).
  { change (c :: acc) with ([c] ++ acc). rewrite digits_value_app. f_equal. unfold digits_value. simpl. lia. }
  destruct (Z.ltb_spec z 10) as [Hlt|Hge].
  - rewrite Z.mod_small in * by lia. split_and!; [done|done|]. exists c, acc. split; [done|].
    intros Hz0. split; [|done]. rewrite Hz0 in Hv. change (digit_value "0"%char) with 0 in Hv. lia.
  - pose proof (Z.div_mod z 10 ltac:(lia)) as Hdm.
    assert (Hdiv : 1 <= z / 10 < 10 ^ Z.of_nat n).
    { split; [apply Z.div_le_lower_bound; lia|]. apply Z.div_lt_upper_bound; lia. }
    assert (Hn' : (n <> 0)%nat) by (intros ->; simpl in Hdiv; lia).
    destruct (IH (z / 10) (c :: acc) ltac:(lia) Hn' Hacc') as (H1 & H2 & c' & l & H3 & H4).
    split_and!; [done| |].
    + rewrite H2, Hval. cbn [length]. rewrite Nat2Z.inj_succ, Z.pow_succ_r by lia. nia.
    + exists c', l. split; [done|]. intros ->. destruct H4 as [? _]; [done|]. lia.
Qed.

(** ** Writing *)

(** How [json.dumps] lays a value out: with an [indent], on one line with the
    default separators, or with [separators=(",", ":")]. *)
Inductive style :=
  | Indent (n : nat)
  | Spaced
  | Compact.
Coercion Indent : nat >-> style.
Bind Scope nat_scope with style.

Definition newline (indent : style) (lvl : nat) : list ascii :=
  match indent with Indent n => chr 10 :: repeat " "%char (n * lvl) | _ => [] end.

(** the item separator, and what follows the colon of a member *)
Definition item_sep (indent : style) (lvl : nat) : list ascii :=
  ","%char :: match indent with Spaced => [" "%char] | _ => newline indent lvl end.
Definition key_pad (indent : style) : list ascii :=
  match indent with Compact => [] | _ => [" "%char] end.

(** [json.dumps(v)] in a layout, at nesting level [lvl] *)
Fixpoint dump (indent : style) (lvl : nat) (v : json) : list ascii :=
  match v with
  | JNull => chars "null"
  | JBool b => chars (if b then "true" else "false")
  | JInt z => show_int z
  | JFloat t => chars t
  | JStr s => json_str_chars s
  | JArr [] => chars "[]"
  | JArr l =>
      "["%char :: newline indent (S lvl) ++
      (fix items l :=
         match l with
         | [] => []
         | [x] => dump indent (S lvl) x
         | x :: l' => dump indent (S lvl) x ++ item_sep indent (S lvl) ++ items l'
         end) l ++ newline indent lvl ++ ["]"%char]
  | JObj [] => chars "{}"
  | JObj l =>
      "{"%char :: newline indent (S lvl) ++
      (fix items l :=
         match l with
         | [] => []
         | [(k, x)] => json_str_chars k ++ ":"%char :: key_pad indent ++ dump indent (S lvl) x
         | (k, x) :: l' => json_str_chars k ++ ":"%char :: key_pad indent ++ dump indent (S lvl) x ++
                           item_sep indent (S lvl) ++ items l'
         end) l ++ newline indent lvl ++ ["}"%char]
  end.

Definition dumps (indent : style) (v : json) : string := str (dump indent 0 v).

(** ** Reading *)

Definition json_space (c : ascii) : bool :=
  let n := ord c in (n =? 32) || (n =? 10) || (n =? 13) || (n =? 9).

Definition skip (l : list ascii) : list ascii := drop_while json_space l.

Fixpoint take_while {A} (p : A -> bool) (l : list A) : list A :=
  match l with
  | [] => []
  | x :: l' => if p x then x :: take_while p l' else []
  end.

(** [int()] refuses more digits than the interpreter's limit. *)
Definition max_int_digits : nat := 4300.

(** [int(s)]; [None] is [ValueError] *)
Definition py_int (s : string) : option Z :=
  let l := chars (strip s) in
  let '(neg, ds) :=
    match l with
    | c :: r => if ord c =? 45 then (true, r) else if ord c =? 43 then (false, r) else (false, l)
    | [] => (false, l)
    end in
  let groups := split_chars "_" [] ds in
  if forallb (fun g => match g with [] => false | _ => forallb is_digit g end) groups
     && (length (concat groups) <=? max_int_digits)%nat
  then Some (if neg : bool then - digits_value (concat groups) else digits_value (concat groups)) else None.

(** Fraction and exponent of a number, if well formed. *)
Definition scan_fraction (l : list ascii) : list ascii * list ascii :=
  match l with
  | c :: r =>
      if Ascii.eqb c dot then
        match take_while is_digit r with
        | [] => ([], l)
        | ds => (c :: ds, drop_while is_digit r)
        end
      else ([], l)
  | [] => ([], l)
  end.

Definition scan_exponent (l : list ascii) : list ascii * list ascii :=
  match l with
  | c :: r =>
      if (ord c =? 101) || (ord c =? 69) then
        let '(sign, r') :=
          match r with
          | d :: r' => if (ord d =? 43) || (ord d =? 45) then ([d], r') else ([], r)
          | [] => ([], r)
          end in
        match take_while is_digit r' with
        | [] => ([], l)
        | ds => (c :: sign ++ ds, drop_while is_digit r')
        end
      else ([], l)
  | [] => ([], l)
  end.

Definition scan_number (l : list ascii) : option (json * list ascii) :=
  let '(neg, r) := match l with c :: r => if ord c =? 45 then (true, r) else (false, l) | [] => (false, l) end in
  let '(ds, r1) :=
    match r with
    | c :: r' => if ord c =? 48 then ([c], r') else (take_while is_digit r, drop_while is_digit r)
    | [] => ([], r)
    end in
  match ds with
  | [] => None
  | _ =>
      let '(frac, r2) := scan_fraction r1 in
      let '(ex, r3) := scan_exponent r2 in
      match frac ++ ex with
      | [] =>
          if (max_int_digits <? length ds)%nat then None
          else Some (JInt (if neg : bool then - digits_value ds else digits_value ds), r1)
      | tail => Some (JFloat (str ((if neg then ["-"%char] else []) ++ ds ++ tail)), r3)
      end
  end.

(** Literals, by their text. *)
Definition scan_literal (l : list ascii) : option (json * list ascii) :=
  let lit (w : string) (v : json) :=
    if prefix_of (chars w) l then Some (v, drop (String.length w) l) else None in
  match lit "null" JNull with
  | Some r => Some r
  | None =>
  match lit "true" (JBool true) with
  | Some r => Some r
  | None =>
  match lit "false" (JBool false) with
  | Some r => Some r
  | None =>
  match lit "NaN" (JFloat "NaN") with
  | Some r => Some r
  | None =>
  match lit "Infinity" (JFloat "Infinity") with
  | Some r => Some r
  | None => lit "-Infinity" (JFloat "-Infinity")
  end end end end end.

Fixpoint parse_value (n : nat) (l : list ascii) : option (json * list ascii) :=
  match n with
  | O => None
  | S n =>
      match l with
      | [] => None
      | c :: r =>
          if ord c =? 34 then
            match unesc r with Some (s, r') => Some (JStr (str s), r') | None => None end
          else if ord c =? 91 then
            match skip r with
            | d :: r' => if ord d =? 93 then Some (JArr [], r') else
                match parse_items n (d :: r') with Some (xs, r2) => Some (JArr xs, r2) | None => None end
            | [] => None
            end
          else if ord c =? 123 then
            match skip r with
            | d :: r' => if ord d =? 125 then Some (JObj [], r') else
                match parse_members n (d :: r') with
                | Some (xs, r2) => Some (JObj (dfrom xs), r2) | None => None end
            | [] => None
            end
          else match scan_literal l with Some r => Some r | None => scan_number l end
      end
  end
with parse_items (n : nat) (l : list ascii) : option (list json * list ascii) :=
  match n with
  | O => None
  | S n =>
      match parse_value n l with
      | None => None
      | Some (v, r) =>
          match skip r with
          | c :: r' =>
              if ord c =? 93 then Some ([v], r')
              else if ord c =? 44 then
                match parse_items n (skip r') with Some (vs, r2) => Some (v :: vs, r2) | None => None end
              else None
          | [] => None
          end
      end
  end
with parse_members (n : nat) (l : list ascii) : option (list (string * json) * list ascii) :=
  match n with
  | O => None
  | S n =>
      match l with
      | q :: r =>
          if ord q =? 34 then
            match unesc r with
            | None => None
            | Some (k, r1) =>
                match skip r1 with
                | c :: r2 =>
                    if ord c =? 58 then
                      match parse_value n (skip r2) with
                      | None => None
                      | Some (v, r3) =>
                          match skip r3 with
                          | d :: r4 =>
                              if ord d =? 125 then Some ([(str k, v)], r4)
                              else if ord d =? 44 then
                                match parse_members n (skip r4) with
                                | Some (vs, r5) => Some ((str k, v) :: vs, r5) | None => None end
                              else None
                          | [] => None
                          end
                      end
                    else None
                | [] => None
                end
            end
          else None
      | [] => None
      end
  end.

(** [json.loads(s)]; [None] is [JSONDecodeError] (a [ValueError]).  Every
    call of the parser consumes a character, so the length is fuel enough. *)
Definition loads (s : string) : option json :=
  match parse_value (S (String.length s)) (skip (chars s)) with
  | Some (v, r) => match skip r with [] => Some v | _ => None end
  | None => None
  end.

(** ** Reading back what was written *)

(** What may follow a number. *)
Definition delim (rest : list ascii) : Prop :=
  match rest with
  | [] => True
  | c :: _ => is_digit c = false /\ Ascii.eqb c dot = false /\ (ord c =? 101) || (ord c =? 69) = false
  end.

(** The text of a number that is not an integer, as the reader takes it. *)
Definition json_float (t : string) : Prop :=
  (exists c l, chars t = c :: l /\ (c = "-"%char \/ is_digit c = true)) /\
  forall rest, delim rest ->
    scan_literal (chars t ++ rest) = None /\ scan_number (chars t ++ rest) = Some (JFloat t, rest).

(** Values the writer emits and the reader accepts: objects with distinct
    keys, integers within the interpreter's limit, finite floats. *)
Fixpoint json_ok (v : json) : Prop :=
  match v with
  | JFloat t => json_float t
  | JInt z => (length (show_int z) <= max_int_digits)%nat
  | JArr l => (fix all l := match l with [] => True | x :: l' => json_ok x /\ all l' end) l
  | JObj l => NoDup (map fst l) /\
      (fix all l := match l with [] => True | x :: l' => json_ok x.2 /\ all l' end) l
  | _ => True
  end.

Lemma json_ok_arr l : json_ok (JArr l) <-> Forall json_ok l.
Proof.
  simpl. induction l as [|x l IH]; simpl; [split; [intros; apply Forall_nil_2|done]|].
  rewrite Forall_cons, <- IH. done.
Qed.

Lemma json_ok_obj l : json_ok (JObj l) <-> NoDup (map fst l) /\ Forall (fun kv => json_ok kv.2) l.
Proof.
  simpl. apply and_iff_compat_l. induction l as [|x l IH]; simpl; [split; [intros; apply Forall_nil_2|done]|].
  rewrite Forall_cons, <- IH. done.
Qed.

Lemma show_digits_log z : 0 <= z -> z < 10 ^ Z.of_nat (S (Z.to_nat (Z.log2 z))).
Proof.
  intros Hz. pose proof (Z.log2_nonneg z). rewrite Nat2Z.inj_succ, Z2Nat.id by lia.
  destruct (decide (z = 0)) as [->|Hne]; [vm_compute; done|].
  pose proof (Z.log2_spec z ltac:(lia)) as [_ Hlt].
  eapply Z.lt_le_trans; [exact Hlt|]. apply Z.pow_le_mono_l. lia.
Qed.

Lemma take_while_app {A} (p : A -> bool) l r : (forall x, x ∈ l -> p x = true) ->
  match r with [] => True | x :: _ => p x = false end ->
  take_while p (l ++ r) = l /\ drop_while p (l ++ r) = r.
Proof.
  induction l as [|x l IH]; simpl; intros Hl Hr.
  { destruct r as [|x r]; [done|]. simpl. by rewrite Hr. }
  rewrite Hl by left. destruct IH as [-> ->]; [|done|done]. intros y Hy. apply Hl. by right.
Qed.

Lemma scan_fraction_delim r : delim r -> scan_fraction r = ([], r).
Proof. destruct r as [|c r]; simpl; [done|]. by intros (_ & -> & _). Qed.
Lemma scan_exponent_delim r : delim r -> scan_exponent r = ([], r).
Proof. destruct r as [|c r]; simpl; [done|]. by intros (_ & _ & ->). Qed.

(** The digits of a natural number, as the scanner reads them. *)
Lemma digits_read z rest : 0 <= z -> delim rest ->
  exists c l, show_digits (S (Z.to_nat (Z.log2 z))) z [] = c :: l /\ is_digit c = true /\
    (forall x, x ∈ c :: l -> is_digit x = true) /\ digits_value (c :: l) = z /\
    (if ord c =? 48 then ([c], l ++ rest)
     else (take_while is_digit ((c :: l) ++ rest), drop_while is_digit ((c :: l) ++ rest))) = (c :: l, rest).
Proof.
  intros Hz Hd.
  destruct (show_digits_spec (S (Z.to_nat (Z.log2 z))) z []) as (H1 & H2 & c & l & E & H0).
  { split; [done|]. by apply show_digits_log. }
  { done. }
  { intros x Hx. inversion Hx. }
  rewrite E in *. exists c, l. simpl length in H2. rewrite Z.pow_0_r in H2.
  change (digits_value []) with 0 in H2. split_and!; [done|apply H1; left|done|lia|].
  destruct (ord c =? 48) eqn:Ec.
  - destruct H0 as [_ ->]; [|done]. apply Z.eqb_eq in Ec. revert Ec. by destruct c as [[] [] [] [] [] [] [] []].
  - destruct (take_while_app is_digit (c :: l) rest H1) as [-> ->]; [|done].
    destruct rest; [done|]. apply Hd.
Qed.

Lemma scan_number_show z rest : (length (show_int z) <= max_int_digits)%nat -> delim rest ->
  scan_number (show_int z ++ rest) = Some (JInt z, rest).
Proof.
  intros Hlen Hd. unfold show_int, scan_number in *. destruct (Z.ltb_spec z 0) as [Hneg|Hpos].
  - destruct (digits_read (- z) rest ltac:(lia) Hd) as (c & l & E & Hc & Hall & Hv & Hscan).
    rewrite E in *. cbn [app]. change (ord "-"%char =? 45) with true. cbv iota beta.
    cbn [app] in Hscan. rewrite Hscan, scan_fraction_delim, scan_exponent_delim by done. cbn [app].
    destruct (Nat.ltb_spec max_int_digits (length (c :: l))); [simpl in *; lia|].
    rewrite Hv. by rewrite Z.opp_involutive.
  - destruct (digits_read z rest Hpos Hd) as (c & l & E & Hc & Hall & Hv & Hscan).
    rewrite E in *. cbn [app].
    assert (ord c =? 45 = false) as -> by (unfold is_digit in Hc; lia).
    cbn [app] in Hscan. rewrite Hscan, scan_fraction_delim, scan_exponent_delim by done. cbn [app].
    destruct (Nat.ltb_spec max_int_digits (length (c :: l))); [lia|]. by rewrite Hv.
Qed.

(** ** The round trip *)

Fixpoint join (sep : list ascii) (ls : list (list ascii)) : list ascii :=
  match ls with
  | [] => []
  | [x] => x
  | x :: ls' => x ++ sep ++ join sep ls'
  end.

Definition dump_member (indent : style) (lvl : nat) (kv : string * json) : list ascii :=
  json_str_chars kv.1 ++ ":"%char :: key_pad indent ++ dump indent lvl kv.2.

Lemma dump_arr indent lvl x l :
  dump indent lvl (JArr (x :: l)) =
  "["%char :: newline indent (S lvl) ++
    join (item_sep indent (S lvl)) (map (dump indent (S lvl)) (x :: l)) ++
    newline indent lvl ++ ["]"%char].
Proof.
  cbn [dump]. f_equal. f_equal. f_equal.
  revert x. induction l as [|y l IH]; intros x; [done|]. rewrite IH. done.
Qed.

Lemma dump_obj indent lvl x l :
  dump indent lvl (JObj (x :: l)) =
  "{"%char :: newline indent (S lvl) ++
    join (item_sep indent (S lvl)) (map (dump_member indent (S lvl)) (x :: l)) ++
    newline indent lvl ++ ["}"%char].
Proof.
  cbn [dump]. f_equal. f_equal. f_equal.
  revert x. induction l as [|y l IH]; intros [k x]; [done|]. rewrite IH. unfold dump_member. cbn [map join fst snd].
  rewrite <- !app_assoc. cbn [app]. by rewrite <- !app_assoc.
Qed.

(** Fuel the reader needs for a value. *)
Fixpoint weight (v : json) : nat :=
  match v with
  | JArr l => S ((fix sum l := match l with [] => O | x :: l' => S (weight x) + sum l' end) l)
  | JObj l => S ((fix sum l := match l with [] => O | x :: l' => S (weight x.2) + sum l' end) l)
  | _ => 1
  end%nat.

Definition weights (l : list json) : nat := foldr (fun x n => (S (weight x) + n)%nat) O l.

Lemma weight_arr l : weight (JArr l) = S (weights l).
Proof. done. Qed.

Lemma weight_obj l : weight (JObj l) = S (weights (map snd l)).
Proof. simpl. f_equal. induction l as [|x l IH]; simpl; [done|]. by rewrite IH. Qed.

(** The first character of a written value. *)
Definition starts_value (c : ascii) : Prop :=
  json_space c = false /\ ord c <> 93 /\ ord c <> 125.

Lemma show_int_head z : exists c l, show_int z = c :: l /\ (c = "-"%char \/ is_digit c = true) /\
  (c = "-"%char -> exists d l', l = d :: l' /\ is_digit d = true).
Proof.
  unfold show_int. destruct (Z.ltb_spec z 0).
  - destruct (digits_read (- z) [] ltac:(lia) I) as (c & l & E & Hc & _). rewrite E.
    eexists _, _. split; [done|]. split; [by left|]. eauto.
  - destruct (digits_read z [] ltac:(lia) I) as (c & l & E & Hc & _). rewrite E.
    eexists _, _. split; [done|]. split; [by right|]. intros ->. done.
Qed.

Lemma dump_head indent lvl v : json_ok v -> exists c l, dump indent lvl v = c :: l /\ starts_value c.
Proof.
  intros Hv. destruct v as [|b|z|t|s|l|l]; try done.
  - by eexists _, _.
  - by destruct b; eexists _, _.
  - destruct (show_int_head z) as (c & l & E & Hc & _). exists c, l. split; [done|].
    destruct Hc as [->|Hc]; [done|]. unfold is_digit in Hc. unfold starts_value, json_space. lia.
  - destruct Hv as [(c & l & E & Hc) _]. exists c, l. split; [done|].
    destruct Hc as [->|Hc]; [done|]. unfold is_digit in Hc. unfold starts_value, json_space. lia.
  - by eexists _, _.
  - destruct l as [|x l]; [by eexists _, _|]. rewrite dump_arr. by eexists _, _.
  - destruct l as [|x l]; [by eexists _, _|]. rewrite dump_obj. by eexists _, _.
Qed.

Lemma skip_newline indent lvl r : skip (newline indent lvl ++ r) = skip r.
Proof.
  destruct indent as [n| |]; [|done..].
  unfold newline, skip. cbn [app drop_while]. change (json_space (chr 10)) with true. cbv iota.
  induction (n * lvl)%nat as [|k IH]; [done|]. cbn [repeat app drop_while].
  change (json_space " "%char) with true. done.
Qed.

Lemma skip_head c l : json_space c = false -> skip (c :: l) = c :: l.
Proof. intros H. unfold skip. cbn [drop_while]. by rewrite H. Qed.

Definition reads_back (indent : style) (v : json) : Prop :=
  json_ok v -> forall n lvl rest, (weight v <= n)%nat -> delim rest ->
  parse_value n (dump indent lvl v ++ rest) = Some (v, rest).

Lemma skip_sep indent lvl r : skip (tail (item_sep indent lvl) ++ r) = skip r.
Proof. destruct indent; [apply (skip_newline (Indent _))|done..]. Qed.

Lemma item_sep_cons indent lvl : item_sep indent lvl = ","%char :: tail (item_sep indent lvl).
Proof. done. Qed.

Lemma skip_pad indent r : skip (key_pad indent ++ r) = skip r.
Proof. by destruct indent. Qed.

Lemma delim_close indent lvl c r : c = "]"%char \/ c = "}"%char -> delim (newline indent lvl ++ c :: r).
Proof. by destruct indent; intros [-> | ->]. Qed.
#[local] Hint Resolve delim_close : core.

Lemma skip_dump indent lvl v r : json_ok v -> skip (dump indent lvl v ++ r) = dump indent lvl v ++ r.
Proof.
  intros Hv. destruct (dump_head indent lvl v Hv) as (c & l & -> & Hc & _). by apply skip_head.
Qed.

Lemma skip_close indent lvl c r : json_space c = false -> skip (newline indent lvl ++ c :: r) = c :: r.
Proof. intros Hc. rewrite skip_newline. by apply skip_head. Qed.

Lemma join_cons2 sep x y ls : join sep (x :: y :: ls) = x ++ sep ++ join sep (y :: ls).
Proof. done. Qed.

(** A joined list of texts starts like its first text. *)
Lemma skip_join sep x ls r : (forall k, skip (x ++ k) = x ++ k) -> skip (join sep (x :: ls) ++ r) = join sep (x :: ls) ++ r.
Proof.
  intros Hx. destruct ls as [|y ls]; [apply Hx|]. rewrite join_cons2, <- !app_assoc. apply Hx.
Qed.

Lemma parse_items_dump indent lvl l : Forall (reads_back indent) l -> Forall json_ok l -> l <> [] ->
  forall n rest, (weights l <= n)%nat ->
  parse_items n (join (item_sep indent (S lvl)) (map (dump indent (S lvl)) l) ++
    newline indent lvl ++ "]"%char :: rest) = Some (l, rest).
Proof.
  induction l as [|x l IH]; [done|]. intros [Hx Hl]%Forall_cons [Ox Ol]%Forall_cons _ n rest Hn.
  destruct n as [|n]; [simpl in Hn; lia|]. cbn [weights foldr] in Hn. fold (weights l) in Hn.
  cbn [parse_items map]. destruct l as [|y l].
  - cbn [map join]. rewrite Hx; [|done|simpl in Hn; lia|apply delim_close; auto].
    by rewrite skip_close.
  - cbn [map]. rewrite join_cons2, <- !app_assoc. rewrite Hx; [|done|lia|done]. rewrite item_sep_cons at 1. cbn [app]. rewrite skip_head by done.
    change (ord ","%char =? 93) with false. change (ord ","%char =? 44) with true. cbv iota.
    rewrite skip_sep, skip_join by (intros k; apply skip_dump; by apply Forall_cons in Ol as [? _]).
    specialize (IH Hl Ol ltac:(done) n rest). cbn [map] in IH. by rewrite IH by lia.
Qed.

Lemma unesc_key k r : unesc (concat (map esc_char (chars k)) ++ [quote] ++ r) = Some (chars k, r).
Proof. apply unesc_esc. Qed.

Lemma parse_members_dump indent lvl l :
  Forall (fun kv => reads_back indent kv.2) l -> Forall (fun kv => json_ok kv.2) l -> l <> [] ->
  forall n rest, (weights (map snd l) <= n)%nat ->
  parse_members n (join (item_sep indent (S lvl)) (map (dump_member indent (S lvl)) l) ++
    newline indent lvl ++ "}"%char :: rest) = Some (l, rest).
Proof.
  induction l as [|[k x] l IH]; [done|]. intros [Hx Hl]%Forall_cons [Ox Ol]%Forall_cons _ n rest Hn.
  simpl in Hx, Ox. destruct n as [|n]; [simpl in Hn; lia|].
  cbn [map snd weights foldr] in Hn. fold (weights (map snd l)) in Hn.
  assert (Hmember : forall r, dump_member indent (S lvl) (k, x) ++ r =
    quote :: concat (map esc_char (chars k)) ++ [quote] ++ ":"%char :: key_pad indent ++ dump indent (S lvl) x ++ r).
  { intros r. unfold dump_member, json_str_chars. cbn [fst snd app]. rewrite <- !app_assoc. cbn [app]. by rewrite <- !app_assoc. }
  cbn [parse_members map]. destruct l as [|y l].
  - cbn [map join]. rewrite Hmember. change (ord quote =? 34) with true. cbv iota.
    rewrite unesc_key, skip_head by done. change (ord ":"%char =? 58) with true. cbv iota.
    rewrite <- ?app_assoc, skip_pad, skip_dump by done. rewrite Hx; [|done|simpl in Hn; lia|apply delim_close; auto].
    rewrite skip_close by done. by rewrite str_chars.
  - cbn [map]. rewrite join_cons2, <- !app_assoc, Hmember. change (ord quote =? 34) with true. cbv iota.
    rewrite unesc_key, skip_head by done. change (ord ":"%char =? 58) with true. cbv iota.
    rewrite <- ?app_assoc, skip_pad, skip_dump by done. rewrite Hx; [|done|lia|done]. rewrite item_sep_cons at 1. cbn [app]. rewrite skip_head by done.
    change (ord ","%char =? 125) with false. change (ord ","%char =? 44) with true. cbv iota.
    rewrite skip_sep, skip_join by (by intros k').
    specialize (IH Hl Ol ltac:(done) n rest). cbn [map] in IH, Hn. rewrite IH by lia. by rewrite str_chars.
Qed.

Lemma prefix_of_head c p d l : c <> d -> prefix_of (c :: p) (d :: l) = false.
Proof. intros H. simpl. destruct (Ascii.eqb_spec c d); done. Qed.

Lemma scan_literal_number z rest : scan_literal (show_int z ++ rest) = None.
Proof.
  destruct (show_int_head z) as (c & l & -> & Hc & Hm). cbn [app]. unfold scan_literal.
  assert (Hne : c <> "n"%char /\ c <> "t"%char /\ c <> "f"%char /\ c <> "N"%char /\ c <> "I"%char).
  { destruct Hc as [->|Hc]; [done|]. split_and!; intros ->; done. }
  destruct Hne as (? & ? & ? & ? & ?).
  cbn [chars String.list_ascii_of_string].
  repeat rewrite prefix_of_head by done. cbv iota.
  destruct Hc as [->|Hc]; [|rewrite prefix_of_head; [done|by intros <-]].
  destruct (Hm eq_refl) as (d & l' & -> & Hd). cbn [app prefix_of]. change (Ascii.eqb "-" "-") with true.
  cbn [andb]. destruct (Ascii.eqb_spec "I" d) as [<-|]; [vm_compute in Hd; done|]. done.
Qed.

Lemma show_int_dispatch z : exists c l, show_int z = c :: l /\
  ord c =? 34 = false /\ ord c =? 91 = false /\ ord c =? 123 = false.
Proof.
  destruct (show_int_head z) as (c & l & -> & Hc & _). exists c, l. split; [done|].
  destruct Hc as [->|Hc]; [done|]. unfold is_digit in Hc. lia.
Qed.

Lemma dfrom_id {V} (l : list (string * V)) : NoDup (map fst l) -> dfrom l = l.
Proof.
  unfold dfrom, dupdate. intros Hl.
  assert (H : forall d : dict string V, NoDup (map fst (d ++ l)) ->
    fold_left (fun acc kv => dset acc kv.1 kv.2) l d = d ++ l).
  { clear Hl. induction l as [|[k v] l IH]; intros d; simpl; [by rewrite app_nil_r|]. rewrite map_app. intros Hnd.
    rewrite dkeys_dset_fresh.
    - rewrite IH; [by rewrite <- app_assoc|]. by rewrite <- app_assoc, map_app.
    - apply NoDup_app in Hnd as (_ & Hnd & _). intros Hin. apply (Hnd k Hin). left. }
  by apply (H []).
Qed.

Lemma dump_reads_back indent v : reads_back indent v.
Proof.
  induction v as [|b|z|t|s|l IH|l IH] using json_ind'; intros Hv n lvl rest Hn Hd;
    (destruct n as [|n]; [simpl in Hn; lia|]).
  - done.
  - by destruct b.
  - destruct (show_int_dispatch z) as (c & l & E & H1 & H2 & H3). cbn [dump].
    pose proof (scan_literal_number z rest) as Hlit. pose proof (scan_number_show z rest Hv Hd) as Hnum.
    rewrite E in *. cbn [app parse_value] in *. by rewrite H1, H2, H3, Hlit, Hnum.
  - destruct Hv as [(c & l & E & Hc) Hr]. destruct (Hr rest Hd) as [Hlit Hnum]. cbn [dump]. rewrite E in *.
    assert (ord c =? 34 = false /\ ord c =? 91 = false /\ ord c =? 123 = false) as (H1 & H2 & H3).
    { destruct Hc as [->|Hc]; [done|]. unfold is_digit in Hc. lia. }
    cbn [app parse_value] in *. by rewrite H1, H2, H3, Hlit, Hnum.
  - cbn [dump json_str_chars app parse_value]. unfold json_str_chars. cbn [app parse_value].
    change (ord quote =? 34) with true. cbv iota. rewrite <- app_assoc, unesc_key. by rewrite str_chars.
  - rewrite json_ok_arr in Hv. rewrite weight_arr in Hn. destruct l as [|x l]; [done|].
    rewrite dump_arr. cbn [app parse_value]. change (ord "["%char =? 34) with false.
    change (ord "["%char =? 91) with true. cbv iota. rewrite <- !app_assoc, skip_newline.
    cbn [map]. rewrite skip_join by (intros k; apply skip_dump; by apply Forall_cons in Hv as [? _]).
    destruct (dump_head indent (S lvl) x) as (c & r & Ec & _ & H93 & _); [by apply Forall_cons in Hv as [? _]|].
    pose proof (parse_items_dump indent lvl (x :: l) IH Hv ltac:(done) n rest ltac:(lia)) as Hp.
    cbn [map] in Hp. 
    assert (Hj : exists r', join (item_sep indent (S lvl)) (dump indent (S lvl) x :: map (dump indent (S lvl)) l) = c :: r').
    { destruct l; cbn [map]; [|rewrite join_cons2]; rewrite Ec; by eexists. }
    destruct Hj as [r' Hj]. rewrite Hj in *. cbn [app] in *.
    assert (ord c =? 93 = false) as -> by lia. by rewrite Hp.
  - apply json_ok_obj in Hv as [Hnd Hv]. rewrite weight_obj in Hn. destruct l as [|x l]; [done|].
    rewrite dump_obj. cbn [app parse_value]. change (ord "{"%char =? 34) with false.
    change (ord "{"%char =? 91) with false. change (ord "{"%char =? 123) with true. cbv iota.
    rewrite <- !app_assoc, skip_newline. cbn [map]. rewrite skip_join by done.
    pose proof (parse_members_dump indent lvl (x :: l) IH Hv ltac:(done) n rest ltac:(lia)) as Hp.
    cbn [map] in Hp.
    assert (Hj : exists r', join (item_sep indent (S lvl)) (dump_member indent (S lvl) x :: map (dump_member indent (S lvl)) l) = quote :: r').
    { destruct l; cbn [map]; [|rewrite join_cons2]; by eexists. }
    destruct Hj as [r' Hj]. rewrite Hj in *. cbn [app] in *.
    change (ord quote =? 125) with false. cbv iota. rewrite Hp. by rewrite dfrom_id.
Qed.

Lemma length_join_ge sep (ls : list (list ascii)) : sep <> [] ->
  (foldr (fun x n => length x + n) 0 ls + (length ls - 1) <= length (join sep ls))%nat.
Proof.
  intros Hsep. induction ls as [|x ls IH]; [simpl; lia|]. destruct ls as [|y ls]; [simpl; lia|].
  rewrite join_cons2. rewrite !length_app. destruct sep; [done|]. cbn [foldr length] in *. lia.
Qed.

Lemma weight_dump indent lvl v : json_ok v -> (weight v <= length (dump indent lvl v))%nat.
Proof.
  revert lvl. induction v as [|b|z|t|s|l IH|l IH] using json_ind'; intros lvl Hv.
  - simpl; lia.
  - destruct b; simpl; lia.
  - destruct (show_int_head z) as (c & l & E & _). simpl. rewrite E. simpl. lia.
  - destruct Hv as [(c & l & E & _) _]. simpl. rewrite E. simpl. lia.
  - simpl. lia.
  - rewrite json_ok_arr in Hv. rewrite weight_arr. destruct l as [|x l]; [simpl; lia|]. rewrite dump_arr.
    pose proof (length_join_ge (item_sep indent (S lvl)) (map (dump indent (S lvl)) (x :: l)) ltac:(done)) as Hj.
    cbn [length]. rewrite !length_app. cbn [length] in *.
    assert (Hw : (weights (x :: l) <= foldr (fun x n => length x + n) 0 (map (dump indent (S lvl)) (x :: l)) + length (x :: l))%nat).
    { clear Hj. induction (x :: l) as [|y k IHk]; [simpl; lia|]. apply Forall_cons in IH as [Hy IH], Hv as [Oy Hv].
      specialize (IHk IH Hv). specialize (Hy (S lvl) Oy). cbn [weights foldr map length] in *. fold (weights k) in *. lia. }
    rewrite length_map in Hj. cbn [length] in *. lia.
  - apply json_ok_obj in Hv as [_ Hv]. rewrite weight_obj. destruct l as [|x l]; [simpl; lia|]. rewrite dump_obj.
    pose proof (length_join_ge (item_sep indent (S lvl)) (map (dump_member indent (S lvl)) (x :: l)) ltac:(done)) as Hj.
    cbn [length]. rewrite !length_app.
    assert (Hw : (weights (map snd (x :: l)) <= foldr (fun x n => length x + n) 0 (map (dump_member indent (S lvl)) (x :: l)))%nat).
    { clear Hj. induction (x :: l) as [|y k IHk]; [simpl; lia|]. apply Forall_cons in IH as [Hy IH], Hv as [Oy Hv].
      specialize (IHk IH Hv). specialize (Hy (S lvl) Oy). cbn [map weights foldr] in *. fold (weights (map snd k)).
      unfold dump_member at 1. rewrite length_app. cbn [length]. rewrite length_app. lia. }
    lia.
Qed.

Lemma length_chars s : length (chars s) = String.length s.
Proof. induction s as [|c s IH]; [done|]. simpl. unfold chars in IH. by rewrite <- IH. Qed.

Lemma loads_dumps indent v : json_ok v -> loads (dumps indent v) = Some v.
Proof.
  intros Hv. unfold loads, dumps. rewrite chars_str.
  pose proof (skip_dump indent 0 v [] Hv) as Hs. rewrite app_nil_r in Hs. rewrite Hs.
  rewrite <- (app_nil_r (dump indent 0 v)) at 2. rewrite dump_reads_back; [done|done| |done].
  rewrite <- length_chars, chars_str. pose proof (weight_dump indent 0 v Hv). lia.
Qed.

(** A trailing line break is skipped. *)
Lemma loads_dumps_line indent v : json_ok v -> loads (dumps indent v +:+ str [chr 10]) = Some v.
Proof.
  intros Hv. unfold loads, dumps. rewrite chars_app, !chars_str.
  rewrite (skip_dump indent 0 v [chr 10] Hv), dump_reads_back; [done|done| |done].
  rewrite <- length_chars, chars_app, !chars_str, length_app. pose proof (weight_dump indent 0 v Hv). lia.
Qed.

Lemma show_int_inj a b : 0 <= a -> 0 <= b -> show_int a = show_int b -> a = b.
Proof.
  intros Ha Hb E. unfold show_int in E. destruct (Z.ltb_spec a 0), (Z.ltb_spec b 0); try lia.
  destruct (digits_read a [] Ha I) as (c & l & Ea & _ & _ & Va & _).
  destruct (digits_read b [] Hb I) as (c' & l' & Eb & _ & _ & Vb & _). congruence.
Qed.

Example loads_example :
  loads (dumps 2 (JObj [("v", JInt (-12)); ("p", JArr [JStr "a/b"; JBool true; JNull; JArr []])])) =
  Some (JObj [("v", JInt (-12)); ("p", JArr [JStr "a/b"; JBool true; JNull; JArr []])]).
Proof. vm_compute. reflexivity. Qed.

(** The digits of a written natural number. *)
Lemma show_int_digits z : 0 <= z ->
  show_int z <> [] /\ (forall c, c ∈ show_int z -> is_digit c = true) /\ digits_value (show_int z) = z.
Proof.
  intros Hz. unfold show_int. destruct (Z.ltb_spec z 0); [lia|].
  destruct (digits_read z [] Hz I) as (c & l & -> & _ & Hd & Hv & _). done.
Qed.
