(* ===== verification/PyFloat.v ===== *)
(** * Python floats

    IEEE binary64 numbers as [Floats.SpecFloat] computes them: the conversion
    of integers and of decimal texts (both correctly rounded, to even on a
    tie), true division of integers, [round], comparisons, and [repr], the
    shortest decimal text that reads back to the number. *)

From S2P Require Import Prelude PyDict PyStr Json.
From Stdlib Require Import SpecFloat.

Definition double : Type := spec_float.

#[export] Instance double_eq_dec : EqDecision double.
Proof. unfold EqDecision, double. intros x y. unfold Decision. decide equality; apply _ || (apply Z.eq_dec || apply Pos.eq_dec || apply Bool.bool_dec). Defined.

(** The number nearest to [n / d], for [0 <= n] and [0 < d]. *)
Definition round_quotient (neg : bool) (n d : Z) : double :=
  if n =? 0 then S754_zero neg else
  let '(q, e, l) := SFdiv_core_binary 53 1024 n 0 d 0 in
  binary_round_aux 53 1024 neg q e l.

(** The number nearest to [m * 10 ^ e]. *)
Definition round_decimal (neg : bool) (m e : Z) : double :=
  if 0 <=? e then round_quotient neg (m * 10 ^ e) 1 else round_quotient neg m (10 ^ (- e)).

Definition is_finite (x : double) : bool :=
  match x with S754_zero _ | S754_finite _ _ _ => true | _ => false end.

(** [float(z)]: [OverflowError] when [z] is beyond the largest float. *)
Definition float_of_int (z : Z) : result double :=
  let x := round_quotient (z <? 0) (Z.abs z) 1 in
  if is_finite x then Ok x else Raise OverflowError.

(** [x >= 0] *)
Definition float_nonneg (x : double) : bool := SFleb (S754_zero false) x.

(** ** Texts *)

(** Sign, digits without the point, and the power of ten they are scaled by. *)
Definition decimal_of_text (t : list ascii) : option (bool * Z * Z) :=
  let '(neg, r) := match t with c :: r => if ord c =? 45 then (true, r) else (false, t) | [] => (false, t) end in
  let ds := take_while is_digit r in
  let '(frac, r2) := scan_fraction (drop_while is_digit r) in
  let '(ex, r3) := scan_exponent r2 in
  match ds, r3 with
  | [], _ => None
  | _, _ :: _ => None
  | _, [] =>
      let fs := tail frac in
      let e := match tail ex with
               | c :: es => if ord c =? 45 then - digits_value es
                            else if ord c =? 43 then digits_value es else digits_value (c :: es)
               | [] => 0
               end in
      Some (neg, digits_value (ds ++ fs), e - Z.of_nat (length fs))
  end.

(** [float(t)] for the number texts JSON admits *)
Definition float_of_text (t : string) : double :=
  if String.eqb t "Infinity" then S754_infinity false
  else if String.eqb t "-Infinity" then S754_infinity true
  else match decimal_of_text (chars t) with
       | Some (neg, m, e) => round_decimal neg m e
       | None => S754_nan
       end.

(** ** Arithmetic on integers *)

(** [a / b] for [0 <= a], [0 < b] *)
Definition true_div (a b : Z) : double := round_quotient false a b.

(** [round(x)] of a finite float: to the nearest integer, to even on a tie. *)
Definition round_half_even (n d : Z) : Z :=
  let q := n / d in
  let r := n mod d in
  match Z.compare (2 * r) d with
  | Lt => q
  | Gt => q + 1
  | Eq => if Z.even q then q else q + 1
  end.

Definition round_float (x : double) : Z :=
  match x with
  | S754_finite s m e =>
      let v := if 0 <=? e then Z.pos m * 2 ^ e else round_half_even (Z.pos m) (2 ^ (- e)) in
      if s then - v else v
  | _ => 0
  end.

(** [json_value == 1] *)
Definition json_is_one (v : json) : bool :=
  match v with
  | JInt z => z =? 1
  | JBool b => b
  | JFloat t => SFeqb (float_of_text t) (round_quotient false 1 1)
  | _ => false
  end.

(** ** [repr] *)

(** A positive finite number as a quotient of integers. *)
Definition exact_quotient (m : positive) (e : Z) : Z * Z :=
  if 0 <=? e then (Z.pos m * 2 ^ e, 1) else (Z.pos m, 2 ^ (- e)).

(** The position of the decimal point: [n / d < 10 ^ k], smallest such [k]. *)
Fixpoint decimal_point (fuel : nat) (k n d : Z) : Z :=
  match fuel with
  | O => k
  | S fuel =>
      if (if 0 <=? k then n <? d * 10 ^ k else n * 10 ^ (- k) <? d) then k
      else decimal_point fuel (k + 1) n d
  end.

(** The digits of [n / d] scaled by [10 ^ k], rounded down, and whether the
    scaling was exact; and the side on which the upper neighbour is nearer. *)
Definition scaled (n d k : Z) : Z * Z * Z :=
  let '(n', d') := if 0 <=? k then (n * 10 ^ k, d) else (n, d * 10 ^ (- k)) in
  (n' / d', n' mod d', d').

(** The decimal of [p] digits nearest to the number among those that read
    back to it, if there is one. *)
Definition digits_candidate (x : double) (n d dp : Z) (p : nat) : option Z :=
  let e := dp - Z.of_nat p in
  let '(lo, r, d') := scaled n d (- e) in
  let ok c := bool_decide (round_decimal false c e = x) in
  let upper_first := match Z.compare (2 * r) d' with Gt => true | Eq => Z.odd lo | Lt => false end in
  if upper_first then (if ok (lo + 1) then Some (lo + 1) else if ok lo then Some lo else None)
  else (if ok lo then Some lo else if ok (lo + 1) then Some (lo + 1) else None).

Fixpoint shortest (x : double) (n d dp : Z) (p fuel : nat) : Z * nat :=
  match fuel with
  | O => ((scaled n d (Z.of_nat p - dp)).1.1, p)
  | S fuel =>
      match digits_candidate x n d dp p with
      | Some c => (c, p)
      | None => shortest x n d dp (S p) fuel
      end
  end.

Definition strip_zeros (l : list ascii) : list ascii := rstrip_by (fun c => ord c =? 48) l.

(** The text for digits [ds] (the first not zero) with the decimal point
    after [dp] of them. *)
Definition float_layout (ds : list ascii) (dp : Z) : list ascii :=
  let k := Z.of_nat (length ds) in
  if (-4 <? dp) && (dp <=? 16) then
    if dp <=? 0 then chars "0." ++ repeat "0"%char (Z.to_nat (- dp)) ++ ds
    else if k <=? dp then ds ++ repeat "0"%char (Z.to_nat (dp - k)) ++ chars ".0"
    else take (Z.to_nat dp) ds ++ dot :: drop (Z.to_nat dp) ds
  else
    let ex := dp - 1 in
    let mant := match ds with c :: ((_ :: _) as r) => c :: dot :: r | _ => ds end in
    let et := show_int (Z.abs ex) in
    mant ++ "e"%char :: (if ex <? 0 then "-"%char else "+"%char) ::
      (match et with [c] => ["0"%char; c] | _ => et end).

(** [repr(x)], which is also what [json.dumps] writes *)
Definition float_repr (x : double) : string :=
  match x with
  | S754_nan => "NaN"
  | S754_infinity s => if s then "-Infinity" else "Infinity"
  | S754_zero s => if s then "-0.0" else "0.0"
  | S754_finite s m e =>
      let '(n, d) := exact_quotient m e in
      let dp := decimal_point 700 (-330) n d in
      let '(c, p) := shortest (S754_finite false m e) n d dp 1 17 in
      let text := show_int c in
      let dp' := dp + (Z.of_nat (length text) - Z.of_nat p) in
      str ((if s then ["-"%char] else []) ++ float_layout (strip_zeros text) dp')
  end.

(** ** Float texts inside JSON *)

(** The scanner takes the whole text as a number that is not an integer. *)
Definition number_text (t : string) : bool :=
  match scan_number (chars t) with
  | Some (JFloat t', []) => String.eqb t t'
  | _ => false
  end.

Lemma take_drop_while {A} (p : A -> bool) l : take_while p l ++ drop_while p l = l.
Proof. induction l as [|x l IH]; [done|]. simpl. destruct (p x); [|done]. simpl. by rewrite IH. Qed.

Lemma take_while_all {A} (p : A -> bool) l x : x ∈ take_while p l -> p x = true.
Proof.
  induction l as [|y l IH]; simpl; [intros H; inversion H|]. destruct (p y) eqn:E; [|intros H; inversion H].
  intros [->|H]%elem_of_cons; auto.
Qed.

(** Reading a run goes on into what follows only if the run ends the text. *)
Lemma while_app {A} (p : A -> bool) l rest : match rest with [] => True | x :: _ => p x = false end ->
  take_while p (l ++ rest) = take_while p l /\ drop_while p (l ++ rest) = drop_while p l ++ rest.
Proof.
  intros Hr. induction l as [|x l IH]; simpl.
  - destruct rest as [|y rest]; [done|]. simpl. by rewrite Hr.
  - destruct (p x); [|done]. destruct IH as [-> ->]. done.
Qed.

Lemma delim_digit rest : delim rest -> match rest with [] => True | x :: _ => is_digit x = false end.
Proof. destruct rest; [done|]. by intros [? _]. Qed.

Lemma scan_fraction_app l rest : delim rest ->
  scan_fraction (l ++ rest) = ((scan_fraction l).1, (scan_fraction l).2 ++ rest).
Proof.
  intros Hd. destruct l as [|c l]; [by rewrite scan_fraction_delim|]. simpl. destruct (Ascii.eqb c dot); [|done].
  destruct (while_app is_digit l rest (delim_digit _ Hd)) as [-> ->]. by destruct (take_while is_digit l).
Qed.

Lemma scan_exponent_app l rest : delim rest -> (scan_exponent l).2 = [] ->
  scan_exponent (l ++ rest) = ((scan_exponent l).1, rest).
Proof.
  intros Hd. destruct l as [|c l]; [intros _; simpl; by apply scan_exponent_delim|]. cbn [app scan_exponent].
  destruct ((ord c =? 101) || (ord c =? 69)); [|done].
  destruct l as [|d l]; [done|]. cbn [app]. destruct ((ord d =? 43) || (ord d =? 45)).
  - destruct (while_app is_digit l rest (delim_digit _ Hd)) as [-> ->].
    destruct (take_while is_digit l); [done|]. cbn [fst snd]. by intros ->.
  - change (d :: l ++ rest) with ((d :: l) ++ rest).
    destruct (while_app is_digit (d :: l) rest (delim_digit _ Hd)) as [-> ->].
    destruct (take_while is_digit (d :: l)); [done|]. cbn [fst snd]. by intros ->.
Qed.

Lemma scan_number_float_app l t rest : scan_number l = Some (JFloat t, []) -> delim rest ->
  scan_number (l ++ rest) = Some (JFloat t, rest) /\
  exists c l', l = c :: l' /\ (is_digit c = true \/ c = "-"%char /\ exists d l'', l' = d :: l'' /\ is_digit d = true).
Proof.
  intros H Hd. unfold scan_number in *.
  assert (Hbody : forall (neg : bool) r,
    (let '(ds, r1) :=
       match r with
       | c :: r' => if ord c =? 48 then ([c], r') else (take_while is_digit r, drop_while is_digit r)
       | [] => ([], r)
       end in
     match ds with
     | [] => None
     | _ => let '(frac, r2) := scan_fraction r1 in let '(ex, r3) := scan_exponent r2 in
        match frac ++ ex with
        | [] => if (max_int_digits <? length ds)%nat then None
                else Some (JInt (if neg then - digits_value ds else digits_value ds), r1)
        | tl => Some (JFloat (str ((if neg then ["-"%char] else []) ++ ds ++ tl)), r3)
        end
     end) = Some (JFloat t, []) ->
    (let '(ds, r1) :=
       match r ++ rest with
       | c :: r' => if ord c =? 48 then ([c], r')
                    else (take_while is_digit (r ++ rest), drop_while is_digit (r ++ rest))
       | [] => ([], r ++ rest)
       end in
     match ds with
     | [] => None
     | _ => let '(frac, r2) := scan_fraction r1 in let '(ex, r3) := scan_exponent r2 in
        match frac ++ ex with
        | [] => if (max_int_digits <? length ds)%nat then None
                else Some (JInt (if neg then - digits_value ds else digits_value ds), r1)
        | tl => Some (JFloat (str ((if neg then ["-"%char] else []) ++ ds ++ tl)), r3)
        end
     end) = Some (JFloat t, rest) /\ exists d l'', r = d :: l'' /\ is_digit d = true).
  { intros neg r. destruct r as [|c r]; [done|]. cbn [app].
    assert (Hpair : exists ds r1,
      (if ord c =? 48 then ([c], r) else (take_while is_digit (c :: r), drop_while is_digit (c :: r))) = (ds, r1) /\
      (if ord c =? 48 then ([c], r ++ rest)
       else (take_while is_digit (c :: r ++ rest), drop_while is_digit (c :: r ++ rest))) = (ds, r1 ++ rest) /\
      (ds <> [] -> is_digit c = true)).
    { destruct (ord c =? 48) eqn:E.
      - exists [c], r. split_and!; [done|done|]. intros _. unfold is_digit. lia.
      - change (c :: r ++ rest) with ((c :: r) ++ rest).
        destruct (while_app is_digit (c :: r) rest (delim_digit _ Hd)) as [-> ->].
        eexists _, _. split_and!; [done|done|]. simpl. by destruct (is_digit c). }
    destruct Hpair as (ds & r1 & -> & -> & Hc). destruct ds as [|d0 ds]; [done|].
    rewrite (scan_fraction_app r1 rest Hd). destruct (scan_fraction r1) as [frac r2]. cbn [fst snd].
    destruct (scan_exponent r2) as [ex r3] eqn:Ee. destruct (frac ++ ex) as [|x k] eqn:Ef.
    { by destruct (max_int_digits <? _)%nat. }
    intros [= Ht ->]. pose proof (scan_exponent_app r2 rest Hd) as Hex. rewrite Ee in Hex.
    rewrite (Hex eq_refl). cbn [fst]. rewrite Ef. split; [by rewrite <- Ht|]. exists c, r. split; [done|]. by apply Hc. }
  destruct l as [|c l]; [by apply (Hbody false []) in H as [_ (? & ? & ? & _)]|]. cbn [app].
  destruct (ord c =? 45) eqn:E.
  - destruct (Hbody true l H) as [H1 H2]. split; [done|]. exists c, l. split; [done|]. right. split; [|done].
    apply Z.eqb_eq in E. revert E. by destruct c as [[] [] [] [] [] [] [] []].
  - destruct (Hbody false (c :: l) H) as [H1 (d & l'' & [= <- <-] & Hdig)]. split; [done|].
    exists c, l. split; [done|]. by left.
Qed.

Lemma number_text_ok t : number_text t = true -> json_float t.
Proof.
  unfold number_text. destruct (scan_number (chars t)) as [[[| | |t'| | |] [|]]|] eqn:E; try done.
  intros ->%String.eqb_eq.
  destruct (scan_number_float_app _ _ [] E I) as [_ (c & l & El & Hc)]. split.
  { exists c, l. split; [done|]. destruct Hc as [?|[? _]]; auto. }
  intros rest Hd. split; [|by apply scan_number_float_app]. rewrite El. cbn [app].
  assert (Hne : c <> "n"%char /\ c <> "t"%char /\ c <> "f"%char /\ c <> "N"%char /\ c <> "I"%char).
  { destruct Hc as [Hc|[-> _]]; [|done]. split_and!; intros ->; done. }
  destruct Hne as (? & ? & ? & ? & ?). unfold scan_literal. cbn [chars String.list_ascii_of_string].
  repeat rewrite prefix_of_head by done. cbv iota.
  destruct Hc as [Hc|[-> (d & l' & -> & Hdig)]]; [rewrite prefix_of_head; [done|by intros <-]|].
  cbn [app prefix_of]. change (Ascii.eqb "-" "-") with true. cbn [andb].
  destruct (Ascii.eqb_spec "I" d) as [<-|]; [vm_compute in Hdig; done|]. done.
Qed.
