(* ===== verification/ModelFile.v ===== *)
(** * Model files ([model/file.py])

    [ModelFile] is the record of one remote/local file or directory, with its
    children.  The object is a value here; where the code depends on object
    identity or on the parent chain, a [fileref] carries the identity and the
    ancestors' names.  Flags are the bit set of the source; the sparse
    [__runtime] dictionary is a finite map that never holds a default. *)

From S2P Require Import Prelude PyStr.

(** ** Data *)

Inductive State :=
  | DEFAULT | DOWNLOADING | QUEUED | DOWNLOADED | DELETED | EXTRACTING
  | EXTRACTED | VALIDATING | VALIDATED | CORRUPT | MOVE_FAILED.

#[export] Instance State_eq_dec : EqDecision State.
Proof. solve_decision. Defined.

Definition state_value (s : State) : Z :=
  match s with
  | DEFAULT => 0 | DOWNLOADING => 1 | QUEUED => 2 | DOWNLOADED => 3 | DELETED => 4
  | EXTRACTING => 5 | EXTRACTED => 6 | VALIDATING => 7 | VALIDATED => 8 | CORRUPT => 9
  | MOVE_FAILED => 10
  end.

(** Bits of [__flags] *)
Definition F_DIR : Z := 1.
Definition F_REMOTE_PRESENT : Z := 2.
Definition F_LOCAL_PRESENT : Z := 4.
Definition F_REMOTE_CONTENT : Z := 8.
Definition F_REMOTE_PRESENT_EXPLICIT : Z := 16.
Definition F_LOCAL_PRESENT_EXPLICIT : Z := 32.
Definition F_REMOTE_CONTENT_EXPLICIT : Z := 64.

(** The slots of one object, children apart. *)
Record fields := mkFields {
  f_name : string;
  f_flags : Z;
  f_state : State;
  f_remote_size : option Z;
  f_local_size : option Z;
  f_local_created : option Z;
  f_local_modified : option Z;
  f_remote_created : option Z;
  f_remote_modified : option Z;
  f_runtime : option (gmap string pyval);
  f_update_timestamp : pyval;
  f_path_pair_id : option string;
  f_path_pair_name : option string }.

Inductive ModelFile := mkFile (fl : fields) (children : option (list ModelFile)).

Definition slots (f : ModelFile) : fields := let 'mkFile fl _ := f in fl.
Definition children_slot (f : ModelFile) : option (list ModelFile) := let 'mkFile _ c := f in c.

Definition with_slots (f : ModelFile) (fl : fields) : ModelFile := mkFile fl (children_slot f).

(** A reference to a live object: its identity and the names of its
    ancestors, outermost first. *)
Record fileref := mkRef { ref_oid : nat; ref_parents : list string; ref_file : ModelFile }.

Definition put_flags (f : ModelFile) (z : Z) : ModelFile :=
  let fl := slots f in
  with_slots f (mkFields (f_name fl) z (f_state fl) (f_remote_size fl) (f_local_size fl)
    (f_local_created fl) (f_local_modified fl) (f_remote_created fl) (f_remote_modified fl)
    (f_runtime fl) (f_update_timestamp fl) (f_path_pair_id fl) (f_path_pair_name fl)).

Definition put_runtime (f : ModelFile) (r : option (gmap string pyval)) : ModelFile :=
  let fl := slots f in
  with_slots f (mkFields (f_name fl) (f_flags fl) (f_state fl) (f_remote_size fl) (f_local_size fl)
    (f_local_created fl) (f_local_modified fl) (f_remote_created fl) (f_remote_modified fl)
    r (f_update_timestamp fl) (f_path_pair_id fl) (f_path_pair_name fl)).

Definition put_sizes (f : ModelFile) (rs ls : option Z) : ModelFile :=
  let fl := slots f in
  with_slots f (mkFields (f_name fl) (f_flags fl) (f_state fl) rs ls
    (f_local_created fl) (f_local_modified fl) (f_remote_created fl) (f_remote_modified fl)
    (f_runtime fl) (f_update_timestamp fl) (f_path_pair_id fl) (f_path_pair_name fl)).

Definition put_state (f : ModelFile) (s : State) : ModelFile :=
  let fl := slots f in
  with_slots f (mkFields (f_name fl) (f_flags fl) s (f_remote_size fl) (f_local_size fl)
    (f_local_created fl) (f_local_modified fl) (f_remote_created fl) (f_remote_modified fl)
    (f_runtime fl) (f_update_timestamp fl) (f_path_pair_id fl) (f_path_pair_name fl)).

Definition put_times (f : ModelFile) (lc lm rc rm : option Z) : ModelFile :=
  let fl := slots f in
  with_slots f (mkFields (f_name fl) (f_flags fl) (f_state fl) (f_remote_size fl) (f_local_size fl)
    lc lm rc rm
    (f_runtime fl) (f_update_timestamp fl) (f_path_pair_id fl) (f_path_pair_name fl)).

Definition put_update (f : ModelFile) (u : pyval) : ModelFile :=
  let fl := slots f in
  with_slots f (mkFields (f_name fl) (f_flags fl) (f_state fl) (f_remote_size fl) (f_local_size fl)
    (f_local_created fl) (f_local_modified fl) (f_remote_created fl) (f_remote_modified fl)
    (f_runtime fl) u (f_path_pair_id fl) (f_path_pair_name fl)).

Definition put_pair (f : ModelFile) (i n : option string) : ModelFile :=
  let fl := slots f in
  with_slots f (mkFields (f_name fl) (f_flags fl) (f_state fl) (f_remote_size fl) (f_local_size fl)
    (f_local_created fl) (f_local_modified fl) (f_remote_created fl) (f_remote_modified fl)
    (f_runtime fl) (f_update_timestamp fl) i n).

(** ** Construction, flags and the runtime dictionary *)

(** [ModelFile(name, is_dir)]; [now] is the clock read by [time.time()]. *)
Definition new_file (now : Z) (name : string) (is_dir : bool) : ModelFile :=
  mkFile (mkFields name (if is_dir then F_DIR else 0) DEFAULT None None None None None None
            None (PyFloat now) None None) None.

Definition flag (f : ModelFile) (bit : Z) : bool := negb (Z.land (f_flags (slots f)) bit =? 0).

Definition set_flag (f : ModelFile) (bit : Z) (value : bool) : ModelFile :=
  let z := f_flags (slots f) in
  put_flags f (if value then Z.lor z bit else Z.land z (Z.lnot bit)).

Definition runtime_value (f : ModelFile) (key : string) (dflt : pyval) : pyval :=
  match f_runtime (slots f) with
  | None => dflt
  | Some d => default dflt (d !! key)
  end.

Definition set_runtime (f : ModelFile) (key : string) (value dflt : pyval) : ModelFile :=
  if py_same value dflt then
    match f_runtime (slots f) with
    | None => f
    | Some d =>
        let d' := delete key d in
        put_runtime f (if (size d' =? 0)%nat then None else Some d')
    end
  else put_runtime f (Some (<[key := value]> (default ∅ (f_runtime (slots f))))).

(** ** Properties: getters *)

Definition name (f : ModelFile) : string := f_name (slots f).
Definition is_dir (f : ModelFile) : bool := flag f F_DIR.
Definition state (f : ModelFile) : State := f_state (slots f).
Definition remote_size (f : ModelFile) : option Z := f_remote_size (slots f).
Definition local_size (f : ModelFile) : option Z := f_local_size (slots f).
Definition remote_present (f : ModelFile) : bool := flag f F_REMOTE_PRESENT.
Definition local_present (f : ModelFile) : bool := flag f F_LOCAL_PRESENT.
Definition remote_has_transferable_content (f : ModelFile) : bool := flag f F_REMOTE_CONTENT.
Definition transferred_size (f : ModelFile) : pyval := runtime_value f "transferred_size" PyNone.
Definition display_size_total (f : ModelFile) : pyval := runtime_value f "display_size_total" PyNone.
Definition display_transferred_size (f : ModelFile) : pyval :=
  runtime_value f "display_transferred_size" PyNone.
Definition download_progress (f : ModelFile) : pyval := runtime_value f "download_progress" PyNone.
Definition downloading_speed (f : ModelFile) : pyval := runtime_value f "downloading_speed" PyNone.
Definition eta (f : ModelFile) : pyval := runtime_value f "eta" PyNone.
Definition is_extractable (f : ModelFile) : pyval := runtime_value f "is_extractable" (PyBool false).
Definition is_stoppable (f : ModelFile) : pyval := runtime_value f "is_stoppable" (PyBool false).
Definition explicitly_stopped (f : ModelFile) : pyval :=
  runtime_value f "explicitly_stopped" (PyBool false).
Definition complete_local_coverage (f : ModelFile) : pyval :=
  runtime_value f "complete_local_coverage" (PyBool false).
Definition resume_checkpoint_present (f : ModelFile) : pyval :=
  runtime_value f "resume_checkpoint_present" (PyBool false).
Definition local_created_timestamp (f : ModelFile) : option Z := f_local_created (slots f).
Definition local_modified_timestamp (f : ModelFile) : option Z := f_local_modified (slots f).
Definition remote_created_timestamp (f : ModelFile) : option Z := f_remote_created (slots f).
Definition remote_modified_timestamp (f : ModelFile) : option Z := f_remote_modified (slots f).
Definition downloaded_timestamp (f : ModelFile) : pyval := runtime_value f "downloaded_timestamp" PyNone.
Definition validation_progress (f : ModelFile) : pyval := runtime_value f "validation_progress" PyNone.
Definition validation_error (f : ModelFile) : pyval := runtime_value f "validation_error" PyNone.
Definition corrupt_chunks (f : ModelFile) : pyval := runtime_value f "corrupt_chunks" PyNone.
Definition path_pair_id (f : ModelFile) : option string := f_path_pair_id (slots f).
Definition path_pair_name (f : ModelFile) : option string := f_path_pair_name (slots f).

(** [bool(v)] *)
Definition truthy (v : pyval) : bool :=
  match v with
  | PyNone => false
  | PyBool b => b
  | PyInt z | PyFloat z => negb (z =? 0)
  | PyStr s => negb (String.eqb s "")
  | PyDatetime _ => true
  | PyList l => match l with [] => false | _ => true end
  end.

Definition final_move_succeeded (f : ModelFile) : bool :=
  truthy (runtime_value f "final_move_succeeded" (PyBool false)).
Definition final_move_pending (f : ModelFile) : bool :=
  truthy (runtime_value f "final_move_pending" (PyBool false)).

(** [get_children()] and [iter_children()] *)
Definition get_children (f : ModelFile) : list ModelFile := default [] (children_slot f).
Definition child_count (f : ModelFile) : nat := length (get_children f).

(** ** Properties: setters *)

(** A present optional value as the Python value it is. *)
Definition py_opt_int (o : option Z) : pyval := match o with Some z => PyInt z | None => PyNone end.
Definition py_opt_str (o : option string) : pyval := match o with Some s => PyStr s | None => PyNone end.
Definition py_opt_datetime (o : option Z) : pyval :=
  match o with Some t => PyDatetime t | None => PyNone end.

(** [type(v) == int] *)
Definition as_int (v : pyval) : option Z := match v with PyInt z => Some z | _ => None end.

(** The size argument of [remote_size] and [local_size]: checked value. *)
Definition checked_size (v : pyval) : result (option Z) :=
  match v with
  | PyInt z => if z <? 0 then Raise ValueError else Ok (Some z)
  | PyNone => Ok None
  | _ => Raise TypeError
  end.

Definition set_remote_size (f : ModelFile) (v : pyval) : result ModelFile :=
  rs ← checked_size v;
  let f1 := put_sizes f rs (local_size f) in
  let f2 := if flag f1 F_REMOTE_PRESENT_EXPLICIT then f1
            else set_flag f1 F_REMOTE_PRESENT (match rs with Some _ => true | None => false end) in
  let f3 := if flag f2 F_REMOTE_CONTENT_EXPLICIT then f2
            else set_flag f2 F_REMOTE_CONTENT
                   (match rs with Some z => negb (is_dir f2) || (0 <? z) | None => false end) in
  mret f3.

Definition set_local_size (f : ModelFile) (v : pyval) : result ModelFile :=
  ls ← checked_size v;
  let f1 := put_sizes f (remote_size f) ls in
  let f2 := if flag f1 F_LOCAL_PRESENT_EXPLICIT then f1
            else set_flag f1 F_LOCAL_PRESENT (match ls with Some _ => true | None => false end) in
  mret f2.

Definition set_remote_present (f : ModelFile) (v : pyval) : result ModelFile :=
  match v with
  | PyBool b => Ok (set_flag (set_flag f F_REMOTE_PRESENT_EXPLICIT true) F_REMOTE_PRESENT b)
  | _ => Raise TypeError
  end.

Definition set_local_present (f : ModelFile) (v : pyval) : result ModelFile :=
  match v with
  | PyBool b => Ok (set_flag (set_flag f F_LOCAL_PRESENT_EXPLICIT true) F_LOCAL_PRESENT b)
  | _ => Raise TypeError
  end.

Definition set_remote_has_transferable_content (f : ModelFile) (v : pyval) : result ModelFile :=
  match v with
  | PyBool b => Ok (set_flag (set_flag f F_REMOTE_CONTENT_EXPLICIT true) F_REMOTE_CONTENT b)
  | _ => Raise TypeError
  end.

(** [transferred_size], [downloading_speed], [eta]: a non-negative int or None. *)
Definition set_counter (key : string) (f : ModelFile) (v : pyval) : result ModelFile :=
  match v with
  | PyInt z => if z <? 0 then Raise ValueError else Ok (set_runtime f key v PyNone)
  | PyNone => Ok (set_runtime f key v PyNone)
  | _ => Raise TypeError
  end.

Definition set_transferred_size := set_counter "transferred_size".
Definition set_downloading_speed := set_counter "downloading_speed".
Definition set_eta := set_counter "eta".

(** [display_size_total], [display_transferred_size]: a negative int is a TypeError. *)
Definition set_display (key : string) (f : ModelFile) (v : pyval) : result ModelFile :=
  match v with
  | PyInt z => if 0 <=? z then Ok (set_runtime f key v PyNone) else Raise TypeError
  | PyNone => Ok (set_runtime f key v PyNone)
  | _ => Raise TypeError
  end.

Definition set_display_size_total := set_display "display_size_total".
Definition set_display_transferred_size := set_display "display_transferred_size".

(** [download_progress], [validation_progress]: an int of 0..100 or None. *)
Definition set_percent (key : string) (f : ModelFile) (v : pyval) : result ModelFile :=
  match v with
  | PyInt z => if (z <? 0) || (100 <? z) then Raise ValueError else Ok (set_runtime f key v PyNone)
  | PyNone => Ok (set_runtime f key PyNone PyNone)
  | _ => Raise TypeError
  end.

Definition set_download_progress := set_percent "download_progress".
Definition set_validation_progress := set_percent "validation_progress".

(** The unchecked boolean-like properties. *)
Definition set_unchecked (key : string) (f : ModelFile) (v : pyval) : result ModelFile :=
  Ok (set_runtime f key v (PyBool false)).

Definition set_is_extractable := set_unchecked "is_extractable".
Definition set_is_stoppable := set_unchecked "is_stoppable".
Definition set_explicitly_stopped := set_unchecked "explicitly_stopped".
Definition set_complete_local_coverage := set_unchecked "complete_local_coverage".
Definition set_resume_checkpoint_present := set_unchecked "resume_checkpoint_present".

Definition set_local_created_timestamp (f : ModelFile) (v : pyval) : result ModelFile :=
  match v with
  | PyDatetime t => Ok (put_times f (Some t) (local_modified_timestamp f)
                          (remote_created_timestamp f) (remote_modified_timestamp f))
  | _ => Raise TypeError
  end.

Definition set_local_modified_timestamp (f : ModelFile) (v : pyval) : result ModelFile :=
  match v with
  | PyDatetime t => Ok (put_times f (local_created_timestamp f) (Some t)
                          (remote_created_timestamp f) (remote_modified_timestamp f))
  | _ => Raise TypeError
  end.

Definition set_remote_created_timestamp (f : ModelFile) (v : pyval) : result ModelFile :=
  match v with
  | PyDatetime t => Ok (put_times f (local_created_timestamp f) (local_modified_timestamp f)
                          (Some t) (remote_modified_timestamp f))
  | _ => Raise TypeError
  end.

Definition set_remote_modified_timestamp (f : ModelFile) (v : pyval) : result ModelFile :=
  match v with
  | PyDatetime t => Ok (put_times f (local_created_timestamp f) (local_modified_timestamp f)
                          (remote_created_timestamp f) (Some t))
  | _ => Raise TypeError
  end.

Definition set_update_timestamp (f : ModelFile) (v : pyval) : result ModelFile :=
  match v with
  | PyDatetime _ => Ok (put_update f v)
  | _ => Raise TypeError
  end.

Definition set_downloaded_timestamp (f : ModelFile) (v : pyval) : result ModelFile :=
  match v with
  | PyNone | PyDatetime _ => Ok (set_runtime f "downloaded_timestamp" v PyNone)
  | _ => Raise TypeError
  end.

Definition set_validation_error (f : ModelFile) (v : pyval) : result ModelFile :=
  match v with
  | PyNone | PyStr _ => Ok (set_runtime f "validation_error" v PyNone)
  | _ => Raise TypeError
  end.

Definition set_corrupt_chunks (f : ModelFile) (v : pyval) : result ModelFile :=
  match v with
  | PyNone => Ok (set_runtime f "corrupt_chunks" PyNone PyNone)
  | PyList l =>
      if forallb (fun c => match c with PyInt z => 0 <=? z | _ => false end) l
      then Ok (set_runtime f "corrupt_chunks" v PyNone) else Raise TypeError
  | _ => Raise TypeError
  end.

(** [final_move_succeeded], [final_move_pending]: checked booleans. *)
Definition set_checked_bool (key : string) (f : ModelFile) (v : pyval) : result ModelFile :=
  match v with
  | PyBool _ => Ok (set_runtime f key v (PyBool false))
  | _ => Raise TypeError
  end.

Definition set_final_move_succeeded := set_checked_bool "final_move_succeeded".
Definition set_final_move_pending := set_checked_bool "final_move_pending".

Definition set_path_pair_id (f : ModelFile) (v : pyval) : result ModelFile :=
  match v with
  | PyNone => Ok (put_pair f None (path_pair_name f))
  | PyStr s => Ok (put_pair f (Some s) (path_pair_name f))
  | _ => Raise TypeError
  end.

Definition set_path_pair_name (f : ModelFile) (v : pyval) : result ModelFile :=
  match v with
  | PyNone => Ok (put_pair f (path_pair_id f) None)
  | PyStr s => Ok (put_pair f (path_pair_id f) (Some s))
  | _ => Raise TypeError
  end.

(** ** Paths and identifiers *)

(** The joined path of a chain of names, outermost first. *)
Definition path_of (names : list string) : string :=
  match names with
  | [] => ""
  | n :: ns => fold_left path_join ns n
  end.

Definition full_path (parents : list string) (f : ModelFile) : string := path_of (parents ++ [name f]).

Definition build_file_id (path : string) (pair_id : option string) : string :=
  match pair_id with
  | None => path
  | Some p => str ("["%char :: json_str_chars p ++ ","%char :: json_str_chars path ++ ["]"%char])
  end.

Definition file_id (r : fileref) : string :=
  build_file_id (full_path (ref_parents r) (ref_file r)) (path_pair_id (ref_file r)).

(** [iter_children()] of a live object, as references: a reference into a tree keeps
    the identity of its root. *)
Definition child_refs (r : fileref) : list fileref :=
  map (mkRef (ref_oid r) (ref_parents r ++ [name (ref_file r)])) (get_children (ref_file r)).

Definition add_child (self child : fileref) : result ModelFile :=
  let f := ref_file self in
  if negb (is_dir f) then Raise TypeError
  else if Nat.eqb (ref_oid child) (ref_oid self) then Raise ValueError
  else if existsb (fun c => String.eqb (name c) (name (ref_file child))) (get_children f)
  then Raise ValueError
  else Ok (mkFile (slots f) (Some (get_children f ++ [ref_file child]))).

(** ** Equality *)

Definition comparison_attributes (f : ModelFile) : list pyval :=
  [ PyStr (name f); PyBool (is_dir f); PyInt (state_value (state f));
    py_opt_int (remote_size f); py_opt_int (local_size f);
    PyBool (remote_present f); PyBool (local_present f);
    PyBool (remote_has_transferable_content f);
    transferred_size f; display_size_total f; display_transferred_size f;
    download_progress f; downloading_speed f; eta f;
    is_extractable f; is_stoppable f; explicitly_stopped f; complete_local_coverage f;
    py_opt_datetime (local_created_timestamp f); py_opt_datetime (local_modified_timestamp f);
    py_opt_datetime (remote_created_timestamp f); py_opt_datetime (remote_modified_timestamp f);
    downloaded_timestamp f; validation_progress f; validation_error f; corrupt_chunks f;
    PyBool (final_move_succeeded f); PyBool (final_move_pending f);
    py_opt_str (path_pair_id f); py_opt_str (path_pair_name f) ].

(** [{f.name: f for f in l}[n]]: the last child of that name. *)
Fixpoint last_named (n : string) (l : list ModelFile) : option ModelFile :=
  match l with
  | [] => None
  | c :: l' =>
      match last_named n l' with
      | Some d => Some d
      | None => if String.eqb (name c) n then Some c else None
      end
  end.

Definition has_name (n : string) (l : list ModelFile) : bool :=
  existsb (fun c => String.eqb (name c) n) l.

(** [ModelFile.__eq__] *)
Fixpoint mf_eqb (f g : ModelFile) {struct f} : bool :=
  match f with
  | mkFile fl cs =>
      py_eq (PyList (comparison_attributes (mkFile fl cs))) (PyList (comparison_attributes g)) &&
      (let mine := match cs with Some l => l | None => [] end in
       let others := get_children g in
       Nat.eqb (length mine) (length others) &&
       forallb (fun c => has_name (name c) others) mine &&
       forallb (fun d => has_name (name d) mine) others &&
       match cs with
       | None => true
       | Some l0 =>
           (fix go (l : list ModelFile) : bool :=
              match l with
              | [] => true
              | c :: l' =>
                  (if has_name (name c) l' then true
                   else match last_named (name c) others with
                        | Some d => mf_eqb c d
                        | None => false
                        end) && go l'
              end) l0
       end)
  end.
