(* ===== verification/ModelFileFacts.v ===== *)
(** * Properties of model files

    The setters as one step function over the settable properties, the
    representation invariant they keep, the get/set laws, the reported
    errors, the laws of [__eq__] and of file identifiers. *)

From S2P Require Import Prelude PyStr ModelFile.

(** ** The settable properties *)

Inductive prop :=
  | P_remote_size | P_local_size | P_remote_present | P_local_present | P_remote_content
  | P_transferred_size | P_display_size_total | P_display_transferred_size
  | P_download_progress | P_downloading_speed | P_eta
  | P_is_extractable | P_is_stoppable | P_explicitly_stopped | P_complete_local_coverage
  | P_resume_checkpoint_present
  | P_local_created | P_local_modified | P_remote_created | P_remote_modified
  | P_downloaded_timestamp | P_validation_progress | P_validation_error | P_corrupt_chunks
  | P_final_move_succeeded | P_final_move_pending | P_path_pair_id | P_path_pair_name.

#[export] Instance prop_eq_dec : EqDecision prop.
Proof. solve_decision. Defined.

(** The setter of each property. *)
Definition set_prop (p : prop) : ModelFile -> pyval -> result ModelFile :=
  match p with
  | P_remote_size => set_remote_size
  | P_local_size => set_local_size
  | P_remote_present => set_remote_present
  | P_local_present => set_local_present
  | P_remote_content => set_remote_has_transferable_content
  | P_transferred_size => set_transferred_size
  | P_display_size_total => set_display_size_total
  | P_display_transferred_size => set_display_transferred_size
  | P_download_progress => set_download_progress
  | P_downloading_speed => set_downloading_speed
  | P_eta => set_eta
  | P_is_extractable => set_is_extractable
  | P_is_stoppable => set_is_stoppable
  | P_explicitly_stopped => set_explicitly_stopped
  | P_complete_local_coverage => set_complete_local_coverage
  | P_resume_checkpoint_present => set_resume_checkpoint_present
  | P_local_created => set_local_created_timestamp
  | P_local_modified => set_local_modified_timestamp
  | P_remote_created => set_remote_created_timestamp
  | P_remote_modified => set_remote_modified_timestamp
  | P_downloaded_timestamp => set_downloaded_timestamp
  | P_validation_progress => set_validation_progress
  | P_validation_error => set_validation_error
  | P_corrupt_chunks => set_corrupt_chunks
  | P_final_move_succeeded => set_final_move_succeeded
  | P_final_move_pending => set_final_move_pending
  | P_path_pair_id => set_path_pair_id
  | P_path_pair_name => set_path_pair_name
  end.

(** What the getter of each property returns. *)
Definition get_prop (p : prop) (f : ModelFile) : pyval :=
  match p with
  | P_remote_size => py_opt_int (remote_size f)
  | P_local_size => py_opt_int (local_size f)
  | P_remote_present => PyBool (remote_present f)
  | P_local_present => PyBool (local_present f)
  | P_remote_content => PyBool (remote_has_transferable_content f)
  | P_transferred_size => transferred_size f
  | P_display_size_total => display_size_total f
  | P_display_transferred_size => display_transferred_size f
  | P_download_progress => download_progress f
  | P_downloading_speed => downloading_speed f
  | P_eta => eta f
  | P_is_extractable => is_extractable f
  | P_is_stoppable => is_stoppable f
  | P_explicitly_stopped => explicitly_stopped f
  | P_complete_local_coverage => complete_local_coverage f
  | P_resume_checkpoint_present => resume_checkpoint_present f
  | P_local_created => py_opt_datetime (local_created_timestamp f)
  | P_local_modified => py_opt_datetime (local_modified_timestamp f)
  | P_remote_created => py_opt_datetime (remote_created_timestamp f)
  | P_remote_modified => py_opt_datetime (remote_modified_timestamp f)
  | P_downloaded_timestamp => downloaded_timestamp f
  | P_validation_progress => validation_progress f
  | P_validation_error => validation_error f
  | P_corrupt_chunks => corrupt_chunks f
  | P_final_move_succeeded => PyBool (final_move_succeeded f)
  | P_final_move_pending => PyBool (final_move_pending f)
  | P_path_pair_id => py_opt_str (path_pair_id f)
  | P_path_pair_name => py_opt_str (path_pair_name f)
  end.

(** A chunk index: a non-negative integer. *)
Definition chunk_ok (c : pyval) : Prop :=
  match c with PyInt z => 0 <= z | _ => False end.

#[export] Instance chunk_ok_dec c : Decision (chunk_ok c).
Proof. destruct c; apply _. Defined.

(** The exception class a setter answers a value with, if any: the contract
    of the setters, stated by kind of property. *)
Definition prop_error (p : prop) (v : pyval) : option exn :=
  match p with
  | P_remote_size | P_local_size | P_transferred_size | P_downloading_speed | P_eta =>
      match v with
      | PyNone => None
      | PyInt z => if decide (z < 0) then Some ValueError else None
      | _ => Some TypeError
      end
  | P_display_size_total | P_display_transferred_size =>
      match v with
      | PyNone => None
      | PyInt z => if decide (z < 0) then Some TypeError else None
      | _ => Some TypeError
      end
  | P_download_progress | P_validation_progress =>
      match v with
      | PyNone => None
      | PyInt z => if decide (0 <= z <= 100) then None else Some ValueError
      | _ => Some TypeError
      end
  | P_remote_present | P_local_present | P_remote_content
  | P_final_move_succeeded | P_final_move_pending =>
      match v with PyBool _ => None | _ => Some TypeError end
  | P_is_extractable | P_is_stoppable | P_explicitly_stopped | P_complete_local_coverage
  | P_resume_checkpoint_present => None
  | P_local_created | P_local_modified | P_remote_created | P_remote_modified =>
      match v with PyDatetime _ => None | _ => Some TypeError end
  | P_downloaded_timestamp =>
      match v with PyNone | PyDatetime _ => None | _ => Some TypeError end
  | P_validation_error | P_path_pair_id | P_path_pair_name =>
      match v with PyNone | PyStr _ => None | _ => Some TypeError end
  | P_corrupt_chunks =>
      match v with
      | PyNone => None
      | PyList l => if decide (Forall chunk_ok l)
                    then None else Some TypeError
      | _ => Some TypeError
      end
  end.

(** ** Flags *)

Definition is_bit (b : Z) : Prop := exists i, 0 <= i < 7 /\ b = 2 ^ i.

Lemma land_pow2_testbit z i : 0 <= i -> negb (Z.land z (2 ^ i) =? 0) = Z.testbit z i.
Proof.
  intros Hi. destruct (Z.testbit z i) eqn:E.
  - apply negb_true_iff, Z.eqb_neq. intros H0.
    assert (Hb : Z.testbit (Z.land z (2 ^ i)) i = false) by (rewrite H0; apply Z.bits_0).
    rewrite Z.land_spec, E, Z.pow2_bits_true in Hb; [done|lia].
  - apply negb_false_iff, Z.eqb_eq, Z.bits_inj'. intros j Hj.
    rewrite Z.land_spec, Z.bits_0, Z.pow2_bits_eqb by lia.
    destruct (Z.eqb_spec i j); subst; [by rewrite E | by rewrite andb_false_r].
Qed.

Lemma is_bit_inj i j : 0 <= i -> 0 <= j -> 2 ^ i = 2 ^ j -> i = j.
Proof. intros Hi Hj H. apply (Z.pow_inj_r 2); lia. Qed.

Lemma flag_set_flag f b b' v :
  is_bit b -> is_bit b' ->
  flag (set_flag f b v) b' = if decide (b = b') then v else flag f b'.
Proof.
  intros (i & Hi & ->) (j & Hj & ->). unfold flag, set_flag, put_flags, with_slots; simpl.
  rewrite !land_pow2_testbit by lia. destruct v.
  - rewrite Z.lor_spec, Z.pow2_bits_eqb by lia. case_decide as E.
    + apply is_bit_inj in E as ->; [|lia..]. by rewrite Z.eqb_refl, orb_true_r.
    + destruct (Z.eqb_spec i j); [congruence|]. by rewrite orb_false_r.
  - rewrite Z.land_spec, Z.lnot_spec, Z.pow2_bits_eqb by lia. case_decide as E.
    + apply is_bit_inj in E as ->; [|lia..]. by rewrite Z.eqb_refl, andb_false_r.
    + destruct (Z.eqb_spec i j); [congruence|]. by rewrite andb_true_r.
Qed.

Lemma flags_small_bits z n :
  0 <= n -> 0 <= z -> (forall j, n <= j -> Z.testbit z j = false) -> z < 2 ^ n.
Proof.
  intros Hn Hz H.
  assert (E : z = z mod 2 ^ n).
  { apply Z.bits_inj'. intros j Hj. destruct (Z.lt_ge_cases j n).
    - by rewrite Z.mod_pow2_bits_low.
    - rewrite Z.mod_pow2_bits_high by lia. by apply H. }
  rewrite E. apply Z.mod_pos_bound. lia.
Qed.

Lemma flags_bits_small z n j : 0 <= z < 2 ^ n -> 0 <= n <= j -> Z.testbit z j = false.
Proof.
  intros Hz Hj. rewrite <- (Z.mod_small z (2 ^ n)) by lia. apply Z.mod_pow2_bits_high. lia.
Qed.

Lemma set_flag_range f b v :
  is_bit b -> 0 <= f_flags (slots f) < 128 -> 0 <= f_flags (slots (set_flag f b v)) < 128.
Proof.
  intros (i & Hi & ->) Hf. change 128 with (2 ^ 7) in *.
  unfold set_flag, put_flags, with_slots; simpl.
  assert (Hp : 0 <= 2 ^ i) by (apply Z.pow_nonneg; lia).
  destruct v; (split; [|apply flags_small_bits; [lia| |intros j Hj]]).
  - apply Z.lor_nonneg; lia.
  - apply Z.lor_nonneg; lia.
  - rewrite Z.lor_spec, Z.pow2_bits_eqb, (flags_bits_small _ 7) by lia.
    destruct (Z.eqb_spec i j); [lia|done].
  - apply Z.land_nonneg; lia.
  - apply Z.land_nonneg; lia.
  - rewrite Z.land_spec, (flags_bits_small _ 7) by lia. done.
Qed.

(** The seven flags are bits. *)
Lemma bit_DIR : is_bit F_DIR. Proof. exists 0; done. Qed.
Lemma bit_RP : is_bit F_REMOTE_PRESENT. Proof. exists 1; done. Qed.
Lemma bit_LP : is_bit F_LOCAL_PRESENT. Proof. exists 2; done. Qed.
Lemma bit_RC : is_bit F_REMOTE_CONTENT. Proof. exists 3; done. Qed.
Lemma bit_RPE : is_bit F_REMOTE_PRESENT_EXPLICIT. Proof. exists 4; done. Qed.
Lemma bit_LPE : is_bit F_LOCAL_PRESENT_EXPLICIT. Proof. exists 5; done. Qed.
Lemma bit_RCE : is_bit F_REMOTE_CONTENT_EXPLICIT. Proof. exists 6; done. Qed.

#[export] Hint Resolve bit_DIR bit_RP bit_LP bit_RC bit_RPE bit_LPE bit_RCE : core.

(** Reads of flags after flag writes. *)
Ltac flag_simpl :=
  repeat (rewrite flag_set_flag by auto;
          first [rewrite decide_True by reflexivity | rewrite decide_False by (vm_compute; discriminate)]).
Ltac flag_simpl_in H :=
  repeat (rewrite flag_set_flag in H by auto;
          first [rewrite decide_True in H by reflexivity | rewrite decide_False in H by (vm_compute; discriminate)]).

(** ** The runtime dictionary *)

Definition next_runtime (r : option (gmap string pyval)) (key : string) (v d : pyval) :=
  if py_same v d then
    match r with
    | None => None
    | Some m => let m' := delete key m in if (size m' =? 0)%nat then None else Some m'
    end
  else Some (<[key := v]> (default ∅ r)).

Lemma put_runtime_id f : put_runtime f (f_runtime (slots f)) = f.
Proof. by destruct f as [[] ?]. Qed.

Lemma set_runtime_put f key v d :
  set_runtime f key v d = put_runtime f (next_runtime (f_runtime (slots f)) key v d).
Proof.
  unfold set_runtime, next_runtime. destruct (py_same v d); [|done].
  destruct (f_runtime (slots f)) eqn:E; [done|]. rewrite <- E. symmetry. apply put_runtime_id.
Qed.

(** A getter's default is [None] or [False], for which [py_same] is equality. *)
Definition is_default (d : pyval) : Prop := d = PyNone \/ d = PyBool false.

Lemma py_same_default v d : is_default d -> py_same v d = true -> v = d.
Proof. intros [->| ->]; [apply py_same_None | apply py_same_False]. Qed.

Lemma runtime_value_set_runtime f key v d key' d' :
  is_default d -> (key = key' -> d = d') ->
  runtime_value (set_runtime f key v d) key' d' =
  if decide (key = key') then v else runtime_value f key' d'.
Proof.
  intros Hd Hk. rewrite set_runtime_put. unfold runtime_value, put_runtime, with_slots; simpl.
  unfold next_runtime. destruct (py_same v d) eqn:E.
  - apply py_same_default in E as ->; [|done]. destruct (f_runtime (slots f)) as [m|].
    + destruct (Nat.eqb_spec (size (delete key m)) 0) as [Hs|Hs].
      * apply map_size_empty_inv in Hs. case_decide as Ek; [by rewrite Hk|].
        rewrite <- (lookup_delete_ne m key key'), Hs, lookup_empty by done. done.
      * case_decide as Ek; [subst; rewrite lookup_delete_eq, Hk by done; done|].
        by rewrite lookup_delete_ne.
    + case_decide as Ek; [by rewrite Hk | done].
  - case_decide as Ek; [subst; by rewrite lookup_insert_eq|].
    rewrite lookup_insert_ne by done. destruct (f_runtime (slots f)); done.
Qed.

(** ** Get/set laws *)

(** Setting a size also refreshes the presence flags that are not explicit. *)
Definition coupled (p q : prop) : bool :=
  match p, q with
  | P_remote_size, (P_remote_present | P_remote_content) => true
  | P_local_size, P_local_present => true
  | _, _ => false
  end.

Lemma default_None : is_default PyNone. Proof. by left. Qed.
Lemma default_False : is_default (PyBool false). Proof. by right. Qed.
#[export] Hint Resolve default_None default_False : core.

(** Unfolds every setter and getter to slots. *)
Ltac mf_unfold :=
  unfold set_remote_size, set_local_size, set_remote_present, set_local_present,
    set_remote_has_transferable_content, set_transferred_size, set_display_size_total,
    set_display_transferred_size, set_download_progress, set_downloading_speed, set_eta,
    set_is_extractable, set_is_stoppable, set_explicitly_stopped, set_complete_local_coverage,
    set_resume_checkpoint_present, set_local_created_timestamp, set_local_modified_timestamp,
    set_remote_created_timestamp, set_remote_modified_timestamp, set_downloaded_timestamp,
    set_validation_progress, set_validation_error, set_corrupt_chunks, set_final_move_succeeded,
    set_final_move_pending, set_path_pair_id, set_path_pair_name, set_counter, set_display,
    set_percent, set_unchecked, set_checked_bool, checked_size, mret, mbind, result_ret,
    result_bind in *.

(** Splits a successful setter call into its accepting branches. *)
Ltac mf_cases H :=
  repeat match type of H with
    | context [match ?v with _ => _ end] => destruct v eqn:?; try discriminate H
    | Ok _ = Ok _ => injection H as <-
    end;
  repeat match goal with
    | E : match ?v with _ => _ end = Ok _ |- _ => destruct v eqn:?; try discriminate E
    | E : Ok _ = Ok _ |- _ => injection E as <-
    end.

(** Contract of the setters: which values they refuse, and how. *)
Lemma set_prop_outcome p f v :
  match prop_error p v with
  | Some e => set_prop p f v = Raise e
  | None => exists f', set_prop p f v = Ok f'
  end.
Proof.
  destruct p; simpl; mf_unfold; destruct v; simpl;
    try solve [eauto | case_decide; destruct (Z.ltb_spec z 0); simpl; eauto; lia
              | repeat case_decide; repeat case_match; eauto; lia].
  destruct (forallb _ l) eqn:E.
  - rewrite decide_True; [eauto|]. apply Forall_forall. intros c Hc%list_elem_of_In.
    rewrite forallb_forall in E. apply E in Hc. destruct c; simpl; try done; lia.
  - rewrite decide_False; [done|]. intros HF. apply not_true_iff_false in E. apply E.
    apply forallb_forall. intros c Hc%list_elem_of_In.
    eapply Forall_forall in HF; [|exact Hc]. destruct c; simpl in HF |- *; try done; lia.
Qed.

(** What the sparse-dictionary setters write. *)
Definition runtime_key (p : prop) : option (string * pyval) :=
  match p with
  | P_transferred_size => Some ("transferred_size", PyNone)
  | P_display_size_total => Some ("display_size_total", PyNone)
  | P_display_transferred_size => Some ("display_transferred_size", PyNone)
  | P_download_progress => Some ("download_progress", PyNone)
  | P_downloading_speed => Some ("downloading_speed", PyNone)
  | P_eta => Some ("eta", PyNone)
  | P_is_extractable => Some ("is_extractable", PyBool false)
  | P_is_stoppable => Some ("is_stoppable", PyBool false)
  | P_explicitly_stopped => Some ("explicitly_stopped", PyBool false)
  | P_complete_local_coverage => Some ("complete_local_coverage", PyBool false)
  | P_resume_checkpoint_present => Some ("resume_checkpoint_present", PyBool false)
  | P_downloaded_timestamp => Some ("downloaded_timestamp", PyNone)
  | P_validation_progress => Some ("validation_progress", PyNone)
  | P_validation_error => Some ("validation_error", PyNone)
  | P_corrupt_chunks => Some ("corrupt_chunks", PyNone)
  | P_final_move_succeeded => Some ("final_move_succeeded", PyBool false)
  | P_final_move_pending => Some ("final_move_pending", PyBool false)
  | _ => None
  end.

Lemma set_prop_runtime p key d f v f' :
  runtime_key p = Some (key, d) -> set_prop p f v = Ok f' ->
  f' = set_runtime f key v d /\ is_default d.
Proof.
  destruct p; simpl; intros [= <- <-] H; mf_unfold; mf_cases H; auto.
Qed.

Lemma get_prop_runtime p key d f :
  runtime_key p = Some (key, d) ->
  get_prop p f = runtime_value f key d \/
  (get_prop p f = PyBool (truthy (runtime_value f key d)) /\
   (p = P_final_move_succeeded \/ p = P_final_move_pending)).
Proof. destruct p; simpl; intros [= <- <-]; auto 6. Qed.

Lemma get_set_prop p f v f' : set_prop p f v = Ok f' -> get_prop p f' = v.
Proof.
  intros H. destruct (runtime_key p) as [[key d]|] eqn:Ek.
  - pose proof H as H0. eapply set_prop_runtime in H0 as [-> Hd]; [|done].
    assert (Hv : runtime_value (set_runtime f key v d) key d = v).
    { rewrite runtime_value_set_runtime by done. by rewrite decide_True. }
    destruct (get_prop_runtime p key d (set_runtime f key v d) Ek) as [->|[-> Hp]]; rewrite Hv; [done|].
    destruct Hp as [-> | ->]; simpl in H; mf_unfold; by mf_cases H.
  - destruct p; try discriminate Ek; simpl in H |- *; mf_unfold; mf_cases H; simpl;
      unfold remote_present, local_present, remote_has_transferable_content; flag_simpl;
      try congruence; done.
Qed.

(** Reads of one property after a write of another. *)
Lemma frame_set_prop p q f v f' :
  p <> q -> coupled p q = false -> set_prop p f v = Ok f' -> get_prop q f' = get_prop q f.
Proof.
  intros Hne Hc H. destruct (runtime_key p) as [[key d]|] eqn:Ek.
  - eapply set_prop_runtime in H as [-> Hd]; [|done].
    destruct (runtime_key q) as [[key' d']|] eqn:Eq.
    + assert (Hk : key <> key').
      { intros <-. destruct p; try discriminate Ek; destruct q; try discriminate Eq; naive_solver. }
      assert (Hv : runtime_value (set_runtime f key v d) key' d' = runtime_value f key' d').
      { rewrite runtime_value_set_runtime by done. by rewrite decide_False. }
      destruct q; try discriminate Eq; simpl in *; injection Eq as <- <-;
        unfold final_move_succeeded, final_move_pending; first [exact Hv | by rewrite Hv].
    + rewrite set_runtime_put. by destruct q.
  - destruct p; try discriminate Ek; simpl in H; mf_unfold; mf_cases H;
      destruct q; try discriminate Hc; try congruence; simpl;
      unfold remote_present, local_present, remote_has_transferable_content; flag_simpl;
      try congruence; done.
Qed.

(** ** Representation invariant *)

Definition has_size (o : option Z) : bool := match o with Some _ => true | None => false end.

(** The values the runtime dictionary may hold under each key. *)
Definition runtime_value_ok (key : string) (v : pyval) : Prop :=
  exists p d, runtime_key p = Some (key, d) /\ prop_error p v = None /\ v <> d.

Definition runtime_ok (r : option (gmap string pyval)) : Prop :=
  match r with
  | None => True
  | Some m => m <> ∅ /\ map_Forall runtime_value_ok m
  end.

Record node_wf (f : ModelFile) : Prop := {
  wf_flags : 0 <= f_flags (slots f) < 128;
  wf_remote_size : forall z, remote_size f = Some z -> 0 <= z;
  wf_local_size : forall z, local_size f = Some z -> 0 <= z;
  wf_remote_present :
    flag f F_REMOTE_PRESENT_EXPLICIT = false -> remote_present f = has_size (remote_size f);
  wf_local_present :
    flag f F_LOCAL_PRESENT_EXPLICIT = false -> local_present f = has_size (local_size f);
  wf_remote_content :
    flag f F_REMOTE_CONTENT_EXPLICIT = false ->
    remote_has_transferable_content f =
    match remote_size f with Some z => negb (is_dir f) || (0 <? z) | None => false end;
  wf_runtime : runtime_ok (f_runtime (slots f));
  wf_leaf : is_dir f = false -> children_slot f = None;
  wf_names : NoDup (map name (get_children f)) }.

(** The whole tree below a node is well formed. *)
Inductive tree_wf : ModelFile -> Prop :=
  | tree_wf_intro f : node_wf f -> Forall tree_wf (get_children f) -> tree_wf f.

Lemma next_runtime_ok r p key d v :
  runtime_key p = Some (key, d) -> is_default d -> prop_error p v = None ->
  runtime_ok r -> runtime_ok (next_runtime r key v d).
Proof.
  intros Hk Hd Hp Hr. unfold next_runtime. destruct (py_same v d) eqn:E.
  - destruct r as [m|]; [|done]. destruct Hr as [_ Hm].
    destruct (Nat.eqb_spec (size (delete key m)) 0) as [|Hs]; [done|]. split.
    + intros H0. rewrite H0, map_size_empty in Hs. done.
    + by apply map_Forall_delete.
  - split; [apply insert_non_empty|]. apply map_Forall_insert_2.
    + exists p, d. split_and!; [done..|]. intros ->. by rewrite py_same_refl in E.
    + destruct r as [m|]; [apply Hr | apply map_Forall_empty].
Qed.

Lemma put_runtime_wf f r : node_wf f -> runtime_ok r -> node_wf (put_runtime f r).
Proof. intros [] Hr. by constructor. Qed.

Lemma flag_put_sizes f a b x : flag (put_sizes f a b) x = flag f x.
Proof. done. Qed.

(** Flags and sizes are all the remaining setters touch. *)
Ltac wf_flag_setter Hwf :=
  destruct Hwf; constructor; intros;
    [ repeat (apply set_flag_range; [by auto|]); done | .. ];
    unfold remote_present, local_present, remote_has_transferable_content, is_dir in *;
    rewrite ?flag_put_sizes in *;
    repeat match goal with
      | H : flag (set_flag _ _ _) _ = _ |- _ => progress flag_simpl_in H
      | |- context [flag (set_flag _ _ _) _] => progress flag_simpl
      end;
    rewrite ?flag_put_sizes in *;
    unfold remote_size, local_size in *; simpl in *; simplify_eq/=;
    first [done | lia | congruence | solve [eauto]].

Lemma set_prop_wf p f v f' : set_prop p f v = Ok f' -> node_wf f -> node_wf f'.
Proof.
  intros H Hwf. destruct (runtime_key p) as [[key d]|] eqn:Ek.
  - pose proof (set_prop_outcome p f v) as Ho. rewrite H in Ho.
    eapply set_prop_runtime in H as [-> Hd]; [|done]. rewrite set_runtime_put.
    apply put_runtime_wf; [done|]. eapply next_runtime_ok; [done..| |apply Hwf].
    by destruct (prop_error p v).
  - destruct p; try discriminate Ek; simpl in H; mf_unfold; mf_cases H; wf_flag_setter Hwf.
Qed.

(** ** Reachable objects *)

Lemma set_prop_frame p f v f' :
  set_prop p f v = Ok f' ->
  name f' = name f /\ is_dir f' = is_dir f /\ state f' = state f /\
  children_slot f' = children_slot f /\ f_update_timestamp (slots f') = f_update_timestamp (slots f).
Proof.
  intros H. destruct (runtime_key p) as [[key d]|] eqn:Ek.
  - eapply set_prop_runtime in H as [-> Hd]; [|done]. by rewrite set_runtime_put.
  - destruct p; try discriminate Ek; simpl in H; mf_unfold; mf_cases H;
      unfold is_dir; flag_simpl; done.
Qed.

(** What a program can build with the public API of the class. *)
Inductive mf_reach : ModelFile -> Prop :=
  | reach_new now n d : mf_reach (new_file now n d)
  | reach_set p v f f' : mf_reach f -> set_prop p f v = Ok f' -> mf_reach f'
  | reach_state f s : mf_reach f -> mf_reach (put_state f s)
  | reach_update_timestamp f v f' :
      mf_reach f -> set_update_timestamp f v = Ok f' -> mf_reach f'
  | reach_add_child self child f' :
      mf_reach (ref_file self) -> mf_reach (ref_file child) ->
      add_child self child = Ok f' -> mf_reach f'.

Lemma new_file_wf now n d : node_wf (new_file now n d).
Proof.
  destruct d; constructor; simpl; try done; apply NoDup_nil_2.
Qed.

Lemma put_state_wf f s : node_wf f -> node_wf (put_state f s).
Proof. by intros []; constructor. Qed.

Lemma existsb_name_false l n :
  existsb (fun c => String.eqb (name c) n) l = false -> n ∉ map name l.
Proof.
  intros H Hin. apply list_elem_of_fmap in Hin as (c & -> & Hc%list_elem_of_In).
  apply not_true_iff_false in H. apply H, existsb_exists. exists c.
  split; [done | apply String.eqb_refl].
Qed.

Lemma add_child_children self child f' :
  add_child self child = Ok f' ->
  get_children f' = get_children (ref_file self) ++ [ref_file child].
Proof. unfold add_child. intros H. repeat case_match; try discriminate. by injection H as <-. Qed.

Lemma add_child_wf self child f' :
  add_child self child = Ok f' -> node_wf (ref_file self) -> node_wf f'.
Proof.
  intros H Hwf. pose proof (add_child_children _ _ _ H) as Hch. unfold add_child in H.
  repeat case_match; try discriminate. injection H as <-.
  destruct Hwf as [? ? ? ? ? ? ? ? Hn]. constructor; try done.
  - unfold is_dir, flag in *; simpl in *. intros H'. by rewrite H' in *.
  - rewrite Hch, map_app. apply NoDup_app. split_and!; [done| |apply NoDup_singleton].
    intros x Hx Hx'. simpl in Hx'. apply list_elem_of_singleton in Hx' as ->.
    revert Hx. by apply existsb_name_false.
Qed.

(** every object that can be built through the constructor, the property
    setters and [add_child] satisfies the representation invariant at every
    node: seven flag bits, non-negative sizes, presence flags that agree with
    the sizes unless explicitly overridden, a runtime dictionary that is never
    empty and never stores a default or out-of-range value, no children below
    a plain file, and pairwise distinct child names. *)
Theorem model_file_invariant f : mf_reach f -> tree_wf f.
Proof.
  induction 1 as [now n d|p v f f' _ IH H|f s _ IH|f v f' _ IH H|self child f' _ IH1 _ IH2 H].
  - constructor; [apply new_file_wf | by apply Forall_nil].
  - inversion IH as [? Hn Hc]; subst. constructor; [by eapply set_prop_wf|].
    apply set_prop_frame in H as (_ & _ & _ & Hch & _). unfold get_children in *. by rewrite Hch.
  - inversion IH as [? Hn Hc]; subst. constructor; [by apply put_state_wf|done].
  - inversion IH as [? [] Hc]; subst. unfold set_update_timestamp in H.
    destruct v; try discriminate; injection H as <-. by constructor.
  - inversion IH1 as [? Hn Hc]; subst. constructor; [by eapply add_child_wf|].
    rewrite (add_child_children _ _ _ H). apply Forall_app. split; [done|].
    by apply Forall_singleton.
Qed.

Lemma model_file_invariant_witness :
  exists f, set_prop P_remote_size (new_file 0 "a" true) (PyInt 5) = Ok f /\
            tree_wf f /\ remote_has_transferable_content f = true.
Proof.
  eexists. split; [reflexivity|]. split; [|reflexivity].
  apply model_file_invariant.
  apply (reach_set P_remote_size (PyInt 5) (new_file 0 "a" true)); [apply reach_new | reflexivity].
Defined.


(** A size update leaves the explicit bits and what they guard alone. *)
Lemma set_remote_size_flags f w f' :
  set_remote_size f w = Ok f' ->
  flag f' F_REMOTE_PRESENT_EXPLICIT = flag f F_REMOTE_PRESENT_EXPLICIT /\
  flag f' F_REMOTE_CONTENT_EXPLICIT = flag f F_REMOTE_CONTENT_EXPLICIT /\
  (flag f F_REMOTE_PRESENT_EXPLICIT = true -> flag f' F_REMOTE_PRESENT = flag f F_REMOTE_PRESENT) /\
  (flag f F_REMOTE_CONTENT_EXPLICIT = true -> flag f' F_REMOTE_CONTENT = flag f F_REMOTE_CONTENT).
Proof.
  unfold set_remote_size, mret, mbind, result_ret, result_bind.
  destruct (checked_size w) as [rs|]; [|done]. intros [= <-]. rewrite !flag_put_sizes.
  destruct (flag f F_REMOTE_PRESENT_EXPLICIT) eqn:E1, (flag f F_REMOTE_CONTENT_EXPLICIT) eqn:E2;
    rewrite ?flag_put_sizes; flag_simpl; rewrite ?flag_put_sizes, ?E1, ?E2; flag_simpl;
    rewrite ?flag_put_sizes, ?E1, ?E2; split_and!; done.
Qed.

(** An explicitly set presence or content signal survives every later
    size update, whatever the sizes. *)
Theorem explicit_presence_sticky f v b w f1 f2 :
  set_prop P_remote_present f (PyBool b) = Ok f1 ->
  set_prop P_remote_size f1 w = Ok f2 ->
  remote_present f2 = b /\
  (forall f3, set_prop P_remote_content f2 (PyBool v) = Ok f3 ->
   forall u f4, set_prop P_remote_size f3 u = Ok f4 ->
   remote_present f4 = b /\ remote_has_transferable_content f4 = v).
Proof.
  intros [= <-] (E1 & _ & P1 & _)%set_remote_size_flags.
  unfold remote_present, remote_has_transferable_content in *.
  flag_simpl_in E1. flag_simpl_in P1. specialize (P1 eq_refl). flag_simpl_in P1. split; [done|].
  intros f3 [= <-] u f4 (_ & _ & P2 & C2)%set_remote_size_flags.
  flag_simpl_in P2. flag_simpl_in C2. rewrite P2, C2 by done. flag_simpl. done.
Qed.

Lemma explicit_presence_sticky_witness :
  exists f1 f2,
    set_prop P_remote_present (new_file 0 "d" true) (PyBool true) = Ok f1 /\
    set_prop P_remote_size f1 PyNone = Ok f2 /\ remote_present f2 = true.
Proof.
  eexists _, _. split; [reflexivity|]. split; [reflexivity|].
  refine (proj1 (explicit_presence_sticky (new_file 0 "d" true) false true PyNone _ _ _ _)); reflexivity.
Defined.

(** ** Equality of trees *)

Section ModelFile_ind.
Context (P : ModelFile -> Prop)
  (Hnode : forall fl cs, Forall P (default [] cs) -> P (mkFile fl cs)).

(** Induction with a hypothesis for every child. *)
Fixpoint ModelFile_nested_ind (f : ModelFile) : P f :=
  match f with
  | mkFile fl cs =>
      Hnode fl cs
        (match cs as o return Forall P (default [] o) with
         | None => @Forall_nil_2 _ P
         | Some l =>
             (fix go (l : list ModelFile) : Forall P l :=
                match l with
                | [] => @Forall_nil_2 _ P
                | x :: l' => @Forall_cons_2 _ P x l' (ModelFile_nested_ind x) (go l')
                end) l
         end)
  end.
End ModelFile_ind.

Definition attrs_eq (f g : ModelFile) : Prop :=
  py_eq (PyList (comparison_attributes f)) (PyList (comparison_attributes g)) = true.

Lemma has_name_last_named n l : has_name n l = true <-> is_Some (last_named n l).
Proof.
  induction l as [|c l IH]; simpl.
  - split; [done | by intros []].
  - rewrite orb_true_iff, IH. destruct (last_named n l) as [d|].
    + naive_solver.
    + destruct (String.eqb (name c) n); naive_solver.
Qed.

Lemma last_named_elem n l c : last_named n l = Some c -> c ∈ l /\ name c = n.
Proof.
  induction l as [|d l IH]; simpl; [done|].
  destruct (last_named n l) as [e|].
  - intros [= ->]. destruct IH; [done|]. split; [by right|done].
  - destruct (String.eqb_spec (name d) n); [|done]. intros [= ->]. split; [left|done].
Qed.

Lemma last_named_is_Some n l : is_Some (last_named n l) <-> n ∈ map name l.
Proof.
  rewrite <- has_name_last_named. unfold has_name. rewrite existsb_exists, list_elem_of_fmap.
  setoid_rewrite String.eqb_eq. setoid_rewrite list_elem_of_In. naive_solver.
Qed.

(** Two child lists agree when they name the same children, equal by name. *)
Definition children_agree (R : ModelFile -> ModelFile -> Prop) (l k : list ModelFile) : Prop :=
  length l = length k /\
  forall n, match last_named n l, last_named n k with
            | Some c, Some d => R c d
            | None, None => True
            | _, _ => False
            end.

Lemma forallb_has_name l k :
  forallb (fun c => has_name (name c) k) l = true <->
  (forall n, is_Some (last_named n l) -> is_Some (last_named n k)).
Proof.
  rewrite forallb_forall. split.
  - intros H n [c Hc]. apply last_named_elem in Hc as [Hin <-].
    apply has_name_last_named, H. by apply list_elem_of_In.
  - intros H c Hc. apply has_name_last_named, H, last_named_is_Some.
    apply list_elem_of_fmap. exists c. split; [done|]. by apply list_elem_of_In.
Qed.

(** The comparison loop visits the entries of the name-to-child dictionary. *)
Lemma eq_loop_spec (E : ModelFile -> ModelFile -> bool) k l :
  (fix go (l : list ModelFile) : bool :=
     match l with
     | [] => true
     | c :: l' =>
         (if has_name (name c) l' then true
          else match last_named (name c) k with Some d => E c d | None => false end) && go l'
     end) l = true <->
  (forall n c, last_named n l = Some c -> exists d, last_named n k = Some d /\ E c d = true).
Proof.
  induction l as [|c l IH]; [naive_solver|]. rewrite andb_true_iff, IH. clear IH. split.
  - intros [Hc Hl] n x. simpl. destruct (last_named n l) as [y|] eqn:Ey.
    + intros [= <-]. by apply Hl.
    + destruct (String.eqb_spec (name c) n) as [<-|]; [|done]. intros [= <-].
      destruct (has_name (name c) l) eqn:Eh.
      * apply has_name_last_named in Eh as [? ?]. congruence.
      * destruct (last_named (name c) k) as [d|]; [eauto|done].
  - intros H. split.
    + destruct (has_name (name c) l) eqn:Eh; [done|].
      assert (Hn : last_named (name c) l = None).
      { destruct (last_named (name c) l) eqn:E'; [|done].
        apply not_true_iff_false in Eh. destruct Eh. apply has_name_last_named. by rewrite E'. }
      destruct (H (name c) c) as (d & -> & ?); [|done].
      simpl. rewrite Hn. by rewrite String.eqb_refl.
    + intros n x Hx. apply H. simpl. by rewrite Hx.
Qed.

Lemma mf_eqb_spec f g :
  mf_eqb f g = true <->
  attrs_eq f g /\ children_agree (fun c d => mf_eqb c d = true) (get_children f) (get_children g).
Proof.
  destruct f as [fl cs]. cbn [mf_eqb]. unfold attrs_eq. rewrite andb_true_iff.
  apply and_iff_compat_l. unfold children_agree.
  change (match cs with Some l => l | None => [] end) with (get_children (mkFile fl cs)).
  assert (Hg : get_children (mkFile fl cs) = default [] cs) by done.
  rewrite !andb_true_iff, !forallb_has_name, Nat.eqb_eq.
  destruct cs as [l|]; rewrite Hg; simpl.
  - rewrite eq_loop_spec. split.
    + intros (((Hl & H1) & H2) & H3). split; [done|]. intros n.
      specialize (H1 n). specialize (H2 n). specialize (H3 n).
      destruct (last_named n l) as [c|], (last_named n (get_children g)) as [d|]; try done.
      * destruct (H3 c) as (? & [= <-] & ?); done.
      * destruct H1 as [? ?]; [eauto|done].
      * destruct H2 as [? ?]; [eauto|done].
    + intros [Hl H]. split_and!; [done|..]; intros n; specialize (H n).
      * intros [c Hc]. rewrite Hc in H. destruct (last_named n (get_children g)); [eauto|done].
      * intros [d Hd]. rewrite Hd in H. destruct (last_named n l); [eauto|done].
      * intros c Hc. rewrite Hc in H. destruct (last_named n (get_children g)); [eauto|done].
  - split; intros.
    + destruct (get_children g); simpl in *; naive_solver.
    + destruct (get_children g); simpl in *; naive_solver.
Qed.

Lemma children_agree_refl (R : ModelFile -> ModelFile -> Prop) l :
  Forall (fun c => R c c) l -> children_agree R l l.
Proof.
  intros H. split; [done|]. intros n. destruct (last_named n l) as [c|] eqn:E; [|done].
  apply last_named_elem in E as [Hin _]. by eapply Forall_forall in H.
Qed.

Lemma mf_eqb_refl f : mf_eqb f f = true.
Proof.
  induction f as [fl cs IH] using ModelFile_nested_ind. apply mf_eqb_spec.
  split; [apply py_eq_refl|]. by apply children_agree_refl.
Qed.

Lemma mf_eqb_sym f g : mf_eqb f g = true -> mf_eqb g f = true.
Proof.
  revert g. induction f as [fl cs IH] using ModelFile_nested_ind. intros g [Ha [Hl Hc]]%mf_eqb_spec.
  apply mf_eqb_spec. split; [unfold attrs_eq in *; by rewrite py_eq_sym|].
  split; [done|]. intros n. specialize (Hc n).
  change (get_children (mkFile fl cs)) with (default [] cs) in *.
  destruct (last_named n (default [] cs)) as [c|] eqn:E,
    (last_named n (get_children g)) as [d|]; try done.
  apply last_named_elem in E as [Hin _]. eapply Forall_forall in IH; [|exact Hin]. auto.
Qed.

Lemma mf_eqb_trans f g h : mf_eqb f g = true -> mf_eqb g h = true -> mf_eqb f h = true.
Proof.
  revert g h. induction f as [fl cs IH] using ModelFile_nested_ind.
  intros g h [Ha [Hl Hc]]%mf_eqb_spec [Ha' [Hl' Hc']]%mf_eqb_spec.
  apply mf_eqb_spec. split; [unfold attrs_eq in *; by eapply py_eq_trans|].
  split; [congruence|]. intros n. specialize (Hc n). specialize (Hc' n).
  change (get_children (mkFile fl cs)) with (default [] cs) in *.
  destruct (last_named n (default [] cs)) as [c|] eqn:E; cycle 1.
  { destruct (last_named n (get_children g)), (last_named n (get_children h)); done. }
  apply last_named_elem in E as [Hin _]. eapply Forall_forall in IH; [|exact Hin].
  destruct (last_named n (get_children g)), (last_named n (get_children h)); try done. eauto.
Qed.

(** The equivalence on trees that [==] decides. *)
Definition mf_equiv (f g : ModelFile) : Prop := mf_eqb f g = true.

#[export] Instance mf_equiv_equivalence : Equivalence mf_equiv.
Proof.
  split; [exact mf_eqb_refl | exact mf_eqb_sym | exact mf_eqb_trans].
Qed.

#[export] Instance mf_eqb_proper : Proper (mf_equiv ==> mf_equiv ==> eq) mf_eqb.
Proof.
  intros f f' Hf g g' Hg. apply eq_true_iff_eq. unfold mf_equiv in *. split; intros H.
  - eapply mf_eqb_trans; [by apply mf_eqb_sym|]. by eapply mf_eqb_trans.
  - eapply mf_eqb_trans; [exact Hf|]. eapply mf_eqb_trans; [exact H|]. by apply mf_eqb_sym.
Qed.

Lemma last_named_unique n l c :
  NoDup (map name l) -> last_named n l = Some c <-> c ∈ l /\ name c = n.
Proof.
  intros Hnd. split; [apply last_named_elem|]. intros [Hin <-].
  induction l as [|d l IH]; simpl in *; [by inversion Hin|].
  apply NoDup_cons in Hnd as [Hd Hnd]. apply elem_of_cons in Hin as [<-|Hin].
  - destruct (last_named (name c) l) eqn:E.
    + destruct Hd. by apply last_named_is_Some; rewrite E.
    + by rewrite String.eqb_refl.
  - by rewrite IH.
Qed.

Lemma last_named_perm n l k :
  NoDup (map name l) -> l ≡ₚ k -> last_named n l = last_named n k.
Proof.
  intros Hnd Hp. assert (Hnd' : NoDup (map name k)).
  { assert (Hm : map name k ≡ₚ map name l) by (apply Permutation_map; by symmetry). by rewrite Hm. }
  apply option_eq. intros c. rewrite !last_named_unique by done.
  by rewrite Hp.
Qed.

(** [ModelFile.__eq__] is an equivalence relation, it implies agreement of
    every compared attribute, and on trees with distinct child names it does
    not depend on the order of the children. *)
Theorem model_file_eq_equivalence :
  Equivalence (fun f g => mf_eqb f g = true) /\
  (forall f g, mf_eqb f g = true -> attrs_eq f g) /\
  (forall fl l k, NoDup (map name l) -> l ≡ₚ k ->
     mf_eqb (mkFile fl (Some l)) (mkFile fl (Some k)) = true).
Proof.
  split; [exact mf_equiv_equivalence|]. split; [by intros f g [? _]%mf_eqb_spec|].
  intros fl l k Hnd Hp. apply mf_eqb_spec. split; [apply (py_eq_refl (PyList _))|].
  split; [by apply Permutation_length|]. intros n.
  unfold get_children; simpl.
  rewrite (last_named_perm n l k) by done. destruct (last_named n k); [apply mf_eqb_refl|done].
Qed.

(** ** Identifiers *)

Lemma build_scoped_id_inj path1 path2 pair1 pair2 :
  build_file_id path1 (Some pair1) = build_file_id path2 (Some pair2) ->
  path1 = path2 /\ pair1 = pair2.
Proof.
  unfold build_file_id. intros H%(inj str).
  apply (f_equal (fun l => unesc (tail (tail l)))) in H. unfold json_str_chars in H.
  cbn [tail app] in H. rewrite <- !app_assoc in H. cbn [app] in H. rewrite !unesc_esc in H.
  injection H as E1 H. apply (inj chars) in E1 as ->. split; [|done].
  apply (f_equal unesc) in H. rewrite !unesc_esc in H. injection H as E2. by apply (inj chars).
Qed.

(** A scoped identifier starts with a bracket, and a path that does not is
    its own unscoped identifier. *)
Lemma scoped_id_bracket path pair : startswith (build_file_id path (Some pair)) "[" = true.
Proof. done. Qed.

(** identifiers determine what they identify: two files scoped to path
    pairs share an identifier only when pair and path agree, whatever
    characters the names contain; unscoped files only when the paths agree;
    and a scoped file shares no identifier with an unscoped path that does
    not itself start with a bracket. *)
Theorem scoped_file_id_injective path1 path2 pair1 pair2 :
  (pair1 = None -> startswith path1 "[" = false) ->
  (pair2 = None -> startswith path2 "[" = false) ->
  build_file_id path1 pair1 = build_file_id path2 pair2 ->
  path1 = path2 /\ pair1 = pair2.
Proof.
  intros H1 H2 H. destruct pair1 as [p1|], pair2 as [p2|].
  - apply build_scoped_id_inj in H as [-> ->]. done.
  - specialize (H2 eq_refl). cbn [build_file_id] in H. by rewrite <- H in H2.
  - specialize (H1 eq_refl). cbn [build_file_id] in H. by rewrite H in H1.
  - done.
Qed.

Lemma scoped_file_id_injective_witness :
  build_file_id "a" (Some "p") = build_file_id "a" (Some "p") /\ ("a" = "a" /\ Some "p" = Some "p").
Proof.
  split; [reflexivity|].
  apply (scoped_file_id_injective "a" "a" (Some "p") (Some "p")); [discriminate|discriminate|reflexivity].
Defined.
