(* ===== verification/JobStatus.v ===== *)
(** * LFTP job status records ([lftp/job_status.py])

    One parsed row of the LFTP [jobs] output: the job's identity and kind, its
    transfer counters, and the parser's provenance flags.  A queued job never
    carries transfer state. *)

From S2P Require Import Prelude PyStr PyDict ModelFile.

Inductive JobType := MIRROR | PGET | GET.

Definition job_type_value (t : JobType) : string :=
  match t with MIRROR => "mirror" | PGET => "pget" | GET => "get" end.

Inductive JobState := JQUEUED | JRUNNING.

#[export] Instance JobType_eq_dec : EqDecision JobType.
Proof. solve_decision. Defined.
#[export] Instance JobState_eq_dec : EqDecision JobState.
Proof. solve_decision. Defined.

Record TransferState := mkTransfer {
  size_local : option Z; size_remote : option Z; percent_local : option Z;
  speed : option Z; t_eta : option Z }.

#[export] Instance TransferState_eq_dec : EqDecision TransferState.
Proof. solve_decision. Defined.

Definition no_transfer : TransferState := mkTransfer None None None None None.

(** [{"bytes": ..., "percent": ..., "speed": ..., "eta": ...}] *)
Record field_presence := mkPresence {
  bytes_present : bool; percent_present : bool; speed_present : bool; eta_present : bool }.

Record LftpJobStatus := mkJob {
  job_id : Z; job_type : JobType; job_state : JobState; job_name : string; job_flags : string;
  job_remote_path : option string; job_local_path : option string;
  job_path_pair_id : option string; job_path_pair_name : option string;
  total_transfer_state : TransferState;
  active_files_state : dict string TransferState;
  record_shape : string; record_field_presence : field_presence }.

Definition new_job (id : Z) (ty : JobType) (s : JobState) (nm flags : string)
    (rpath lpath : option string) : LftpJobStatus :=
  mkJob id ty s nm flags (strip <$> rpath) (strip <$> lpath) None None no_transfer [] "none"
    (mkPresence false false false false).

Definition set_job_name (j : LftpJobStatus) (v : pyval) : result LftpJobStatus :=
  match v with
  | PyStr s =>
      if String.eqb s "" then Raise TypeError else
      Ok (mkJob (job_id j) (job_type j) (job_state j) s (job_flags j) (job_remote_path j)
            (job_local_path j) (job_path_pair_id j) (job_path_pair_name j)
            (total_transfer_state j) (active_files_state j) (record_shape j)
            (record_field_presence j))
  | _ => Raise TypeError
  end.

Definition set_job_pair (j : LftpJobStatus) (i n : option string) : LftpJobStatus :=
  mkJob (job_id j) (job_type j) (job_state j) (job_name j) (job_flags j) (job_remote_path j)
    (job_local_path j) i n (total_transfer_state j) (active_files_state j) (record_shape j)
    (record_field_presence j).

Definition set_job_path_pair_id (j : LftpJobStatus) (v : pyval) : result LftpJobStatus :=
  match v with
  | PyNone => Ok (set_job_pair j None (job_path_pair_name j))
  | PyStr s => Ok (set_job_pair j (Some s) (job_path_pair_name j))
  | _ => Raise TypeError
  end.

Definition set_job_path_pair_name (j : LftpJobStatus) (v : pyval) : result LftpJobStatus :=
  match v with
  | PyNone => Ok (set_job_pair j (job_path_pair_id j) None)
  | PyStr s => Ok (set_job_pair j (job_path_pair_id j) (Some s))
  | _ => Raise TypeError
  end.

Definition job_file_id (j : LftpJobStatus) : string := build_file_id (job_name j) (job_path_pair_id j).

Definition put_transfers (j : LftpJobStatus) (t : TransferState) (a : dict string TransferState) :=
  mkJob (job_id j) (job_type j) (job_state j) (job_name j) (job_flags j) (job_remote_path j)
    (job_local_path j) (job_path_pair_id j) (job_path_pair_name j) t a (record_shape j)
    (record_field_presence j).

Definition set_total_transfer_state (j : LftpJobStatus) (t : TransferState) : result LftpJobStatus :=
  match job_state j with
  | JQUEUED => Raise TypeError
  | JRUNNING => Ok (put_transfers j t (active_files_state j))
  end.

Definition add_active_file_transfer_state (j : LftpJobStatus) (filename : string)
    (t : TransferState) : result LftpJobStatus :=
  match job_state j with
  | JQUEUED => Raise TypeError
  | JRUNNING => Ok (put_transfers j (total_transfer_state j) (dset (active_files_state j) filename t))
  end.

Definition get_active_file_transfer_states (j : LftpJobStatus) : list (string * TransferState) :=
  zip (dkeys (active_files_state j)) (dvals (active_files_state j)).

Definition is_true (v : pyval) : bool := match v with PyBool true => true | _ => false end.

(** Unhashable values fail the set-membership test. *)
Definition set_record_provenance (j : LftpJobStatus) (shape b p s e : pyval) : result LftpJobStatus :=
  let put sh :=
    Ok (mkJob (job_id j) (job_type j) (job_state j) (job_name j) (job_flags j)
          (job_remote_path j) (job_local_path j) (job_path_pair_id j) (job_path_pair_name j)
          (total_transfer_state j) (active_files_state j) sh
          (mkPresence (is_true b) (is_true p) (is_true s) (is_true e))) in
  match shape with
  | PyList _ => Raise TypeError
  | PyStr sh => put (if existsb (String.eqb sh) ["at"; "got"; "none"] then sh else "none")
  | _ => put "none"
  end.

(** Dictionary equality, order aside. *)
Definition same_transfers (a b : dict string TransferState) : bool :=
  forallb (fun k => bool_decide (dget a k = dget b k)) (dkeys a ++ dkeys b).

(** [LftpJobStatus.__eq__] ignores paths, path pair and provenance. *)
Definition job_eqb (a b : LftpJobStatus) : bool :=
  (job_id a =? job_id b) && bool_decide (job_type a = job_type b) &&
  bool_decide (job_state a = job_state b) && String.eqb (job_name a) (job_name b) &&
  String.eqb (job_flags a) (job_flags b) &&
  bool_decide (total_transfer_state a = total_transfer_state b) &&
  same_transfers (active_files_state a) (active_files_state b).

(** ** Properties *)

Inductive job_op :=
  | JName (v : pyval) | JPairId (v : pyval) | JPairName (v : pyval)
  | JTotal (t : TransferState) | JActive (n : string) (t : TransferState)
  | JProvenance (shape b p s e : pyval).

Definition apply_job_op (o : job_op) (j : LftpJobStatus) : result LftpJobStatus :=
  match o with
  | JName v => set_job_name j v
  | JPairId v => set_job_path_pair_id j v
  | JPairName v => set_job_path_pair_name j v
  | JTotal t => set_total_transfer_state j t
  | JActive n t => add_active_file_transfer_state j n t
  | JProvenance sh b p s e => set_record_provenance j sh b p s e
  end.

Record job_wf (j : LftpJobStatus) : Prop := {
  job_wf_queued : job_state j = JQUEUED ->
    total_transfer_state j = no_transfer /\ active_files_state j = [];
  job_wf_active : dwf (active_files_state j);
  job_wf_shape : record_shape j ∈ ["at"; "got"; "none"] }.

Inductive job_reach : LftpJobStatus -> Prop :=
  | job_reach_new id ty s nm fl rp lp : job_reach (new_job id ty s nm fl rp lp)
  | job_reach_op o j j' : job_reach j -> apply_job_op o j = Ok j' -> job_reach j'.

Lemma apply_job_op_wf o j j' : apply_job_op o j = Ok j' -> job_wf j -> job_wf j'.
Proof.
  intros H [Hq Ha Hs]. destruct o; simpl in H;
    unfold set_job_name, set_job_path_pair_id, set_job_path_pair_name, set_total_transfer_state,
      add_active_file_transfer_state, set_record_provenance in H;
    repeat case_match; try discriminate; simplify_eq; constructor; simpl; auto; try congruence;
    try set_solver.
  match goal with H : existsb _ _ = true |- _ => apply existsb_exists in H as (x & Hx & He) end.
  apply String.eqb_eq in He as ->. by apply list_elem_of_In.
Qed.

(** a status record of a queued job never carries transfer counters, the
    per-file transfer map never lists a file twice and the record shape is one
    of the three fixed forms, whatever sequence of updates built the record. *)
Theorem job_status_invariant j : job_reach j -> job_wf j.
Proof.
  induction 1 as [|o j j' _ IH H]; [|by eapply apply_job_op_wf].
  constructor; simpl; auto. set_solver.
Qed.

Lemma job_status_invariant_witness :
  job_wf (new_job 1 PGET JQUEUED "a" "" None None).
Proof. apply job_status_invariant. apply job_reach_new. Defined.
