(* ===== verification/ModelState.v ===== *)
(** * State of the model ([model/model.py], data)

    The root files, their indices, the live progress overlays with the job
    identity and lifecycle epoch they belong to, the published projection that
    readers see, versions, listeners, and the log of the callbacks made, in
    order.  Locks are not modelled: the code holds the controller's model lock
    around these operations. *)

From S2P Require Import Prelude PyStr PyDict ModelFile JobStatus.

(** [ActiveProgressOverlay] *)
Record overlay := mkOverlay {
  o_download_progress : option Z;
  o_transferred_size : option Z;
  o_downloading_speed : option Z;
  o_eta : option Z }.

#[export] Instance overlay_eq_dec : EqDecision overlay.
Proof. solve_decision. Defined.

(** A job identity [(job id, job kind)], and the check the code makes of one. *)
Definition identity : Type := Z * string.

Definition valid_identity (i : identity) : bool := (0 <=? i.1) && negb (String.eqb i.2 "").

(** A registered listener, and which of the optional callbacks it has. *)
Record listener := mkListener {
  l_id : nat; l_version_changed : bool; l_version_published : bool; l_summary_changed : bool }.

(** Payload of the rollback diagnostic. *)
Record snapshot := mkSnapshot {
  sn_caller : string; sn_basis : string;
  sn_raw_state : string; sn_before_state : string; sn_after_state : string;
  sn_before_progress : option Z; sn_after_progress : option Z;
  sn_before_display_transferred : option Z; sn_after_display_transferred : option Z;
  sn_before_display_total : option Z; sn_after_display_total : option Z;
  sn_before_local_size : option Z; sn_after_local_size : option Z;
  sn_before_coverage : option bool; sn_after_coverage : option bool;
  sn_explicit_stop : option bool; sn_overlay_present : bool;
  sn_context : option (dict string pyval) }.

(** The calls the model makes to the outside. *)
Inductive event :=
  | EvAdded (l : nat) (f : ModelFile)
  | EvRemoved (l : nat) (f : ModelFile)
  | EvUpdated (l : nat) (old new : ModelFile)
  | EvVersionChanged (l : nat) (scope_version : Z) (scope : option string) (fid : string)
  | EvVersionPublished (l : nat) (scope_version global_version : Z) (scope : option string) (fid : string)
  | EvSummaryChanged (l : nat)
  | EvVersionCallback (global_version scope_version : Z)
  | EvProvenance (fid reason : string) (previous current : option identity) (level : string)
      (snap : option snapshot).

Record model := mkModel {
  files_by_id : dict string fileref;
  ordered_file_ids : list string;
  file_ids_by_name : dict string (gset string);
  listeners : list listener;
  version : Z;
  scope_versions : dict (option string) Z;
  tree_file_count : Z;
  overlay_generation : Z;
  version_callback : bool;
  overlays : dict string overlay;
  overlay_ids : dict string identity;
  overlay_epochs : dict string Z;
  replacement_depth : Z;
  base_fallbacks : dict string Z;
  suppress_clear : Z;
  correction_ids : gset string;
  correction_old : dict string ModelFile;
  published_files : dict string ModelFile;
  published_ids : dict string identity;
  retiring_ids : dict string identity;
  trace_enabled : option (string -> option pyval);
  trace_recorder : bool;
  clock : Z;
  log : list event }.

Definition upd_files_by_id (g : dict string fileref -> dict string fileref) (s : model) : model :=
  mkModel (g (files_by_id s)) (ordered_file_ids s) (file_ids_by_name s) (listeners s) (version s)
    (scope_versions s) (tree_file_count s) (overlay_generation s) (version_callback s)
    (overlays s) (overlay_ids s) (overlay_epochs s) (replacement_depth s) (base_fallbacks s)
    (suppress_clear s) (correction_ids s) (correction_old s) (published_files s)
    (published_ids s) (retiring_ids s) (trace_enabled s) (trace_recorder s) (clock s) (log s).
Definition upd_ordered_file_ids (g : list string -> list string) (s : model) : model :=
  mkModel (files_by_id s) (g (ordered_file_ids s)) (file_ids_by_name s) (listeners s) (version s)
    (scope_versions s) (tree_file_count s) (overlay_generation s) (version_callback s)
    (overlays s) (overlay_ids s) (overlay_epochs s) (replacement_depth s) (base_fallbacks s)
    (suppress_clear s) (correction_ids s) (correction_old s) (published_files s)
    (published_ids s) (retiring_ids s) (trace_enabled s) (trace_recorder s) (clock s) (log s).
Definition upd_file_ids_by_name (g : dict string (gset string) -> dict string (gset string)) (s : model) : model :=
  mkModel (files_by_id s) (ordered_file_ids s) (g (file_ids_by_name s)) (listeners s) (version s)
    (scope_versions s) (tree_file_count s) (overlay_generation s) (version_callback s)
    (overlays s) (overlay_ids s) (overlay_epochs s) (replacement_depth s) (base_fallbacks s)
    (suppress_clear s) (correction_ids s) (correction_old s) (published_files s)
    (published_ids s) (retiring_ids s) (trace_enabled s) (trace_recorder s) (clock s) (log s).
Definition upd_listeners (g : list listener -> list listener) (s : model) : model :=
  mkModel (files_by_id s) (ordered_file_ids s) (file_ids_by_name s) (g (listeners s)) (version s)
    (scope_versions s) (tree_file_count s) (overlay_generation s) (version_callback s)
    (overlays s) (overlay_ids s) (overlay_epochs s) (replacement_depth s) (base_fallbacks s)
    (suppress_clear s) (correction_ids s) (correction_old s) (published_files s)
    (published_ids s) (retiring_ids s) (trace_enabled s) (trace_recorder s) (clock s) (log s).
Definition upd_version (g : Z -> Z) (s : model) : model :=
  mkModel (files_by_id s) (ordered_file_ids s) (file_ids_by_name s) (listeners s) (g (version s))
    (scope_versions s) (tree_file_count s) (overlay_generation s) (version_callback s)
    (overlays s) (overlay_ids s) (overlay_epochs s) (replacement_depth s) (base_fallbacks s)
    (suppress_clear s) (correction_ids s) (correction_old s) (published_files s)
    (published_ids s) (retiring_ids s) (trace_enabled s) (trace_recorder s) (clock s) (log s).
Definition upd_scope_versions (g : dict (option string) Z -> dict (option string) Z) (s : model) : model :=
  mkModel (files_by_id s) (ordered_file_ids s) (file_ids_by_name s) (listeners s) (version s) (g
    (scope_versions s)) (tree_file_count s) (overlay_generation s) (version_callback s)
    (overlays s) (overlay_ids s) (overlay_epochs s) (replacement_depth s) (base_fallbacks s)
    (suppress_clear s) (correction_ids s) (correction_old s) (published_files s)
    (published_ids s) (retiring_ids s) (trace_enabled s) (trace_recorder s) (clock s) (log s).
Definition upd_tree_file_count (g : Z -> Z) (s : model) : model :=
  mkModel (files_by_id s) (ordered_file_ids s) (file_ids_by_name s) (listeners s) (version s)
    (scope_versions s) (g (tree_file_count s)) (overlay_generation s) (version_callback s)
    (overlays s) (overlay_ids s) (overlay_epochs s) (replacement_depth s) (base_fallbacks s)
    (suppress_clear s) (correction_ids s) (correction_old s) (published_files s)
    (published_ids s) (retiring_ids s) (trace_enabled s) (trace_recorder s) (clock s) (log s).
Definition upd_overlay_generation (g : Z -> Z) (s : model) : model :=
  mkModel (files_by_id s) (ordered_file_ids s) (file_ids_by_name s) (listeners s) (version s)
    (scope_versions s) (tree_file_count s) (g (overlay_generation s)) (version_callback s)
    (overlays s) (overlay_ids s) (overlay_epochs s) (replacement_depth s) (base_fallbacks s)
    (suppress_clear s) (correction_ids s) (correction_old s) (published_files s)
    (published_ids s) (retiring_ids s) (trace_enabled s) (trace_recorder s) (clock s) (log s).
Definition upd_version_callback (g : bool -> bool) (s : model) : model :=
  mkModel (files_by_id s) (ordered_file_ids s) (file_ids_by_name s) (listeners s) (version s)
    (scope_versions s) (tree_file_count s) (overlay_generation s) (g (version_callback s))
    (overlays s) (overlay_ids s) (overlay_epochs s) (replacement_depth s) (base_fallbacks s)
    (suppress_clear s) (correction_ids s) (correction_old s) (published_files s)
    (published_ids s) (retiring_ids s) (trace_enabled s) (trace_recorder s) (clock s) (log s).
Definition upd_overlays (g : dict string overlay -> dict string overlay) (s : model) : model :=
  mkModel (files_by_id s) (ordered_file_ids s) (file_ids_by_name s) (listeners s) (version s)
    (scope_versions s) (tree_file_count s) (overlay_generation s) (version_callback s) (g
    (overlays s)) (overlay_ids s) (overlay_epochs s) (replacement_depth s) (base_fallbacks s)
    (suppress_clear s) (correction_ids s) (correction_old s) (published_files s)
    (published_ids s) (retiring_ids s) (trace_enabled s) (trace_recorder s) (clock s) (log s).
Definition upd_overlay_ids (g : dict string identity -> dict string identity) (s : model) : model :=
  mkModel (files_by_id s) (ordered_file_ids s) (file_ids_by_name s) (listeners s) (version s)
    (scope_versions s) (tree_file_count s) (overlay_generation s) (version_callback s)
    (overlays s) (g (overlay_ids s)) (overlay_epochs s) (replacement_depth s) (base_fallbacks s)
    (suppress_clear s) (correction_ids s) (correction_old s) (published_files s)
    (published_ids s) (retiring_ids s) (trace_enabled s) (trace_recorder s) (clock s) (log s).
Definition upd_overlay_epochs (g : dict string Z -> dict string Z) (s : model) : model :=
  mkModel (files_by_id s) (ordered_file_ids s) (file_ids_by_name s) (listeners s) (version s)
    (scope_versions s) (tree_file_count s) (overlay_generation s) (version_callback s)
    (overlays s) (overlay_ids s) (g (overlay_epochs s)) (replacement_depth s) (base_fallbacks s)
    (suppress_clear s) (correction_ids s) (correction_old s) (published_files s)
    (published_ids s) (retiring_ids s) (trace_enabled s) (trace_recorder s) (clock s) (log s).
Definition upd_replacement_depth (g : Z -> Z) (s : model) : model :=
  mkModel (files_by_id s) (ordered_file_ids s) (file_ids_by_name s) (listeners s) (version s)
    (scope_versions s) (tree_file_count s) (overlay_generation s) (version_callback s)
    (overlays s) (overlay_ids s) (overlay_epochs s) (g (replacement_depth s)) (base_fallbacks s)
    (suppress_clear s) (correction_ids s) (correction_old s) (published_files s)
    (published_ids s) (retiring_ids s) (trace_enabled s) (trace_recorder s) (clock s) (log s).
Definition upd_base_fallbacks (g : dict string Z -> dict string Z) (s : model) : model :=
  mkModel (files_by_id s) (ordered_file_ids s) (file_ids_by_name s) (listeners s) (version s)
    (scope_versions s) (tree_file_count s) (overlay_generation s) (version_callback s)
    (overlays s) (overlay_ids s) (overlay_epochs s) (replacement_depth s) (g (base_fallbacks s))
    (suppress_clear s) (correction_ids s) (correction_old s) (published_files s)
    (published_ids s) (retiring_ids s) (trace_enabled s) (trace_recorder s) (clock s) (log s).
Definition upd_suppress_clear (g : Z -> Z) (s : model) : model :=
  mkModel (files_by_id s) (ordered_file_ids s) (file_ids_by_name s) (listeners s) (version s)
    (scope_versions s) (tree_file_count s) (overlay_generation s) (version_callback s)
    (overlays s) (overlay_ids s) (overlay_epochs s) (replacement_depth s) (base_fallbacks s) (g
    (suppress_clear s)) (correction_ids s) (correction_old s) (published_files s)
    (published_ids s) (retiring_ids s) (trace_enabled s) (trace_recorder s) (clock s) (log s).
Definition upd_correction_ids (g : gset string -> gset string) (s : model) : model :=
  mkModel (files_by_id s) (ordered_file_ids s) (file_ids_by_name s) (listeners s) (version s)
    (scope_versions s) (tree_file_count s) (overlay_generation s) (version_callback s)
    (overlays s) (overlay_ids s) (overlay_epochs s) (replacement_depth s) (base_fallbacks s)
    (suppress_clear s) (g (correction_ids s)) (correction_old s) (published_files s)
    (published_ids s) (retiring_ids s) (trace_enabled s) (trace_recorder s) (clock s) (log s).
Definition upd_correction_old (g : dict string ModelFile -> dict string ModelFile) (s : model) : model :=
  mkModel (files_by_id s) (ordered_file_ids s) (file_ids_by_name s) (listeners s) (version s)
    (scope_versions s) (tree_file_count s) (overlay_generation s) (version_callback s)
    (overlays s) (overlay_ids s) (overlay_epochs s) (replacement_depth s) (base_fallbacks s)
    (suppress_clear s) (correction_ids s) (g (correction_old s)) (published_files s)
    (published_ids s) (retiring_ids s) (trace_enabled s) (trace_recorder s) (clock s) (log s).
Definition upd_published_files (g : dict string ModelFile -> dict string ModelFile) (s : model) : model :=
  mkModel (files_by_id s) (ordered_file_ids s) (file_ids_by_name s) (listeners s) (version s)
    (scope_versions s) (tree_file_count s) (overlay_generation s) (version_callback s)
    (overlays s) (overlay_ids s) (overlay_epochs s) (replacement_depth s) (base_fallbacks s)
    (suppress_clear s) (correction_ids s) (correction_old s) (g (published_files s))
    (published_ids s) (retiring_ids s) (trace_enabled s) (trace_recorder s) (clock s) (log s).
Definition upd_published_ids (g : dict string identity -> dict string identity) (s : model) : model :=
  mkModel (files_by_id s) (ordered_file_ids s) (file_ids_by_name s) (listeners s) (version s)
    (scope_versions s) (tree_file_count s) (overlay_generation s) (version_callback s)
    (overlays s) (overlay_ids s) (overlay_epochs s) (replacement_depth s) (base_fallbacks s)
    (suppress_clear s) (correction_ids s) (correction_old s) (published_files s) (g
    (published_ids s)) (retiring_ids s) (trace_enabled s) (trace_recorder s) (clock s) (log s).
Definition upd_retiring_ids (g : dict string identity -> dict string identity) (s : model) : model :=
  mkModel (files_by_id s) (ordered_file_ids s) (file_ids_by_name s) (listeners s) (version s)
    (scope_versions s) (tree_file_count s) (overlay_generation s) (version_callback s)
    (overlays s) (overlay_ids s) (overlay_epochs s) (replacement_depth s) (base_fallbacks s)
    (suppress_clear s) (correction_ids s) (correction_old s) (published_files s)
    (published_ids s) (g (retiring_ids s)) (trace_enabled s) (trace_recorder s) (clock s)
    (log s).
Definition upd_trace_enabled (g : option (string -> option pyval) -> option (string -> option pyval)) (s : model) : model :=
  mkModel (files_by_id s) (ordered_file_ids s) (file_ids_by_name s) (listeners s) (version s)
    (scope_versions s) (tree_file_count s) (overlay_generation s) (version_callback s)
    (overlays s) (overlay_ids s) (overlay_epochs s) (replacement_depth s) (base_fallbacks s)
    (suppress_clear s) (correction_ids s) (correction_old s) (published_files s)
    (published_ids s) (retiring_ids s) (g (trace_enabled s)) (trace_recorder s) (clock s)
    (log s).
Definition upd_trace_recorder (g : bool -> bool) (s : model) : model :=
  mkModel (files_by_id s) (ordered_file_ids s) (file_ids_by_name s) (listeners s) (version s)
    (scope_versions s) (tree_file_count s) (overlay_generation s) (version_callback s)
    (overlays s) (overlay_ids s) (overlay_epochs s) (replacement_depth s) (base_fallbacks s)
    (suppress_clear s) (correction_ids s) (correction_old s) (published_files s)
    (published_ids s) (retiring_ids s) (trace_enabled s) (g (trace_recorder s)) (clock s)
    (log s).
Definition upd_clock (g : Z -> Z) (s : model) : model :=
  mkModel (files_by_id s) (ordered_file_ids s) (file_ids_by_name s) (listeners s) (version s)
    (scope_versions s) (tree_file_count s) (overlay_generation s) (version_callback s)
    (overlays s) (overlay_ids s) (overlay_epochs s) (replacement_depth s) (base_fallbacks s)
    (suppress_clear s) (correction_ids s) (correction_old s) (published_files s)
    (published_ids s) (retiring_ids s) (trace_enabled s) (trace_recorder s) (g (clock s))
    (log s).
Definition upd_log (g : list event -> list event) (s : model) : model :=
  mkModel (files_by_id s) (ordered_file_ids s) (file_ids_by_name s) (listeners s) (version s)
    (scope_versions s) (tree_file_count s) (overlay_generation s) (version_callback s)
    (overlays s) (overlay_ids s) (overlay_epochs s) (replacement_depth s) (base_fallbacks s)
    (suppress_clear s) (correction_ids s) (correction_old s) (published_files s)
    (published_ids s) (retiring_ids s) (trace_enabled s) (trace_recorder s) (clock s) (g
    (log s)).

(** [Model()] *)
Definition empty_model (now : Z) : model :=
  mkModel [] [] [] [] 0 [] 0 0 false [] [] [] 0 [] 0 ∅ [] [] [] [] None false now [].

(** Callbacks are appended to the log. *)
Definition emit (e : event) : st model unit := modify (upd_log (fun l => l ++ [e])).

(** [bisect.insort] on a sorted list *)
Fixpoint insort (l : list string) (x : string) : list string :=
  match l with
  | [] => [x]
  | y :: l' => if decide (String.le y x) then y :: insort l' x else x :: l
  end.

(** [list.remove] *)
Fixpoint list_remove1 (x : string) (l : list string) : option (list string) :=
  match l with
  | [] => None
  | y :: l' => if decide (x = y) then Some l' else cons y <$> list_remove1 x l'
  end.
