(* ===== verification/Model.v ===== *)
(** * Operations of the model ([model/model.py])

    One definition per method, in the state monad of the prelude; a raised
    exception keeps what was written before it, as in the source.  The
    [operation] arguments of the two [apply_...] methods are programs of the
    same monad. *)

From S2P Require Import Prelude PyStr PyDict ModelFile JobStatus ModelState.

(** ** Diagnostics *)

Definition set_completion_provenance_diagnostics
    (enabled : option (string -> option pyval)) (recorder : bool) : st model unit :=
  modify (upd_trace_enabled (fun _ => enabled));;
  modify (upd_trace_recorder (fun _ => recorder)).

(** [enabled(level) is True]; an exception of the callable counts as false. *)
Definition completion_provenance_trace_is_enabled (level : string) : st model bool :=
  gets (fun s =>
    match trace_enabled s with
    | None => false
    | Some enabled => match enabled level with Some v => is_true v | None => false end
    end).

Definition record_completion_provenance_transition (fid reason : string)
    (previous current : option identity) (level : string) (snap : option snapshot)
    (gate_checked : bool) : st model unit :=
  enabled ← (if gate_checked then mret true else completion_provenance_trace_is_enabled level);
  if negb enabled then mret tt else
  recorder ← gets trace_recorder;
  when recorder (emit (EvProvenance fid reason previous current level snap)).

(** ** Publication *)

(** The field-by-field copy of a root made for readers. *)
Definition copy_for_publication (now : Z) (f : ModelFile) : result ModelFile :=
  let p := new_file now (name f) (is_dir f) in
  let p := put_state p (state f) in
  p ← set_remote_size p (py_opt_int (remote_size f));
  p ← set_local_size p (py_opt_int (local_size f));
  p ← set_remote_present p (PyBool (remote_present f));
  p ← set_local_present p (PyBool (local_present f));
  p ← set_remote_has_transferable_content p (PyBool (remote_has_transferable_content f));
  p ← set_transferred_size p (transferred_size f);
  p ← set_display_size_total p (display_size_total f);
  p ← set_display_transferred_size p (display_transferred_size f);
  p ← set_download_progress p (download_progress f);
  p ← set_downloading_speed p (downloading_speed f);
  p ← set_eta p (eta f);
  p ← set_is_extractable p (is_extractable f);
  p ← set_is_stoppable p (is_stoppable f);
  p ← set_explicitly_stopped p (explicitly_stopped f);
  p ← set_complete_local_coverage p (complete_local_coverage f);
  p ← set_resume_checkpoint_present p (resume_checkpoint_present f);
  p ← (match local_created_timestamp f with
       | Some t => set_local_created_timestamp p (PyDatetime t) | None => Ok p end);
  p ← (match local_modified_timestamp f with
       | Some t => set_local_modified_timestamp p (PyDatetime t) | None => Ok p end);
  p ← (match remote_created_timestamp f with
       | Some t => set_remote_created_timestamp p (PyDatetime t) | None => Ok p end);
  p ← (match remote_modified_timestamp f with
       | Some t => set_remote_modified_timestamp p (PyDatetime t) | None => Ok p end);
  p ← set_downloaded_timestamp p (downloaded_timestamp f);
  p ← set_validation_progress p (validation_progress f);
  p ← set_validation_error p (validation_error f);
  p ← set_corrupt_chunks p (corrupt_chunks f);
  p ← set_final_move_succeeded p (PyBool (final_move_succeeded f));
  p ← set_path_pair_id p (py_opt_str (path_pair_id f));
  set_path_pair_name p (py_opt_str (path_pair_name f)).

(** The four live values of an overlay, written over a record. *)
Definition apply_overlay (p : ModelFile) (o : option overlay) : result ModelFile :=
  match o with
  | None => Ok p
  | Some o =>
      p ← set_download_progress p (py_opt_int (o_download_progress o));
      p ← set_transferred_size p (py_opt_int (o_transferred_size o));
      p ← set_downloading_speed p (py_opt_int (o_downloading_speed o));
      set_eta p (py_opt_int (o_eta o))
  end.

(** A structural job identity binds only a live directory root. *)
Definition structural_identity_ok (file : fileref) (i : identity) : bool :=
  let f := ref_file file in
  (0 <=? i.1) && String.eqb i.2 "mirror" &&
  (match ref_parents file with [] => true | _ => false end) && is_dir f &&
  bool_decide (state f = DOWNLOADING) && truthy (is_stoppable f) && negb (truthy (explicitly_stopped f)).

Definition state_name (s : State) : string :=
  match s with
  | DEFAULT => "default" | DOWNLOADING => "downloading" | QUEUED => "queued"
  | DOWNLOADED => "downloaded" | DELETED => "deleted" | EXTRACTING => "extracting"
  | EXTRACTED => "extracted" | VALIDATING => "validating" | VALIDATED => "validated"
  | CORRUPT => "corrupt" | MOVE_FAILED => "move_failed"
  end.

Definition finite_integer (v : pyval) : option Z :=
  match v with PyInt z => if (0 <=? z) && (z <=? 2 ^ 63 - 1) then Some z else None | _ => None end.
Definition finite_progress (v : pyval) : option Z :=
  match v with PyInt z => if (0 <=? z) && (z <=? 100) then Some z else None | _ => None end.
Definition finite_boolean (v : pyval) : option bool :=
  match v with PyBool b => Some b | _ => None end.

Definition rollback_snapshot (caller basis : string) (f before after : ModelFile)
    (overlay_present : bool) (ctx : option (dict string pyval)) : snapshot :=
  {| sn_caller := caller; sn_basis := basis;
     sn_raw_state := state_name (state f);
     sn_before_state := state_name (state before);
     sn_after_state := state_name (state after);
     sn_before_progress := finite_progress (download_progress before);
     sn_after_progress := finite_progress (download_progress after);
     sn_before_display_transferred := finite_integer (display_transferred_size before);
     sn_after_display_transferred := finite_integer (display_transferred_size after);
     sn_before_display_total := finite_integer (display_size_total before);
     sn_after_display_total := finite_integer (display_size_total after);
     sn_before_local_size := finite_integer (py_opt_int (local_size before));
     sn_after_local_size := finite_integer (py_opt_int (local_size after));
     sn_before_coverage := finite_boolean (complete_local_coverage before);
     sn_after_coverage := finite_boolean (complete_local_coverage after);
     sn_explicit_stop := finite_boolean (explicitly_stopped after);
     sn_overlay_present := overlay_present;
     sn_context := ctx |}.

(** Which identity a publication is bound to: the live overlay's, else an
    admissible structural one, else the one of an overlay being retired. *)
Definition publication_identity (s : model) (file : fileref) (structural : option identity)
    : option identity * string :=
  let fid := file_id file in
  match dget (overlay_ids s) fid with
  | Some i => (Some i, "active")
  | None =>
      match structural with
      | Some i => if structural_identity_ok file i then (Some i, "structural")
                  else (dget (retiring_ids s) fid, "retiring")
      | None => (dget (retiring_ids s) fid, "retiring")
      end
  end.

(** A publication without identity of its own keeps the previous one only
    when the record it replaces is equal. *)
Definition keep_published_identity (fid : string) (previous_published : option ModelFile)
    (published : ModelFile) (previous_identity : option identity) (debug_preserve : bool)
    : st model unit :=
  match previous_identity with
  | Some pi =>
      if match previous_published with Some pp => mf_eqb pp published | None => false end then
        modify (upd_published_ids (fun d => dset d fid pi));;
        when debug_preserve
          (record_completion_provenance_transition fid "equal_publication_preserved"
             (Some pi) (Some pi) "debug" None false)
      else
        modify (upd_published_ids (fun d => dpop d fid));;
        record_completion_provenance_transition fid "changed_unbound_publication"
          (Some pi) None "info" None false
  | None => modify (upd_published_ids (fun d => dpop d fid))
  end.

(** Binding of the identity to the new publication. *)
Definition bind_published_identity (fid : string) (previous_published : option ModelFile)
    (published : ModelFile) (previous_identity current : option identity) (source : string)
    (debug_preserve : bool) : st model unit :=
  match (match current with Some i => if valid_identity i then Some i else None | None => None end) with
  | Some i =>
      modify (upd_published_ids (fun d => dset d fid i));;
      if String.eqb source "retiring" then
        record_completion_provenance_transition fid "retiring_identity_published"
          previous_identity (Some i) "info" None false
      else if bool_decide (previous_identity = Some i) then mret tt
      else
        record_completion_provenance_transition fid "identity_bound"
          previous_identity (Some i) "info" None false
  | None =>
      keep_published_identity fid previous_published published previous_identity debug_preserve
  end.

(** The diagnostic of a DOWNLOADING publication falling back to DEFAULT. *)
Definition record_rollback (file : fileref) (caller source : string)
    (ctx : option (dict string pyval)) (previous_published : option ModelFile)
    (published : ModelFile) (previous_identity current : option identity)
    (overlay_present : bool) : st model unit :=
  match previous_published, ref_parents file with
  | Some pp, [] =>
      if bool_decide (state pp = DOWNLOADING) && bool_decide (state published = DEFAULT) then
        enabled ← completion_provenance_trace_is_enabled "info";
        recorder ← gets trace_recorder;
        if enabled && recorder then
          let valid := match current with Some i => valid_identity i | None => false end in
          record_completion_provenance_transition (file_id file) "published_state_rollback"
            previous_identity (if valid then current else None) "info"
            (Some (rollback_snapshot caller (if valid then source else "base") (ref_file file)
                     pp published overlay_present ctx)) true
        else mret tt
      else mret tt
  | _, _ => mret tt
  end.

Definition refresh_published_file (file : fileref) (structural : option identity)
    (caller : string) (ctx : option (dict string pyval)) : st model ModelFile :=
  let fid := file_id file in
  previous_published ← gets (fun s => dget (published_files s) fid);
  previous_identity ← gets (fun s => dget (published_ids s) fid);
  chosen ← gets (fun s => publication_identity s file structural);
  debug_preserve ←
    (match previous_identity, chosen.1 with
     | Some _, None => completion_provenance_trace_is_enabled "debug"
     | _, _ => mret false
     end);
  now ← gets clock;
  published ← lift (copy_for_publication now (ref_file file));
  o ← gets (fun s => dget (overlays s) fid);
  published ← lift (apply_overlay published o);
  bind_published_identity fid previous_published published previous_identity chosen.1 chosen.2
    debug_preserve;;
  modify (upd_published_files (fun d => dset d fid published));;
  record_rollback file caller chosen.2 ctx previous_published published previous_identity chosen.1
    (match o with Some _ => true | None => false end);;
  mret published.

Definition published_file (fid : string) : st model (option ModelFile) :=
  gets (fun s => dget (published_files s) fid).

Definition published_file_with_job_identity (fid : string)
    : st model (option ModelFile * option identity) :=
  gets (fun s => (dget (published_files s) fid, dget (published_ids s) fid)).

Definition published_file_job_identity (fid : string) : st model (option identity) :=
  gets (fun s => dget (published_ids s) fid).

Definition clear_published_file_job_identity_if_matches (fid : string) (expected : identity)
    : st model bool :=
  current ← gets (fun s => dget (published_ids s) fid);
  if bool_decide (current <> Some expected) then mret false else
  modify (upd_published_ids (fun d => dpop d fid));;
  record_completion_provenance_transition fid "identity_consumed" (Some expected) None "info" None false;;
  mret true.

Definition clear_published_file_job_identity_if_replaced (fid : string) (replacement : identity)
    : st model bool :=
  current ← gets (fun s => dget (published_ids s) fid);
  match current with
  | None => mret false
  | Some c =>
      if negb (valid_identity c) || negb (valid_identity replacement) then mret false
      else if bool_decide (c = replacement) || (replacement.1 <? c.1) then mret false
      else
        modify (upd_published_ids (fun d => dpop d fid));;
        record_completion_provenance_transition fid "identity_replaced" (Some c) None "info" None false;;
        mret true
  end.

(** The deep-copied record handed to the legacy callbacks. *)
Definition full_effective_file (file : fileref) : st model ModelFile :=
  o ← gets (fun s => dget (overlays s) (file_id file));
  lift (apply_overlay (ref_file file) o).

(** ** Versions, counts and iteration *)

Definition file_count : st model nat := gets (fun s => length (files_by_id s)).

Definition set_downloaded_timestamp_overlay_generation (v : Z) : st model unit :=
  modify (upd_overlay_generation (fun _ => if 0 <=? v then v else 0)).

Definition set_tree_file_count (v : Z) : st model unit :=
  modify (upd_tree_file_count (fun _ => if 0 <=? v then v else 0)).

Definition listener_count : st model nat := gets (fun s => length (listeners s)).

Definition scope_version_of (s : model) (scope : option string) : Z :=
  default 0 (dget (scope_versions s) scope).

Definition iter_files (s : model) : list fileref := dvals (files_by_id s).

Definition iter_files_by_id (s : model) : result (list fileref) :=
  mapM (fun fid => match dget (files_by_id s) fid with Some r => Ok r | None => Raise KeyError end)
    (ordered_file_ids s).

Definition advance_version (file : fileref) : st model (Z * Z) :=
  modify (upd_version (fun v => v + 1));;
  let scope := path_pair_id (ref_file file) in
  sv ← gets (fun s => scope_version_of s scope);
  modify (upd_scope_versions (fun d => dset d scope (sv + 1)));;
  gv ← gets version;
  cb ← gets version_callback;
  when cb (emit (EvVersionCallback gv (sv + 1)));;
  mret (gv, sv + 1).

Definition set_version_publication_callback (installed : bool) : st model unit :=
  modify (upd_version_callback (fun _ => installed)).

Definition notify_versioned_change (file : fileref) (gv sv : Z) : st model unit :=
  ls ← gets listeners;
  mfor ls (fun l =>
    when (l_version_changed l)
      (emit (EvVersionChanged (l_id l) sv (path_pair_id (ref_file file)) (file_id file)));;
    when (l_version_published l)
      (emit (EvVersionPublished (l_id l) sv gv (path_pair_id (ref_file file)) (file_id file)))).

Definition notify_legacy_publication_change (old : option ModelFile) (new : ModelFile) : st model unit :=
  match old with
  | None => mret tt
  | Some old => ls ← gets listeners; mfor ls (fun l => emit (EvUpdated (l_id l) old new))
  end.

Definition notify_legacy_overlay_correction_if_needed (fid : string) (file : option fileref)
    : st model unit :=
  pending ← gets (fun s => bool_decide (fid ∈ correction_ids s));
  live ← gets (fun s => dhas (overlays s) fid);
  if negb pending || live then mret tt else
  modify (upd_correction_ids (fun X => X ∖ {[fid]}));;
  old ← gets (fun s => dget (correction_old s) fid);
  modify (upd_correction_old (fun d => dpop d fid));;
  match file with
  | None => mret tt
  | Some r => new ← full_effective_file r; notify_legacy_publication_change old new
  end.

Definition notify_summary_changed : st model unit :=
  ls ← gets listeners;
  mfor ls (fun l => when (l_summary_changed l) (emit (EvSummaryChanged (l_id l)))).

Definition active_progress_overlay (fid : string) : st model (option overlay) :=
  gets (fun s => dget (overlays s) fid).

(** ** Live progress overlays *)

(** Forget the live projection of one root. *)
Definition drop_overlay (fid : string) : st model unit :=
  modify (upd_overlays (fun d => dpop d fid));;
  modify (upd_overlay_ids (fun d => dpop d fid));;
  modify (upd_overlay_epochs (fun d => dpop d fid)).

(** The loop body shared by the overlay operations: publish the root again,
    advance its versions, settle a pending legacy correction, notify. *)
Definition republish (caller : string) (ctx : option (dict string pyval)) (fid : string)
    : st model unit :=
  file ← gets (fun s => dget (files_by_id s) fid);
  match file with
  | None => notify_legacy_overlay_correction_if_needed fid None
  | Some r =>
      refresh_published_file r None caller ctx;;
      vs ← advance_version r;
      notify_legacy_overlay_correction_if_needed fid (Some r);;
      notify_versioned_change r vs.1 vs.2
  end.

Definition clear_active_progress_overlays (ctx : option (dict string pyval))
    (publication_file_id : option string) : st model unit :=
  suppressed ← gets suppress_clear;
  if negb (suppressed =? 0) then mret tt else
  removed ← gets (fun s => dkeyset (overlays s));
  modify (upd_overlays (fun _ => []));;
  modify (upd_overlay_ids (fun _ => []));;
  modify (upd_overlay_epochs (fun _ => []));;
  mfor (sorted_ids removed) (fun fid =>
    republish "clear_active_progress_overlays"
      (if bool_decide (publication_file_id = Some fid) then ctx else None) fid).

Definition clear_active_progress_overlays_except (preserved : gset string)
    : st model (gset string) :=
  removed ← gets (fun s => dkeyset (overlays s) ∖ preserved);
  mfor (elements removed) drop_overlay;;
  mfor (sorted_ids removed) (republish "clear_active_progress_overlays_except" None);;
  mret removed.

(** A root that may carry a live projection. *)
Definition root_authority_ok (f : ModelFile) : bool :=
  bool_decide (state f = DOWNLOADING) && truthy (is_stoppable f) &&
  negb (truthy (explicitly_stopped f)) &&
  py_eq (display_size_total f) PyNone && py_eq (display_transferred_size f) PyNone.

(** The roots whose overlay or job identity an installation changes. *)
Definition changed_overlays (s : model) (normalized : dict string overlay)
    (ids : dict string identity) : gset string :=
  filter (fun fid => dget (overlays s) fid <> dget normalized fid \/
                     dget (overlay_ids s) fid <> dget ids fid)
    (dkeyset (overlays s) ∪ dkeyset normalized).

Definition restore_active_progress_overlays (new : dict string overlay)
    (job_identities : dict string identity) : st model (gset string) :=
  admitted ← gets (fun s =>
    filter_map (fun '(fid, o) =>
      match dget job_identities fid, dget (files_by_id s) fid with
      | Some i, Some r =>
          if valid_identity i && root_authority_ok (ref_file r) then Some (fid, (o, i)) else None
      | _, _ => None
      end) new);
  let normalized := dfrom (map (fun x => (x.1, x.2.1)) admitted) in
  let normalized_ids := dfrom (map (fun x => (x.1, x.2.2)) admitted) in
  changed ← gets (fun s => changed_overlays s normalized normalized_ids);
  modify (upd_overlays (fun _ => normalized));;
  modify (upd_overlay_ids (fun _ => normalized_ids));;
  modify (upd_overlay_epochs (fun d =>
    filter_map (fun fid => (fun e => (fid, e)) <$> dget d fid) (dkeys normalized)));;
  mfor (sorted_ids changed) (republish "restore_active_progress_overlays" None);;
  mret changed.

Definition clear_active_progress_overlay_if_job_identity_matches (fid : string) (i : identity)
    : st model bool :=
  current ← gets (fun s => dget (overlay_ids s) fid);
  if bool_decide (current <> Some i) then mret false else
  present ← gets (fun s => dhas (overlays s) fid);
  if negb present then mret false else
  drop_overlay fid;;
  republish "clear_active_progress_overlay_if_job_identity_matches" None fid;;
  mret true.

Definition replace_active_progress_overlays (new : dict string overlay) (changed_root_ids : gset string)
    : st model (gset string) :=
  let normalized := dfrom new in
  changed ← gets (fun s =>
    filter (fun fid => dhas (files_by_id s) fid = true /\ dget (overlays s) fid <> dget normalized fid)
      changed_root_ids);
  modify (upd_overlays (fun _ => normalized));;
  modify (upd_overlay_ids (fun _ => []));;
  modify (upd_overlay_epochs (fun _ => []));;
  mfor (sorted_ids changed) (republish "replace_active_progress_overlays" None);;
  mret changed.

(** Whether a replacement root may keep the live projection. *)
Definition candidate_can_retain_active_projection (f : ModelFile) : bool :=
  if negb (bool_decide (state f = DOWNLOADING)) || negb (is_true (is_stoppable f)) ||
     truthy (explicitly_stopped f) || negb (py_eq (display_size_total f) PyNone) ||
     negb (py_eq (display_transferred_size f) PyNone) || truthy (complete_local_coverage f)
  then false else
  let progress := download_progress f in
  let transferred := transferred_size f in
  if match local_size f with Some z => z <=? 0 | None => false end then false else
  if negb (py_eq progress PyNone) &&
     negb (match progress with PyInt z => (0 <=? z) && (z <? 100) | _ => false end) then false else
  if negb (py_eq transferred PyNone) &&
     (match transferred with
      | PyInt z => (z <? 0) || match remote_size f with Some rs => rs <? z | None => false end
      | _ => true
      end) then false else
  let progress_valid := match progress with PyInt z => (0 <=? z) && (z <? 100) | _ => false end in
  let transferred_valid :=
    match transferred with
    | PyInt z => (0 <=? z) && match remote_size f with Some rs => z <=? rs | None => true end
    | _ => false
    end in
  if negb progress_valid && negb transferred_valid then false else
  (progress_valid && match progress with PyInt z => 0 <? z | _ => false end) ||
  (transferred_valid && match transferred with PyInt z => 0 <? z | _ => false end).

Definition retire_active_projection_for_candidate (file : fileref) : st model unit :=
  depth ← gets replacement_depth;
  live ← gets (fun s => dhas (overlays s) (file_id file));
  if (depth =? 0) || negb live then mret tt else
  when (negb (candidate_can_retain_active_projection (ref_file file))) (drop_overlay (file_id file)).

(** ** Publishing fresh counters *)

(** What a lifecycle-epoch callable answers: it raises, or returns a value. *)
Definition epoch_fn : Type := string -> option pyval.

Definition epoch_int (o : option pyval) : option Z := o ≫= as_int.

(** A delayed positive counter of the same job never repaints backwards. *)
Definition monotone_counter (incoming prior : option Z) : option Z :=
  match incoming, prior with
  | Some z, Some p => if 0 <? z then Some (Z.max z p) else Some z
  | _, _ => incoming
  end.

Definition merge_overlay (incoming prior : overlay) : overlay :=
  mkOverlay (monotone_counter (o_download_progress incoming) (o_download_progress prior))
    (monotone_counter (o_transferred_size incoming) (o_transferred_size prior))
    (o_downloading_speed incoming) (o_eta incoming).

(** Accumulators of the admission loop. *)
Record admission := mkAdmission {
  ad_overlays : dict string overlay; ad_ids : dict string identity;
  ad_mismatches : dict string identity; ad_rejected : bool }.

(** One row of the admission loop: reject the batch, skip, or admit. *)
Inductive verdict :=
  | Reject (reason : string)
  | Next (acc : admission).

Definition admit_row (s : model) (job_identities : dict string identity)
    (epoch_matches : option (string -> bool)) (epoch_for : option epoch_fn)
    (acc : admission) (fid : string) (o : overlay) : verdict :=
  match dget job_identities fid, dget (files_by_id s) fid with
  | Some i, Some r =>
      if negb (valid_identity i) then Reject "job_identity" else
      if negb (match epoch_matches with Some m => m fid | None => false end)
      then Reject "lifecycle_epoch" else
      let epoch := epoch_for ≫= (fun e => epoch_int (e fid)) in
      if match epoch_for, epoch with Some _, None => true | _, _ => false end
      then Reject "lifecycle_epoch" else
      if match dget (overlay_epochs s) fid, epoch with
         | Some pe, Some e => negb (pe =? e) | _, _ => false end
      then Reject "lifecycle_epoch" else
      let previous := dget (overlay_ids s) fid in
      if match previous with Some p => negb (bool_decide (p = i)) | None => false end then
        Next (mkAdmission (ad_overlays acc) (ad_ids acc)
                (match previous with
                 | Some p => if p.1 <? i.1 then dset (ad_mismatches acc) fid p else ad_mismatches acc
                 | None => ad_mismatches acc
                 end) true)
      else if negb (root_authority_ok (ref_file r)) then Reject "root_authority"
      else
        let o' :=
          match previous, dget (overlays s) fid with
          | Some _, Some prior => merge_overlay o prior
          | _, _ => o
          end in
        Next (mkAdmission (dset (ad_overlays acc) fid o') (dset (ad_ids acc) fid i)
                (ad_mismatches acc) (ad_rejected acc))
  | _, _ => Reject "job_identity"
  end.

Fixpoint admit_rows (s : model) (job_identities : dict string identity)
    (epoch_matches : option (string -> bool)) (epoch_for : option epoch_fn)
    (acc : admission) (rows : list (string * overlay)) : verdict :=
  match rows with
  | [] => Next acc
  | (fid, o) :: rows' =>
      match admit_row s job_identities epoch_matches epoch_for acc fid o with
      | Reject reason => Reject reason
      | Next acc' => admit_rows s job_identities epoch_matches epoch_for acc' rows'
      end
  end.

Definition no_admission : admission := mkAdmission [] [] [] false.

(** The epochs recorded with a published batch. *)
Definition batch_epochs (epoch_for : option epoch_fn) (fids : list string) : dict string Z :=
  match epoch_for with
  | None => []
  | Some e => filter_map (fun fid => (fun z => (fid, z)) <$> epoch_int (e fid)) fids
  end.

Definition publish_active_lftp_root_counters (new : dict string overlay)
    (job_identities : dict string identity) (epoch_matches : option (string -> bool))
    (epoch_for : option epoch_fn) : st model (gset string * string) :=
  v ← gets (fun s => admit_rows s job_identities epoch_matches epoch_for no_admission new);
  match v with
  | Reject reason => clear_active_progress_overlays None None;; mret (∅, reason)
  | Next acc =>
      if ad_rejected acc then
        mfor (sorted_ids (dkeyset (ad_mismatches acc))) (fun fid =>
          match dget (ad_mismatches acc) fid with
          | Some p => clear_active_progress_overlay_if_job_identity_matches fid p;; mret tt
          | None => mret tt
          end);;
        mret (∅, "job_identity")
      else
        changed ← gets (fun s => changed_overlays s (ad_overlays acc) (ad_ids acc));
        modify (upd_overlays (fun _ => ad_overlays acc));;
        modify (upd_overlay_ids (fun _ => ad_ids acc));;
        modify (upd_overlay_epochs (fun _ => batch_epochs epoch_for (dkeys (ad_overlays acc))));;
        mfor (sorted_ids changed) (republish "publish_active_lftp_root_counters" None);;
        mret (changed, "accepted")
  end.

(** ** Replacement transactions *)

(** The records of the roots that carry an overlay, before a replacement. *)
Definition retained_snapshot (s : model) : result (list (string * ModelFile)) :=
  mapM (fun kr => f ← apply_overlay (ref_file kr.2) (dget (overlays s) (file_id kr.2)); Ok (kr.1, f))
    (filter (fun kr => dhas (overlays s) kr.1 = true) (files_by_id s)).

(** Start of retirement of one selected root. *)
Definition begin_retirement (fid : string) : st model unit :=
  i ← gets (fun s => dget (overlay_ids s) fid);
  (match i with
   | Some i => modify (upd_retiring_ids (fun d => dset d fid i))
   | None => mret tt
   end);;
  drop_overlay fid;;
  modify (upd_correction_ids (fun X => X ∖ {[fid]}));;
  modify (upd_correction_old (fun d => dpop d fid)).

(** Publication of a retired root after the operation, if it changed. *)
Definition publish_retired (fid : string) : st model unit :=
  file ← gets (fun s => dget (files_by_id s) fid);
  match file with
  | None => mret tt
  | Some r =>
      previous ← gets (fun s => dget (published_files s) fid);
      new ← refresh_published_file r None "apply_with_active_progress_retained" None;
      if match previous with Some pp => mf_eqb pp new | None => false end then mret tt else
      vs ← advance_version r;
      notify_versioned_change r vs.1 vs.2
  end.

Definition remember_correction (fid : string) (old : ModelFile) : st model unit :=
  keep ← gets (fun s => dhas (overlays s) fid && dhas (files_by_id s) fid);
  when keep
    (modify (upd_correction_ids (fun X => {[fid]} ∪ X));;
     modify (upd_correction_old (fun d => dset d fid old))).

Definition apply_with_active_progress_retained {A} (operation : st model A)
    (retired : gset string) : st model A :=
  before ← gets retained_snapshot;
  before ← lift before;
  mfor (elements retired) begin_retirement;;
  modify (upd_suppress_clear (fun n => n + 1));;
  mfinally operation
    (modify (upd_suppress_clear (fun n => n - 1));;
     mfor (sorted_ids retired) publish_retired;;
     mfor before (fun kf => remember_correction kf.1 kf.2);;
     mfor (elements retired) (fun fid => modify (upd_retiring_ids (fun d => dpop d fid)))).

(** Whether a live projection ends with this replacement: its job is not the
    running job of the status poll, was reset, or belongs to another epoch. *)
Definition must_retire (s : model) (statuses : dict string LftpJobStatus) (epoch_for : epoch_fn)
    (fid : string) (i : identity) : bool :=
  let status := dget statuses fid in
  let status_identity := (fun j => (job_id j, job_type_value (job_type j))) <$> status in
  let nonpositive o := match o with Some z => z <=? 0 | None => false end in
  let reset :=
    match status with
    | Some j => nonpositive (size_local (total_transfer_state j)) ||
                nonpositive (percent_local (total_transfer_state j))
    | None => false
    end in
  let running := match status with Some j => bool_decide (job_state j = JRUNNING) | None => false end in
  negb (bool_decide (status_identity = Some i)) || negb running || reset ||
  match dget (overlay_epochs s) fid with
  | Some stored => negb (bool_decide (epoch_int (epoch_for fid) = Some stored))
  | None => false
  end.

Definition retire_set (s : model) (statuses : dict string LftpJobStatus) (epoch_for : epoch_fn)
    : gset string :=
  list_to_set (map fst (filter (fun ki => must_retire s statuses epoch_for ki.1 ki.2 = true) (overlay_ids s))).

(** The physical byte counts a vanished job's replacement may fall back to. *)
Definition physical_fallbacks (statuses : dict string LftpJobStatus) (roots : dict string fileref)
    (retire : gset string) : dict string Z :=
  filter_map (fun fid =>
    match dget statuses fid, dget roots fid with
    | None, Some r =>
        match transferred_size (ref_file r) with
        | PyInt z => if 0 <=? z then Some (fid, z) else None
        | _ => None
        end
    | _, _ => None
    end) (elements retire).

(** Counters stay monotone; speed and eta are taken from the replacement. *)
Definition refreshed_overlay (o : overlay) (f : ModelFile) (t : TransferState) : overlay :=
  let raise_to old new :=
    match new, old with
    | Some n, Some p => if (0 <? n) && (p <? n) then Some n else Some p
    | Some n, None => if 0 <? n then Some n else None
    | None, _ => old
    end in
  mkOverlay (raise_to (o_download_progress o) (as_int (download_progress f)))
    (raise_to (o_transferred_size o) (as_int (transferred_size f)))
    (match as_int (downloading_speed f) with Some v => Some v | None => speed t end)
    (match as_int (eta f) with Some v => Some v | None => t_eta t end).

Definition settle_overlay (statuses : dict string LftpJobStatus) (retire replaced : gset string)
    (fid : string) (o : overlay) : st model unit :=
  file ← gets (fun s => dget (files_by_id s) fid);
  if bool_decide (fid ∈ retire) then mret tt else
  match dget statuses fid, file with
  | Some j, Some r =>
      if bool_decide (fid ∈ replaced) && negb (candidate_can_retain_active_projection (ref_file r)) then
        i ← gets (fun s => dget (overlay_ids s) fid);
        match i with
        | Some i => clear_active_progress_overlay_if_job_identity_matches fid i;; mret tt
        | None => mret tt
        end
      else
        let o' := refreshed_overlay o (ref_file r) (total_transfer_state j) in
        if bool_decide (o' = o) then mret tt else
        modify (upd_overlays (fun d => dset d fid o'));;
        refresh_published_file r None "apply_authoritative_root_replacement" None;;
        vs ← advance_version r;
        notify_legacy_overlay_correction_if_needed fid (Some r);;
        notify_versioned_change r vs.1 vs.2
  | _, _ => mret tt
  end.

Definition apply_authoritative_root_replacement {A} (operation : st model A)
    (statuses : dict string LftpJobStatus) (epoch_for : epoch_fn) : st model A :=
  retire ← gets (fun s => retire_set s statuses epoch_for);
  roots ← gets files_by_id;
  saved ← gets base_fallbacks;
  modify (upd_base_fallbacks (fun _ => physical_fallbacks statuses roots retire));;
  r ← mfinally
        (modify (upd_replacement_depth (fun n => n + 1));;
         mfinally (apply_with_active_progress_retained operation retire)
           (modify (upd_replacement_depth (fun n => n - 1))))
        (modify (upd_base_fallbacks (fun _ => saved)));
  replaced ← gets (fun s =>
    list_to_set (map fst (filter (fun kr => (ref_oid <$> dget roots kr.1) <> Some (ref_oid kr.2))
      (files_by_id s))));
  items ← gets overlays;
  mfor items (fun ko => settle_overlay statuses retire replaced ko.1 ko.2);;
  mret r.

(** ** Listeners *)

Definition add_listener (l : listener) : st model unit :=
  present ← gets (fun s => existsb (fun m => Nat.eqb (l_id l) (l_id m)) (listeners s));
  when (negb present) (modify (upd_listeners (fun ls => ls ++ [l]))).

Fixpoint remove_listener_id (n : nat) (ls : list listener) : list listener :=
  match ls with
  | [] => []
  | l :: ls' => if Nat.eqb n (l_id l) then ls' else l :: remove_listener_id n ls'
  end.

Definition remove_listener (l : listener) : st model unit :=
  modify (upd_listeners (remove_listener_id (l_id l))).

(** ** Files *)

(** Entry of a root into the indices. *)
Definition index_file (r : fileref) : st model unit :=
  let fid := file_id r in
  modify (upd_files_by_id (fun d => dset d fid r));;
  modify (upd_ordered_file_ids (fun l => insort l fid));;
  modify (upd_file_ids_by_name (fun d =>
    dset d (name (ref_file r)) ({[fid]} ∪ default ∅ (dget d (name (ref_file r)))))).

Definition add_file (r : fileref) (structural : option identity) : st model unit :=
  clear_active_progress_overlays None None;;
  present ← gets (fun s => dhas (files_by_id s) (file_id r));
  if present : bool then raise (ModelError "File already exists in the model") else
  index_file r;;
  refresh_published_file r structural "add_file" None;;
  ls ← gets listeners;
  legacy ← (match ls with [] => mret None | _ => f ← full_effective_file r; mret (Some f) end);
  vs ← advance_version r;
  (match legacy with
   | Some f => mfor ls (fun l => emit (EvAdded (l_id l) f))
   | None => mret tt
   end);;
  notify_versioned_change r vs.1 vs.2.

Definition resolve_file_id (s : model) (identifier : string) : result string :=
  if dhas (files_by_id s) identifier then Ok identifier else
  match elements (default ∅ (dget (file_ids_by_name s) identifier)) with
  | [] => Raise (ModelError "File does not exist in the model")
  | [fid] => Ok fid
  | _ => Raise (ModelError "File lookup is ambiguous in the model")
  end.

(** Removal from the indices; each of the three deletions can fail only on
    an inconsistent index. *)
Definition unindex_file (r : fileref) (fid : string) : st model unit :=
  modify (upd_files_by_id (fun d => dpop d fid));;
  ordered ← gets (fun s => list_remove1 fid (ordered_file_ids s));
  (match ordered with
   | Some l => modify (upd_ordered_file_ids (fun _ => l))
   | None => raise ValueError
   end);;
  ids ← gets (fun s => dget (file_ids_by_name s) (name (ref_file r)));
  match ids with
  | None => raise KeyError
  | Some X =>
      if bool_decide (fid ∈ X) then
        let X' := X ∖ {[fid]} in
        modify (upd_file_ids_by_name (fun d =>
          if bool_decide (X' = ∅) then dpop d (name (ref_file r)) else dset d (name (ref_file r)) X'))
      else raise KeyError
  end.

Definition get_ref (fid : string) : st model fileref :=
  r ← gets (fun s => dget (files_by_id s) fid);
  match r with Some r => mret r | None => raise KeyError end.

Definition remove_file (identifier : string) : st model unit :=
  clear_active_progress_overlays None None;;
  fid ← gets (fun s => resolve_file_id s identifier);
  fid ← lift fid;
  r ← get_ref fid;
  shown ← gets (fun s => dhas (published_files s) fid);
  when (negb shown) (refresh_published_file r None "remove_file" None;; mret tt);;
  legacy ← full_effective_file r;
  unindex_file r fid;;
  modify (upd_published_files (fun d => dpop d fid));;
  removed_identity ← gets (fun s => dget (published_ids s) fid);
  modify (upd_published_ids (fun d => dpop d fid));;
  (match removed_identity with
   | Some i => record_completion_provenance_transition fid "published_root_removed" (Some i) None
                 "info" None false
   | None => mret tt
   end);;
  drop_overlay fid;;
  modify (upd_correction_ids (fun X => X ∖ {[fid]}));;
  modify (upd_correction_old (fun d => dpop d fid));;
  vs ← advance_version r;
  ls ← gets listeners;
  mfor ls (fun l => emit (EvRemoved (l_id l) legacy));;
  notify_versioned_change r vs.1 vs.2.

(** The candidate after the physical-base fallback, which mutates it. *)
Definition with_fallback (s : model) (r : fileref) : result fileref :=
  let f := ref_file r in
  match dget (base_fallbacks s) (file_id r), local_size f with
  | Some fb, Some ls =>
      if py_eq (transferred_size f) PyNone && (0 <=? fb) && (fb <=? ls) then
        f' ← set_transferred_size f (PyInt fb); Ok (mkRef (ref_oid r) (ref_parents r) f')
      else Ok r
  | _, _ => Ok r
  end.

(** The write is visible through the index when the candidate is the object
    already stored. *)
Definition write_object (r : fileref) : st model unit :=
  modify (upd_files_by_id (fun d =>
    match dget d (file_id r) with
    | Some old => if Nat.eqb (ref_oid old) (ref_oid r) then dset d (file_id r) r else d
    | None => d
    end)).

Definition update_file (r0 : fileref) (structural : option identity)
    (ctx : option (dict string pyval)) : st model unit :=
  r ← gets (fun s => with_fallback s r0);
  r ← lift r;
  write_object r;;
  retire_active_projection_for_candidate r;;
  clear_active_progress_overlays ctx (Some (file_id r));;
  let fid := file_id r in
  old ← gets (fun s => dget (files_by_id s) fid);
  match old with
  | None => raise (ModelError "File does not exist in the model")
  | Some old =>
      shown ← gets (fun s => dhas (published_files s) fid);
      when (negb shown) (refresh_published_file old None "update_file_previous" ctx;; mret tt);;
      legacy_old ← full_effective_file old;
      modify (upd_files_by_id (fun d => dset d fid r));;
      refresh_published_file r structural "update_file_candidate" ctx;;
      legacy_new ← full_effective_file r;
      vs ← advance_version r;
      ls ← gets listeners;
      mfor ls (fun l => emit (EvUpdated (l_id l) legacy_old legacy_new));;
      notify_versioned_change r vs.1 vs.2
  end.

Definition get_file (identifier : string) : st model fileref :=
  fid ← gets (fun s => resolve_file_id s identifier);
  fid ← lift fid;
  get_ref fid.

Definition get_file_names (s : model) : gset string := dkeyset (file_ids_by_name s).
Definition get_file_ids (s : model) : gset string := dkeyset (files_by_id s).

Definition insert_candidate_file (r : fileref) : st model unit :=
  present ← gets (fun s => dhas (files_by_id s) (file_id r));
  if present : bool then raise (ModelError "Duplicate root while composing model candidate") else
  index_file r.

(** The candidate is a fresh model; the live one is only read. *)
Definition compose_candidate (live : model) (removed : gset string) (replacements : list fileref)
    (tree_count : Z) (generation : option Z) : result model :=
  if match generation with Some g => negb (overlay_generation live =? g) | None => false end
  then Raise (ModelError "Cannot reuse roots rendered with a stale downloaded timestamp overlay")
  else
    match (set_downloaded_timestamp_overlay_generation (default (overlay_generation live) generation);;
           mfor (filter (fun r => file_id r ∉ removed) (iter_files live)) insert_candidate_file;;
           mfor replacements insert_candidate_file;;
           set_tree_file_count tree_count) (empty_model (clock live)) with
    | (Ok _, s) => Ok s
    | (Raise e, _) => Raise e
    end.
