(* ===== verification/ModelFrames.v ===== *)
(** * The model: frame conditions

    Which parts of the state the operations of [Model] never write. *)

From S2P Require Import Prelude PyStr PyDict ModelFile ModelFileFacts JobStatus ModelState Model.

(** ** Frames *)

(** Everything the notification and publication machinery never writes. *)
Definition core (s : model) :=
  (files_by_id s, ordered_file_ids s, file_ids_by_name s, listeners s,
   (overlays s, overlay_ids s, overlay_epochs s),
   (replacement_depth s, base_fallbacks s, suppress_clear s, retiring_ids s),
   (trace_enabled s, trace_recorder s, clock s, version_callback s)).

(** The roots and their indices. *)
Definition index (s : model) := (files_by_id s, ordered_file_ids s, file_ids_by_name s).

Ltac frame_modify := apply within_modify; intros ?; reflexivity.

Lemma core_index {A} (m : st model A) : within (unchanged core) m -> within (unchanged index) m.
Proof. intros H s. specialize (H s). unfold unchanged, core, index in *. congruence. Qed.

Lemma emit_core e : within (unchanged core) (emit e).
Proof. frame_modify. Qed.
#[export] Hint Resolve emit_core : within.

Lemma trace_enabled_core level : within (unchanged core) (completion_provenance_trace_is_enabled level).
Proof. apply within_gets, _. Qed.
#[export] Hint Resolve trace_enabled_core : within.

Lemma record_transition_core fid reason p c level snap g :
  within (unchanged core) (record_completion_provenance_transition fid reason p c level snap g).
Proof. unfold record_completion_provenance_transition. within_auto. Qed.
#[export] Hint Resolve record_transition_core : within.

Lemma bind_identity_core fid pp p pi c src d :
  within (unchanged core) (bind_published_identity fid pp p pi c src d).
Proof.
  unfold bind_published_identity, keep_published_identity. within_auto; frame_modify.
Qed.
#[export] Hint Resolve bind_identity_core : within.

Lemma record_rollback_core file caller src ctx pp p pi c o :
  within (unchanged core) (record_rollback file caller src ctx pp p pi c o).
Proof. unfold record_rollback. within_auto. Qed.
#[export] Hint Resolve record_rollback_core : within.

Lemma refresh_core r i c ctx : within (unchanged core) (refresh_published_file r i c ctx).
Proof. unfold refresh_published_file. within_auto. frame_modify. Qed.
#[export] Hint Resolve refresh_core : within.

Lemma full_effective_core r : within (unchanged core) (full_effective_file r).
Proof. unfold full_effective_file. within_auto. Qed.
#[export] Hint Resolve full_effective_core : within.

Lemma advance_core r : within (unchanged core) (advance_version r).
Proof. unfold advance_version. within_auto; frame_modify. Qed.
#[export] Hint Resolve advance_core : within.

Lemma notify_versioned_core r gv sv : within (unchanged core) (notify_versioned_change r gv sv).
Proof. unfold notify_versioned_change. within_auto. Qed.
#[export] Hint Resolve notify_versioned_core : within.

Lemma notify_legacy_core o n : within (unchanged core) (notify_legacy_publication_change o n).
Proof. unfold notify_legacy_publication_change. within_auto. Qed.
#[export] Hint Resolve notify_legacy_core : within.

Lemma notify_correction_core fid r :
  within (unchanged core) (notify_legacy_overlay_correction_if_needed fid r).
Proof. unfold notify_legacy_overlay_correction_if_needed. within_auto; frame_modify. Qed.
#[export] Hint Resolve notify_correction_core : within.

Lemma republish_core c ctx fid : within (unchanged core) (republish c ctx fid).
Proof. unfold republish. within_auto. Qed.
#[export] Hint Resolve republish_core : within.

Lemma notify_summary_core : within (unchanged core) notify_summary_changed.
Proof. unfold notify_summary_changed. within_auto. Qed.

(** The same frames on the indices, and the operations on overlays. *)
#[export] Hint Extern 5 (within (unchanged index) _) => apply core_index : within.

Lemma drop_overlay_index fid : within (unchanged index) (drop_overlay fid).
Proof. unfold drop_overlay. within_auto; frame_modify. Qed.
#[export] Hint Resolve drop_overlay_index : within.

Lemma clear_index ctx p : within (unchanged index) (clear_active_progress_overlays ctx p).
Proof. unfold clear_active_progress_overlays. within_auto; frame_modify. Qed.
#[export] Hint Resolve clear_index : within.

Lemma clear_except_index X : within (unchanged index) (clear_active_progress_overlays_except X).
Proof. unfold clear_active_progress_overlays_except. within_auto. Qed.
#[export] Hint Resolve clear_except_index : within.

Lemma restore_index o i : within (unchanged index) (restore_active_progress_overlays o i).
Proof. unfold restore_active_progress_overlays. within_auto; frame_modify. Qed.
#[export] Hint Resolve restore_index : within.

Lemma clear_matches_index fid i :
  within (unchanged index) (clear_active_progress_overlay_if_job_identity_matches fid i).
Proof. unfold clear_active_progress_overlay_if_job_identity_matches. within_auto. Qed.
#[export] Hint Resolve clear_matches_index : within.

Lemma replace_index o X : within (unchanged index) (replace_active_progress_overlays o X).
Proof. unfold replace_active_progress_overlays. within_auto; frame_modify. Qed.
#[export] Hint Resolve replace_index : within.

Lemma publish_index o i m e : within (unchanged index) (publish_active_lftp_root_counters o i m e).
Proof. unfold publish_active_lftp_root_counters. within_auto; frame_modify. Qed.
#[export] Hint Resolve publish_index : within.

Lemma retire_candidate_index r : within (unchanged index) (retire_active_projection_for_candidate r).
Proof. unfold retire_active_projection_for_candidate. within_auto. Qed.
#[export] Hint Resolve retire_candidate_index : within.

Lemma begin_retirement_index fid : within (unchanged index) (begin_retirement fid).
Proof. unfold begin_retirement. within_auto; frame_modify. Qed.
#[export] Hint Resolve begin_retirement_index : within.

Lemma publish_retired_core fid : within (unchanged core) (publish_retired fid).
Proof. unfold publish_retired. within_auto. Qed.
#[export] Hint Resolve publish_retired_core : within.

Lemma remember_correction_core fid f : within (unchanged core) (remember_correction fid f).
Proof. unfold remember_correction. within_auto; frame_modify. Qed.
#[export] Hint Resolve remember_correction_core : within.

Lemma settle_index st r p fid o : within (unchanged index) (settle_overlay st r p fid o).
Proof. unfold settle_overlay. within_auto; frame_modify. Qed.
#[export] Hint Resolve settle_index : within.

