(* ===== verification/ModelIndex.v ===== *)
(** * The model: consistency of the root indices

    The three indices of the roots (by identifier, ordered identifiers, by
    name) agree after every operation, so that lookup, ordered iteration and
    removal work on all roots.  *)

From S2P Require Import Prelude PyStr PyDict ModelFile ModelFileFacts JobStatus ModelState Model ModelFrames.

(** ** Consistency of the indices *)

Record index_ok (s : model) : Prop := {
  ix_files : dwf (files_by_id s);
  ix_keys : forall fid r, dget (files_by_id s) fid = Some r -> file_id r = fid;
  ix_sorted : StronglySorted String.le (ordered_file_ids s);
  ix_ordered : ordered_file_ids s ≡ₚ dkeys (files_by_id s);
  ix_names_wf : dwf (file_ids_by_name s);
  ix_nonempty : forall n X, dget (file_ids_by_name s) n = Some X -> X <> ∅;
  ix_names : forall n fid,
    fid ∈ default ∅ (dget (file_ids_by_name s) n) <->
    exists r, dget (files_by_id s) fid = Some r /\ name (ref_file r) = n }.

Lemma index_ok_unchanged s s' : unchanged index s s' -> index_ok s -> index_ok s'.
Proof.
  unfold unchanged, index. intros [= E1 E2 E3] [].
  constructor; rewrite ?E1, ?E2, ?E3; done.
Qed.

Lemma keeps_index {A} (m : st model A) : within (unchanged index) m -> within (keeps index_ok) m.
Proof. intros H s Hs. eapply index_ok_unchanged; [apply H|exact Hs]. Qed.

#[export] Hint Extern 6 (within (keeps index_ok) _) => apply keeps_index : within.

Lemma empty_index now : index_ok (empty_model now).
Proof.
  constructor; simpl.
  - apply dwf_nil.
  - done.
  - apply SSorted_nil.
  - done.
  - apply dwf_nil.
  - done.
  - intros m fid. split; [set_solver | by intros (r & ? & _)].
Qed.

Lemma insort_perm l x : insort l x ≡ₚ x :: l.
Proof.
  induction l as [|y l IH]; simpl; [done|]. case_decide; [|done].
  rewrite IH. apply Permutation_swap.
Qed.

Lemma insort_sorted l x : StronglySorted String.le l -> StronglySorted String.le (insort l x).
Proof.
  induction 1 as [|y l Hl IH Hy]; simpl; [by repeat constructor|]. case_decide as E.
  - constructor; [done|]. rewrite insort_perm. by constructor.
  - assert (Hxy : String.le x y) by (destruct (total String.le x y); done).
    constructor; [by constructor|]. constructor; [done|].
    eapply Forall_impl; [exact Hy|]. intros z Hz. by transitivity y.
Qed.

Lemma list_remove1_perm x l k : list_remove1 x l = Some k -> l ≡ₚ x :: k.
Proof.
  revert k. induction l as [|y l IH]; simpl; [done|]. intros k. case_decide.
  - intros [= ->]. by subst.
  - destruct (list_remove1 x l) as [k'|]; simpl; [|done]. intros [= <-].
    rewrite (IH k') by done. apply Permutation_swap.
Qed.

Lemma list_remove1_sorted x l k :
  list_remove1 x l = Some k -> StronglySorted String.le l -> StronglySorted String.le k.
Proof.
  revert k. induction l as [|y l IH]; simpl; [done|]. intros k Hk Hs.
  inversion Hs as [|? ? Hl Hy]; subst. case_decide; [by simplify_eq|].
  destruct (list_remove1 x l) as [k'|] eqn:E; simpl in Hk; [|done]. simplify_eq.
  constructor; [by apply IH|]. apply list_remove1_perm in E. rewrite E in Hy.
  by inversion Hy.
Qed.

Lemma list_remove1_is_Some x l : x ∈ l -> is_Some (list_remove1 x l).
Proof.
  induction l as [|y l IH]; simpl; [intros H; inversion H|].
  rewrite elem_of_cons. intros H. case_decide; [by eexists|].
  destruct IH as [k ->]; [naive_solver|]. by eexists.
Qed.

(** Membership in the name index after one of its entries changed. *)
Lemma default_dset (d : dict string (gset string)) n n' X fid :
  fid ∈ default ∅ (dget (dset d n X) n') <->
  (n = n' /\ fid ∈ X) \/ (n <> n' /\ fid ∈ default ∅ (dget d n')).
Proof. rewrite dget_dset. case_decide; simpl; naive_solver. Qed.

Lemma default_dpop (d : dict string (gset string)) n n' fid : dwf d ->
  fid ∈ default ∅ (dget (dpop d n) n') <-> n <> n' /\ fid ∈ default ∅ (dget d n').
Proof. intros H. rewrite dget_dpop by done. case_decide; simpl; set_solver. Qed.

Lemma index_file_ok s r :
  index_ok s -> dget (files_by_id s) (file_id r) = None -> index_ok (index_file r s).2.
Proof.
  intros [Hf Hk Hs Ho Hn He Hm] Hfresh. constructor; simpl.
  - by apply dwf_dset.
  - intros fid r'. rewrite dget_dset. case_decide; [naive_solver | apply Hk].
  - by apply insort_sorted.
  - apply dget_None in Hfresh. rewrite insort_perm, dkeys_dset_fresh by done.
    unfold dkeys at 1. rewrite map_app, Ho. simpl. apply Permutation_cons_append.
  - by apply dwf_dset.
  - intros n X. rewrite dget_dset. case_decide; [intros [= <-]; set_solver | apply He].
  - intros n fid. rewrite default_dset, dget_dset, elem_of_union, elem_of_singleton, !Hm.
    case_decide as E; cycle 1.
    { destruct (decide (name (ref_file r) = n)) as [<-|Hne]; [|naive_solver].
      split; [intros [[_ [->|?]]|[? _]]; done | auto]. }
    subst fid. rewrite Hfresh. split.
    + intros [[<- _]|[? (? & ? & _)]]; [by eauto | done].
    + intros (? & [= <-] & <-). left. by auto.
Qed.

Lemma files_keys_ordered s : index_ok s ->
  forall fid, fid ∈ ordered_file_ids s <-> is_Some (dget (files_by_id s) fid).
Proof. intros H fid. rewrite (ix_ordered s H). by rewrite dget_is_Some. Qed.

(** Removal of an indexed root succeeds and leaves consistent indices. *)
Lemma unindex_file_ok s r fid :
  index_ok s -> dget (files_by_id s) fid = Some r ->
  exists s', unindex_file r fid s = (Ok tt, s') /\ index_ok s' /\
    files_by_id s' = dpop (files_by_id s) fid.
Proof.
  intros Hix Hr. pose proof Hix as [Hf Hk Hs Ho Hn He Hm].
  destruct (list_remove1_is_Some fid (ordered_file_ids s)) as [l Hl].
  { apply files_keys_ordered; [done | by exists r]. }
  assert (Hin : fid ∈ default ∅ (dget (file_ids_by_name s) (name (ref_file r)))) by (apply Hm; eauto).
  destruct (dget (file_ids_by_name s) (name (ref_file r))) as [X|] eqn:EX; [|set_solver]. simpl in Hin.
  unfold unindex_file, mbind, st_bind, modify, gets. cbn -[elements]. rewrite Hl. cbn -[elements]. rewrite EX.
  rewrite bool_decide_true by done. eexists. split; [reflexivity|]. split; [|reflexivity].
  constructor; simpl.
  - by apply dwf_dpop.
  - intros f r'. rewrite dget_dpop by done. case_decide; [done | apply Hk].
  - by eapply list_remove1_sorted.
  - apply list_remove1_perm in Hl. rewrite dkeys_dpop_filter by done.
    assert (Hp : fid :: l ≡ₚ dkeys (files_by_id s)) by (by rewrite <- Hl, Ho).
    rewrite <- Hp, filter_cons_False by (by intros []). rewrite filter_all_id; [done|].
    intros x Hx ->. unfold dwf in Hf. rewrite <- Hp in Hf. inversion Hf; subst. by apply H1.
  - case_bool_decide; [by apply dwf_dpop | by apply dwf_dset].
  - intros n Y. case_bool_decide as E.
    + rewrite dget_dpop by done. case_decide; [done | apply He].
    + rewrite dget_dset. case_decide; [by intros [= <-] | apply He].
  - intros n f. rewrite dget_dpop by done. specialize (Hm n f).
    assert (Hd : f ∈ default ∅ (dget (if bool_decide (X ∖ {[fid]} = ∅)
        then dpop (file_ids_by_name s) (name (ref_file r))
        else dset (file_ids_by_name s) (name (ref_file r)) (X ∖ {[fid]})) n) <->
        f <> fid /\ f ∈ default ∅ (dget (file_ids_by_name s) n)).
    { case_bool_decide as E.
      - rewrite default_dpop by done. destruct (decide (name (ref_file r) = n)) as [<-|];
          [rewrite EX; simpl; set_solver|]. split; [|naive_solver]. intros [? Hd]. split; [|done].
        intros ->. apply Hm in Hd as (r' & ? & ?). naive_solver.
      - rewrite default_dset. destruct (decide (name (ref_file r) = n)) as [<-|];
          [rewrite EX; simpl; set_solver|]. split; [|naive_solver]. intros [[? Hd]|[? Hd]]; [naive_solver|].
        split; [|done]. intros ->. apply Hm in Hd as (r' & ? & ?). naive_solver. }
    rewrite Hd, Hm. destruct (decide (fid = f)) as [->|Hne]; split.
    + by intros [[] _].
    + by intros (? & ? & _).
    + by intros [_ ?].
    + intros ?. split; [congruence | done].
Qed.

(** ** Identifiers of model roots

    A root proper has no parent, and an unscoped one is not named like a
    scoped identifier; its identifier then determines its name. *)
Definition proper_root (r : fileref) : bool :=
  match ref_parents r with
  | [] =>
      match path_pair_id (ref_file r) with
      | Some _ => true
      | None => negb (startswith (name (ref_file r)) "[")
      end
  | _ :: _ => false
  end.

Lemma proper_root_name r r' :
  proper_root r = true -> proper_root r' = true -> file_id r = file_id r' ->
  name (ref_file r) = name (ref_file r').
Proof.
  unfold proper_root, file_id, full_path. destruct (ref_parents r), (ref_parents r'); try done.
  cbn [app path_of fold_left].
  destruct (path_pair_id (ref_file r)) as [p|], (path_pair_id (ref_file r')) as [p'|]; intros Hr Hr' H.
  - by apply build_scoped_id_inj in H as [-> _].
  - cbn [build_file_id] in H. by rewrite <- H in Hr'.
  - cbn [build_file_id] in H. by rewrite H in Hr.
  - done.
Qed.

(** The invariant of the model's roots. *)
Record roots_ok (s : model) : Prop := {
  ro_index : index_ok s;
  ro_proper : forall fid r, dget (files_by_id s) fid = Some r -> proper_root r = true }.

Lemma roots_ok_unchanged s s' : unchanged index s s' -> roots_ok s -> roots_ok s'.
Proof.
  intros H [Hi Hp]. split; [by eapply index_ok_unchanged|].
  unfold unchanged, index in H. simplify_eq. by rewrite H.
Qed.

Lemma keeps_roots {A} (m : st model A) : within (unchanged index) m -> within (keeps roots_ok) m.
Proof. intros H s Hs. eapply roots_ok_unchanged; [apply H|exact Hs]. Qed.

#[export] Hint Extern 6 (within (keeps roots_ok) _) => apply keeps_roots : within.

Lemma index_file_spec r E :
  proper_root r = true ->
  spec (fun s => roots_ok s /\ dget (files_by_id s) (file_id r) = None) (index_file r)
    (fun _ => roots_ok) E.
Proof.
  intros Hr s [[Hi Hp] Hn]. pose proof (index_file_ok s r Hi Hn) as H.
  change (roots_ok (index_file r s).2). split; [exact H|]. intros fid r'. simpl.
  rewrite dget_dset. case_decide; [naive_solver | apply Hp].
Qed.

Lemma insert_candidate_ok r : proper_root r = true -> within (keeps roots_ok) (insert_candidate_file r).
Proof.
  intros Hr. apply spec_within. unfold insert_candidate_file. apply spec_gets. intros s Hs.
  destruct (dhas _ _) eqn:E; [by intros ? ->|].
  eapply spec_conseq; [by apply (index_file_spec r roots_ok)| |done|done].
  intros ? ->. split; [done|]. by apply dhas_false.
Qed.

Lemma add_file_ok r i : proper_root r = true -> within (keeps roots_ok) (add_file r i).
Proof.
  intros Hr. apply spec_within. unfold add_file.
  eapply spec_bind; [apply spec_within; auto with within|]. intros u.
  apply spec_gets. intros s Hs. destruct (dhas _ _) eqn:E; [by intros ? ->|].
  eapply (spec_bind _ _ (fun _ => roots_ok)).
  - eapply spec_conseq; [by apply (index_file_spec r roots_ok)| |done|done].
    intros ? ->. split; [done|]. by apply dhas_false.
  - intros v. apply spec_within. within_auto.
Qed.

(** What holds between the lookup of a root and its removal. *)
Definition found (fid : string) (r : fileref) (s : model) : Prop :=
  roots_ok s /\ dget (files_by_id s) fid = Some r.

Lemma found_unchanged fid r s s' : unchanged index s s' -> found fid r s -> found fid r s'.
Proof.
  intros H [Ho Hf]. split; [by eapply roots_ok_unchanged|].
  unfold unchanged, index in H. simplify_eq. by rewrite H.
Qed.

Lemma found_frame {A} fid r (m : st model A) :
  within (unchanged index) m -> spec (found fid r) m (fun _ => found fid r) roots_ok.
Proof.
  intros H. apply (spec_frame index); [done | intros s s'; apply found_unchanged | by intros s []].
Qed.

Lemma unindex_spec fid r :
  spec (found fid r) (unindex_file r fid) (fun _ s => roots_ok s /\ dget (files_by_id s) fid = None)
    roots_ok.
Proof.
  intros s [[Hi Hp] Hr]. destruct (unindex_file_ok s r fid Hi Hr) as (s' & -> & Hi' & Hf).
  split; [split; [done|] | rewrite Hf; apply dget_dpop_eq, Hi].
  intros f q. rewrite Hf, dget_dpop by apply Hi. case_decide; [done | apply Hp].
Qed.

Lemma remove_file_ok k : within (keeps roots_ok) (remove_file k).
Proof.
  apply spec_within. unfold remove_file.
  eapply spec_bind; [apply spec_within; auto with within|]. intros u.
  apply spec_gets. intros s Hs. destruct (resolve_file_id s k) as [fid|e]; [|by intros ? ->].
  apply spec_lift; [done|]. intros f [= <-]. unfold get_ref at 1.
  eapply (spec_bind _ _ (fun r => found fid r)).
  { apply spec_gets. intros ? ->. destruct (dget (files_by_id s) fid) as [r|] eqn:E; by intros ? ->. }
  intros r. eapply spec_bind; [apply found_frame, within_gets, _|]. intros shown.
  eapply spec_bind; [apply found_frame; within_auto|]. intros ?.
  eapply spec_bind; [apply found_frame; auto with within|]. intros legacy.
  eapply spec_bind; [apply unindex_spec|]. intros ?.
  apply (spec_conseq _ roots_ok _ _ (fun _ => roots_ok) _ roots_ok); [|by intros s' [H _]|done|done].
  apply spec_within. within_auto; apply keeps_roots; frame_modify.
Qed.

Lemma with_fallback_same s r r' : with_fallback s r = Ok r' ->
  ref_oid r' = ref_oid r /\ file_id r' = file_id r /\ proper_root r' = proper_root r.
Proof.
  unfold with_fallback.
  assert (Hs : forall f' v, set_prop P_transferred_size (ref_file r) v = Ok f' ->
    ref_oid (mkRef (ref_oid r) (ref_parents r) f') = ref_oid r /\
    file_id (mkRef (ref_oid r) (ref_parents r) f') = file_id r /\
    proper_root (mkRef (ref_oid r) (ref_parents r) f') = proper_root r).
  { intros f' v H. pose proof (frame_set_prop P_transferred_size P_path_pair_id _ _ _ ltac:(done) eq_refl H) as Hp.
    apply set_prop_frame in H as (Hn & _). unfold file_id, proper_root, full_path. simpl.
    assert (path_pair_id f' = path_pair_id (ref_file r)) as ->.
    { simpl in Hp. unfold py_opt_str in Hp. by destruct (path_pair_id f'), (path_pair_id (ref_file r)); simplify_eq. }
    by rewrite Hn. }
  destruct (dget _ _) as [fb|], (local_size (ref_file r)) as [ls|]; try by intros [= <-].
  destruct (_ && _ && _); [|by intros [= <-]].
  destruct (set_transferred_size _ _) as [f'|] eqn:E; [|done]. intros [= <-].
  by apply (Hs f' (PyInt fb)).
Qed.

(** Replacing a stored root by a proper one with the same identifier. *)
Lemma replace_root_ok r s : proper_root r = true -> roots_ok s ->
  is_Some (dget (files_by_id s) (file_id r)) ->
  roots_ok (upd_files_by_id (fun d => dset d (file_id r) r) s).
Proof.
  intros Hr [[Hf Hk Hs Ho Hn He Hm] Hp] [old Hold].
  assert (Hname : name (ref_file old) = name (ref_file r)).
  { apply proper_root_name; [by eapply Hp | done | by apply Hk]. }
  split; [constructor|]; simpl; try done.
  - by apply dwf_dset.
  - intros fid q. rewrite dget_dset. case_decide; [naive_solver | apply Hk].
  - rewrite dkeys_dset_present; [done | by eapply dget_Some_keys].
  - intros n fid. rewrite Hm, dget_dset. case_decide as E; [subst|done]. split.
    + intros (q & Hq & <-). simplify_eq. eauto.
    + intros (q & [= <-] & <-). eauto.
  - intros fid q. rewrite dget_dset. case_decide; [naive_solver | apply Hp].
Qed.

Lemma write_object_ok r : proper_root r = true -> within (keeps roots_ok) (write_object r).
Proof.
  intros Hr s Hs. unfold write_object, modify. simpl.
  destruct (dget (files_by_id s) (file_id r)) as [old|] eqn:E; cycle 1.
  { eapply roots_ok_unchanged; [|exact Hs]. unfold unchanged, index; simpl. by rewrite E. }
  destruct (Nat.eqb (ref_oid old) (ref_oid r)) eqn:Eo; cycle 1.
  { eapply roots_ok_unchanged; [|exact Hs]. unfold unchanged, index; simpl. by rewrite E, Eo. }
  eapply roots_ok_unchanged; [|apply (replace_root_ok r s Hr Hs); by exists old].
  unfold unchanged, index; simpl. by rewrite E, Eo.
Qed.

Lemma update_file_ok r0 i ctx : proper_root r0 = true -> within (keeps roots_ok) (update_file r0 i ctx).
Proof.
  intros Hr0. apply spec_within. unfold update_file. apply spec_gets. intros s Hs.
  apply spec_lift; [by intros e _ ? ->|]. intros r Hr.
  apply with_fallback_same in Hr as (_ & Hid & Hp). rewrite Hr0 in Hp.
  apply (spec_conseq _ roots_ok _ _ (fun _ => roots_ok) _ roots_ok); [|by intros ? ->|done|done].
  eapply spec_bind; [by apply spec_within, write_object_ok|]. intros ?.
  eapply spec_bind; [apply spec_within; auto with within|]. intros ?.
  eapply spec_bind; [apply spec_within; auto with within|]. intros ?.
  apply spec_gets. intros s1 Hs1. destruct (dget _ _) as [old|] eqn:E; [|by intros ? ->].
  apply (spec_conseq _ (found (file_id r) old) _ _ (fun _ => roots_ok) _ roots_ok);
    [|by intros ? ->|done|done].
  eapply spec_bind; [apply found_frame, within_gets, _|]. intros shown.
  eapply spec_bind; [apply found_frame; within_auto|]. intros ?.
  eapply spec_bind; [apply found_frame; auto with within|]. intros legacy.
  apply (spec_bind _ _ (fun _ => roots_ok)).
  { intros s2 [Hs2 Hf]. apply replace_root_ok; [done|done|by eexists]. }
  intros ?. apply spec_within. within_auto.
Qed.

(** ** Histories of a model *)

(** The calls that change a model, and the passing of time; the two
    transactions run a body of further calls. *)
Inductive op :=
  | OAdd (r : fileref) (structural : option identity)
  | ORemove (identifier : string)
  | OUpdate (r : fileref) (structural : option identity) (ctx : option (dict string pyval))
  | OInsertCandidate (r : fileref)
  | OClear (ctx : option (dict string pyval)) (publication_file_id : option string)
  | OClearExcept (preserved : gset string)
  | ORestore (new : dict string overlay) (ids : dict string identity)
  | OClearOverlayOf (fid : string) (i : identity)
  | OReplaceOverlays (new : dict string overlay) (changed : gset string)
  | OPublish (new : dict string overlay) (ids : dict string identity)
      (epoch_matches : option (string -> bool)) (epoch_for : option epoch_fn)
  | OConsumeIdentity (fid : string) (i : identity)
  | OReplaceIdentity (fid : string) (i : identity)
  | OAddListener (l : listener)
  | ORemoveListener (l : listener)
  | OSetGeneration (v : Z)
  | OSetTreeCount (v : Z)
  | OSetCallback (b : bool)
  | OSetDiagnostics (enabled : option (string -> option pyval)) (recorder : bool)
  | OSummary
  | OTick (now : Z)
  | ORetained (body : list op) (retired : gset string)
  | OReplacement (body : list op) (statuses : dict string LftpJobStatus) (epoch_for : epoch_fn).

Fixpoint run_op (o : op) : st model unit :=
  let body := fix body (l : list op) : st model unit :=
    match l with [] => mret tt | o :: l' => run_op o;; body l' end in
  match o with
  | OAdd r i => add_file r i
  | ORemove k => remove_file k
  | OUpdate r i ctx => update_file r i ctx
  | OInsertCandidate r => insert_candidate_file r
  | OClear ctx p => clear_active_progress_overlays ctx p
  | OClearExcept X => clear_active_progress_overlays_except X;; mret tt
  | ORestore new ids => restore_active_progress_overlays new ids;; mret tt
  | OClearOverlayOf fid i => clear_active_progress_overlay_if_job_identity_matches fid i;; mret tt
  | OReplaceOverlays new X => replace_active_progress_overlays new X;; mret tt
  | OPublish new ids m e => publish_active_lftp_root_counters new ids m e;; mret tt
  | OConsumeIdentity fid i => clear_published_file_job_identity_if_matches fid i;; mret tt
  | OReplaceIdentity fid i => clear_published_file_job_identity_if_replaced fid i;; mret tt
  | OAddListener l => add_listener l
  | ORemoveListener l => remove_listener l
  | OSetGeneration v => set_downloaded_timestamp_overlay_generation v
  | OSetTreeCount v => set_tree_file_count v
  | OSetCallback b => set_version_publication_callback b
  | OSetDiagnostics e r => set_completion_provenance_diagnostics e r
  | OSummary => notify_summary_changed
  | OTick now => modify (upd_clock (fun _ => now))
  | ORetained l X => apply_with_active_progress_retained (body l) X
  | OReplacement l statuses e => apply_authoritative_root_replacement (body l) statuses e
  end.

(** The roots given to the model are proper. *)
Fixpoint op_proper (o : op) : bool :=
  match o with
  | OAdd r _ | OUpdate r _ _ | OInsertCandidate r => proper_root r
  | ORetained l _ | OReplacement l _ _ => forallb op_proper l
  | _ => true
  end.

(** Induction that reaches the calls inside transactions. *)
Section op_ind'.
Context (P : op -> Prop).
Context (H : forall o,
  match o with ORetained l _ | OReplacement l _ _ => Forall P l | _ => True end -> P o).

Fixpoint op_ind' (o : op) : P o :=
  let all := fix all (l : list op) : Forall P l :=
    match l with [] => Forall_nil_2 P | o :: l' => Forall_cons_2 P o l' (op_ind' o) (all l') end in
  H o (match o as o return
         match o with ORetained l _ | OReplacement l _ _ => Forall P l | _ => True end with
       | ORetained l _ => all l
       | OReplacement l _ _ => all l
       | _ => I
       end).
End op_ind'.

Definition run_body (l : list op) : st model unit := mfor l run_op.

Lemma run_op_retained l X :
  run_op (ORetained l X) = apply_with_active_progress_retained (run_body l) X.
Proof. simpl. f_equal. induction l as [|o l IH]; simpl; [done|]. by rewrite IH. Qed.

Lemma run_op_replacement l st e :
  run_op (OReplacement l st e) = apply_authoritative_root_replacement (run_body l) st e.
Proof. simpl. f_equal. induction l as [|o l IH]; simpl; [done|]. by rewrite IH. Qed.

(** A relation that every simple call and both transactions establish holds
    for every call. *)
Lemma run_op_within (R : relation model) `{!PreOrder R} (ok : op -> Prop) :
  (forall o, ok o ->
    match o with ORetained l _ | OReplacement l _ _ => Forall ok l | _ => True end) ->
  (forall o, ok o ->
    match o with
    | ORetained l X => within R (run_body l) -> within R (apply_with_active_progress_retained (run_body l) X)
    | OReplacement l st e =>
        within R (run_body l) -> within R (apply_authoritative_root_replacement (run_body l) st e)
    | _ => within R (run_op o)
    end) ->
  forall o, ok o -> within R (run_op o).
Proof.
  intros Hsub Hop. apply (op_ind' (fun o => ok o -> within R (run_op o))).
  intros o Hbody Ho. pose proof (Hsub o Ho) as Hs. pose proof (Hop o Ho) as Hr.
  assert (Hl : forall l, Forall ok l -> Forall (fun o => ok o -> within R (run_op o)) l ->
    within R (run_body l)).
  { intros l Hl HF. apply within_mfor; [exact _|]. intros x Hx. rewrite Forall_forall in HF, Hl. auto. }
  destruct o; try exact Hr.
  - rewrite run_op_retained. auto.
  - rewrite run_op_replacement. auto.
Qed.

(** The states a model can be in. *)
Inductive reachable : model -> Prop :=
  | reachable_new now : reachable (empty_model now)
  | reachable_op s o : reachable s -> op_proper o = true -> reachable (run_op o s).2.

(** ** The invariant of reachable models *)

Lemma retained_ok {A} (m : st model A) X :
  within (keeps roots_ok) m -> within (keeps roots_ok) (apply_with_active_progress_retained m X).
Proof.
  intros Hm. unfold apply_with_active_progress_retained.
  within_auto; try exact Hm; apply keeps_roots; frame_modify.
Qed.
#[export] Hint Resolve retained_ok : within.

Lemma replacement_ok {A} (m : st model A) st e :
  within (keeps roots_ok) m -> within (keeps roots_ok) (apply_authoritative_root_replacement m st e).
Proof.
  intros Hm. unfold apply_authoritative_root_replacement.
  within_auto; apply keeps_roots; frame_modify.
Qed.

Lemma run_op_roots o : op_proper o = true -> within (keeps roots_ok) (run_op o).
Proof.
  apply (run_op_within _ (fun o => op_proper o = true)).
  { intros [] Ho; try done; by apply Forall_forall; intros x Hx%list_elem_of_In; eapply forallb_forall. }
  clear o. intros o Ho.
  destruct o; simpl in Ho; cbn [run_op];
    eauto using retained_ok, replacement_ok, add_file_ok, remove_file_ok, update_file_ok, insert_candidate_ok;
    apply keeps_roots;
    unfold clear_published_file_job_identity_if_matches, clear_published_file_job_identity_if_replaced,
      add_listener, remove_listener, set_downloaded_timestamp_overlay_generation, set_tree_file_count,
      set_version_publication_callback, set_completion_provenance_diagnostics, notify_summary_changed;
    within_auto; frame_modify.
Qed.

Lemma reachable_roots s : reachable s -> roots_ok s.
Proof.
  induction 1 as [now|s o Hs IH Ho]; [|by apply run_op_roots].
  split; [apply empty_index | done].
Qed.

(** Ordered iteration visits every root once, in identifier order. *)
Lemma dvals_map_get {V} (d : dict string V) : dwf d ->
  map (dget d) (dkeys d) = map Some (dvals d).
Proof.
  unfold dwf. induction d as [|[k v] d IH]; simpl; [done|]. intros [Hk Hnd]%NoDup_cons.
  rewrite decide_True by done. f_equal. rewrite <- IH by done. unfold dkeys in *.
  apply map_ext_in. intros k' Hin%list_elem_of_In. rewrite decide_False; [done|congruence].
Qed.

Lemma iter_files_by_id_spec s : index_ok s ->
  exists l, iter_files_by_id s = Ok l /\ map file_id l = ordered_file_ids s /\
    l ≡ₚ iter_files s.
Proof.
  intros H. pose proof (files_keys_ordered s H) as Hord.
  assert (Hl : exists l, iter_files_by_id s = Ok l /\ map file_id l = ordered_file_ids s /\
      map Some l = map (dget (files_by_id s)) (ordered_file_ids s)).
  { unfold iter_files_by_id. assert (Hin : forall fid, fid ∈ ordered_file_ids s ->
      is_Some (dget (files_by_id s) fid)) by (intros; by apply Hord).
    clear Hord. induction (ordered_file_ids s) as [|fid l IH]; [by exists []|].
    destruct (Hin fid) as [r Hr]; [by left|]. destruct IH as (l' & E & Hm & Hg).
    { intros f Hf. apply Hin. by right. }
    exists (r :: l'). simpl. rewrite Hr. simpl. rewrite E. simpl.
    by rewrite Hm, Hg, (ix_keys s H _ _ Hr). }
  destruct Hl as (l & E & Hm & Hg). exists l. split_and!; [done..|].
  assert (Hp : map Some l ≡ₚ map Some (iter_files s)).
  { rewrite Hg. unfold iter_files. rewrite <- dvals_map_get by apply H. apply Permutation_map, H. }
  apply Permutation_map_inv in Hp as (l3 & Hl3 & Hp). rewrite Hp.
  assert (l = l3) as -> by (by apply (inj (fmap (M := list) Some))). done.
Qed.

Lemma names_keyset s : index_ok s ->
  get_file_names s = list_to_set (map (fun r => name (ref_file r)) (iter_files s)).
Proof.
  intros H. apply set_eq. intros n. unfold get_file_names.
  rewrite elem_of_dkeyset, elem_of_list_to_set. split.
  - intros [X HX]. destruct (set_choose_L X (ix_nonempty s H n X HX)) as [fid Hfid].
    destruct (proj1 (ix_names s H n fid)) as (r & Hr & <-); [by rewrite HX|].
    apply list_elem_of_fmap. exists r. split; [done|]. apply dget_Some_elem_of in Hr.
    apply list_elem_of_fmap. by exists (fid, r).
  - intros Hn. apply list_elem_of_fmap in Hn as (r & -> & Hr).
    apply list_elem_of_fmap in Hr as ([fid r'] & -> & Hr). apply dget_elem_of in Hr; [|apply H].
    assert (Hin : fid ∈ default ∅ (dget (file_ids_by_name s) (name (ref_file r')))).
    { apply (ix_names s H). eauto. }
    destruct (dget (file_ids_by_name s) _) as [X|]; [by exists X | set_solver].
Qed.


(** Two scoped roots of the same name and one unscoped. *)
Definition sample_root (oid : nat) (n : string) (pair : option string) : fileref :=
  mkRef oid [] (put_pair (new_file 0 n true) pair None).

(** A history with two roots of one name, a duplicate that is refused, and a
    removal inside a transaction. *)
Definition sample_ops : list op :=
  [OAdd (sample_root 1 "b" (Some "p")) None; OAdd (sample_root 2 "b" (Some "q")) None;
   OAdd (sample_root 3 "a" None) None; OAdd (sample_root 3 "a" None) None;
   ORetained [ORemove "a"; OUpdate (sample_root 4 "b" (Some "q")) None None] ∅].

Definition run_ops (l : list op) (s : model) : model :=
  fold_left (fun s o => (run_op o s).2) l s.

Lemma reachable_run_ops l s : reachable s -> forallb op_proper l = true -> reachable (run_ops l s).
Proof.
  revert s. induction l as [|o l IH]; simpl; intros s Hs Hl; [done|].
  apply andb_true_iff in Hl as [Ho Hl]. apply IH; [by constructor | done].
Qed.

