(* ===== verification/ModelProjection.v ===== *)
(** * What readers see of one root

    [copy_for_publication] and [apply_overlay] against the projection they
    implement: every property of the root, the four live values replaced by
    those of the overlay. *)

From S2P Require Import Prelude PyStr PyDict ModelFile ModelFileFacts JobStatus ModelState Model.

(** ** The copy as a fold over the properties *)

(** The properties in the order the copy writes them. *)
Definition copied_props : list prop :=
  [P_remote_size; P_local_size; P_remote_present; P_local_present; P_remote_content;
   P_transferred_size; P_display_size_total; P_display_transferred_size; P_download_progress;
   P_downloading_speed; P_eta; P_is_extractable; P_is_stoppable; P_explicitly_stopped;
   P_complete_local_coverage; P_resume_checkpoint_present; P_local_created; P_local_modified;
   P_remote_created; P_remote_modified; P_downloaded_timestamp; P_validation_progress;
   P_validation_error; P_corrupt_chunks; P_final_move_succeeded; P_path_pair_id; P_path_pair_name].

(** The timestamps are copied only when present. *)
Definition optional_prop (q : prop) : bool :=
  match q with
  | P_local_created | P_local_modified | P_remote_created | P_remote_modified => true
  | _ => false
  end.

Definition copy_prop (f p : ModelFile) (q : prop) : result ModelFile :=
  match optional_prop q, get_prop q f with
  | true, PyNone => Ok p
  | _, v => set_prop q p v
  end.

Fixpoint copy_props (f p : ModelFile) (l : list prop) : result ModelFile :=
  match l with
  | [] => Ok p
  | q :: l' => p' ← copy_prop f p q; copy_props f p' l'
  end.

Lemma result_bind_cong {A B} (m m' : result A) (k k' : A -> result B) :
  m = m' -> (forall a, k a = k' a) -> (m ≫= k) = (m' ≫= k').
Proof. intros <- H. destruct m; simpl; auto. Qed.

Lemma result_bind_ret {A} (m : result A) : m = (x ← m; Ok x).
Proof. by destruct m. Qed.

Lemma copy_for_publication_fold now f :
  copy_for_publication now f =
  copy_props f (put_state (new_file now (name f) (is_dir f)) (state f)) copied_props.
Proof.
  unfold copy_for_publication, copied_props. cbv zeta. cbn [copy_props].
  do 26 (apply result_bind_cong;
    [unfold copy_prop; cbn [optional_prop get_prop set_prop];
     try match goal with |- context [py_opt_datetime ?t] => destruct t end; reflexivity
    |intros ?]).
  apply result_bind_ret.
Qed.

(** No later write of the list disturbs an earlier one. *)
Fixpoint writes_ok (l : list prop) : bool :=
  match l with
  | [] => true
  | q :: l' => forallb (fun q' => negb (bool_decide (q' = q)) && negb (coupled q' q)) l' && writes_ok l'
  end.

Lemma copied_props_ok : writes_ok copied_props = true.
Proof. vm_compute. reflexivity. Qed.

(** An accepted value is read back and the rest is left alone. *)
Lemma set_prop_accepts q g v : prop_error q v = None -> exists g', set_prop q g v = Ok g' /\
  get_prop q g' = v /\ (forall q', q <> q' -> coupled q q' = false -> get_prop q' g' = get_prop q' g) /\
  name g' = name g /\ is_dir g' = is_dir g /\ state g' = state g /\ children_slot g' = children_slot g.
Proof.
  intros E. pose proof (set_prop_outcome q g v) as Ho. rewrite E in Ho.
  destruct Ho as [g' Hg]. exists g'. pose proof (set_prop_frame _ _ _ _ Hg) as (? & ? & ? & ? & _).
  split_and!; try done; [by eapply get_set_prop|]. intros q' ? ?. by eapply frame_set_prop.
Qed.

Lemma copy_prop_spec f p q :
  (optional_prop q = true \/ prop_error q (get_prop q f) = None) ->
  (optional_prop q = true -> get_prop q p = PyNone) ->
  exists p', copy_prop f p q = Ok p' /\ get_prop q p' = get_prop q f /\
    (forall q', q <> q' -> coupled q q' = false -> get_prop q' p' = get_prop q' p) /\
    name p' = name p /\ is_dir p' = is_dir p /\ state p' = state p /\
    children_slot p' = children_slot p.
Proof.
  intros Herr Hbase.
  unfold copy_prop. destruct (optional_prop q) eqn:Eo; cycle 1.
  { destruct Herr as [|Herr]; [done|]. destruct (set_prop_accepts q p _ Herr) as (p' & Hp). exists p'.
    by destruct (get_prop q f). }
  assert (Hv : get_prop q f = PyNone \/ exists t, get_prop q f = PyDatetime t).
  { destruct q; try discriminate Eo; simpl; unfold py_opt_datetime; case_match; eauto. }
  destruct Hv as [Hv|[t Hv]]; rewrite Hv in *.
  - exists p. by rewrite Hbase.
  - apply set_prop_accepts. by destruct q.
Qed.

Lemma copy_props_spec f l p :
  writes_ok l = true ->
  Forall (fun q => optional_prop q = true \/ prop_error q (get_prop q f) = None) l ->
  Forall (fun q => optional_prop q = true -> get_prop q p = PyNone) l ->
  exists p', copy_props f p l = Ok p' /\
    (forall q, q ∈ l -> get_prop q p' = get_prop q f) /\
    (forall q, q ∉ l -> Forall (fun q' => coupled q' q = false) l -> get_prop q p' = get_prop q p) /\
    name p' = name p /\ is_dir p' = is_dir p /\ state p' = state p /\
    children_slot p' = children_slot p.
Proof.
  revert p. induction l as [|q l IH]; simpl; intros p Hw He Hb.
  { exists p. split_and!; try done. intros q Hq. inversion Hq. }
  apply andb_true_iff in Hw as [Hq Hw]. apply Forall_cons in He as [Heq He].
  apply Forall_cons in Hb as [Hbq Hb]. rewrite forallb_forall in Hq.
  assert (Hlater : forall q', q' ∈ l -> q' <> q /\ coupled q' q = false).
  { intros q' Hin%list_elem_of_In%Hq. apply andb_true_iff in Hin as [H1 H2].
    apply negb_true_iff in H1, H2. by apply bool_decide_eq_false in H1. }
  destruct (copy_prop_spec f p q Heq Hbq) as (p1 & -> & Hg & Hf & Hn & Hd & Hs & Hc).
  destruct (IH p1 Hw He) as (p' & E & Hin & Hout & ? & ? & ? & ?).
  { rewrite Forall_forall in Hb |- *. intros q' Hq' Ho. rewrite Hf; [by apply Hb| |].
    - intros <-. by destruct (Hlater q Hq').
    - clear -Ho. by destruct q, q'. }
  exists p'. simpl. rewrite E. split_and!; try congruence.
  - intros q' [->|Hq']%elem_of_cons; [|by apply Hin]. rewrite Hout; [done| |].
    + intros Hq'. by destruct (Hlater q Hq').
    + apply Forall_forall. intros q' Hq'. by apply Hlater.
  - intros q' [? ?]%not_elem_of_cons [? ?]%Forall_cons. rewrite Hout by done. by apply Hf.
Qed.

(** ** Well-formed records read valid values *)

Lemma runtime_key_inj p p' key d d' :
  runtime_key p = Some (key, d) -> runtime_key p' = Some (key, d') -> p = p'.
Proof. destruct p; intros [= <- <-]; by destruct p'. Qed.

Lemma node_wf_prop_ok f q : node_wf f -> optional_prop q = true \/ prop_error q (get_prop q f) = None.
Proof.
  intros Hwf. destruct (runtime_key q) as [[key d]|] eqn:Ek.
  - right. destruct (get_prop_runtime q key d f Ek) as [->|[-> [-> | ->]]]; [|done..].
    pose proof (wf_runtime f Hwf) as Hr. unfold runtime_value.
    destruct (f_runtime (slots f)) as [m|]; simpl in Hr.
    + destruct (m !! key) as [v|] eqn:Em; simpl.
      * destruct Hr as [_ Hr]. destruct (Hr key v Em) as (p' & d' & Hk & He & _).
        by rewrite (runtime_key_inj _ _ _ _ _ Ek Hk).
      * destruct q; simplify_eq/=; done.
    + destruct q; simplify_eq/=; done.
  - destruct q; simplify_eq/=; auto; right.
    + pose proof (wf_remote_size f Hwf) as H. destruct (remote_size f) as [z|]; simpl; [|done].
      rewrite decide_False; [done|]. specialize (H z eq_refl). lia.
    + pose proof (wf_local_size f Hwf) as H. destruct (local_size f) as [z|]; simpl; [|done].
      rewrite decide_False; [done|]. specialize (H z eq_refl). lia.
    + by destruct (path_pair_id f).
    + by destruct (path_pair_name f).
Qed.

(** ** The projection *)

(** An overlay the setters accept. *)
Definition overlay_valid (o : overlay) : bool :=
  match o_download_progress o with Some z => (0 <=? z) && (z <=? 100) | None => true end &&
  match o_transferred_size o with Some z => 0 <=? z | None => true end &&
  match o_downloading_speed o with Some z => 0 <=? z | None => true end &&
  match o_eta o with Some z => 0 <=? z | None => true end.

(** The value readers see for each property. *)
Definition shown_prop (f : ModelFile) (o : option overlay) (q : prop) : pyval :=
  match q, o with
  | P_final_move_pending, _ => PyBool false
  | P_download_progress, Some o => py_opt_int (o_download_progress o)
  | P_transferred_size, Some o => py_opt_int (o_transferred_size o)
  | P_downloading_speed, Some o => py_opt_int (o_downloading_speed o)
  | P_eta, Some o => py_opt_int (o_eta o)
  | _, _ => get_prop q f
  end.

Record projects (f : ModelFile) (o : option overlay) (p : ModelFile) : Prop := {
  pj_name : name p = name f;
  pj_dir : is_dir p = is_dir f;
  pj_state : state p = state f;
  pj_flat : children_slot p = None;
  pj_props : forall q, get_prop q p = shown_prop f o q }.

Lemma copy_projects now f : node_wf f ->
  exists p, copy_for_publication now f = Ok p /\ projects f None p.
Proof.
  intros Hwf. rewrite copy_for_publication_fold.
  set (p0 := put_state (new_file now (name f) (is_dir f)) (state f)).
  destruct (copy_props_spec f copied_props p0) as (p & -> & Hin & Hout & Hn & Hd & Hs & Hc).
  - apply copied_props_ok.
  - apply Forall_forall. intros q _. by apply node_wf_prop_ok.
  - apply Forall_forall. intros q _. by destruct q.
  - exists p. split; [done|]. split; try done.
    + rewrite Hd. subst p0. by destruct (is_dir f).
    + intros q. destruct (decide (q = P_final_move_pending)) as [->|Hne].
      * rewrite Hout; [done| |].
        -- apply (bool_decide_unpack _). vm_compute. done.
        -- apply (bool_decide_unpack _). vm_compute. done.
      * rewrite Hin; [by destruct q|]. destruct q; try done; apply (bool_decide_unpack _); vm_compute; done.
Qed.

Lemma apply_overlay_ok f o : overlay_valid o = true ->
  exists p, apply_overlay f (Some o) = Ok p /\
    get_prop P_download_progress p = py_opt_int (o_download_progress o) /\
    get_prop P_transferred_size p = py_opt_int (o_transferred_size o) /\
    get_prop P_downloading_speed p = py_opt_int (o_downloading_speed o) /\
    get_prop P_eta p = py_opt_int (o_eta o) /\
    (forall q, q ∉ [P_download_progress; P_transferred_size; P_downloading_speed; P_eta] ->
      get_prop q p = get_prop q f) /\
    name p = name f /\ is_dir p = is_dir f /\ state p = state f /\
    children_slot p = children_slot f.
Proof.
  unfold overlay_valid. intros Hv. repeat apply andb_true_iff in Hv as [Hv ?].
  unfold apply_overlay.
  destruct (set_prop_accepts P_download_progress f (py_opt_int (o_download_progress o))) as (p1 & E1 & G1 & F1 & ? & ? & ? & ?).
  { simpl. destruct (o_download_progress o); simpl; [|done]. case_decide; [done|lia]. }
  destruct (set_prop_accepts P_transferred_size p1 (py_opt_int (o_transferred_size o))) as (p2 & E2 & G2 & F2 & ? & ? & ? & ?).
  { simpl. destruct (o_transferred_size o); simpl; [|done]. case_decide; [lia|done]. }
  destruct (set_prop_accepts P_downloading_speed p2 (py_opt_int (o_downloading_speed o))) as (p3 & E3 & G3 & F3 & ? & ? & ? & ?).
  { simpl. destruct (o_downloading_speed o); simpl; [|done]. case_decide; [lia|done]. }
  destruct (set_prop_accepts P_eta p3 (py_opt_int (o_eta o))) as (p4 & E4 & G4 & F4 & ? & ? & ? & ?).
  { simpl. destruct (o_eta o); simpl; [|done]. case_decide; [lia|done]. }
  cbn [set_prop] in *. exists p4. rewrite E1. cbn [mbind result_bind]. rewrite E2. cbn [mbind result_bind].
  rewrite E3. cbn [mbind result_bind]. split; [exact E4|]. split_and!; try congruence.
  - rewrite F4, F3, F2 by done. done.
  - rewrite F4, F3 by done. done.
  - rewrite F4 by done. done.
  - intros q Hq. rewrite !not_elem_of_cons in Hq. destruct Hq as (? & ? & ? & ? & _).
    rewrite F4, F3, F2, F1; done || by destruct q.
Qed.

Lemma overlay_projects f o p : overlay_valid o = true -> projects f None p ->
  exists p', apply_overlay p (Some o) = Ok p' /\ projects f (Some o) p'.
Proof.
  intros Hv [Hn Hd Hs Hc Hp].
  destruct (apply_overlay_ok p o Hv) as (p' & E & G1 & G2 & G3 & G4 & F & ? & ? & ? & ?).
  exists p'. split; [done|]. split; try congruence. intros q.
  destruct (decide (q ∈ [P_download_progress; P_transferred_size; P_downloading_speed; P_eta])) as [Hin|Hin].
  - rewrite !elem_of_cons, elem_of_nil in Hin. destruct Hin as [->|[->|[->|[->|[]]]]]; done.
  - rewrite (F q Hin), (Hp q). rewrite !not_elem_of_cons in Hin. destruct Hin as (? & ? & ? & ? & _).
    by destruct q.
Qed.

Lemma publish_total now f o :
  node_wf f -> (forall v, o = Some v -> overlay_valid v = true) ->
  exists p, (p ← copy_for_publication now f; apply_overlay p o) = Ok p /\ projects f o p.
Proof.
  intros Hf Ho. destruct (copy_projects now f Hf) as (p & -> & Hp). cbn [mbind result_bind].
  destruct o as [o|]; [|by exists p]. apply overlay_projects; [by apply Ho | done].
Qed.

(** publishing a well-formed root never raises, and the record readers
    get has every property of the root, with the four live values (progress,
    transferred bytes, speed, eta) taken from the overlay when there is one;
    it carries no children, and the in-flight final move is not shown. *)
Theorem publication_is_projection now f o :
  node_wf f -> (forall v, o = Some v -> overlay_valid v = true) ->
  exists p, (p ← copy_for_publication now f; apply_overlay p o) = Ok p /\ projects f o p.
Proof. apply publish_total. Qed.

Definition sample_overlay : overlay := mkOverlay (Some 40) (Some 400) (Some 7) None.

Lemma publication_is_projection_witness :
  exists p, (p ← copy_for_publication 5 (new_file 0 "d" true); apply_overlay p (Some sample_overlay)) = Ok p /\
    projects (new_file 0 "d" true) (Some sample_overlay) p.
Proof.
  apply (publication_is_projection 5 (new_file 0 "d" true) (Some sample_overlay)).
  - apply new_file_wf.
  - intros v [= <-]. reflexivity.
Defined.
