(* ===== verification/ModelCoherence.v ===== *)
(** * The published projection is always current

    After every call made on a live model, what readers see of a root is the
    projection of the stored root and its live overlay, and nothing is shown
    for roots that are gone.  *)

From S2P Require Import Prelude PyStr PyDict ModelFile ModelFileFacts JobStatus ModelState Model.
From S2P Require Import ModelFrames ModelIndex ModelProjection.

(** ** Frames and totality of the publication machinery *)

(** What coherence depends on. *)
Definition viewstate (s : model) := (index s, overlays s, published_files s).

Lemma record_transition_returns fid reason p c level snap g :
  returns (record_completion_provenance_transition fid reason p c level snap g).
Proof.
  unfold record_completion_provenance_transition, completion_provenance_trace_is_enabled, emit.
  returns_auto.
Qed.
#[export] Hint Resolve record_transition_returns : returns.

Lemma record_transition_view fid reason p c level snap g :
  within (unchanged viewstate) (record_completion_provenance_transition fid reason p c level snap g).
Proof.
  unfold record_completion_provenance_transition, completion_provenance_trace_is_enabled, emit.
  within_auto. frame_modify.
Qed.
#[export] Hint Resolve record_transition_view : within.

Lemma bind_identity_returns fid pp p pi c src d : returns (bind_published_identity fid pp p pi c src d).
Proof. unfold bind_published_identity, keep_published_identity. returns_auto. Qed.
#[export] Hint Resolve bind_identity_returns : returns.

Lemma bind_identity_view fid pp p pi c src d :
  within (unchanged viewstate) (bind_published_identity fid pp p pi c src d).
Proof. unfold bind_published_identity, keep_published_identity. within_auto; frame_modify. Qed.
#[export] Hint Resolve bind_identity_view : within.

Lemma record_rollback_returns file caller src ctx pp p pi c o :
  returns (record_rollback file caller src ctx pp p pi c o).
Proof. unfold record_rollback, completion_provenance_trace_is_enabled. returns_auto. Qed.
#[export] Hint Resolve record_rollback_returns : returns.

Lemma record_rollback_view file caller src ctx pp p pi c o :
  within (unchanged viewstate) (record_rollback file caller src ctx pp p pi c o).
Proof. unfold record_rollback, completion_provenance_trace_is_enabled. within_auto. Qed.
#[export] Hint Resolve record_rollback_view : within.

Lemma emit_view e : within (unchanged viewstate) (emit e).
Proof. frame_modify. Qed.
#[export] Hint Resolve emit_view : within.

Lemma emit_returns e : returns (emit e).
Proof. apply returns_modify. Qed.
#[export] Hint Resolve emit_returns : returns.

Lemma advance_returns r : returns (advance_version r).
Proof. unfold advance_version. returns_auto. Qed.
Lemma advance_view r : within (unchanged viewstate) (advance_version r).
Proof. unfold advance_version. within_auto; frame_modify. Qed.
#[export] Hint Resolve advance_returns : returns.
#[export] Hint Resolve advance_view : within.

Lemma notify_versioned_returns r gv sv : returns (notify_versioned_change r gv sv).
Proof. unfold notify_versioned_change. returns_auto. Qed.
Lemma notify_versioned_view r gv sv : within (unchanged viewstate) (notify_versioned_change r gv sv).
Proof. unfold notify_versioned_change. within_auto. Qed.
#[export] Hint Resolve notify_versioned_returns : returns.
#[export] Hint Resolve notify_versioned_view : within.

Lemma full_effective_view r : within (unchanged viewstate) (full_effective_file r).
Proof. unfold full_effective_file. within_auto. Qed.
#[export] Hint Resolve full_effective_view : within.

Lemma notify_correction_returns fid r :
  (forall q, r = Some q -> file_id q = fid) -> returns (notify_legacy_overlay_correction_if_needed fid r).
Proof.
  intros Hid s. unfold notify_legacy_overlay_correction_if_needed, mbind, st_bind, gets, modify. simpl.
  destruct (negb (bool_decide (fid ∈ correction_ids s)) || dhas (overlays s) fid) eqn:E; [by do 2 eexists|].
  apply orb_false_iff in E as [_ E%dhas_false].
  destruct r as [q|]; [|by do 2 eexists]. unfold full_effective_file, mbind, st_bind, gets. simpl.
  rewrite (Hid q eq_refl), E. simpl. unfold notify_legacy_publication_change.
  destruct (dget (correction_old s) fid); [|by do 2 eexists].
  match goal with |- context [mbind ?k ?m ?t] => assert (H : returns (mbind k m)) end.
  { returns_auto. }
  unfold lift. apply H.
Qed.

Lemma notify_correction_view fid r :
  within (unchanged viewstate) (notify_legacy_overlay_correction_if_needed fid r).
Proof.
  unfold notify_legacy_overlay_correction_if_needed, notify_legacy_publication_change.
  within_auto; frame_modify.
Qed.
#[export] Hint Resolve notify_correction_view : within.

(** ** The invariant *)

(** Sound data: indexed, well-formed roots and overlays the setters accept;
    nothing is published for a root that is not there. *)
Record sound (s : model) : Prop := {
  so_roots : roots_ok s;
  so_wf : forall fid r, dget (files_by_id s) fid = Some r -> node_wf (ref_file r);
  so_overlays_wf : dwf (overlays s);
  so_overlays : forall fid o, dget (overlays s) fid = Some o -> overlay_valid o = true;
  so_published_wf : dwf (published_files s);
  so_published : forall fid, is_Some (dget (published_files s) fid) -> is_Some (dget (files_by_id s) fid) }.

(** The published record of one root is current. *)
Definition current (s : model) (fid : string) : Prop :=
  forall r, dget (files_by_id s) fid = Some r ->
  exists p, dget (published_files s) fid = Some p /\ projects (ref_file r) (dget (overlays s) fid) p.

(** Current outside [D]. *)
Definition coherent (D : gset string) (s : model) : Prop :=
  sound s /\ forall fid, fid ∉ D -> current s fid.

Lemma viewstate_fields s s' : unchanged viewstate s s' ->
  unchanged index s s' /\ files_by_id s' = files_by_id s /\ overlays s' = overlays s /\
  published_files s' = published_files s.
Proof. unfold unchanged, viewstate, index. intros [= -> -> -> -> ->]. done. Qed.

Lemma sound_view s s' : unchanged viewstate s s' -> sound s -> sound s'.
Proof.
  intros (Hi & Hf & Ho & Hp)%viewstate_fields [].
  split; rewrite ?Hf, ?Ho, ?Hp; try done. by eapply roots_ok_unchanged.
Qed.

Lemma coherent_view D s s' : unchanged viewstate s s' -> coherent D s -> coherent D s'.
Proof.
  intros H [Hs Hc]. split; [by eapply sound_view|].
  apply viewstate_fields in H as (_ & Hf & Ho & Hp). intros fid Hfid r.
  rewrite Hf, Ho, Hp. by apply Hc.
Qed.

Lemma coherent_mono D D' s : D ⊆ D' -> coherent D s -> coherent D' s.
Proof. intros H [Hs Hc]. split; [done|]. intros fid Hfid. apply Hc. set_solver. Qed.

(** Code off the view state keeps coherence. *)
Lemma coherent_frame {A} D (m : st model A) :
  returns m -> within (unchanged viewstate) m -> triple (coherent D) m (fun _ => coherent D).
Proof. intros Hr Hw. eapply triple_frame; [done|done|]. intros s s'. apply coherent_view. Qed.

Lemma keeps_coherent {A} D (m : st model A) :
  within (unchanged viewstate) m -> within (keeps (coherent D)) m.
Proof. intros H s Hs. eapply coherent_view; [apply H | exact Hs]. Qed.

#[export] Hint Extern 6 (within (keeps (coherent _)) _) => apply keeps_coherent : within.

(** ** Publication *)

(** A publication of a well-formed root: what it writes. *)
Lemma refresh_run r i c ctx s :
  node_wf (ref_file r) -> (forall o, dget (overlays s) (file_id r) = Some o -> overlay_valid o = true) ->
  exists p s', refresh_published_file r i c ctx s = (Ok p, s') /\ core s' = core s /\
    published_files s' = dset (published_files s) (file_id r) p /\
    projects (ref_file r) (dget (overlays s) (file_id r)) p.
Proof.
  intros Hwf Ho. pose proof (refresh_core r i c ctx s) as Hcore.
  destruct (publish_total (clock s) (ref_file r) _ Hwf Ho) as (p & Hp & Hpj).
  destruct (copy_for_publication (clock s) (ref_file r)) as [q|] eqn:Eq; [|done].
  cbn [mbind result_bind] in Hp.
  enough (Ht : triple (fun s' => s' = s) (refresh_published_file r i c ctx)
    (fun p' s' => p' = p /\ published_files s' = dset (published_files s) (file_id r) p)).
  { destruct (Ht s eq_refl) as (p' & s' & E & -> & Hpub). rewrite E in Hcore. by exists p, s'. }
  unfold refresh_published_file.
  apply triple_read; intros ? ->. apply triple_read; intros ? ->. apply triple_read; intros ? ->.
  apply (triple_bind _ _ (fun _ s' => s' = s)).
  { intros ? ->. destruct (dget (published_ids s) (file_id r)), (publication_identity s r i).1; by do 2 eexists. }
  intros d. apply triple_read; intros ? ->. rewrite Eq. 
  apply triple_lift. apply triple_read; intros ? ->. rewrite Hp. apply triple_lift.
  eapply (triple_bind _ _ (fun _ s' => published_files s' = published_files s)).
  { eapply triple_conseq; [apply (triple_frame viewstate (fun s' => published_files s' = published_files s));
      [auto with returns|auto with within|] | by intros ? -> | done].
    intros s1 s2 H E. apply viewstate_fields in H as (_ & _ & _ & H). by rewrite H. }
  intros ?. eapply (triple_bind _ _ (fun _ s' => published_files s' = dset (published_files s) (file_id r) p)).
  { apply triple_modify. intros s1 E. simpl. by rewrite E. }
  intros ?. eapply (triple_bind _ _ (fun _ s' => published_files s' = dset (published_files s) (file_id r) p)).
  { apply (triple_frame viewstate); [auto with returns|auto with within|].
    intros s1 s2 H E. apply viewstate_fields in H as (_ & _ & _ & H). by rewrite H. }
  intros ?. by apply triple_mret.
Qed.

Lemma core_view_fields s s' : core s' = core s ->
  unchanged index s s' /\ files_by_id s' = files_by_id s /\ overlays s' = overlays s.
Proof. unfold core, unchanged, index. intros E. split_and!; congruence. Qed.

(** Publishing the stored root makes it current and disturbs no other. *)
Lemma refresh_coherent D fid r i c ctx :
  triple (fun s => coherent D s /\ dget (files_by_id s) fid = Some r)
    (refresh_published_file r i c ctx)
    (fun p s => coherent (D ∖ {[fid]}) s /\ dget (files_by_id s) fid = Some r /\
       dget (published_files s) fid = Some p).
Proof.
  intros s [[Hs Hc] Hr]. pose proof (ix_keys s (ro_index s (so_roots s Hs)) _ _ Hr) as Hid.
  destruct (refresh_run r i c ctx s) as (p & s' & E & Hcore & Hpub & Hpj).
  { by eapply so_wf. }
  { intros o. by apply so_overlays. }
  rewrite Hid in *. apply core_view_fields in Hcore as (Hi & Hf & Ho).
  exists p, s'. split; [done|]. rewrite Hf, Hpub. split_and!; [|done|apply dget_dset_eq].
  destruct Hs. split.
  - split; rewrite ?Hf, ?Ho, ?Hpub; try done.
    + by eapply roots_ok_unchanged.
    + by apply dwf_dset.
    + intros f. rewrite dget_dset. case_decide; [subst; eauto|]. eauto.
  - intros f Hfd r'. rewrite Hf, Ho, Hpub, dget_dset. case_decide.
    + subst. rewrite Hr. intros [= <-]. eauto.
    + apply Hc. set_solver.
Qed.

Lemma republish_coherent D c ctx fid :
  triple (coherent D) (republish c ctx fid) (fun _ => coherent (D ∖ {[fid]})).
Proof.
  unfold republish. apply triple_read. intros s Hs.
  destruct (dget (files_by_id s) fid) as [r|] eqn:Er.
  - pose proof (ix_keys s (ro_index s (so_roots s (proj1 Hs))) _ _ Er) as Hid.
    eapply triple_bind.
    { eapply triple_conseq; [apply (refresh_coherent D fid r None c ctx)| |done]. by intros ? ->. }
    intros p. apply (triple_bind _ _ (fun _ => coherent (D ∖ {[fid]}))).
    { eapply triple_conseq; [apply (coherent_frame (D ∖ {[fid]})); eauto with within returns
        | by intros ? [? _] | done]. }
    intros vs. eapply triple_bind; [apply coherent_frame; [|auto with within]|intros ?].
    { apply notify_correction_returns. by intros ? [= <-]. }
    apply coherent_frame; eauto with within returns.
  - eapply triple_conseq; [apply (coherent_frame (D ∖ {[fid]})); [|auto with within]| |done].
    { by apply notify_correction_returns. }
    intros ? ->. destruct Hs as [Hs Hc]. split; [done|]. intros f Hf r Hr.
    destruct (decide (f = fid)) as [->|]; [congruence|]. apply Hc; [set_solver | done].
Qed.

(** Publishing all of a list leaves only what was outside it to publish. *)
Lemma republish_all_coherent c ctx D (l : list string) :
  triple (coherent (D ∪ list_to_set l)) (mfor l (fun fid => republish c (ctx fid) fid))
    (fun _ => coherent D).
Proof.
  eapply triple_conseq; [apply (triple_mfor (fun l => coherent (D ∪ list_to_set l))) | done |].
  - intros x l' _. eapply triple_conseq; [apply republish_coherent | done |].
    intros u s. apply coherent_mono. set_solver.
  - intros u s. apply coherent_mono. set_solver.
Qed.

(** ** Overlay operations *)

(** Installing other overlays leaves the roots whose overlay changed to
    publish. *)
Lemma install_overlays D C (g : dict string overlay -> dict string overlay) s :
  coherent D s -> dwf (g (overlays s)) ->
  (forall fid o, dget (g (overlays s)) fid = Some o -> overlay_valid o = true) ->
  (forall fid, fid ∉ C -> dget (g (overlays s)) fid = dget (overlays s) fid) ->
  coherent (D ∪ C) (upd_overlays g s).
Proof.
  intros [[] Hc] Hwf Hv Hch. split.
  - split; try done. apply (roots_ok_unchanged s); [reflexivity|done].
  - intros fid Hfid r Hr. simpl in *. rewrite Hch by set_solver. apply Hc; [set_solver|done].
Qed.

Lemma triple_seq {A} (P Q : model -> Prop) (m : st model unit) (k : st model A) R :
  triple P m (fun _ => Q) -> triple Q k R -> triple P (m;; k) R.
Proof. intros Hm Hk. eapply triple_bind; [exact Hm|]. intros ?. exact Hk. Qed.

(** The updates of the bookkeeping fields. *)
Ltac off_view := apply coherent_frame; [apply returns_modify | frame_modify].

Lemma drop_overlay_coherent D fid :
  triple (coherent D) (drop_overlay fid) (fun _ => coherent (D ∪ {[fid]})).
Proof.
  unfold drop_overlay. eapply triple_seq; [apply triple_modify|].
  { intros s Hs. apply (install_overlays D {[fid]}); [done| | |].
    - apply dwf_dpop, Hs.
    - intros f o. rewrite dget_dpop by apply Hs. case_decide; [done|]. apply Hs.
    - intros f Hf. apply dget_dpop_ne. set_solver. }
  eapply triple_seq; off_view.
Qed.

Lemma clear_coherent D ctx p :
  triple (coherent D) (clear_active_progress_overlays ctx p) (fun _ => coherent D).
Proof.
  unfold clear_active_progress_overlays. apply triple_read. intros s0 Hs0.
  destruct (negb _); [by apply triple_mret; intros ? ->|].
  apply triple_read. intros ? ->.
  eapply (triple_seq _ (coherent (D ∪ dkeyset (overlays s0)))).
  { apply triple_modify. intros ? ->. apply install_overlays; [done|apply dwf_nil|done|].
    intros fid Hfid. rewrite elem_of_dkeyset in Hfid. symmetry. by apply eq_None_not_Some. }
  do 2 (eapply triple_seq; [off_view|]).
  eapply triple_conseq; [apply (republish_all_coherent _ (fun fid => _) D) | | done].
  intros s. apply coherent_mono. intros x. rewrite elem_of_union, elem_of_union, elem_of_list_to_set,
    elem_of_sorted_ids. auto.
Qed.

Lemma drop_all_coherent D l :
  triple (coherent D) (mfor l drop_overlay) (fun _ => coherent (D ∪ list_to_set l)).
Proof.
  revert D. induction l as [|x l IH]; intros D; simpl.
  - apply triple_mret. intros s. apply coherent_mono. set_solver.
  - eapply triple_seq; [apply drop_overlay_coherent|]. eapply triple_weaken; [apply IH|].
    intros u s. apply coherent_mono. set_solver.
Qed.

(** Republishing a set of roots, in identifier order. *)
Lemma republish_set_coherent c D X :
  triple (coherent (D ∪ X)) (mfor (sorted_ids X) (republish c None)) (fun _ => coherent D).
Proof.
  eapply triple_conseq; [apply (republish_all_coherent c (fun _ => None) D) | | done].
  intros s. apply coherent_mono. intros x. rewrite !elem_of_union, elem_of_list_to_set, elem_of_sorted_ids.
  auto.
Qed.

Lemma clear_except_coherent D X :
  triple (coherent D) (clear_active_progress_overlays_except X) (fun _ => coherent D).
Proof.
  unfold clear_active_progress_overlays_except. apply triple_read. intros s Hs.
  eapply (triple_seq _ (coherent (D ∪ (dkeyset (overlays s) ∖ X)))).
  { eapply triple_conseq; [apply (drop_all_coherent D)|by intros ? ->|].
    intros u s'. apply coherent_mono. intros x. rewrite !elem_of_union, elem_of_list_to_set, elem_of_elements.
    auto. }
  eapply triple_seq; [apply republish_set_coherent|]. by apply triple_mret.
Qed.

Lemma clear_matches_coherent D fid i :
  triple (coherent D) (clear_active_progress_overlay_if_job_identity_matches fid i)
    (fun _ => coherent D).
Proof.
  unfold clear_active_progress_overlay_if_job_identity_matches. apply triple_read. intros s Hs.
  case_bool_decide; [by apply triple_mret; intros ? ->|]. apply triple_read. intros ? ->.
  destruct (negb _); [by apply triple_mret; intros ? ->|].
  eapply triple_seq; [eapply triple_conseq; [apply (drop_overlay_coherent D)|by intros ? ->|done]|].
  eapply triple_seq; [eapply triple_weaken; [apply republish_coherent|]|by apply triple_mret].
  intros u s'. apply coherent_mono. set_solver.
Qed.

(** Installation of a normalized set of overlays with the changed roots
    published again: shared by the operations that install a batch. *)
Lemma install_batch_coherent {A} D s new ids (g : dict string Z -> dict string Z) c (a : A) :
  coherent D s -> dwf new -> (forall fid o, dget new fid = Some o -> overlay_valid o = true) ->
  triple (fun s' => s' = s)
    (modify (upd_overlays (fun _ => new));; modify (upd_overlay_ids (fun _ => ids));;
     modify (upd_overlay_epochs g);;
     mfor (sorted_ids (changed_overlays s new ids)) (republish c None);; mret a)
    (fun _ => coherent D).
Proof.
  intros Hs Hwf Hv. eapply (triple_seq _ (coherent (D ∪ changed_overlays s new ids))).
  { apply triple_modify. intros ? ->. apply install_overlays; [done..|].
    intros fid Hfid. unfold changed_overlays in Hfid.
    rewrite elem_of_filter, elem_of_union, !elem_of_dkeyset in Hfid.
    destruct (decide (dget (overlays s) fid = dget new fid)) as [->|Hne]; [done|].
    destruct (dget new fid) eqn:E1, (dget (overlays s) fid) eqn:E2; try done;
      exfalso; apply Hfid; (split; [left; congruence|]); eauto. }
  do 2 (eapply triple_seq; [off_view|]). eapply triple_seq; [apply republish_set_coherent|].
  by apply triple_mret.
Qed.

Definition overlays_valid (l : list (string * overlay)) : bool := forallb (fun x => overlay_valid x.2) l.

Lemma overlays_valid_elem l fid o : overlays_valid l = true -> (fid, o) ∈ l -> overlay_valid o = true.
Proof.
  unfold overlays_valid. rewrite forallb_forall. intros H Hin%list_elem_of_In. by apply (H (fid, o)).
Qed.

Lemma restore_coherent D new ids : overlays_valid new = true ->
  triple (coherent D) (restore_active_progress_overlays new ids) (fun _ => coherent D).
Proof.
  intros Hv. unfold restore_active_progress_overlays. apply triple_read. intros s Hs.
  apply triple_read. intros ? ->. apply install_batch_coherent; [done|apply dwf_dfrom|].
  intros fid o Ho. apply dget_dupdate_inv in Ho as [Ho|Ho]; [done|].
  apply list_elem_of_fmap in Ho as ([f [o' i]] & [= -> ->] & Hin).
  apply elem_of_filter_map in Hin as ([f0 o0] & Hin & Hf). simpl.
  assert (o0 = o') as <- by (by repeat case_match; simplify_eq).
  by eapply overlays_valid_elem.
Qed.

Lemma monotone_counter_valid (lo : Z -> bool) a b :
  (forall z w, lo z = true -> lo w = true -> lo (Z.max z w) = true) ->
  match a with Some z => lo z | None => true end = true ->
  match b with Some z => lo z | None => true end = true ->
  match monotone_counter a b with Some z => lo z | None => true end = true.
Proof. intros Hmax. destruct a as [z|], b as [w|]; simpl; try done. destruct (0 <? z); auto. Qed.

Lemma merge_overlay_valid o prior :
  overlay_valid o = true -> overlay_valid prior = true -> overlay_valid (merge_overlay o prior) = true.
Proof.
  unfold overlay_valid, merge_overlay. rewrite !andb_true_iff. simpl.
  intros (((H1 & H2) & H3) & H4) (((P1 & P2) & _) & _). split_and!; try done.
  - apply (monotone_counter_valid (fun z => (0 <=? z) && (z <=? 100))); [lia|done..].
  - apply (monotone_counter_valid (fun z => 0 <=? z)); [lia|done..].
Qed.

Definition admission_valid (acc : admission) : Prop :=
  dwf (ad_overlays acc) /\ forall fid o, dget (ad_overlays acc) fid = Some o -> overlay_valid o = true.

Lemma admit_row_valid s ids m e acc fid o acc' :
  sound s -> overlay_valid o = true -> admission_valid acc ->
  admit_row s ids m e acc fid o = Next acc' -> admission_valid acc'.
Proof.
  intros Hs Hv [Hwf Ha]. unfold admit_row.
  destruct (dget ids fid) as [i|]; [|done]. destruct (dget (files_by_id s) fid) as [r|]; [|done].
  repeat (match goal with |- (if ?b then _ else _) = _ -> _ => destruct b end; try done).
  { intros [= <-]. done. }
  intros [= <-]. split; simpl; [by apply dwf_dset|]. intros f o'. rewrite dget_dset. case_decide; [|apply Ha].
  intros [= <-]. destruct (dget (overlay_ids s) fid); [|done].
  destruct (dget (overlays s) fid) as [prior|] eqn:Ep; [|done].
  apply merge_overlay_valid; [done|]. by eapply so_overlays.
Qed.

Lemma admit_rows_valid s ids m e acc rows acc' :
  sound s -> overlays_valid rows = true -> admission_valid acc ->
  admit_rows s ids m e acc rows = Next acc' -> admission_valid acc'.
Proof.
  intros Hs. revert acc. induction rows as [|[fid o] rows IH]; simpl; intros acc Hv Ha.
  { by intros [= <-]. }
  apply andb_true_iff in Hv as [Ho Hv]. destruct (admit_row _ _ _ _ _ _ _) eqn:E; [done|].
  apply IH; [done|]. by eapply admit_row_valid.
Qed.

Lemma publish_coherent D new ids m e : overlays_valid new = true ->
  triple (coherent D) (publish_active_lftp_root_counters new ids m e) (fun _ => coherent D).
Proof.
  intros Hv. unfold publish_active_lftp_root_counters. apply triple_read. intros s Hs.
  destruct (admit_rows _ _ _ _ _ _) as [reason|acc] eqn:E.
  - eapply triple_seq; [eapply triple_conseq; [apply (clear_coherent D)|by intros ? ->|done]|].
    by apply triple_mret.
  - eapply admit_rows_valid in E as [Hwf Ha]; [|apply Hs|done|by split; [apply dwf_nil|]].
    destruct (ad_rejected acc).
    + eapply triple_seq; [|by apply triple_mret].
      eapply triple_conseq; [apply (triple_mfor_inv (coherent D)) | by intros ? -> | done].
      intros fid _. destruct (dget _ _); [|by apply triple_mret].
      eapply triple_bind; [apply clear_matches_coherent|]. intros ?. by apply triple_mret.
    + apply triple_read. intros ? ->. by apply install_batch_coherent.
Qed.

(** ** Operations on roots *)

Lemma full_effective_returns r :
  triple (fun s => forall o, dget (overlays s) (file_id r) = Some o -> overlay_valid o = true)
    (full_effective_file r) (fun _ _ => True).
Proof.
  unfold full_effective_file. apply triple_read. intros s Hs ? ->.
  destruct (dget (overlays s) (file_id r)) as [o|]; [|by do 2 eexists].
  destruct (apply_overlay_ok (ref_file r) o (Hs o eq_refl)) as (p & E & _).
  unfold lift. rewrite E. by do 2 eexists.
Qed.

Lemma full_effective_coherent D r :
  triple (coherent D) (full_effective_file r) (fun _ => coherent D).
Proof.
  intros s Hs. destruct (full_effective_returns r s) as (a & s' & E & _).
  { intros o. apply Hs. }
  exists a, s'. split; [done|]. eapply coherent_view; [|exact Hs].
  pose proof (full_effective_view r s) as H. by rewrite E in H.
Qed.

Lemma emit_all_coherent {A} D (l : list A) (f : A -> event) :
  triple (coherent D) (mfor l (fun x => emit (f x))) (fun _ => coherent D).
Proof. apply coherent_frame; [returns_auto | within_auto]. Qed.

Definition root_valid (r : fileref) : Prop := proper_root r = true /\ node_wf (ref_file r).

Lemma index_file_coherent D r : root_valid r ->
  triple (fun s => coherent D s /\ dget (files_by_id s) (file_id r) = None) (index_file r)
    (fun _ s => coherent (D ∪ {[file_id r]}) s /\ dget (files_by_id s) (file_id r) = Some r).
Proof.
  intros [Hp Hw] s [[[] Hc] Hn]. exists tt, (index_file r s).2. split; [done|].
  pose proof (index_file_spec r (fun _ => True) Hp s (conj so_roots0 Hn)) as Hr.
  change (roots_ok (index_file r s).2) in Hr. simpl in *. split; [split|apply dget_dset_eq].
  - split; simpl; try done.
    + intros fid q. rewrite dget_dset. case_decide; [naive_solver|]. apply so_wf0.
    + intros fid Hfid. rewrite dget_dset. case_decide; [by eexists|]. by apply so_published0.
  - intros fid Hfid q. simpl. rewrite dget_dset_ne by set_solver. apply Hc. set_solver.
Qed.

Lemma add_file_coherent D r i : root_valid r ->
  spec (coherent D) (add_file r i) (fun _ => coherent D) (coherent D).
Proof.
  intros Hr. unfold add_file. eapply spec_bind; [apply triple_spec, clear_coherent|]. intros ?.
  apply spec_gets. intros s Hs. destruct (dhas _ _) eqn:E; [by intros ? ->|]. apply dhas_false in E.
  apply triple_spec. eapply triple_bind.
  { eapply triple_conseq; [by apply (index_file_coherent D)|by intros ? ->|done]. }
  intros ?. eapply triple_bind; [apply refresh_coherent|]. intros p.
  apply (triple_pre _ (coherent D)); [|intros s' [Hc _]; revert Hc; apply coherent_mono; set_solver].
  apply triple_read. intros s1 Hs1. eapply (triple_bind _ _ (fun _ => coherent D)).
  { destruct (listeners s1); [by apply triple_mret; intros ? ->|].
    eapply triple_bind; [eapply triple_conseq; [apply (full_effective_coherent D)|by intros ? ->|done]|].
    intros f. by apply triple_mret. }
  intros legacy. apply coherent_frame; [returns_auto | within_auto].
Qed.

(** Removal of a stored root. *)
Lemma unindex_coherent D fid r :
  triple (fun s => coherent D s /\ dget (files_by_id s) fid = Some r)
    (unindex_file r fid;; modify (upd_published_files (fun d => dpop d fid)))
    (fun _ s => coherent D s /\ dget (files_by_id s) fid = None).
Proof.
  intros s [[[] Hc] Hr].
  destruct (unindex_file_ok s r fid (ro_index s so_roots0) Hr) as (s' & E & Hi & Hf).
  assert (Hv : overlays s' = overlays s /\ published_files s' = published_files s).
  { unfold unindex_file, mbind, st_bind, modify, gets in E. simpl in E.
    repeat (case_match; simplify_eq/=; try done). }
  destruct Hv as [Ho Hp]. eexists tt, _. split; [by rewrite (st_bind_ok _ _ _ _ _ E)|]. simpl.
  assert (Hdf : forall f, dget (files_by_id s') f = if decide (fid = f) then None else dget (files_by_id s) f).
  { intros f. rewrite Hf. apply dget_dpop, so_roots0. }
  split; [|rewrite Hdf; by rewrite decide_True]. split.
  - split; simpl; rewrite ?Ho, ?Hp; try done.
    + apply (roots_ok_unchanged s'); [done|]. split; [done|]. intros f q. rewrite Hdf.
      case_decide; [done|]. apply so_roots0.
    + intros f q. rewrite Hdf. case_decide; [done|]. apply so_wf0.
    + by apply dwf_dpop.
    + intros f. rewrite Hdf, dget_dpop by done. case_decide; [by intros []|]. apply so_published0.
  - intros f Hfd q. simpl. rewrite Hdf, Ho, Hp, dget_dpop by done. case_decide; [done|]. by apply Hc.
Qed.

Lemma coherent_absent D fid s :
  coherent (D ∪ {[fid]}) s -> dget (files_by_id s) fid = None -> coherent D s.
Proof.
  intros [Hs Hc] Hn. split; [done|]. intros f Hf r Hr. apply Hc; [|done].
  intros [?|Hx]%elem_of_union; [done|]. apply elem_of_singleton in Hx. congruence.
Qed.

(** Facts about the roots survive code that leaves the roots alone. *)
Definition at_root (D : gset string) (fid : string) (o : option fileref) (s : model) : Prop :=
  coherent D s /\ dget (files_by_id s) fid = o.

Lemma at_root_frame {A} D fid o (m : st model A) :
  triple (coherent D) m (fun _ => coherent D) -> within (unchanged index) m ->
  triple (at_root D fid o) m (fun _ => at_root D fid o).
Proof.
  intros Hm Hw s [Hs Hr]. destruct (Hm s Hs) as (a & s' & E & Hs'). exists a, s'. split; [done|].
  split; [done|]. specialize (Hw s). rewrite E in Hw. unfold unchanged, index in Hw. simpl in Hw.
  congruence.
Qed.

Ltac at_root_step := eapply triple_bind; [apply at_root_frame|intros ?].

Lemma remove_file_coherent D k : spec (coherent D) (remove_file k) (fun _ => coherent D) (coherent D).
Proof.
  unfold remove_file. eapply spec_bind; [apply triple_spec, clear_coherent|]. intros ?.
  apply spec_gets. intros s Hs. destruct (resolve_file_id s k) as [fid|e]; [|by intros ? ->].
  apply spec_lift; [done|]. intros f [= <-]. unfold get_ref at 1.
  eapply (spec_bind _ _ (fun r => at_root D fid (Some r))).
  { apply spec_gets. intros ? ->. destruct (dget (files_by_id s) fid) as [r|] eqn:E; by intros ? ->. }
  intros r. apply triple_spec. apply triple_read. intros s1 Hs1.
  apply (triple_pre _ (at_root D fid (Some r))); [|by intros ? ->].
  eapply (triple_bind _ _ (fun _ => at_root D fid (Some r))).
  { destruct (negb _); simpl; [|by apply triple_mret].
    eapply triple_bind; [apply refresh_coherent|]. intros p. apply triple_mret.
    intros s' [Hc [Hf _]]. split; [|done]. revert Hc. apply coherent_mono. set_solver. }
  intros ?. at_root_step; [apply full_effective_coherent|auto with within|].
  apply triple_assoc. eapply triple_bind; [apply unindex_coherent|]. intros ?.
  apply triple_read. intros s2 Hs2. apply (triple_pre _ (at_root D fid None)); [|by intros ? ->].
  at_root_step; [off_view|frame_modify|].
  at_root_step; [apply coherent_frame; [returns_auto | within_auto] | within_auto |].
  eapply (triple_bind _ _ (fun _ => coherent D)).
  { intros s3 [Hs3 Hn]. destruct (drop_overlay_coherent D fid s3 Hs3) as (u & s4 & E & Hs4).
    exists u, s4. split; [done|]. eapply coherent_absent; [done|].
    pose proof (drop_overlay_index fid s3) as Hi. rewrite E in Hi. unfold unchanged, index in Hi.
    simpl in Hi. congruence. }
  intros ?. apply coherent_frame; [returns_auto | within_auto; frame_modify].
Qed.

Lemma with_fallback_valid s r r' : root_valid r -> with_fallback s r = Ok r' -> root_valid r'.
Proof.
  intros [Hp Hw] E. pose proof (with_fallback_same s r r' E) as (_ & _ & Hp').
  split; [congruence|]. revert E. unfold with_fallback.
  destruct (dget _ _) as [fb|], (local_size (ref_file r)) as [ls|]; try by intros [= <-].
  destruct (_ && _ && _); [|by intros [= <-]].
  destruct (set_transferred_size _ _) as [f'|] eqn:E; [|done]. intros [= <-].
  by apply (set_prop_wf P_transferred_size (ref_file r) (PyInt fb)).
Qed.

(** Storing a valid root in place of another. *)
Lemma store_coherent D r s : root_valid r -> coherent D s ->
  is_Some (dget (files_by_id s) (file_id r)) ->
  coherent (D ∪ {[file_id r]}) (upd_files_by_id (fun d => dset d (file_id r) r) s).
Proof.
  intros [Hp Hw] [[] Hc] Hsome. split.
  - split; simpl; try done.
    + by apply replace_root_ok.
    + intros fid q. rewrite dget_dset. case_decide; [naive_solver|]. apply so_wf0.
    + intros fid Hfid. rewrite dget_dset. case_decide; [by eexists|]. by apply so_published0.
  - intros fid Hfid q. simpl. rewrite dget_dset_ne by set_solver. apply Hc. set_solver.
Qed.

Lemma write_object_coherent D r : root_valid r ->
  triple (coherent D) (write_object r) (fun _ => coherent (D ∪ {[file_id r]})).
Proof.
  intros Hr. apply triple_modify. intros s Hs.
  destruct (dget (files_by_id s) (file_id r)) as [old|] eqn:E; cycle 1.
  { eapply coherent_view; [|eapply coherent_mono; [|exact Hs]; set_solver].
    unfold unchanged, viewstate, index; simpl. by rewrite E. }
  destruct (Nat.eqb (ref_oid old) (ref_oid r)) eqn:Eo; cycle 1.
  { eapply coherent_view; [|eapply coherent_mono; [|exact Hs]; set_solver].
    unfold unchanged, viewstate, index; simpl. by rewrite E, Eo. }
  eapply coherent_view; [|apply (store_coherent D r s Hr Hs); by exists old].
  unfold unchanged, viewstate, index; simpl. by rewrite E, Eo.
Qed.

Lemma retire_candidate_coherent D r : file_id r ∈ D ->
  triple (coherent D) (retire_active_projection_for_candidate r) (fun _ => coherent D).
Proof.
  intros Hin. unfold retire_active_projection_for_candidate. apply triple_read. intros s Hs.
  apply triple_read. intros ? ->. destruct (_ || _); [by apply triple_mret; intros ? ->|].
  destruct (negb _); simpl; [|by apply triple_mret; intros ? ->].
  eapply triple_conseq; [apply (drop_overlay_coherent D)|by intros ? ->|].
  intros u s'. apply coherent_mono. set_solver.
Qed.

Lemma update_file_coherent D r0 i ctx : root_valid r0 ->
  spec (coherent D) (update_file r0 i ctx) (fun _ => coherent D) (coherent D).
Proof.
  intros Hr0. unfold update_file. apply spec_gets. intros s Hs.
  apply spec_lift; [by intros e _ ? ->|]. intros r Er. apply with_fallback_valid in Er as Hr; [|done].
  eapply (spec_bind _ _ (fun _ => coherent (D ∪ {[file_id r]}))).
  { apply triple_spec. apply (triple_pre _ (coherent D)); [by apply write_object_coherent|by intros ? ->]. }
  intros ?. eapply spec_bind; [apply triple_spec, retire_candidate_coherent; set_solver|]. intros ?.
  eapply spec_bind; [apply triple_spec, clear_coherent|]. intros ?.
  apply spec_gets. intros s1 Hs1. destruct (dget _ _) as [old|] eqn:Eo; cycle 1.
  { intros ? ->. simpl. by eapply coherent_absent. }
  apply triple_spec. apply (triple_pre _ (at_root (D ∪ {[file_id r]}) (file_id r) (Some old))); [|by intros ? ->].
  apply triple_read. intros s2 Hs2. apply (triple_pre _ (at_root (D ∪ {[file_id r]}) (file_id r) (Some old))); [|by intros ? ->].
  eapply (triple_bind _ _ (fun _ => at_root (D ∪ {[file_id r]}) (file_id r) (Some old))).
  { destruct (negb _); simpl; [|by apply triple_mret].
    eapply triple_bind; [apply refresh_coherent|]. intros p. apply triple_mret.
    intros s' [Hc [Hf _]]. split; [|done]. revert Hc. apply coherent_mono. set_solver. }
  intros ?. at_root_step; [apply full_effective_coherent|auto with within|].
  eapply (triple_bind _ _ (fun _ => at_root (D ∪ {[file_id r]}) (file_id r) (Some r))).
  { apply triple_modify. intros s3 [Hs3 Hf]. split; [|apply dget_dset_eq].
    eapply coherent_mono; [|apply (store_coherent _ r s3 Hr Hs3); by eexists]. set_solver. }
  intros ?. eapply triple_bind; [apply refresh_coherent|]. intros p.
  apply (triple_pre _ (coherent D)); [|intros s' [Hc _]; revert Hc; apply coherent_mono; set_solver].
  eapply triple_bind; [apply full_effective_coherent|]. intros legacy.
  apply coherent_frame; [returns_auto | within_auto].
Qed.

(** ** Transactions *)

(** What a call preserves: coherence outside every set of roots. *)
Definition coheres : relation model := fun s s' => forall D, coherent D s -> coherent D s'.

#[export] Instance coheres_preorder : PreOrder coheres.
Proof. split; [by intros s D | intros a b c H1 H2 D H; auto]. Qed.

Lemma within_coheres {A} (m : st model A) :
  within coheres m <-> forall D, spec (coherent D) m (fun _ => coherent D) (coherent D).
Proof.
  split.
  - intros H D. apply spec_within. intros s Hs. by apply H.
  - intros H s D Hs. specialize (H D s Hs). by destruct (m s) as [[]].
Qed.

Lemma coheres_triple {A} (m : st model A) :
  (forall D, triple (coherent D) m (fun _ => coherent D)) -> within coheres m.
Proof. intros H. apply within_coheres. intros D. by apply triple_spec. Qed.

Lemma begin_retirement_coherent D fid :
  triple (coherent D) (begin_retirement fid) (fun _ => coherent (D ∪ {[fid]})).
Proof.
  unfold begin_retirement. apply triple_read. intros s Hs.
  apply (triple_bind _ _ (fun _ => coherent D)).
  { apply (triple_pre _ (coherent D)); [|by intros ? ->].
    apply coherent_frame; [returns_auto | within_auto; frame_modify]. }
  intros ?. eapply triple_seq; [apply drop_overlay_coherent|].
  eapply triple_seq; off_view.
Qed.

Lemma begin_all_coherent D l :
  triple (coherent D) (mfor l begin_retirement) (fun _ => coherent (D ∪ list_to_set l)).
Proof.
  revert D. induction l as [|x l IH]; intros D; simpl.
  - apply triple_mret. intros s. apply coherent_mono. set_solver.
  - eapply triple_seq; [apply begin_retirement_coherent|]. eapply triple_weaken; [apply IH|].
    intros u s. apply coherent_mono. set_solver.
Qed.

Lemma publish_retired_coherent D fid :
  triple (coherent D) (publish_retired fid) (fun _ => coherent (D ∖ {[fid]})).
Proof.
  unfold publish_retired. apply triple_read. intros s Hs.
  destruct (dget (files_by_id s) fid) as [r|] eqn:Er; cycle 1.
  { apply triple_mret. intros ? ->. apply (coherent_absent _ fid); [|done].
    revert Hs. apply coherent_mono. intros x. destruct (decide (x = fid)); set_solver. }
  apply triple_read. intros ? ->. eapply triple_bind.
  { eapply triple_pre; [apply (refresh_coherent D fid r)|by intros ? ->]. }
  intros p. apply (triple_pre _ (coherent (D ∖ {[fid]}))); [|by intros ? [? _]].
  apply coherent_frame; [returns_auto | within_auto].
Qed.

Lemma publish_all_retired_coherent D l :
  triple (coherent (D ∪ list_to_set l)) (mfor l publish_retired) (fun _ => coherent D).
Proof.
  eapply triple_weaken; [apply (triple_mfor (fun l => coherent (D ∪ list_to_set l)))|].
  - intros x l' _. eapply triple_weaken; [apply publish_retired_coherent|].
    intros u s. apply coherent_mono. set_solver.
  - intros u s. apply coherent_mono. set_solver.
Qed.

Lemma retained_coherent {A} (m : st model A) X :
  within coheres m -> within coheres (apply_with_active_progress_retained m X).
Proof.
  rewrite !within_coheres. intros Hm D. unfold apply_with_active_progress_retained.
  apply spec_gets. intros s Hs. apply spec_lift; [by intros e _ ? ->|]. intros before _.
  apply (spec_bind _ _ (fun _ => coherent (D ∪ X))).
  { apply triple_spec. eapply triple_conseq; [apply (begin_all_coherent D)|by intros ? ->|].
    intros u s'. apply coherent_mono. intros x.
    rewrite !elem_of_union, elem_of_list_to_set, elem_of_elements. auto. }
  intros ?. apply (spec_bind _ _ (fun _ => coherent (D ∪ X))); [apply triple_spec; off_view|]. intros ?.
  assert (Hfin : triple (coherent (D ∪ X))
    (modify (upd_suppress_clear (fun n => n - 1));;
     mfor (sorted_ids X) publish_retired;;
     mfor before (fun kf => remember_correction kf.1 kf.2);;
     mfor (elements X) (fun fid => modify (upd_retiring_ids (fun d => dpop d fid))))
    (fun _ => coherent D)).
  { eapply triple_seq; [off_view|]. eapply triple_seq.
    { eapply triple_pre; [apply (publish_all_retired_coherent D)|]. intros s'. apply coherent_mono. intros x.
      rewrite !elem_of_union, elem_of_list_to_set, elem_of_sorted_ids. auto. }
    unfold remember_correction. apply coherent_frame; [returns_auto | within_auto; frame_modify]. }
  eapply spec_mfinally; [apply Hm|by intros ?|done].
Qed.

(** ** Authoritative replacement *)

(** Speeds and etas the setters accept. *)
Definition status_valid (j : LftpJobStatus) : bool :=
  match speed (total_transfer_state j) with Some z => 0 <=? z | None => true end &&
  match t_eta (total_transfer_state j) with Some z => 0 <=? z | None => true end.

Lemma node_wf_int f q z : node_wf f -> optional_prop q = false -> get_prop q f = PyInt z ->
  prop_error q (PyInt z) = None.
Proof. intros Hw Ho E. rewrite <- E. destruct (node_wf_prop_ok f q Hw); congruence. Qed.

Lemma as_int_spec v z : as_int v = Some z -> v = PyInt z.
Proof. destruct v; simpl; congruence. Qed.

Lemma refreshed_overlay_valid o f j :
  node_wf f -> overlay_valid o = true -> status_valid j = true ->
  overlay_valid (refreshed_overlay o f (total_transfer_state j)) = true.
Proof.
  unfold overlay_valid, status_valid, refreshed_overlay. rewrite !andb_true_iff. simpl.
  intros Hw (((H1 & H2) & H3) & H4) [S1 S2].
  assert (Hint : forall q v z, as_int v = Some z -> get_prop q f = v -> optional_prop q = false ->
    prop_error q (PyInt z) = None).
  { intros q v z ->%as_int_spec Hq Ho. by eapply node_wf_int. }
  split_and!.
  - destruct (as_int (download_progress f)) as [n|] eqn:E; [|done].
    pose proof (Hint P_download_progress _ _ E eq_refl eq_refl) as Hn. simpl in Hn.
    destruct (decide (0 <= n <= 100)); [|done].
    destruct (o_download_progress o); repeat case_match; simplify_eq; lia.
  - destruct (as_int (transferred_size f)) as [n|] eqn:E; [|done].
    pose proof (Hint P_transferred_size _ _ E eq_refl eq_refl) as Hn. simpl in Hn.
    destruct (decide (n < 0)); [done|].
    destruct (o_transferred_size o); repeat case_match; simplify_eq; lia.
  - destruct (as_int (downloading_speed f)) as [n|] eqn:E; [|done].
    pose proof (Hint P_downloading_speed _ _ E eq_refl eq_refl) as Hn. simpl in Hn.
    destruct (decide (n < 0)); [done|lia].
  - destruct (as_int (eta f)) as [n|] eqn:E; [|done].
    pose proof (Hint P_eta _ _ E eq_refl eq_refl) as Hn. simpl in Hn.
    destruct (decide (n < 0)); [done|lia].
Qed.

Lemma settle_coherent D statuses retire replaced fid o :
  (forall j, dget statuses fid = Some j -> status_valid j = true) -> overlay_valid o = true ->
  triple (coherent D) (settle_overlay statuses retire replaced fid o) (fun _ => coherent D).
Proof.
  intros Hst Hv. unfold settle_overlay. apply triple_read. intros s Hs.
  case_bool_decide; [by apply triple_mret; intros ? ->|].
  destruct (dget statuses fid) as [j|] eqn:Ej; [|by apply triple_mret; intros ? ->].
  destruct (dget (files_by_id s) fid) as [r|] eqn:Er; [|by apply triple_mret; intros ? ->].
  pose proof (ix_keys s (ro_index s (so_roots s (proj1 Hs))) _ _ Er) as Hid.
  destruct (bool_decide _ && _).
  - apply triple_read. intros ? ->. destruct (dget (overlay_ids s) fid); [|by apply triple_mret; intros ? ->].
    eapply triple_bind; [eapply triple_pre; [apply (clear_matches_coherent D)|by intros ? ->]|].
    intros ?. by apply triple_mret.
  - case_bool_decide; [by apply triple_mret; intros ? ->|].
    apply (triple_bind _ _ (fun _ => at_root (D ∪ {[fid]}) fid (Some r))).
    { apply triple_modify. intros ? ->. split; [|done]. apply install_overlays; [done|by apply dwf_dset, Hs| |].
      - intros f o'. rewrite dget_dset. case_decide; [|apply Hs]. intros [= <-].
        apply refreshed_overlay_valid; [eapply Hs; done|done|by apply Hst].
      - intros f Hf. apply dget_dset_ne. set_solver. }
    intros ?. eapply triple_bind; [apply refresh_coherent|]. intros p.
    apply (triple_pre _ (coherent D)); [|intros s' [Hc _]; revert Hc; apply coherent_mono; set_solver].
    eapply triple_bind; [apply coherent_frame; auto with returns within|]. intros vs.
    eapply triple_bind; [apply coherent_frame; [|auto with within]|intros ?].
    { apply notify_correction_returns. by intros ? [= <-]. }
    apply coherent_frame; auto with returns within.
Qed.

Definition statuses_valid (statuses : dict string LftpJobStatus) : bool :=
  forallb (fun x => status_valid x.2) statuses.

Lemma replacement_coherent {A} (m : st model A) statuses e : statuses_valid statuses = true ->
  within coheres m -> within coheres (apply_authoritative_root_replacement m statuses e).
Proof.
  intros Hst Hm.
  apply within_coheres. intros D. unfold apply_authoritative_root_replacement.
  apply spec_gets. intros s Hs. apply spec_gets. intros ? ->. apply spec_gets. intros ? ->.
  apply (spec_pre _ (coherent D)); [|by intros ? ->].
  eapply spec_bind; [apply triple_spec; off_view|]. intros ?.
  apply (spec_bind _ _ (fun _ => coherent D)).
  { eapply spec_mfinally.
    - eapply spec_bind; [apply triple_spec; off_view|]. intros ?. eapply spec_mfinally.
      + apply within_coheres. by apply retained_coherent.
      + intros ?. off_view.
      + off_view.
    - intros ?. off_view.
    - off_view. }
  intros res. apply spec_gets. intros s1 Hs1. apply spec_gets. intros ? ->. apply triple_spec.
  eapply triple_bind; [apply (triple_pre _ (coherent D)); [apply triple_mfor_inv|by intros ? ->]|].
  - intros [fid o] Hin. apply settle_coherent.
    + intros j Hj%dget_Some_elem_of. unfold statuses_valid in Hst. rewrite forallb_forall in Hst.
      by apply (Hst (fid, j)), list_elem_of_In.
    + apply dget_elem_of in Hin; [|apply Hs1]. by eapply so_overlays; [apply Hs1|].
  - intros ?. by apply triple_mret.
Qed.

(** ** Live models *)

(** The calls made on a live model: valid roots and overlays; candidates are
    composed elsewhere, and wholesale overlay replacement is left to callers
    that name every changed root. *)
Fixpoint op_live (o : op) : Prop :=
  let all := fix all (l : list op) : Prop :=
    match l with [] => True | o :: l' => op_live o /\ all l' end in
  match o with
  | OAdd r _ | OUpdate r _ _ => root_valid r
  | OInsertCandidate _ | OReplaceOverlays _ _ => False
  | ORestore new _ | OPublish new _ _ _ => overlays_valid new = true
  | ORetained l _ => all l
  | OReplacement l statuses _ => all l /\ statuses_valid statuses = true
  | _ => True
  end.

Lemma op_live_body o : op_live o ->
  match o with ORetained l _ | OReplacement l _ _ => Forall op_live l | _ => True end.
Proof.
  destruct o; try done; simpl; [|intros [H _]; revert H]; induction body as [|o l IH]; simpl;
    intros H; [apply Forall_nil_2|destruct H; apply Forall_cons_2; auto|apply Forall_nil_2
              |destruct H; apply Forall_cons_2; auto].
Qed.

Lemma run_op_coheres o : op_live o -> within coheres (run_op o).
Proof.
  apply (run_op_within _ op_live op_live_body). clear o. intros o Ho.
  destruct o; simpl in Ho; cbn [run_op]; try done;
    try (apply within_bind; [exact _| |intros ?; apply within_ret, _]);
    try solve [apply within_coheres; intros D;
      first [by apply add_file_coherent | by apply remove_file_coherent | by apply update_file_coherent]
     | apply coheres_triple; intros D;
       first [by apply clear_coherent | by apply clear_except_coherent | by apply restore_coherent
             | by apply clear_matches_coherent | by apply publish_coherent]
     | apply retained_coherent
     | intros Hb; apply replacement_coherent; [apply Ho | exact Hb]];
    (eapply within_coheres; intros D; apply spec_within, keeps_coherent;
     unfold clear_published_file_job_identity_if_matches, clear_published_file_job_identity_if_replaced,
      add_listener, remove_listener, set_downloaded_timestamp_overlay_generation, set_tree_file_count,
      set_version_publication_callback, set_completion_provenance_diagnostics, notify_summary_changed;
     within_auto; frame_modify).
Qed.

Inductive live : model -> Prop :=
  | live_new now : live (empty_model now)
  | live_op s o : live s -> op_live o -> live (run_op o s).2.

Lemma live_coherent s : live s -> coherent ∅ s.
Proof.
  induction 1 as [now|s o Hs IH Ho]; [|by apply run_op_coheres].
  split; [|by intros fid _ r].
  split; [split; [apply empty_index|done]|done|apply dwf_nil|done|apply dwf_nil|].
  by intros fid [p Hp].
Qed.


(** A directory being downloaded, its counters published, and a replacement
    transaction that stores a new record of it. *)
Definition sample_live_root (oid : nat) (n : string) : fileref :=
  mkRef oid [] (set_runtime (put_state (new_file 0 n true) DOWNLOADING) "is_stoppable" (PyBool true) (PyBool false)).

Definition sample_status : LftpJobStatus :=
  mkJob 7 MIRROR JRUNNING "d" "" None None None None (mkTransfer (Some 10) (Some 20) (Some 50) (Some 3) None)
    [] "none" (mkPresence true true true true).

Definition sample_live_ops : list op :=
  [OAdd (sample_live_root 1 "d") None;
   OPublish [("d", sample_overlay)] [("d", (7, "mirror"))] (Some (fun _ => true)) None;
   OReplacement [OUpdate (sample_live_root 2 "d") None None; ORemove "x"] [("d", sample_status)] (fun _ => None)].

Lemma sample_live_root_valid oid : root_valid (sample_live_root oid "d").
Proof.
  split; [reflexivity|]. cbn [ref_file sample_live_root].
  apply (set_prop_wf P_is_stoppable (put_state (new_file 0 "d" true) DOWNLOADING) (PyBool true));
    [reflexivity|]. apply put_state_wf, new_file_wf.
Qed.

Lemma live_run_ops l s : live s -> Forall op_live l -> live (run_ops l s).
Proof.
  intros Hs Hl. revert s Hs. induction Hl as [|o l Ho Hl IH]; simpl; intros s Hs; [done|].
  apply IH. by constructor.
Qed.

