(* ===== verification/ModelVersions.v ===== *)
(** * Version numbers and the callbacks that announce them

    Every mutation advances the global version and the version of one scope;
    readers that wait for a version rely on these numbers never going back,
    on the global number counting the scoped ones, and on the callbacks
    arriving in version order. *)

From S2P Require Import Prelude PyStr PyDict ModelFile ModelFileFacts JobStatus ModelState Model.
From S2P Require Import ModelFrames ModelIndex.

(** ** Frames *)

(** The numbers, who listens, and what was announced to whom. *)
Fixpoint announced_to (l : nat) (es : list event) : list Z :=
  match es with
  | [] => []
  | EvVersionPublished l' _ gv _ _ :: es' =>
      if Nat.eqb l l' then gv :: announced_to l es' else announced_to l es'
  | _ :: es' => announced_to l es'
  end.

Fixpoint called_back (es : list event) : list Z :=
  match es with
  | [] => []
  | EvVersionCallback gv _ :: es' => gv :: called_back es'
  | _ :: es' => called_back es'
  end.

Lemma announced_to_app l es es' : announced_to l (es ++ es') = announced_to l es ++ announced_to l es'.
Proof. induction es as [|e es IH]; simpl; [done|]. rewrite IH. by destruct e; try case_match. Qed.

Lemma called_back_app es es' : called_back (es ++ es') = called_back es ++ called_back es'.
Proof. induction es as [|e es IH]; simpl; [done|]. rewrite IH. by destruct e. Qed.

(** Neither numbers nor announcements. *)
Definition quiet : relation model := fun s s' =>
  version s' = version s /\ scope_versions s' = scope_versions s /\ listeners s' = listeners s /\
  (forall l, announced_to l (log s') = announced_to l (log s)) /\ called_back (log s') = called_back (log s).

#[export] Instance quiet_preorder : PreOrder quiet.
Proof.
  split; [by intros s|]. intros a b c (H1 & H2 & H3 & H4 & H5) (K1 & K2 & K3 & K4 & K5).
  split_and!; congruence.
Qed.

Ltac quiet_modify := apply within_modify; intros ?; split_and!; reflexivity.

Definition silent (e : event) : bool :=
  match e with EvVersionPublished _ _ _ _ _ | EvVersionCallback _ _ => false | _ => true end.

Lemma emit_quiet e : silent e = true -> within quiet (emit e).
Proof.
  intros He s. split_and!; try done; simpl; [intros l|];
    rewrite ?announced_to_app, ?called_back_app; destruct e; try done; simpl; by rewrite app_nil_r.
Qed.
#[export] Hint Extern 2 (within quiet (emit _)) => apply emit_quiet; reflexivity : within.

Lemma trace_enabled_quiet level : within quiet (completion_provenance_trace_is_enabled level).
Proof. apply within_gets, _. Qed.
#[export] Hint Resolve trace_enabled_quiet : within.

Lemma record_transition_quiet fid reason p c level snap g :
  within quiet (record_completion_provenance_transition fid reason p c level snap g).
Proof. unfold record_completion_provenance_transition. within_auto. Qed.
#[export] Hint Resolve record_transition_quiet : within.

Lemma bind_identity_quiet fid pp p pi c src d :
  within quiet (bind_published_identity fid pp p pi c src d).
Proof. unfold bind_published_identity, keep_published_identity. within_auto; quiet_modify. Qed.
#[export] Hint Resolve bind_identity_quiet : within.

Lemma record_rollback_quiet file caller src ctx pp p pi c o :
  within quiet (record_rollback file caller src ctx pp p pi c o).
Proof. unfold record_rollback. within_auto. Qed.
#[export] Hint Resolve record_rollback_quiet : within.

Lemma refresh_quiet r i c ctx : within quiet (refresh_published_file r i c ctx).
Proof. unfold refresh_published_file. within_auto. quiet_modify. Qed.
#[export] Hint Resolve refresh_quiet : within.

Lemma full_effective_quiet r : within quiet (full_effective_file r).
Proof. unfold full_effective_file. within_auto. Qed.
#[export] Hint Resolve full_effective_quiet : within.

Lemma notify_correction_quiet fid r : within quiet (notify_legacy_overlay_correction_if_needed fid r).
Proof.
  unfold notify_legacy_overlay_correction_if_needed, notify_legacy_publication_change.
  within_auto; quiet_modify.
Qed.
#[export] Hint Resolve notify_correction_quiet : within.

Lemma drop_overlay_quiet fid : within quiet (drop_overlay fid).
Proof. unfold drop_overlay. within_auto; quiet_modify. Qed.
#[export] Hint Resolve drop_overlay_quiet : within.

(** ** Version order *)

Definition increasing (l : list Z) (bound : Z) : Prop :=
  StronglySorted Z.lt l /\ Forall (fun v => v <= bound) l.

(** The numbers agree, and announcements came in version order. *)
Record ordered (s : model) : Prop := {
  od_sum : version s = foldr Z.add 0 (dvals (scope_versions s));
  od_scopes : forall sc, 0 <= scope_version_of s sc;
  od_listeners : NoDup (map l_id (listeners s));
  od_announced : forall l, increasing (announced_to l (log s)) (version s);
  od_called : increasing (called_back (log s)) (version s) }.

(** Later states: ordered again, no number smaller. *)
Definition advances : relation model := fun s s' =>
  ordered s -> ordered s' /\ version s <= version s' /\
    forall sc, scope_version_of s sc <= scope_version_of s' sc.

#[export] Instance advances_preorder : PreOrder advances.
Proof.
  split; [by intros s|]. intros a b c H1 H2 Ha. destruct (H1 Ha) as (Hb & ? & Hs).
  destruct (H2 Hb) as (Hc & ? & Hs'). split_and!; [done|lia|]. intros sc. specialize (Hs sc). specialize (Hs' sc). lia.
Qed.

Lemma quiet_ordered s s' : quiet s s' -> ordered s -> ordered s'.
Proof.
  intros (H1 & H2 & H3 & H4 & H5) []. split; unfold scope_version_of in *;
    rewrite ?H1, ?H2, ?H3, ?H5; try done. intros l. by rewrite H4.
Qed.

Lemma quiet_advances {A} (m : st model A) : within quiet m -> within advances m.
Proof.
  intros H s Hs. split; [by eapply quiet_ordered; [apply H|]|].
  destruct (H s) as (H1 & H2 & _). rewrite H1. split; [lia|]. unfold scope_version_of. by rewrite H2.
Qed.
#[export] Hint Extern 6 (within advances _) => apply quiet_advances : within.

Lemma increasing_weaken l b b' : b <= b' -> increasing l b -> increasing l b'.
Proof. intros Hb [Hs Hl]. split; [done|]. eapply Forall_impl; [exact Hl|]. simpl. lia. Qed.

Lemma increasing_snoc l b : increasing l (b - 1) -> increasing (l ++ [b]) b.
Proof.
  intros [Hs Hl]. split.
  - induction Hs as [|x l Hs IH Hx]; simpl; [repeat constructor|].
    apply Forall_cons in Hl as [? Hl]. constructor; [by apply IH|].
    apply Forall_app. split; [done|]. repeat constructor. lia.
  - apply Forall_app. split; [|by repeat constructor]. eapply Forall_impl; [exact Hl|]. simpl. lia.
Qed.

Lemma sum_dset (d : dict (option string) Z) k :
  foldr Z.add 0 (dvals (dset d k (default 0 (dget d k) + 1))) = foldr Z.add 0 (dvals d) + 1.
Proof.
  induction d as [|[k' v] d IH]; simpl; [lia|]. case_decide; simpl; [lia|].
  rewrite IH. lia.
Qed.

(** Between the advance of the version and its announcement. *)
Record advanced (v sv : Z) (s : model) : Prop := {
  av_ordered : ordered s;
  av_version : version s = v;
  av_fresh : forall l, increasing (announced_to l (log s)) (v - 1) }.

Lemma advance_spec s r : ordered s ->
  exists gv sv s', advance_version r s = (Ok (gv, sv), s') /\ advanced gv sv s' /\
    gv = version s + 1 /\ sv = scope_version_of s (path_pair_id (ref_file r)) + 1 /\
    (forall sc, scope_version_of s' sc =
      scope_version_of s sc + (if decide (path_pair_id (ref_file r) = sc) then 1 else 0)).
Proof.
  intros [Hsum Hsc Hl Ha Hc]. set (k := path_pair_id (ref_file r)).
  set (s1 := upd_scope_versions (fun d => dset d k (scope_version_of s k + 1)) (upd_version (fun v => v + 1) s)).
  set (s2 := if version_callback s
             then upd_log (fun es => es ++ [EvVersionCallback (version s + 1) (scope_version_of s k + 1)]) s1
             else s1).
  assert (E : advance_version r s = (Ok (version s + 1, scope_version_of s k + 1), s2)).
  { unfold advance_version, mbind, st_bind, modify, gets, when, emit. fold k. simpl. subst s2.
    by destruct (version_callback s). }
  assert (Hf : version s2 = version s + 1 /\ scope_versions s2 = scope_versions s1 /\
    listeners s2 = listeners s /\ (forall l, announced_to l (log s2) = announced_to l (log s)) /\
    increasing (called_back (log s2)) (version s + 1)).
  { subst s2. destruct (version_callback s); simpl; split_and!; try done.
    - intros l. rewrite announced_to_app. simpl. by rewrite app_nil_r.
    - rewrite called_back_app. simpl. apply increasing_snoc. by replace (version s + 1 - 1) with (version s) by lia.
    - eapply increasing_weaken; [|exact Hc]. lia. }
  destruct Hf as (Hv & Hsv & Hls & Han & Hcb).
  assert (Hscope : forall sc, scope_version_of s2 sc =
      scope_version_of s sc + (if decide (k = sc) then 1 else 0)).
  { intros sc. unfold scope_version_of in *. rewrite Hsv. simpl. rewrite dget_dset.
    case_decide; simpl; [by subst|lia]. }
  eexists _, _, s2. split; [exact E|]. split; [|done]. split; [|done|].
  - split; rewrite ?Hv, ?Hls; try done.
    + rewrite Hsv, Hsum. simpl. unfold scope_version_of. by rewrite sum_dset.
    + intros sc. rewrite Hscope. specialize (Hsc sc). case_decide; lia.
    + intros l. rewrite Han. eapply increasing_weaken; [|apply Ha]. lia.
  - intros l. rewrite Han. by replace (version s + 1 - 1) with (version s) by lia.
Qed.

Lemma quiet_advanced v sv s s' : quiet s s' -> advanced v sv s -> advanced v sv s'.
Proof.
  intros Hq [Ho Hv Hf]. split; [by eapply quiet_ordered| |].
  - destruct Hq as (-> & _). done.
  - intros l. destruct Hq as (_ & _ & _ & -> & _). done.
Qed.

(** What one notification adds to the announcements. *)
Lemma notify_log r gv sv ls s :
  let s' := (mfor ls (fun l =>
    when (l_version_changed l)
      (emit (EvVersionChanged (l_id l) sv (path_pair_id (ref_file r)) (file_id r)));;
    when (l_version_published l)
      (emit (EvVersionPublished (l_id l) sv gv (path_pair_id (ref_file r)) (file_id r)))) s).2 in
  version s' = version s /\ scope_versions s' = scope_versions s /\ listeners s' = listeners s /\
  called_back (log s') = called_back (log s) /\
  forall n, announced_to n (log s') = announced_to n (log s) ++
    map (fun _ => gv) (filter (fun l => l_id l = n /\ l_version_published l = true) ls).
Proof.
  revert s. induction ls as [|l ls IH]; intros s; simpl.
  { split_and!; try done. intros n. by rewrite app_nil_r. }
  set (s1 := if l_version_changed l then upd_log (fun es => es ++
    [EvVersionChanged (l_id l) sv (path_pair_id (ref_file r)) (file_id r)]) s else s).
  set (s2 := if l_version_published l then upd_log (fun es => es ++
    [EvVersionPublished (l_id l) sv gv (path_pair_id (ref_file r)) (file_id r)]) s1 else s1).
  assert (E : forall k : st model unit, ((when (l_version_changed l)
      (emit (EvVersionChanged (l_id l) sv (path_pair_id (ref_file r)) (file_id r)));;
    when (l_version_published l)
      (emit (EvVersionPublished (l_id l) sv gv (path_pair_id (ref_file r)) (file_id r))));; k) s = k s2).
  { intros k. subst s2 s1. unfold mbind, st_bind, when, emit, modify.
    by destruct (l_version_changed l), (l_version_published l). }
  rewrite E. destruct (IH s2) as (-> & -> & -> & -> & Ha). clear IH E.
  assert (Hf : version s2 = version s /\ scope_versions s2 = scope_versions s /\ listeners s2 = listeners s /\
    called_back (log s2) = called_back (log s) /\ forall n, announced_to n (log s2) = announced_to n (log s) ++
      (if decide (l_id l = n /\ l_version_published l = true) then [gv] else [])).
  { subst s2 s1. destruct (l_version_changed l), (l_version_published l); simpl; split_and!; try done;
      rewrite ?called_back_app; simpl; rewrite ?app_nil_r; try done; intros n;
      rewrite ?announced_to_app; simpl; rewrite ?app_nil_r;
      destruct (decide _) as [[? ?]|Hn]; simpl; try done; rewrite ?app_nil_r; try done.
    all: destruct (Nat.eqb_spec n (l_id l)); simpl; rewrite ?app_nil_r; naive_solver. }
  destruct Hf as (-> & -> & -> & -> & Hn). split_and!; try done. intros n. rewrite Ha, Hn, filter_cons.
  repeat case_decide; simpl; rewrite <- ?app_assoc; done.
Qed.

Lemma filter_id_singleton (ls : list listener) n : NoDup (map l_id ls) ->
  (length (filter (fun l => l_id l = n /\ l_version_published l = true) ls) <= 1)%nat.
Proof.
  induction ls as [|l ls IH]; simpl; [lia|]. intros [Hl Hnd]%NoDup_cons. rewrite filter_cons.
  case_decide as E; [|by apply IH]. simpl. destruct E as [<- _].
  assert (filter (fun l0 => l_id l0 = l_id l /\ l_version_published l0 = true) ls = []) as ->; [|done].
  destruct (filter _ ls) as [|x k] eqn:E; [done|]. exfalso. apply Hl.
  assert (Hx : x ∈ filter (fun l0 => l_id l0 = l_id l /\ l_version_published l0 = true) ls) by (rewrite E; left).
  apply list_elem_of_filter in Hx as [[Hx _] Hin]. rewrite <- Hx. by apply list_elem_of_fmap_2.
Qed.

Lemma notify_advanced r v sv s : advanced v sv s ->
  ordered (notify_versioned_change r v sv s).2 /\
  version (notify_versioned_change r v sv s).2 = v /\
  scope_versions (notify_versioned_change r v sv s).2 = scope_versions s.
Proof.
  intros [[Hsum Hsc Hl Ha Hc] Hv Hf]. unfold notify_versioned_change.
  destruct (notify_log r v sv (listeners s) s) as (H1 & H2 & H3 & H4 & H5).
  rewrite (st_bind_ok (gets listeners) _ s _ s eq_refl).
  split; [|split; [congruence|done]].
  split; unfold scope_version_of in *; rewrite ?H1, ?H2, ?H3, ?H4; try done.
  intros l. rewrite H5. pose proof (filter_id_singleton (listeners s) l Hl) as Hle.
  destruct (filter _ _) as [|x [|]]; simpl in *; [|rewrite Hv; by apply increasing_snoc|lia].
  rewrite app_nil_r. apply Ha.
Qed.

(** The rest of a mutation after its version was advanced: whatever is not
    versioned, then the announcement. *)
Definition closes {A} (v sv : Z) (m : st model A) : Prop := forall s, advanced v sv s ->
  ordered (m s).2 /\ version (m s).2 = v /\ scope_versions (m s).2 = scope_versions s.

Lemma closes_quiet {A} v sv (m : st model A) : within quiet m -> closes v sv m.
Proof.
  intros Hm s Ha. specialize (Hm s). split; [by eapply quiet_ordered; [|apply Ha]|].
  destruct Hm as (-> & -> & _). by rewrite (av_version _ _ _ Ha).
Qed.

Lemma closes_notify r v sv : closes v sv (notify_versioned_change r v sv).
Proof. intros s. apply notify_advanced. Qed.

Lemma closes_bind {A B} v sv (m : st model A) (k : A -> st model B) :
  within quiet m -> (forall a, closes v sv (k a)) -> closes v sv (m ≫= k).
Proof.
  intros Hm Hk s Ha. pose proof (closes_quiet v sv m Hm s Ha) as Hq. specialize (Hm s).
  unfold mbind, st_bind. destruct (m s) as [[a|e] s']; [|done]. simpl in *.
  apply (quiet_advanced _ _ s s' Hm) in Ha. destruct (Hk a s' Ha) as (? & ? & ->).
  split_and!; [done..|apply Hq].
Qed.

Lemma announce_advances {A} r (k : Z * Z -> st model A) :
  (forall gv sv, closes gv sv (k (gv, sv))) -> within advances (advance_version r ≫= k).
Proof.
  intros Hk s Hs. destruct (advance_spec s r Hs) as (gv & sv & s1 & E & Ha & -> & -> & Hsc).
  rewrite (st_bind_ok _ _ _ _ _ E). destruct (Hk _ _ s1 Ha) as (Ho & -> & Hsv).
  split_and!; [done|lia|]. intros sc. specialize (Hsc sc). unfold scope_version_of in *.
  rewrite Hsv. case_decide; lia.
Qed.

Ltac closes_auto :=
  cbn [fst snd];
  repeat first
    [ apply closes_notify
    | lazymatch goal with |- closes _ _ (mbind _ _) => apply closes_bind; [solve [within_auto]|intros ?] end ].

#[export] Hint Extern 1 (within advances (advance_version _ ≫= _)) =>
  apply announce_advances; intros ? ?; closes_auto : within.

(** ** Every call advances *)

Ltac advances_auto := within_auto; apply quiet_advances; quiet_modify.

Lemma republish_advances c ctx fid : within advances (republish c ctx fid).
Proof. unfold republish. advances_auto. Qed.
#[export] Hint Resolve republish_advances : within.

Lemma clear_advances ctx p : within advances (clear_active_progress_overlays ctx p).
Proof. unfold clear_active_progress_overlays. advances_auto. Qed.
#[export] Hint Resolve clear_advances : within.

Lemma clear_except_advances X : within advances (clear_active_progress_overlays_except X).
Proof. unfold clear_active_progress_overlays_except. advances_auto. Qed.

Lemma restore_advances o i : within advances (restore_active_progress_overlays o i).
Proof. unfold restore_active_progress_overlays. advances_auto. Qed.

Lemma clear_matches_advances fid i :
  within advances (clear_active_progress_overlay_if_job_identity_matches fid i).
Proof. unfold clear_active_progress_overlay_if_job_identity_matches. advances_auto. Qed.
#[export] Hint Resolve clear_matches_advances : within.

Lemma replace_advances o X : within advances (replace_active_progress_overlays o X).
Proof. unfold replace_active_progress_overlays. advances_auto. Qed.

Lemma publish_advances o i m e : within advances (publish_active_lftp_root_counters o i m e).
Proof. unfold publish_active_lftp_root_counters. advances_auto. Qed.

Lemma index_file_quiet r : within quiet (index_file r).
Proof. unfold index_file. within_auto; quiet_modify. Qed.
#[export] Hint Resolve index_file_quiet : within.

Lemma unindex_file_quiet r fid : within quiet (unindex_file r fid).
Proof. unfold unindex_file. within_auto; quiet_modify. Qed.
#[export] Hint Resolve unindex_file_quiet : within.

Lemma add_file_advances r i : within advances (add_file r i).
Proof. unfold add_file. advances_auto. Qed.

Lemma remove_file_advances k : within advances (remove_file k).
Proof. unfold remove_file, get_ref. advances_auto. Qed.

Lemma update_file_advances r i ctx : within advances (update_file r i ctx).
Proof.
  unfold update_file, write_object, retire_active_projection_for_candidate. advances_auto.
Qed.

Lemma retained_advances {A} (m : st model A) X :
  within advances m -> within advances (apply_with_active_progress_retained m X).
Proof.
  intros Hm. unfold apply_with_active_progress_retained, begin_retirement, publish_retired, remember_correction.
  within_auto; try exact Hm; apply quiet_advances; quiet_modify.
Qed.

Lemma replacement_advances {A} (m : st model A) st e :
  within advances m -> within advances (apply_authoritative_root_replacement m st e).
Proof.
  intros Hm. unfold apply_authoritative_root_replacement, settle_overlay.
  within_auto; try (apply retained_advances, Hm); apply quiet_advances; quiet_modify.
Qed.

Lemma add_listener_advances l : within advances (add_listener l).
Proof.
  unfold add_listener. apply within_bind_gets. intros s Hs.
  destruct (existsb _ _) eqn:E; simpl; [by split_and!|]. destruct Hs. split_and!; [|done..].
  split; try done. simpl. rewrite map_app. apply NoDup_app. split_and!; [done| |repeat constructor; set_solver].
  intros n Hn Hl. simpl in Hl. apply list_elem_of_singleton in Hl as ->.
  apply not_true_iff_false in E. apply E, existsb_exists.
  apply list_elem_of_fmap in Hn as (m & -> & Hm). exists m. split; [by apply list_elem_of_In|].
  by apply Nat.eqb_eq.
Qed.

Lemma remove_listener_NoDup n ls :
  NoDup (map l_id ls) -> NoDup (map l_id (remove_listener_id n ls)).
Proof.
  assert (Hin : forall x k, x ∈ map l_id (remove_listener_id n k) -> x ∈ map l_id k).
  { intros x k. induction k as [|l k IH]; simpl; [done|]. case_match; simpl; [by right|].
    rewrite !elem_of_cons. naive_solver. }
  induction ls as [|l ls IH]; simpl; [done|]. intros [Hl Hnd]%NoDup_cons.
  case_match; [done|]. simpl. constructor; [|by apply IH]. intros Hx. by apply Hl, Hin.
Qed.

Lemma remove_listener_advances l : within advances (remove_listener l).
Proof.
  intros s []. split_and!; [|done..]. split; try done. simpl.
  by apply remove_listener_NoDup.
Qed.

Lemma run_op_advances o : within advances (run_op o).
Proof.
  apply (run_op_within _ (fun _ => True)); [|clear o|done].
  { intros [] _; try done; by apply Forall_true. }
  intros o _. destruct o; cbn [run_op];
    eauto using add_file_advances, remove_file_advances, update_file_advances, clear_advances,
      add_listener_advances, remove_listener_advances, retained_advances, replacement_advances;
    try (apply within_bind; [exact _| |intros ?; apply within_ret, _]);
    eauto using clear_except_advances, restore_advances, clear_matches_advances, replace_advances,
      publish_advances;
    unfold insert_candidate_file, clear_published_file_job_identity_if_matches,
      clear_published_file_job_identity_if_replaced,
      set_downloaded_timestamp_overlay_generation, set_tree_file_count,
      set_version_publication_callback, set_completion_provenance_diagnostics, notify_summary_changed;
    advances_auto.
Qed.

Lemma empty_ordered now : ordered (empty_model now).
Proof.
  split; try done; [apply NoDup_nil_2|intros l|]; split; try apply SSorted_nil; apply Forall_nil_2.
Qed.

Lemma run_ops_ordered l s : ordered s -> ordered (run_ops l s).
Proof.
  revert s. induction l as [|o l IH]; simpl; intros s Hs; [done|]. apply IH. by apply run_op_advances.
Qed.

(** whatever calls are made, returning or raising: the global version is
    the sum of the scope versions; a further call makes no version number
    smaller; every listener has been told global versions in strictly
    increasing order, none beyond the current one, and so has the version
    callback.  (The calls may mutate listeners, run transactions and fail.) *)
Theorem versions_in_order now calls call :
  let s := run_ops calls (empty_model now) in
  let s' := (run_op call s).2 in
  version s = foldr Z.add 0 (dvals (scope_versions s)) /\
  version s <= version s' /\ (forall sc, scope_version_of s sc <= scope_version_of s' sc) /\
  (forall l, StronglySorted Z.lt (announced_to l (log s)) /\
             Forall (fun v => v <= version s) (announced_to l (log s))) /\
  StronglySorted Z.lt (called_back (log s)).
Proof.
  intros s s'. assert (Hs : ordered s) by (apply run_ops_ordered, empty_ordered).
  destruct (run_op_advances call s Hs) as (_ & ? & ?). destruct Hs as [? ? ? ? [? ?]].
  split_and!; auto.
Qed.
