(* ===== verification/ModelBehaviour.v ===== *)
(** * Functional behaviour of the model's operations

    Lookup against a scan of the roots, mutations against a finite map, the
    composition of a candidate model, and the publication of live counters. *)

From S2P Require Import Prelude PyStr PyDict ModelFile ModelFileFacts JobStatus ModelState Model.
From S2P Require Import ModelFrames ModelIndex ModelProjection ModelCoherence.

(** ** Lookup *)

(** The roots with a given name, by scanning all of them. *)
Definition roots_named (n : string) (s : model) : list fileref :=
  filter (fun r => name (ref_file r) = n) (iter_files s).

Lemma iter_files_elem s r : index_ok s ->
  r ∈ iter_files s <-> dget (files_by_id s) (file_id r) = Some r.
Proof.
  intros H. unfold iter_files, dvals. rewrite list_elem_of_fmap. split.
  - intros ([fid q] & -> & Hin). apply dget_elem_of in Hin; [|apply H]. simpl.
    by rewrite (ix_keys s H _ _ Hin).
  - intros Hr%dget_Some_elem_of. by exists (file_id r, r).
Qed.

Lemma named_ids s n : index_ok s ->
  elements (default ∅ (dget (file_ids_by_name s) n)) ≡ₚ map file_id (roots_named n s).
Proof.
  intros H. apply NoDup_Permutation; [apply NoDup_elements| |].
  - apply (NoDup_fmap_2_strong file_id).
    + intros r r' Hr Hr' E. apply list_elem_of_filter in Hr as [_ Hr], Hr' as [_ Hr'].
      apply iter_files_elem in Hr, Hr'; [|done..]. congruence.
    + apply NoDup_filter. unfold iter_files. apply (NoDup_fmap_1 Some).
      change (NoDup (map Some (dvals (files_by_id s)))).
      rewrite <- (dvals_map_get (files_by_id s)) by apply H.
      apply (NoDup_fmap_2_strong (dget (files_by_id s))); [|apply H].
      intros x y [r Hx]%dget_is_Some [r' Hy]%dget_is_Some E.
      rewrite <- (ix_keys s H _ _ Hx), <- (ix_keys s H _ _ Hy). congruence.
  - intros fid. rewrite elem_of_elements, (ix_names s H), list_elem_of_fmap. split.
    + intros (r & Hr & Hn). exists r. split; [by rewrite (ix_keys s H _ _ Hr)|].
      apply list_elem_of_filter. split; [done|]. apply iter_files_elem; [done|].
      by rewrite (ix_keys s H _ _ Hr).
    + intros (r & -> & [Hn Hr]%list_elem_of_filter). exists r. split; [|done]. by apply iter_files_elem.
Qed.

(** Looking a root up reads nothing but the roots and changes nothing: an
    exact identifier finds its root; otherwise the identifier is a name, which
    finds the root when exactly one has that name, and is refused with a
    [ModelError] when none or several do. *)
Theorem lookup_is_scan s identifier : reachable s ->
  get_file identifier s =
  (match dget (files_by_id s) identifier with
   | Some r => Ok r
   | None =>
       match roots_named identifier s with
       | [] => Raise (ModelError "File does not exist in the model")
       | [r] => Ok r
       | _ => Raise (ModelError "File lookup is ambiguous in the model")
       end
   end, s).
Proof.
  intros [H _]%reachable_roots. unfold get_file, get_ref, resolve_file_id, mbind, st_bind, gets, lift, dhas.
  destruct (dget (files_by_id s) identifier) as [r|] eqn:E; [by rewrite E|].
  pose proof (named_ids s identifier H) as Hp. pose proof (Permutation_length Hp) as Hl.
  rewrite length_map in Hl. destruct (roots_named identifier s) as [|r [|r' l]] eqn:En.
  - apply Permutation_nil_r in Hp as ->. done.
  - apply Permutation_singleton_r in Hp as ->.
    assert (Hr : r ∈ roots_named identifier s) by (rewrite En; left).
    apply list_elem_of_filter in Hr as [_ Hr]. apply iter_files_elem in Hr; [|done]. by rewrite Hr.
  - destruct (elements _) as [|? [|]]; simpl in Hl; [lia|lia|done].
Qed.

Lemma lookup_is_scan_witness :
  let s := run_ops sample_ops (empty_model 0) in
  (get_file "b" s).1 = Raise (ModelError "File lookup is ambiguous in the model") /\
  (get_file "a" s).1 = Raise (ModelError "File does not exist in the model").
Proof.
  intros s. assert (Hs : reachable s).
  { apply reachable_run_ops; [apply reachable_new | vm_compute; reflexivity]. }
  split.
  - rewrite (lookup_is_scan s "b" Hs). vm_compute. reflexivity.
  - rewrite (lookup_is_scan s "a" Hs). vm_compute. reflexivity.
Defined.

(** ** Mutations *)

Definition with_roots (D : gset string) (F : dict string fileref) (s : model) : Prop :=
  coherent D s /\ files_by_id s = F.

Lemma with_roots_frame {A} D F (m : st model A) :
  triple (coherent D) m (fun _ => coherent D) -> within (unchanged index) m ->
  triple (with_roots D F) m (fun _ => with_roots D F).
Proof.
  intros Hm Hw s [Hs Hf]. destruct (Hm s Hs) as (a & s' & E & Hs'). exists a, s'. split; [done|].
  split; [done|]. specialize (Hw s). rewrite E in Hw. unfold unchanged, index in Hw. simpl in Hw. congruence.
Qed.

Lemma triple_index {A} (P : model -> Prop) (m : st model A) (Q : A -> model -> Prop) F :
  triple P m Q -> within (unchanged index) m ->
  triple (fun s => P s /\ files_by_id s = F) m (fun a s => Q a s /\ files_by_id s = F).
Proof.
  intros Hm Hw s [Hs Hf]. destruct (Hm s Hs) as (a & s' & E & Hs'). exists a, s'. split; [done|].
  split; [done|]. specialize (Hw s). rewrite E in Hw. unfold unchanged, index in Hw. simpl in Hw. congruence.
Qed.

Lemma returns_index {A} (m : st model A) F : returns m -> within (unchanged index) m ->
  triple (fun s => files_by_id s = F) m (fun _ s => files_by_id s = F).
Proof.
  intros Hr Hw. apply (triple_frame index); [done|done|]. unfold unchanged, index. intros s s' E H. congruence.
Qed.

Lemma add_file_adds r i F : root_valid r -> dget F (file_id r) = None ->
  triple (with_roots ∅ F) (add_file r i) (fun _ s => files_by_id s = F ++ [(file_id r, r)]).
Proof.
  intros Hr Hn. unfold add_file. eapply triple_bind; [apply with_roots_frame; [apply clear_coherent|auto with within]|].
  intros ?. apply triple_read. intros s [Hs Hf]. unfold dhas. rewrite Hf, Hn.
  set (F' := dset F (file_id r) r). assert (HF' : F ++ [(file_id r, r)] = F').
  { symmetry. by apply dkeys_dset_fresh, dget_None. }
  rewrite HF'. apply (triple_bind _ _ (fun _ s => (coherent {[file_id r]} s /\ dget (files_by_id s) (file_id r) = Some r) /\
    files_by_id s = F')).
  { intros ? ->. destruct (index_file_coherent ∅ r Hr s) as (u & s' & E & Hc & Hg); [by rewrite Hf|].
    exists u, s'. split; [done|]. split; [split; [|done]|].
    - revert Hc. apply coherent_mono. set_solver.
    - injection E as _ <-. simpl. by rewrite Hf. }
  intros ?. eapply triple_bind; [apply triple_index; [apply refresh_coherent|auto with within]|]. intros p.
  apply (triple_pre _ (with_roots ∅ F')).
  2:{ intros s' [[Hc _] ?]. split; [|done]. revert Hc. apply coherent_mono. set_solver. }
  apply triple_read. intros s1 Hs1. apply (triple_pre _ (with_roots ∅ F')); [|by intros ? ->].
  eapply (triple_bind _ _ (fun _ => with_roots ∅ F')).
  { destruct (listeners s1); [by apply triple_mret|].
    eapply triple_bind; [apply with_roots_frame; [apply full_effective_coherent|auto with within]|].
    intros f. by apply triple_mret. }
  intros legacy. eapply triple_pre; [apply returns_index; [returns_auto | within_auto]|by intros s' [_ ?]].
Qed.

Lemma remove_file_removes fid r k F : dget F fid = Some r ->
  triple (fun s => with_roots ∅ F s /\ resolve_file_id s k = Ok fid) (remove_file k)
    (fun _ s => files_by_id s = dpop F fid).
Proof.
  intros Hr. unfold remove_file.
  apply (triple_bind _ _ (fun _ s => with_roots ∅ F s /\ resolve_file_id s k = Ok fid)).
  { intros s [[Hs Hf] Hk]. destruct (clear_coherent ∅ None None s Hs) as (u & s' & E & Hs').
    exists u, s'. split; [done|]. pose proof (clear_index None None s) as Hi. rewrite E in Hi.
    unfold unchanged, index in Hi. simpl in Hi. split; [split; [done|congruence]|].
    unfold resolve_file_id in *. injection Hi as H1 H2 H3. by rewrite H1, H3. }
  intros ?. apply triple_read. intros s [Hs Hk]. rewrite Hk. apply triple_lift. unfold get_ref.
  apply (triple_bind _ _ (fun q s => q = r /\ with_roots ∅ F s)).
  { apply triple_read. intros ? ->. destruct Hs as [Hs Hf]. rewrite Hf, Hr. by apply triple_mret; intros ? ->. }
  intros q. apply triple_pure. intros ->.
  apply triple_read. intros s1 Hs1. apply (triple_pre _ (with_roots ∅ F)); [|by intros ? ->].
  apply (triple_bind _ _ (fun _ => with_roots ∅ F)).
  { destruct (negb _); simpl; [|by apply triple_mret].
    eapply triple_bind.
    { eapply triple_pre; [apply triple_index; [apply (refresh_coherent ∅ fid r)|auto with within]|].
      intros s' [? Hf]. split; [split; [done|by rewrite Hf]|exact Hf]. }
    intros p. apply triple_mret. intros s' [[Hc _] ?]. split; [|done]. revert Hc. apply coherent_mono. set_solver. }
  intros ?. eapply triple_bind; [apply with_roots_frame; [apply full_effective_coherent|auto with within]|].
  intros legacy. apply (triple_bind _ _ (fun _ s => files_by_id s = dpop F fid)).
  { intros s2 [Hs2 Hf2]. destruct (unindex_file_ok s2 r fid) as (s3 & E & _ & Hf).
    - apply Hs2.
    - by rewrite Hf2.
    - exists tt, s3. split; [done|]. by rewrite Hf, Hf2. }
  intros ?. unfold drop_overlay. apply returns_index; [returns_auto | within_auto; frame_modify].
Qed.

Lemma with_fallback_returns s r : exists r', with_fallback s r = Ok r'.
Proof.
  unfold with_fallback. destruct (dget _ _) as [fb|]; [|by eexists].
  destruct (local_size (ref_file r)) as [ls|]; [|by eexists].
  destruct (_ && _ && _) eqn:E; [|by eexists]. apply andb_true_iff in E as [[_ E]%andb_true_iff _].
  pose proof (set_prop_outcome P_transferred_size (ref_file r) (PyInt fb)) as H.
  assert (Hn : prop_error P_transferred_size (PyInt fb) = None) by (simpl; rewrite decide_False by lia; done).
  rewrite Hn in H. destruct H as [f' Hf]. cbn [set_prop] in Hf. rewrite Hf. by eexists.
Qed.

Lemma update_file_replaces s0 r0 r i ctx : root_valid r0 -> coherent ∅ s0 ->
  is_Some (dget (files_by_id s0) (file_id r0)) -> with_fallback s0 r0 = Ok r ->
  triple (fun s => s = s0) (update_file r0 i ctx)
    (fun _ s => files_by_id s = dset (files_by_id s0) (file_id r0) r).
Proof.
  intros Hr0 Hs0 Hsome Er. unfold update_file. apply triple_read. intros ? ->. rewrite Er. apply triple_lift.
  pose proof (with_fallback_valid s0 r0 r Hr0 Er) as Hr.
  pose proof (with_fallback_same s0 r0 r Er) as (_ & Hid & _). rewrite <- Hid in *.
  set (fid := file_id r) in *. set (F := files_by_id s0) in *.
  apply (triple_bind _ _ (fun _ s => exists F1, with_roots {[fid]} F1 s /\
    is_Some (dget F1 fid) /\ dset F1 fid r = dset F fid r)).
  { intros ? ->. destruct (write_object_coherent ∅ r Hr s0 Hs0) as (u & s' & E & Hc).
    exists u, s'. split; [done|]. exists (files_by_id s'). split; [split; [|done]|].
    - revert Hc. apply coherent_mono. set_solver.
    - injection E as _ <-. simpl. fold F fid. destruct Hsome as [old Hold]. rewrite Hold.
      destruct (Nat.eqb _ _); [|by rewrite Hold; split; [eexists|]].
      rewrite dget_dset_eq, dset_dset. by split; [eexists|]. }
  intros ? s1 (F1 & Hw & [old Hold] & <-). revert s1 Hw.
  match goal with |- forall s1, _ -> exists a s', ?m s1 = _ /\ _ =>
    change (triple (with_roots {[fid]} F1) m (fun _ s => files_by_id s = dset F1 fid r)) end.
  eapply triple_bind; [apply with_roots_frame; [|auto with within]|intros ?].
  { apply retire_candidate_coherent. set_solver. }
  eapply triple_bind; [apply with_roots_frame; [apply clear_coherent|auto with within]|intros ?].
  apply triple_read. intros s1 [Hs1 Hf1]. rewrite Hf1. fold fid. rewrite Hold.
  apply triple_read. intros ? ->. apply (triple_pre _ (with_roots {[fid]} F1)); [|by intros ? ->].
  apply (triple_bind _ _ (fun _ => with_roots {[fid]} F1)).
  { destruct (negb _); simpl; [|by apply triple_mret]. eapply triple_bind.
    { eapply triple_pre; [apply triple_index; [apply (refresh_coherent {[fid]} fid old)|auto with within]|].
      intros s' [? Hf]. split; [split; [done|by rewrite Hf]|exact Hf]. }
    intros p. apply triple_mret. intros s' [[Hc _] ?]. split; [|done]. revert Hc. apply coherent_mono. set_solver. }
  intros ?. eapply triple_bind; [apply with_roots_frame; [apply full_effective_coherent|auto with within]|].
  intros legacy. apply (triple_bind _ _ (fun _ s => at_root {[fid]} fid (Some r) s /\ files_by_id s = dset F1 fid r)).
  { apply triple_modify. intros s3 [Hs3 Hf]. simpl. rewrite Hf. split; [|done]. split; [|by simpl; rewrite Hf; apply dget_dset_eq].
    eapply coherent_mono; [|apply (store_coherent _ r s3 Hr Hs3); rewrite Hf; by eexists]. set_solver. }
  intros ?. eapply triple_bind; [apply triple_index; [apply refresh_coherent|auto with within]|]. intros p.
  apply (triple_pre _ (with_roots ∅ (dset F1 fid r))).
  2:{ intros s' [[Hc _] ?]. split; [|done]. revert Hc. apply coherent_mono. set_solver. }
  eapply triple_bind; [apply with_roots_frame; [apply full_effective_coherent|auto with within]|]. intros legacy'.
  eapply triple_pre; [apply returns_index; [returns_auto | within_auto]|by intros s' [_ ?]].
Qed.

(** A refused call: the outcome and the roots after it. *)
Definition refused {A} (m : st model A) (s : model) (e : exn) : Prop :=
  (m s).1 = Raise e /\ files_by_id (m s).2 = files_by_id s.

Lemma refused_raises {A} (m : st model A) s e :
  raises (fun s' => s' = s) m e (fun s' => index s' = index s) -> refused m s e.
Proof.
  intros H. destruct (H s eq_refl) as (s' & E & Hi). unfold refused. rewrite E. split; [done|].
  unfold index in Hi. simpl. congruence.
Qed.

(** Coherent, with the indices of a given state. *)
Definition same_index (D : gset string) (s0 s : model) : Prop := coherent D s /\ index s = index s0.

Lemma same_index_frame {A} D s0 (m : st model A) :
  triple (coherent D) m (fun _ => coherent D) -> within (unchanged index) m ->
  triple (same_index D s0) m (fun _ => same_index D s0).
Proof.
  intros Hm Hw s [Hs Hf]. destruct (Hm s Hs) as (a & s' & E & Hs'). exists a, s'. split; [done|].
  split; [done|]. specialize (Hw s). rewrite E in Hw. unfold unchanged in Hw. simpl in Hw. congruence.
Qed.

Lemma resolve_index s s' k : index s' = index s -> resolve_file_id s' k = resolve_file_id s k.
Proof. unfold index, resolve_file_id. intros [= -> _ ->]. done. Qed.

Lemma resolve_stored s k fid : index_ok s -> resolve_file_id s k = Ok fid ->
  is_Some (dget (files_by_id s) fid).
Proof.
  intros Hix. unfold resolve_file_id, dhas. destruct (dget (files_by_id s) k) as [q|] eqn:Ek.
  - intros [= <-]. by exists q.
  - destruct (elements _) as [|x [|]] eqn:Ex; [done| |done]. intros [= <-].
    assert (Hx : x ∈ default ∅ (dget (file_ids_by_name s) k)) by (apply elem_of_elements; rewrite Ex; left).
    apply (ix_names s Hix) in Hx as (q & Hq & _). by exists q.
Qed.

Lemma add_file_refused r i s old : coherent ∅ s -> dget (files_by_id s) (file_id r) = Some old ->
  refused (add_file r i) s (ModelError "File already exists in the model").
Proof.
  intros Hs Hold. apply refused_raises. unfold add_file. apply (raises_bind _ _ (fun _ => same_index ∅ s)).
  { apply (triple_pre _ (same_index ∅ s)); [|by intros ? ->].
    apply same_index_frame; [apply clear_coherent|auto with within]. }
  intros ?. apply raises_read. intros s1 [_ Hi]. unfold dhas.
  assert (files_by_id s1 = files_by_id s) as -> by (unfold index in Hi; congruence).
  rewrite Hold. apply raises_raise. by intros ? ->.
Qed.

Lemma remove_file_refused k s e : coherent ∅ s -> resolve_file_id s k = Raise e ->
  refused (remove_file k) s e.
Proof.
  intros Hs He. apply refused_raises. unfold remove_file. apply (raises_bind _ _ (fun _ => same_index ∅ s)).
  { apply (triple_pre _ (same_index ∅ s)); [|by intros ? ->].
    apply same_index_frame; [apply clear_coherent|auto with within]. }
  intros ?. apply raises_read. intros s1 [_ Hi]. rewrite (resolve_index s s1 k Hi), He.
  apply raises_lift. by intros ? ->.
Qed.

Lemma update_file_refused r0 i ctx s : root_valid r0 -> coherent ∅ s ->
  dget (files_by_id s) (file_id r0) = None ->
  refused (update_file r0 i ctx) s (ModelError "File does not exist in the model").
Proof.
  intros Hr0 Hs Hn. apply refused_raises. unfold update_file. apply raises_read. intros ? ->.
  destruct (with_fallback_returns s r0) as [r Er]. rewrite Er.
  pose proof (with_fallback_same s r0 r Er) as (_ & Hid & _). rewrite <- Hid in *.
  apply (raises_bind _ _ (fun x s' => x = r /\ same_index {[file_id r]} s s')).
  { intros ? ->. exists r, s. split; [done|]. split; [done|]. split; [|done]. revert Hs. apply coherent_mono. set_solver. }
  intros x. intros s0 [-> Hs0]. revert s0 Hs0. 
  match goal with |- forall s1, _ -> exists s', ?m s1 = _ /\ _ =>
    change (raises (same_index {[file_id r]} s) m (ModelError "File does not exist in the model")
      (fun s' => index s' = index s)) end.
  apply (raises_bind _ _ (fun _ => same_index {[file_id r]} s)).
  { apply triple_modify. intros s1 [Hs1 Hi]. assert (Hf : files_by_id s1 = files_by_id s) by (unfold index in Hi; congruence).
    assert (Hu : unchanged viewstate s1 (upd_files_by_id (fun d => match dget d (file_id r) with
      | Some old => if Nat.eqb (ref_oid old) (ref_oid r) then dset d (file_id r) r else d | None => d end) s1)).
    { unfold unchanged, viewstate, index. simpl. by rewrite Hf, Hn. }
    split; [by eapply coherent_view|]. unfold index in *. simpl. rewrite Hf, Hn. congruence. }
  intros ?. eapply raises_bind; [apply same_index_frame; [|auto with within]|intros ?].
  { apply retire_candidate_coherent. set_solver. }
  eapply raises_bind; [apply same_index_frame; [apply clear_coherent|auto with within]|intros ?].
  apply raises_read. intros s1 [_ Hi].
  assert (files_by_id s1 = files_by_id s) as -> by (unfold index in Hi; congruence).
  rewrite Hn. apply raises_raise. by intros ? ->.
Qed.

(** C9: on a live model, adding, updating and removing roots act on the stored
    roots as on a finite map, and always answer: [add_file] appends a new
    root and refuses an identifier already stored; [update_file] replaces the
    stored root (after the physical-base fallback) and refuses an unknown
    one; [remove_file] deletes the root the identifier resolves to and
    refuses with the resolution's error.  A refused call leaves the roots as
    they were. *)
Theorem mutations_refine_map s r i ctx k : live s -> root_valid r ->
  match dget (files_by_id s) (file_id r) with
  | Some _ => refused (add_file r i) s (ModelError "File already exists in the model")
  | None => (add_file r i s).1 = Ok tt /\
            files_by_id (add_file r i s).2 = files_by_id s ++ [(file_id r, r)]
  end /\
  match dget (files_by_id s) (file_id r) with
  | Some _ => exists r', with_fallback s r = Ok r' /\ (update_file r i ctx s).1 = Ok tt /\
                files_by_id (update_file r i ctx s).2 = dset (files_by_id s) (file_id r) r'
  | None => refused (update_file r i ctx) s (ModelError "File does not exist in the model")
  end /\
  match resolve_file_id s k with
  | Ok fid => (remove_file k s).1 = Ok tt /\
              files_by_id (remove_file k s).2 = dpop (files_by_id s) fid
  | Raise e => refused (remove_file k) s e
  end.
Proof.
  intros Hl%live_coherent Hr. split_and!.
  - destruct (dget (files_by_id s) (file_id r)) as [old|] eqn:E; [by eapply add_file_refused|].
    destruct (add_file_adds r i _ Hr E s (conj Hl eq_refl)) as ([] & s' & Ea & Hf). by rewrite Ea.
  - destruct (with_fallback_returns s r) as [r' Er].
    destruct (dget (files_by_id s) (file_id r)) as [old|] eqn:E; [|by apply update_file_refused].
    exists r'. split; [done|].
    destruct (update_file_replaces s r r' i ctx Hr Hl) with (s := s) as ([] & s' & Eu & Hf);
      [by eexists|done|done|]. by rewrite Eu.
  - destruct (resolve_file_id s k) as [fid|e] eqn:E; [|by apply remove_file_refused].
    destruct (resolve_stored s k fid) as [q Hq]; [apply Hl|done|].
    destruct (remove_file_removes fid q k _ Hq s) as ([] & s' & Ea & Hf); [done|]. by rewrite Ea.
Qed.

Lemma mutations_refine_map_witness :
  let s := run_ops sample_live_ops (empty_model 0) in
  (remove_file "d" s).1 = Ok tt /\ files_by_id (remove_file "d" s).2 = [].
Proof.
  intros s. assert (Hs : live s).
  { apply live_run_ops; [apply live_new|]. apply Forall_cons_2; [apply sample_live_root_valid|].
    apply Forall_cons_2; [reflexivity|]. apply Forall_cons_2; [|apply Forall_nil_2].
    split; [|reflexivity]. split; [apply sample_live_root_valid|]. by split. }
  destruct (mutations_refine_map s (sample_live_root 9 "d") None None "d" Hs (sample_live_root_valid 9))
    as (_ & _ & H).
  exact H.
Defined.
