(* ===== verification/ModelCounters.v ===== *)
(** * Live counters

    Which rows of a status poll reach the published roots, and what they do
    to counters that are already shown. *)

From S2P Require Import Prelude PyStr PyDict ModelFile ModelFileFacts JobStatus ModelState Model.
From S2P Require Import ModelFrames ModelIndex ModelProjection ModelCoherence.

(** ** The admission loop *)

(** The counters a row of the running job shows, given those already shown. *)
Definition shown_counters (s : model) (fid : string) (o : overlay) : overlay :=
  match dget (overlay_ids s) fid, dget (overlays s) fid with
  | Some _, Some prior => merge_overlay o prior
  | _, _ => o
  end.

(** A row of the job already shown, or of a root that shows none. *)
Definition row_admitted (s : model) (ids : dict string identity) (acc : admission) (fid : string)
    (o : overlay) : Prop :=
  exists i r, dget ids fid = Some i /\ dget (files_by_id s) fid = Some r /\ valid_identity i = true /\
    (dget (overlay_ids s) fid = None \/ dget (overlay_ids s) fid = Some i) /\
    root_authority_ok (ref_file r) = true /\
    dget (ad_overlays acc) fid = Some (shown_counters s fid o) /\ dget (ad_ids acc) fid = Some i.

(** A row of another job than the one shown: a newer job retires the shown
    projection, an older one does not. *)
Definition row_mismatched (s : model) (ids : dict string identity) (acc : admission) (fid : string) : Prop :=
  exists i p, dget ids fid = Some i /\ dget (overlay_ids s) fid = Some p /\ p <> i /\
    dget (ad_mismatches acc) fid = (if p.1 <? i.1 then Some p else None) /\ ad_rejected acc = true.

Lemma admit_row_spec s ids m e acc fid o acc' :
  dget (ad_mismatches acc) fid = None ->
  admit_row s ids m e acc fid o = Next acc' ->
  (row_admitted s ids acc' fid o /\ ad_rejected acc' = ad_rejected acc /\ ad_mismatches acc' = ad_mismatches acc
   \/ row_mismatched s ids acc' fid /\ ad_overlays acc' = ad_overlays acc /\ ad_ids acc' = ad_ids acc) /\
  (forall f, f <> fid -> dget (ad_overlays acc') f = dget (ad_overlays acc) f /\
     dget (ad_ids acc') f = dget (ad_ids acc) f /\ dget (ad_mismatches acc') f = dget (ad_mismatches acc) f).
Proof.
  intros Hfresh. unfold admit_row. destruct (dget ids fid) as [i|] eqn:Ei; [|done].
  destruct (dget (files_by_id s) fid) as [r|] eqn:Er; [|done].
  destruct (negb (valid_identity i)) eqn:Ev; [done|]. apply negb_false_iff in Ev.
  do 3 (match goal with |- (if ?b then _ else _) = _ -> _ => destruct b end; [done|]).
  destruct (dget (overlay_ids s) fid) as [p|] eqn:Ep.
  - case_bool_decide as Epi; cbn [negb]; cycle 1.
    { intros [= <-]. split.
      - right. split; [|done]. exists i, p. simpl. split_and!; try done.
        destruct (p.1 <? i.1); [apply dget_dset_eq|done].
      - intros f Hf. simpl. split_and!; try done. destruct (p.1 <? i.1); [|done].
        by apply dget_dset_ne. }
    subst p. destruct (root_authority_ok (ref_file r)) eqn:Ea; [|done]. intros [= <-]. split.
    + left. split; [|done]. exists i, r. simpl. rewrite !dget_dset_eq. unfold shown_counters. rewrite Ep.
      split_and!; auto.
    + intros f Hf. simpl. rewrite !dget_dset_ne by done. done.
  - destruct (root_authority_ok (ref_file r)) eqn:Ea; [|done]. intros [= <-]. split.
    + left. split; [|done]. exists i, r. simpl. rewrite !dget_dset_eq. unfold shown_counters. rewrite Ep.
      split_and!; auto.
    + intros f Hf. simpl. rewrite !dget_dset_ne by done. done.
Qed.

Lemma admit_rows_spec s ids m e acc rows acc' :
  NoDup (map fst rows) -> (forall f, f ∈ map fst rows -> dget (ad_mismatches acc) f = None) ->
  admit_rows s ids m e acc rows = Next acc' ->
  (forall fid o, (fid, o) ∈ rows ->
    (row_admitted s ids acc' fid o /\ dget (ad_mismatches acc') fid = None) \/ row_mismatched s ids acc' fid) /\
  (forall f, f ∉ map fst rows -> dget (ad_overlays acc') f = dget (ad_overlays acc) f /\
     dget (ad_ids acc') f = dget (ad_ids acc) f /\ dget (ad_mismatches acc') f = dget (ad_mismatches acc) f) /\
  (ad_rejected acc = true -> ad_rejected acc' = true) /\
  (ad_rejected acc = false -> ad_rejected acc' = true ->
     exists fid, fid ∈ map fst rows /\ row_mismatched s ids acc' fid).
Proof.
  revert acc. induction rows as [|[fid o] rows IH]; simpl; intros acc Hnd Hfresh.
  { intros [= <-]. split_and!; [intros f o H; inversion H|done|done|congruence]. }
  apply NoDup_cons in Hnd as [Hfid Hnd].
  destruct (admit_row s ids m e acc fid o) as [|acc1] eqn:E; [done|]. intros Hrows.
  apply admit_row_spec in E as [Hrow Hframe]; [|apply Hfresh; left].
  apply IH in Hrows as (Hin & Hout & Hrej & Hwhy); [|done|]; cycle 1.
  { intros f Hf. destruct (Hframe f) as (_ & _ & ->); [by intros ->|]. apply Hfresh. by right. }
  destruct (Hout fid Hfid) as (Ho & Hi & Hm).
  assert (Hhead : (row_admitted s ids acc' fid o /\ dget (ad_mismatches acc') fid = None) \/ row_mismatched s ids acc' fid).
  { destruct Hrow as [(Ha & _ & Hmm)|(Hx & _)].
    - left. split; [|rewrite Hm, Hmm; apply Hfresh; left].
      destruct Ha as (i & r & ? & ? & ? & ? & ? & ? & ?). exists i, r. rewrite Ho, Hi. done.
    - right. destruct Hx as (i & p & ? & ? & ? & ? & ?). exists i, p. rewrite Hm. split_and!; auto. }
  split_and!.
  - intros f o' [[= -> ->]|Hf]%elem_of_cons; [done|]. by apply Hin.
  - intros f [? ?]%not_elem_of_cons. destruct (Hout f) as (-> & -> & ->); [done|]. by apply Hframe.
  - intros H. apply Hrej. destruct Hrow as [(_ & -> & _)|[(? & ? & ? & ? & ? & ? & ?) _]]; done.
  - intros Hf Ht. destruct (ad_rejected acc1) eqn:E1.
    + exists fid. split; [left|]. destruct Hhead as [|?]; [|done].
      destruct Hrow as [(_ & Hr & _)|[Hx _]]; [congruence|].
      destruct Hx as (i & p & ? & ? & ? & ? & ?). exists i, p. rewrite Hm. split_and!; auto.
    + destruct (Hwhy eq_refl Ht) as (f & ? & ?). exists f. split; [by right|done].
Qed.

(** ** Publication of a batch *)

Lemma republish_overlays c ctx fid s :
  overlays (republish c ctx fid s).2 = overlays s /\ overlay_ids (republish c ctx fid s).2 = overlay_ids s.
Proof. pose proof (republish_core c ctx fid s) as H. unfold unchanged, core in H. split; congruence. Qed.

Definition shown_state (s : model) := (overlays s, overlay_ids s).

Lemma republish_all_shown c X : within (unchanged shown_state) (mfor (sorted_ids X) (republish c None)).
Proof.
  apply within_mfor; [exact _|]. intros fid _ s. unfold unchanged, shown_state.
  destruct (republish_overlays c None fid s) as [-> ->]. done.
Qed.

Definition publish_result (o : dict string overlay) (ids : dict string identity)
    (m : option (string -> bool)) (e : option epoch_fn) (s : model) : result (gset string * string) :=
  (publish_active_lftp_root_counters o ids m e s).1.
Definition publish_state (o : dict string overlay) (ids : dict string identity)
    (m : option (string -> bool)) (e : option epoch_fn) (s : model) : model :=
  (publish_active_lftp_root_counters o ids m e s).2.

Lemma reject_reason s ids m e acc rows reason :
  admit_rows s ids m e acc rows = Reject reason ->
  reason ∈ ["job_identity"; "lifecycle_epoch"; "root_authority"].
Proof.
  revert acc. induction rows as [|[fid o] rows IH]; simpl; intros acc; [done|].
  destruct (admit_row s ids m e acc fid o) eqn:E; [|apply IH]. intros [= <-]. revert E.
  unfold admit_row. repeat case_match; intros; simplify_eq; set_solver.
Qed.

Lemma accepted_state s new ids m e changed :
  publish_result new ids m e s = Ok (changed, "accepted") ->
  exists acc, admit_rows s ids m e no_admission new = Next acc /\ ad_rejected acc = false /\
    overlays (publish_state new ids m e s) = ad_overlays acc /\
    overlay_ids (publish_state new ids m e s) = ad_ids acc.
Proof.
  unfold publish_result, publish_state, publish_active_lftp_root_counters.
  rewrite (st_bind_ok (gets _) _ s _ s eq_refl).
  destruct (admit_rows s ids m e no_admission new) as [reason|acc] eqn:E.
  - apply reject_reason in E. unfold mbind, st_bind. destruct (clear_active_progress_overlays None None s) as [[|]]; [|done].
    intros [= _ ->]. exfalso. rewrite !elem_of_cons, elem_of_nil in E. naive_solver.
  - destruct (ad_rejected acc) eqn:Er.
    + unfold mbind at 1, st_bind at 1. case_match. case_match; done.
    + intros H. exists acc. split_and!; try done.
      all: rewrite (st_bind_ok (gets _) _ s _ s eq_refl) in *; unfold mbind, st_bind, modify in *;
        match goal with |- context [mfor (sorted_ids ?X) ?f ?t] =>
          pose proof (republish_all_shown "publish_active_lftp_root_counters" X t) as Hs;
          destruct (mfor (sorted_ids X) f t) as [[|] s'] eqn:Em end; try done;
        unfold unchanged, shown_state in Hs; cbv beta in *; simpl in *; congruence.
Qed.

(** What the merge does to one counter. *)
Lemma monotone_counter_spec a b :
  (a = None -> monotone_counter a b = None) /\ (a = Some 0 -> monotone_counter a b = Some 0) /\
  (forall z, a = Some z -> 0 < z -> exists z', monotone_counter a b = Some z' /\ z <= z' /\
     forall p, b = Some p -> z' = Z.max z p).
Proof.
  split_and!; [by intros ->|by intros ->; destruct b|]. intros z -> Hz. destruct b as [p|]; simpl.
  - destruct (Z.ltb_spec 0 z); [|lia]. exists (Z.max z p). split_and!; [done|lia|]. by intros ? [= <-].
  - exists z. split_and!; [done|lia|done].
Qed.


Definition sample_counting : model :=
  run_ops [OAdd (sample_live_root 1 "d") None;
    OPublish [("d", sample_overlay)] [("d", (7, "mirror"))] (Some (fun _ => true)) None] (empty_model 0).

(** A late status of the same job with fewer bytes. *)
Definition late_overlay : overlay := mkOverlay (Some 30) (Some 300) (Some 9) (Some 1).


(** ** Rows of another job *)

Lemma clear_matches_shown fid p s : coherent ∅ s -> dget (overlay_ids s) fid = Some p ->
  exists b s', clear_active_progress_overlay_if_job_identity_matches fid p s = (Ok b, s') /\ coherent ∅ s' /\
    dget (overlays s') fid = None /\
    (forall f, f <> fid -> dget (overlays s') f = dget (overlays s) f /\
                           dget (overlay_ids s') f = dget (overlay_ids s) f).
Proof.
  intros Hs Hp. destruct (clear_matches_coherent ∅ fid p s Hs) as (b & s' & E & Hs').
  exists b, s'. split_and!; [done|done| |].
  all: revert E; unfold clear_active_progress_overlay_if_job_identity_matches;
    rewrite (st_bind_ok (gets _) _ s _ s eq_refl), bool_decide_false by (by intros H);
    rewrite (st_bind_ok (gets _) _ s _ s eq_refl); unfold dhas;
    destruct (dget (overlays s) fid) as [o|] eqn:Eo; cbn [negb];
    [unfold drop_overlay, modify, mbind, st_bind;
     match goal with |- context [republish ?c ?ctx ?f ?t] =>
       destruct (republish_overlays c ctx f t) as [Ho Hi]; destruct (republish c ctx f t) as [[|] s2] end;
     [|done]; intros [= _ <-]; simpl in *; rewrite ?Ho, ?Hi
    |intros [= _ <-]].
  - apply dget_dpop_eq, Hs.
  - done.
  - intros f Hf. by rewrite !dget_dpop_ne.
  - done.
Qed.

(** Retirement of all mismatched projections. *)
Lemma retire_mismatches s M : coherent ∅ s ->
  (forall fid p, dget M fid = Some p -> dget (overlay_ids s) fid = Some p) ->
  triple (fun s' => s' = s)
    (mfor (sorted_ids (dkeyset M)) (fun fid =>
       match dget M fid with
       | Some p => clear_active_progress_overlay_if_job_identity_matches fid p;; mret tt
       | None => mret tt
       end))
    (fun _ s' => forall fid, dget (overlays s') fid = if dhas M fid then None else dget (overlays s) fid).
Proof.
  intros Hs HM.
  set (inv := fun (l : list string) (t : model) => NoDup l /\ coherent ∅ t /\
    (forall f, f ∈ l -> dget (overlay_ids t) f = dget (overlay_ids s) f) /\
    (forall f, dget (overlays t) f = if dhas M f && bool_decide (f ∉ l) then None else dget (overlays s) f)).
  eapply triple_conseq; [apply (triple_mfor inv (sorted_ids (dkeyset M)))| |].
  - intros fid l Hin%elem_of_sorted_ids%elem_of_dkeyset t (Hnd & Ht & Hids & Hov).
    destruct Hin as [p Hp]. rewrite Hp. apply NoDup_cons in Hnd as [Hfid Hnd].
    destruct (clear_matches_shown fid p t Ht) as (b & t' & E & Ht' & Hnone & Hoth).
    { rewrite Hids by left. by apply HM. }
    exists tt, t'. split; [by rewrite (st_bind_ok _ _ _ _ _ E)|]. split_and!; [done|done| |].
    + intros f Hf. destruct (Hoth f) as [_ ->]; [by intros ->|]. apply Hids. by right.
    + intros f. destruct (decide (f = fid)) as [->|Hne].
      * rewrite Hnone. unfold dhas. rewrite Hp. rewrite bool_decide_true by done. done.
      * destruct (Hoth f Hne) as [-> _]. rewrite Hov. f_equal.
        assert (bool_decide (f ∉ fid :: l) = bool_decide (f ∉ l)) as ->; [|done].
        apply bool_decide_ext. rewrite not_elem_of_cons. naive_solver.
  - intros ? ->. split_and!; [apply NoDup_sorted_ids|done|done|]. intros f. unfold dhas.
    destruct (dget M f) eqn:Ef; [|done]. rewrite bool_decide_false; [done|].
    intros Hn. apply Hn, elem_of_sorted_ids, elem_of_dkeyset. eauto.
  - intros u t (_ & _ & _ & Hov) fid. rewrite Hov. rewrite bool_decide_true by apply not_elem_of_nil.
    by rewrite andb_true_r.
Qed.

(** A batch with a row of another job than the one shown is never
    published: the call answers [job_identity] with no changed root, a root
    whose row is of a newer job loses its stale live counters, and every
    other root, those with a late row of an older job included, keeps the
    live counters it shows. *)
Theorem foreign_job_fenced s new ids m e acc :
  live s -> NoDup (dkeys new) ->
  admit_rows s ids m e no_admission new = Next acc -> ad_rejected acc = true ->
  publish_result new ids m e s = Ok (∅, "job_identity") /\
  forall fid, dget (overlays (publish_state new ids m e s)) fid =
    match dget new fid, dget ids fid, dget (overlay_ids s) fid with
    | Some _, Some i, Some p => if negb (bool_decide (p = i)) && (p.1 <? i.1) then None else dget (overlays s) fid
    | _, _, _ => dget (overlays s) fid
    end.
Proof.
  intros Hs%live_coherent Hnd E Hrej. pose proof E as E0.
  apply admit_rows_spec in E0 as (Hin & Hout & _ & _); [|done|done].
  destruct (retire_mismatches s (ad_mismatches acc) Hs) with (s := s) as (u & s' & Er & Hov); [|done|].
  { intros fid p Hp. destruct (decide (fid ∈ dkeys new)) as [Hk|Hk].
    - apply dget_is_Some in Hk as [o Ho%dget_Some_elem_of].
      destruct (Hin fid o Ho) as [[_ ?]|(i & q & _ & Hq & _ & Hmm & _)]; [congruence|].
      rewrite Hmm in Hp. case_match; congruence.
    - destruct (Hout fid Hk) as (_ & _ & H). rewrite H in Hp. done. }
  assert (Ep : publish_active_lftp_root_counters new ids m e s = (Ok (∅, "job_identity"), s')).
  { unfold publish_active_lftp_root_counters. rewrite (st_bind_ok (gets _) _ s _ s eq_refl), E, Hrej.
    by rewrite (st_bind_ok _ _ _ _ _ Er). }
  unfold publish_result, publish_state. rewrite Ep. split; [done|]. simpl. intros fid. rewrite Hov. unfold dhas.
  destruct (dget new fid) as [o|] eqn:En.
  - apply dget_Some_elem_of in En. destruct (Hin fid o En) as [[Ha ->]|(i & p & -> & -> & Hne & -> & _)].
    + destruct Ha as (i & r & -> & _ & _ & [-> | ->] & _); [done|]. by rewrite bool_decide_true.
    + rewrite bool_decide_false by done. simpl. by destruct (p.1 <? i.1).
  - destruct (Hout fid) as (_ & _ & ->); [by apply dget_None in En|done].
Qed.

Lemma foreign_job_fenced_witness :
  publish_result [("d", late_overlay)] [("d", (5, "mirror"))] (Some (fun _ => true)) None sample_counting =
    Ok (∅, "job_identity") /\
  dget (overlays (publish_state [("d", late_overlay)] [("d", (5, "mirror"))] (Some (fun _ => true)) None
    sample_counting)) "d" = Some sample_overlay.
Proof.
  destruct (foreign_job_fenced sample_counting [("d", late_overlay)] [("d", (5, "mirror"))]
    (Some (fun _ => true)) None (mkAdmission [] [] [] true)) as [H1 H2].
  - apply live_run_ops; [apply live_new|].
    apply Forall_cons_2; [apply sample_live_root_valid|]. by apply Forall_cons_2.
  - apply NoDup_singleton.
  - vm_compute. reflexivity.
  - reflexivity.
  - split; [exact H1|]. rewrite (H2 "d"). vm_compute. reflexivity.
Defined.
