(* ===== verification/ModelDiff.v ===== *)
(** * Candidate models and their difference from the live one

    [Model.compose_candidate] ([model/model.py]) and
    [ModelDiffUtil.diff_models] ([model/diff.py]). *)

From S2P Require Import Prelude PyStr PyDict ModelFile ModelFileFacts JobStatus ModelState Model.
From S2P Require Import ModelFrames ModelIndex ModelProjection ModelCoherence ModelBehaviour.

(** ** Composition of a candidate *)

(** The live roots a candidate reuses. *)
Definition kept_roots (live : model) (removed : gset string) : list fileref :=
  filter (fun r => file_id r ∉ removed) (iter_files live).

Definition as_entries (l : list fileref) : dict string fileref := map (fun r => (file_id r, r)) l.

Lemma insert_step r s :
  insert_candidate_file r s =
  match dget (files_by_id s) (file_id r) with
  | Some _ => (Raise (ModelError "Duplicate root while composing model candidate"), s)
  | None => (Ok tt, (index_file r s).2)
  end.
Proof.
  unfold insert_candidate_file. rewrite (st_bind_ok (gets _) _ s _ s eq_refl). unfold dhas.
  by destruct (dget _ _).
Qed.

Lemma insert_all s l : roots_ok s -> Forall (fun r => proper_root r = true) l ->
  if decide (NoDup (dkeys (files_by_id s) ++ map file_id l)) then
    exists s', mfor l insert_candidate_file s = (Ok tt, s') /\ roots_ok s' /\
      files_by_id s' = files_by_id s ++ as_entries l /\
      overlay_generation s' = overlay_generation s /\ version s' = version s /\ listeners s' = listeners s
  else (mfor l insert_candidate_file s).1 = Raise (ModelError "Duplicate root while composing model candidate").
Proof.
  intros Hs Hl. revert s Hs. induction l as [|r l IH]; intros s Hs; cbn [mfor map as_entries].
  { rewrite app_nil_r. rewrite decide_True by apply Hs. exists s. by rewrite app_nil_r. }
  apply Forall_cons in Hl as [Hr Hl]. pose proof (insert_candidate_ok r Hr s Hs) as Hs1.
  pose proof (insert_step r s) as E. destruct (dget (files_by_id s) (file_id r)) as [old|] eqn:Er.
  - rewrite decide_False; [by rewrite (st_bind_raise _ _ _ _ _ E)|].
    intros Hnd. apply NoDup_app in Hnd as (_ & Hnd & _).
    apply (Hnd (file_id r)); [by eapply dget_Some_keys | left].
  - rewrite E in Hs1. rewrite (st_bind_ok _ _ _ _ _ E). set (s1 := (index_file r s).2) in *.
    assert (Hf : files_by_id s1 = files_by_id s ++ [(file_id r, r)]) by (by apply dkeys_dset_fresh, dget_None).
    specialize (IH Hl s1 Hs1). rewrite Hf in IH.
    assert (Hk : dkeys (files_by_id s ++ [(file_id r, r)]) ++ map file_id l =
                 dkeys (files_by_id s) ++ file_id r :: map file_id l).
    { unfold dkeys. by rewrite map_app, <- app_assoc. }
    rewrite Hk in IH. destruct (decide _); [|done].
    destruct IH as (s' & Em & ? & Hf' & ? & ? & ?). exists s'. split_and!; try done.
    by rewrite Hf', <- app_assoc.
Qed.

Lemma mfor_app {S A} (l k : list A) (f : A -> st S unit) s :
  mfor (l ++ k) f s = (mfor l f;; mfor k f) s.
Proof.
  revert s. induction l as [|x l IH]; intros s; simpl; [done|].
  unfold mbind, st_bind in *. destruct (f x s) as [[|] s']; [apply IH|done].
Qed.

(** a candidate is composed exactly when it was rendered with the live
    timestamp overlay and its roots have different identifiers; it then holds
    the live roots that were not removed, the same objects in the same order,
    followed by the replacements, with consistent indices; otherwise the
    composition is refused with the error of the first failed condition. *)
Theorem compose_candidate_spec live removed replacements count gen :
  reachable live -> Forall (fun r => proper_root r = true) replacements ->
  let stale := match gen with Some g => negb (overlay_generation live =? g) | None => false end in
  let roots := kept_roots live removed ++ replacements in
  match compose_candidate live removed replacements count gen with
  | Ok s => stale = false /\ NoDup (map file_id roots) /\ files_by_id s = as_entries roots /\
            roots_ok s /\ overlay_generation s = Z.max 0 (overlay_generation live) /\
            tree_file_count s = Z.max 0 count /\ version s = 0 /\ listeners s = []
  | Raise e => stale = true /\
                 e = ModelError "Cannot reuse roots rendered with a stale downloaded timestamp overlay" \/
               stale = false /\ ~ NoDup (map file_id roots) /\
                 e = ModelError "Duplicate root while composing model candidate"
  end.
Proof.
  intros Hlive%reachable_roots Hrep stale roots. unfold compose_candidate. fold stale.
  destruct stale eqn:Est; [by left|].
  set (g := default (overlay_generation live) gen).
  assert (Hg : g = overlay_generation live).
  { subst g stale. destruct gen as [z|]; simpl; [|done]. apply negb_false_iff in Est. lia. }
  set (s0 := (set_downloaded_timestamp_overlay_generation g (empty_model (clock live))).2).
  assert (Hs0 : roots_ok s0).
  { apply (roots_ok_unchanged (empty_model (clock live))); [done|]. split; [apply empty_index|done]. }
  assert (Hproper : Forall (fun r => proper_root r = true) roots).
  { apply Forall_app. split; [|done]. apply Forall_forall. intros r [_ Hr]%list_elem_of_filter.
    apply iter_files_elem in Hr; [|apply Hlive]. by eapply Hlive. }
  pose proof (insert_all s0 roots Hs0 Hproper) as Hall. cbn [files_by_id s0 dkeys map app] in Hall.
  fold (kept_roots live removed).
  set (m := mfor (kept_roots live removed) insert_candidate_file).
  assert (Hrun : forall k : st model unit,
    (set_downloaded_timestamp_overlay_generation g;; m;; mfor replacements insert_candidate_file;; k)
      (empty_model (clock live)) = (mfor roots insert_candidate_file;; k) s0).
  { intros k. subst roots m. unfold mbind, st_bind. rewrite mfor_app. unfold mbind, st_bind.
    change (set_downloaded_timestamp_overlay_generation g (empty_model (clock live))) with (Ok tt, s0).
    cbv beta iota. by destruct (mfor (kept_roots live removed) insert_candidate_file s0) as [[|]]. }
  rewrite Hrun. change (dkeys (files_by_id s0)) with (@nil string) in Hall. cbn [app] in Hall.
  destruct (decide _) as [Hd|Hd].
  - destruct Hall as (s' & E & Hok & Hf & Hgen & Hv & Hls). rewrite (st_bind_ok _ _ _ _ _ E). simpl.
    split_and!; try done.
    + by apply (roots_ok_unchanged s').
    + rewrite Hgen. simpl. rewrite Hg. destruct (Z.leb_spec 0 (overlay_generation live)); lia.
    + destruct (Z.leb_spec 0 count); lia.
  - unfold mbind, st_bind. destruct (mfor roots insert_candidate_file s0) as [[|e] s'] eqn:E; [done|].
    simpl in Hall. injection Hall as ->. right. done.
Qed.

Lemma compose_candidate_spec_witness :
  let live := run_ops sample_ops (empty_model 0) in
  match compose_candidate live {[file_id (sample_root 1 "b" (Some "p"))]} [sample_root 7 "c" None] 2 None with
  | Ok s => files_by_id s = as_entries [sample_root 4 "b" (Some "q"); sample_root 7 "c" None]
  | Raise _ => False
  end.
Proof.
  intros live. assert (Hl : reachable live).
  { apply reachable_run_ops; [apply reachable_new | vm_compute; reflexivity]. }
  pose proof (compose_candidate_spec live {[file_id (sample_root 1 "b" (Some "p"))]} [sample_root 7 "c" None] 2 None Hl
    ltac:(apply Forall_cons_2; [reflexivity | apply Forall_nil_2])) as H.
  assert (E : is_ok (compose_candidate live {[file_id (sample_root 1 "b" (Some "p"))]}
    [sample_root 7 "c" None] 2 None) = true) by (vm_compute; reflexivity).
  destruct (compose_candidate live _ _ _ _) as [s|e]; [|discriminate E].
  destruct H as (_ & _ & Hf & _). rewrite Hf. vm_compute. reflexivity.
Defined.

(** ** Differences *)

Inductive Change := ADDED | REMOVED | UPDATED.

#[export] Instance Change_eq_dec : EqDecision Change.
Proof. solve_decision. Defined.

Record ModelDiff := mkDiff { change : Change; old_file : option fileref; new_file : option fileref }.

Definition get_file_of (s : model) (fid : string) : result fileref := (get_file fid s).1.

(** The comparison of a root present on both sides: shared objects are not
    compared. *)
Definition updated_diff (before after : model) (fid : string) : result (list ModelDiff) :=
  b ← get_file_of before fid;
  a ← get_file_of after fid;
  if Nat.eqb (ref_oid b) (ref_oid a) then Ok []
  else if negb (mf_eqb (ref_file b) (ref_file a)) then Ok [mkDiff UPDATED (Some b) (Some a)]
  else Ok [].

Fixpoint concat_results {A B} (f : A -> result (list B)) (l : list A) : result (list B) :=
  match l with
  | [] => Ok []
  | x :: l' => y ← f x; ys ← concat_results f l'; Ok (y ++ ys)
  end.

Definition diff_models (before after : model) : result (list ModelDiff) :=
  let ids_before := get_file_ids before in
  let ids_after := get_file_ids after in
  added ← concat_results (fun fid => r ← get_file_of after fid; Ok [mkDiff ADDED None (Some r)])
            (elements (ids_after ∖ ids_before));
  removed ← concat_results (fun fid => r ← get_file_of before fid; Ok [mkDiff REMOVED (Some r) None])
            (elements (ids_before ∖ ids_after));
  updated ← concat_results (updated_diff before after) (elements (ids_before ∩ ids_after));
  Ok (added ++ removed ++ updated).

Lemma concat_results_spec {A B} (f : A -> result (list B)) (g : A -> list B) l :
  (forall x, x ∈ l -> f x = Ok (g x)) -> concat_results f l = Ok (concat (map g l)).
Proof.
  induction l as [|x l IH]; simpl; intros H; [done|]. rewrite H by left. simpl.
  rewrite IH; [done|]. intros y Hy. apply H. by right.
Qed.

Lemma get_file_of_stored s fid r : dget (files_by_id s) fid = Some r -> get_file_of s fid = Ok r.
Proof.
  intros H. unfold get_file_of, get_file, get_ref, resolve_file_id, dhas, mbind, st_bind, gets, lift.
  by rewrite H, H.
Qed.

(** The difference between the roots of two models, entry by entry. *)
Definition is_difference (before after : model) (d : ModelDiff) : Prop :=
  match d with
  | mkDiff ADDED None (Some r) =>
      dget (files_by_id after) (file_id r) = Some r /\ dget (files_by_id before) (file_id r) = None
  | mkDiff REMOVED (Some r) None =>
      dget (files_by_id before) (file_id r) = Some r /\ dget (files_by_id after) (file_id r) = None
  | mkDiff UPDATED (Some b) (Some a) =>
      file_id a = file_id b /\ dget (files_by_id before) (file_id b) = Some b /\
      dget (files_by_id after) (file_id a) = Some a /\ mf_eqb (ref_file b) (ref_file a) = false
  | _ => False
  end.

Definition diff_ids (d : ModelDiff) : option string :=
  match new_file d with Some r => Some (file_id r) | None => file_id <$> old_file d end.

(** The same object has the same contents wherever it is referenced. *)
Definition shared_objects (before after : model) : Prop :=
  forall fid b a, dget (files_by_id before) fid = Some b -> dget (files_by_id after) fid = Some a ->
  ref_oid b = ref_oid a -> b = a.

(** The entry of one identifier in the difference. *)
Definition diff_at (before after : model) (fid : string) : list ModelDiff :=
  match dget (files_by_id before) fid, dget (files_by_id after) fid with
  | None, Some a => [mkDiff ADDED None (Some a)]
  | Some b, None => [mkDiff REMOVED (Some b) None]
  | Some b, Some a =>
      if Nat.eqb (ref_oid b) (ref_oid a) then []
      else if mf_eqb (ref_file b) (ref_file a) then [] else [mkDiff UPDATED (Some b) (Some a)]
  | None, None => []
  end.

Lemma elem_of_ids s fid : fid ∈ get_file_ids s <-> is_Some (dget (files_by_id s) fid).
Proof. apply elem_of_dkeyset. Qed.

Lemma diff_models_run before after :
  diff_models before after =
  Ok (concat (map (diff_at before after)
    (elements (get_file_ids after ∖ get_file_ids before) ++
     elements (get_file_ids before ∖ get_file_ids after) ++
     elements (get_file_ids before ∩ get_file_ids after)))).
Proof.
  set (B := get_file_ids before). set (A := get_file_ids after).
  assert (H1 : concat_results (fun fid => r ← get_file_of after fid; Ok [mkDiff ADDED None (Some r)])
    (elements (A ∖ B)) = Ok (concat (map (diff_at before after) (elements (A ∖ B))))).
  { apply concat_results_spec. intros fid [[a Ha]%elem_of_ids Hb]%elem_of_elements%elem_of_difference.
    unfold B in Hb. rewrite elem_of_ids, <- eq_None_not_Some in Hb. unfold diff_at.
    by rewrite (get_file_of_stored _ _ _ Ha), Hb, Ha. }
  assert (H2 : concat_results (fun fid => r ← get_file_of before fid; Ok [mkDiff REMOVED (Some r) None])
    (elements (B ∖ A)) = Ok (concat (map (diff_at before after) (elements (B ∖ A))))).
  { apply concat_results_spec. intros fid [[b Hb]%elem_of_ids Ha]%elem_of_elements%elem_of_difference.
    unfold A in Ha. rewrite elem_of_ids, <- eq_None_not_Some in Ha. unfold diff_at.
    by rewrite (get_file_of_stored _ _ _ Hb), Hb, Ha. }
  assert (H3 : concat_results (updated_diff before after) (elements (B ∩ A)) =
    Ok (concat (map (diff_at before after) (elements (B ∩ A))))).
  { apply concat_results_spec.
    intros fid [[b Hb]%elem_of_ids [a Ha]%elem_of_ids]%elem_of_elements%elem_of_intersection.
    unfold updated_diff, diff_at. rewrite (get_file_of_stored _ _ _ Hb), (get_file_of_stored _ _ _ Ha), Hb, Ha.
    simpl. destruct (Nat.eqb _ _); [done|]. by destruct (mf_eqb _ _). }
  unfold diff_models. fold A B. rewrite H1, H2, H3.
  simpl. by rewrite !map_app, !concat_app.
Qed.

Lemma diff_at_spec before after fid d : index_ok before -> index_ok after -> shared_objects before after ->
  d ∈ diff_at before after fid <-> is_difference before after d /\ diff_ids d = Some fid.
Proof.
  intros Hb Ha Hsh. unfold diff_at. split.
  - destruct (dget (files_by_id before) fid) as [b|] eqn:Eb, (dget (files_by_id after) fid) as [a|] eqn:Ea.
    + destruct (Nat.eqb _ _); [intros H; inversion H|]. destruct (mf_eqb _ _) eqn:Em; [intros H; inversion H|].
      intros ->%list_elem_of_singleton. pose proof (ix_keys _ Hb _ _ Eb). pose proof (ix_keys _ Ha _ _ Ea).
      simpl. unfold diff_ids. simpl. split_and!; congruence.
    + intros ->%list_elem_of_singleton. pose proof (ix_keys _ Hb _ _ Eb). simpl. unfold diff_ids. simpl.
      split_and!; congruence.
    + intros ->%list_elem_of_singleton. pose proof (ix_keys _ Ha _ _ Ea). simpl. unfold diff_ids. simpl.
      split_and!; congruence.
    + intros H. inversion H.
  - destruct d as [[] [b|] [a|]]; simpl; intros [Hd Hi]; try done; unfold diff_ids in Hi; simpl in Hi;
      injection Hi as <-.
    + destruct Hd as [-> ->]. by apply list_elem_of_singleton.
    + destruct Hd as [-> ->]. by apply list_elem_of_singleton.
    + destruct Hd as (Hid & Hob & Hoa & Hm). rewrite Hid in *. rewrite Hob, Hoa.
      destruct (Nat.eqb_spec (ref_oid b) (ref_oid a)) as [E|_].
      { rewrite (Hsh _ _ _ Hob Hoa E), mf_eqb_refl in Hm. done. }
      rewrite Hm. by apply list_elem_of_singleton.
Qed.

Lemma diff_at_length before after fid : (length (diff_at before after fid) <= 1)%nat.
Proof. unfold diff_at. repeat case_match; simpl; lia. Qed.

(** the difference of two models reports every root added, removed or
    changed, once, and nothing else: its entries are exactly the roots stored
    on one side only and those stored on both sides with unequal records, and
    no identifier has two entries.  Skipping the comparison of shared objects
    loses nothing. *)
Theorem diff_models_exact before after : reachable before -> reachable after ->
  shared_objects before after ->
  exists l, diff_models before after = Ok l /\
    (forall d, d ∈ l <-> is_difference before after d) /\ NoDup (map diff_ids l).
Proof.
  intros Hb%reachable_roots Ha%reachable_roots Hsh. eexists. split; [apply diff_models_run|].
  set (ids := elements _ ++ _).
  assert (Hids : forall fid, fid ∈ ids <-> is_Some (dget (files_by_id before) fid) \/ is_Some (dget (files_by_id after) fid)).
  { intros fid. subst ids. rewrite !elem_of_app, !elem_of_elements, elem_of_intersection, !elem_of_difference, !elem_of_ids.
    destruct (dget (files_by_id before) fid), (dget (files_by_id after) fid); naive_solver. }
  assert (Hnd : NoDup ids).
  { subst ids. apply NoDup_app. split_and!; [apply NoDup_elements| |].
    - intros x. rewrite elem_of_app, !elem_of_elements. set_solver.
    - apply NoDup_app. split_and!; [apply NoDup_elements| |apply NoDup_elements].
      intros x. rewrite !elem_of_elements. set_solver. }
  pose proof (fun fid d => diff_at_spec before after fid d (ro_index _ Hb) (ro_index _ Ha) Hsh) as Hat.
  split.
  - intros d. rewrite elem_of_concat_map. split.
    + intros (fid & _ & Hd). by apply Hat in Hd as [? _].
    + intros Hd. assert (Hfid : exists fid, diff_ids d = Some fid /\ fid ∈ ids).
      { destruct d as [[] [b|] [a|]]; simpl in Hd; try done; eexists; (split; [reflexivity|]); apply Hids.
        - destruct Hd as [-> _]. by right; eexists.
        - destruct Hd as [-> _]. by left; eexists.
        - destruct Hd as (_ & _ & -> & _). by right; eexists. }
      destruct Hfid as (fid & Hi & Hin). exists fid. split; [done|]. by apply Hat.
  - clearbody ids. clear Hids. induction Hnd as [|fid l Hfid Hnd IH]; simpl; [apply NoDup_nil_2|].
    rewrite map_app. apply NoDup_app. split_and!; [|intros i Hi Hi'|done].
    + pose proof (diff_at_length before after fid). destruct (diff_at before after fid) as [|d [|]];
        simpl in *; [apply NoDup_nil_2|apply NoDup_singleton|lia].
    + apply list_elem_of_fmap in Hi as (d & -> & [_ Hd]%Hat), Hi' as (d' & E & Hd').
      apply elem_of_concat_map in Hd' as (fid' & Hin & [_ Hd']%Hat). congruence.
Qed.

Lemma diff_models_exact_witness :
  let before := run_ops [OAdd (sample_root 1 "a" None) None; OAdd (sample_root 2 "b" None) None] (empty_model 0) in
  let after := run_ops [OAdd (sample_root 2 "b" None) None; OAdd (sample_root 3 "c" None) None] (empty_model 0) in
  exists l, diff_models before after = Ok l /\
    (forall d, d ∈ l <-> is_difference before after d) /\ NoDup (map diff_ids l).
Proof.
  intros before after. apply (diff_models_exact before after).
  - apply reachable_run_ops; [apply reachable_new | vm_compute; reflexivity].
  - apply reachable_run_ops; [apply reachable_new | vm_compute; reflexivity].
  - intros fid b a Hb Ha _. apply dget_Some_elem_of in Hb, Ha.
    assert (Eb : files_by_id before = [("a", sample_root 1 "a" None); ("b", sample_root 2 "b" None)]) by (vm_compute; reflexivity).
    assert (Ea : files_by_id after = [("b", sample_root 2 "b" None); ("c", sample_root 3 "c" None)]) by (vm_compute; reflexivity).
    rewrite Eb in Hb. rewrite Ea in Ha. apply list_elem_of_In in Hb, Ha. simpl in Hb, Ha.
    destruct Hb as [Hb|[Hb|[]]], Ha as [Ha|[Ha|[]]]; congruence.
Defined.
