(* ===== verification/PathPair.v ===== *)
(** * Path pairs ([common/path_pair.py])

    The remote/local directory pairs and the file they are kept in.  The
    collection is a list of validated pairs; the manager holds the loaded
    collection, the file and its backups.  What the file system and [uuid]
    answer are arguments: whether a read, a save or a copy succeeds, the
    random identifiers, and the name-based one. *)

From S2P Require Import Prelude PyDict PyStr Json.

(** ** Pairs *)

Record PathPair := mkPair {
  pair_id : string; pair_name : string; pair_remote : string; pair_local : string;
  pair_enabled : bool; pair_auto_queue : bool }.

#[export] Instance PathPair_eq_dec : EqDecision PathPair.
Proof. solve_decision. Defined.

(** The arguments of [PathPair(...)], of any type. *)
Record pair_args := mkArgs {
  a_remote : pyval; a_local : pyval; a_name : pyval; a_id : pyval; a_enabled : pyval; a_auto_queue : pyval }.

Definition default_name (remote : string) : string :=
  let base := basename (rstrip_char slash remote) in
  if String.eqb base "" then "Default" else base.

(** [__post_init__]: the name must be a string; an empty one is derived from
    the remote path. *)
Definition post_init (a : pair_args) : result pair_args :=
  match a_name a with
  | PyStr n =>
      match a_remote a with
      | PyStr r => if String.eqb n ""
                   then Ok (mkArgs (a_remote a) (a_local a) (PyStr (default_name r)) (a_id a) (a_enabled a) (a_auto_queue a))
                   else Ok a
      | _ => Ok a
      end
  | _ => Raise (PathPairError "name must be a string")
  end.

Definition blank (s : string) : bool := String.eqb (strip s) "".

(** [validate]: the checks in the source's order. *)
Definition validate (a : pair_args) : result PathPair :=
  match a_name a with
  | PyStr n =>
  match a_remote a with
  | PyStr r =>
  if blank r then Raise (PathPairError "remote_path cannot be empty") else
  match a_local a with
  | PyStr l =>
  if blank l then Raise (PathPairError "local_path cannot be empty") else
  match a_id a with
  | PyStr i =>
  if String.eqb i "" then Raise (PathPairError "id cannot be empty") else
  match a_enabled a with
  | PyBool e =>
  match a_auto_queue a with
  | PyBool q => Ok (mkPair i n r l e q)
  | _ => Raise (PathPairError "auto_queue must be a boolean")
  end
  | _ => Raise (PathPairError "enabled must be a boolean")
  end
  | _ => Raise (PathPairError "id must be a string")
  end
  | _ => Raise (PathPairError "local_path must be a string")
  end
  | _ => Raise (PathPairError "remote_path must be a string")
  end
  | _ => Raise (PathPairError "name must be a string")
  end.

(** Construction followed by validation, as every client does. *)
Definition make_pair (a : pair_args) : result PathPair := a' ← post_init a; validate a'.

(** ** Collections *)

Record PathPairCollection := mkColl { path_pairs : list PathPair; coll_version : json }.

Definition empty_collection : PathPairCollection := mkColl [] (JInt 1).

Definition get_enabled_pairs (c : PathPairCollection) : list PathPair :=
  filter (fun p => pair_enabled p = true) (path_pairs c).

Definition get_pair_by_id (c : PathPairCollection) (i : string) : option PathPair :=
  find (fun p => String.eqb (pair_id p) i) (path_pairs c).

Definition get_pair_by_name (c : PathPairCollection) (n : string) : option PathPair :=
  find (fun p => String.eqb (pair_name p) n) (path_pairs c).

(** Operations on the collection: explicit state. *)
Definition cst := st PathPairCollection.

Definition put_pairs (l : list PathPair) : cst unit :=
  modify (fun c => mkColl l (coll_version c)).

Definition add_pair (a : pair_args) : cst unit :=
  p ← lift (validate a);
  same_id ← gets (fun c => get_pair_by_id c (pair_id p));
  same_name ← gets (fun c => get_pair_by_name c (pair_name p));
  match same_id, same_name with
  | Some _, _ => raise (PathPairError ("Path pair with id '" +:+ pair_id p +:+ "' already exists"))
  | None, Some _ => raise (PathPairConflictError ("Path pair with name '" +:+ pair_name p +:+ "' already exists"))
  | None, None => l ← gets path_pairs; put_pairs (l ++ [p])
  end.

(** The first pair with the identifier, and its index. *)
Fixpoint index_of (i : string) (l : list PathPair) : option (nat * PathPair) :=
  match l with
  | [] => None
  | p :: l' => if String.eqb (pair_id p) i then Some (O, p)
               else (fun x => (S x.1, x.2)) <$> index_of i l'
  end.

Definition update_pair (a : pair_args) : cst unit :=
  p ← lift (validate a);
  c ← gets id;
  match index_of (pair_id p) (path_pairs c) with
  | None => raise (PathPairError ("Path pair with id '" +:+ pair_id p +:+ "' not found"))
  | Some (n, existing) =>
      if negb (String.eqb (pair_name existing) (pair_name p)) &&
         match get_pair_by_name c (pair_name p) with Some _ => true | None => false end
      then raise (PathPairConflictError ("Path pair with name '" +:+ pair_name p +:+ "' already exists"))
      else put_pairs (<[n := p]> (path_pairs c))
  end.

Definition remove_pair (i : string) : cst unit :=
  c ← gets id;
  match index_of i (path_pairs c) with
  | None => raise (PathPairError ("Path pair with id '" +:+ i +:+ "' not found"))
  | Some (n, _) => put_pairs (delete n (path_pairs c))
  end.

(** [sorted(a) != sorted(b)] *)
Definition same_multiset (a b : list string) : bool :=
  bool_decide (merge_sort String.le a = merge_sort String.le b).

Definition reorder_pairs (ids : list string) : cst unit :=
  c ← gets id;
  if negb (same_multiset ids (map pair_id (path_pairs c))) then
    raise (PathPairError "Reorder list must contain all existing path pair IDs")
  else
    let pairs_by_id := dfrom (map (fun p => (pair_id p, p)) (path_pairs c)) in
    l ← lift (mapM (fun i => match dget pairs_by_id i with Some p => Ok p | None => Raise KeyError end) ids);
    put_pairs l.

(** ** The file format *)

Definition pair_json (p : PathPair) : json :=
  JObj [("remote_path", JStr (pair_remote p)); ("local_path", JStr (pair_local p));
        ("name", JStr (pair_name p)); ("id", JStr (pair_id p));
        ("enabled", JBool (pair_enabled p)); ("auto_queue", JBool (pair_auto_queue p))].

Definition to_json (c : PathPairCollection) : json :=
  JObj [("version", coll_version c); ("path_pairs", JArr (map pair_json (path_pairs c)))].

Definition to_str (c : PathPairCollection) : string := dumps 2 (to_json c).

Definition invalid_json : exn := PersistError "Invalid path pairs JSON".

(** One entry of the file; [fresh] is the identifier drawn for it. *)
Definition pair_of_json (fresh : string) (v : json) : result PathPair :=
  match v with
  | JObj d =>
      match default (JStr fresh) (dget d "id"), default (JStr "") (dget d "name"),
            dget d "remote_path", dget d "local_path",
            default (JBool true) (dget d "enabled"), default (JBool true) (dget d "auto_queue") with
      | JStr i, JStr n, Some (JStr r), Some (JStr l), JBool e, JBool q =>
          match make_pair (mkArgs (PyStr r) (PyStr l) (PyStr n) (PyStr i) (PyBool e) (PyBool q)) with
          | Ok p => Ok p
          | Raise _ => Raise invalid_json
          end
      | _, _, _, _, _, _ => Raise invalid_json
      end
  | _ => Raise invalid_json
  end.

Fixpoint pairs_of_json (fresh : nat -> string) (n : nat) (l : list json) : result (list PathPair) :=
  match l with
  | [] => Ok []
  | v :: l' => p ← pair_of_json (fresh n) v; ps ← pairs_of_json fresh (S n) l'; Ok (p :: ps)
  end.

(** [isinstance(v, int)]: booleans are integers. *)
Definition is_int_json (v : json) : bool :=
  match v with JInt _ | JBool _ => true | _ => false end.

Definition from_str (fresh : nat -> string) (content : string) : result PathPairCollection :=
  match loads content with
  | Some (JObj d) =>
      ps ← (match default (JArr []) (dget d "path_pairs") with
            | JNull => Ok []
            | JArr l => pairs_of_json fresh 0 l
            | _ => Raise invalid_json
            end);
      let v := default (JInt 1) (dget d "version") in
      if is_int_json v then Ok (mkColl ps v) else Raise invalid_json
  | _ => Raise invalid_json
  end.

(** ** The manager *)

Record manager := mkManager {
  pm_collection : option PathPairCollection;
  pm_file : option string;
  pm_backups : dict string string }.

(** What the environment answers to one call. *)
Record answers := mkAnswers {
  can_read : bool; can_save : bool; can_copy : bool; fresh_ids : nat -> string }.

Definition mst := st manager.

Definition put_collection (c : option PathPairCollection) : mst unit :=
  modify (fun m => mkManager c (pm_file m) (pm_backups m)).

Definition backup_name (i : nat) : string :=
  "path_pairs.json." +:+ str (show_int (Z.of_nat i)) +:+ ".bak".

(** The search for a free backup name; the directory has finitely many. *)
Fixpoint free_backup (fuel i : nat) (taken : dict string string) : string :=
  match fuel with
  | O => backup_name i
  | S n => if dhas taken (backup_name i) then free_backup n (S i) taken else backup_name i
  end.

Definition backup_file (e : answers) : mst unit :=
  modify (fun m =>
    match pm_file m with
    | Some content =>
        if can_copy e then
          mkManager (pm_collection m) (pm_file m)
            (dset (pm_backups m) (free_backup (length (pm_backups m)) 1 (pm_backups m)) content)
        else m
    | None => m
    end).

Definition load (e : answers) : mst PathPairCollection :=
  file ← gets pm_file;
  match file with
  | None => put_collection (Some empty_collection);; mret empty_collection
  | Some content =>
      match (if can_read e then from_str (fresh_ids e) content else Raise OSError) with
      | Ok c => put_collection (Some c);; mret c
      | Raise _ =>
          backup_file e;; put_collection (Some empty_collection);; mret empty_collection
      end
  end.

Definition collection (e : answers) : mst PathPairCollection :=
  c ← gets pm_collection;
  match c with Some c => mret c | None => load e end.

(** Written to a temporary file and moved over the old one. *)
Definition save (e : answers) : mst unit :=
  c ← gets pm_collection;
  match c with
  | None => raise (PathPairError "No path pair collection loaded")
  | Some c =>
      if can_save e then modify (fun m => mkManager (pm_collection m) (Some (to_str c)) (pm_backups m))
      else raise (PersistError "Failed to save path pairs")
  end.

(** The mutation works on the loaded collection object; any failure puts the
    original pairs and version back. *)
Definition mutate_and_save (e : answers) (mutation : cst unit) : mst unit :=
  c ← collection e;
  (fun m =>
    let '(r, c') := mutation c in
    let m1 := mkManager (Some c') (pm_file m) (pm_backups m) in
    match (match r with Ok _ => save e m1 | Raise x => (Raise x, m1) end) with
    | (Ok u, m2) => (Ok u, m2)
    | (Raise x, m2) => (Raise x, mkManager (Some c) (pm_file m2) (pm_backups m2))
    end) : mst unit.

Definition m_add_pair (e : answers) (a : pair_args) : mst unit := mutate_and_save e (add_pair a).
Definition m_update_pair (e : answers) (a : pair_args) : mst unit := mutate_and_save e (update_pair a).
Definition m_remove_pair (e : answers) (i : string) : mst unit := mutate_and_save e (remove_pair i).
Definition m_reorder_pairs (e : answers) (ids : list string) : mst unit :=
  mutate_and_save e (reorder_pairs ids).

Section migrate.
(** [uuid.uuid5(NAMESPACE_URL, name)] *)
Context (uuid5 : string -> string).

Definition legacy_default_path_pair_id (remote local : string) : string :=
  uuid5 ("seedsync:v086:" +:+ remote +:+ str [chr 10] +:+ local).

Definition migrate_from_config (e : answers) (remote local : string) : mst bool :=
  c ← collection e;
  exists_file ← gets (fun m => match pm_file m with Some _ => true | None => false end);
  if negb (match path_pairs c with [] => true | _ => false end) || exists_file then mret false
  else if String.eqb remote "" || String.eqb local "" then mret false
  else if startswith remote "<" || startswith local "<" then mret false
  else
    a ← lift (post_init (mkArgs (PyStr remote) (PyStr local) (PyStr "Default")
                (PyStr (legacy_default_path_pair_id remote local)) (PyBool true) (PyBool true)));
    mutate_and_save e (add_pair a);;
    mret true.
End migrate.
