(* ===== verification/PathPairFacts.v ===== *)
(** * Path pairs: invariants, persistence and recovery *)

From S2P Require Import Prelude PyDict PyStr Json PathPair.

(** ** The collection *)

Definition pair_ok (p : PathPair) : Prop :=
  pair_id p <> "" /\ pair_name p <> "" /\ blank (pair_remote p) = false /\ blank (pair_local p) = false.

Record coll_ok (c : PathPairCollection) : Prop := {
  cl_ids : NoDup (map pair_id (path_pairs c));
  cl_names : NoDup (map pair_name (path_pairs c));
  cl_pairs : Forall pair_ok (path_pairs c);
  cl_version : is_int_json (coll_version c) = true /\ json_ok (coll_version c) }.

(** Arguments that went through the constructor. *)
Definition constructed (a : pair_args) : Prop := exists a0, post_init a0 = Ok a.

Lemma default_name_nonempty r : default_name r <> "".
Proof. unfold default_name. destruct (String.eqb_spec (basename (rstrip_char slash r)) ""); [done|done]. Qed.

Lemma validate_ok a p : constructed a -> validate a = Ok p -> pair_ok p.
Proof.
  intros [a0 Ha] Hv.
  assert (Hn : a_name a = PyStr "" -> forall r, a_remote a <> PyStr r).
  { revert Ha. unfold post_init. destruct (a_name a0) eqn:En; try done.
    destruct (a_remote a0) eqn:Er; try (intros [= <-] Hn r; congruence).
    destruct (String.eqb_spec s "") as [->|Hne]; intros [= <-]; simpl.
    - intros [= Hd]. by apply default_name_nonempty in Hd.
    - rewrite En. by intros [= ->]. }
  unfold validate in Hv. repeat (case_match; try done). simplify_eq.
  repeat match goal with E : String.eqb _ _ = false |- _ => apply String.eqb_neq in E end.
  split_and!; simpl; try done. intros ->. by eapply Hn.
Qed.

Lemma find_none_name n l : find (fun p => String.eqb (pair_name p) n) l = None <-> n ∉ map pair_name l.
Proof.
  induction l as [|p l IH]; simpl; [split; [intros _; apply not_elem_of_nil|done]|].
  rewrite not_elem_of_cons. destruct (String.eqb_spec (pair_name p) n); [split; [done|naive_solver]|]. rewrite IH. naive_solver.
Qed.

Lemma find_none_id n l : find (fun p => String.eqb (pair_id p) n) l = None <-> n ∉ map pair_id l.
Proof.
  induction l as [|p l IH]; simpl; [split; [intros _; apply not_elem_of_nil|done]|].
  rewrite not_elem_of_cons. destruct (String.eqb_spec (pair_id p) n); [split; [done|naive_solver]|]. rewrite IH. naive_solver.
Qed.

Lemma index_of_spec i l n p : index_of i l = Some (n, p) -> l !! n = Some p /\ pair_id p = i.
Proof.
  revert n. induction l as [|q l IH]; simpl; intros n; [done|].
  destruct (String.eqb_spec (pair_id q) i); [by intros [= <- <-]|].
  destruct (index_of i l) as [[m r]|]; simpl; [|done]. intros [= <- <-]. by apply IH.
Qed.

Lemma index_of_none i l : index_of i l = None <-> i ∉ map pair_id l.
Proof.
  induction l as [|q l IH]; simpl; [split; [intros _; apply not_elem_of_nil|done]|].
  rewrite not_elem_of_cons. destruct (String.eqb_spec (pair_id q) i); [split; [done|naive_solver]|].
  destruct (index_of i l) as [[]|]; simpl; naive_solver.
Qed.

(** Outcome of a collection operation: what it does when it returns, and that
    it leaves the collection alone when it raises. *)
Definition behaves (m : cst unit) (c : PathPairCollection) (Q : list PathPair -> Prop) : Prop :=
  match m c with
  | (Ok _, c') => coll_ok c' /\ coll_version c' = coll_version c /\ Q (path_pairs c')
  | (Raise _, c') => c' = c
  end.

Lemma add_pair_behaves a c : coll_ok c -> constructed a ->
  behaves (add_pair a) c (fun l => exists p, validate a = Ok p /\ l = path_pairs c ++ [p]).
Proof.
  intros [Hi Hn Hp Hv] Ha. unfold behaves, add_pair, mbind, st_bind, lift, gets.
  destruct (validate a) as [p|e] eqn:Ev; [|done].
  destruct (get_pair_by_id c (pair_id p)) eqn:Ei; [done|].
  destruct (get_pair_by_name c (pair_name p)) eqn:En; [done|]. simpl.
  apply find_none_id in Ei. apply find_none_name in En. split_and!; [|done|eauto].
  split; simpl; try done.
  - rewrite map_app. apply NoDup_app. split_and!; [done| |apply NoDup_singleton].
    intros x Hx Hx'. apply list_elem_of_singleton in Hx'. congruence.
  - rewrite map_app. apply NoDup_app. split_and!; [done| |apply NoDup_singleton].
    intros x Hx Hx'. apply list_elem_of_singleton in Hx'. congruence.
  - apply Forall_app. split; [done|]. apply Forall_singleton. by eapply validate_ok.
Qed.

Lemma map_insert {A B} (f : A -> B) (l : list A) n x : map f (<[n := x]> l) = <[n := f x]> (map f l).
Proof. apply (list_fmap_insert f). Qed.

Lemma NoDup_insert_fresh {A} (l : list A) n x y : l !! n = Some y ->
  NoDup l -> (x = y \/ x ∉ l) -> NoDup (<[n := x]> l).
Proof.
  intros Hy Hnd [->|Hx]; [by rewrite list_insert_id|].
  pose proof (lookup_lt_Some _ _ _ Hy) as Hlt. rewrite insert_take_drop by done.
  rewrite <- (take_drop_middle l n y Hy) in Hnd, Hx. revert Hnd Hx.
  rewrite !NoDup_app, !NoDup_cons, !elem_of_app, !elem_of_cons.
  intros (? & Hd & ? & ?) Hx. split_and!; try done; [|naive_solver].
  intros z Hz Hz'. apply elem_of_cons in Hz' as [->|?]; [naive_solver|].
  apply (Hd z Hz). by right.
Qed.

Lemma update_pair_behaves a c : coll_ok c -> constructed a ->
  behaves (update_pair a) c (fun l => exists p n old, validate a = Ok p /\ path_pairs c !! n = Some old /\
    pair_id old = pair_id p /\ l = <[n := p]> (path_pairs c)).
Proof.
  intros [Hi Hn Hp Hv] Ha. unfold behaves, update_pair, mbind, st_bind, lift, gets.
  destruct (validate a) as [p|e] eqn:Ev; [|done]. cbn [id].
  destruct (index_of (pair_id p) (path_pairs c)) as [[n old]|] eqn:Ei; [|done].
  apply index_of_spec in Ei as [Hl Hid].
  destruct (negb _ && _) eqn:Ec; [done|]. simpl. split_and!; [|done|by exists p, n, old].
  split; simpl; try done.
  - rewrite map_insert. eapply NoDup_insert_fresh; [|done|left; reflexivity].
    rewrite <- Hid. change (map pair_id) with (fmap (M := list) pair_id). by rewrite list_lookup_fmap, Hl.
  - rewrite map_insert. eapply (NoDup_insert_fresh _ _ _ (pair_name old)); [|done|].
    + change (map pair_name) with (fmap (M := list) pair_name). by rewrite list_lookup_fmap, Hl.
    + destruct (String.eqb_spec (pair_name old) (pair_name p)) as [E|Hne]; [by left|]. right.
      apply find_none_name. cbn [negb andb] in Ec. unfold get_pair_by_name in Ec. by destruct (find _ _).
  - apply Forall_insert; [done|]. by eapply validate_ok.
Qed.

Lemma remove_pair_behaves i c : coll_ok c ->
  behaves (remove_pair i) c (fun l => l = filter (fun p => pair_id p <> i) (path_pairs c) /\ i ∈ map pair_id (path_pairs c)).
Proof.
  intros [Hi Hn Hp Hv]. unfold behaves, remove_pair, mbind, st_bind, gets. cbn [id].
  destruct (index_of i (path_pairs c)) as [[n old]|] eqn:Ei; [|done]. simpl.
  apply index_of_spec in Ei as [Hl Hid].
  assert (Hdel : delete n (path_pairs c) = filter (fun p => pair_id p <> i) (path_pairs c)).
  { rewrite delete_take_drop. rewrite <- (take_drop_middle _ n old Hl) at 3. rewrite filter_app, filter_cons_False by naive_solver.
    rewrite <- (take_drop_middle _ n old Hl) in Hi. rewrite map_app in Hi. cbn [map] in Hi.
    rewrite NoDup_app, NoDup_cons in Hi. destruct Hi as (_ & Hd & Hnin & _).
    rewrite !filter_all_id; [done| |].
    - intros q Hq E. apply Hnin. rewrite Hid, <- E. by apply list_elem_of_fmap_2.
    - intros q Hq E. eapply Hd; [by apply list_elem_of_fmap_2|]. rewrite Hid, <- E. left. }
  split_and!; [|done|done|]. 2:{ rewrite <- Hid. apply list_elem_of_fmap_2. by eapply list_elem_of_lookup_2. }
  split; simpl; try done.
  - eapply sublist_NoDup; [exact Hi|]. apply (fmap_sublist pair_id). apply sublist_delete.
  - eapply sublist_NoDup; [exact Hn|]. apply (fmap_sublist pair_name). apply sublist_delete.
  - by apply Forall_delete.
Qed.

Lemma same_multiset_perm a b : same_multiset a b = true <-> a ≡ₚ b.
Proof.
  unfold same_multiset. rewrite bool_decide_eq_true. split.
  - intros E. rewrite <- (merge_sort_Permutation String.le a), E. apply merge_sort_Permutation.
  - intros Hp. eapply (StronglySorted_unique String.le).
    + apply StronglySorted_merge_sort; apply _.
    + apply StronglySorted_merge_sort; apply _.
    + by rewrite !merge_sort_Permutation.
Qed.

Lemma pairs_by_id_get l p : NoDup (map pair_id l) -> p ∈ l ->
  dget (dfrom (map (fun p => (pair_id p, p)) l)) (pair_id p) = Some p.
Proof.
  intros Hnd Hp. rewrite dget_dfrom.
  - apply dget_elem_of; [|by apply (list_elem_of_fmap_2 (fun p => (pair_id p, p)))].
    unfold dwf, dkeys. rewrite map_map. done.
  - rewrite map_map. done.
Qed.

Lemma reorder_pairs_behaves ids c : coll_ok c ->
  behaves (reorder_pairs ids) c (fun l => map pair_id l = ids /\ l ≡ₚ path_pairs c) /\
  ((reorder_pairs ids c).1 = Ok tt <-> ids ≡ₚ map pair_id (path_pairs c)).
Proof.
  intros [Hi Hn Hp Hv]. unfold behaves, reorder_pairs, mbind, st_bind, gets, lift. cbn [id].
  pose proof (same_multiset_perm ids (map pair_id (path_pairs c))) as Hm.
  destruct (same_multiset ids _); cbn [negb]; [|split; [done|]; simpl; split; [done|intros H%Hm; done]].
  destruct Hm as [Hm _]. specialize (Hm eq_refl).
  apply Permutation_map_inv in Hm as (l & -> & Hl).
  assert (E : mapM (fun i => match dget (dfrom (map (fun p => (pair_id p, p)) (path_pairs c))) i with
    | Some p => Ok p | None => Raise KeyError end) (map pair_id l) = Ok l).
  { assert (Hin : forall p, p ∈ l -> p ∈ path_pairs c) by (intros p; by rewrite Hl).
    clear Hl. induction l as [|p l IH]; [done|]. cbn [map mapM].
    rewrite pairs_by_id_get by (done || apply Hin; left). cbn [mbind result_bind].
    rewrite IH; [done|]. intros q Hq. apply Hin. by right. }
  rewrite E. simpl. split; [|split; [intros _|done]; by rewrite Hl].
  split_and!; [|done|done|by symmetry]. split; simpl; try done.
  - by rewrite <- Hl.
  - by rewrite <- Hl.
  - by rewrite <- Hl.
Qed.

(** the operations on the collection keep its invariant (unique
    identifiers, unique names, validated pairs) and do what they say: adding
    appends the validated pair, updating replaces the pair with its
    identifier in place, removing deletes that pair only, reordering arranges
    the same pairs in the order given and is accepted exactly for a
    permutation of the identifiers; an operation that raises leaves the
    collection as it was. *)
Theorem collection_operations c a i ids : coll_ok c -> constructed a ->
  behaves (add_pair a) c (fun l => exists p, validate a = Ok p /\ l = path_pairs c ++ [p]) /\
  behaves (update_pair a) c (fun l => exists p n old, validate a = Ok p /\ path_pairs c !! n = Some old /\
    pair_id old = pair_id p /\ l = <[n := p]> (path_pairs c)) /\
  behaves (remove_pair i) c (fun l => l = filter (fun p => pair_id p <> i) (path_pairs c) /\
    i ∈ map pair_id (path_pairs c)) /\
  behaves (reorder_pairs ids) c (fun l => map pair_id l = ids /\ l ≡ₚ path_pairs c) /\
  ((reorder_pairs ids c).1 = Ok tt <-> ids ≡ₚ map pair_id (path_pairs c)).
Proof.
  intros Hc Ha. split_and!.
  - by apply add_pair_behaves.
  - by apply update_pair_behaves.
  - by apply remove_pair_behaves.
  - by apply reorder_pairs_behaves.
  - by apply reorder_pairs_behaves.
Qed.

Definition sample_args (i n : string) : pair_args :=
  mkArgs (PyStr "/remote/tv/") (PyStr "/local") (PyStr n) (PyStr i) (PyBool true) (PyBool false).

Definition sample_pairs : PathPairCollection :=
  mkColl [mkPair "1" "tv" "/r" "/l" true true; mkPair "2" "film" "/r2" "/l2" true false] (JInt 1).

Lemma sample_pairs_ok : coll_ok sample_pairs.
Proof.
  split; simpl.
  - apply (bool_decide_unpack _). vm_compute. done.
  - apply (bool_decide_unpack _). vm_compute. done.
  - by repeat (apply Forall_cons_2 || apply Forall_nil_2).
  - split; [done|]. vm_compute. lia.
Qed.

Lemma collection_operations_witness :
  behaves (reorder_pairs ["2"; "1"]) sample_pairs (fun l => map pair_id l = ["2"; "1"] /\ l ≡ₚ path_pairs sample_pairs) /\
  (reorder_pairs ["2"; "1"] sample_pairs).1 = Ok tt /\ (add_pair (sample_args "3" "tv") sample_pairs).1 =
    Raise (PathPairConflictError "Path pair with name 'tv' already exists").
Proof.
  destruct (collection_operations sample_pairs (sample_args "3" "tv") "1" ["2"; "1"] sample_pairs_ok)
    as (_ & _ & _ & H & _).
  - exists (sample_args "3" "tv"). reflexivity.
  - split; [exact H|]. split; vm_compute; reflexivity.
Defined.

(** ** The file format *)

Lemma pair_json_ok p : json_ok (pair_json p).
Proof.
  apply json_ok_obj. split; [apply (bool_decide_unpack _); vm_compute; done|].
  by repeat (apply Forall_cons_2 || apply Forall_nil_2).
Qed.

Lemma to_json_ok c : json_ok (coll_version c) -> json_ok (to_json c).
Proof.
  intros Hv. apply json_ok_obj. split; [apply (bool_decide_unpack _); vm_compute; done|].
  apply Forall_cons_2; [done|]. apply Forall_cons_2; [|apply Forall_nil_2].
  apply json_ok_arr, Forall_fmap, Forall_forall. intros p _. apply pair_json_ok.
Qed.

Lemma make_pair_id p : pair_ok p ->
  make_pair (mkArgs (PyStr (pair_remote p)) (PyStr (pair_local p)) (PyStr (pair_name p)) (PyStr (pair_id p))
    (PyBool (pair_enabled p)) (PyBool (pair_auto_queue p))) = Ok p.
Proof.
  intros (Hi & Hn & Hr & Hl). unfold make_pair, post_init. simpl.
  destruct (String.eqb_spec (pair_name p) ""); [done|]. simpl. unfold validate. simpl. rewrite Hr, Hl.
  destruct (String.eqb_spec (pair_id p) ""); [done|]. by destruct p.
Qed.

Lemma pair_of_json_pair fresh p : pair_ok p -> pair_of_json fresh (pair_json p) = Ok p.
Proof. intros Hp. unfold pair_of_json, pair_json. simpl. by rewrite make_pair_id. Qed.

Lemma pairs_of_json_pairs fresh n l : Forall pair_ok l -> pairs_of_json fresh n (map pair_json l) = Ok l.
Proof.
  intros Hl. revert n. induction Hl as [|p l Hp Hl IH]; intros n; [done|]. cbn [map pairs_of_json].
  rewrite pair_of_json_pair by done. cbn [mbind result_bind]. by rewrite IH.
Qed.

Lemma from_to_str fresh c : coll_ok c -> from_str fresh (to_str c) = Ok c.
Proof.
  intros [_ _ Hp [Hi Hv]]. unfold from_str, to_str. rewrite loads_dumps by (by apply to_json_ok).
  unfold to_json. simpl. rewrite pairs_of_json_pairs by done. simpl. rewrite Hi. by destruct c.
Qed.

(** ** The manager *)

(** The collection the file stands for. *)
Definition stored (m : manager) (c : PathPairCollection) : Prop :=
  coll_ok c /\ (pm_file m = Some (to_str c) \/ pm_file m = None /\ c = empty_collection).

(** Loaded or not, memory agrees with the file. *)
Definition durable (m : manager) (c : PathPairCollection) : Prop :=
  stored m c /\ (pm_collection m = None \/ pm_collection m = Some c).

Lemma empty_collection_ok : coll_ok empty_collection.
Proof. split; simpl; try apply NoDup_nil_2; [apply Forall_nil_2|]. split; [done|]. vm_compute. lia. Qed.

Lemma collection_durable e m c : durable m c -> can_read e = true ->
  collection e m = (Ok c, mkManager (Some c) (pm_file m) (pm_backups m)).
Proof.
  intros [[Hc Hf] Hm] Hr. unfold collection, load, mbind, st_bind, gets.
  destruct m as [col file bk]. cbn [pm_collection pm_file pm_backups] in *.
  destruct Hm as [->| ->]; [|done]. destruct Hf as [->|[-> ->]]; [|done]. rewrite Hr. cbn [pm_file]. by rewrite from_to_str.
Qed.

(** A mutation either happens, in memory and in the file, or not at all. *)
Definition transacts (mutation : cst unit) (run : mst unit) (m : manager) (c : PathPairCollection) : Prop :=
  match run m with
  | (Ok _, m') => exists c', mutation c = (Ok tt, c') /\ durable m' c' /\ pm_collection m' = Some c' /\
                    pm_file m' = Some (to_str c')
  | (Raise x, m') => durable m' c /\ pm_collection m' = Some c /\ pm_file m' = pm_file m /\
                     ((mutation c).1 = Raise x \/ x = PersistError "Failed to save path pairs")
  end.

Lemma mutate_and_save_transacts e mutation m c Q : durable m c -> can_read e = true ->
  behaves mutation c Q -> transacts mutation (mutate_and_save e mutation) m c.
Proof.
  intros Hm Hr Hb. unfold transacts, mutate_and_save. rewrite (st_bind_ok _ _ _ _ _ (collection_durable e m c Hm Hr)).
  simpl. unfold behaves in Hb. destruct Hm as [[Hc Hf] _]. destruct (mutation c) as [[[]|x] c'] eqn:E.
  - unfold save, mbind, st_bind, gets. simpl. destruct (can_save e); simpl.
    + exists c'. split; [done|]. split; [|done]. split; [split; [apply Hb|by left]|by right].
    + split; [split; [by split|by right]|]. split; [done|]. split; [done|]. by right.
  - subst c'. simpl. split; [split; [by split|by right]|]. split; [done|]. split; [done|]. by left.
Qed.

(** The mutating calls of the manager, by what they do to the collection. *)
Inductive manager_op :=
  | MAdd (a : pair_args)
  | MUpdate (a : pair_args)
  | MRemove (i : string)
  | MReorder (ids : list string).

Definition op_mutation (o : manager_op) : cst unit :=
  match o with
  | MAdd a => add_pair a | MUpdate a => update_pair a | MRemove i => remove_pair i
  | MReorder ids => reorder_pairs ids
  end.

Definition run_manager (e : answers) (o : manager_op) : mst unit :=
  match o with
  | MAdd a => m_add_pair e a | MUpdate a => m_update_pair e a | MRemove i => m_remove_pair e i
  | MReorder ids => m_reorder_pairs e ids
  end.

Definition manager_op_ok (o : manager_op) : Prop :=
  match o with MAdd a | MUpdate a => constructed a | _ => True end.

(** A new process on the same file. *)
Definition restart (m : manager) : manager := mkManager None (pm_file m) (pm_backups m).

Lemma op_behaves o c : coll_ok c -> manager_op_ok o -> exists Q, behaves (op_mutation o) c Q.
Proof.
  intros Hc Ho. destruct o; simpl in *; eexists.
  - by apply add_pair_behaves.
  - by apply update_pair_behaves.
  - by apply remove_pair_behaves.
  - by apply reorder_pairs_behaves.
Qed.

Lemma run_manager_transacts e o m c : durable m c -> can_read e = true -> manager_op_ok o ->
  transacts (op_mutation o) (run_manager e o) m c.
Proof.
  intros Hm Hr Ho. destruct (op_behaves o c) as [Q HQ]; [apply Hm|done|].
  destruct o; by eapply mutate_and_save_transacts.
Qed.

(** The states of managers of one installation: fresh, after calls, after
    restarts; the file can be read, saves may fail. *)
Inductive installation : manager -> Prop :=
  | inst_new : installation (mkManager None None [])
  | inst_call m e o : installation m -> can_read e = true -> manager_op_ok o ->
      installation (run_manager e o m).2
  | inst_restart m : installation m -> installation (restart m).

Lemma installation_durable m : installation m -> exists c, durable m c.
Proof.
  induction 1 as [|m e o Hm [c IH] Hr Ho|m Hm [c IH]].
  - exists empty_collection. split; [split; [apply empty_collection_ok|by right]|by left].
  - pose proof (run_manager_transacts e o m c IH Hr Ho) as H. unfold transacts in H.
    destruct (run_manager e o m) as [[|] m']; simpl.
    + destruct H as (c' & _ & H & _). by exists c'.
    + exists c. apply H.
  - exists c. destruct IH as [[Hc Hf] _]. split; [split|by left]; done.
Qed.


Definition good_answers : answers := mkAnswers true true true (fun _ => "fresh").


(** ** Unreadable files *)

Lemma backup_name_inj i j : backup_name i = backup_name j -> i = j.
Proof.
  unfold backup_name. intros H%(f_equal chars). rewrite !chars_app in H. apply app_inv_head in H.
  rewrite !chars_str in H. apply app_inv_tail in H. apply show_int_inj in H; lia.
Qed.

Lemma free_backup_spec taken fuel i : dwf taken ->
  (forall j, (1 <= j < i)%nat -> dhas taken (backup_name j) = true) -> (1 <= i)%nat ->
  (length taken < fuel + i)%nat -> dget taken (free_backup fuel i taken) = None.
Proof.
  intros Hwf. revert i. induction fuel as [|fuel IH]; intros i Htaken Hi Hlen; simpl.
  - apply dget_None. intros Hin.
    set (names := map backup_name (seq 1 i)).
    assert (Hnd : NoDup names) by (apply NoDup_fmap_2; [intros ? ?; apply backup_name_inj|apply NoDup_seq]).
    assert (Hsub : forall x, x ∈ names -> x ∈ dkeys taken).
    { intros x Hx. apply list_elem_of_fmap in Hx as (j & -> & Hj). apply elem_of_seq in Hj.
      destruct (decide (j = i)) as [->|]; [done|]. apply dget_is_Some, dhas_true, Htaken. lia. }
    pose proof (submseteq_length _ _ (NoDup_submseteq _ _ Hnd Hsub)) as Hl.
    unfold names, dkeys in Hl. rewrite !length_map, length_seq in Hl. lia.
  - destruct (dhas taken (backup_name i)) eqn:E; [|by apply dhas_false].
    apply IH; [|lia|lia]. intros j Hj. destruct (decide (j = i)) as [->|]; [done|]. apply Htaken. lia.
Qed.

(** a path-pair file that cannot be read or does not parse is never lost
    by loading: the file keeps its content, a copy is kept under a backup name
    that was not in use (when copying works), no earlier backup is
    overwritten, and the service goes on with an empty collection. *)
Theorem unreadable_file_kept m e content :
  pm_file m = Some content -> dwf (pm_backups m) -> can_copy e = true ->
  (can_read e = false \/ is_ok (from_str (fresh_ids e) content) = false) ->
  let m' := (load e m).2 in
  (load e m).1 = Ok empty_collection /\ pm_file m' = Some content /\
  pm_collection m' = Some empty_collection /\
  (exists name, dget (pm_backups m) name = None /\ dget (pm_backups m') name = Some content) /\
  (forall name old, dget (pm_backups m) name = Some old -> dget (pm_backups m') name = Some old).
Proof.
  intros Hf Hwf Hcopy Hbad m'. 
  assert (E : load e m = (Ok empty_collection, mkManager (Some empty_collection) (Some content)
    (dset (pm_backups m) (free_backup (length (pm_backups m)) 1 (pm_backups m)) content))).
  { destruct m as [col file bk]; simpl in *. subst file.
    unfold load, mbind, st_bind, gets, backup_file, put_collection, modify. simpl. rewrite Hcopy.
    destruct (can_read e); [|done]. destruct Hbad as [|Hbad]; [done|].
    by destruct (from_str (fresh_ids e) content). }
  subst m'. rewrite E. simpl.
  assert (Hfree : dget (pm_backups m) (free_backup (length (pm_backups m)) 1 (pm_backups m)) = None).
  { apply free_backup_spec; [done| |lia|lia]. intros j Hj. lia. }
  split_and!; try done.
  - eexists. split; [exact Hfree|]. apply dget_dset_eq.
  - intros name old Ho. rewrite dget_dset_ne; [done|]. intros <-. congruence.
Qed.

Lemma unreadable_file_kept_witness :
  let m := mkManager None (Some "{broken") [("path_pairs.json.1.bak", "old")] in
  pm_file (load good_answers m).2 = Some "{broken" /\
  dget (pm_backups (load good_answers m).2) "path_pairs.json.2.bak" = Some "{broken".
Proof.
  intros m. destruct (unreadable_file_kept m good_answers "{broken") as (_ & H & _).
  - reflexivity.
  - apply NoDup_singleton.
  - reflexivity.
  - right. vm_compute. reflexivity.
  - split; [exact H|]. vm_compute. reflexivity.
Defined.
