(* ===== verification/AutoQueue.v ===== *)
(** * Auto-queue ([controller/auto_queue.py])

    The patterns and their file, the buffers the model listener fills, and
    the cycle that turns them into queue, extract and remote-delete commands.
    The controller is the interface the source names [_AutoQueueController]:
    here a class of its answers during one cycle.  The order in which Python
    iterates a set is unspecified; the model takes the order of [elements].
    The archive trace of a single file, switched on by an environment variable,
    only logs and is left out. *)

From S2P Require Import Prelude PyDict PyStr Json ModelFile PathPair.

(** ** Patterns *)

(** [AutoQueuePattern.to_str]: [json.dumps({"pattern": p})] *)
Definition pattern_to_str (p : string) : string :=
  str ("{"%char :: json_str_chars "pattern" ++ ":"%char :: " "%char :: json_str_chars p ++ ["}"%char]).

Definition json_object (content : string) : result (list (string * json)) :=
  match loads content with
  | Some (JObj d) => Ok d
  | Some _ => Raise TypeError
  | None => Raise ValueError
  end.

Definition pattern_from_str (content : string) : result string :=
  d ← json_object content;
  match dget d "pattern" with
  | Some (JStr p) => Ok p
  | Some _ => Raise TypeError
  | None => Raise KeyError
  end.

(** [AutoQueuePersist]: the patterns, and the log of the listener calls. *)
Inductive pattern_event := PatternAdded (l : nat) (p : string) | PatternRemoved (l : nat) (p : string).

Record AutoQueuePersist := mkPersist {
  aq_patterns : list string; aq_listeners : list nat; aq_calls : list pattern_event }.

Definition new_persist : AutoQueuePersist := mkPersist [] [] [].

Definition add_pattern (p : string) : st AutoQueuePersist unit :=
  if String.eqb (strip p) "" then raise ValueError else
  modify (fun s =>
    if bool_decide (p ∈ aq_patterns s) then s else
    mkPersist (aq_patterns s ++ [p]) (aq_listeners s)
      (aq_calls s ++ map (fun l => PatternAdded l p) (aq_listeners s))).

(** [list.remove]: the first occurrence. *)
Fixpoint remove_first (p : string) (l : list string) : list string :=
  match l with
  | [] => []
  | q :: l' => if String.eqb p q then l' else q :: remove_first p l'
  end.

Definition remove_pattern (p : string) : st AutoQueuePersist unit :=
  modify (fun s =>
    if bool_decide (p ∈ aq_patterns s) then
      mkPersist (remove_first p (aq_patterns s)) (aq_listeners s)
        (aq_calls s ++ map (fun l => PatternRemoved l p) (aq_listeners s))
    else s).

Definition add_pattern_listener (l : nat) : st AutoQueuePersist unit :=
  modify (fun s => mkPersist (aq_patterns s) (aq_listeners s ++ [l]) (aq_calls s)).

Definition persist_to_str (s : AutoQueuePersist) : string :=
  dumps 4 (JObj [("patterns", JArr (map (fun p => JStr (pattern_to_str p)) (aq_patterns s)))]).

Definition persist_from_str (content : string) : result AutoQueuePersist :=
  let parse : result AutoQueuePersist :=
    d ← json_object content;
    match dget d "patterns" with
    | None => Raise KeyError
    | Some (JArr l) =>
        match mfor l (fun v =>
          match v with
          | JStr s => p ← lift (pattern_from_str s); add_pattern p
          | _ => raise TypeError
          end) new_persist with
        | (Ok _, s) => Ok s
        | (Raise e, _) => Raise e
        end
    | Some _ => Raise TypeError
    end in
  match parse with
  | Ok s => Ok s
  | Raise _ => Raise (PersistError "Error parsing AutoQueuePersist")
  end.

(** Case-insensitive substring or wildcard match on the root's name. *)
Definition pattern_match (pattern : string) (r : fileref) : bool :=
  let p := lower pattern in
  let n := lower (name (ref_file r)) in
  contains n p || fnmatch n p.

(** ** The controller's side *)

Inductive Action := QUEUE_FILE | EXTRACT_FILE | DELETE_REMOTE_FILE.

#[export] Instance Action_eq_dec : EqDecision Action.
Proof. solve_decision. Defined.

Definition action_name (a : Action) : string :=
  match a with QUEUE_FILE => "QUEUE" | EXTRACT_FILE => "EXTRACT" | DELETE_REMOTE_FILE => "DELETE_REMOTE" end.

Record command := mkCommand {
  cmd_action : Action; cmd_file : string; cmd_flow : string; cmd_token : option (Z * Z) }.

(** What the controller answers during one cycle; the two effects may raise. *)
Class AutoQueueController := {
  model_roots : list fileref;
  is_file_stopped : string -> bool;
  is_owned_incomplete_transfer : fileref -> bool;
  is_path_pair_reconciled : option string -> bool;
  remote_delete_lifecycle_token : fileref -> Z * Z;
  is_remote_delete_eligible : fileref -> bool;
  has_current_process_final_publication : fileref -> bool;
  command_error : command -> option exn;
  marker_error : fileref -> option exn;
  enabled_path_pairs : option (option (list PathPair)) }.

(** The calls made, in order. *)
Inductive aq_event :=
  | AqCommand (c : command)
  | AqClearMarker (fid : string).

Record AutoQueue := mkAQ {
  aq_enabled : bool; aq_patterns_only : bool; aq_auto_extract : bool; aq_auto_delete_remote : bool;
  aq_pair_auto_queue : dict string bool; queue_enabled : bool; cycle_sequence : Z; idle_recorded : bool;
  deferred_remote_delete : gset string; initial_reconciliation : gset string;
  new_files : list fileref; modified_files : list (fileref * fileref); removed_file_ids : gset string;
  new_patterns : gset string; patterns : gset string; aq_log : list aq_event }.

Definition set_queue (s : AutoQueue) (pairs : dict string bool) (q : bool) : AutoQueue :=
  mkAQ (aq_enabled s) (aq_patterns_only s) (aq_auto_extract s) (aq_auto_delete_remote s) pairs q
    (cycle_sequence s) (idle_recorded s) (deferred_remote_delete s) (initial_reconciliation s)
    (new_files s) (modified_files s) (removed_file_ids s) (new_patterns s) (patterns s) (aq_log s).
Definition set_cycle (s : AutoQueue) (n : Z) (idle : bool) : AutoQueue :=
  mkAQ (aq_enabled s) (aq_patterns_only s) (aq_auto_extract s) (aq_auto_delete_remote s) (aq_pair_auto_queue s)
    (queue_enabled s) n idle (deferred_remote_delete s) (initial_reconciliation s)
    (new_files s) (modified_files s) (removed_file_ids s) (new_patterns s) (patterns s) (aq_log s).
Definition set_lineage (s : AutoQueue) (deferred initial : gset string) : AutoQueue :=
  mkAQ (aq_enabled s) (aq_patterns_only s) (aq_auto_extract s) (aq_auto_delete_remote s) (aq_pair_auto_queue s)
    (queue_enabled s) (cycle_sequence s) (idle_recorded s) deferred initial
    (new_files s) (modified_files s) (removed_file_ids s) (new_patterns s) (patterns s) (aq_log s).
Definition set_buffers (s : AutoQueue) (nf : list fileref) (mf : list (fileref * fileref))
    (removed np : gset string) : AutoQueue :=
  mkAQ (aq_enabled s) (aq_patterns_only s) (aq_auto_extract s) (aq_auto_delete_remote s) (aq_pair_auto_queue s)
    (queue_enabled s) (cycle_sequence s) (idle_recorded s) (deferred_remote_delete s) (initial_reconciliation s)
    nf mf removed np (patterns s) (aq_log s).
Definition set_patterns (s : AutoQueue) (ps np : gset string) : AutoQueue :=
  mkAQ (aq_enabled s) (aq_patterns_only s) (aq_auto_extract s) (aq_auto_delete_remote s) (aq_pair_auto_queue s)
    (queue_enabled s) (cycle_sequence s) (idle_recorded s) (deferred_remote_delete s) (initial_reconciliation s)
    (new_files s) (modified_files s) (removed_file_ids s) np ps (aq_log s).
Definition log_event (e : aq_event) (s : AutoQueue) : AutoQueue :=
  mkAQ (aq_enabled s) (aq_patterns_only s) (aq_auto_extract s) (aq_auto_delete_remote s) (aq_pair_auto_queue s)
    (queue_enabled s) (cycle_sequence s) (idle_recorded s) (deferred_remote_delete s) (initial_reconciliation s)
    (new_files s) (modified_files s) (removed_file_ids s) (new_patterns s) (patterns s) (aq_log s ++ [e]).

(** ** Listener callbacks *)

Definition file_added (r : fileref) : st AutoQueue unit :=
  modify (fun s => set_buffers s (new_files s ++ [r]) (modified_files s) (removed_file_ids s) (new_patterns s)).
Definition file_updated (old new : fileref) : st AutoQueue unit :=
  modify (fun s => set_buffers s (new_files s) (modified_files s ++ [(old, new)]) (removed_file_ids s) (new_patterns s)).
Definition file_removed (r : fileref) : st AutoQueue unit :=
  modify (fun s => set_buffers s (new_files s) (modified_files s) ({[file_id r]} ∪ removed_file_ids s) (new_patterns s)).
Definition pattern_added (p : string) : st AutoQueue unit :=
  modify (fun s => set_patterns s ({[p]} ∪ patterns s) ({[p]} ∪ new_patterns s)).
Definition pattern_removed (p : string) : st AutoQueue unit :=
  modify (fun s => set_patterns s (patterns s ∖ {[p]}) (new_patterns s ∖ {[p]})).

(** ** Remote trees *)

(** [__remote_tree_fingerprint]'s tuple *)
Inductive fingerprint :=
  FP (fp_name : string) (fp_dir fp_present : bool) (fp_size : option Z) (fp_content : bool)
     (fp_children : list fingerprint).

Definition fp_key (f : fingerprint) : string := let 'FP n _ _ _ _ _ := f in n.

Fixpoint fp_insert (f : fingerprint) (l : list fingerprint) : list fingerprint :=
  match l with
  | [] => [f]
  | g :: l' => if decide (String.le (fp_key f) (fp_key g)) then f :: l else g :: fp_insert f l'
  end.

(** [list.sort(key=...)], stable *)
Definition fp_sort (l : list fingerprint) : list fingerprint := foldr fp_insert [] l.

Definition remote_evidence (f : ModelFile) : bool :=
  remote_present f || match remote_size f with Some _ => true | None => false end ||
  remote_has_transferable_content f.

Fixpoint remote_tree_fingerprint (f : ModelFile) : option fingerprint :=
  match f with
  | mkFile fl cs =>
      let f := mkFile fl None in
      let go := fix go l :=
        match l with
        | [] => []
        | c :: l' => match remote_tree_fingerprint c with Some p => p :: go l' | None => go l' end
        end in
      let children := fp_sort (match cs with Some l => go l | None => [] end) in
      if negb (remote_evidence f) && match children with [] => true | _ => false end then None
      else Some (FP (name f) (is_dir f) (remote_present f) (remote_size f)
                   (remote_has_transferable_content f) children)
  end.

Fixpoint fp_eqb (a b : fingerprint) : bool :=
  match a, b with
  | FP n d p s c l, FP n' d' p' s' c' l' =>
      String.eqb n n' && Bool.eqb d d' && Bool.eqb p p' && bool_decide (s = s') && Bool.eqb c c' &&
      (fix go l l' :=
         match l, l' with
         | [], [] => true
         | x :: l, y :: l' => fp_eqb x y && go l l'
         | _, _ => false
         end) l l'
  end.

Definition fp_opt_eqb (a b : option fingerprint) : bool :=
  match a, b with Some a, Some b => fp_eqb a b | None, None => true | _, _ => false end.

Definition is_remote_discovery_changed (old new : ModelFile) : bool :=
  negb (bool_decide (remote_size old = remote_size new)) ||
  (negb (remote_has_transferable_content old) && remote_has_transferable_content new) ||
  (negb (remote_present old) && remote_present new && remote_has_transferable_content new) ||
  negb (fp_opt_eqb (remote_tree_fingerprint old) (remote_tree_fingerprint new)).

(** A remotely new, locally absent branch below the root. *)
Fixpoint has_new_remote_only_transfer_branch (old new : ModelFile) {struct new} : bool :=
  match new with
  | mkFile _ cs =>
      let go := fix go l :=
         match l with
         | [] => false
         | c :: l' =>
             let old_child := last_named (name c) (get_children old) in
             if match old_child with Some o => negb (Bool.eqb (is_dir o) (is_dir c)) | None => false end
             then go l'
             else if remote_present c && remote_has_transferable_content c &&
                     match old_child with Some o => negb (remote_present o) | None => true end &&
                     negb (local_present c)
             then true
             else if match old_child with Some o => has_new_remote_only_transfer_branch o c | None => false end
             then true
             else go l'
         end in
      match cs with Some l => go l | None => false end
  end.

Definition is_active_transfer_state (s : State) : bool :=
  match s with QUEUED | DOWNLOADING => true | _ => false end.

(** ** Decisions *)

Definition match_ : Type := fileref * option string.

Section decisions.
Context `{AutoQueueController}.

Definition is_reconciliation_ready (r : fileref) : bool :=
  is_path_pair_reconciled (path_pair_id (ref_file r)).

Definition is_auto_queue_enabled_for_file (s : AutoQueue) (r : fileref) : bool :=
  match aq_pair_auto_queue s with
  | [] => true
  | d => match path_pair_id (ref_file r) with
         | None => false
         | Some p => default false (dget d p)
         end
  end.

Definition is_owned_incomplete_directory (r : fileref) : bool :=
  is_dir (ref_file r) && is_owned_incomplete_transfer r.

Definition current_model_by_id : dict string fileref :=
  dfrom (map (fun r => (file_id r, r)) model_roots).

(** One candidate of the first step of the filter. *)
Definition match_candidate (s : AutoQueue) (current : dict string fileref) (accept : fileref -> bool)
    (acc : dict string match_) (candidate : fileref) : dict string match_ :=
  match dget current (file_id candidate) with
  | None => acc
  | Some f =>
      if negb (is_reconciliation_ready f) then acc
      else if aq_patterns_only s then
        match find (fun p => accept f && pattern_match p f) (elements (patterns s)) with
        | Some p => dset acc (file_id f) (f, Some p)
        | None => acc
        end
      else if accept f then dset acc (file_id f) (f, None)
      else acc
  end.

(** One pattern and root of the second step. *)
Definition match_new_pattern (accept : fileref -> bool) (p : string)
    (acc : dict string match_) (f : fileref) : dict string match_ :=
  if is_reconciliation_ready f && accept f && pattern_match p f
  then dset acc (file_id f) (f, Some p) else acc.

Definition filter_candidates (s : AutoQueue) (candidates : list fileref) (np : gset string)
    (current : dict string fileref) (accept : fileref -> bool) : list match_ :=
  let step1 := fold_left (match_candidate s current accept) candidates [] in
  let step2 := fold_left (fun acc p => fold_left (match_new_pattern accept p) (dvals current) acc)
                 (elements np) step1 in
  dvals step2.

Definition queue_accept (s : AutoQueue) (f : fileref) : bool :=
  remote_has_transferable_content (ref_file f) && bool_decide (state (ref_file f) = DEFAULT) &&
  (negb (local_present (ref_file f)) || is_owned_incomplete_directory f) &&
  is_auto_queue_enabled_for_file s f.

Definition update_accept (s : AutoQueue) (proofs : dict string bool) (f : fileref) : bool :=
  remote_has_transferable_content (ref_file f) && bool_decide (state (ref_file f) = DEFAULT) &&
  (negb (local_present (ref_file f)) || is_owned_incomplete_directory f ||
   default false (dget proofs (file_id f))) &&
  is_auto_queue_enabled_for_file s f.

Definition extract_accept (f : fileref) : bool :=
  bool_decide (state (ref_file f) = DOWNLOADED) &&
  match local_size (ref_file f) with Some z => 0 <? z | None => false end &&
  truthy (is_extractable (ref_file f)).

(** The updates that changed the remote side: those of roots that were
    remote before, and the newly discovered ones. *)
Definition actual_updates (l : list (fileref * fileref)) : list (fileref * fileref) :=
  filter (fun e => is_remote_discovery_changed (ref_file e.1) (ref_file e.2) && remote_present (ref_file e.1) = true) l.
Definition remote_discoveries (l : list (fileref * fileref)) : list (fileref * fileref) :=
  filter (fun e => is_remote_discovery_changed (ref_file e.1) (ref_file e.2) && negb (remote_present (ref_file e.1)) = true) l.

Definition update_proofs (l : list (fileref * fileref)) : dict string bool :=
  fold_left (fun d e => dset d (file_id e.2)
    (default false (dget d (file_id e.2)) ||
     has_new_remote_only_transfer_branch (ref_file e.1) (ref_file e.2))) (actual_updates l) [].

Definition files_to_queue (s : AutoQueue) (np : gset string) (current : dict string fileref) : list match_ :=
  if negb (queue_enabled s) then [] else
  let fresh := filter_candidates s (new_files s) np current (queue_accept s) in
  let updated := filter_candidates s (map snd (actual_updates (modified_files s))) np current
                   (update_accept s (update_proofs (modified_files s))) in
  let found := filter_candidates s (map snd (remote_discoveries (modified_files s))) np current
                 (queue_accept s) in
  let by_id := fold_left (fun d (m : match_) => dset d (file_id m.1) m) (fresh ++ updated ++ found) [] in
  filter (fun m : match_ => is_file_stopped (file_id m.1) = false) (dvals by_id).

(** Just became DOWNLOADED, and not by a failed extraction. *)
Definition just_downloaded (old new : fileref) : bool :=
  negb (bool_decide (state (ref_file old) = DOWNLOADED)) &&
  negb (bool_decide (state (ref_file old) = EXTRACTING)) &&
  bool_decide (state (ref_file new) = DOWNLOADED).

Definition extract_candidates (s : AutoQueue) : list fileref :=
  new_files s ++ map snd (filter (fun e => just_downloaded e.1 e.2 = true) (modified_files s)).

Definition files_to_extract (s : AutoQueue) (np : gset string) (current : dict string fileref) : list match_ :=
  if aq_enabled s && aq_auto_extract s
  then filter_candidates s (extract_candidates s) np current extract_accept else [].

(** Extractable downloads no pattern selected: their marker is cleared. *)
Definition blocked_extracts (s : AutoQueue) (selected : gset string) : list fileref :=
  if aq_enabled s && aq_auto_extract s && aq_patterns_only s then
    map snd (filter (fun e => just_downloaded e.1 e.2 && extract_accept e.2 &&
                              bool_decide (file_id e.2 ∉ selected) = true) (modified_files s))
  else [].

Definition is_remote_delete_transition (old new : ModelFile) : bool :=
  if negb (remote_has_transferable_content new) then false
  else if bool_decide (state old = state new) then false
  else match state new with
       | EXTRACTED => bool_decide (state old = EXTRACTING)
       | DOWNLOADED =>
           if truthy (is_extractable new) then false
           else match state old with DOWNLOADED | EXTRACTED | EXTRACTING => false | _ => true end
       | _ => false
       end.

(** A completion of this process: the transfer was running, or its result was
    published by this process. *)
Definition completed_here (old current : fileref) : bool :=
  is_active_transfer_state (state (ref_file old)) || has_current_process_final_publication current.

(** Accumulator of the remote-delete scan. *)
Record lineage := mkLineage {
  li_deferred : gset string; li_initial : gset string; li_matched : dict string match_ }.

Definition delete_step (s : AutoQueue) (current : dict string fileref) (acc : lineage)
    (event : fileref * fileref) : lineage :=
  let '(old, new) := event in
  match dget current (file_id new) with
  | None => acc
  | Some f =>
      let fid := file_id f in
      if negb (is_reconciliation_ready f) then
        mkLineage ({[fid]} ∪ li_deferred acc) (li_initial acc) (li_matched acc)
      else if bool_decide (fid ∈ li_deferred acc) && negb (completed_here old f) then acc
      else
        let acc := mkLineage (li_deferred acc ∖ {[fid]}) (li_initial acc) (li_matched acc) in
        if bool_decide (fid ∈ li_initial acc) && negb (completed_here old f) then acc
        else
          let acc := mkLineage (li_deferred acc) (li_initial acc ∖ {[fid]}) (li_matched acc) in
          if negb (is_auto_queue_enabled_for_file s f) then acc
          else if negb (is_remote_delete_eligible f) then acc
          else if negb (is_remote_delete_transition (ref_file old) (ref_file f)) then acc
          else if aq_patterns_only s then
            match find (fun p => pattern_match p f) (elements (patterns s)) with
            | Some p => mkLineage (li_deferred acc) (li_initial acc) (dset (li_matched acc) fid (f, Some p))
            | None => acc
            end
          else mkLineage (li_deferred acc) (li_initial acc) (dset (li_matched acc) fid (f, None))
  end.

(** Roots seen before their pair was reconciled. *)
Definition seen_unreconciled (s : AutoQueue) (current : dict string fileref) : gset string :=
  list_to_set (filter_map (fun r =>
    match dget current (file_id r) with
    | Some f => if is_reconciliation_ready f then None else Some (file_id f)
    | None => None
    end) (new_files s)).

Definition filter_delete_remote_candidates (s : AutoQueue) (current : dict string fileref) : lineage :=
  if negb (aq_auto_delete_remote s) then mkLineage (deferred_remote_delete s) (initial_reconciliation s) []
  else fold_left (delete_step s current) (modified_files s)
         (mkLineage (deferred_remote_delete s) (initial_reconciliation s ∪ seen_unreconciled s current) []).

(** ** Events kept for the next cycle *)

Definition retain_remote_growth_event (s : AutoQueue) (current : dict string fileref)
    (selected : gset string) (old new : fileref) : bool :=
  match dget current (file_id new) with
  | None => false
  | Some f =>
      if negb (is_reconciliation_ready new) then true
      else if negb (is_active_transfer_state (state (ref_file old))) ||
              negb (is_remote_discovery_changed (ref_file old) (ref_file new)) then false
      else if bool_decide (file_id new ∈ selected) then false
      else if negb (is_dir (ref_file f)) || negb (remote_has_transferable_content (ref_file f)) then false
      else if is_active_transfer_state (state (ref_file f)) then negb (is_file_stopped (file_id f))
      else if negb (bool_decide (state (ref_file f) = DEFAULT)) || is_file_stopped (file_id f) then false
      else if negb (is_owned_incomplete_directory f) then false
      else if negb (is_auto_queue_enabled_for_file s f) then false
      else negb (aq_patterns_only s) || existsb (fun p => pattern_match p f) (elements (patterns s))
  end.

(** ** Why a candidate was not selected *)

Definition queue_block_reason (s : AutoQueue) (r : fileref) : string :=
  let f := ref_file r in
  match remote_size f with
  | None => "missing_remote"
  | Some _ =>
      if negb (remote_has_transferable_content f) then "no_transferable_remote_content"
      else if negb (bool_decide (state f = DEFAULT)) then "state_not_default"
      else if match local_size f with Some z => negb (z =? 0) | None => false end then "local_present"
      else if aq_patterns_only s && negb (existsb (fun p => pattern_match p r) (elements (patterns s)))
      then "pattern_no_match"
      else if is_file_stopped (file_id r) then "explicitly_stopped"
      else "filtered_out"
  end.

Definition extract_block_reason (s : AutoQueue) (r : fileref) : string :=
  let f := ref_file r in
  if negb (aq_auto_extract s) then "auto_extract_disabled"
  else if negb (bool_decide (state f = DOWNLOADED)) then "state_not_downloaded"
  else match local_size f with
       | None => "missing_local_size"
       | Some z =>
           if z <=? 0 then "empty_local_size"
           else if negb (truthy (is_extractable f)) then "not_extractable"
           else if aq_patterns_only s && negb (existsb (fun p => pattern_match p r) (elements (patterns s)))
           then "pattern_no_match"
           else "filtered_out"
       end.

(** The reason counts of one lane, each candidate counted once. *)
Fixpoint summarize_decisions (reason : fileref -> string) (selected seen : gset string)
    (counts : dict string Z) (l : list fileref) : dict string Z :=
  match l with
  | [] => counts
  | r :: l' =>
      if bool_decide (file_id r ∈ seen) then summarize_decisions reason selected seen counts l'
      else
        let seen' := {[file_id r]} ∪ seen in
        if bool_decide (file_id r ∈ selected) then summarize_decisions reason selected seen' counts l'
        else summarize_decisions reason selected seen'
               (dset counts (reason r) (default 0 (dget counts (reason r)) + 1)) l'
  end.

(** ** The cycle *)

Definition refresh_queue_state : st AutoQueue unit :=
  modify (fun s =>
    let s := set_queue s [] (aq_enabled s) in
    match enabled_path_pairs with
    | Some (Some ((_ :: _) as pairs)) =>
        let d := dfrom (map (fun p => (PathPair.pair_id p, PathPair.pair_auto_queue p)) pairs) in
        set_queue s d (existsb id (dvals d))
    | _ => s
    end).

Definition discard_inactive_buffers : st AutoQueue unit :=
  modify (fun s => set_buffers s [] [] (removed_file_ids s) ∅).

Definition drop_removed : st AutoQueue unit :=
  modify (fun s =>
    let X := removed_file_ids s in
    set_buffers (set_lineage s (deferred_remote_delete s ∖ X) (initial_reconciliation s ∖ X))
      (new_files s) (modified_files s) ∅ (new_patterns s)).

Definition drain_new_patterns : st AutoQueue (gset string) :=
  np ← gets new_patterns;
  modify (fun s => set_buffers s (new_files s) (modified_files s) (removed_file_ids s) ∅);;
  mret np.

Definition restore_new_patterns (np : gset string) : st AutoQueue unit :=
  modify (fun s => set_buffers s (new_files s) (modified_files s) (removed_file_ids s) (np ∪ new_patterns s)).

Definition make_command (cycle : Z) (a : Action) (r : fileref) (token : option (Z * Z)) : command :=
  mkCommand a (file_id r)
    ("autoq:" +:+ str (show_int cycle) +:+ ":" +:+ action_name a +:+ ":" +:+ file_id r) token.

Definition queue_command (c : command) : st AutoQueue unit :=
  match command_error c with
  | Some e => raise e
  | None => modify (log_event (AqCommand c))
  end.

Definition clear_extracted_marker (r : fileref) : st AutoQueue unit :=
  match marker_error r with
  | Some e => raise e
  | None => modify (log_event (AqClearMarker (file_id r)))
  end.

Definition match_ids (l : list match_) : gset string := list_to_set (map (fun m => file_id m.1) l).

Definition send_commands (a : Action) (token : fileref -> option (Z * Z)) (l : list match_) : st AutoQueue unit :=
  mfor l (fun m =>
    cycle ← gets cycle_sequence;
    queue_command (make_command cycle a m.1 (token m.1))).

(** The part of a cycle whose failure gives the drained patterns back. *)
Definition run_cycle (np : gset string) : st AutoQueue unit :=
  let current := current_model_by_id in
  queued ← gets (fun s => files_to_queue s np current);
  extracted ← gets (fun s => files_to_extract s np current);
  blocked ← gets (fun s => blocked_extracts s (match_ids extracted));
  mfor blocked clear_extracted_marker;;
  enabled ← gets aq_enabled;
  deleted ← gets (fun s =>
    if enabled : bool then filter_delete_remote_candidates s current
    else mkLineage (deferred_remote_delete s) (initial_reconciliation s) []);
  modify (fun s => set_lineage s (li_deferred deleted) (li_initial deleted));;
  send_commands QUEUE_FILE (fun _ => None) queued;;
  send_commands EXTRACT_FILE (fun _ => None) extracted;;
  send_commands DELETE_REMOTE_FILE (fun r => Some (remote_delete_lifecycle_token r)) (dvals (li_matched deleted));;
  modify (fun s =>
    let ids := dkeyset current in
    set_buffers
      (set_lineage s (deferred_remote_delete s ∩ ids) (initial_reconciliation s ∩ ids))
      (filter (fun r => bool_decide (file_id r ∈ ids) && negb (is_reconciliation_ready r) = true) (new_files s))
      (filter (fun e => retain_remote_growth_event s current (match_ids queued) e.1 e.2 = true) (modified_files s))
      (removed_file_ids s) (new_patterns s)).

(** [try: ... except Exception: restore; raise] *)
Definition guarded_cycle (np : gset string) : st AutoQueue unit := fun s =>
  match run_cycle np s with
  | (Ok u, s') => (Ok u, s')
  | (Raise e, s') => (Raise e, (restore_new_patterns (np ∩ patterns s') s').2)
  end.

Definition process_once : st AutoQueue unit :=
  refresh_queue_state;;
  drop_removed;;
  s0 ← gets (fun s : AutoQueue => s);
  if negb (aq_enabled s0) && negb (queue_enabled s0) then discard_inactive_buffers else
  modify (fun s => set_cycle s (cycle_sequence s + 1) (idle_recorded s));;
  np ← drain_new_patterns;
  s1 ← gets (fun s : AutoQueue => s);
  if bool_decide (np = ∅) && match new_files s1 with [] => true | _ => false end &&
     match modified_files s1 with [] => true | _ => false end
  then modify (fun s => set_cycle s (cycle_sequence s) true)
  else
    modify (fun s => set_cycle s (cycle_sequence s) false);;
    guarded_cycle np.
End decisions.

(** ** Construction *)

Definition config_bool (v : pyval) : result bool :=
  match v with PyBool b => Ok b | _ => Raise TypeError end.

(** [AutoQueue(...)]: the second component tells whether the listeners were
    registered; if so the model's roots start in the buffer. *)
Definition init_auto_queue `{AutoQueueController} (enabled ponly extract delete : pyval)
    (persisted : gset string) : result (AutoQueue * bool) :=
  e ← config_bool enabled;
  p ← config_bool ponly;
  x ← config_bool extract;
  d ← config_bool delete;
  let s := (refresh_queue_state (mkAQ e p x d [] e 0 false ∅ ∅ [] [] ∅ ∅ persisted [])).2 in
  if e || queue_enabled s || x || d || match enabled_path_pairs with Some _ => true | None => false end
  then Ok ((mfor model_roots file_added s).2, true)
  else Ok (s, false).
