(* ===== verification/AutoQueueFacts.v ===== *)
(** * Auto-queue: what a cycle may command

    The selections against declarative predicates, the order of the commands,
    inactive and idle cycles, and failed cycles. *)

From S2P Require Import Prelude PyDict PyStr Json ModelFile ModelFileFacts PathPair AutoQueue.

Section facts.
Context `{AutoQueueController}.
Implicit Types (s : AutoQueue) (f : fileref) (np : gset string).

(** ** The current model *)

Definition by_own_id (d : dict string fileref) : Prop :=
  dwf d /\ forall k f, dget d k = Some f -> file_id f = k.

Lemma current_by_own_id : by_own_id current_model_by_id.
Proof.
  split; [apply dwf_dfrom|]. intros k f Hk. apply dget_dupdate_inv in Hk as [|Hk]; [done|].
  apply list_elem_of_fmap in Hk as (r & [= -> ->] & _). done.
Qed.

Lemma elem_of_dvals {V} (d : dict string V) v : dwf d -> v ∈ dvals d <-> exists k, dget d k = Some v.
Proof.
  intros Hwf. unfold dvals. rewrite list_elem_of_fmap. split.
  - intros ([k w] & -> & Hin). exists k. by apply dget_elem_of.
  - intros [k Hk]. exists (k, v). split; [done|]. by apply dget_elem_of.
Qed.

(** ** Selection *)

(** A root is selected: it is current and reconciled, acceptable, and either
    a candidate that the patterns admit, or matched by a new pattern. *)
Definition selected s (candidates : list fileref) np (current : dict string fileref)
    (accept : fileref -> bool) f : Prop :=
  dget current (file_id f) = Some f /\ is_reconciliation_ready f = true /\ accept f = true /\
  ((exists c, c ∈ candidates /\ file_id c = file_id f) /\
   (aq_patterns_only s = false \/ exists p, p ∈ patterns s /\ pattern_match p f = true)
   \/ exists p, p ∈ np /\ pattern_match p f = true).

(** The pattern reported with a selection justifies it. *)
Definition justified s np (m : match_) : Prop :=
  match m.2 with
  | None => aq_patterns_only s = false
  | Some p => pattern_match p m.1 = true /\ (p ∈ patterns s \/ p ∈ np)
  end.

Definition keyed (d : dict string match_) : Prop :=
  dwf d /\ forall k m, dget d k = Some m -> file_id m.1 = k.

Lemma keyed_dset d m : keyed d -> keyed (dset d (file_id m.1) m).
Proof.
  intros [Hwf Hk]. split; [by apply dwf_dset|]. intros k m'. rewrite dget_dset.
  case_decide; [naive_solver|apply Hk].
Qed.

(** The matched roots of an accumulator. *)
Definition holds (d : dict string match_) f : Prop := exists o, dget d (file_id f) = Some (f, o).

(** Accumulators of a filter: keyed by identifier, only current roots, every
    entry justified; [B] is the set of roots held so far. *)
Record accumulates s np (current : dict string fileref) (B : fileref -> Prop) (acc : dict string match_) : Prop := {
  ac_keyed : keyed acc;
  ac_current : forall k m, dget acc k = Some m -> dget current k = Some m.1;
  ac_just : forall k m, dget acc k = Some m -> justified s np m;
  ac_held : forall f, holds acc f <-> B f }.

Lemma accumulates_ext s np current B B' acc :
  (forall f, B f <-> B' f) -> accumulates s np current B acc -> accumulates s np current B' acc.
Proof. intros HB [? ? ? Hh]. split; try done. intros f. by rewrite Hh. Qed.

Lemma accumulates_add s np current B acc g o :
  dget current (file_id g) = Some g -> justified s np (g, o) -> accumulates s np current B acc ->
  accumulates s np current (fun f => B f \/ f = g) (dset acc (file_id g) (g, o)).
Proof.
  intros Hg Hj [Hk Hc Hju Hh]. split.
  - apply (keyed_dset acc (g, o) Hk).
  - intros k m. rewrite dget_dset. case_decide; [intros [= <-]; simpl; congruence|apply Hc].
  - intros k m. rewrite dget_dset. case_decide; [by intros [= <-]|apply Hju].
  - intros f. rewrite <- Hh. unfold holds. setoid_rewrite dget_dset.
    destruct (decide (file_id g = file_id f)) as [E|Hne].
    + split; [intros [o' [= -> ->]]; by right|]. intros [[o' Ho]| ->]; [|by eauto].
      apply Hc in Ho. simpl in Ho. exists o. f_equal. f_equal. congruence.
    + split; [by left|]. intros [?| ->]; done.
Qed.

(** What one candidate contributes. *)
Definition admits s (current : dict string fileref) (accept : fileref -> bool) (c f : fileref) : Prop :=
  dget current (file_id f) = Some f /\ is_reconciliation_ready f = true /\ accept f = true /\
  file_id c = file_id f /\ (aq_patterns_only s = false \/ exists p, p ∈ patterns s /\ pattern_match p f = true).

Lemma match_candidate_spec s np current accept acc c B :
  by_own_id current -> accumulates s np current B acc ->
  accumulates s np current (fun f => B f \/ admits s current accept c f) (match_candidate s current accept acc c).
Proof.
  intros [Hwf Hid] Hacc. unfold match_candidate.
  destruct (dget current (file_id c)) as [g|] eqn:Eg; cycle 1.
  { eapply accumulates_ext; [|done]. intros f. split; [by left|]. intros [?|(E & _ & _ & Hc & _)]; [done|]. congruence. }
  pose proof (Hid _ _ Eg) as Hgid.
  assert (Hadmits : forall f, admits s current accept c f <->
    f = g /\ is_reconciliation_ready g = true /\ accept g = true /\
    (aq_patterns_only s = false \/ exists p, p ∈ patterns s /\ pattern_match p g = true)).
  { intros f. unfold admits. split.
    - intros (E & Hr & Ha & Hc & Hp). assert (f = g) as -> by congruence. done.
    - intros (-> & Hr & Ha & Hp). rewrite Hgid. done. }
  assert (Hno : ~ (is_reconciliation_ready g = true /\ accept g = true /\
      (aq_patterns_only s = false \/ exists p, p ∈ patterns s /\ pattern_match p g = true)) ->
    accumulates s np current (fun f => B f \/ admits s current accept c f) acc).
  { intros Hbad. eapply accumulates_ext; [|done]. intros f. rewrite Hadmits. split; [by left|].
    intros [?|[_ Hb]]; [done|]. by destruct (Hbad Hb). }
  assert (Hyes : forall o, is_reconciliation_ready g = true -> accept g = true -> justified s np (g, o) ->
      (aq_patterns_only s = false \/ exists p, p ∈ patterns s /\ pattern_match p g = true) ->
    accumulates s np current (fun f => B f \/ admits s current accept c f) (dset acc (file_id g) (g, o))).
  { intros o Hr Ha Hj Hp. eapply accumulates_ext; [|apply accumulates_add; [by rewrite Hgid|done|done]].
    intros f. rewrite Hadmits. naive_solver. }
  destruct (is_reconciliation_ready g) eqn:Er; cbn [negb]; [|apply Hno; naive_solver].
  destruct (aq_patterns_only s) eqn:Ep.
  - destruct (find _ _) as [p|] eqn:Ef.
    + apply find_some in Ef as [Hin%list_elem_of_In Hm]. apply andb_true_iff in Hm as [Ha Hm].
      apply elem_of_elements in Hin. apply Hyes; [done|done| |eauto]. split; [done|by left].
    + apply Hno. intros (_ & Ha & [?|(p & Hin & Hm)]); [done|].
      eapply find_none in Ef; [|by apply list_elem_of_In, elem_of_elements]. simpl in Ef. by rewrite Ha, Hm in Ef.
  - destruct (accept g) eqn:Ea; [|apply Hno; naive_solver]. apply Hyes; [done|done|exact Ep|by left].
Qed.

Lemma fold_accumulates {A} s np current (step : dict string match_ -> A -> dict string match_)
    (C : A -> fileref -> Prop) l B acc :
  (forall acc x B, x ∈ l -> accumulates s np current B acc ->
    accumulates s np current (fun f => B f \/ C x f) (step acc x)) ->
  accumulates s np current B acc ->
  accumulates s np current (fun f => B f \/ exists x, x ∈ l /\ C x f) (fold_left step l acc).
Proof.
  revert B acc. induction l as [|x l IH]; intros B acc Hstep Hacc; simpl.
  - eapply accumulates_ext; [|exact Hacc]. intros f. split; [by left|]. intros [?|(x & Hx & _)]; [done|inversion Hx].
  - eapply accumulates_ext; [|apply (IH (fun f => B f \/ C x f))].
    + intros f. setoid_rewrite elem_of_cons. naive_solver.
    + intros acc' y B' Hy. apply Hstep. by right.
    + apply Hstep; [left|done].
Qed.

Lemma match_new_pattern_spec s np current accept acc p f0 B :
  p ∈ np -> dget current (file_id f0) = Some f0 -> accumulates s np current B acc ->
  accumulates s np current (fun f => B f \/ (f = f0 /\ is_reconciliation_ready f = true /\ accept f = true /\
    pattern_match p f = true)) (match_new_pattern accept p acc f0).
Proof.
  intros Hp Hf Hacc. unfold match_new_pattern.
  destruct (is_reconciliation_ready f0 && accept f0 && pattern_match p f0) eqn:E.
  - apply andb_true_iff in E as [[? ?]%andb_true_iff ?].
    eapply accumulates_ext; [|apply accumulates_add; [done| |done]]; [naive_solver|]. split; [done|by right].
  - eapply accumulates_ext; [|done]. intros f. split; [by left|]. intros [?|(-> & Hr & Ha & Hm)]; [done|].
    by rewrite Hr, Ha, Hm in E.
Qed.

Lemma accumulates_nil s np current : accumulates s np current (fun _ => False) [].
Proof.
  apply (Build_accumulates _ _ _ (fun _ => False)); [by split; [apply dwf_nil|]|done|done|].
  intros f. split; [by intros [o Ho]|done].
Qed.

Lemma filter_candidates_spec s candidates np current accept : by_own_id current ->
  exists acc, filter_candidates s candidates np current accept = dvals acc /\
    accumulates s np current (selected s candidates np current accept) acc.
Proof.
  intros Hcur. pose proof Hcur as [Hwf Hid]. eexists. split; [reflexivity|].
  eapply accumulates_ext; cycle 1.
  - apply (fold_accumulates _ _ _ _ (fun p f => exists f0, f0 ∈ dvals current /\ f = f0 /\
      is_reconciliation_ready f = true /\ accept f = true /\ pattern_match p f = true)).
    + intros acc p B Hp%elem_of_elements Hacc.
      apply (fold_accumulates _ _ _ _ (fun f0 f => f = f0 /\ is_reconciliation_ready f = true /\ accept f = true /\
        pattern_match p f = true)); [|done].
      intros acc' f0 B' Hf0 Hacc'. apply match_new_pattern_spec; [done| |done].
      apply elem_of_dvals in Hf0 as [k Hk]; [|done]. by rewrite (Hid _ _ Hk).
    + apply (fold_accumulates _ _ _ _ (fun c f => admits s current accept c f)).
      * intros acc c B _ Hacc. by apply match_candidate_spec.
      * apply accumulates_nil.
  - intros f. unfold selected, admits. split.
    + intros [[[]|(c & Hc & ? & ? & ? & ? & ?)]|(p & Hp%elem_of_elements & f0 & Hf0 & -> & ? & ? & ?)].
      * split_and!; try done. left. split; [by exists c|done].
      * apply elem_of_dvals in Hf0 as [k Hk]; [|done]. rewrite (Hid _ _ Hk). split_and!; try done. right. eauto.
    + intros (Hf & Hr & Ha & [[(c & Hc & Hci) Hp]|(p & Hp & Hm)]).
      * left. right. by exists c.
      * right. exists p. split; [by apply elem_of_elements|]. exists f. split_and!; try done.
        apply elem_of_dvals; [done|]. eauto.
Qed.

(** The roots of an accumulator, each once. *)
Lemma accumulates_roots s np current B acc : accumulates s np current B acc ->
  (forall f, f ∈ map fst (dvals acc) <-> B f) /\ Forall (justified s np) (dvals acc) /\
  NoDup (map (fun m => file_id m.1) (dvals acc)).
Proof.
  intros [[Hwf Hk] Hc Hj Hh]. split_and!.
  - intros f. rewrite <- Hh, list_elem_of_fmap. split.
    + intros (m & -> & Hm). apply elem_of_dvals in Hm as [k Hm]; [|done]. exists m.2.
      rewrite (Hk _ _ Hm). by destruct m.
    + intros [o Ho]. exists (f, o). split; [done|]. apply elem_of_dvals; [done|]. eauto.
  - apply Forall_forall. intros m Hm. apply elem_of_dvals in Hm as [k Hm]; [|done]. by eapply Hj.
  - assert (E : map (fun m => file_id m.1) (dvals acc) = dkeys acc); [|rewrite E; exact Hwf].
    unfold dvals, dkeys. rewrite map_map. apply map_ext_in. intros [k m] Hin%list_elem_of_In.
    apply dget_elem_of in Hin; [|done]. by apply Hk in Hin.
Qed.

(** The roots a filter returns, each once. *)
Lemma filter_candidates_roots s candidates np current accept : by_own_id current ->
  (forall f, f ∈ map fst (filter_candidates s candidates np current accept) <->
     selected s candidates np current accept f) /\
  Forall (justified s np) (filter_candidates s candidates np current accept) /\
  NoDup (map (fun m => file_id m.1) (filter_candidates s candidates np current accept)).
Proof.
  intros Hcur. destruct (filter_candidates_spec s candidates np current accept Hcur) as (acc & -> & Ha).
  by apply accumulates_roots in Ha.
Qed.

(** ** Roots to queue *)

(** A remote update that proves a remotely new, locally absent branch. *)
Definition growth_proof s f : Prop :=
  exists old new, (old, new) ∈ modified_files s /\ file_id new = file_id f /\
    is_remote_discovery_changed (ref_file old) (ref_file new) = true /\
    remote_present (ref_file old) = true /\
    has_new_remote_only_transfer_branch (ref_file old) (ref_file new) = true.

Lemma update_proofs_true s fid : default false (dget (update_proofs (modified_files s)) fid) = true ->
  exists old new, (old, new) ∈ modified_files s /\ file_id new = fid /\
    is_remote_discovery_changed (ref_file old) (ref_file new) = true /\
    remote_present (ref_file old) = true /\
    has_new_remote_only_transfer_branch (ref_file old) (ref_file new) = true.
Proof.
  unfold update_proofs.
  assert (Hin : forall e, e ∈ actual_updates (modified_files s) -> e ∈ modified_files s /\
    is_remote_discovery_changed (ref_file e.1) (ref_file e.2) = true /\ remote_present (ref_file e.1) = true).
  { intros e [Hb He]%list_elem_of_filter. apply andb_true_iff in Hb as [? ?]. done. }
  revert Hin. generalize (actual_updates (modified_files s)). intros l Hin.
  assert (Hg : forall d : dict string bool, default false (dget (fold_left (fun d e => dset d (file_id e.2)
    (default false (dget d (file_id e.2)) || has_new_remote_only_transfer_branch (ref_file e.1) (ref_file e.2))) l d) fid) = true ->
    default false (dget d fid) = true \/ exists e, e ∈ l /\ file_id e.2 = fid /\
      has_new_remote_only_transfer_branch (ref_file e.1) (ref_file e.2) = true).
  { clear Hin. induction l as [|e l IH]; simpl; intros d Hd; [by left|]. apply IH in Hd as [Hd|(e' & ? & ?)].
    - rewrite dget_dset in Hd. case_decide as E; [|by left]. simpl in Hd. apply orb_true_iff in Hd as [Hd|Hd].
      + left. by rewrite <- E.
      + right. exists e. split; [left|done].
    - right. exists e'. split; [by right|done]. }
  intros Hd. apply Hg in Hd as [Hd|([old new] & He & Hid & Hb)]; [done|].
  destruct (Hin _ He) as (? & ? & ?). by exists old, new.
Qed.

(** What may be queued. *)
Record may_queue s np f : Prop := {
  mq_active : queue_enabled s = true;
  mq_current : dget current_model_by_id (file_id f) = Some f;
  mq_ready : is_path_pair_reconciled (path_pair_id (ref_file f)) = true;
  mq_pair : is_auto_queue_enabled_for_file s f = true;
  mq_stopped : is_file_stopped (file_id f) = false;
  mq_state : state (ref_file f) = DEFAULT;
  mq_content : remote_has_transferable_content (ref_file f) = true;
  mq_local : local_present (ref_file f) = false \/
    (is_dir (ref_file f) = true /\ is_owned_incomplete_transfer f = true) \/ growth_proof s f;
  mq_pattern : aq_patterns_only s = true -> exists p, p ∈ patterns s ∪ np /\ pattern_match p f = true;
  mq_seen : (exists c, c ∈ new_files s /\ file_id c = file_id f) \/
    (exists old new, (old, new) ∈ modified_files s /\ file_id new = file_id f) \/
    (exists p, p ∈ np /\ pattern_match p f = true) }.

Lemma queue_accept_inv s f : queue_accept s f = true ->
  remote_has_transferable_content (ref_file f) = true /\ state (ref_file f) = DEFAULT /\
  (local_present (ref_file f) = false \/ (is_dir (ref_file f) = true /\ is_owned_incomplete_transfer f = true)) /\
  is_auto_queue_enabled_for_file s f = true.
Proof.
  unfold queue_accept, is_owned_incomplete_directory.
  rewrite !andb_true_iff, orb_true_iff, andb_true_iff, negb_true_iff, bool_decide_eq_true. tauto.
Qed.

Lemma update_accept_inv s f : update_accept s (update_proofs (modified_files s)) f = true ->
  remote_has_transferable_content (ref_file f) = true /\ state (ref_file f) = DEFAULT /\
  (local_present (ref_file f) = false \/ (is_dir (ref_file f) = true /\ is_owned_incomplete_transfer f = true) \/
   growth_proof s f) /\ is_auto_queue_enabled_for_file s f = true.
Proof.
  unfold update_accept, is_owned_incomplete_directory.
  rewrite !andb_true_iff, !orb_true_iff, andb_true_iff, negb_true_iff, bool_decide_eq_true.
  intros (((? & ?) & [[?|?]|Hp]) & ?); split_and!; auto. right. right. by apply update_proofs_true.
Qed.

Lemma selected_pattern s candidates np current accept f :
  selected s candidates np current accept f ->
  aq_patterns_only s = true -> exists p, p ∈ patterns s ∪ np /\ pattern_match p f = true.
Proof.
  intros (_ & _ & _ & [[_ [?|(p & ? & ?)]]|(p & ? & ?)]) Ho; [congruence| |]; exists p; set_solver.
Qed.

(** The three ways into the queue: a new root, a remote update, a remote discovery. *)
Definition queue_selected s np f : Prop :=
  queue_enabled s = true /\ is_file_stopped (file_id f) = false /\
  (selected s (new_files s) np current_model_by_id (queue_accept s) f \/
   selected s (map snd (actual_updates (modified_files s))) np current_model_by_id
     (update_accept s (update_proofs (modified_files s))) f \/
   selected s (map snd (remote_discoveries (modified_files s))) np current_model_by_id (queue_accept s) f).

Lemma merge_accumulates s np current (l : list match_) :
  (forall m, m ∈ l -> dget current (file_id m.1) = Some m.1 /\ justified s np m) ->
  accumulates s np current (fun f => f ∈ map fst l)
    (fold_left (fun d (m : match_) => dset d (file_id m.1) m) l []).
Proof.
  intros Hl. eapply accumulates_ext; [|apply (fold_accumulates _ _ _ _ (fun m f => f = m.1) l (fun _ => False))].
  - intros f. rewrite list_elem_of_fmap. split; [by intros [[]|(m & ? & ->)]; eauto|]. intros (m & -> & ?). right. eauto.
  - intros acc m B Hm Ha. destruct (Hl m Hm). destruct m as [g o]. by apply accumulates_add.
  - apply accumulates_nil.
Qed.

Lemma files_to_queue_exact s np :
  (forall f, f ∈ map fst (files_to_queue s np current_model_by_id) <-> queue_selected s np f) /\
  NoDup (map (fun m => file_id m.1) (files_to_queue s np current_model_by_id)).
Proof.
  unfold files_to_queue, queue_selected. destruct (queue_enabled s) eqn:Eq; cbn [negb].
  2:{ split; [|constructor]. intros f. split; [intros Hf; inversion Hf|by intros [? _]]. }
  set (a := filter_candidates _ _ _ _ _). set (b := filter_candidates _ _ _ _ _). set (c := filter_candidates _ _ _ _ _).
  pose proof (filter_candidates_roots s (new_files s) np _ (queue_accept s) current_by_own_id) as (Ha & Ja & _).
  pose proof (filter_candidates_roots s (map snd (actual_updates (modified_files s))) np _
    (update_accept s (update_proofs (modified_files s))) current_by_own_id) as (Hb & Jb & _).
  pose proof (filter_candidates_roots s (map snd (remote_discoveries (modified_files s))) np _ (queue_accept s)
    current_by_own_id) as (Hc & Jc & _).
  fold a in Ha, Ja. fold b in Hb, Jb. fold c in Hc, Jc.
  assert (Hm : forall m, m ∈ a ++ b ++ c -> dget current_model_by_id (file_id m.1) = Some m.1 /\ justified s np m).
  { rewrite Forall_forall in Ja, Jb, Jc.
    intros m [Hin|[Hin|Hin]%elem_of_app]%elem_of_app; (split; [|auto]);
      apply (list_elem_of_fmap_2 fst) in Hin; [apply Ha in Hin|apply Hb in Hin|apply Hc in Hin]; apply Hin. }
  apply merge_accumulates, accumulates_roots in Hm as (Hroots & _ & Hnd). split.
  - intros f. specialize (Hroots f). rewrite !map_app, !elem_of_app, Ha, Hb, Hc in Hroots. rewrite <- Hroots.
    rewrite !list_elem_of_fmap. setoid_rewrite list_elem_of_filter. naive_solver.
  - revert Hnd. generalize (dvals (fold_left (fun d (m : match_) => dset d (file_id m.1) m) (a ++ b ++ c) [])).
    intros l. induction l as [|m l IH]; intros Hnd; [done|]. simpl in Hnd. apply NoDup_cons in Hnd as [Hn Hnd].
    rewrite filter_cons. case_decide; [|by apply IH]. simpl. apply NoDup_cons. split; [|by apply IH].
    intros Hin. apply Hn. apply list_elem_of_fmap in Hin as (m' & -> & [_ Hin]%list_elem_of_filter).
    apply (list_elem_of_fmap_2 (fun m : match_ => file_id m.1) _ _ Hin).
Qed.

Lemma queue_selected_ok s np f : queue_selected s np f -> may_queue s np f.
Proof.
  intros (Hq & Hstop & Hsel).
  assert (Hpat : aq_patterns_only s = true -> exists p, p ∈ patterns s ∪ np /\ pattern_match p f = true).
  { destruct Hsel as [Hm|[Hm|Hm]]; exact (selected_pattern _ _ _ _ _ _ Hm). }
  destruct Hsel as [(Hf & Hr & Ha & Hw)|[(Hf & Hr & Ha & Hw)|(Hf & Hr & Ha & Hw)]].
  - apply queue_accept_inv in Ha as (? & ? & Hl & ?). split; try done; [tauto|].
    destruct Hw as [[? _]|?]; auto.
  - apply update_accept_inv in Ha as (? & ? & Hl & ?). split; try done.
    destruct Hw as [[(c & Hc & Hci) _]|?]; auto. right. left.
    apply list_elem_of_fmap in Hc as ([old new] & -> & [_ Hin]%list_elem_of_filter). by exists old, new.
  - apply queue_accept_inv in Ha as (? & ? & Hl & ?). split; try done; [tauto|].
    destruct Hw as [[(c & Hc & Hci) _]|?]; auto. right. left.
    apply list_elem_of_fmap in Hc as ([old new] & -> & [_ Hin]%list_elem_of_filter). by exists old, new.
Qed.

(** ** Roots to extract *)

Record may_extract s np f : Prop := {
  me_active : aq_enabled s = true /\ aq_auto_extract s = true;
  me_current : dget current_model_by_id (file_id f) = Some f;
  me_ready : is_path_pair_reconciled (path_pair_id (ref_file f)) = true;
  me_state : state (ref_file f) = DOWNLOADED;
  me_local : exists z, local_size (ref_file f) = Some z /\ 0 < z;
  me_extractable : truthy (is_extractable (ref_file f)) = true;
  me_pattern : aq_patterns_only s = true -> exists p, p ∈ patterns s ∪ np /\ pattern_match p f = true }.

Definition extract_selected s np f : Prop :=
  aq_enabled s = true /\ aq_auto_extract s = true /\
  selected s (extract_candidates s) np current_model_by_id extract_accept f.

Lemma files_to_extract_exact s np :
  (forall f, f ∈ map fst (files_to_extract s np current_model_by_id) <-> extract_selected s np f) /\
  NoDup (map (fun m => file_id m.1) (files_to_extract s np current_model_by_id)).
Proof.
  unfold files_to_extract, extract_selected. destruct (aq_enabled s && aq_auto_extract s) eqn:Ea.
  - apply andb_true_iff in Ea as [-> ->].
    pose proof (filter_candidates_roots s (extract_candidates s) np _ extract_accept current_by_own_id) as (Hs & _ & Hn).
    split; [|done]. intros f. rewrite Hs. tauto.
  - split; [|constructor]. intros f. split; [intros Hf; inversion Hf|]. intros (E1 & E2 & _). by rewrite E1, E2 in Ea.
Qed.

Lemma extract_selected_ok s np f : extract_selected s np f -> may_extract s np f.
Proof.
  intros (He & Hx & Hsel). pose proof (selected_pattern _ _ _ _ _ _ Hsel) as Hpat. destruct Hsel as (Hf & Hr & Ha & _).
  unfold extract_accept in Ha. rewrite !andb_true_iff, bool_decide_eq_true in Ha. destruct Ha as [[? Hl] ?].
  split; try done. destruct (local_size _) as [z|]; [|done]. exists z. split; [done|lia].
Qed.
End facts.
