(* ===== verification/AutoQueueCycle.v ===== *)
(** * Auto-queue: the commands of one cycle

    The remote-delete scan against a declarative predicate on the buffered
    events, the log of a cycle as a prefix of its plan, inactive and idle
    cycles, failed cycles, and the pattern file. *)

From S2P Require Import Prelude PyDict PyStr Json ModelFile ModelFileFacts PathPair AutoQueue AutoQueueFacts.

Section cycle.
Context `{AutoQueueController}.
Implicit Types (s : AutoQueue) (f : fileref) (np : gset string).

(** ** Remote deletions *)

(** A buffered event of the root shows a completion by this process. *)
Definition completion_event f (l : list (fileref * fileref)) : Prop :=
  exists e, e ∈ l /\ file_id e.2 = file_id f /\ completed_here e.1 f = true.

(** The event that lets a root be deleted, and the events before it. *)
Record deletes s (lineage_ids : gset string) (before : list (fileref * fileref)) (e : fileref * fileref) f : Prop := {
  de_event : file_id e.2 = file_id f;
  de_transition : is_remote_delete_transition (ref_file e.1) (ref_file f) = true;
  de_lineage : file_id f ∈ lineage_ids -> completion_event f (before ++ [e]) }.

Record may_delete s (lineage_ids : gset string) (events : list (fileref * fileref)) f : Prop := {
  md_current : dget current_model_by_id (file_id f) = Some f;
  md_ready : is_reconciliation_ready f = true;
  md_pair : is_auto_queue_enabled_for_file s f = true;
  md_eligible : is_remote_delete_eligible f = true;
  md_pattern : aq_patterns_only s = true -> exists p, p ∈ patterns s /\ pattern_match p f = true;
  md_event : exists before e after, events = before ++ e :: after /\ deletes s lineage_ids before e f }.

Lemma completion_event_snoc f l e : completion_event f (l ++ [e]) <->
  completion_event f l \/ (file_id e.2 = file_id f /\ completed_here e.1 f = true).
Proof.
  unfold completion_event. setoid_rewrite elem_of_app. setoid_rewrite list_elem_of_singleton. naive_solver.
Qed.

Lemma may_delete_snoc s X l e f : may_delete s X (l ++ [e]) f <->
  may_delete s X l f \/
  (dget current_model_by_id (file_id f) = Some f /\ is_reconciliation_ready f = true /\
   is_auto_queue_enabled_for_file s f = true /\ is_remote_delete_eligible f = true /\
   (aq_patterns_only s = true -> exists p, p ∈ patterns s /\ pattern_match p f = true) /\ deletes s X l e f).
Proof.
  split.
  - intros [? ? ? ? ? (b & e' & a & Heq & Hd)]. destruct a as [|x a _] using rev_ind.
    + apply app_inj_tail in Heq as [-> ->]. right. done.
    + left. split; try done. rewrite app_comm_cons, app_assoc in Heq. apply app_inj_tail in Heq as [-> _].
      by exists b, e', a.
  - intros [[? ? ? ? ? (b & e' & a & -> & Hd)]|(? & ? & ? & ? & ? & Hd)].
    + split; try done. exists b, e', (a ++ [e]). by rewrite <- app_assoc.
    + split; try done. by exists l, e, [].
Qed.

(** [X] holds what is left of the lineage [D] for reconciled current roots. *)
Definition marks (D X : gset string) (events : list (fileref * fileref)) : Prop :=
  forall f, dget current_model_by_id (file_id f) = Some f -> is_reconciliation_ready f = true ->
    file_id f ∈ X <-> file_id f ∈ D /\ ~ completion_event f events.

(** The scan so far: the lineage that is left and the matched roots. *)
Record scanned s (D I : gset string) (events : list (fileref * fileref)) (acc : lineage) : Prop := {
  sc_matched : accumulates s ∅ current_model_by_id (may_delete s (D ∪ I) events) (li_matched acc);
  sc_deferred : marks D (li_deferred acc) events;
  sc_initial : marks I (li_initial acc) events }.

Lemma marks_step D X X' l e g :
  dget current_model_by_id (file_id e.2) = Some g ->
  (forall k, k <> file_id g -> k ∈ X' <-> k ∈ X) ->
  (is_reconciliation_ready g = true -> file_id g ∈ X' <-> file_id g ∈ D /\ ~ completion_event g (l ++ [e])) ->
  marks D X l -> marks D X' (l ++ [e]).
Proof.
  intros Hg Hk Hr Hm f Hf Hrf. pose proof (proj2 current_by_own_id _ _ Hg) as Hgid.
  destruct (decide (file_id f = file_id g)) as [E|Hne].
  - assert (f = g) as -> by congruence. by apply Hr.
  - rewrite (Hk _ Hne), (Hm f Hf Hrf), completion_event_snoc. intuition congruence.
Qed.

Lemma matched_same s X l e g d :
  dget current_model_by_id (file_id e.2) = Some g ->
  (may_delete s X (l ++ [e]) g -> may_delete s X l g) ->
  accumulates s ∅ current_model_by_id (may_delete s X l) d ->
  accumulates s ∅ current_model_by_id (may_delete s X (l ++ [e])) d.
Proof.
  intros Hg Hr Ha. pose proof (proj2 current_by_own_id _ _ Hg) as Hgid.
  eapply accumulates_ext; [|exact Ha]. intros f. split; [intros Hf; apply may_delete_snoc; by left|].
  intros Hf. pose proof (md_current _ _ _ _ Hf) as Hc. destruct (decide (file_id f = file_id g)) as [E|Hne].
  - assert (f = g) as -> by congruence. by apply Hr.
  - apply may_delete_snoc in Hf as [?|(_ & _ & _ & _ & _ & [He _ _])]; [done|]. congruence.
Qed.

(** An event of no current root changes nothing. *)
Lemma scanned_gone s D I l e acc :
  dget current_model_by_id (file_id e.2) = None -> scanned s D I l acc -> scanned s D I (l ++ [e]) acc.
Proof.
  intros Hg [Ha Hd Hi]. split.
  - eapply accumulates_ext; [|exact Ha]. intros f. split; [intros Hf; apply may_delete_snoc; by left|].
    intros [?|(Hc & _ & _ & _ & _ & [He _ _])]%may_delete_snoc; [done|]. congruence.
  - intros f Hf Hrf. rewrite (Hd f Hf Hrf), completion_event_snoc. intuition congruence.
  - intros f Hf Hrf. rewrite (Hi f Hf Hrf), completion_event_snoc. intuition congruence.
Qed.

(** Matching the root of the event. *)
Lemma matched_add s D I l e g o (d : dict string match_) :
  dget current_model_by_id (file_id g) = Some g -> may_delete s (D ∪ I) (l ++ [e]) g ->
  file_id e.2 = file_id g -> justified s ∅ (g, o) ->
  accumulates s ∅ current_model_by_id (may_delete s (D ∪ I) l) d ->
  accumulates s ∅ current_model_by_id (may_delete s (D ∪ I) (l ++ [e])) (dset d (file_id g) (g, o)).
Proof.
  intros Hg Hm He Hj Ha. eapply accumulates_ext; [|by apply accumulates_add]. intros f. split.
  - intros [?| ->]; [|done]. apply may_delete_snoc. by left.
  - intros [?|(Hc & _ & _ & _ & _ & [He' _ _])]%may_delete_snoc; [by left|]. right. congruence.
Qed.

(** What the two lineage tests of the scan decide for a reconciled root. *)
Lemma scanned_cleared s D I l e g acc :
  dget current_model_by_id (file_id g) = Some g -> is_reconciliation_ready g = true -> file_id e.2 = file_id g ->
  scanned s D I l acc ->
  (file_id g ∈ li_deferred acc \/ file_id g ∈ li_initial acc -> completed_here e.1 g = true) ->
  (file_id g ∈ D ∪ I -> completion_event g (l ++ [e])) /\
  ~ (file_id g ∈ D /\ ~ completion_event g (l ++ [e])) /\ ~ (file_id g ∈ I /\ ~ completion_event g (l ++ [e])).
Proof.
  intros Hg Hr He [_ Hd Hi] Hc. rewrite completion_event_snoc.
  assert (Hdec : completion_event g l \/ ~ completion_event g l).
  { destruct (existsb (fun e => String.eqb (file_id e.2) (file_id g) && completed_here e.1 g) l) eqn:E.
    - apply existsb_exists in E as (x & Hx%list_elem_of_In & [E1%String.eqb_eq E2]%andb_true_iff). left. by exists x.
    - right. intros (x & Hx & E1 & E2). enough (existsb (fun e => String.eqb (file_id e.2) (file_id g) && completed_here e.1 g) l = true) by congruence.
      apply existsb_exists. exists x. split; [by apply list_elem_of_In|]. apply andb_true_iff. by rewrite String.eqb_eq. }
  specialize (Hd g Hg Hr). specialize (Hi g Hg Hr). rewrite elem_of_union. destruct Hdec as [Hdec|Hdec]; [tauto|].
  assert (file_id g ∈ D \/ file_id g ∈ I -> completed_here e.1 g = true) by (intros [?|?]; apply Hc; tauto). tauto.
Qed.

(** The accumulator the scan has after the two lineage tests passed. *)
Definition released (g : fileref) (acc : lineage) : lineage :=
  mkLineage (li_deferred acc ∖ {[file_id g]}) (li_initial acc ∖ {[file_id g]}) (li_matched acc).

Definition delete_allowed s (old g : fileref) : bool :=
  is_auto_queue_enabled_for_file s g && is_remote_delete_eligible g &&
  is_remote_delete_transition (ref_file old) (ref_file g).

(** The pattern that admits a deletion, if any does. *)
Definition delete_pattern s g : option (option string) :=
  if aq_patterns_only s then option_map Some (find (fun p => pattern_match p g) (elements (patterns s)))
  else Some None.

Lemma delete_step_ready s g old new acc :
  dget current_model_by_id (file_id new) = Some g -> is_reconciliation_ready g = true ->
  delete_step s current_model_by_id acc (old, new) =
  if (bool_decide (file_id g ∈ li_deferred acc) || bool_decide (file_id g ∈ li_initial acc)) &&
     negb (completed_here old g) then acc
  else match delete_pattern s g with
       | Some o => if delete_allowed s old g
                   then mkLineage (li_deferred (released g acc)) (li_initial (released g acc))
                          (dset (li_matched acc) (file_id g) (g, o))
                   else released g acc
       | None => released g acc
       end.
Proof.
  intros Hg Hr. unfold delete_step, delete_pattern, delete_allowed. rewrite Hg, Hr. cbn [negb li_deferred li_initial li_matched].
  destruct acc as [D I M]. cbn [li_deferred li_initial li_matched].
  destruct (completed_here old g); cbn [negb]; rewrite ?andb_true_r, ?andb_false_r.
  - destruct (is_auto_queue_enabled_for_file s g), (is_remote_delete_eligible g),
      (is_remote_delete_transition (ref_file old) (ref_file g)), (aq_patterns_only s); cbn [negb andb];
      try destruct (find _ _); done.
  - case_bool_decide as HD; cbn [orb]; [done|]. case_bool_decide as HI.
    { f_equal. apply set_eq. set_solver. }
    destruct (is_auto_queue_enabled_for_file s g), (is_remote_delete_eligible g),
      (is_remote_delete_transition (ref_file old) (ref_file g)), (aq_patterns_only s); cbn [negb andb];
      try destruct (find _ _); done.
Qed.

Lemma delete_pattern_spec s g :
  match delete_pattern s g with
  | Some o => justified s ∅ (g, o) /\ (aq_patterns_only s = true -> exists p, p ∈ patterns s /\ pattern_match p g = true)
  | None => ~ (aq_patterns_only s = true -> exists p, p ∈ patterns s /\ pattern_match p g = true)
  end.
Proof.
  unfold delete_pattern. destruct (aq_patterns_only s) eqn:E; [|by split].
  destruct (find _ _) as [p|] eqn:Ef; simpl.
  - apply find_some in Ef as [Hin%list_elem_of_In Hm]. apply elem_of_elements in Hin. split; [|by eauto].
    split; [done|by left].
  - intros Hex. destruct Hex as (p & Hin & Hm); [done|].
    eapply find_none in Ef; [|by apply list_elem_of_In, elem_of_elements]. simpl in Ef. congruence.
Qed.

(** A reconciled root whose lineage tests passed: it is matched exactly when
    the event allows its deletion. *)
Lemma released_scanned s D I l old new g acc :
  dget current_model_by_id (file_id new) = Some g -> is_reconciliation_ready g = true ->
  (file_id g ∈ li_deferred acc \/ file_id g ∈ li_initial acc -> completed_here old g = true) ->
  scanned s D I l acc ->
  scanned s D I (l ++ [(old, new)])
    match delete_pattern s g with
    | Some o => if delete_allowed s old g
                then mkLineage (li_deferred (released g acc)) (li_initial (released g acc))
                       (dset (li_matched acc) (file_id g) (g, o))
                else released g acc
    | None => released g acc
    end.
Proof.
  intros Hg Hr Hc Hsc. pose proof (proj2 current_by_own_id _ _ Hg) as Hgid.
  assert (Hg' : dget current_model_by_id (file_id g) = Some g) by congruence.
  pose proof (scanned_cleared s D I l (old, new) g acc Hg' Hr (eq_sym Hgid) Hsc Hc) as (Hl & HD & HI).
  destruct Hsc as [Ha Hd Hi].
  assert (Hd' : marks D (li_deferred (released g acc)) (l ++ [(old, new)])).
  { apply (marks_step _ (li_deferred acc) _ _ (old, new) g Hg); [intros k Hk|intros _|done]; simpl; set_solver. }
  assert (Hi' : marks I (li_initial (released g acc)) (l ++ [(old, new)])).
  { apply (marks_step _ (li_initial acc) _ _ (old, new) g Hg); [intros k Hk|intros _|done]; simpl; set_solver. }
  assert (Hrel : ~ (delete_allowed s old g = true /\
      (aq_patterns_only s = true -> exists p, p ∈ patterns s /\ pattern_match p g = true)) ->
      scanned s D I (l ++ [(old, new)]) (released g acc)).
  { intros Hno. split; [|done|done]. eapply matched_same; [exact Hg| |exact Ha].
    intros [?|(_ & _ & He & Hel & Hp & [_ Ht _])]%may_delete_snoc; [done|]. destruct Hno. split; [|done].
    simpl in Ht. unfold delete_allowed. by rewrite He, Hel, Ht. }
  pose proof (delete_pattern_spec s g) as Hpat. destruct (delete_pattern s g) as [o|]; [|apply Hrel; tauto].
  destruct Hpat as [Hj Hp]. destruct (delete_allowed s old g) eqn:Eall; [|apply Hrel; by intros [? _]].
  split; [|done|done]. apply matched_add; [done| |done|done|done].
  unfold delete_allowed in Eall. rewrite !andb_true_iff in Eall. destruct Eall as [[? ?] ?].
  apply may_delete_snoc. right. split_and!; try done.
Qed.

Lemma delete_step_scanned s D I l e acc :
  scanned s D I l acc -> scanned s D I (l ++ [e]) (delete_step s current_model_by_id acc e).
Proof.
  intros Hsc. destruct e as [old new]. destruct (dget current_model_by_id (file_id new)) as [g|] eqn:Hg; cycle 1.
  { unfold delete_step. rewrite Hg. by apply scanned_gone. }
  pose proof (proj2 current_by_own_id _ _ Hg) as Hgid.
  destruct (is_reconciliation_ready g) eqn:Hr; cycle 1.
  { unfold delete_step. rewrite Hg, Hr. destruct Hsc as [Ha Hd Hi]. split.
    - eapply matched_same; [exact Hg| |exact Ha]. intros Hm. pose proof (md_ready _ _ _ _ Hm). congruence.
    - apply (marks_step _ (li_deferred acc) _ _ (old, new) g Hg); [intros k Hk; simpl; set_solver|congruence|done].
    - apply (marks_step _ (li_initial acc) _ _ (old, new) g Hg); [done|congruence|done]. }
  rewrite (delete_step_ready s g old new acc Hg Hr).
  destruct ((bool_decide _ || bool_decide _) && negb _) eqn:Eb; cycle 1.
  { apply released_scanned; try done. intros Hin. apply andb_false_iff in Eb as [Eb|Eb]; [|by apply negb_false_iff].
    apply orb_false_iff in Eb. rewrite !bool_decide_eq_false in Eb. tauto. }
  apply andb_true_iff in Eb as [Hin Hnc%negb_true_iff]. apply orb_true_iff in Hin. rewrite !bool_decide_eq_true in Hin.
  assert (Hg' : dget current_model_by_id (file_id g) = Some g) by congruence.
  destruct Hsc as [Ha Hd Hi]. pose proof (Hd g Hg' Hr) as Hdg. pose proof (Hi g Hg' Hr) as Hig.
  assert (Hce : completion_event g (l ++ [(old, new)]) <-> completion_event g l).
  { rewrite completion_event_snoc. simpl. intuition congruence. }
  split.
  - eapply matched_same; [exact Hg| |exact Ha].
    intros [?|(_ & _ & _ & _ & _ & [_ _ Hl])]%may_delete_snoc; [done|]. rewrite elem_of_union in Hl. tauto.
  - apply (marks_step _ (li_deferred acc) _ _ (old, new) g Hg); [done|tauto|done].
  - apply (marks_step _ (li_initial acc) _ _ (old, new) g Hg); [done|tauto|done].
Qed.

Lemma delete_scan s D I l :
  scanned s D I l (fold_left (delete_step s current_model_by_id) l (mkLineage D I [])).
Proof.
  induction l as [|e l IH] using rev_ind.
  - simpl. split.
    + apply Build_accumulates; [by split; [apply dwf_nil|]|done|done|]. intros f. split; [by intros [o Ho]|].
      intros [_ _ _ _ _ (b & e & a & Heq & _)]. by destruct b.
    + intros f Hf Hr. simpl. split; [|tauto]. intros ?. split; [done|]. intros (e & He & _). inversion He.
    + intros f Hf Hr. simpl. split; [|tauto]. intros ?. split; [done|]. intros (e & He & _). inversion He.
  - rewrite fold_left_app. simpl. by apply delete_step_scanned.
Qed.

(** ** The plan of a cycle *)

(** A call to make, and the error the controller will answer it with. *)
Definition attempt : Type := option exn * aq_event.

Definition marker_attempt f : attempt := (marker_error f, AqClearMarker (file_id f)).
Definition command_attempt (cycle : Z) (a : Action) (token : option (Z * Z)) f : attempt :=
  (command_error (make_command cycle a f token), AqCommand (make_command cycle a f token)).

(** The calls that are made: up to the first error. *)
Fixpoint sent (p : list attempt) : list aq_event :=
  match p with
  | (None, e) :: p' => e :: sent p'
  | _ => []
  end.

Fixpoint outcome (p : list attempt) : result unit :=
  match p with
  | [] => Ok tt
  | (None, _) :: p' => outcome p'
  | (Some e, _) :: _ => Raise e
  end.

Definition play (p : list attempt) : st AutoQueue unit :=
  mfor p (fun a => match a.1 with Some e => raise e | None => modify (log_event a.2) end).

Definition log_events (es : list aq_event) s : AutoQueue := fold_left (fun s e => log_event e s) es s.

Lemma play_run p s : play p s = (outcome p, log_events (sent p) s).
Proof.
  revert s. induction p as [|[[e|] ev] p IH]; intros s; [done|done|]. apply (IH (log_event ev s)).
Qed.

Lemma play_app p q s :
  play (p ++ q) s = match play p s with (Ok _, s') => play q s' | (Raise e, s') => (Raise e, s') end.
Proof.
  revert s. induction p as [|[[e|] ev] p IH]; intros s; [done|done|]. apply (IH (log_event ev s)).
Qed.

Lemma log_events_frame es s :
  log_events es s = mkAQ (aq_enabled s) (aq_patterns_only s) (aq_auto_extract s) (aq_auto_delete_remote s)
    (aq_pair_auto_queue s) (queue_enabled s) (cycle_sequence s) (idle_recorded s) (deferred_remote_delete s)
    (initial_reconciliation s) (new_files s) (modified_files s) (removed_file_ids s) (new_patterns s) (patterns s)
    (aq_log s ++ es).
Proof.
  revert s. induction es as [|e es IH]; intros s; simpl.
  - rewrite app_nil_r. by destruct s.
  - rewrite IH. simpl. by rewrite <- app_assoc.
Qed.

Lemma log_events_cycle es s : cycle_sequence (log_events es s) = cycle_sequence s.
Proof. by rewrite log_events_frame. Qed.

Lemma sent_prefix p : sent p `prefix_of` map snd p.
Proof. induction p as [|[[e|] ev] p IH]; simpl; [done|apply prefix_nil|by apply prefix_cons]. Qed.

Lemma sent_all p u : outcome p = Ok u -> sent p = map snd p.
Proof. induction p as [|[[e|] ev] p IH]; simpl; [done|done|]. intros Ho. f_equal. by apply IH. Qed.

(** The roots of each kind of command of a cycle that starts in [s]. *)
Definition roots_to_queue s np : list fileref := map fst (files_to_queue s np current_model_by_id).
Definition roots_to_extract s np : list fileref := map fst (files_to_extract s np current_model_by_id).
Definition scan_result s : lineage :=
  if aq_enabled s then filter_delete_remote_candidates s current_model_by_id
  else mkLineage (deferred_remote_delete s) (initial_reconciliation s) [].
Definition roots_to_delete s : list fileref := map fst (dvals (li_matched (scan_result s))).
Definition markers s np : list fileref :=
  blocked_extracts s (match_ids (files_to_extract s np current_model_by_id)).

Definition command_plan s np : list attempt :=
  map (fun f => command_attempt (cycle_sequence s) QUEUE_FILE None f) (roots_to_queue s np) ++
  map (fun f => command_attempt (cycle_sequence s) EXTRACT_FILE None f) (roots_to_extract s np) ++
  map (fun f => command_attempt (cycle_sequence s) DELETE_REMOTE_FILE (Some (remote_delete_lifecycle_token f)) f)
    (roots_to_delete s).

Definition plan s np : list attempt := map marker_attempt (markers s np) ++ command_plan s np.

Lemma clear_markers_play l s : mfor l clear_extracted_marker s = play (map marker_attempt l) s.
Proof.
  revert s. induction l as [|f l IH]; intros s; [done|]. unfold play. cbn [map mfor].
  change (marker_attempt f).1 with (marker_error f).
  change (clear_extracted_marker f) with
    (match marker_error f with Some e => raise e | None => modify (log_event (AqClearMarker (file_id f))) end : st AutoQueue unit).
  destruct (marker_error f) as [e|]; [done|]. apply IH.
Qed.

Lemma send_commands_play a token (l : list match_) s :
  send_commands a token l s =
  play (map (fun f => command_attempt (cycle_sequence s) a (token f) f) (map fst l)) s.
Proof.
  unfold send_commands. remember (cycle_sequence s) as n eqn:Hn. revert s Hn.
  induction l as [|m l IH]; intros s ->; [done|]. unfold play. cbn [map mfor].
  set (c := make_command (cycle_sequence s) a m.1 (token m.1)).
  change (command_attempt (cycle_sequence s) a (token m.1) m.1).1 with (command_error c).
  change (command_attempt (cycle_sequence s) a (token m.1) m.1).2 with (AqCommand c).
  change ((match command_error c with Some e => raise e | None => modify (log_event (AqCommand c)) end ≫=
    (fun _ => send_commands a token l)) s = (match command_error c with Some e => raise e | None => modify (log_event (AqCommand c)) end ≫=
    (fun _ => play (map (fun f => command_attempt (cycle_sequence s) a (token f) f) (map fst l)))) s).
  destruct (command_error c) as [e|]; [done|]. by apply (IH (log_event (AqCommand c) s)).
Qed.

(** The state a cycle leaves when all its calls were answered. *)
Definition settle s np (s' : AutoQueue) : AutoQueue :=
  let ids := dkeyset current_model_by_id in
  set_buffers
    (set_lineage s' (li_deferred (scan_result s) ∩ ids) (li_initial (scan_result s) ∩ ids))
    (filter (fun r => bool_decide (file_id r ∈ ids) && negb (is_reconciliation_ready r) = true) (new_files s))
    (filter (fun e => retain_remote_growth_event s current_model_by_id
       (match_ids (files_to_queue s np current_model_by_id)) e.1 e.2 = true) (modified_files s))
    (removed_file_ids s) (new_patterns s).

Lemma sent_app p q : sent (p ++ q) = sent p ++ match outcome p with Ok _ => sent q | Raise _ => [] end.
Proof. induction p as [|[[e|] ev] p IH]; simpl; [done|done|]. by rewrite IH. Qed.

Lemma outcome_app p q : outcome (p ++ q) = match outcome p with Ok _ => outcome q | Raise e => Raise e end.
Proof. induction p as [|[[e|] ev] p IH]; simpl; done. Qed.

(** The lineage after a cycle: only a failed marker keeps the scan from running. *)
Definition lineage_after s np : AutoQueue :=
  match outcome (map marker_attempt (markers s np)) with
  | Ok _ => set_lineage s (li_deferred (scan_result s)) (li_initial (scan_result s))
  | Raise _ => s
  end.

Lemma send_rest s np t : cycle_sequence t = cycle_sequence s ->
  (send_commands QUEUE_FILE (fun _ => None) (files_to_queue s np current_model_by_id);;
   send_commands EXTRACT_FILE (fun _ => None) (files_to_extract s np current_model_by_id);;
   send_commands DELETE_REMOTE_FILE (fun r => Some (remote_delete_lifecycle_token r))
     (dvals (li_matched (scan_result s)))) t = play (command_plan s np) t.
Proof.
  intros Hc. unfold command_plan. rewrite play_app. unfold mbind, st_bind.
  rewrite send_commands_play, Hc. cbn beta. rewrite play_run. fold (roots_to_queue s np).
  rewrite play_run. destruct (outcome _); [|done].
  rewrite play_app, send_commands_play, log_events_cycle, Hc. fold (roots_to_extract s np).
  rewrite !play_run. destruct (outcome _); [|done].
  by rewrite send_commands_play, !log_events_cycle, Hc, play_run.
Qed.

Lemma seq_assoc (a b c k : st AutoQueue unit) t :
  (a;; b;; c;; k) t = match (a;; b;; c) t with (Ok _, t') => k t' | (Raise e, t') => (Raise e, t') end.
Proof. unfold mbind, st_bind. destruct (a t) as [[u|e] t1]; [|done]. by destruct (b t1) as [[v|e] t2]. Qed.

Lemma log_events_app es es' s : log_events (es ++ es') s = log_events es' (log_events es s).
Proof. apply fold_left_app. Qed.

(** One cycle: its outcome, its log and the state it leaves. *)
Lemma run_cycle_plan s np :
  run_cycle np s =
  (outcome (plan s np),
   match outcome (plan s np) with
   | Ok _ => settle s np (log_events (sent (plan s np)) s)
   | Raise _ => log_events (sent (plan s np)) (lineage_after s np)
   end).
Proof.
  unfold plan, lineage_after. rewrite outcome_app, sent_app, !log_events_app.
  unfold run_cycle, mbind at 1 2 3, st_bind at 1 2 3, gets at 1 2 3. fold (markers s np).
  unfold mbind at 1, st_bind at 1. rewrite clear_markers_play, play_run.
  set (t := log_events (sent (map marker_attempt (markers s np))) s).
  destruct (outcome (map marker_attempt (markers s np))) as [u|e] eqn:Eo; [|done].
  assert (Ht : scan_result t = scan_result s).
  { unfold t, scan_result. rewrite log_events_frame. done. }
  assert (Hc : cycle_sequence t = cycle_sequence s) by apply log_events_cycle.
  unfold mbind at 1 2 3, st_bind at 1 2 3, gets, modify at 1. fold (scan_result t). rewrite Ht.
  rewrite seq_assoc, send_rest by done. rewrite play_run. destruct (outcome (command_plan s np)) as [v|e]; cycle 1.
  - apply (f_equal (pair _)). unfold t. by rewrite !log_events_frame.
  - unfold modify. destruct v. apply (f_equal (pair _)). unfold settle, t. by rewrite !log_events_frame.
Qed.

(** ** The three kinds of cycle *)

Definition started s : AutoQueue := (drop_removed (refresh_queue_state s).2).2.

Definition inactive s : bool := negb (aq_enabled s) && negb (queue_enabled (started s)).

Definition idle s : bool :=
  bool_decide (new_patterns s = ∅) && match new_files s with [] => true | _ => false end &&
  match modified_files s with [] => true | _ => false end.

(** The state in which an active cycle decides. *)
Definition begun s : AutoQueue :=
  let t := started s in
  set_cycle (set_buffers t (new_files t) (modified_files t) ∅ ∅) (cycle_sequence s + 1) false.

Lemma started_frame s : exists pairs q,
  started s = mkAQ (aq_enabled s) (aq_patterns_only s) (aq_auto_extract s) (aq_auto_delete_remote s) pairs q
    (cycle_sequence s) (idle_recorded s) (deferred_remote_delete s ∖ removed_file_ids s)
    (initial_reconciliation s ∖ removed_file_ids s) (new_files s) (modified_files s) ∅ (new_patterns s) (patterns s)
    (aq_log s).
Proof.
  unfold started, refresh_queue_state, modify, drop_removed.
  destruct enabled_path_pairs as [[[|x l]|]|]; cbn [snd]; eexists _, _; reflexivity.
Qed.

Lemma process_once_cases s :
  process_once s =
  if inactive s then (Ok tt, set_buffers (started s) [] [] ∅ ∅)
  else if idle s then (Ok tt, set_cycle (set_buffers (started s) [] [] ∅ ∅) (cycle_sequence s + 1) true)
  else guarded_cycle (new_patterns s) (begun s).
Proof.
  destruct (started_frame s) as (pairs & q & E). unfold inactive, begun. rewrite E.
  assert (Hp : forall k : st AutoQueue unit, (refresh_queue_state;; drop_removed;; k) s = k (started s)) by done.
  unfold process_once. rewrite Hp, E. clear Hp E. cbn [queue_enabled]. unfold idle.
  unfold gets, mbind at 1, st_bind at 1. cbn [aq_enabled queue_enabled].
  destruct (negb (aq_enabled s) && negb q); [done|]. cbv [mbind st_bind modify drain_new_patterns gets mret st_ret].
  cbn [new_files modified_files set_cycle set_buffers new_patterns].
  destruct (new_files s), (modified_files s), (bool_decide (new_patterns s = ∅)); done.
Qed.

(** ** Who may queue *)

Lemma dvals_dfrom_any (l : list (string * bool)) : NoDup (map fst l) ->
  existsb id (dvals (dfrom l)) = existsb snd l.
Proof.
  intros Hnd. rewrite dfrom_id by done. unfold dvals. clear Hnd. induction l as [|[k b] l IH]; [done|]. simpl. by rewrite IH.
Qed.

(** The enabled pairs, as far as they can be read. *)
Definition cycle_pairs : list PathPair :=
  match enabled_path_pairs with Some (Some l) => l | _ => [] end.

(** When the path pairs can be read and some are enabled, they alone decide
    what is queued: a cycle queues at all if one of the enabled pairs asks
    for it, and a root only if its own pair is enabled and asks for it.
    Without enabled pairs, or when reading them fails, the global switch
    decides for every root. *)
Theorem pair_switches s r :
  NoDup (map PathPair.pair_id cycle_pairs) ->
  (cycle_pairs = [] ->
     queue_enabled (started s) = aq_enabled s /\ is_auto_queue_enabled_for_file (started s) r = true) /\
  (cycle_pairs <> [] ->
     queue_enabled (started s) = existsb PathPair.pair_auto_queue cycle_pairs /\
     (is_auto_queue_enabled_for_file (started s) r = true <->
      exists p, p ∈ cycle_pairs /\ path_pair_id (ref_file r) = Some (PathPair.pair_id p) /\
        PathPair.pair_auto_queue p = true)).
Proof.
  unfold started, refresh_queue_state, drop_removed, modify, is_auto_queue_enabled_for_file, cycle_pairs. cbn [snd].
  destruct enabled_path_pairs as [[[|p0 ps]|]|]; try done. set (pairs := p0 :: ps). intros Hnd. split; [done|]. intros _.
  set (l := map (fun p => (PathPair.pair_id p, PathPair.pair_auto_queue p)) pairs).
  assert (Hl : NoDup (map fst l)) by (unfold l; by rewrite map_map).
  cbn [queue_enabled aq_pair_auto_queue set_buffers set_lineage set_queue]. split.
  - rewrite dvals_dfrom_any by done. unfold l. generalize pairs as qs. clear. induction qs as [|q qs IH]; [done|]. simpl. by rewrite IH.
  - rewrite dfrom_id by done.
    transitivity (match path_pair_id (ref_file r) with None => false | Some p => default false (dget l p) end = true);
      [done|].
    split.
    + destruct (path_pair_id (ref_file r)) as [i|]; [|done]. intros Hd.
      destruct (dget l i) as [b|] eqn:E; [|discriminate Hd]. simpl in Hd. subst b. apply dget_Some_elem_of in E.
      unfold l in E. apply list_elem_of_fmap in E as (p & [= -> Hp] & Hin). exists p. done.
    + intros (p & Hin & -> & Hp).
      assert (E : dget l (PathPair.pair_id p) = Some true).
      { apply (dget_elem_of (V := bool)); [exact Hl|]. unfold l. apply list_elem_of_fmap. exists p. by rewrite Hp. }
      by rewrite E.
Qed.

(** ** Which commands *)

Definition delete_selected s f : Prop :=
  aq_enabled s = true /\ aq_auto_delete_remote s = true /\
  may_delete s (deferred_remote_delete s ∪ initial_reconciliation s) (modified_files s) f.

Lemma seen_unreconciled_ready s f :
  dget current_model_by_id (file_id f) = Some f -> is_reconciliation_ready f = true ->
  file_id f ∉ seen_unreconciled s current_model_by_id.
Proof.
  intros Hf Hr Hin. unfold seen_unreconciled in Hin. apply elem_of_list_to_set, elem_of_filter_map in Hin as (r & _ & Hd).
  destruct (dget current_model_by_id (file_id r)) as [g|] eqn:Eg; [|done].
  destruct (is_reconciliation_ready g) eqn:Erg; [done|]. injection Hd as Hd.
  pose proof (proj2 current_by_own_id _ _ Eg). congruence.
Qed.

(** Only the lineage entries of the root itself matter to it. *)
Lemma may_delete_lineage s X Y l f : (file_id f ∈ X <-> file_id f ∈ Y) -> may_delete s X l f -> may_delete s Y l f.
Proof.
  intros HXY [? ? ? ? ? (b & e & a & ? & [? ? Hl])]. split; try done. exists b, e, a. split; [done|].
  split; try done. intros Hin. apply Hl. tauto.
Qed.

Lemma roots_to_delete_exact s :
  (forall f, f ∈ roots_to_delete s <-> delete_selected s f) /\ NoDup (map file_id (roots_to_delete s)).
Proof.
  unfold roots_to_delete, delete_selected, scan_result, filter_delete_remote_candidates.
  destruct (aq_enabled s); [destruct (aq_auto_delete_remote s)|]; cbn [negb].
  2,3: (split; [|constructor]); intros f; (split; [intros Hf; inversion Hf|by intros (? & ? & _)]).
  set (I := initial_reconciliation s ∪ _).
  destruct (delete_scan s (deferred_remote_delete s) I (modified_files s)) as [(Hin & _ & Hnd)%accumulates_roots _ _].
  split; [|by rewrite map_map].
  intros f. rewrite Hin. split.
  - intros Hm. split_and!; [done|done|]. eapply may_delete_lineage; [|exact Hm].
    pose proof (seen_unreconciled_ready s f (md_current _ _ _ _ Hm) (md_ready _ _ _ _ Hm)). set_solver.
  - intros (_ & _ & Hm). eapply may_delete_lineage; [|exact Hm].
    pose proof (seen_unreconciled_ready s f (md_current _ _ _ _ Hm) (md_ready _ _ _ _ Hm)). set_solver.
Qed.

(** A cycle that neither is inactive nor idle runs its plan. *)
Lemma process_once_plan s : inactive s = false -> idle s = false ->
  (process_once s).1 = outcome (plan (begun s) (new_patterns s)) /\
  aq_log (process_once s).2 = aq_log s ++ sent (plan (begun s) (new_patterns s)).
Proof.
  intros Ha Hi. rewrite process_once_cases, Ha, Hi. unfold guarded_cycle. rewrite run_cycle_plan.
  destruct (started_frame s) as (pairs & q & E).
  assert (Hlog : aq_log (begun s) = aq_log s) by (unfold begun; by rewrite E).
  destruct (outcome (plan _ _)) as [u|e]; cbn [fst snd]; (split; [done|]).
  - unfold settle. rewrite log_events_frame. exact (f_equal (fun l => l ++ _) Hlog).
  - unfold restore_new_patterns, modify. rewrite log_events_frame. unfold lineage_after.
    destruct (outcome (map _ _)); exact (f_equal (fun l => l ++ _) Hlog).
Qed.

(** The commands of a log are those of the attempts. *)
Lemma process_once_log s : exists es,
  aq_log (process_once s).2 = aq_log s ++ es /\
  (es = [] \/ es = sent (plan (begun s) (new_patterns s))).
Proof.
  destruct (started_frame s) as (pairs & q & E).
  destruct (inactive s) eqn:Ha; [|destruct (idle s) eqn:Hi].
  - exists []. split; [|by left]. rewrite process_once_cases, Ha, E. cbn. by rewrite app_nil_r.
  - exists []. split; [|by left]. rewrite process_once_cases, Ha, Hi, E. cbn. by rewrite app_nil_r.
  - eexists. split; [by apply process_once_plan|by right].
Qed.


Lemma command_of_plan t np c : AqCommand c ∈ map snd (plan t np) ->
  exists f, (c = make_command (cycle_sequence t) QUEUE_FILE f None /\ queue_selected t np f) \/
    (c = make_command (cycle_sequence t) EXTRACT_FILE f None /\ extract_selected t np f) \/
    (c = make_command (cycle_sequence t) DELETE_REMOTE_FILE f (Some (remote_delete_lifecycle_token f)) /\ delete_selected t f).
Proof.
  unfold plan, command_plan. rewrite !map_app, !map_map, !elem_of_app, !list_elem_of_fmap.
  intros [(f & ? & _)|[(f & [= ->] & Hf)|[(f & [= ->] & Hf)|(f & [= ->] & Hf)]]]; [done| | |]; exists f.
  - left. split; [done|]. by apply files_to_queue_exact.
  - right; left. split; [done|]. by apply files_to_extract_exact.
  - right; right. split; [done|]. by apply roots_to_delete_exact.
Qed.

(** C7: Whatever a cycle is asked to do and however the controller answers, the
    commands it sends are safe: a QUEUE only for a current root of a
    reconciled, enabled pair that nobody stopped, in DEFAULT state, with
    remote content, locally absent, owned incomplete, or provably grown; an
    EXTRACT only for a reconciled, downloaded, non-empty, extractable
    root; a DELETE_REMOTE only for an eligible root with a completion
    transition among the buffered events, and if the root was first seen
    unreconciled only after a completion by this process. *)
Theorem cycle_commands_safe s es c :
  aq_log (process_once s).2 = aq_log s ++ es -> AqCommand c ∈ es ->
  exists f, cmd_file c = file_id f /\
    match cmd_action c with
    | QUEUE_FILE => cmd_token c = None /\ may_queue (begun s) (new_patterns s) f
    | EXTRACT_FILE => cmd_token c = None /\ may_extract (begun s) (new_patterns s) f
    | DELETE_REMOTE_FILE =>
        cmd_token c = Some (remote_delete_lifecycle_token f) /\ aq_enabled s = true /\
        aq_auto_delete_remote s = true /\
        may_delete (begun s) (deferred_remote_delete (begun s) ∪ initial_reconciliation (begun s)) (modified_files s) f
    end.
Proof.
  intros Hlog Hc. destruct (process_once_log s) as (es' & Hlog' & Hes). rewrite Hlog in Hlog'.
  apply app_inj_1 in Hlog' as [_ <-]; [|done]. destruct Hes as [->|Hes]; [inversion Hc|].
  assert (Hin : AqCommand c ∈ map snd (plan (begun s) (new_patterns s))).
  { eapply elem_of_prefix; [|apply sent_prefix]. by rewrite <- Hes. }
  destruct (started_frame s) as (pairs & q & E).
  apply command_of_plan in Hin as (f & [[-> Hf]|[[-> Hf]|[-> Hf]]]); exists f; (split; [done|]); cbn [make_command cmd_action cmd_token].
  - split; [done|]. by apply queue_selected_ok.
  - split; [done|]. by apply extract_selected_ok.
  - split; [done|]. destruct Hf as (He & Hd & Hm). unfold begun in He, Hd, Hm |- *. rewrite E in He, Hd, Hm |- *. done.
Qed.

(** ** Cycles that decide nothing, and cycles that fail *)

(** An inactive cycle (the switch is off and no pair queues) drops the
    buffered events and patterns and calls nothing; an idle one (no event,
    no new pattern) only counts itself.  Both keep the delete lineage of the
    roots that were not removed, and neither raises. *)
Theorem quiet_cycles s :
  (inactive s = true \/ idle s = true) ->
  exists s', process_once s = (Ok tt, s') /\ aq_log s' = aq_log s /\
    new_files s' = [] /\ modified_files s' = [] /\ new_patterns s' = ∅ /\ removed_file_ids s' = ∅ /\
    patterns s' = patterns s /\
    deferred_remote_delete s' = deferred_remote_delete s ∖ removed_file_ids s /\
    initial_reconciliation s' = initial_reconciliation s ∖ removed_file_ids s /\
    cycle_sequence s' = (if inactive s then cycle_sequence s else cycle_sequence s + 1).
Proof.
  intros Hq. rewrite process_once_cases. destruct (started_frame s) as (pairs & q & E).
  destruct (inactive s); [|destruct Hq as [?|Hi]; [done|rewrite Hi]]; eexists; rewrite E;
    (split; [reflexivity|]); done.
Qed.

(** What a failed cycle leaves. *)
Lemma begun_fields s :
  aq_enabled (begun s) = aq_enabled s /\ aq_patterns_only (begun s) = aq_patterns_only s /\
  aq_auto_extract (begun s) = aq_auto_extract s /\ aq_auto_delete_remote (begun s) = aq_auto_delete_remote s /\
  new_files (begun s) = new_files s /\ modified_files (begun s) = modified_files s /\
  removed_file_ids (begun s) = ∅ /\ new_patterns (begun s) = ∅ /\ patterns (begun s) = patterns s /\
  aq_log (begun s) = aq_log s.
Proof. unfold begun. destruct (started_frame s) as (pairs & q & ->). done. Qed.

(** The parts of a state a failed cycle does not touch. *)
Definition settings s : bool * bool * bool * bool * gset string :=
  (aq_enabled s, aq_patterns_only s, aq_auto_extract s, aq_auto_delete_remote s, patterns s).

Lemma failed_state s e s' : process_once s = (Raise e, s') ->
  settings s' = settings s /\ new_files s' = new_files s /\ modified_files s' = modified_files s /\
  new_patterns s' = new_patterns s ∩ patterns s.
Proof.
  rewrite process_once_cases. destruct (inactive s); [done|]. destruct (idle s); [done|].
  unfold guarded_cycle. rewrite run_cycle_plan.
  destruct (outcome (plan _ _)) as [u|e']; [done|]. intros [= <- <-].
  pose proof (begun_fields s) as (H1 & H2 & H3 & H4 & H5 & H6 & H7 & H8 & H9 & _).
  generalize (sent (plan (begun s) (new_patterns s))). intros es.
  assert (Hl : exists D I, lineage_after (begun s) (new_patterns s) = set_lineage (begun s) D I).
  { unfold lineage_after. destruct (outcome _); [by eexists _, _|].
    exists (deferred_remote_delete (begun s)), (initial_reconciliation (begun s)). by destruct (begun s). }
  destruct Hl as (D & I & ->). revert H1 H2 H3 H4 H5 H6 H7 H8 H9. generalize (begun s). intros t H1 H2 H3 H4 H5 H6 H7 H8 H9.
  rewrite log_events_frame. unfold settings. cbn. rewrite H1, H2, H3, H4, H5, H6, H8, H9, union_empty_r_L. done.
Qed.

Lemma started_pairs s s' : aq_enabled s = aq_enabled s' ->
  aq_pair_auto_queue (started s) = aq_pair_auto_queue (started s') /\ queue_enabled (started s) = queue_enabled (started s').
Proof.
  intros E. unfold started, refresh_queue_state, drop_removed, modify.
  destruct enabled_path_pairs as [[[|x l]|]|]; cbn; by rewrite ?E.
Qed.

(** C15: A cycle in which the controller refuses a call raises that error and loses
    nothing: the buffered events stay, and the drained patterns that
    are still persisted come back, so that the next cycle selects the
    same roots to queue and to extract. *)
Theorem failed_cycle_keeps_work s e s' :
  process_once s = (Raise e, s') ->
  new_files s' = new_files s /\ modified_files s' = modified_files s /\
  new_patterns s' = new_patterns s ∩ patterns s /\
  (new_patterns s ⊆ patterns s -> forall f,
     (queue_selected (begun s') (new_patterns s') f <-> queue_selected (begun s) (new_patterns s) f) /\
     (extract_selected (begun s') (new_patterns s') f <-> extract_selected (begun s) (new_patterns s) f)).
Proof.
  intros Hp. destruct (failed_state s e s' Hp) as ([= Hen Hpo Hax Hdr Hpa] & Hnf & Hmf & Hnp).
  split_and!; [done|done|done|]. intros Hsub f. rewrite Hnp.
  replace (new_patterns s ∩ patterns s) with (new_patterns s) by (apply set_eq; set_solver).
  destruct (started_pairs s s' (eq_sym Hen)) as [Hpairs Hqe].
  destruct (started_frame s) as (pairs & q & E). destruct (started_frame s') as (pairs' & q' & E').
  rewrite E, E' in Hpairs, Hqe. cbn in Hpairs, Hqe. subst pairs' q'. unfold begun. rewrite E, E', Hen, Hpo, Hax, Hpa, Hnf, Hmf.
  done.
Qed.

(** ** The lineage of roots first seen unreconciled *)

Lemma delete_step_initial s f e acc :
  dget current_model_by_id (file_id f) = Some f ->
  ~ (file_id e.2 = file_id f /\ completed_here e.1 f = true) ->
  file_id f ∈ li_initial acc -> file_id f ∈ li_initial (delete_step s current_model_by_id acc e).
Proof.
  intros Hf Hc Hin. destruct e as [old new]. simpl in Hc.
  destruct (dget current_model_by_id (file_id new)) as [g|] eqn:Hg; [|unfold delete_step; by rewrite Hg].
  pose proof (proj2 current_by_own_id _ _ Hg) as Hgid.
  destruct (is_reconciliation_ready g) eqn:Hr; [|unfold delete_step; by rewrite Hg, Hr].
  rewrite (delete_step_ready s g old new acc Hg Hr).
  destruct (decide (file_id f = file_id g)) as [E|Hne].
  - assert (f = g) as -> by congruence. rewrite (bool_decide_eq_true_2 (file_id g ∈ li_initial acc)) by done.
    destruct (completed_here old g); [by destruct Hc|]. by rewrite orb_true_r.
  - destruct ((_ || _) && _); [done|]. destruct (delete_pattern s g); [destruct (delete_allowed s old g)|]; simpl; set_solver.
Qed.

Lemma scan_initial s f :
  dget current_model_by_id (file_id f) = Some f -> ~ completion_event f (modified_files s) ->
  file_id f ∈ initial_reconciliation s -> file_id f ∈ li_initial (scan_result s).
Proof.
  intros Hf Hc Hin. unfold scan_result, filter_delete_remote_candidates. destruct (aq_enabled s); [|done].
  destruct (aq_auto_delete_remote s); cbn [negb]; [|done].
  assert (Hin' : file_id f ∈ li_initial (mkLineage (deferred_remote_delete s)
    (initial_reconciliation s ∪ seen_unreconciled s current_model_by_id) [])) by (simpl; set_solver).
  revert Hin'. generalize (mkLineage (deferred_remote_delete s)
    (initial_reconciliation s ∪ seen_unreconciled s current_model_by_id) []).
  revert Hc. generalize (modified_files s) as l. induction l as [|e l IH]; intros Hc acc Hacc; [done|]. simpl.
  apply IH.
  - intros (x & Hx & ?). apply Hc. exists x. split; [by right|done].
  - apply delete_step_initial; [done| |done]. intros [? ?]. apply Hc. exists e. split; [left|done].
Qed.

(** A root in the lineage stays there through a cycle without a completion of
    its own, and that cycle does not delete it. *)
Lemma process_once_lineage s f :
  dget current_model_by_id (file_id f) = Some f -> ~ completion_event f (modified_files s) ->
  file_id f ∈ initial_reconciliation s -> file_id f ∉ removed_file_ids s ->
  file_id f ∈ initial_reconciliation (process_once s).2 /\ removed_file_ids (process_once s).2 = ∅ /\
  exists es, aq_log (process_once s).2 = aq_log s ++ es /\
    forall c, AqCommand c ∈ es -> cmd_file c = file_id f -> cmd_action c <> DELETE_REMOTE_FILE.
Proof.
  intros Hf Hc Hin Hrm. destruct (started_frame s) as (pairs & q & E).
  assert (Hin' : file_id f ∈ initial_reconciliation (begun s)) by (unfold begun; rewrite E; simpl; set_solver).
  assert (Hmf : modified_files (begun s) = modified_files s) by (unfold begun; by rewrite E).
  assert (Hrb : removed_file_ids (begun s) = ∅) by (unfold begun; by rewrite E).
  split_and!.
  - rewrite process_once_cases. destruct (inactive s); [rewrite E; simpl; set_solver|].
    destruct (idle s); [rewrite E; simpl; set_solver|]. unfold guarded_cycle. rewrite run_cycle_plan.
    pose proof (scan_initial (begun s) f Hf ltac:(by rewrite Hmf) Hin') as Hsc.
    destruct (outcome (plan _ _)) as [u|e]; cbn [snd].
    + unfold settle. simpl. apply elem_of_intersection. split; [done|]. apply elem_of_dkeyset. eauto.
    + unfold lineage_after, restore_new_patterns, modify. cbn [snd].
      destruct (outcome (map _ _)); rewrite log_events_frame; done.
  - rewrite process_once_cases. destruct (inactive s); [done|]. destruct (idle s); [done|].
    unfold guarded_cycle. rewrite run_cycle_plan. destruct (outcome (plan _ _)) as [u|e]; cbn [snd]; [done|].
    unfold lineage_after, restore_new_patterns, modify. cbn [snd].
    destruct (outcome (map _ _)); rewrite log_events_frame; done.
  - destruct (process_once_log s) as (es & Hlog & Hes). exists es. split; [done|]. intros c Hcmd Hfile.
    destruct Hes as [->| ->]; [inversion Hcmd|].
    assert (Hpl : AqCommand c ∈ map snd (plan (begun s) (new_patterns s))) by (eapply elem_of_prefix; [|apply sent_prefix]; done).
    apply command_of_plan in Hpl as (g & [[-> _]|[[-> _]|[-> (_ & _ & Hm)]]]); [done|done|]. simpl in Hfile.
    assert (g = f) as -> by (pose proof (md_current _ _ _ _ Hm); congruence).
    destruct Hm as [_ _ _ _ _ (b & e & a & Hev & [_ _ Hl])]. destruct Hc. rewrite <- Hmf, Hev.
    destruct Hl as (x & Hx & ?); [set_solver|]. exists x. split; [|done].
    rewrite cons_middle, app_assoc. apply elem_of_app. by left.
Qed.

(** A root first seen while its pair is unreconciled enters the lineage. *)
Lemma process_once_enters s s' c f :
  process_once s = (Ok tt, s') -> c ∈ new_files s -> file_id c = file_id f ->
  aq_enabled s = true -> aq_auto_delete_remote s = true ->
  dget current_model_by_id (file_id f) = Some f -> is_reconciliation_ready f = false ->
  file_id f ∈ initial_reconciliation s' /\ removed_file_ids s' = ∅.
Proof.
  intros Hp Hc Hid He Hd Hf Hr. destruct (started_frame s) as (pairs & q & E).
  rewrite process_once_cases in Hp. unfold inactive in Hp. rewrite He in Hp. cbn [negb andb] in Hp.
  assert (Hi : idle s = false).
  { unfold idle. destruct (new_files s); [inversion Hc|]. by rewrite andb_false_r. }
  rewrite Hi in Hp. unfold guarded_cycle in Hp. rewrite run_cycle_plan in Hp.
  destruct (outcome (plan _ _)) as [u|e]; [|done]. injection Hp as _ <-. split; [|unfold settle, begun; by rewrite E].
  unfold settle. simpl. apply elem_of_intersection. split; [|apply elem_of_dkeyset; eauto].
  assert (Hen : aq_enabled (begun s) = true /\ aq_auto_delete_remote (begun s) = true /\ new_files (begun s) = new_files s).
  { unfold begun. by rewrite E. }
  destruct Hen as (He' & Hd' & Hnf). unfold scan_result, filter_delete_remote_candidates. rewrite He', Hd'. cbn [negb].
  assert (Hin : file_id f ∈ seen_unreconciled (begun s) current_model_by_id).
  { unfold seen_unreconciled. apply elem_of_list_to_set, elem_of_filter_map. exists c. rewrite Hnf. split; [done|].
    by rewrite Hid, Hf, Hr. }
  assert (Hkeep : forall l acc, file_id f ∈ li_initial acc ->
    file_id f ∈ li_initial (fold_left (delete_step (begun s) current_model_by_id) l acc)).
  { induction l as [|[old new] l IH]; intros acc Hacc; [done|]. simpl. apply IH. unfold delete_step.
    destruct (dget current_model_by_id (file_id new)) as [g|] eqn:Hg; [|done].
    destruct (decide (file_id f = file_id g)) as [Eg|Hne].
    - pose proof (proj2 current_by_own_id _ _ Hg). assert (g = f) as -> by congruence. by rewrite Hr.
    - repeat case_match; simpl; set_solver. }
  apply Hkeep. simpl. set_solver.
Qed.
End cycle.

(** ** Sequences of callbacks and cycles *)

(** The controller may answer differently in every cycle. *)
Inductive aq_step :=
  | StepAdded (r : fileref)
  | StepUpdated (old new : fileref)
  | StepRemoved (r : fileref)
  | StepPatternAdded (p : string)
  | StepPatternRemoved (p : string)
  | StepCycle (c : AutoQueueController).

Definition run_step (step : aq_step) (s : AutoQueue) : AutoQueue :=
  match step with
  | StepAdded r => (file_added r s).2
  | StepUpdated old new => (file_updated old new s).2
  | StepRemoved r => (file_removed r s).2
  | StepPatternAdded p => (pattern_added p s).2
  | StepPatternRemoved p => (pattern_removed p s).2
  | StepCycle c => (@process_once c s).2
  end.

(** No step removes the root or shows a completion of it by this process, and
    it is current in every cycle. *)
Fixpoint no_completion (fid : string) (steps : list aq_step) (s : AutoQueue) : Prop :=
  match steps with
  | [] => True
  | step :: rest =>
      match step with
      | StepRemoved r => file_id r <> fid
      | StepCycle c => exists f, dget (@current_model_by_id c) fid = Some f /\
                         ~ @completion_event c f (modified_files s)
      | _ => True
      end /\ no_completion fid rest (run_step step s)
  end.

Lemma no_delete_steps fid steps s :
  fid ∈ initial_reconciliation s -> fid ∉ removed_file_ids s -> no_completion fid steps s ->
  fid ∈ initial_reconciliation (fold_left (fun s step => run_step step s) steps s) /\
  exists es, aq_log (fold_left (fun s step => run_step step s) steps s) = aq_log s ++ es /\
    forall c, AqCommand c ∈ es -> cmd_file c = fid -> cmd_action c <> DELETE_REMOTE_FILE.
Proof.
  revert s. induction steps as [|step steps IH]; intros s Hin Hrm Hno; simpl.
  { split; [done|]. exists []. split; [by rewrite app_nil_r|]. intros c Hc. inversion Hc. }
  destruct Hno as [Hstep Hrest].
  assert (Hone : fid ∈ initial_reconciliation (run_step step s) /\ fid ∉ removed_file_ids (run_step step s) /\
    exists es, aq_log (run_step step s) = aq_log s ++ es /\
      forall c, AqCommand c ∈ es -> cmd_file c = fid -> cmd_action c <> DELETE_REMOTE_FILE).
  { assert (Hnil : aq_log (run_step step s) = aq_log s -> exists es, aq_log (run_step step s) = aq_log s ++ es /\
      forall c, AqCommand c ∈ es -> cmd_file c = fid -> cmd_action c <> DELETE_REMOTE_FILE).
    { intros E. exists []. split; [by rewrite E, app_nil_r|]. intros c Hc. inversion Hc. }
    destruct step as [r|old new|r|p|p|c]; try (split_and!; [done|done|by apply Hnil]).
    - split_and!; [done|simpl; set_solver|by apply Hnil].
    - destruct Hstep as (f & Hf & Hc). pose proof (proj2 current_by_own_id _ _ Hf) as Hid. subst fid.
      destruct (process_once_lineage s f Hf Hc Hin Hrm) as (H1 & H2 & H3). simpl. rewrite H2. split_and!; [done|set_solver|done]. }
  destruct Hone as (H1 & H2 & es & Hes & Hsafe). destruct (IH _ H1 H2 Hrest) as (H3 & es' & Hes' & Hsafe').
  split; [done|]. exists (es ++ es'). split; [by rewrite Hes', Hes, app_assoc|].
  intros c [Hc|Hc]%elem_of_app; auto.
Qed.

(** A root first seen while its pair was unreconciled is not deleted
    remotely in any later sequence of callbacks, cycles and controller answers,
    as long as it stays in the model and no buffered event shows that this
    process completed its transfer: a late local scan that makes it look
    downloaded is not enough. *)
Theorem unreconciled_root_not_deleted (c0 : AutoQueueController) s0 s1 r f steps :
  @process_once c0 s0 = (Ok tt, s1) -> aq_enabled s0 = true -> aq_auto_delete_remote s0 = true ->
  r ∈ new_files s0 -> file_id r = file_id f ->
  dget (@current_model_by_id c0) (file_id f) = Some f -> @is_reconciliation_ready c0 f = false ->
  no_completion (file_id f) steps s1 ->
  exists es, aq_log (fold_left (fun s step => run_step step s) steps s1) = aq_log s1 ++ es /\
    forall c, AqCommand c ∈ es -> cmd_file c = file_id f -> cmd_action c <> DELETE_REMOTE_FILE.
Proof.
  intros Hp He Hd Hr Hid Hf Hrec Hno.
  destruct (process_once_enters s0 s1 r f Hp Hr Hid He Hd Hf Hrec) as [Hin Hrm].
  apply (no_delete_steps (file_id f) steps s1); [done|rewrite Hrm; set_solver|done].
Qed.

(** ** A concrete controller *)

Definition sample_root (n : string) (state : State) (remote loc archive : bool) : fileref :=
  let f := put_sizes (put_state (new_file 0 n false) state) (if remote then Some 10 else None)
             (if loc then Some 10 else None) in
  let f := set_flag (set_flag (set_flag f F_REMOTE_PRESENT remote) F_REMOTE_CONTENT remote) F_LOCAL_PRESENT loc in
  mkRef 1 [] (set_runtime f "is_extractable" (PyBool archive) (PyBool false)).

(** Three roots: one only remote, one downloaded archive, one downloaded file. *)
Definition sample_roots : list fileref :=
  [sample_root "a" DEFAULT true false false; sample_root "z" DOWNLOADED true true true;
   sample_root "b" DOWNLOADED true true false].

Definition sample_controller (ready : bool) (refused : command -> option exn) : AutoQueueController := {|
  model_roots := sample_roots;
  is_file_stopped := fun _ => false;
  is_owned_incomplete_transfer := fun _ => false;
  is_path_pair_reconciled := fun _ => ready;
  remote_delete_lifecycle_token := fun _ => (1, 2);
  is_remote_delete_eligible := fun _ => true;
  has_current_process_final_publication := fun _ => false;
  command_error := refused;
  marker_error := fun _ => None;
  enabled_path_pairs := None |}.

Definition sample_queue : AutoQueue :=
  mkAQ true false true true [] true 0 false ∅ ∅ (take 2 sample_roots)
    [(sample_root "b" DOWNLOADING true true false, sample_root "b" DOWNLOADED true true false)] ∅ {["a"]} {["a"]} [].

Definition no_error (c : command) : option exn := None.

Example sample_cycle :
  map (fun e => match e with AqCommand c => (cmd_action c, cmd_file c) | AqClearMarker f => (QUEUE_FILE, "marker") end)
    (aq_log (@process_once (sample_controller true no_error) sample_queue).2) =
  [(QUEUE_FILE, "a"); (EXTRACT_FILE, "z"); (DELETE_REMOTE_FILE, "b")].
Proof. vm_compute. reflexivity. Qed.

(** Two enabled pairs, one of which queues. *)
Definition sample_pairs_controller : AutoQueueController := {|
  model_roots := sample_roots;
  is_file_stopped := fun _ => false;
  is_owned_incomplete_transfer := fun _ => false;
  is_path_pair_reconciled := fun _ => true;
  remote_delete_lifecycle_token := fun _ => (1, 2);
  is_remote_delete_eligible := fun _ => true;
  has_current_process_final_publication := fun _ => false;
  command_error := no_error;
  marker_error := fun _ => None;
  enabled_path_pairs := Some (Some [mkPair "p" "P" "/r" "/l" true true; mkPair "q" "Q" "/r2" "/l2" true false]) |}.

Lemma pair_switches_witness :
  queue_enabled (@started sample_pairs_controller sample_queue) = true.
Proof.
  destruct (@pair_switches sample_pairs_controller sample_queue (sample_root "a" DEFAULT true false false)) as [_ H].
  - repeat constructor; set_solver.
  - apply H. discriminate.
Defined.


Lemma cycle_commands_safe_witness :
  let c := sample_controller true no_error in
  exists f, "b" = file_id f /\ @is_remote_delete_eligible c f = true.
Proof.
  intros c. set (es := aq_log (@process_once c sample_queue).2).
  destruct (@cycle_commands_safe c sample_queue es
    (mkCommand DELETE_REMOTE_FILE "b" "autoq:1:DELETE_REMOTE:b" (Some (1, 2)))) as (f & Hf & _ & _ & _ & Hm).
  - reflexivity.
  - apply list_elem_of_In. vm_compute. right. right. left. reflexivity.
  - exists f. split; [exact Hf|]. exact (md_eligible _ _ _ _ Hm).
Defined.

Lemma quiet_cycles_witness :
  let c := sample_controller true no_error in
  exists s', @process_once c (set_buffers sample_queue [] [] ∅ ∅) = (Ok tt, s').
Proof.
  intros c. destruct (@quiet_cycles c (set_buffers sample_queue [] [] ∅ ∅)) as (s' & Hs & _).
  - right. vm_compute. reflexivity.
  - exists s'. exact Hs.
Defined.

(** The controller refuses to delete. *)
Definition refuse_delete (c : command) : option exn :=
  match cmd_action c with DELETE_REMOTE_FILE => Some ValueError | _ => None end.

Example sample_refused : (@process_once (sample_controller true refuse_delete) sample_queue).1 = Raise ValueError.
Proof. vm_compute. reflexivity. Qed.

Lemma failed_cycle_keeps_work_witness :
  let c := sample_controller true refuse_delete in
  new_files (@process_once c sample_queue).2 = new_files sample_queue /\
  new_patterns (@process_once c sample_queue).2 = {["a"]}.
Proof.
  intros c. destruct (@failed_cycle_keeps_work c sample_queue ValueError (@process_once c sample_queue).2) as (H1 & _ & H3 & _).
  - rewrite <- sample_refused. apply surjective_pairing.
  - split; [exact H1|]. rewrite H3. apply set_eq. set_solver.
Defined.

Definition sample_first : AutoQueue :=
  set_buffers sample_queue [sample_root "b" DOWNLOADED true true false] [] ∅ ∅.

Example sample_unreconciled :
  (@process_once (sample_controller false no_error) sample_first).1 = Ok tt /\
  modified_files (@process_once (sample_controller false no_error) sample_first).2 = [].
Proof. vm_compute. split; reflexivity. Qed.

(** The pair is unreconciled in the first cycle and reconciled afterwards. *)
Lemma unreconciled_root_not_deleted_witness :
  let c0 := sample_controller false no_error in
  let c1 := sample_controller true no_error in
  let z := sample_root "b" DOWNLOADED true true false in
  let s1 := (@process_once c0 sample_first).2 in
  exists es, aq_log (fold_left (fun s step => run_step step s)
      [StepUpdated (sample_root "b" DEFAULT true false false) z; StepCycle c1] s1) = aq_log s1 ++ es /\
    forall c, AqCommand c ∈ es -> cmd_file c = file_id z -> cmd_action c <> DELETE_REMOTE_FILE.
Proof.
  intros c0 c1 z s1.
  apply (unreconciled_root_not_deleted c0 sample_first s1 z z [StepUpdated (sample_root "b" DEFAULT true false false) z; StepCycle c1]).
  - rewrite <- (proj1 sample_unreconciled). apply surjective_pairing.
  - reflexivity.
  - reflexivity.
  - left.
  - reflexivity.
  - vm_compute. reflexivity.
  - reflexivity.
  - split; [exact I|]. split; [|exact I]. exists z. split; [vm_compute; reflexivity|].
    intros (e & He & _ & Hc). change (e ∈ modified_files s1 ++ [(sample_root "b" DEFAULT true false false, z)]) in He.
    rewrite (proj2 sample_unreconciled : modified_files s1 = []) in He. apply list_elem_of_singleton in He as ->.
    discriminate Hc.
Defined.
