(* ===== verification/AutoQueuePatterns.v ===== *)
(** * Auto-queue: the pattern store and its file

    The invariant of [AutoQueuePersist], what its listeners are told, and the
    round trip of its file. *)

From S2P Require Import Prelude PyDict PyStr Json ModelFile PathPair AutoQueue.

Implicit Types (s : AutoQueuePersist) (p : string).

(** No pattern twice, none blank. *)
Definition store_ok s : Prop :=
  NoDup (aq_patterns s) /\ forall p, p ∈ aq_patterns s -> strip p <> "".

Inductive store_op := StoreAdd (p : string) | StoreRemove (p : string) | StoreListen (l : nat).

Definition run_store (o : store_op) : st AutoQueuePersist unit :=
  match o with
  | StoreAdd p => add_pattern p
  | StoreRemove p => remove_pattern p
  | StoreListen l => add_pattern_listener l
  end.

(** The patterns as the listener calls describe them. *)
Definition replay (l : nat) (calls : list pattern_event) (ps : list string) : list string :=
  fold_left (fun ps e =>
    match e with
    | PatternAdded l' p => if Nat.eqb l l' then ps ++ [p] else ps
    | PatternRemoved l' p => if Nat.eqb l l' then filter (fun q => q <> p) ps else ps
    end) calls ps.

Lemma remove_first_filter p (l : list string) : NoDup l -> remove_first p l = filter (fun q => q <> p) l.
Proof.
  induction 1 as [|q l Hq Hl IH]; [done|]. simpl. destruct (String.eqb_spec p q) as [<-|Hne].
  - rewrite filter_cons_False by (intros E; by apply E). symmetry. apply filter_all_id.
    intros q Hin E. subst. done.
  - rewrite filter_cons_True by congruence. by rewrite IH.
Qed.

Lemma add_pattern_run p s : strip p <> "" ->
  add_pattern p s = (Ok tt, if bool_decide (p ∈ aq_patterns s) then s else
    mkPersist (aq_patterns s ++ [p]) (aq_listeners s) (aq_calls s ++ map (fun l => PatternAdded l p) (aq_listeners s))).
Proof. intros Hp. unfold add_pattern. destruct (String.eqb_spec (strip p) ""); done. Qed.

Lemma run_store_ok o s : store_ok s -> store_ok (run_store o s).2.
Proof.
  intros [Hnd Hb]. destruct o as [p|p|l]; simpl.
  - destruct (decide (strip p = "")) as [E|Hne].
    { unfold add_pattern. rewrite E. by split. }
    rewrite add_pattern_run by done. simpl. case_bool_decide as Hin; [by split|]. split; simpl.
    + apply NoDup_app. split_and!; [done| |apply NoDup_singleton]. intros x Hx Hx'%list_elem_of_singleton. congruence.
    + intros q [Hq|Hq%list_elem_of_singleton]%elem_of_app; [auto|congruence].
  - unfold remove_pattern, modify. simpl. case_bool_decide as Hin; [|by split]. split; simpl;
      rewrite remove_first_filter by done.
    + by apply NoDup_filter.
    + intros q [_ Hq]%list_elem_of_filter. auto.
  - by split.
Qed.

(** Each operation tells a listener registered once exactly the change. *)
Lemma replay_notify l ls ps (mk : nat -> pattern_event) (f : list string -> list string) :
  (forall l' qs, replay l [mk l'] qs = if Nat.eqb l l' then f qs else qs) ->
  NoDup ls -> l ∈ ls -> replay l (map mk ls) ps = f ps.
Proof.
  intros Hmk. assert (Happ : forall a b qs, replay l (a ++ b) qs = replay l b (replay l a qs)) by (intros; apply fold_left_app).
  assert (Hout : forall ls qs, l ∉ ls -> replay l (map mk ls) qs = qs).
  { induction ls0 as [|x ls0 IH]; intros qs Hn; [done|]. change (map mk (x :: ls0)) with ([mk x] ++ map mk ls0).
    rewrite Happ, Hmk. destruct (Nat.eqb_spec l x) as [->|]; [destruct Hn; left|]. apply IH. intros ?. apply Hn. by right. }
  intros Hnd Hin. induction Hnd as [|x ls Hx Hnd IH]; [inversion Hin|].
  change (map mk (x :: ls)) with ([mk x] ++ map mk ls). rewrite Happ, Hmk. destruct (Nat.eqb_spec l x) as [->|Hne].
  - by apply Hout.
  - apply IH. by apply elem_of_cons in Hin as [?|?].
Qed.

(** The pattern store: from a store without duplicates and blanks every
    operation leads to such a store; adding a blank pattern is refused and
    changes nothing; and a listener that registered once can follow the
    patterns from the calls it gets. *)
Theorem pattern_store_contract s o l :
  store_ok s -> NoDup (aq_listeners s) -> l ∈ aq_listeners s ->
  store_ok (run_store o s).2 /\
  (forall p, o = StoreAdd p -> strip p = "" -> run_store o s = (Raise ValueError, s)) /\
  (forall p, o = StoreAdd p -> strip p <> "" -> p ∈ aq_patterns (run_store o s).2) /\
  (forall p, o = StoreRemove p -> p ∉ aq_patterns (run_store o s).2) /\
  exists calls, aq_calls (run_store o s).2 = aq_calls s ++ calls /\
    replay l calls (aq_patterns s) = aq_patterns (run_store o s).2.
Proof.
  intros Hs Hnd Hl. split; [by apply run_store_ok|]. destruct Hs as [Hn Hb]. split_and!.
  - intros p -> E. simpl. unfold add_pattern. by rewrite E.
  - intros p -> Hp. simpl. rewrite add_pattern_run by done. simpl. case_bool_decide; [done|].
    simpl. apply elem_of_app. right. by apply list_elem_of_singleton.
  - intros p ->. simpl. unfold remove_pattern, modify. simpl. case_bool_decide as Hin; [|done]. simpl.
    rewrite remove_first_filter by done. by intros [? _]%list_elem_of_filter.
  - assert (Hsame : (run_store o s).2 = s -> exists calls, aq_calls (run_store o s).2 = aq_calls s ++ calls /\
      replay l calls (aq_patterns s) = aq_patterns (run_store o s).2).
    { intros ->. exists []. by rewrite app_nil_r. }
    destruct o as [p|p|l']; simpl in *.
    + destruct (decide (strip p = "")) as [E|Hp]; [apply Hsame; unfold add_pattern; by rewrite E|].
      rewrite add_pattern_run in Hsame |- * by done. simpl in *. case_bool_decide; [by apply Hsame|].
      eexists. split; [reflexivity|]. apply (replay_notify l _ _ _ (fun ps => ps ++ [p])); done.
    + unfold remove_pattern, modify in *. simpl in *. case_bool_decide; [|by apply Hsame].
      eexists. split; [reflexivity|]. cbn [aq_patterns]. rewrite remove_first_filter by done.
      apply (replay_notify l _ _ _ (filter (fun q => q <> p))); done.
    + exists []. by rewrite app_nil_r.
Qed.

Lemma pattern_store_contract_witness :
  let s := mkPersist ["a"; "b"] [1%nat; 2%nat] [] in
  "c" ∈ aq_patterns (run_store (StoreAdd "c") s).2.
Proof.
  intros s. destruct (pattern_store_contract s (StoreAdd "c") 2%nat) as (_ & _ & H & _).
  - split; [repeat constructor; set_solver|]. intros p Hp. simpl in Hp.
    apply elem_of_cons in Hp as [->|[->|Hp]%elem_of_cons]; [vm_compute; discriminate|vm_compute; discriminate|inversion Hp].
  - repeat constructor; set_solver.
  - right. left.
  - apply (H "c"); [reflexivity|]. vm_compute. discriminate.
Defined.

(** ** The file *)

Lemma loads_pattern p : loads (pattern_to_str p) = Some (JObj [("pattern", JStr p)]).
Proof.
  unfold loads, pattern_to_str. rewrite chars_str.
  set (l := "{"%char :: _). assert (Hlen : exists n, S (String.length (str l)) = S (S (S (S n)))).
  { exists (String.length (str l) - 3)%nat. rewrite <- length_chars, chars_str. unfold l, json_str_chars.
    repeat (simpl; rewrite ?length_app). lia. }
  destruct Hlen as [n ->]. unfold l, json_str_chars. rewrite skip_head by done.
  cbn [parse_value]. change (ord "{"%char =? 34) with false. change (ord "{"%char =? 91) with false.
  change (ord "{"%char =? 123) with true. cbv iota. cbn [app]. rewrite skip_head by done.
  change (ord quote =? 125) with false. cbv iota. cbn [parse_members]. change (ord quote =? 34) with true. cbv iota.
  rewrite <- !app_assoc, unesc_key. cbn [app]. rewrite skip_head by done. change (ord ":"%char =? 58) with true. cbv iota.
  assert (Hsp : forall r, skip (" "%char :: r) = skip r) by done. rewrite Hsp, skip_head by done.
  cbn [parse_value]. change (ord quote =? 34) with true. cbv iota.
  change (concat (map esc_char (chars p)) ++ [quote; "}"%char]) with (concat (map esc_char (chars p)) ++ [quote] ++ ["}"%char]).
  rewrite unesc_key. cbn [app]. rewrite skip_head by done. change (ord "}"%char =? 125) with true. cbv iota. by rewrite !str_chars.
Qed.

Lemma pattern_round_trip p : pattern_from_str (pattern_to_str p) = Ok p.
Proof. unfold pattern_from_str, json_object. by rewrite loads_pattern. Qed.

(** Reading the stored patterns back one by one. *)
Definition read_patterns (l : list json) : st AutoQueuePersist unit :=
  mfor l (fun v =>
    match v with
    | JStr s => p ← lift (pattern_from_str s); add_pattern p
    | _ => raise TypeError
    end).

Lemma read_patterns_ok l s r s' : store_ok s -> read_patterns l s = (r, s') -> store_ok s'.
Proof.
  revert s. induction l as [|v l IH]; intros s Hs; [by intros [= _ <-]|]. unfold read_patterns. cbn [mfor].
  unfold mbind at 1, st_bind at 1. destruct v as [| | | |x| |]; try (by intros [= _ <-]).
  unfold mbind at 1, st_bind at 1, lift. destruct (pattern_from_str x) as [p|e]; [|by intros [= _ <-]].
  pose proof (run_store_ok (StoreAdd p) s Hs) as Hs1. simpl in Hs1.
  destruct (add_pattern p s) as [[u|e] s1]; [|by intros [= _ <-]]. by apply IH.
Qed.

Lemma read_patterns_back ps acc : NoDup (acc ++ ps) -> (forall p, p ∈ ps -> strip p <> "") ->
  read_patterns (map (fun p => JStr (pattern_to_str p)) ps) (mkPersist acc [] []) = (Ok tt, mkPersist (acc ++ ps) [] []).
Proof.
  revert acc. induction ps as [|p ps IH]; intros acc Hnd Hb; [by rewrite app_nil_r|].
  unfold read_patterns. cbn [map mfor]. unfold mbind at 1, st_bind at 1. unfold mbind at 1, st_bind at 1, lift.
  rewrite pattern_round_trip, add_pattern_run by (apply Hb; left). cbn [aq_patterns aq_listeners aq_calls map app].
  assert (Hp : p ∉ acc). { intros Hin. apply NoDup_app in Hnd as (_ & Hd & _). apply (Hd p Hin). left. }
  rewrite bool_decide_eq_false_2 by done.
  assert (E : acc ++ p :: ps = (acc ++ [p]) ++ ps) by (by rewrite <- app_assoc). rewrite E in Hnd |- *.
  apply (IH (acc ++ [p])); [done|]. intros q Hq. apply Hb. by right.
Qed.

(** The pattern file: what is written reads back to the same patterns in
    the same order, and any content at all reads either to a store without
    duplicates and blank patterns or is refused with [PersistError]. *)
Theorem pattern_file_round_trip s content :
  store_ok s ->
  persist_from_str (persist_to_str s) = Ok (mkPersist (aq_patterns s) [] []) /\
  match persist_from_str content with
  | Ok s' => store_ok s'
  | Raise e => e = PersistError "Error parsing AutoQueuePersist"
  end.
Proof.
  intros [Hnd Hb]. split.
  - unfold persist_from_str, json_object, persist_to_str. rewrite loads_dumps.
    + change (match (match read_patterns (map (fun p => JStr (pattern_to_str p)) (aq_patterns s)) (mkPersist [] [] []) with
        | (Ok _, s) => Ok s | (Raise e, _) => Raise e end) with
        | Ok s => Ok s | Raise _ => Raise (PersistError "Error parsing AutoQueuePersist") end =
        Ok (mkPersist (aq_patterns s) [] [])). by rewrite read_patterns_back.
    + apply json_ok_obj. split; [apply NoDup_singleton|]. apply Forall_singleton. apply json_ok_arr.
      apply Forall_forall. intros v (p & -> & _)%list_elem_of_fmap. exact I.
  - unfold persist_from_str. destruct (json_object content) as [d|e]; [|done]. cbn -[mfor].
    destruct (dget d "patterns") as [[| | | | |l|]|]; try done.
    change (match (match (match read_patterns l new_persist with (Ok _, s) => Ok s | (Raise e, _) => Raise e end) with
      | Ok s => Ok s | Raise _ => Raise (PersistError "Error parsing AutoQueuePersist") end) with
      | Ok s' => store_ok s' | Raise e => e = PersistError "Error parsing AutoQueuePersist" end).
    destruct (read_patterns l new_persist) as [[u|e] s'] eqn:E; [|done].
    eapply read_patterns_ok; [|exact E]. split; [constructor|]. intros p Hp. inversion Hp.
Qed.

Lemma pattern_file_round_trip_witness :
  let s := mkPersist ["*.mkv"; "a b"] [] [] in
  persist_from_str (persist_to_str s) = Ok s.
Proof.
  intros s. apply (pattern_file_round_trip s ""). split.
  - repeat constructor; set_solver.
  - intros p Hp. simpl in Hp.
    apply elem_of_cons in Hp as [->|[->|Hp]%elem_of_cons]; [vm_compute; discriminate|vm_compute; discriminate|inversion Hp].
Defined.
