(* ===== verification/AutoQueueRemote.v ===== *)
(** * Auto-queue: what counts as a remote change

    The fingerprint of a root is a function of its remote side alone, and an
    update that leaves the remote side alone queues nothing. *)

From S2P Require Import Prelude PyDict PyStr Json ModelFile ModelFileFacts PathPair AutoQueue AutoQueueCycle.

(** The remote side of a tree. *)
Inductive remote_tree :=
  RT (rt_name : string) (rt_dir rt_present : bool) (rt_size : option Z) (rt_content : bool) (rt_children : list remote_tree).

Fixpoint remote_side (f : ModelFile) : remote_tree :=
  match f with
  | mkFile fl cs =>
      let f := mkFile fl None in
      RT (name f) (is_dir f) (remote_present f) (remote_size f) (remote_has_transferable_content f)
        (match cs with Some l => map remote_side l | None => [] end)
  end.

(** The fingerprint of a remote side. *)
Fixpoint side_fingerprint (t : remote_tree) : option fingerprint :=
  match t with
  | RT n d p s c l =>
      let children := fp_sort ((fix go l :=
        match l with
        | [] => []
        | x :: l' => match side_fingerprint x with Some q => q :: go l' | None => go l' end
        end) l) in
      if negb (p || match s with Some _ => true | None => false end || c) &&
         match children with [] => true | _ => false end then None
      else Some (FP n d p s c children)
  end.

Lemma fp_eqb_refl (a : fingerprint) : fp_eqb a a = true.
Proof.
  revert a. fix IH 1. intros [n d p s c l]. simpl.
  rewrite String.eqb_refl, !Bool.eqb_reflx, bool_decide_eq_true_2 by done. simpl.
  induction l as [|x l IHl]; [done|]. by rewrite IH, IHl.
Qed.

Lemma fingerprint_side f : remote_tree_fingerprint f = side_fingerprint (remote_side f).
Proof.
  revert f. fix IH 1. intros [fl cs]. cbn [remote_tree_fingerprint remote_side side_fingerprint].
  assert (E : forall l, (fix go l := match l with [] => [] | c :: l' =>
      match remote_tree_fingerprint c with Some p => p :: go l' | None => go l' end end) l =
    (fix go l := match l with [] => [] | x :: l' =>
      match side_fingerprint x with Some q => q :: go l' | None => go l' end end) (map remote_side l)).
  { induction l as [|c l IHl]; [done|]. cbn [map]. rewrite <- IH, IHl. done. }
  destruct cs as [l|]; [|done]. by rewrite E.
Qed.

(** The remote facts of the root itself. *)
Lemma remote_side_root f g : remote_side f = remote_side g ->
  remote_size f = remote_size g /\ remote_present f = remote_present g /\
  remote_has_transferable_content f = remote_has_transferable_content g.
Proof. destruct f, g. simpl. by intros [= _ _ ? ? ? _]. Qed.

Lemma same_remote_side_unchanged old new :
  remote_side old = remote_side new -> is_remote_discovery_changed old new = false.
Proof.
  intros E. destruct (remote_side_root _ _ E) as (Es & Ep & Ec). unfold is_remote_discovery_changed.
  rewrite !fingerprint_side, E, Es, Ep, Ec, bool_decide_eq_true_2 by done. simpl.
  destruct (remote_has_transferable_content new), (remote_present new); simpl;
    (destruct (side_fingerprint _); simpl; [by rewrite fp_eqb_refl|done]).
Qed.

(** Only remote changes queue: an update whose old and new tree have the
    same remote side (whatever happened to local sizes, presence, states and
    counters anywhere in the tree) is not a remote discovery, and buffering it
    leaves the roots to queue as they were. *)
Theorem local_update_queues_nothing `{AutoQueueController} (s : AutoQueue) np current old new :
  remote_side (ref_file old) = remote_side (ref_file new) ->
  is_remote_discovery_changed (ref_file old) (ref_file new) = false /\
  files_to_queue (file_updated old new s).2 np current = files_to_queue s np current.
Proof.
  intros E. pose proof (same_remote_side_unchanged _ _ E) as Hch. split; [done|].
  unfold file_updated, modify. cbn [snd]. unfold files_to_queue. cbn [modified_files new_files set_buffers queue_enabled].
  assert (Ha : actual_updates (modified_files s ++ [(old, new)]) = actual_updates (modified_files s)).
  { unfold actual_updates. rewrite filter_app, filter_cons_False by (simpl; by rewrite Hch). apply app_nil_r. }
  assert (Hd : remote_discoveries (modified_files s ++ [(old, new)]) = remote_discoveries (modified_files s)).
  { unfold remote_discoveries. rewrite filter_app, filter_cons_False by (simpl; by rewrite Hch). apply app_nil_r. }
  unfold update_proofs. rewrite Ha, Hd. reflexivity.
Qed.

Lemma local_update_queues_nothing_witness :
  let old := sample_root "a" DEFAULT true false false in
  let new := sample_root "a" DOWNLOADED true true false in
  @files_to_queue (sample_controller true no_error) (file_updated old new sample_queue).2 ∅ [] =
  @files_to_queue (sample_controller true no_error) sample_queue ∅ [].
Proof.
  intros old new. apply (local_update_queues_nothing (H := sample_controller true no_error) sample_queue ∅ [] old new).
  reflexivity.
Defined.
