(* ===== verification/LftpStatus.v ===== *)
(** * LFTP pget status sidecars ([common/lftp_status.py])

    The bounded parser of the position/limit map of a segmented transfer: what
    it accepts, how many bytes it reports as covered, and that every map a
    writer may produce is read back. *)

From S2P Require Import Prelude PyDict PyStr Json.

Definition MAX_LFTP_PGET_STATUS_BYTES : nat := Z.to_nat (64 * 1024).
Definition MAX_LFTP_PGET_SEGMENTS : nat := 256.

Record LftpPgetStatus := mkPget { total_size : Z; covered_size : Z; base_only : bool }.

(** [len(s.encode("utf-8"))] for code points below 256 *)
Definition utf8_length (l : list ascii) : nat :=
  foldr (fun c n => (if (ord c <? 128)%Z then 1 else 2) + n)%nat O l.

(** [int(value)]; [None] beyond the interpreter's digit limit. *)
Definition parse_decimal (ds : list ascii) : option Z :=
  if (max_int_digits <? length ds)%nat then None else Some (digits_value ds).

(** [\d+] to the end *)
Definition all_digits (l : list ascii) : option (list ascii) :=
  match l with
  | [] => None
  | _ => if forallb is_digit l then Some l else None
  end.

(** [size=(\d+)] *)
Definition match_size (l : list ascii) : option (list ascii) :=
  if prefix_of (chars "size=") l then all_digits (drop 5 l) else None.

(** [(\d+)<key>(\d+)], full match *)
Definition match_field (key : string) (l : list ascii) : option (list ascii * list ascii) :=
  match take_while is_digit l with
  | [] => None
  | ds =>
      let rest := drop_while is_digit l in
      if prefix_of (chars key) rest then
        match all_digits (drop (String.length key) rest) with
        | Some v => Some (ds, v)
        | None => None
        end
      else None
  end.

(** Both numbers of a matched line. *)
Definition read_field (key : string) (l : list ascii) : option (option Z * option Z) :=
  match match_field key l with
  | Some (i, v) => Some (parse_decimal i, parse_decimal v)
  | None => None
  end.

Definition overlaps (a b : Z * Z) : bool := (a.1 <? b.2) && (b.1 <? a.2).

(** The loop over the line pairs: the accepted ranges, oldest first, and the
    bytes they leave open. *)
Fixpoint parse_segments (total expected : Z) (ranges : list (Z * Z)) (empty_size : Z)
    (lines : list (list ascii)) : option (list (Z * Z) * Z) :=
  match lines with
  | pl :: ll :: rest =>
      match read_field ".pos=" pl, read_field ".limit=" ll with
      | Some (Some i, Some position), Some (Some j, Some limit) =>
          if negb (i =? expected) || negb (j =? expected) then None
          else if (total <? position) || (total <? limit) || (limit <? position) then None
          else if existsb (overlaps (position, limit)) ranges then None
          else parse_segments total (expected + 1) (ranges ++ [(position, limit)])
                 (empty_size + (limit - position)) rest
      | _, _ => None
      end
  | _ => Some (ranges, empty_size)
  end.

Definition status_lines (status : string) : list (list ascii) :=
  filter (fun l => l <> []) (map (fun l => chars (strip l)) (splitlines status)).

Definition parse_lftp_pget_status (status : string) : option LftpPgetStatus :=
  if (MAX_LFTP_PGET_STATUS_BYTES <? utf8_length (chars status))%nat then None else
  match status_lines status with
  | [] => None
  | first :: lines =>
      match match_size first with
      | None => None
      | Some ds =>
          match parse_decimal ds with
          | None => None
          | Some total =>
              match lines with
              | [] => None
              | [line] =>
                  match read_field ".pos=" line with
                  | Some (Some i, Some covered) =>
                      if negb (i =? 0) || (total <? covered) then None else Some (mkPget total covered true)
                  | _ => None
                  end
              | _ =>
                  if Nat.odd (length lines) then None
                  else if (MAX_LFTP_PGET_SEGMENTS <? Nat.div2 (length lines))%nat then None
                  else match parse_segments total 0 [] 0 lines with
                       | None => None
                       | Some (_, empty_size) =>
                           if total <? empty_size then None
                           else Some (mkPget total (total - empty_size) false)
                       end
              end
          end
      end
  end.

Example parse_sample :
  parse_lftp_pget_status (str (chars "size=100" ++ [chr 10] ++ chars "0.pos=10" ++ [chr 10] ++ chars "0.limit=50" ++ [chr 10] ++
    chars "1.pos=60" ++ [chr 10] ++ chars "1.limit=100" ++ [chr 10])) = Some (mkPget 100 20 false).
Proof. vm_compute. reflexivity. Qed.

(** ** Holes *)

(** Pairwise apart, in the sense of the parser's test. *)
Fixpoint apart (rs : list (Z * Z)) : Prop :=
  match rs with
  | [] => True
  | r :: rs' => Forall (fun q => overlaps q r = false) rs' /\ apart rs'
  end.

Definition bounded (total : Z) (r : Z * Z) : Prop := 0 <= r.1 <= r.2 /\ r.2 <= total.

Definition open_bytes (rs : list (Z * Z)) : Z := foldr (fun r n => (r.2 - r.1) + n) 0 rs.

Lemma apart_snoc rs r : apart rs -> existsb (overlaps r) rs = false -> apart (rs ++ [r]).
Proof.
  induction rs as [|q rs IH]; simpl; intros Ha He; [done|].
  apply orb_false_iff in He as [He1 He2]. destruct Ha as [Hq Ha]. split; [|by apply IH].
  apply Forall_app. by split; [|apply Forall_singleton].
Qed.

Lemma open_bytes_app a b : open_bytes (a ++ b) = open_bytes a + open_bytes b.
Proof. induction a as [|r a IH]; simpl; lia. Qed.

Lemma digits_value_nonneg ds : 0 <= digits_value ds \/ exists c, c ∈ ds /\ is_digit c = false.
Proof.
  induction ds as [|c ds IH] using rev_ind; [left; done|].
  destruct (is_digit c) eqn:Ec; [|right; exists c; set_solver].
  destruct IH as [IH|(x & Hx & ?)]; [|right; exists x; set_solver]. left. rewrite digits_value_app. simpl length.
  change (digits_value [c]) with (0 * 10 + digit_value c). unfold is_digit, digit_value in *. lia.
Qed.

Lemma all_digits_nonneg l ds : all_digits l = Some ds -> 0 <= digits_value ds.
Proof.
  unfold all_digits. destruct l as [|c l]; [done|]. destruct (forallb is_digit (c :: l)) eqn:E; [|done].
  intros [= <-]. destruct (digits_value_nonneg (c :: l)) as [?|(x & Hx & Hn)]; [done|].
  rewrite forallb_forall in E. apply list_elem_of_In, E in Hx. congruence.
Qed.

Lemma read_field_nonneg key l i v : read_field key l = Some (i, Some v) -> 0 <= v.
Proof.
  unfold read_field, match_field. destruct (take_while is_digit l); [done|]. destruct (prefix_of _ _); [|done].
  destruct (all_digits _) as [ds|] eqn:E; [|done]. intros [= _ Hv]. revert Hv. unfold parse_decimal.
  destruct (_ <? _)%nat; [done|]. intros [= <-]. by eapply all_digits_nonneg.
Qed.

Lemma open_bytes_nonneg total rs : Forall (bounded total) rs -> 0 <= open_bytes rs.
Proof. induction 1 as [|r rs [[? ?] ?] ? IH]; simpl; lia. Qed.

(** The loop accepts exactly bounded ranges that are apart, and sums them. *)
Lemma parse_segments_sound total n : forall lines expected ranges empty_size rs e,
  (length lines <= n)%nat -> parse_segments total expected ranges empty_size lines = Some (rs, e) ->
  Forall (bounded total) ranges -> apart ranges -> empty_size = open_bytes ranges ->
  Forall (bounded total) rs /\ apart rs /\ e = open_bytes rs /\
  length rs = (length ranges + Nat.div2 (length lines))%nat.
Proof.
  induction n as [|n IH]; intros lines expected ranges es rs e Hlen Hp Hb Ha He.
  { destruct lines; [|simpl in Hlen; lia]. injection Hp as <- <-. simpl. split_and!; auto; lia. }
  destruct lines as [|pl [|ll rest]]; simpl in Hp.
  1,2: injection Hp as <- <-; simpl; split_and!; auto; lia.
  destruct (read_field ".pos=" pl) as [[[i|] [p|]]|] eqn:E1; try done.
  destruct (read_field ".limit=" ll) as [[[j|] [l|]]|] eqn:E2; try done.
  destruct (negb _ || negb _); [done|]. destruct ((_ <? _) || (_ <? _) || (_ <? _)) eqn:Eb; [done|].
  destruct (existsb _ _) eqn:Eo; [done|].
  pose proof (read_field_nonneg _ _ _ _ E1). pose proof (read_field_nonneg _ _ _ _ E2).
  apply IH in Hp as (H1 & H2 & H3 & H4).
  - split_and!; try done. rewrite H4, length_app. simpl. lia.
  - simpl in Hlen. lia.
  - apply Forall_app. split; [done|]. apply Forall_singleton. unfold bounded. simpl. lia.
  - by apply apart_snoc.
  - rewrite open_bytes_app. simpl. lia.
Qed.

(** ** Counting bytes *)

Definition in_hole (b : Z) (r : Z * Z) : bool := (r.1 <=? b) && (b <? r.2).

(** The bytes of a file of [total] bytes that no range leaves open. *)
Definition covered_bytes (total : Z) (rs : list (Z * Z)) : list Z :=
  filter (fun b => existsb (in_hole b) rs = false) (seqZ 0 total).

Lemma filter_split {A} (p q : A -> bool) (l : list A) :
  length (filter (fun x => p x = false) l) =
  (length (filter (fun x => p x || q x = false) l) + length (filter (fun x => q x && negb (p x) = true) l))%nat.
Proof.
  induction l as [|x l IH]; [done|]. rewrite !filter_cons. destruct (p x), (q x); simpl; lia.
Qed.

Lemma hole_size total r : bounded total r ->
  Z.of_nat (length (filter (fun b => in_hole b r = true) (seqZ 0 total))) = r.2 - r.1.
Proof.
  intros [[H1 H2] H3]. replace total with (r.1 + ((r.2 - r.1) + (total - r.2))) by lia.
  rewrite !seqZ_app by lia. rewrite !filter_app, !length_app.
  assert (Hnone : forall m k, (forall b, m <= b < m + k -> in_hole b r = false) ->
    filter (fun b => in_hole b r = true) (seqZ m k) = []).
  { intros m k Hb. destruct (filter _ _) as [|b l] eqn:E; [done|].
    assert (Hin : b ∈ filter (fun b => in_hole b r = true) (seqZ m k)) by (rewrite E; left).
    apply list_elem_of_filter in Hin as [Hh Hin%elem_of_seqZ]. rewrite Hb in Hh by lia. done. }
  rewrite (Hnone 0 r.1), (Hnone (0 + r.1 + (r.2 - r.1))) by (intros b Hb; unfold in_hole; lia).
  rewrite filter_all_id.
  - simpl. rewrite length_seqZ. lia.
  - intros b Hin%elem_of_seqZ. unfold in_hole. lia.
Qed.

Lemma apart_not_in b r rs : Forall (fun q => overlaps q r = false) rs -> in_hole b r = true -> existsb (in_hole b) rs = false.
Proof.
  induction 1 as [|q rs Hq Hrs IH]; intros Hb; [done|]. simpl. rewrite IH by done.
  unfold overlaps, in_hole in *. lia.
Qed.

Lemma covered_bytes_count total rs : 0 <= total -> Forall (bounded total) rs -> apart rs ->
  Z.of_nat (length (covered_bytes total rs)) = total - open_bytes rs.
Proof.
  intros Ht. unfold covered_bytes. induction rs as [|r rs IH]; intros Hb Ha.
  { simpl. rewrite filter_all_id by done. rewrite length_seqZ. lia. }
  apply Forall_cons in Hb as [Hr Hb]. destruct Ha as [Hr' Ha]. specialize (IH Hb Ha).
  rewrite (filter_split (fun b => existsb (in_hole b) rs) (fun b => in_hole b r)) in IH.
  assert (E1 : filter (fun b => existsb (in_hole b) (r :: rs) = false) (seqZ 0 total) =
    filter (fun b => existsb (in_hole b) rs || in_hole b r = false) (seqZ 0 total)).
  { apply list_filter_iff. intros b. simpl. by rewrite orb_comm. }
  assert (E2 : filter (fun b => in_hole b r && negb (existsb (in_hole b) rs) = true) (seqZ 0 total) =
    filter (fun b => in_hole b r = true) (seqZ 0 total)).
  { apply list_filter_iff. intros b. destruct (in_hole b r) eqn:E; [|done]. by rewrite (apart_not_in b r rs). }
  rewrite E2, Nat2Z.inj_add, (hole_size total r) in IH by done. rewrite E1. simpl. lia.
Qed.

Lemma match_size_nonneg l ds total : match_size l = Some ds -> parse_decimal ds = Some total -> 0 <= total.
Proof.
  unfold match_size, parse_decimal. destruct (prefix_of _ _); [|done]. intros Hd%all_digits_nonneg.
  destruct (_ <? _)%nat; [done|]. by intros [= <-].
Qed.



(** ** Reading back a written map *)

Definition newline_char : ascii := chr 10.

Fixpoint segment_lines (i : Z) (rs : list (Z * Z)) : list (list ascii) :=
  match rs with
  | [] => []
  | (p, l) :: rs' =>
      (show_int i ++ chars ".pos=" ++ show_int p) :: (show_int i ++ chars ".limit=" ++ show_int l) ::
      segment_lines (i + 1) rs'
  end.

Definition unlines (ls : list (list ascii)) : list ascii := concat (map (fun l => l ++ [newline_char]) ls).

(** The sidecar of a transfer with the given open ranges. *)
Definition write_status (total : Z) (rs : list (Z * Z)) : string :=
  str (unlines ((chars "size=" ++ show_int total) :: segment_lines 0 rs)).

Definition solid (l : list ascii) : Prop := l <> [] /\ forall c, c ∈ l -> is_space c = false.

Lemma line_break_space c : is_line_break c = true -> is_space c = true.
Proof. unfold is_line_break, is_space. lia. Qed.

Lemma splitlines_unlines ls : (forall l, l ∈ ls -> solid l) -> splitlines_chars [] (unlines ls) = ls.
Proof.
  induction ls as [|l ls IH]; intros Hs; [done|]. unfold unlines. cbn [map concat]. fold (unlines ls).
  assert (Hl : solid l) by (apply Hs; left). destruct Hl as [_ Hl].
  assert (Hgo : forall k cur, (forall c, c ∈ k -> is_space c = false) ->
    splitlines_chars cur ((k ++ [newline_char]) ++ unlines ls) = (rev cur ++ k) :: splitlines_chars [] (unlines ls)).
  { induction k as [|c k IHk]; intros cur Hk.
    - cbn [app splitlines_chars]. change (is_line_break newline_char) with true. cbv iota. rewrite app_nil_r.
      destruct (unlines ls); [done|]. change (ord newline_char =? 13) with false. done.
    - cbn [app splitlines_chars]. destruct (is_line_break c) eqn:Eb.
      { apply line_break_space in Eb. rewrite Hk in Eb by left. done. }
      rewrite IHk by (intros; apply Hk; by right). cbn [rev]. by rewrite <- app_assoc. }
  rewrite Hgo by done. cbn [rev app]. f_equal. apply IH. intros; apply Hs; by right.
Qed.

Lemma drop_while_solid {p : ascii -> bool} l : (forall c, c ∈ l -> p c = false) -> drop_while p l = l.
Proof. destruct l as [|c l]; intros H; [done|]. simpl. rewrite H by left. done. Qed.

Lemma strip_solid l : solid l -> strip (str l) = str l.
Proof.
  intros [_ Hs]. unfold strip, rstrip_by. rewrite chars_str, (drop_while_solid l) by done.
  rewrite drop_while_solid by (intros c Hc; apply Hs; by apply list_elem_of_In, in_rev, list_elem_of_In in Hc).
  by rewrite rev_involutive.
Qed.

Lemma digit_solid c : is_digit c = true -> is_space c = false.
Proof. unfold is_digit, is_space. lia. Qed.

Lemma solid_app a b : solid a -> (forall c, c ∈ b -> is_space c = false) -> solid (a ++ b).
Proof.
  intros [Hn Ha] Hb. split; [by destruct a|]. intros c [?|?]%elem_of_app; auto.
Qed.

Lemma solid_show z : 0 <= z -> solid (show_int z).
Proof. intros Hz. destruct (show_int_digits z Hz) as (? & Hd & _). split; [done|]. intros c Hc. apply digit_solid; auto. Qed.

(** Numbers the interpreter converts. *)
Definition readable (z : Z) : Prop := 0 <= z /\ (length (show_int z) <= max_int_digits)%nat.

Lemma all_digits_show z : 0 <= z -> all_digits (show_int z) = Some (show_int z).
Proof.
  intros Hz. destruct (show_int_digits z Hz) as (Hn & Hd & _). unfold all_digits.
  destruct (show_int z) as [|c l]; [done|]. rewrite (proj2 (forallb_forall _ _)); [done|].
  intros x Hx. apply Hd. by apply list_elem_of_In.
Qed.

Lemma parse_decimal_show z : readable z -> parse_decimal (show_int z) = Some z.
Proof.
  intros [Hz Hl]. unfold parse_decimal. destruct (Nat.ltb_spec max_int_digits (length (show_int z))); [lia|].
  by destruct (show_int_digits z Hz) as (_ & _ & ->).
Qed.

Lemma prefix_of_app p l : prefix_of p (p ++ l) = true.
Proof. induction p as [|c p IH]; [done|]. simpl. by rewrite Ascii.eqb_refl. Qed.

Lemma read_field_show key i v : match chars key with [] => False | c :: _ => is_digit c = false end ->
  readable i -> readable v -> read_field key (show_int i ++ chars key ++ show_int v) = Some (Some i, Some v).
Proof.
  intros Hk Hi Hv. unfold read_field, match_field. destruct (show_int_digits i (proj1 Hi)) as (Hn & Hd & _).
  destruct (take_while_app is_digit (show_int i) (chars key ++ show_int v) Hd) as [-> ->].
  { by destruct (chars key). }
  destruct (show_int i) as [|c l] eqn:E; [done|]. rewrite prefix_of_app, <- length_chars, drop_app_length.
  rewrite all_digits_show by apply Hv. rewrite <- E, !parse_decimal_show by done. done.
Qed.

Lemma segment_lines_solid i rs : 0 <= i -> Forall (fun r => 0 <= r.1 /\ 0 <= r.2) rs ->
  forall l, l ∈ segment_lines i rs -> solid l.
Proof.
  intros Hi Hrs. revert i Hi. induction Hrs as [|[p q] rs [Hp Hq] Hrs IH]; intros i Hi l Hl; [inversion Hl|].
  assert (Hkey : forall key z, forallb (fun c => negb (is_space c)) (chars key) = true -> 0 <= z ->
    solid (show_int i ++ chars key ++ show_int z)).
  { intros key z Hk Hz. apply solid_app; [by apply solid_show|]. rewrite forallb_forall in Hk.
    intros c [Hc|Hc]%elem_of_app; [|by apply (proj2 (solid_show z Hz))].
    apply list_elem_of_In, Hk in Hc. by apply negb_true_iff. }
  cbn [segment_lines] in Hl. apply elem_of_cons in Hl as [->|[->|Hl]%elem_of_cons].
  - by apply Hkey.
  - by apply Hkey.
  - apply (IH (i + 1)); [lia|done].
Qed.

Lemma show_digits_length n z acc : (length (show_digits n z acc) <= n + length acc)%nat.
Proof.
  revert z acc. induction n as [|n IH]; intros z acc; [simpl; lia|]. cbn [show_digits].
  destruct (z <? 10); [simpl; lia|]. etrans; [apply IH|]. simpl. lia.
Qed.

(** File sizes and offsets of a file system are far below the digit limit. *)
Lemma readable_offset z : 0 <= z < 2 ^ 63 -> readable z.
Proof.
  intros Hz. split; [lia|]. unfold show_int. destruct (Z.ltb_spec z 0); [lia|].
  etrans; [apply show_digits_length|]. simpl length.
  assert (Z.log2 z <= 63). { destruct (decide (z = 0)) as [->|]; [done|]. apply Z.lt_succ_r, Z.log2_lt_pow2; lia. }
  unfold max_int_digits. lia.
Qed.

Lemma apart_middle a r b : apart (a ++ r :: b) -> existsb (overlaps r) a = false.
Proof.
  induction a as [|q a IH]; simpl; [done|]. intros [Hq Ha]. rewrite IH by done.
  apply Forall_app in Hq as [_ [-> _]%Forall_cons]. done.
Qed.

Lemma parse_segments_show total rs : forall i before e,
  total < 2 ^ 63 -> 0 <= i -> i + Z.of_nat (length rs) < 2 ^ 63 ->
  Forall (bounded total) rs -> apart (before ++ rs) ->
  parse_segments total i before e (segment_lines i rs) = Some (before ++ rs, e + open_bytes rs).
Proof.
  induction rs as [|[p l] rs IH]; intros i before e Ht Hi Hlen Hb Ha; cbn [segment_lines parse_segments].
  { rewrite app_nil_r. simpl. by rewrite Z.add_0_r. }
  apply Forall_cons in Hb as [[[Hp Hpl] Hl] Hb]. cbn [fst snd length] in *.
  rewrite !read_field_show by (done || apply readable_offset; lia).
  rewrite Z.eqb_refl. cbn [negb orb].
  destruct (Z.ltb_spec total p); [lia|]. destruct (Z.ltb_spec total l); [lia|]. destruct (Z.ltb_spec l p); [lia|].
  cbn [orb]. rewrite (apart_middle before (p, l) rs) by done.
  assert (E : before ++ (p, l) :: rs = (before ++ [(p, l)]) ++ rs) by (by rewrite <- app_assoc).
  rewrite IH; [|done|lia|lia|done|by rewrite <- E]. rewrite E. simpl. do 2 f_equal. lia.
Qed.

Lemma segment_lines_length i rs : length (segment_lines i rs) = (2 * length rs)%nat.
Proof. revert i. induction rs as [|[p l] rs IH]; intros i; [done|]. cbn [segment_lines length]. rewrite IH. lia. Qed.

(** Every segment map a transfer of a file below 2^63 bytes can be in (one to
    256 open ranges within the file, no two overlapping) is read back from
    its sidecar, provided the sidecar keeps within 64 KiB, and the
    reported coverage is the number of bytes outside the open ranges. *)
Theorem pget_map_read_back total rs :
  0 <= total < 2 ^ 63 -> rs <> [] -> (length rs <= MAX_LFTP_PGET_SEGMENTS)%nat ->
  Forall (bounded total) rs -> apart rs ->
  (utf8_length (chars (write_status total rs)) <= MAX_LFTP_PGET_STATUS_BYTES)%nat ->
  parse_lftp_pget_status (write_status total rs) =
  Some (mkPget total (Z.of_nat (length (covered_bytes total rs))) false).
Proof.
  intros Ht Hne Hlen Hb Ha Hsize.
  assert (Hlines : status_lines (write_status total rs) = (chars "size=" ++ show_int total) :: segment_lines 0 rs).
  { unfold status_lines, splitlines, write_status. rewrite chars_str.
    set (ls := (chars "size=" ++ show_int total) :: segment_lines 0 rs).
    assert (Hs : forall l, l ∈ ls -> solid l).
    { intros l [->|Hl]%elem_of_cons.
      - apply solid_app; [|by apply (proj2 (solid_show total ltac:(lia)))]. split; [done|]. intros c Hc.
        apply list_elem_of_In in Hc. simpl in Hc. by destruct Hc as [<-|[<-|[<-|[<-|[<-|[]]]]]].
      - revert l Hl. apply segment_lines_solid; [lia|]. eapply Forall_impl; [exact Hb|]. intros r [[? ?] ?]. lia. }
    rewrite splitlines_unlines by done. rewrite map_map.
    rewrite (map_ext_in _ (fun l => l)), map_id.
    - apply filter_all_id. intros l Hl. apply (Hs l Hl).
    - intros l Hl%list_elem_of_In. rewrite strip_solid by auto. apply chars_str. }
  unfold parse_lftp_pget_status. rewrite Hlines.
  destruct (Nat.ltb_spec MAX_LFTP_PGET_STATUS_BYTES (utf8_length (chars (write_status total rs)))); [lia|].
  assert (Hm : match_size (chars "size=" ++ show_int total) = Some (show_int total)).
  { unfold match_size. rewrite prefix_of_app. change (drop 5 (chars "size=" ++ show_int total)) with (show_int total).
    apply all_digits_show. lia. }
  rewrite Hm, parse_decimal_show by (apply readable_offset; lia).
  pose proof (segment_lines_length 0 rs) as Hsl.
  destruct (segment_lines 0 rs) as [|l1 [|l2 ls]] eqn:Es; [destruct rs; simpl in Hsl; [done|lia]|simpl in Hsl; lia|].
  rewrite Hsl, Nat.odd_mul, Nat.div2_double. cbn [Nat.odd Nat.even negb andb].
  destruct (Nat.ltb_spec MAX_LFTP_PGET_SEGMENTS (length rs)); [lia|].
  rewrite <- Es, parse_segments_show; [|lia|lia|unfold MAX_LFTP_PGET_SEGMENTS in *; lia|done|done].
  pose proof (covered_bytes_count total rs ltac:(lia) Hb Ha) as Hc.
  destruct (Z.ltb_spec total (0 + open_bytes rs)); [lia|]. by rewrite Hc.
Qed.

Lemma pget_map_read_back_witness :
  parse_lftp_pget_status (write_status 100 [(10, 50); (60, 100)]) =
  Some (mkPget 100 (Z.of_nat (length (covered_bytes 100 [(10, 50); (60, 100)]))) false).
Proof.
  apply (pget_map_read_back 100 [(10, 50); (60, 100)]).
  - lia.
  - discriminate.
  - unfold MAX_LFTP_PGET_SEGMENTS. simpl. lia.
  - repeat constructor; simpl; lia.
  - simpl. repeat constructor.
  - apply Nat.leb_le. vm_compute. reflexivity.
Defined.
