(* ===== verification/SystemFile.v ===== *)
(** * Scanned files ([system/file.py])

    [SystemFile] with its flag word, the checked setters, and the dictionary a
    remote scan is shipped as.  A [datetime] is a number of microseconds; its
    ISO text is the pair of functions of class [IsoFormat]. *)

From S2P Require Import Prelude PyDict PyStr.

(** ** Flags *)

Definition S_DIR : Z := 1.
Definition S_STAGING : Z := 2.
Definition S_STATUS_READY : Z := 4.
Definition S_STAGING_COLLISION : Z := 8.
Definition S_STAGING_ORIGIN_KNOWN : Z := 16.
Definition S_HAS_STAGING_ORIGIN : Z := 32.

Definition has_bits (flags mask : Z) : bool := negb (Z.land flags mask =? 0).
Definition put_bits (flags mask : Z) (b : bool) : Z :=
  if b then Z.lor flags mask else Z.land flags (Z.lnot mask).

Record sys_fields := mkSysFields {
  sf_name : string; sf_size : Z; sf_flags : Z; sf_created : option Z; sf_modified : option Z;
  sf_mtime_ns : option Z; sf_pair_id : option string; sf_pair_name : option string }.

Inductive SystemFile := mkSys (fl : sys_fields) (children : option (list SystemFile)).

Definition sys_slots (f : SystemFile) : sys_fields := let 'mkSys fl _ := f in fl.
Definition sys_children_slot (f : SystemFile) : option (list SystemFile) := let 'mkSys _ c := f in c.
Definition sys_children (f : SystemFile) : list SystemFile := default [] (sys_children_slot f).

Definition sys_name (f : SystemFile) : string := sf_name (sys_slots f).
Definition sys_size (f : SystemFile) : Z := sf_size (sys_slots f).
Definition sys_is_dir (f : SystemFile) : bool := has_bits (sf_flags (sys_slots f)) S_DIR.
Definition sys_is_staging (f : SystemFile) : bool := has_bits (sf_flags (sys_slots f)) S_STAGING.
Definition sys_has_staging_collision (f : SystemFile) : bool := has_bits (sf_flags (sys_slots f)) S_STAGING_COLLISION.
Definition sys_status_sidecar_ready (f : SystemFile) : bool := has_bits (sf_flags (sys_slots f)) S_STATUS_READY.
Definition origin_of_flags (z : Z) : option bool :=
  if negb (has_bits z S_STAGING_ORIGIN_KNOWN) then None else Some (has_bits z S_HAS_STAGING_ORIGIN).
Definition sys_has_staging_origin (f : SystemFile) : option bool := origin_of_flags (sf_flags (sys_slots f)).

Definition put_sys_flags (f : SystemFile) (z : Z) : SystemFile :=
  let fl := sys_slots f in
  mkSys (mkSysFields (sf_name fl) (sf_size fl) z (sf_created fl) (sf_modified fl) (sf_mtime_ns fl)
    (sf_pair_id fl) (sf_pair_name fl)) (sys_children_slot f).

Definition put_sys_pair (f : SystemFile) (i n : option string) : SystemFile :=
  let fl := sys_slots f in
  mkSys (mkSysFields (sf_name fl) (sf_size fl) (sf_flags fl) (sf_created fl) (sf_modified fl) (sf_mtime_ns fl) i n)
    (sys_children_slot f).

(** ** Setters *)

Definition origin_flags (z : Z) (v : option bool) : Z :=
  match v with
  | None => put_bits z (Z.lor S_STAGING_ORIGIN_KNOWN S_HAS_STAGING_ORIGIN) false
  | Some true => put_bits z (Z.lor S_STAGING_ORIGIN_KNOWN S_HAS_STAGING_ORIGIN) true
  | Some false => put_bits (put_bits z S_STAGING_ORIGIN_KNOWN true) S_HAS_STAGING_ORIGIN false
  end.

Definition set_sys_bool (f : SystemFile) (mask : Z) (v : pyval) : result SystemFile :=
  match v with
  | PyBool b => Ok (put_sys_flags f (put_bits (sf_flags (sys_slots f)) mask b))
  | _ => Raise TypeError
  end.

Definition set_is_staging (f : SystemFile) (v : pyval) : result SystemFile := set_sys_bool f S_STAGING v.
Definition set_has_staging_collision (f : SystemFile) (v : pyval) : result SystemFile := set_sys_bool f S_STAGING_COLLISION v.
Definition set_status_sidecar_ready (f : SystemFile) (v : pyval) : result SystemFile := set_sys_bool f S_STATUS_READY v.

Definition set_has_staging_origin (f : SystemFile) (v : pyval) : result SystemFile :=
  match v with
  | PyNone => Ok (put_sys_flags f (origin_flags (sf_flags (sys_slots f)) None))
  | PyBool b => Ok (put_sys_flags f (origin_flags (sf_flags (sys_slots f)) (Some b)))
  | _ => Raise TypeError
  end.

Definition set_sys_pair_id (f : SystemFile) (v : pyval) : result SystemFile :=
  match v with
  | PyNone => Ok (put_sys_pair f None (sf_pair_name (sys_slots f)))
  | PyStr s => Ok (put_sys_pair f (Some s) (sf_pair_name (sys_slots f)))
  | _ => Raise TypeError
  end.

Definition set_sys_pair_name (f : SystemFile) (v : pyval) : result SystemFile :=
  match v with
  | PyNone => Ok (put_sys_pair f (sf_pair_id (sys_slots f)) None)
  | PyStr s => Ok (put_sys_pair f (sf_pair_id (sys_slots f)) (Some s))
  | _ => Raise TypeError
  end.

(** [SystemFile(...)] *)
Definition new_system_file (name : string) (size : Z) (is_dir : bool) (created modified : option Z)
    (is_staging : bool) (mtime_ns : option Z) (origin : option bool) : result SystemFile :=
  if size <? 0 then Raise ValueError
  else
    let z := if is_dir then S_DIR else 0 in
    let z := if is_staging then Z.lor z S_STAGING else z in
    Ok (mkSys (mkSysFields name size (origin_flags z origin) created modified mtime_ns None None) None).

Definition sys_add_child (f c : SystemFile) : result SystemFile :=
  if negb (sys_is_dir f) then Raise TypeError
  else Ok (mkSys (sys_slots f) (Some (sys_children f ++ [c]))).

(** The [children] property allocates the list. *)
Definition touch_children (f : SystemFile) : SystemFile := mkSys (sys_slots f) (Some (sys_children f)).

(** ** Equality *)

(** Everything but the children. *)
Definition sys_node_eqb (fa fb : sys_fields) : bool :=
  String.eqb (sf_name fa) (sf_name fb) && (sf_size fa =? sf_size fb) &&
  Bool.eqb (has_bits (sf_flags fa) S_DIR) (has_bits (sf_flags fb) S_DIR) &&
  bool_decide (sf_created fa = sf_created fb) && bool_decide (sf_modified fa = sf_modified fb) &&
  bool_decide (sf_mtime_ns fa = sf_mtime_ns fb) &&
  bool_decide (sf_pair_id fa = sf_pair_id fb) && bool_decide (sf_pair_name fa = sf_pair_name fb) &&
  Bool.eqb (has_bits (sf_flags fa) S_STAGING) (has_bits (sf_flags fb) S_STAGING) &&
  bool_decide (origin_of_flags (sf_flags fa) = origin_of_flags (sf_flags fb)) &&
  Bool.eqb (has_bits (sf_flags fa) S_STAGING_COLLISION) (has_bits (sf_flags fb) S_STAGING_COLLISION) &&
  Bool.eqb (has_bits (sf_flags fa) S_STATUS_READY) (has_bits (sf_flags fb) S_STATUS_READY).

Fixpoint sys_eqb (a b : SystemFile) {struct a} : bool :=
  match a with
  | mkSys fa ca =>
      let go := fix go l l' :=
        match l, l' with
        | [], [] => true
        | x :: l, y :: l' => sys_eqb x y && go l l'
        | _, _ => false
        end in
      sys_node_eqb fa (sys_slots b) &&
      match ca with
      | Some l => go l (sys_children b)
      | None => match sys_children b with [] => true | _ => false end
      end
  end.

(** ** The dictionary form *)

(** [SystemFileData]: a required key is a field, an optional key an option. *)
Inductive SystemFileData := mkData {
  d_name : string; d_size : Z; d_is_dir : bool; d_time_created : option (option string);
  d_time_modified : option (option string); d_mtime_ns : option Z; d_path_pair_id : option string;
  d_path_pair_name : option string; d_is_staging : option bool; d_has_staging_origin : option bool;
  d_has_staging_collision : option bool; d_children : option (list SystemFileData) }.

(** [datetime.isoformat] and [datetime.fromisoformat] *)
Class IsoFormat := { isoformat : Z -> string; fromisoformat : string -> option Z }.

Section dict.
Context `{IsoFormat}.

Definition when_true (b : bool) : option bool := if b then Some true else None.

Fixpoint to_dict (f : SystemFile) : SystemFileData :=
  match f with
  | mkSys fl cs =>
      mkData (sf_name fl) (sf_size fl) (has_bits (sf_flags fl) S_DIR)
        (option_map (fun t => Some (isoformat t)) (sf_created fl))
        (option_map (fun t => Some (isoformat t)) (sf_modified fl))
        (sf_mtime_ns fl) (sf_pair_id fl) (sf_pair_name fl)
        (when_true (has_bits (sf_flags fl) S_STAGING)) (origin_of_flags (sf_flags fl))
        (when_true (has_bits (sf_flags fl) S_STAGING_COLLISION))
        (match cs with Some ((_ :: _) as l) => Some (map to_dict l) | _ => None end)
  end.

Definition read_time (v : option (option string)) : result (option Z) :=
  match v with
  | Some (Some t) => match fromisoformat t with Some z => Ok (Some z) | None => Raise ValueError end
  | _ => Ok None
  end.

Definition of_opt_str (v : option string) : pyval := match v with Some s => PyStr s | None => PyNone end.
Definition of_opt_bool (v : option bool) : pyval := match v with Some b => PyBool b | None => PyNone end.

(** Everything but the children. *)
Definition read_node (d : SystemFileData) : result SystemFile :=
  created ← read_time (d_time_created d);
  modified ← read_time (d_time_modified d);
  f ← new_system_file (d_name d) (d_size d) (d_is_dir d) created modified
        (default false (d_is_staging d)) (d_mtime_ns d) None;
  f ← set_sys_pair_id f (of_opt_str (d_path_pair_id d));
  f ← set_sys_pair_name f (of_opt_str (d_path_pair_name d));
  f ← set_has_staging_origin f (of_opt_bool (d_has_staging_origin d));
  set_has_staging_collision f (PyBool (default false (d_has_staging_collision d))).

Fixpoint from_dict (d : SystemFileData) : result SystemFile :=
  match d with
  | mkData n sz dir ct mt ns pi pn stg org col cs =>
      let go := fix go (l : list SystemFileData) (f : SystemFile) : result SystemFile :=
        match l with
        | [] => Ok f
        | c :: l' => x ← from_dict c; f' ← sys_add_child f x; go l' f'
        end in
      f ← read_node (mkData n sz dir ct mt ns pi pn stg org col None);
      match cs with Some l => go l f | None => Ok f end
  end.
End dict.
