(* ===== verification/SystemFileFacts.v ===== *)
(** * Scanned files: invariant, equality and the dictionary round trip *)

From S2P Require Import Prelude PyDict PyStr Json SystemFile.

(** ** Induction over scanned trees *)

Section SystemFile_ind.
Context (P : SystemFile -> Prop) (Hstep : forall fl cs, Forall P (default [] cs) -> P (mkSys fl cs)).

Fixpoint SystemFile_tree_ind (f : SystemFile) : P f :=
  match f with
  | mkSys fl cs => Hstep fl cs
      (match cs return Forall P (default [] cs) with
       | None => Forall_nil_2 _
       | Some l => (fix go l : Forall P l :=
           match l with [] => Forall_nil_2 _ | x :: l' => Forall_cons_2 _ _ _ (SystemFile_tree_ind x) (go l') end) l
       end)
  end.
End SystemFile_ind.

(** ** The invariant *)

(** Six flag bits; an origin only when it is known. *)
Definition flags_ok (z : Z) : Prop :=
  0 <= z < 64 /\ (has_bits z S_HAS_STAGING_ORIGIN = true -> has_bits z S_STAGING_ORIGIN_KNOWN = true).

Definition node_ok (fl : sys_fields) (kids : nat) : Prop :=
  0 <= sf_size fl /\ flags_ok (sf_flags fl) /\ ((0 < kids)%nat -> has_bits (sf_flags fl) S_DIR = true).

Fixpoint sys_ok (f : SystemFile) : Prop :=
  match f with
  | mkSys fl cs =>
      node_ok fl (match cs with Some l => length l | None => O end) /\
      match cs with
      | Some l => (fix all l := match l with [] => True | x :: l' => sys_ok x /\ all l' end) l
      | None => True
      end
  end.

Lemma sys_ok_unfold f : sys_ok f <-> node_ok (sys_slots f) (length (sys_children f)) /\ Forall sys_ok (sys_children f).
Proof.
  destruct f as [fl [l|]]; simpl; [|split; [by intros [? _]|by intros [? _]]].
  apply and_iff_compat_l. unfold sys_children. simpl.
  induction l as [|x l IH]; simpl; [split; [intros; apply Forall_nil_2|done]|]. by rewrite Forall_cons, <- IH.
Qed.

(** All flag words, for the finite checks. *)
Definition all_flags : list Z := seqZ 0 64.

Definition flags_okb (z : Z) : bool := negb (has_bits z S_HAS_STAGING_ORIGIN) || has_bits z S_STAGING_ORIGIN_KNOWN.

Lemma flags_ok_b z : flags_ok z <-> z ∈ all_flags /\ flags_okb z = true.
Proof.
  unfold flags_ok, flags_okb, all_flags. rewrite elem_of_seqZ. destruct (has_bits z S_HAS_STAGING_ORIGIN); simpl; intuition lia.
Qed.

(** A property of flag words that holds of each of them. *)
Lemma flags_forall (p : Z -> bool) z :
  forallb (fun z => negb (flags_okb z) || p z) all_flags = true -> flags_ok z -> p z = true.
Proof.
  intros Hall [Hin Hok]%flags_ok_b. rewrite forallb_forall in Hall. apply list_elem_of_In, Hall in Hin.
  by rewrite Hok in Hin.
Qed.

Definition sys_masks : list Z := [S_STAGING; S_STAGING_COLLISION; S_STATUS_READY].

Lemma put_bits_ok mask b z : mask ∈ sys_masks -> flags_ok z ->
  flags_ok (put_bits z mask b) /\ has_bits (put_bits z mask b) mask = b /\
  (forall m, m ∈ [S_DIR; S_STAGING; S_STAGING_COLLISION; S_STATUS_READY] -> m <> mask ->
     has_bits (put_bits z mask b) m = has_bits z m) /\
  origin_of_flags (put_bits z mask b) = origin_of_flags z.
Proof.
  intros Hm Hz.
  pose (p := fun z => let z' := put_bits z mask b in
    (0 <=? z') && (z' <? 64) && flags_okb z' && Bool.eqb (has_bits z' mask) b &&
    forallb (fun m => (m =? mask) || Bool.eqb (has_bits z' m) (has_bits z m))
      [S_DIR; S_STAGING; S_STAGING_COLLISION; S_STATUS_READY] &&
    bool_decide (origin_of_flags z' = origin_of_flags z)).
  assert (Hp : p z = true).
  { apply (flags_forall p); [|done]. apply list_elem_of_In in Hm. simpl in Hm.
    destruct b, Hm as [<-|[<-|[<-|[]]]]; vm_compute; reflexivity. }
  unfold p in Hp. rewrite !andb_true_iff in Hp. destruct Hp as [[[[[H1 H2] H3] H4] H5] H6].
  split_and!.
  - apply flags_ok_b. split; [|done]. apply elem_of_seqZ. lia.
  - by apply Bool.eqb_prop in H4.
  - intros m Hmm Hne. rewrite forallb_forall in H5. apply list_elem_of_In, H5 in Hmm.
    apply orb_true_iff in Hmm as [?%Z.eqb_eq|?%Bool.eqb_prop]; done.
  - by apply bool_decide_eq_true in H6.
Qed.

Lemma origin_flags_ok v z : flags_ok z ->
  flags_ok (origin_flags z v) /\ origin_of_flags (origin_flags z v) = v /\
  (forall m, m ∈ [S_DIR; S_STAGING; S_STAGING_COLLISION; S_STATUS_READY] ->
     has_bits (origin_flags z v) m = has_bits z m).
Proof.
  intros Hz.
  pose (p := fun z => let z' := origin_flags z v in
    (0 <=? z') && (z' <? 64) && flags_okb z' && bool_decide (origin_of_flags z' = v) &&
    forallb (fun m => Bool.eqb (has_bits z' m) (has_bits z m)) [S_DIR; S_STAGING; S_STAGING_COLLISION; S_STATUS_READY]).
  assert (Hp : p z = true).
  { apply (flags_forall p); [|done]. destruct v as [[]|]; vm_compute; reflexivity. }
  unfold p in Hp. rewrite !andb_true_iff in Hp. destruct Hp as [[[[H1 H2] H3] H4] H5].
  split_and!.
  - apply flags_ok_b. split; [|done]. apply elem_of_seqZ. lia.
  - by apply bool_decide_eq_true in H4.
  - intros m Hmm. rewrite forallb_forall in H5. apply list_elem_of_In, H5 in Hmm. by apply Bool.eqb_prop.
Qed.

(** ** Setters and construction *)

Inductive sys_op :=
  | SysStaging (v : pyval) | SysCollision (v : pyval) | SysReady (v : pyval) | SysOrigin (v : pyval)
  | SysPairId (v : pyval) | SysPairName (v : pyval) | SysAddChild (c : SystemFile) | SysTouch.

Definition run_sys_op (o : sys_op) (f : SystemFile) : result SystemFile :=
  match o with
  | SysStaging v => set_is_staging f v
  | SysCollision v => set_has_staging_collision f v
  | SysReady v => set_status_sidecar_ready f v
  | SysOrigin v => set_has_staging_origin f v
  | SysPairId v => set_sys_pair_id f v
  | SysPairName v => set_sys_pair_name f v
  | SysAddChild c => sys_add_child f c
  | SysTouch => Ok (touch_children f)
  end.

(** The facts a reader of a node sees, by attribute. *)
Record sys_view := mkView {
  v_staging : bool; v_collision : bool; v_ready : bool; v_origin : option bool;
  v_pair_id : option string; v_pair_name : option string; v_children : list SystemFile;
  v_fixed : string * Z * bool * option Z * option Z * option Z }.

Definition view (f : SystemFile) : sys_view :=
  mkView (sys_is_staging f) (sys_has_staging_collision f) (sys_status_sidecar_ready f) (sys_has_staging_origin f)
    (sf_pair_id (sys_slots f)) (sf_pair_name (sys_slots f)) (sys_children f)
    (sys_name f, sys_size f, sys_is_dir f, sf_created (sys_slots f), sf_modified (sys_slots f), sf_mtime_ns (sys_slots f)).

(** What an operation does to that view; [None] where it raises [TypeError]. *)
Definition view_op (o : sys_op) (w : sys_view) : option sys_view :=
  let '(mkView a b c d i n k x) := w in
  match o with
  | SysStaging (PyBool v) => Some (mkView v b c d i n k x)
  | SysCollision (PyBool v) => Some (mkView a v c d i n k x)
  | SysReady (PyBool v) => Some (mkView a b v d i n k x)
  | SysOrigin PyNone => Some (mkView a b c None i n k x)
  | SysOrigin (PyBool v) => Some (mkView a b c (Some v) i n k x)
  | SysPairId PyNone => Some (mkView a b c d None n k x)
  | SysPairId (PyStr v) => Some (mkView a b c d (Some v) n k x)
  | SysPairName PyNone => Some (mkView a b c d i None k x)
  | SysPairName (PyStr v) => Some (mkView a b c d i (Some v) k x)
  | SysAddChild v => let '(_, _, dir, _, _, _) := x in if dir : bool then Some (mkView a b c d i n (k ++ [v]) x) else None
  | SysTouch => Some w
  | _ => None
  end.

Lemma put_flags_view f z :
  view (put_sys_flags f z) = mkView (has_bits z S_STAGING) (has_bits z S_STAGING_COLLISION) (has_bits z S_STATUS_READY)
    (origin_of_flags z) (sf_pair_id (sys_slots f)) (sf_pair_name (sys_slots f)) (sys_children f)
    (sys_name f, sys_size f, has_bits z S_DIR, sf_created (sys_slots f), sf_modified (sys_slots f), sf_mtime_ns (sys_slots f)).
Proof. by destruct f as [fl cs]. Qed.

(** Replacing the flag word by a good one with the same directory bit. *)
Lemma put_flags_ok f z : sys_ok f -> flags_ok z -> has_bits z S_DIR = sys_is_dir f -> sys_ok (put_sys_flags f z).
Proof.
  rewrite !sys_ok_unfold. destruct f as [fl cs]. unfold sys_is_dir. simpl. intros [(H1 & H2 & H3) H4] Hz Hd.
  split; [|done]. split_and!; [done|done|]. simpl. rewrite Hd. exact H3.
Qed.

(** The three boolean setters, as a reader sees them. *)
Lemma put_bits_view f mask b : mask ∈ sys_masks -> sys_ok f ->
  view (put_sys_flags f (put_bits (sf_flags (sys_slots f)) mask b)) =
  mkView (if mask =? S_STAGING then b else sys_is_staging f)
    (if mask =? S_STAGING_COLLISION then b else sys_has_staging_collision f)
    (if mask =? S_STATUS_READY then b else sys_status_sidecar_ready f)
    (sys_has_staging_origin f) (sf_pair_id (sys_slots f)) (sf_pair_name (sys_slots f)) (sys_children f)
    (sys_name f, sys_size f, sys_is_dir f, sf_created (sys_slots f), sf_modified (sys_slots f), sf_mtime_ns (sys_slots f)).
Proof.
  intros Hm Hf. pose proof (proj1 (sys_ok_unfold f) Hf) as [(_ & Hz & _) _].
  destruct (put_bits_ok mask b _ Hm Hz) as (_ & Hself & Hrest & Horg). rewrite put_flags_view, Horg.
  assert (Hbit : forall m, m ∈ [S_DIR; S_STAGING; S_STAGING_COLLISION; S_STATUS_READY] ->
    has_bits (put_bits (sf_flags (sys_slots f)) mask b) m = if mask =? m then b else has_bits (sf_flags (sys_slots f)) m).
  { intros m Hin. destruct (Z.eqb_spec mask m) as [<-|Hne]; [done|]. apply Hrest; [done|congruence]. }
  rewrite !Hbit by (apply list_elem_of_In; simpl; tauto).
  assert (mask =? S_DIR = false) as ->; [|done].
  apply list_elem_of_In in Hm. simpl in Hm. by destruct Hm as [<-|[<-|[<-|[]]]].
Qed.

Lemma put_bits_sys_ok f mask b : mask ∈ sys_masks -> sys_ok f ->
  sys_ok (put_sys_flags f (put_bits (sf_flags (sys_slots f)) mask b)).
Proof.
  intros Hm Hf. pose proof (proj1 (sys_ok_unfold f) Hf) as [(_ & Hz & _) _].
  destruct (put_bits_ok mask b _ Hm Hz) as (H1 & _ & H3 & _).
  apply put_flags_ok; [done|done|]. apply H3; [left|]. intros <-. apply list_elem_of_In in Hm. simpl in Hm.
  by destruct Hm as [?|[?|[?|[]]]].
Qed.

Lemma origin_sys_ok f v : sys_ok f ->
  sys_ok (put_sys_flags f (origin_flags (sf_flags (sys_slots f)) v)) /\
  view (put_sys_flags f (origin_flags (sf_flags (sys_slots f)) v)) =
  mkView (sys_is_staging f) (sys_has_staging_collision f) (sys_status_sidecar_ready f) v
    (sf_pair_id (sys_slots f)) (sf_pair_name (sys_slots f)) (sys_children f)
    (sys_name f, sys_size f, sys_is_dir f, sf_created (sys_slots f), sf_modified (sys_slots f), sf_mtime_ns (sys_slots f)).
Proof.
  intros Hf. pose proof (proj1 (sys_ok_unfold f) Hf) as [(_ & Hz & _) _].
  destruct (origin_flags_ok v _ Hz) as (H1 & H2 & H3). split.
  - apply put_flags_ok; [done|done|]. apply H3. left.
  - rewrite put_flags_view, H2, !H3 by (apply list_elem_of_In; simpl; tauto). done.
Qed.

Lemma put_pair_sys_ok f i n : sys_ok f -> sys_ok (put_sys_pair f i n).
Proof. rewrite !sys_ok_unfold. destruct f as [fl cs]. done. Qed.

Lemma add_child_sys_ok f c : sys_ok f -> sys_ok c -> sys_is_dir f = true ->
  sys_ok (mkSys (sys_slots f) (Some (sys_children f ++ [c]))).
Proof.
  rewrite !sys_ok_unfold. intros [(H1 & H2 & H3) H4] Hc Hd. split; [by split_and!|].
  apply Forall_app. split; [done|]. apply Forall_singleton. by apply sys_ok_unfold.
Qed.

(** Scanned files: an operation succeeds exactly when its argument has the
    declared type (and, for a child, the node is a directory) and otherwise
    raises [TypeError]; it then changes the one attribute it names, as a
    reader of all attributes sees them, and keeps the flag word, the size and
    the tree well formed. *)
Theorem system_file_operations o f :
  sys_ok f -> (forall c, o = SysAddChild c -> sys_ok c) ->
  match run_sys_op o f with
  | Ok f' => sys_ok f' /\ view_op o (view f) = Some (view f')
  | Raise e => e = TypeError /\ view_op o (view f) = None
  end.
Proof.
  intros Hf Hc.
  assert (Hst : S_STAGING ∈ sys_masks) by (apply list_elem_of_In; simpl; tauto).
  assert (Hco : S_STAGING_COLLISION ∈ sys_masks) by (apply list_elem_of_In; simpl; tauto).
  assert (Hre : S_STATUS_READY ∈ sys_masks) by (apply list_elem_of_In; simpl; tauto).
  destruct o as [v|v|v|v|v|v|c|]; cbn [run_sys_op].
  - unfold set_is_staging, set_sys_bool. destruct v; try done. rewrite put_bits_view by done.
    split; [by apply put_bits_sys_ok|done].
  - unfold set_has_staging_collision, set_sys_bool. destruct v; try done. rewrite put_bits_view by done.
    split; [by apply put_bits_sys_ok|done].
  - unfold set_status_sidecar_ready, set_sys_bool. destruct v; try done. rewrite put_bits_view by done.
    split; [by apply put_bits_sys_ok|done].
  - unfold set_has_staging_origin. destruct v; try done.
    + destruct (origin_sys_ok f None Hf) as [? ->]. done.
    + destruct (origin_sys_ok f (Some b) Hf) as [? ->]. done.
  - unfold set_sys_pair_id. destruct v; try done; (split; [by apply put_pair_sys_ok|by destruct f]).
  - unfold set_sys_pair_name. destruct v; try done; (split; [by apply put_pair_sys_ok|by destruct f]).
  - unfold sys_add_child. cbn [view_op view]. destruct (sys_is_dir f) eqn:Ed; cbn [negb]; [|done].
    split; [apply add_child_sys_ok; [done|by apply Hc|done]|]. destruct f as [fl cs]. unfold sys_is_dir in *. simpl in *.
    unfold view, sys_is_dir, sys_name, sys_size. simpl. by rewrite Ed.
  - split; [|by destruct f as [fl [l|]]]. apply sys_ok_unfold. apply sys_ok_unfold in Hf. by destruct f as [fl [l|]].
Qed.

Lemma system_file_operations_witness :
  let f := mkSys (mkSysFields "d" 3 1 None None None None None) None in
  sys_ok f /\ view_op (SysOrigin (PyBool true)) (view f) =
    Some (view (put_sys_flags f (origin_flags 1 (Some true)))).
Proof.
  intros f. assert (Hf : sys_ok f).
  { split; [|exact I]. split; [simpl; lia|]. split; [|intros Hk; simpl in Hk; lia].
    split; [simpl; lia|]. vm_compute. discriminate. }
  split; [exact Hf|]. apply (system_file_operations (SysOrigin (PyBool true)) f Hf). discriminate.
Defined.

(** ** The dictionary round trip *)

(** What survives shipping: everything but the sidecar flag, which is set by
    the local scanner only. *)
Fixpoint shipped (f : SystemFile) : SystemFile :=
  match f with
  | mkSys fl cs =>
      mkSys (mkSysFields (sf_name fl) (sf_size fl) (put_bits (sf_flags fl) S_STATUS_READY false)
               (sf_created fl) (sf_modified fl) (sf_mtime_ns fl) (sf_pair_id fl) (sf_pair_name fl))
        (match cs with Some ((_ :: _) as l) => Some (map shipped l) | _ => None end)
  end.

Fixpoint never_ready (f : SystemFile) : bool :=
  match f with
  | mkSys fl cs =>
      negb (has_bits (sf_flags fl) S_STATUS_READY) &&
      match cs with Some l => forallb never_ready l | None => true end
  end.

(** The flag word the reader rebuilds from the dictionary. *)
Definition rebuilt_flags (z : Z) : Z :=
  let z0 := if has_bits z S_DIR then S_DIR else 0 in
  let z1 := if default false (when_true (has_bits z S_STAGING)) then Z.lor z0 S_STAGING else z0 in
  put_bits (origin_flags (origin_flags z1 None) (origin_of_flags z)) S_STAGING_COLLISION
    (default false (when_true (has_bits z S_STAGING_COLLISION))).

Lemma rebuilt_flags_ok z : flags_ok z -> rebuilt_flags z = put_bits z S_STATUS_READY false.
Proof.
  intros Hz. apply Z.eqb_eq. apply (flags_forall (fun z => rebuilt_flags z =? put_bits z S_STATUS_READY false)); [|done].
  vm_compute. reflexivity.
Qed.

Section round_trip.
Context `{IsoFormat} (Hiso : forall t, fromisoformat (isoformat t) = Some t).

Lemma read_time_written (t : option Z) : read_time (option_map (fun t => Some (isoformat t)) t) = Ok t.
Proof. destruct t as [t|]; simpl; [by rewrite Hiso|done]. Qed.

Lemma read_node_written fl : 0 <= sf_size fl -> flags_ok (sf_flags fl) ->
  read_node (to_dict (mkSys fl None)) = Ok (shipped (mkSys fl None)).
Proof.
  intros Hs Hz. destruct fl as [n sz z ct mt ns pi pn]. cbn [to_dict shipped sf_name sf_size sf_flags sf_created sf_modified
    sf_mtime_ns sf_pair_id sf_pair_name] in *.
  unfold read_node. cbn [d_time_created d_time_modified d_name d_size d_is_dir d_is_staging d_mtime_ns d_path_pair_id
    d_path_pair_name d_has_staging_origin d_has_staging_collision].
  rewrite !read_time_written. unfold mbind, result_bind, new_system_file.
  destruct (Z.ltb_spec sz 0); [lia|].
  assert (Hid : forall f v, set_sys_pair_id f (of_opt_str v) = Ok (put_sys_pair f v (sf_pair_name (sys_slots f)))) by
    (intros f [v|]; done).
  assert (Hname : forall f v, set_sys_pair_name f (of_opt_str v) = Ok (put_sys_pair f (sf_pair_id (sys_slots f)) v)) by
    (intros f [v|]; done).
  assert (Horg : forall f v, set_has_staging_origin f (of_opt_bool v) =
    Ok (put_sys_flags f (origin_flags (sf_flags (sys_slots f)) v))) by (intros f [v|]; done).
  rewrite Hid, Hname, Horg. unfold set_has_staging_collision, set_sys_bool.
  do 2 f_equal. unfold put_sys_flags, put_sys_pair. cbn [sys_slots sf_flags sf_name sf_size sf_created sf_modified sf_mtime_ns
    sf_pair_id sf_pair_name sys_children_slot]. do 2 f_equal. exact (rebuilt_flags_ok z Hz).
Qed.

(** The loop over the children. *)
Definition read_children : list SystemFileData -> SystemFile -> result SystemFile :=
  fix go l f :=
    match l with
    | [] => Ok f
    | c :: l' => x ← from_dict c; f' ← sys_add_child f x; go l' f'
    end.

Lemma read_children_written l f : sys_is_dir f = true ->
  Forall (fun c => from_dict (to_dict c) = Ok (shipped c)) l ->
  read_children (map to_dict l) f =
  Ok (mkSys (sys_slots f) (match l with [] => sys_children_slot f | _ => Some (sys_children f ++ map shipped l) end)).
Proof.
  intros Hd Hl. revert f Hd. induction Hl as [|c l Hc Hl IH]; intros f Hd; [by destruct f|].
  cbn [map read_children]. rewrite Hc. unfold mbind at 1, result_bind at 1, sys_add_child. rewrite Hd. cbn [negb].
  unfold mbind at 1, result_bind at 1. rewrite IH by done. unfold sys_children. cbn [sys_slots sys_children_slot default].
  destruct l as [|c' l]; [done|]. do 2 f_equal. cbn. by rewrite <- app_assoc.
Qed.

Lemma shipped_dir f : sys_ok f -> sys_is_dir (shipped f) = sys_is_dir f.
Proof.
  destruct f as [fl cs]. unfold sys_is_dir. simpl. intros [(_ & Hz & _) _].
  destruct (put_bits_ok S_STATUS_READY false (sf_flags fl)) as (_ & _ & Hb & _); [apply list_elem_of_In; simpl; tauto|done|].
  apply Hb; [left|discriminate].
Qed.

Lemma from_dict_to_dict f : sys_ok f -> from_dict (to_dict f) = Ok (shipped f).
Proof.
  induction f as [fl cs IH] using SystemFile_tree_ind. intros Hf.
  pose proof (proj1 (sys_ok_unfold _) Hf) as [(Hs & Hz & Hd) Hk]. cbn [sys_slots] in *.
  assert (Hnode : sys_ok (mkSys fl None)). { split; [|done]. split_and!; [done|done|]. simpl. lia. }
  change (from_dict (to_dict (mkSys fl cs))) with
    (f ← read_node (to_dict (mkSys fl None));
     match match cs with Some ((_ :: _) as l) => Some (map to_dict l) | _ => None end with
     | Some l => read_children l f | None => Ok f end).
  rewrite read_node_written by done. unfold mbind, result_bind.
  destruct cs as [[|c l]|]; [done| |done]. rewrite read_children_written; [done| |].
  - rewrite shipped_dir by done. apply Hd. unfold sys_children. simpl. lia.
  - unfold sys_children in Hk. simpl in Hk, IH. rewrite Forall_forall in IH, Hk |- *. auto.
Qed.
End round_trip.

(** A file whose sidecar flag was never set equals what is shipped of it. *)
Lemma shipped_equal f : sys_ok f -> never_ready f = true -> sys_eqb f (shipped f) = true.
Proof.
  induction f as [fl cs IH] using SystemFile_tree_ind. intros Hf Hn.
  pose proof (proj1 (sys_ok_unfold _) Hf) as [(Hs & Hz & Hd) Hk]. cbn [sys_slots] in *.
  simpl in Hn. apply andb_true_iff in Hn as [Hn Hns]. apply negb_true_iff in Hn.
  assert (Hsame : put_bits (sf_flags fl) S_STATUS_READY false = sf_flags fl).
  { apply Z.eqb_eq. enough (has_bits (sf_flags fl) S_STATUS_READY || (put_bits (sf_flags fl) S_STATUS_READY false =? sf_flags fl) = true)
      as Hor by (by rewrite Hn in Hor).
    apply (flags_forall (fun z => has_bits z S_STATUS_READY || (put_bits z S_STATUS_READY false =? z))); [|done].
    vm_compute. reflexivity. }
  assert (Hnode : forall fl', sf_name fl' = sf_name fl -> sf_size fl' = sf_size fl -> sf_flags fl' = sf_flags fl ->
    sf_created fl' = sf_created fl -> sf_modified fl' = sf_modified fl -> sf_mtime_ns fl' = sf_mtime_ns fl ->
    sf_pair_id fl' = sf_pair_id fl -> sf_pair_name fl' = sf_pair_name fl -> sys_node_eqb fl fl' = true).
  { intros fl' E1 E2 E3 E4 E5 E6 E7 E8. unfold sys_node_eqb. rewrite E1, E2, E3, E4, E5, E6, E7, E8.
    rewrite String.eqb_refl, Z.eqb_refl, !Bool.eqb_reflx, !bool_decide_eq_true_2 by done. done. }
  assert (Hgo : forall l, forallb never_ready l = true ->
    Forall (fun f => sys_ok f -> never_ready f = true -> sys_eqb f (shipped f) = true) l -> Forall sys_ok l ->
    (fix go l l' := match l, l' with
       | [], [] => true | x :: l, y :: l' => sys_eqb x y && go l l' | _, _ => false end) l (map shipped l) = true).
  { clear. induction l as [|x l IHl]; [done|]. cbn [forallb map].
    intros [Hx Hl]%andb_true_iff [IHx IHs]%Forall_cons [Okx Oks]%Forall_cons. rewrite IHx by done. by apply IHl. }
  cbn [sys_eqb]. rewrite Hnode by (done || exact Hsame). destruct cs as [[|c l]|]; [done| |done].
  exact (Hgo (c :: l) Hns IH Hk).
Qed.

(** A scan survives being shipped as dictionaries: reading back what was
    written gives the same tree, node by node, up to the sidecar flag that the
    dictionary does not carry, and so an equal tree when that flag was never
    set. *)
Theorem system_file_round_trip `{IsoFormat} f :
  (forall t, fromisoformat (isoformat t) = Some t) -> sys_ok f ->
  from_dict (to_dict f) = Ok (shipped f) /\ (never_ready f = true -> sys_eqb f (shipped f) = true).
Proof.
  intros Hiso Hf. split; [by apply from_dict_to_dict|by apply shipped_equal].
Qed.

(** A concrete text form of time stamps: decimal microseconds. *)
Definition decimal_text : IsoFormat := {|
  isoformat := fun t => str (show_int t);
  fromisoformat := fun s =>
    match chars s with
    | [] => None
    | c :: l => Some (if ord c =? 45 then - digits_value l else digits_value (c :: l))
    end |}.

Lemma decimal_text_inverse t : @fromisoformat decimal_text (@isoformat decimal_text t) = Some t.
Proof.
  simpl. rewrite chars_str. destruct (Z.ltb_spec t 0) as [Hneg|Hpos].
  - assert (E : show_int t = "-"%char :: show_int (- t)).
    { unfold show_int. destruct (Z.ltb_spec t 0); [|lia]. destruct (Z.ltb_spec (- t) 0); [lia|]. done. }
    rewrite E. change (ord "-"%char =? 45) with true. cbv iota.
    destruct (show_int_digits (- t) ltac:(lia)) as (_ & _ & ->). f_equal. lia.
  - destruct (show_int_digits t Hpos) as (Hn & Hd & Hv). destruct (show_int t) as [|c l]; [done|].
    assert (Hc : is_digit c = true) by (apply Hd; left). unfold is_digit in Hc.
    destruct (Z.eqb_spec (ord c) 45); [lia|]. by rewrite Hv.
Qed.

Definition sample_tree : SystemFile :=
  mkSys (mkSysFields "d" 3 (1 + 2 + 16 + 32) (Some 7) None None (Some "p") None)
    (Some [mkSys (mkSysFields "x" 3 0 None (Some (-5)) (Some 9) None None) None]).

Lemma system_file_round_trip_witness :
  @from_dict decimal_text (@to_dict decimal_text sample_tree) = Ok (shipped sample_tree).
Proof.
  apply (@system_file_round_trip decimal_text sample_tree decimal_text_inverse).
  split; [|split; [|exact I]].
  - split; [simpl; lia|]. split; [split; [simpl; lia|reflexivity]|reflexivity].
  - split; [|exact I]. split; [simpl; lia|]. split; [split; [simpl; lia|]; vm_compute; discriminate|].
    intros Hk. simpl in Hk. lia.
Defined.
