(* ===== verification/TransferEvidence.v ===== *)
(** * Scan evidence of a transfer ([controller/model_builder.py])

    The predicates by which the model builder reads the three scanned trees of
    a root (remote, final local, active staging): which local bytes belong to
    the remote tree, when a staged tree is complete, when a final leaf may be
    trusted, and how a running transfer's tree is overlaid on the scanned one.
    They are pure functions of [SystemFile] trees; a [None] argument is the
    absent tree.  The optional observers of the source that only feed the
    trace are left out; [queue_leaf_observer], which decides a branch of
    [__build_effective_local_files], is the second component of
    [split_root_final_leaf]. *)

From S2P Require Import Prelude PyDict PyStr SystemFile.

(** ** Access to a node *)

Definition sys_mtime_ns (f : SystemFile) : option Z := sf_mtime_ns (sys_slots f).
Definition sys_pair_id (f : SystemFile) : option string := sf_pair_id (sys_slots f).
Definition sys_pair_name (f : SystemFile) : option string := sf_pair_name (sys_slots f).

(** [g(child) for child in file.iter_children()], on the children slot *)
Definition over_children {A} (cs : option (list SystemFile)) (g : SystemFile -> A) : list A :=
  match cs with Some l => map g l | None => [] end.

(** [{child.name: child for child in file.iter_children()}] *)
Definition named (c : SystemFile) : string * SystemFile := (sys_name c, c).
Definition children_by_name (f : SystemFile) : dict string SystemFile := dfrom (map named (sys_children f)).

(** [next((child for child in file.iter_children() if child.name == part), None)] *)
Definition first_child (f : SystemFile) (part : string) : option SystemFile :=
  List.find (fun c => String.eqb (sys_name c) part) (sys_children f).

Definition zsum (l : list Z) : Z := foldr Z.add 0 l.

(** ** Leaves *)

Definition is_authoritative_local_file (local : option SystemFile) : bool :=
  match local with
  | Some f => negb (sys_is_staging f) && negb (sys_has_staging_collision f)
  | None => false
  end.

Definition local_size_is_authoritative_progress (local remote : option SystemFile) (retained : option Z) : bool :=
  match local with
  | Some l =>
      is_authoritative_local_file local &&
      match retained with
      | Some n => (n <=? sys_size l) || match remote with Some r => sys_size r <=? sys_size l | None => false end
      | None => false
      end
  | None => false
  end.

Definition local_file_proves_download_completion (local remote : option SystemFile) : bool :=
  match local, remote with
  | Some l, Some r => is_authoritative_local_file local && (sys_size r <=? sys_size l)
  | _, _ => false
  end.

Definition second_ns : Z := 1000000000.

Definition mtime_epoch_second (f : SystemFile) : option Z := option_map (fun ns => ns / second_ns) (sys_mtime_ns f).

(** Both sizes and both raw times, when the scans carry them. *)
Definition leaf_times (remote candidate : SystemFile) : option (Z * Z) :=
  if negb (sys_is_dir remote) && negb (sys_is_dir candidate) && (sys_size candidate =? sys_size remote)
  then match sys_mtime_ns candidate, sys_mtime_ns remote with Some l, Some r => Some (l, r) | _, _ => None end
  else None.

Definition leaf_matches_remote_identity (remote candidate : SystemFile) : bool :=
  match leaf_times remote candidate with Some (l, r) => l =? r | None => false end.

Definition leaf_matches_remote_queue_exclusion_identity (remote candidate : SystemFile) : bool :=
  is_authoritative_local_file (Some candidate) &&
  match leaf_times remote candidate with
  | Some (l, r) => (l =? r) || ((l mod second_ns =? 0) && (l / second_ns =? r / second_ns))
  | None => false
  end.

Definition leaf_matches_remote_collision_identity (remote candidate : SystemFile) : bool :=
  match leaf_times remote candidate with Some (l, r) => l / second_ns =? r / second_ns | None => false end.

Definition is_verified_final_leaf (remote local : SystemFile) : bool :=
  negb (sys_is_dir remote) && negb (sys_is_dir local) && is_authoritative_local_file (Some local) &&
  leaf_matches_remote_identity remote local.

(** Only raw epoch times order two files. *)
Definition remote_indicates_newer_content (local remote : option SystemFile) : bool :=
  match local, remote with
  | Some l, Some r =>
      if negb (local_file_proves_download_completion local remote) then true
      else match mtime_epoch_second l, mtime_epoch_second r with
           | Some a, Some b => a <? b
           | _, _ => false
           end
  | _, _ => false
  end.

(** ** Bytes *)

Fixpoint leaf_progress_bytes (remote : SystemFile) (local : option SystemFile) {struct remote} : Z :=
  match remote, local with
  | mkSys _ cs, Some l =>
      if negb (Bool.eqb (sys_is_dir remote) (sys_is_dir l)) || sys_has_staging_collision l then 0
      else if negb (sys_is_dir remote) then
        if negb (is_authoritative_local_file local) then 0 else Z.min (sys_size l) (sys_size remote)
      else
        zsum (over_children cs (fun c => leaf_progress_bytes c (dget (children_by_name l) (sys_name c))))
  | _, None => 0
  end.

Definition authoritative_remote_leaf_progress_bytes (remote local : option SystemFile) : Z :=
  match remote with Some r => leaf_progress_bytes r local | None => 0 end.

(** The walk of [__trusted_final_leaf_bytes] descends the local tree. *)
Fixpoint trusted_leaf_bytes (remote : option SystemFile) (local : SystemFile) (ancestor : bool) {struct local} : Z :=
  match local, remote with
  | mkSys _ cs, Some r =>
      if negb (Bool.eqb (sys_is_dir r) (sys_is_dir local)) then 0
      else
        let collision := ancestor || sys_has_staging_collision local in
        if negb (sys_is_dir r) then
          if leaf_matches_remote_queue_exclusion_identity r local && negb collision
          then Z.min (sys_size local) (sys_size r) else 0
        else
          zsum (over_children cs (fun c => trusted_leaf_bytes (dget (children_by_name r) (sys_name c)) c collision))
  | _, None => 0
  end.

Definition trusted_final_leaf_bytes (remote local : option SystemFile) : Z :=
  match local with Some l => trusted_leaf_bytes remote l false | None => 0 end.

Fixpoint final_local_only_size (remote : option SystemFile) (local : SystemFile) {struct local} : Z :=
  match local with
  | mkSys _ cs =>
      if sys_is_staging local || sys_has_staging_collision local then 0
      else
        match remote with
        | None =>
            if negb (sys_is_dir local) then sys_size local
            else zsum (over_children cs (final_local_only_size None))
        | Some r =>
            if negb (Bool.eqb (sys_is_dir r) (sys_is_dir local)) then 0
            else if negb (sys_is_dir local) then 0
            else zsum (over_children cs (fun c => final_local_only_size (dget (children_by_name r) (sys_name c)) c))
        end
  end.

Definition authoritative_final_local_only_size (remote local : option SystemFile) : Z :=
  match local with Some l => final_local_only_size remote l | None => 0 end.

(** ** Descendants *)

Fixpoint has_staging_descendant (f : SystemFile) : bool :=
  match f with
  | mkSys _ cs => sys_is_staging f || existsb id (over_children cs has_staging_descendant)
  end.

Fixpoint has_staging_collision_descendant (f : SystemFile) : bool :=
  match f with
  | mkSys _ cs => sys_has_staging_collision f || existsb id (over_children cs has_staging_collision_descendant)
  end.

Definition staging_ambiguity (sidecar : bool) (f : SystemFile) : bool :=
  sys_is_staging f || bool_decide (sys_has_staging_origin f = Some true) || sys_has_staging_collision f ||
  (sidecar && sys_status_sidecar_ready f).

Fixpoint has_staging_ambiguity_descendant (sidecar : bool) (f : SystemFile) : bool :=
  match f with
  | mkSys _ cs => staging_ambiguity sidecar f || existsb id (over_children cs (has_staging_ambiguity_descendant sidecar))
  end.

Fixpoint remote_transferable (f : SystemFile) : bool :=
  match f with
  | mkSys _ cs => if negb (sys_is_dir f) then true else existsb id (over_children cs remote_transferable)
  end.

Definition has_remote_transferable_content (remote : option SystemFile) : bool :=
  match remote with Some r => remote_transferable r | None => false end.

(** [__mark_active_tree_staging]: the setter is given [True], so it does not raise. *)
Fixpoint mark_active_tree_staging (f : SystemFile) : SystemFile :=
  match f with
  | mkSys fl cs =>
      mkSys (sys_slots (put_sys_flags f (put_bits (sf_flags fl) S_STAGING true)))
        (match cs with Some l => Some (map mark_active_tree_staging l) | None => None end)
  end.

(** ** Coverage *)

(** The children of a dictionary comprehension, with the recursive call of
    each: [{child.name: child ...}] read through [visit]. *)
Definition visits {A} (cs : option (list SystemFile)) (visit : SystemFile -> A) : dict string A :=
  dfrom (over_children cs (fun c => (sys_name c, visit c))).

(** [any(bad(child) for name, child in local_children.items() if name not in remote_children)] *)
Definition bad_extra {A} (bad : SystemFile -> bool) (remote_children : dict string A) (local : SystemFile) : bool :=
  existsb (fun nc => negb (dhas remote_children nc.1) && bad nc.2) (children_by_name local).

Definition staged_or_colliding (c : SystemFile) : bool := sys_has_staging_collision c || has_staging_descendant c.
Definition staged_content (c : SystemFile) : bool := sys_is_staging c || has_staging_descendant c.
Definition not_known_final (c : SystemFile) : bool :=
  negb (bool_decide (sys_has_staging_origin c = Some false)) || has_staging_ambiguity_descendant true c.

Fixpoint leaves_cover_remote (remote : SystemFile) (local : option SystemFile) {struct remote} : bool :=
  match remote, local with
  | mkSys _ cs, Some l =>
      if negb (Bool.eqb (sys_is_dir remote) (sys_is_dir l)) then false
      else if sys_has_staging_collision l then false
      else if negb (sys_is_dir remote) then sys_size remote <=? sys_size l
      else
        let remote_children := visits cs leaves_cover_remote in
        if bad_extra staged_or_colliding remote_children l then false
        else forallb (fun nv => nv.2 (dget (children_by_name l) nv.1)) remote_children
  | _, None => false
  end.

Definition directory_leaves_cover_remote (remote local : option SystemFile) : bool :=
  match remote with Some r => leaves_cover_remote r local | None => false end.

Fixpoint leaves_presented (remote : SystemFile) (local : option SystemFile) {struct remote} : bool :=
  match remote, local with
  | mkSys _ cs, Some l =>
      if negb (Bool.eqb (sys_is_dir remote) (sys_is_dir l)) then false
      else if sys_has_staging_collision l then false
      else if negb (sys_is_dir remote) then sys_size remote <=? sys_size l
      else forallb id (over_children cs (fun c => leaves_presented c (dget (children_by_name l) (sys_name c))))
  | _, None => false
  end.

Definition directory_leaves_cover_remote_for_presentation (remote local : option SystemFile) : bool :=
  match remote with Some r => leaves_presented r local | None => false end.

Definition effective_local_tree_proves_completion (remote local : option SystemFile) : bool :=
  match remote, local with
  | Some r, Some l =>
      if negb (Bool.eqb (sys_is_dir r) (sys_is_dir l)) then false
      else if sys_has_staging_collision l then false
      else if sys_is_dir r then
        if directory_leaves_cover_remote remote local then true
        else sys_is_staging l && (match sys_children l with [] => true | _ => false end) && (sys_size r <=? sys_size l)
      else sys_size r <=? sys_size l
  | _, _ => false
  end.

Fixpoint leaves_covered_allowing_collision (remote : SystemFile) (local : option SystemFile) {struct remote} : bool :=
  match remote, local with
  | mkSys _ cs, Some l =>
      if negb (Bool.eqb (sys_is_dir remote) (sys_is_dir l)) then false
      else if negb (sys_is_dir remote) then sys_size remote <=? sys_size l
      else
        let remote_children := visits cs leaves_covered_allowing_collision in
        if bad_extra staged_content remote_children l then false
        else forallb (fun nv => nv.2 (dget (children_by_name l) nv.1)) remote_children
  | _, None => false
  end.

Definition effective_local_tree_covers_remote_leaves_allowing_collision (remote local : option SystemFile) : bool :=
  match remote with Some r => leaves_covered_allowing_collision r local | None => false end.

Definition local_transfer_snapshot_is_caught_up (local remote : option SystemFile) (retained : option Z) : bool :=
  match remote with
  | Some r =>
      if sys_is_dir r then
        if effective_local_tree_proves_completion remote local then true
        else match retained with
             | Some n => n <=? authoritative_remote_leaf_progress_bytes remote local
             | None => false
             end
      else match retained with
           | None => local_file_proves_download_completion local remote
           | Some _ => local_size_is_authoritative_progress local remote retained
           end
  | None =>
      match retained with
      | None => local_file_proves_download_completion local remote
      | Some _ => local_size_is_authoritative_progress local remote retained
      end
  end.

(** ** The complete staged tree *)

(** The remote children of a directory in turn: all verified, and whether a
    staged leaf was seen. *)
Fixpoint verify_all (vs : list (bool * bool)) (saw : bool) : bool * bool :=
  match vs with
  | [] => (true, saw)
  | (ok, leaf) :: vs' => if negb ok then (false, false) else verify_all vs' (saw || leaf)
  end.

Fixpoint verify_staged (remote : SystemFile) (effective : option SystemFile) {struct remote} : bool * bool :=
  match remote, effective with
  | mkSys _ cs, Some e =>
      if negb (Bool.eqb (sys_is_dir remote) (sys_is_dir e)) || sys_has_staging_collision e then (false, false)
      else if negb (sys_is_dir remote) then
        if sys_status_sidecar_ready e then (false, false)
        else if sys_is_staging e then (leaf_matches_remote_collision_identity remote e, true)
        else (leaf_matches_remote_queue_exclusion_identity remote e, false)
      else
        let remote_children := visits cs verify_staged in
        if bad_extra not_known_final remote_children e then (false, false)
        else verify_all (map (fun nv => nv.2 (dget (children_by_name e) nv.1)) remote_children) false
  | _, None => (false, false)
  end.

Definition trees_have_verified_complete_staging_remote_identity (remote effective : option SystemFile) : bool :=
  match remote, effective with
  | Some r, Some e =>
      if negb (Bool.eqb (sys_is_dir r) (sys_is_dir e)) then false
      else let '(ok, leaf) := verify_staged r effective in ok && leaf
  | _, _ => false
  end.

(** ** Copies *)

Fixpoint add_children (f : SystemFile) (l : list SystemFile) : result SystemFile :=
  match l with
  | [] => Ok f
  | c :: l' => f' ← sys_add_child f c; add_children f' l'
  end.

Definition clone_system_file (f : SystemFile) (children : option (list SystemFile)) (is_staging : option bool)
    (aggregate_size : option Z) : result SystemFile :=
  let size := match aggregate_size, children with
              | Some z, _ => z
              | None, Some l => zsum (map sys_size l)
              | None, None => sys_size f
              end in
  cloned ← new_system_file (sys_name f) size (sys_is_dir f) (sf_created (sys_slots f)) (sf_modified (sys_slots f))
             (match is_staging with Some b => b | None => sys_is_staging f end) (sys_mtime_ns f)
             (sys_has_staging_origin f);
  cloned ← set_sys_pair_id cloned (of_opt_str (sys_pair_id f));
  cloned ← set_sys_pair_name cloned (of_opt_str (sys_pair_name f));
  cloned ← set_status_sidecar_ready cloned (PyBool (sys_status_sidecar_ready f));
  cloned ← set_has_staging_collision cloned (PyBool (sys_has_staging_collision f));
  add_children cloned (match children with Some l => l | None => sys_children f end).

(** ** Deletions *)

(** The loop variables [matches], [changed], [removed_size], [children]. *)
Record prune_loop := mkPruneLoop { pl_matches : nat; pl_changed : bool; pl_removed : Z; pl_children : list SystemFile }.

Definition prune_child (target : string) (visit : SystemFile -> result (option SystemFile * Z * bool))
    (acc : result prune_loop) (child : SystemFile) : result prune_loop :=
  a ← acc;
  if negb (String.eqb (sys_name child) target)
  then Ok (mkPruneLoop (pl_matches a) (pl_changed a) (pl_removed a) (pl_children a ++ [child]))
  else
    v ← visit child;
    let '(updated, removed, changed) := v in
    Ok (mkPruneLoop (S (pl_matches a)) (pl_changed a || changed)
          (if changed : bool then pl_removed a + removed else pl_removed a)
          (match updated with Some u => pl_children a ++ [u] | None => pl_children a end)).

Fixpoint prune_confirmed_local_descendant (path : list string) (source : SystemFile) {struct path}
    : result (option SystemFile * Z * bool) :=
  match path with
  | [] => Ok (Some source, 0, false)
  | target :: rest =>
      if negb (sys_is_dir source) then Ok (Some source, 0, false)
      else
        let visit := match rest with
                     | [] => fun child => Ok (None, sys_size child, true)
                     | _ :: _ => prune_confirmed_local_descendant rest
                     end in
        a ← fold_left (prune_child target visit) (sys_children source) (Ok (mkPruneLoop 0 false 0 []));
        if negb (Nat.eqb (pl_matches a) 1) || negb (pl_changed a) then Ok (Some source, 0, false)
        else
          cloned ← clone_system_file source (Some (pl_children a)) None (Some (Z.max 0 (sys_size source - pl_removed a)));
          Ok (Some cloned, pl_removed a, true)
  end.

Definition prune_confirmed_local_deletion (source : SystemFile) (path : list string) : result (option SystemFile) :=
  match path with
  | [] => Ok None
  | _ :: _ =>
      v ← prune_confirmed_local_descendant path source;
      let '(updated, _, changed) := v in Ok (if changed : bool then updated else Some source)
  end.

(** ** The overlay of a running transfer *)

(** [any(...)], with the flag the observer raised so far *)
Fixpoint any_observed (rs : list (bool * bool)) (seen : bool) : bool * bool :=
  match rs with
  | [] => (false, seen)
  | (v, t) :: rs' => if v : bool then (true, seen || t) else any_observed rs' (seen || t)
  end.

(** [__has_verified_split_root_final_leaf]; the second component is what
    [capture_queue_trusted_split_leaf] stores when it observes. *)
Fixpoint split_root_final_leaf (observe : bool) (existing : SystemFile) (remote active : option SystemFile)
    (missing conflict : bool) {struct existing} : bool * bool :=
  match existing, remote with
  | mkSys _ cs, Some r =>
      if negb (Bool.eqb (sys_is_dir existing) (sys_is_dir r)) then (false, false)
      else
        let live := observe && negb missing && negb conflict in
        let missing := missing || (live && match active with None => true | Some _ => false end) in
        let conflict := conflict ||
          (live && match active with Some a => negb (Bool.eqb (sys_is_dir a) (sys_is_dir existing)) | None => false end) in
        if negb (sys_is_dir existing) then
          (negb (sys_has_staging_collision existing) && is_verified_final_leaf r existing,
           observe && missing && negb conflict && negb (sys_status_sidecar_ready existing) &&
           leaf_matches_remote_queue_exclusion_identity r existing)
        else
          let live := observe && negb missing && negb conflict in
          let active_children := match active with
            | Some a => if live && sys_is_dir a then children_by_name a else []
            | None => []
            end in
          any_observed (over_children cs (fun c =>
            let active_child := dget active_children (sys_name c) in
            split_root_final_leaf observe c (dget (children_by_name r) (sys_name c))
              (if live then active_child else None)
              (missing || (live && match active_child with None => true | Some _ => false end))
              (conflict || (live && match active_child with
                                    | Some a => negb (Bool.eqb (sys_is_dir a) (sys_is_dir c))
                                    | None => false
                                    end)))) false
  | _, None => (false, false)
  end.

(** The kept values of a comprehension whose element may raise. *)
Fixpoint collect {A} (l : list (result (option A))) : result (list A) :=
  match l with
  | [] => Ok []
  | r :: l' => o ← r; k ← collect l'; Ok (match o with Some x => x :: k | None => k end)
  end.

Fixpoint final_split_root_structure (existing : SystemFile) (remote : option SystemFile) {struct existing}
    : result (option SystemFile) :=
  match existing, remote with
  | mkSys _ cs, Some r =>
      if negb (Bool.eqb (sys_is_dir existing) (sys_is_dir r)) then Ok None
      else if negb (sys_is_dir existing) then
        Ok (if negb (leaf_matches_remote_queue_exclusion_identity r existing) then None else Some existing)
      else
        retained ← collect (over_children cs (fun c =>
          final_split_root_structure c (dget (children_by_name r) (sys_name c))));
        if (match retained with [] => true | _ => false end) && sys_is_staging existing then Ok None
        else cloned ← clone_system_file existing (Some retained) (Some false) None; Ok (Some cloned)
  | _, None => Ok None
  end.

(** [children.sort(key=lambda child: child.name)] *)
Definition name_le (a b : SystemFile) : Prop := String.le (sys_name a) (sys_name b).
#[export] Instance name_le_dec a b : Decision (name_le a b) := decide_rel String.le (sys_name a) (sys_name b).
Definition sort_by_name (l : list SystemFile) : list SystemFile := merge_sort name_le l.

Definition collided (f : SystemFile) (b : bool) : result SystemFile := set_has_staging_collision f (PyBool b).

Definition originated (f active : SystemFile) : result SystemFile :=
  if sys_is_staging active || bool_decide (sys_has_staging_origin active = Some true)
  then set_has_staging_origin f (PyBool true) else Ok f.

Fixpoint merge_active_split_root (existing active : SystemFile) (remote : option SystemFile) {struct existing}
    : result SystemFile :=
  match existing with
  | mkSys _ cs =>
      let go := fix go (l : list SystemFile) (active_children : dict string SystemFile)
          : result (list SystemFile * dict string SystemFile) :=
        match l with
        | [] => Ok ([], active_children)
        | c :: l' =>
            let remote_child := match remote with
              | Some r => if sys_is_dir r then dget (children_by_name r) (sys_name c) else None
              | None => None
              end in
            match dget active_children (sys_name c) with
            | None =>
                retained ← final_split_root_structure c remote_child;
                rest ← go l' active_children;
                Ok (match retained with Some x => x :: rest.1 | None => rest.1 end, rest.2)
            | Some a =>
                merged ← merge_active_split_root c a remote_child;
                rest ← go l' (dpop active_children (sys_name c));
                Ok (merged :: rest.1, rest.2)
            end
        end in
      if negb (Bool.eqb (sys_is_dir existing) (sys_is_dir active)) then
        if match remote with Some r => Bool.eqb (sys_is_dir existing) (sys_is_dir r) | None => false end
        then merged ← clone_system_file existing None None None; collided merged true
        else merged ← clone_system_file active None None None; collided merged true
      else if sys_is_dir existing && sys_is_dir active then
        loop ← (match cs with Some l => go l (children_by_name active) | None => Ok ([], children_by_name active) end);
        merged ← clone_system_file existing (Some (sort_by_name (loop.1 ++ dvals loop.2)))
                   (Some (sys_is_staging existing && sys_is_staging active)) None;
        merged ← originated merged active;
        collided merged (sys_has_staging_collision existing || sys_has_staging_collision active)
      else if negb (sys_is_staging existing) &&
              match remote with Some r => leaf_matches_remote_identity r existing | None => false end then
        merged ← clone_system_file existing None None None;
        merged ← collided merged (negb (match remote with Some r => leaf_matches_remote_identity r active | None => false end));
        originated merged active
      else
        merged ← clone_system_file active None None None;
        collided merged (sys_has_staging_collision existing || sys_has_staging_collision active)
  end.
