(* ===== verification/ScanInputs.v ===== *)
(** * The scans a model is built from ([controller/model_builder.py])

    The builder's source buckets (one dictionary of roots per path pair), the
    root identifiers they are keyed by, and the queries the controller asks of
    them before it queues, moves or publishes: trusted final leaves,
    finalizable staging leaves, staging collisions, complete coverage, and the
    effective local tree in which running transfers are overlaid.

    Python compares roots by object identity ([is]), so a root is a
    [SystemFile] with the number of its object; the tree of an effective root
    that is no local source object has none. *)

From S2P Require Import Prelude PyDict PyStr Json SystemFile ModelFile JobStatus TransferEvidence.

(** ** Buckets *)

Record scan_root := mkRoot { root_obj : nat; root_file : SystemFile }.

Definition buckets : Type := dict (option string) (dict string scan_root).

Definition root_file_id (name : string) (pair_id : option string) : string := build_file_id name pair_id.

Definition file_id_path_pair_id (fid : string) : option string :=
  match loads fid with
  | Some (JArr [JStr p; JStr _]) => Some p
  | _ => None
  end.

(** [buckets.setdefault(pair_id, {})[file_id] = file] *)
Definition bucket_file (bs : buckets) (r : scan_root) : buckets :=
  let pair_id := sys_pair_id (root_file r) in
  dset bs pair_id (dset (default [] (dget bs pair_id)) (root_file_id (sys_name (root_file r)) pair_id) r).

Definition bucket_files (files : list scan_root) : buckets := fold_left bucket_file files [].

Definition flatten_buckets (bs : buckets) : dict string scan_root := dfrom (concat (dvals bs)).

(** What the builder keeps of the scans; a proof is the scanner session, its
    generation and the object it is about. *)
Record ScanInputs := mkInputs {
  local_files_by_pair : buckets; remote_files_by_pair : buckets; active_files : dict string SystemFile;
  unknown_local_path_pair_ids : gset (option string);
  local_root_scan_proofs : dict string (string * Z * nat) }.

Definition bucket_get (bs : buckets) (fid : string) : option scan_root :=
  dget (default [] (dget bs (file_id_path_pair_id fid))) fid.

Definition local_file (i : ScanInputs) (fid : string) : option scan_root := bucket_get (local_files_by_pair i) fid.
Definition remote_file (i : ScanInputs) (fid : string) : option SystemFile :=
  root_file <$> bucket_get (remote_files_by_pair i) fid.

Definition local_files (i : ScanInputs) : dict string scan_root := flatten_buckets (local_files_by_pair i).
Definition remote_files (i : ScanInputs) : dict string SystemFile :=
  map (fun kv => (kv.1, root_file kv.2)) (flatten_buckets (remote_files_by_pair i)).

(** ** Identities and proofs *)

Definition get_remote_resume_source_identity (i : ScanInputs) (fid : string) : option (Z * Z) :=
  match remote_file i fid with
  | Some r =>
      if sys_is_dir r then None
      else match sys_mtime_ns r with Some ns => Some (sys_size r, ns / second_ns) | None => None end
  | None => None
  end.

(** The object an expression denotes; [None] is no local source object. *)
Definition obj_ref : Type := option nat.

(** [expected]: [None] when no source is expected *)
Definition has_current_local_root_scan_proof (i : ScanInputs) (fid : string) (session generation : pyval)
    (expected : option obj_ref) : bool :=
  match session, generation, dget (local_root_scan_proofs i) fid with
  | PyStr s, PyInt g, Some (s', g', o) =>
      (0 <=? g) && String.eqb s' s && (g' =? g) &&
      match local_file i fid with Some r => Nat.eqb (root_obj r) o | None => false end &&
      match expected with None => true | Some e => bool_decide (e = Some o) end
  | _, _, _ => false
  end.

Definition scan_authority : Type := string * Z * gset (option string).

(** [reconciled]: [None] when the argument is no set of optional strings *)
Definition normalize_current_local_scan_authority (session generation : pyval)
    (reconciled : option (gset (option string))) : option scan_authority :=
  match session, generation, reconciled with
  | PyStr s, PyInt g, Some ids => if String.eqb s "" || (g <? 0) then None else Some (s, g, ids)
  | _, _, _ => None
  end.

(** ** Paths below a root *)

Definition child_relative (relative name : string) : string :=
  if String.eqb relative "" then name else relative +:+ "/" +:+ name.

(** [for part in parts: child = next(...); if child is None: break] *)
Fixpoint descend (f : SystemFile) (parts : list string) : option SystemFile :=
  match parts with
  | [] => Some f
  | p :: ps => match first_child f p with Some c => descend c ps | None => None end
  end.

Definition has_empty (parts : list string) : bool := existsb (fun p => String.eqb p "") parts.

Definition nested_root_file_id (name : string) (pair_id : option string) (roots : dict string SystemFile) : option string :=
  let parts := split slash name in
  if has_empty parts then None
  else
    let candidates := filter_map (fun kv : string * SystemFile =>
      let '(fid, r) := kv in
      if negb (sys_is_dir r) || negb (String.eqb (sys_name r) (hd "" parts)) || negb (bool_decide (sys_pair_id r = pair_id))
      then None
      else match descend r (tl parts) with
           | Some c => if sys_is_dir c then None else Some fid
           | None => None
           end) roots in
    match candidates with [fid] => Some fid | _ => None end.

(** [given or self.__remote_files()]: an empty dictionary is falsy *)
Definition or_remote_files (i : ScanInputs) (given : option (dict string SystemFile)) : dict string SystemFile :=
  match given with Some ((_ :: _) as d) => d | _ => remote_files i end.

Definition nested_active_file_root_file_id (i : ScanInputs) (active : SystemFile) (given : option (dict string SystemFile))
    : option string :=
  if sys_is_dir active || negb (contains (sys_name active) "/") || contains (sys_name active) "\" then None
  else nested_root_file_id (sys_name active) (sys_pair_id active) (or_remote_files i given).

Definition is_pget_or_get (t : JobType) : bool := bool_decide (t = PGET) || bool_decide (t = GET).

Definition nested_lftp_status_root_file_id (i : ScanInputs) (status : LftpJobStatus) (given : option (dict string SystemFile))
    : option string :=
  if negb (is_pget_or_get (job_type status)) || negb (contains (job_name status) "/") || contains (job_name status) "\" then None
  else nested_root_file_id (job_name status) (job_path_pair_id status) (or_remote_files i given).

(** The walk of [is_remote_leaf_path]. *)
Fixpoint leaf_walk (current : SystemFile) (parts : list string) : bool :=
  match parts with
  | [] => negb (sys_is_dir current)
  | p :: ps =>
      if negb (sys_is_dir current) then false
      else match first_child current p with Some c => leaf_walk c ps | None => false end
  end.

Definition is_remote_leaf_path (i : ScanInputs) (fid relative : string) : bool :=
  match remote_file i fid with
  | Some r => if String.eqb relative "" then false else leaf_walk r (split slash relative)
  | None => false
  end.

Inductive source_identity := SrcUnknown | SrcAbsent | SrcDirectory | SrcFile (size mtime_ns : Z).

Fixpoint identity_walk (current : SystemFile) (parts : list string) : source_identity :=
  match parts with
  | [] =>
      if sys_is_dir current then SrcDirectory
      else match sys_mtime_ns current with Some ns => SrcFile (sys_size current) ns | None => SrcUnknown end
  | p :: ps =>
      if String.eqb p "" || String.eqb p "." || String.eqb p ".." || negb (sys_is_dir current) then SrcUnknown
      else match first_child current p with Some c => identity_walk c ps | None => SrcAbsent end
  end.

(** [reconciled]: [None] when the argument is no frozen set *)
Definition get_queue_collision_source_identity (i : ScanInputs) (fid relative : string)
    (reconciled : option (gset (option string))) : source_identity :=
  match reconciled with
  | Some ids =>
      if negb (bool_decide (file_id_path_pair_id fid ∈ ids)) then SrcUnknown
      else match remote_file i fid with
           | Some r =>
               if negb (sys_is_dir r) || String.eqb relative "" || contains relative "\" then SrcUnknown
               else identity_walk r (split slash relative)
           | None => SrcUnknown
           end
  | None => SrcUnknown
  end.

(** ** Trusted final leaves *)

Fixpoint trusted_paths (remote : SystemFile) (local : SystemFile) (relative : string) (ancestor : bool) {struct local}
    : list string :=
  match local with
  | mkSys _ cs =>
      if negb (Bool.eqb (sys_is_dir remote) (sys_is_dir local)) then []
      else
        let collision := ancestor || sys_has_staging_collision local in
        if negb (sys_is_dir remote) then
          if leaf_matches_remote_queue_exclusion_identity remote local && negb collision then [relative] else []
        else
          concat (over_children cs (fun c =>
            match dget (children_by_name remote) (sys_name c) with
            | None => []
            | Some r => trusted_paths r c (child_relative relative (sys_name c)) collision
            end))
  end.

(** [tuple(sorted(set(paths)))] *)
Definition sorted_set (l : list string) : list string := sorted_ids (list_to_set l).

Definition get_trusted_final_leaf_paths_without_trace (i : ScanInputs) (fid : string) (allow_unknown_pair : bool) : list string :=
  match remote_file i fid, root_file <$> local_file i fid with
  | Some r, Some l =>
      if negb (sys_is_dir r) || negb (sys_is_dir l) then []
      else if bool_decide (file_id_path_pair_id fid ∈ unknown_local_path_pair_ids i) && negb allow_unknown_pair then []
      else sorted_set (trusted_paths r l "" false)
  | _, _ => []
  end.

(** The untraced branch of [get_trusted_final_leaf_paths]. *)
Definition get_trusted_final_leaf_paths (i : ScanInputs) (fid : string) (session generation : pyval)
    (remote_path_pair_ready : bool) : list string :=
  let unknown := bool_decide (file_id_path_pair_id fid ∈ unknown_local_path_pair_ids i) in
  get_trusted_final_leaf_paths_without_trace i fid
    (unknown && remote_path_pair_ready && has_current_local_root_scan_proof i fid session generation None).

(** ** Finalizable staging leaves *)

Fixpoint candidate_paths (remote : SystemFile) (local : option SystemFile) (relative : string) (ancestor : bool)
    {struct remote} : list string :=
  match remote, local with
  | mkSys _ cs, Some l =>
      if negb (Bool.eqb (sys_is_dir remote) (sys_is_dir l)) then []
      else
        let collision := ancestor || sys_has_staging_collision l in
        if negb (sys_is_dir remote) then
          if negb (String.eqb relative "") && negb (contains relative "\") && negb collision && sys_is_staging l &&
             negb (sys_status_sidecar_ready l) && leaf_matches_remote_collision_identity remote l
          then [relative] else []
        else
          concat (over_children cs (fun c =>
            candidate_paths c (dget (children_by_name l) (sys_name c)) (child_relative relative (sys_name c)) collision))
  | _, None => []
  end.

(** [sorted] of pairs of strings *)
Definition pair_le (a b : string * string) : Prop := if decide (a.1 = b.1) then String.le a.2 b.2 else String.le a.1 b.1.
#[export] Instance pair_le_dec a b : Decision (pair_le a b).
Proof. unfold pair_le. destruct (decide (a.1 = b.1)); apply _. Defined.

Definition root_candidates (i : ScanInputs) (kv : string * SystemFile) : list (string * string) :=
  let '(fid, remote_root) := kv in
  if negb (sys_is_dir remote_root) then []
  else match root_file <$> local_file i fid with
       | Some l => map (pair fid) (candidate_paths remote_root (Some l) "" false)
       | None => []
       end.

Definition get_finalizable_staging_leaf_candidates (i : ScanInputs) : list (string * string) :=
  merge_sort pair_le (concat (map (root_candidates i) (remote_files i))).

(** The loop of [get_finalizable_staging_leaf_candidate_reason] and what
    follows it; the outer [None] is the source's [None]. *)
Fixpoint candidate_walk (remote : SystemFile) (local : option SystemFile) (collision : bool) (parts : list string)
    : option string :=
  match parts with
  | p :: ps =>
      if negb (sys_is_dir remote) then None
      else match first_child remote p with
           | None => None
           | Some remote_child =>
               match local with
               | Some l =>
                   if negb (Bool.eqb (sys_is_dir l) (sys_is_dir remote)) then Some "type"
                   else candidate_walk remote_child (first_child l p) (collision || sys_has_staging_collision l) ps
               | None => candidate_walk remote_child None collision ps
               end
           end
  | [] =>
      if sys_is_dir remote then None
      else match local with
           | None => Some "missing"
           | Some l =>
               if negb (Bool.eqb (sys_is_dir l) (sys_is_dir remote)) then Some "type"
               else if collision || sys_has_staging_collision l then Some "collision"
               else if negb (sys_is_staging l) then Some "not_staging"
               else if sys_status_sidecar_ready l then Some "sidecar"
               else if negb (sys_size l =? sys_size remote) then Some "size"
               else match sys_mtime_ns l, sys_mtime_ns remote with
                    | Some a, Some b => if negb (a / second_ns =? b / second_ns) then Some "mtime" else Some "match"
                    | _, _ => Some "mtime"
                    end
           end
  end.

Definition get_finalizable_staging_leaf_candidate_reason (i : ScanInputs) (root_file_id relative_path : string) : option string :=
  if String.eqb relative_path "" || contains relative_path "\" then None
  else
    let parts := split slash relative_path in
    if has_empty parts then None
    else match remote_file i root_file_id with
         | Some r => if negb (sys_is_dir r) then None
                     else candidate_walk r (root_file <$> local_file i root_file_id) false parts
         | None => None
         end.

(** ** The effective local trees *)

Definition known_path_pair (i : ScanInputs) (authority : option scan_authority) (fid : string) (existing : obj_ref) : bool :=
  let pair_id := file_id_path_pair_id fid in
  if negb (bool_decide (pair_id ∈ unknown_local_path_pair_ids i)) then true
  else match authority with
       | Some (session, generation, reconciled) =>
           bool_decide (pair_id ∈ reconciled) &&
           has_current_local_root_scan_proof i fid (PyStr session) (PyInt generation) (Some existing)
       | None => false
       end.

(** Whether the scanned tree must be merged with the active one. *)
Definition needs_split_merge (i : ScanInputs) (authority : option scan_authority) (fid : string) (obj : obj_ref)
    (existing active remote : SystemFile) : bool :=
  if has_staging_descendant existing || has_staging_collision_descendant existing then
    let '(verified, trusted_absent) :=
      split_root_final_leaf (known_path_pair i authority fid obj) existing (Some remote) (Some active) false false in
    if verified then true
    else if negb (has_staging_collision_descendant existing) && trusted_absent then true
    else has_staging_collision_descendant existing
  else false.

(** The tree that replaces the scanned one, if any. *)
Definition effective_root (i : ScanInputs) (authority : option scan_authority) (fid : string)
    (entry : option (obj_ref * SystemFile)) (active : SystemFile) : result (option SystemFile) :=
  match entry with
  | None => Ok (Some active)
  | Some (obj, existing) =>
      let remote := remote_file i fid in
      if match remote with Some r => needs_split_merge i authority fid obj existing active r | None => false end
      then merged ← merge_active_split_root existing active remote; Ok (Some merged)
      else if sys_is_staging existing then Ok None
      else if is_authoritative_local_file (Some existing) && sys_is_staging active &&
              (sys_size active <=? sys_size existing) && negb (remote_indicates_newer_content (Some existing) remote)
      then Ok None
      else Ok (Some active)
  end.

Definition effective : Type := dict string (obj_ref * SystemFile).

Definition effective_step (i : ScanInputs) (authority : option scan_authority) (acc : result effective)
    (kv : string * SystemFile) : result effective :=
  let '(fid, active) := kv in
  eff ← acc;
  match nested_active_file_root_file_id i active None with
  | Some _ => Ok eff
  | None =>
      r ← effective_root i authority fid (dget eff fid) active;
      Ok (match r with Some f => dset eff fid (None, f) | None => eff end)
  end.

Definition build_effective_local_files (i : ScanInputs) (authority : option scan_authority) : result effective :=
  fold_left (effective_step i authority) (active_files i)
    (Ok (map (fun kv => (kv.1, (Some (root_obj kv.2), root_file kv.2))) (local_files i))).

Definition effective_local_file (i : ScanInputs) (authority : option scan_authority) (fid : string) : result (option SystemFile) :=
  eff ← build_effective_local_files i authority; Ok (snd <$> dget eff fid).

(** ** Completion *)

Definition has_complete_local_coverage (i : ScanInputs) (fid : string) (session generation : pyval)
    (reconciled : option (gset (option string))) : result bool :=
  local ← effective_local_file i (normalize_current_local_scan_authority session generation reconciled) fid;
  Ok (effective_local_tree_proves_completion (remote_file i fid) local).

Definition has_verified_complete_staging_remote_identity (i : ScanInputs) (fid : string) (session generation : pyval)
    (reconciled : option (gset (option string))) : result bool :=
  local ← effective_local_file i (normalize_current_local_scan_authority session generation reconciled) fid;
  Ok (trees_have_verified_complete_staging_remote_identity (remote_file i fid) local).

(** ** Staging collisions *)

Definition has_unresolved_staging_collision (i : ScanInputs) (fid : string) : result bool :=
  local ← effective_local_file i None fid;
  Ok (match local with Some l => has_staging_collision_descendant l | None => false end).

Fixpoint collision_paths (f : SystemFile) (relative : string) (ancestor : bool) : list string :=
  match f with
  | mkSys _ cs =>
      let collision := ancestor || sys_has_staging_collision f in
      if sys_is_dir f then
        concat (over_children cs (fun c => collision_paths c (child_relative relative (sys_name c)) collision))
      else if collision then [relative] else []
  end.

Definition get_staging_collision_relative_paths (i : ScanInputs) (fid : string) : result (list string) :=
  local ← effective_local_file i None fid;
  Ok (match local with Some l => sorted_set (collision_paths l "" false) | None => [] end).

Fixpoint collision_identity (remote : SystemFile) (local active : option SystemFile) (ancestor : bool) {struct remote} : bool :=
  match remote, local with
  | mkSys _ cs, Some e =>
      if negb (Bool.eqb (sys_is_dir remote) (sys_is_dir e)) then false
      else
        let collision := ancestor || sys_has_staging_collision e in
        if sys_is_dir remote then
          if match active with Some a => negb (sys_is_dir a) | None => false end then false
          else
            forallb id (over_children cs (fun c =>
              collision_identity c (dget (children_by_name e) (sys_name c))
                (match active with Some a => dget (children_by_name a) (sys_name c) | None => None end) collision))
        else if negb collision then true
        else if negb (leaf_matches_remote_collision_identity remote e) then false
        else match active with None => true | Some a => leaf_matches_remote_collision_identity remote a end
  | _, None => false
  end.

(** [terminalizable]: the cached roots; [None] without a cached model *)
Definition has_verified_staging_collision_remote_identity (i : ScanInputs) (terminalizable : option (gset string)) (fid : string)
    : result bool :=
  if match terminalizable with Some t => negb (bool_decide (fid ∈ t)) | None => true end then Ok false
  else
    local ← effective_local_file i None fid;
    Ok (match remote_file i fid, local with
        | Some r, Some e =>
            if negb (Bool.eqb (sys_is_dir r) (sys_is_dir e)) then false
            else collision_identity r (Some e) (dget (active_files i) fid) false
        | _, _ => false
        end).
