(* ===== verification/TransferEvidenceFacts.v ===== *)
(** * Scan evidence: trees by path, coverage and completion *)

From S2P Require Import Prelude PyDict PyStr SystemFile SystemFileFacts TransferEvidence ScanInputs.

(** ** Nodes *)

Lemma over_children_map {A} f (g : SystemFile -> A) : over_children (sys_children_slot f) g = map g (sys_children f).
Proof. by destruct f as [fl [l|]]. Qed.

(** A scanned tree: sibling names are distinct and are path components, and
    only directories have children. *)
Definition name_ok (n : string) : Prop :=
  n <> "" /\ slash ∉ chars n /\ backslash ∉ chars n.

Inductive tree_ok (f : SystemFile) : Prop :=
  tree_ok_intro :
    NoDup (map sys_name (sys_children f)) -> Forall (fun c => name_ok (sys_name c)) (sys_children f) ->
    (sys_is_dir f = false -> sys_children f = []) -> Forall tree_ok (sys_children f) -> tree_ok f.

(** A checker for concrete trees. *)
Definition name_okb (n : string) : bool :=
  negb (String.eqb n "") && forallb (fun c => negb (Ascii.eqb c slash) && negb (Ascii.eqb c backslash)) (chars n).

Fixpoint tree_okb (f : SystemFile) : bool :=
  match f with
  | mkSys _ cs =>
      bool_decide (NoDup (over_children cs sys_name)) &&
      forallb id (over_children cs (fun c => name_okb (sys_name c))) &&
      (sys_is_dir f || match over_children cs (fun _ => tt) with [] => true | _ => false end) &&
      forallb id (over_children cs tree_okb)
  end.

Lemma name_okb_ok n : name_okb n = true -> name_ok n.
Proof.
  unfold name_okb, name_ok. rewrite andb_true_iff, negb_true_iff, forallb_forall. intros [He%String.eqb_neq Hc].
  split_and!; [done| |]; intros Hin%list_elem_of_In%Hc; rewrite andb_true_iff, !negb_true_iff in Hin;
    destruct Hin as [H1%Ascii.eqb_neq H2%Ascii.eqb_neq]; done.
Qed.

Lemma tree_okb_ok f : tree_okb f = true -> tree_ok f.
Proof.
  revert f. apply (SystemFile_tree_ind (fun f => tree_okb f = true -> tree_ok f)). intros fl cs IH.
  assert (Hk : forall A (g : SystemFile -> A), over_children cs g = map g (sys_children (mkSys fl cs))) by (by intros; destruct cs).
  cbn [tree_okb]. rewrite !Hk, !andb_true_iff, orb_true_iff, bool_decide_eq_true, !forallb_forall.
  intros [[[Hnd Hn] Hl] Ht]. split.
  - done.
  - apply List.Forall_forall. intros c Hc. apply name_okb_ok, (Hn (name_okb (sys_name c))). apply in_map_iff. eauto.
  - intros Hd. destruct Hl as [Hl|Hl]; [congruence|]. by destruct (sys_children (mkSys fl cs)).
  - change (default [] cs) with (sys_children (mkSys fl cs)) in IH. rewrite List.Forall_forall in IH |- *.
    intros c Hc. apply IH; [done|]. apply (Ht (tree_okb c)). apply in_map_iff. eauto.
Qed.

Lemma tree_ok_child f c : tree_ok f -> c ∈ sys_children f -> tree_ok c.
Proof. intros [_ _ _ H] Hc. rewrite Forall_forall in H. auto. Qed.

(** Induction on the children of a tree. *)
Lemma tree_induction (P : SystemFile -> Prop) :
  (forall f, (forall c, c ∈ sys_children f -> P c) -> P f) -> forall f, P f.
Proof.
  intros H. apply SystemFile_tree_ind. intros fl cs Hcs. apply H. intros c Hc. rewrite Forall_forall in Hcs. auto.
Qed.

(** ** Children by name *)

Lemma first_child_Some f n c : first_child f n = Some c -> c ∈ sys_children f /\ sys_name c = n.
Proof.
  unfold first_child. intros H%List.find_some. destruct H as [Hin He%String.eqb_eq]. by rewrite list_elem_of_In.
Qed.

Lemma first_child_None f n : first_child f n = None <-> n ∉ map sys_name (sys_children f).
Proof.
  unfold first_child. split.
  - intros H Hin. apply list_elem_of_fmap in Hin as (c & -> & Hc). apply list_elem_of_In in Hc.
    pose proof (List.find_none _ _ H c Hc) as Hf. simpl in Hf. by rewrite String.eqb_refl in Hf.
  - intros H. destruct (List.find _ _) as [c|] eqn:E; [|done].
    apply first_child_Some in E as [Hc <-]. destruct H. apply list_elem_of_fmap. eauto.
Qed.

Lemma NoDup_name_eq (l : list SystemFile) a b : NoDup (map sys_name l) -> a ∈ l -> b ∈ l -> sys_name a = sys_name b -> a = b.
Proof.
  intros Hnd Ha Hb He. apply list_elem_of_lookup in Ha as [i Hi]. apply list_elem_of_lookup in Hb as [j Hj].
  assert (i = j) as ->; [|congruence].
  eapply (NoDup_lookup (map sys_name l)); [done| |]; rewrite list_lookup_fmap; [by rewrite Hi|rewrite Hj; simpl; congruence].
Qed.

Lemma first_child_iff f n c : tree_ok f -> first_child f n = Some c <-> c ∈ sys_children f /\ sys_name c = n.
Proof.
  intros [Hnd _ _ _]. split; [apply first_child_Some|]. intros [Hc <-].
  destruct (first_child f (sys_name c)) as [d|] eqn:E.
  - apply first_child_Some in E as [Hd He]. f_equal. by eapply NoDup_name_eq.
  - apply first_child_None in E. destruct E. apply list_elem_of_fmap. eauto.
Qed.

Lemma first_child_name f c : tree_ok f -> c ∈ sys_children f -> first_child f (sys_name c) = Some c.
Proof. intros. by apply first_child_iff. Qed.

Lemma first_child_tree_ok f n c : tree_ok f -> first_child f n = Some c -> tree_ok c.
Proof. intros Hf [Hc _]%first_child_Some. by apply (tree_ok_child f). Qed.

(** A dictionary built from distinct names holds what a scan of the list finds. *)
Lemma dget_map_find {A} (g : SystemFile -> A) (l : list SystemFile) n :
  dget (map (fun c => (sys_name c, g c)) l) n = g <$> List.find (fun c => String.eqb (sys_name c) n) l.
Proof.
  induction l as [|c l IH]; simpl; [done|]. destruct (String.eqb_spec (sys_name c) n) as [<-|Hne].
  - by rewrite decide_True.
  - rewrite decide_False by congruence. exact IH.
Qed.

Lemma map_fst_named {A} (g : SystemFile -> A) l : map fst (map (fun c => (sys_name c, g c)) l) = map sys_name l.
Proof. by rewrite List.map_map. Qed.

Lemma dget_children f n : tree_ok f -> dget (children_by_name f) n = first_child f n.
Proof.
  intros [Hnd _ _ _]. unfold children_by_name, named. rewrite dget_dfrom by (by rewrite (map_fst_named (fun c => c))).
  rewrite (dget_map_find (fun c => c)). unfold first_child. by destruct (List.find _ _).
Qed.

Lemma dfrom_named {A} (g : SystemFile -> A) l : NoDup (map sys_name l) ->
  dfrom (map (fun c => (sys_name c, g c)) l) = map (fun c => (sys_name c, g c)) l.
Proof. intros H. apply Json.dfrom_id. by rewrite map_fst_named. Qed.

Lemma visits_tree {A} f (g : SystemFile -> A) : tree_ok f ->
  visits (sys_children_slot f) g = map (fun c => (sys_name c, g c)) (sys_children f).
Proof. intros [Hnd _ _ _]. unfold visits. rewrite over_children_map. by apply dfrom_named. Qed.

Lemma dhas_visits {A} f (g : SystemFile -> A) n : tree_ok f ->
  dhas (map (fun c => (sys_name c, g c)) (sys_children f)) n = bool_decide (is_Some (first_child f n)).
Proof.
  intros Hf. unfold dhas. rewrite dget_map_find. fold (first_child f n).
  by destruct (first_child f n).
Qed.

(** ** Paths *)

Lemma descend_cons f n p : descend f (n :: p) = first_child f n ≫= fun c => descend c p.
Proof. simpl. by destruct (first_child f n). Qed.

Lemma descend_app f p q : descend f (p ++ q) = descend f p ≫= fun x => descend x q.
Proof.
  revert f. induction p as [|n p IH]; intros f; [done|]. cbn [app]. rewrite !descend_cons.
  destruct (first_child f n); [apply IH|done].
Qed.

Lemma descend_child f c p : tree_ok f -> c ∈ sys_children f -> descend f (sys_name c :: p) = descend c p.
Proof. intros Hf Hc. rewrite descend_cons, (first_child_name f c) by done. done. Qed.

Lemma descend_tree_ok f p x : tree_ok f -> descend f p = Some x -> tree_ok x.
Proof.
  revert f. induction p as [|n p IH]; intros f Hf; [by intros [= <-]|]. rewrite descend_cons.
  destruct (first_child f n) as [c|] eqn:E; [|done]. apply first_child_Some in E as [Hc _]. apply IH.
  by apply (tree_ok_child f).
Qed.

Lemma descend_leaf f n p : tree_ok f -> sys_is_dir f = false -> descend f (n :: p) = None.
Proof.
  intros [_ _ Hl _] Hd. rewrite descend_cons. unfold first_child. by rewrite (Hl Hd).
Qed.

Lemma child_is_dir f n c : tree_ok f -> first_child f n = Some c -> sys_is_dir f = true.
Proof. intros [_ _ Hl _] E. destruct (sys_is_dir f); [done|]. unfold first_child in E. by rewrite Hl in E. Qed.

(** The components of a path into a tree are names. *)
Lemma descend_names f p x : tree_ok f -> descend f p = Some x -> Forall name_ok p.
Proof.
  revert f. induction p as [|n p IH]; intros f Hf; [constructor|]. rewrite descend_cons.
  destruct (first_child f n) as [c|] eqn:E; [|done]. apply first_child_Some in E as [Hc <-]. intros Hx.
  constructor; [|by eapply IH, Hx; eapply tree_ok_child].
  destruct Hf as [_ Hn _ _]. rewrite Forall_forall in Hn. auto.
Qed.

(** A node on the way has staging-collision metadata. *)
Fixpoint collided_on (f : SystemFile) (p : list string) : bool :=
  sys_has_staging_collision f ||
  match p with
  | [] => false
  | n :: ps => match first_child f n with Some c => collided_on c ps | None => false end
  end.

(** ** Searches below a node *)

Lemma forallb_map {A B} (g : B -> bool) (h : A -> B) l : forallb g (map h l) = forallb (fun x => g (h x)) l.
Proof. induction l as [|x l IH]; [done|]. simpl. by rewrite IH. Qed.

Lemma forallb_pointwise {A} (g h : A -> bool) l : (forall x, g x = h x) -> forallb g l = forallb h l.
Proof. intros H. induction l as [|x l IH]; [done|]. simpl. by rewrite IH, H. Qed.

Lemma existsb_map {A B} (g : B -> bool) (h : A -> B) l : existsb g (map h l) = existsb (fun x => g (h x)) l.
Proof. induction l as [|x l IH]; [done|]. simpl. by rewrite IH. Qed.

Lemma existsb_false {A} (g : A -> bool) l : existsb g l = false <-> forall x, x ∈ l -> g x = false.
Proof.
  split.
  - intros H x Hx. destruct (g x) eqn:E; [|done]. rewrite <- H. symmetry. apply existsb_exists.
    exists x. by rewrite <- list_elem_of_In.
  - intros H. destruct (existsb g l) eqn:E; [|done]. apply existsb_exists in E as (x & Hx & Hg).
    rewrite H in Hg; [done|]. by apply list_elem_of_In.
Qed.

Lemma forallb_true {A} (g : A -> bool) l : forallb g l = true <-> forall x, x ∈ l -> g x = true.
Proof. rewrite forallb_forall. split; intros H x Hx; apply H; by apply list_elem_of_In. Qed.

(** A search that visits every node finds nothing exactly when no node below has the property. *)
Lemma search_none (P h : SystemFile -> bool) :
  (forall f, h f = P f || existsb h (sys_children f)) ->
  forall f, tree_ok f -> h f = false <-> forall p x, descend f p = Some x -> P x = false.
Proof.
  intros Hh. apply (tree_induction (fun f => tree_ok f -> h f = false <-> forall p x, descend f p = Some x -> P x = false)).
  intros f IH Hf. rewrite Hh, orb_false_iff, existsb_false. split.
  - intros [HP Hc] [|n p] x; [by intros [= <-]|]. rewrite descend_cons.
    destruct (first_child f n) as [c|] eqn:E; [|done]. apply first_child_Some in E as [Hin _]. simpl.
    apply (IH c Hin); [by eapply tree_ok_child|auto].
  - intros H. split; [by apply (H [])|]. intros c Hin. apply (IH c Hin); [by eapply tree_ok_child|].
    intros p x Hx. apply (H (sys_name c :: p)). by rewrite descend_child.
Qed.

Lemma staging_descendant_eq f : has_staging_descendant f = sys_is_staging f || existsb has_staging_descendant (sys_children f).
Proof. destruct f as [fl [l|]]; simpl; [by rewrite existsb_map|done]. Qed.

Lemma collision_descendant_eq f :
  has_staging_collision_descendant f = sys_has_staging_collision f || existsb has_staging_collision_descendant (sys_children f).
Proof. destruct f as [fl [l|]]; simpl; [by rewrite existsb_map|done]. Qed.

Lemma ambiguity_descendant_eq b f :
  has_staging_ambiguity_descendant b f = staging_ambiguity b f || existsb (has_staging_ambiguity_descendant b) (sys_children f).
Proof. destruct f as [fl [l|]]; cbn [has_staging_ambiguity_descendant]; [simpl; by rewrite existsb_map|done]. Qed.

Lemma no_ambiguity b f : tree_ok f ->
  has_staging_ambiguity_descendant b f = false <-> forall p x, descend f p = Some x -> staging_ambiguity b x = false.
Proof. apply search_none, ambiguity_descendant_eq. Qed.

Lemma no_staging f : tree_ok f -> has_staging_descendant f = false <-> forall p x, descend f p = Some x -> sys_is_staging x = false.
Proof. apply search_none, staging_descendant_eq. Qed.

Lemma no_collision f : tree_ok f ->
  has_staging_collision_descendant f = false <-> forall p x, descend f p = Some x -> sys_has_staging_collision x = false.
Proof. apply search_none, collision_descendant_eq. Qed.

(** ** Children without a counterpart *)

Lemma bad_extra_none {A} (g : SystemFile -> A) bad r e : tree_ok r -> tree_ok e ->
  bad_extra bad (visits (sys_children_slot r) g) e = false <->
  forall c, c ∈ sys_children e -> first_child r (sys_name c) = None -> bad c = false.
Proof.
  intros Hr He. unfold bad_extra. rewrite existsb_false, (visits_tree r g) by done. unfold children_by_name, named.
  rewrite (dfrom_named (fun c => c)) by (by destruct He). split.
  - intros H c Hc Hn. specialize (H (sys_name c, c)). simpl in H. rewrite dhas_visits, Hn in H by done. apply H.
    apply list_elem_of_fmap. eauto.
  - intros H [n c] (d & [= -> ->] & Hd)%list_elem_of_fmap. simpl. rewrite dhas_visits by done.
    destruct (first_child r (sys_name d)) eqn:E; [done|]. simpl. auto.
Qed.

(** ** Coverage of one tree by another *)

(** Every node of the remote tree [r] has a counterpart of the same kind in
    [e] that satisfies [N]; every child of [e] beyond the remote tree
    satisfies [X]. *)
Record covers (N : SystemFile -> SystemFile -> Prop) (X : SystemFile -> Prop) (r e : SystemFile) : Prop := {
  cv_nodes p x : descend r p = Some x ->
    exists y, descend e p = Some y /\ sys_is_dir y = sys_is_dir x /\ N x y;
  cv_extras p d n y : descend r p = Some d -> first_child d n = None -> descend e (p ++ [n]) = Some y -> X y }.

Lemma covers_mono (N N' : SystemFile -> SystemFile -> Prop) (X X' : SystemFile -> Prop) r e :
  (forall x y, N x y -> N' x y) -> (forall y, X y -> X' y) -> covers N X r e -> covers N' X' r e.
Proof.
  intros HN HX [Hn Hx]. split; [|eauto]. intros p x Hp. destruct (Hn p x Hp) as (y & Hy & Hd & H). eauto.
Qed.

(** One level of [covers]. *)
Lemma covers_unfold N X r e : tree_ok r -> tree_ok e ->
  covers N X r e <->
  sys_is_dir e = sys_is_dir r /\ N r e /\
  (forall c, c ∈ sys_children e -> first_child r (sys_name c) = None -> X c) /\
  (forall c, c ∈ sys_children r -> exists e', first_child e (sys_name c) = Some e' /\ covers N X c e').
Proof.
  intros Hr He. split.
  - intros [Hn Hx]. destruct (Hn [] r eq_refl) as (y & [= <-] & H1 & H2). split_and!; [done|done| |].
    + intros c Hc Hnone. apply (Hx [] r (sys_name c)); [done|done|]. by apply descend_child.
    + intros c Hc. destruct (Hn [sys_name c] c) as (y & Hy & _); [by apply descend_child|].
      rewrite descend_cons in Hy. destruct (first_child e (sys_name c)) as [e'|] eqn:E; [|done]. exists e'. split; [done|].
      split.
      * intros p x Hp. destruct (Hn (sys_name c :: p) x) as (y' & Hy' & H'); [by rewrite descend_child|].
        rewrite descend_cons, E in Hy'. eauto.
      * intros p d n y' Hd Hno Hy'. apply (Hx (sys_name c :: p) d n); [by rewrite descend_child|done|].
        cbn [app]. by rewrite descend_cons, E.
  - intros (H1 & H2 & Hext & Hkids). split.
    + intros [|n p] x; [intros [= <-]; eauto|]. rewrite descend_cons. destruct (first_child r n) as [c|] eqn:E; [|done].
      apply first_child_Some in E as [Hc <-]. simpl. intros Hx. destruct (Hkids c Hc) as (e' & He' & [Hn _]).
      destruct (Hn p x Hx) as (y & Hy & H'). exists y. by rewrite He'.
    + intros [|m p] d n y.
      * intros [= <-] Hno. cbn [app]. rewrite descend_cons. destruct (first_child e n) as [c|] eqn:E; [|done].
        apply first_child_Some in E as [Hc <-]. intros [= ->]. auto.
      * rewrite descend_cons. destruct (first_child r m) as [c|] eqn:E; [|done]. apply first_child_Some in E as [Hc <-].
        simpl. intros Hd Hno. destruct (Hkids c Hc) as (e' & He' & [_ Hx]). rewrite He'. by apply (Hx p d n).
Qed.

Lemma no_children_leaf r : tree_ok r -> sys_is_dir r = false -> sys_children r = [].
Proof. by intros [_ _ H _]. Qed.

(** A walk that checks the pair of nodes, then the extra children, then the
    children of the remote node, decides [covers]. *)
Section walk.
Context (N : SystemFile -> SystemFile -> Prop) (X : SystemFile -> Prop).
Context (h : SystemFile -> option SystemFile -> bool) (nb : SystemFile -> SystemFile -> bool) (xb : SystemFile -> bool).
Context (Hnone : forall r, h r None = false).
Context (Hnb : forall r e, sys_is_dir e = sys_is_dir r -> nb r e = true <-> N r e).
Context (Hxb : forall c, tree_ok c -> xb c = false <-> X c).

Definition extras_ok (r e : SystemFile) : Prop :=
  forall c, c ∈ sys_children e -> first_child r (sys_name c) = None -> xb c = false.

Context (Hh : forall r e, tree_ok r -> tree_ok e ->
  h r (Some e) = true <->
  sys_is_dir e = sys_is_dir r /\ nb r e = true /\
  (sys_is_dir r = true -> extras_ok r e /\ forall c, c ∈ sys_children r -> h c (first_child e (sys_name c)) = true)).

Lemma walk_covers r : forall e, tree_ok r -> tree_ok e -> h r (Some e) = true <-> covers N X r e.
Proof.
  apply (tree_induction (fun r => forall e, tree_ok r -> tree_ok e -> h r (Some e) = true <-> covers N X r e)); clear r.
  intros r IH e Hr He. rewrite (Hh r e), covers_unfold by done.
  assert (Hkid : forall c, c ∈ sys_children r -> h c (first_child e (sys_name c)) = true <->
    exists e', first_child e (sys_name c) = Some e' /\ covers N X c e').
  { intros c Hc. pose proof (tree_ok_child r c Hr Hc) as Hcok. split.
    - destruct (first_child e (sys_name c)) as [e'|] eqn:E; [|by rewrite Hnone]. intros H. exists e'. split; [done|].
      apply (IH c Hc); [done|by apply (first_child_tree_ok e _ _ He E)|done].
    - intros (e' & E & H). rewrite E. apply (IH c Hc); [done|by apply (first_child_tree_ok e _ _ He E)|done]. }
  split.
  - intros (Hd & Hn & Hrec). split_and!; [done|by apply Hnb| |].
    + intros c Hc Hno. destruct (sys_is_dir r) eqn:Er; [|rewrite (no_children_leaf e) in Hc by done; by apply not_elem_of_nil in Hc].
      apply Hxb; [by apply (tree_ok_child e)|]. by apply Hrec.
    + intros c Hc. destruct (sys_is_dir r) eqn:Er; [|rewrite (no_children_leaf r) in Hc by done; by apply not_elem_of_nil in Hc].
      apply Hkid; [done|]. by apply Hrec.
  - intros (Hd & Hn & Hx & Hkids). split_and!; [done|by apply Hnb|]. intros _. split.
    + intros c Hc Hno. apply Hxb; [by apply (tree_ok_child e)|auto].
    + intros c Hc. apply Hkid; auto.
Qed.
End walk.

(** ** The staged tree that completes a transfer *)

(** What a local leaf [y] must show to stand for the remote leaf [x]. *)
Definition leaf_proved (x y : SystemFile) : Prop :=
  sys_status_sidecar_ready y = false /\
  (if sys_is_staging y then leaf_matches_remote_collision_identity x y
   else leaf_matches_remote_queue_exclusion_identity x y) = true.

Definition node_proved (x y : SystemFile) : Prop :=
  sys_has_staging_collision y = false /\ (sys_is_dir x = false -> leaf_proved x y).

(** Known to be final, and without staged content anywhere below. *)
Definition known_final (c : SystemFile) : Prop :=
  sys_has_staging_origin c = Some false /\ forall q z, descend c q = Some z -> staging_ambiguity true z = false.

Lemma not_known_final_false c : tree_ok c -> not_known_final c = false <-> known_final c.
Proof.
  intros Hc. unfold not_known_final. rewrite orb_false_iff, negb_false_iff, bool_decide_eq_true, no_ambiguity by done. done.
Qed.

Lemma verify_all_spec vs saw :
  verify_all vs saw = if forallb fst vs then (true, saw || existsb snd vs) else (false, false).
Proof.
  revert saw. induction vs as [|[ok leaf] vs IH]; intros saw; [by destruct saw|]. destruct ok; [|done]. cbn.
  rewrite IH. destruct (forallb fst vs); [|done]. by rewrite orb_assoc.
Qed.

(** One level of [verify_staged], on trees with distinct names. *)
Lemma verify_staged_eq r e : tree_ok r -> tree_ok e ->
  verify_staged r (Some e) =
  if negb (Bool.eqb (sys_is_dir r) (sys_is_dir e)) || sys_has_staging_collision e then (false, false)
  else if negb (sys_is_dir r) then
    if sys_status_sidecar_ready e then (false, false)
    else if sys_is_staging e then (leaf_matches_remote_collision_identity r e, true)
    else (leaf_matches_remote_queue_exclusion_identity r e, false)
  else if bad_extra not_known_final (visits (sys_children_slot r) verify_staged) e then (false, false)
  else verify_all (map (fun c => verify_staged c (first_child e (sys_name c))) (sys_children r)) false.
Proof.
  intros Hr He. transitivity (
  if negb (Bool.eqb (sys_is_dir r) (sys_is_dir e)) || sys_has_staging_collision e then (false, false)
  else if negb (sys_is_dir r) then
    if sys_status_sidecar_ready e then (false, false)
    else if sys_is_staging e then (leaf_matches_remote_collision_identity r e, true)
    else (leaf_matches_remote_queue_exclusion_identity r e, false)
  else if bad_extra not_known_final (visits (sys_children_slot r) verify_staged) e then (false, false)
  else verify_all (map (fun nv => nv.2 (dget (children_by_name e) nv.1)) (visits (sys_children_slot r) verify_staged)) false).
  - by destruct r as [fl cs].
  - rewrite (visits_tree r verify_staged), List.map_map by done.
    destruct (_ || _); [done|]. destruct (negb (sys_is_dir r)); [done|]. destruct (bad_extra _ _ _); [done|]. f_equal.
    apply map_ext. intros c. simpl. by rewrite dget_children.
Qed.

Definition node_proved_b (r e : SystemFile) : bool :=
  negb (sys_has_staging_collision e) &&
  (sys_is_dir r ||
   negb (sys_status_sidecar_ready e) &&
   (if sys_is_staging e then leaf_matches_remote_collision_identity r e
    else leaf_matches_remote_queue_exclusion_identity r e)).

Lemma node_proved_b_iff r e : node_proved_b r e = true <-> node_proved r e.
Proof.
  unfold node_proved_b, node_proved, leaf_proved. rewrite andb_true_iff, negb_true_iff, orb_true_iff, andb_true_iff, negb_true_iff.
  apply and_iff_compat_l. destruct (sys_is_dir r); intuition congruence.
Qed.

Lemma verify_staged_step r e : tree_ok r -> tree_ok e ->
  (verify_staged r (Some e)).1 = true <->
  sys_is_dir e = sys_is_dir r /\ node_proved_b r e = true /\
  (sys_is_dir r = true -> extras_ok not_known_final r e /\
     forall c, c ∈ sys_children r -> (verify_staged c (first_child e (sys_name c))).1 = true).
Proof.
  intros Hr He. rewrite verify_staged_eq by done. unfold node_proved_b, extras_ok.
  destruct (Bool.eqb (sys_is_dir r) (sys_is_dir e)) eqn:Ed; cbn [negb orb];
    [apply Bool.eqb_prop in Ed|split; [done|]; intros (Hd & _); rewrite Hd, Bool.eqb_reflx in Ed; done].
  destruct (sys_has_staging_collision e); [split; [done|by intros (_ & ? & _)]|]. destruct (sys_is_dir r); cbn [negb orb andb].
  - rewrite <- (bad_extra_none verify_staged) by done. destruct (bad_extra _ _ _); [split; [done|]; by intros (_ & _ & H); destruct (H eq_refl)|].
    rewrite verify_all_spec, forallb_map, <- forallb_true. destruct (forallb _ _); intuition done.
  - destruct (sys_status_sidecar_ready e), (sys_is_staging e); intuition done.
Qed.

(** The walk verifies a tree exactly when it is complete. *)
Lemma verify_staged_iff r e : tree_ok r -> tree_ok e ->
  (verify_staged r (Some e)).1 = true <-> covers node_proved known_final r e.
Proof.
  apply (walk_covers node_proved known_final (fun r o => (verify_staged r o).1) node_proved_b not_known_final).
  - by intros [fl [l|]].
  - intros ? ? _. apply node_proved_b_iff.
  - apply not_known_final_false.
  - apply verify_staged_step.
Qed.

(** A remote leaf whose local counterpart is staged. *)
Definition has_staged_leaf (r e : SystemFile) : Prop :=
  exists p x y, descend r p = Some x /\ sys_is_dir x = false /\ descend e p = Some y /\ sys_is_staging y = true.

Lemma has_staged_leaf_unfold r e : tree_ok r -> sys_is_dir r = true ->
  has_staged_leaf r e <->
  exists c e', c ∈ sys_children r /\ first_child e (sys_name c) = Some e' /\ has_staged_leaf c e'.
Proof.
  intros Hr Hd. split.
  - intros ([|n p] & x & y & Hx & Hl & Hy & Hs); [injection Hx as <-; congruence|].
    rewrite descend_cons in Hx, Hy.
    destruct (first_child r n) as [c|] eqn:E; [|done]. apply first_child_Some in E as [Hc <-].
    destruct (first_child e (sys_name c)) as [e'|] eqn:E'; [|done]. exists c, e'. split_and!; [done|done|].
    exists p, x, y. done.
  - intros (c & e' & Hc & He' & p & x & y & Hx & Hl & Hy & Hs). exists (sys_name c :: p), x, y.
    rewrite descend_child, descend_cons, He' by done. done.
Qed.

Lemma verify_staged_saw r : forall e, tree_ok r -> tree_ok e -> (verify_staged r (Some e)).1 = true ->
  (verify_staged r (Some e)).2 = true <-> has_staged_leaf r e.
Proof.
  apply (tree_induction (fun r => forall e, tree_ok r -> tree_ok e -> (verify_staged r (Some e)).1 = true ->
    (verify_staged r (Some e)).2 = true <-> has_staged_leaf r e)); clear r.
  intros r IH e Hr He. rewrite verify_staged_eq by done.
  destruct (_ || _); [done|]. destruct (sys_is_dir r) eqn:Er; cbn [negb].
  - destruct (bad_extra _ _ _); [done|]. rewrite verify_all_spec, forallb_map, existsb_map, has_staged_leaf_unfold by done.
    destruct (forallb _ _) eqn:Ef; [|done]. intros _. cbn [snd orb]. rewrite forallb_true in Ef. rewrite existsb_exists.
    split.
    + intros (c & Hc%list_elem_of_In & Hs). destruct (first_child e (sys_name c)) as [e'|] eqn:E;
        [|destruct c as [? [?|]]; done].
      exists c, e'. split_and!; [done|done|]. specialize (Ef c Hc). rewrite E in Ef.
      apply (IH c Hc e'); [by apply (tree_ok_child r)|by apply (first_child_tree_ok e _ _ He E)|done|done].
    + intros (c & e' & Hc & E & Hs). exists c. split; [by apply list_elem_of_In|]. specialize (Ef c Hc).
      rewrite E in Ef |- *.
      apply (IH c Hc e'); [by apply (tree_ok_child r)|by apply (first_child_tree_ok e _ _ He E)|done|done].
  - intros Hok. split.
    + intros H. exists [], r, e. split_and!; [done|done|done|].
      destruct (sys_status_sidecar_ready e), (sys_is_staging e); cbn in H; congruence.
    + intros ([|n p] & x & y & Hx & _ & Hy & Hs); [|by rewrite descend_leaf in Hx].
      injection Hx as <-. injection Hy as <-. rewrite Hs. destruct (sys_status_sidecar_ready e) eqn:Ey; [|done].
      done.
Qed.

(** C18: A root is reported as a completely and verifiably staged copy of its
    remote tree exactly when every remote node has a local node of the same
    kind without collision metadata, every remote leaf has a local leaf
    without transfer sidecar whose size and raw modification time match at
    the precision its location allows, every local node beyond the remote
    tree is known to be final and free of staged content, and at least one
    remote leaf is staged. *)
Theorem staged_completion_exact r e : tree_ok r -> tree_ok e ->
  trees_have_verified_complete_staging_remote_identity (Some r) (Some e) = true <->
  covers node_proved known_final r e /\ has_staged_leaf r e.
Proof.
  intros Hr He. unfold trees_have_verified_complete_staging_remote_identity.
  rewrite <- verify_staged_iff by done. destruct (Bool.eqb (sys_is_dir r) (sys_is_dir e)) eqn:Ed; cbn [negb].
  - pose proof (verify_staged_saw r e Hr He) as Hsaw. destruct (verify_staged r (Some e)) as [ok saw]. simpl in *.
    rewrite andb_true_iff. split; [intros [Hok Hs]; rewrite <- (Hsaw Hok); done|].
    intros [Hok Hs]. by rewrite <- (Hsaw Hok) in Hs.
  - split; [done|]. rewrite verify_staged_eq, Ed by done. by intros [? _].
Qed.

(** A remote directory with a fractional modification time on its leaf, and
    the staged copy of it beside an extracted final file. *)
Definition sample (n : string) (size flags : Z) (ns : option Z) (kids : option (list SystemFile)) : SystemFile :=
  mkSys (mkSysFields n size flags None None ns None None) kids.

Definition sample_remote : SystemFile :=
  sample "show" 3 S_DIR None (Some [sample "a" 3 0 (Some 5000000007) None]).
Definition sample_final : SystemFile := sample "notes" 9 S_STAGING_ORIGIN_KNOWN (Some 8000000000) None.
Definition sample_staged : SystemFile :=
  sample "show" 12 (S_DIR + S_STAGING) None (Some [sample "a" 3 S_STAGING (Some 5000000000) None; sample_final]).

Lemma staged_completion_exact_witness :
  trees_have_verified_complete_staging_remote_identity (Some sample_remote) (Some sample_staged) = true /\
  covers node_proved known_final sample_remote sample_staged.
Proof.
  assert (H : trees_have_verified_complete_staging_remote_identity (Some sample_remote) (Some sample_staged) = true)
    by (vm_compute; reflexivity).
  split; [exact H|].
  apply (staged_completion_exact sample_remote sample_staged); [apply tree_okb_ok; vm_compute; reflexivity..|exact H].
Defined.

(** ** Weaker forms of coverage *)

(** At least the bytes of the remote leaf. *)
Definition leaf_filled (x y : SystemFile) : Prop := sys_is_dir x = false -> sys_size x <= sys_size y.
Definition node_filled (x y : SystemFile) : Prop := sys_has_staging_collision y = false /\ leaf_filled x y.

Definition no_staged_below (c : SystemFile) : Prop := forall q z, descend c q = Some z -> sys_is_staging z = false.
Definition no_staged_extra (c : SystemFile) : Prop := sys_has_staging_collision c = false /\ no_staged_below c.

Definition leaf_filled_b (x y : SystemFile) : bool := sys_is_dir x || (sys_size x <=? sys_size y).
Definition node_filled_b (x y : SystemFile) : bool := negb (sys_has_staging_collision y) && leaf_filled_b x y.

Lemma leaf_filled_b_iff x y : leaf_filled_b x y = true <-> leaf_filled x y.
Proof. unfold leaf_filled_b, leaf_filled. rewrite orb_true_iff, Z.leb_le. destruct (sys_is_dir x); intuition congruence. Qed.

Lemma node_filled_b_iff x y : node_filled_b x y = true <-> node_filled x y.
Proof. unfold node_filled_b, node_filled. by rewrite andb_true_iff, negb_true_iff, leaf_filled_b_iff. Qed.

Lemma no_staged_content c : tree_ok c -> staged_content c = false <-> no_staged_below c.
Proof.
  intros Hc. unfold staged_content, no_staged_below. rewrite orb_false_iff, <- no_staging by done. split; [by intros [_ ?]|].
  intros H. split; [|done]. by apply (no_staging c Hc) with (p := []) (x := c) in H.
Qed.

Lemma no_staged_or_colliding c : tree_ok c -> staged_or_colliding c = false <-> no_staged_extra c.
Proof. intros Hc. unfold staged_or_colliding, no_staged_extra, no_staged_below. by rewrite orb_false_iff, no_staging. Qed.

(** The recursive calls on the values of a dictionary of children. *)
Lemma forallb_visits (g : SystemFile -> option SystemFile -> bool) r e : tree_ok r -> tree_ok e ->
  forallb (fun nv => nv.2 (dget (children_by_name e) nv.1)) (visits (sys_children_slot r) g) = true <->
  forall c, c ∈ sys_children r -> g c (first_child e (sys_name c)) = true.
Proof.
  intros Hr He. rewrite visits_tree, forallb_map, forallb_true by done. apply forall_proper. intros c.
  simpl. by rewrite dget_children.
Qed.

Lemma dirs_agree r e : Bool.eqb (sys_is_dir r) (sys_is_dir e) = true <-> sys_is_dir e = sys_is_dir r.
Proof. rewrite Bool.eqb_true_iff. split; congruence. Qed.

Lemma cover_step r e : tree_ok r -> tree_ok e ->
  leaves_cover_remote r (Some e) = true <->
  sys_is_dir e = sys_is_dir r /\ node_filled_b r e = true /\
  (sys_is_dir r = true -> extras_ok staged_or_colliding r e /\
     forall c, c ∈ sys_children r -> leaves_cover_remote c (first_child e (sys_name c)) = true).
Proof.
  intros Hr He. unfold extras_ok, node_filled_b, leaf_filled_b.
  rewrite <- (bad_extra_none leaves_cover_remote), <- forallb_visits, <- dirs_agree by done.
  destruct r as [fl cs]. cbn [leaves_cover_remote sys_children_slot].
  destruct (Bool.eqb _ _), (sys_has_staging_collision e), (sys_is_dir (mkSys fl cs)), (bad_extra _ _ _); cbn; intuition done.
Qed.

Lemma allowing_step r e : tree_ok r -> tree_ok e ->
  leaves_covered_allowing_collision r (Some e) = true <->
  sys_is_dir e = sys_is_dir r /\ leaf_filled_b r e = true /\
  (sys_is_dir r = true -> extras_ok staged_content r e /\
     forall c, c ∈ sys_children r -> leaves_covered_allowing_collision c (first_child e (sys_name c)) = true).
Proof.
  intros Hr He. unfold extras_ok, leaf_filled_b.
  rewrite <- (bad_extra_none leaves_covered_allowing_collision), <- forallb_visits, <- dirs_agree by done.
  destruct r as [fl cs]. cbn [leaves_covered_allowing_collision sys_children_slot].
  destruct (Bool.eqb _ _), (sys_is_dir (mkSys fl cs)), (bad_extra _ _ _); cbn; intuition done.
Qed.

Lemma presented_step r e : tree_ok r -> tree_ok e ->
  leaves_presented r (Some e) = true <->
  sys_is_dir e = sys_is_dir r /\ node_filled_b r e = true /\
  (sys_is_dir r = true -> extras_ok (fun _ => false) r e /\
     forall c, c ∈ sys_children r -> leaves_presented c (first_child e (sys_name c)) = true).
Proof.
  intros Hr He. unfold extras_ok, node_filled_b, leaf_filled_b. rewrite <- dirs_agree.
  assert (Hk : forallb id (over_children (sys_children_slot r) (fun c => leaves_presented c (dget (children_by_name e) (sys_name c)))) = true <->
    forall c, c ∈ sys_children r -> leaves_presented c (first_child e (sys_name c)) = true).
  { rewrite over_children_map, forallb_map, forallb_true. apply forall_proper. intros c. unfold id. by rewrite dget_children. }
  rewrite <- Hk. destruct r as [fl cs]. cbn [leaves_presented sys_children_slot].
  destruct (Bool.eqb _ _), (sys_has_staging_collision e), (sys_is_dir (mkSys fl cs)); cbn; intuition done.
Qed.

Lemma cover_iff r e : tree_ok r -> tree_ok e -> leaves_cover_remote r (Some e) = true <-> covers node_filled no_staged_extra r e.
Proof.
  apply (walk_covers node_filled no_staged_extra leaves_cover_remote node_filled_b staged_or_colliding).
  - by intros [fl [l|]].
  - intros ? ? _. apply node_filled_b_iff.
  - apply no_staged_or_colliding.
  - apply cover_step.
Qed.

Lemma allowing_iff r e : tree_ok r -> tree_ok e ->
  leaves_covered_allowing_collision r (Some e) = true <-> covers leaf_filled no_staged_below r e.
Proof.
  apply (walk_covers leaf_filled no_staged_below leaves_covered_allowing_collision leaf_filled_b staged_content).
  - by intros [fl [l|]].
  - intros ? ? _. apply leaf_filled_b_iff.
  - apply no_staged_content.
  - apply allowing_step.
Qed.

Lemma presented_iff r e : tree_ok r -> tree_ok e -> leaves_presented r (Some e) = true <-> covers node_filled (fun _ => True) r e.
Proof.
  apply (walk_covers node_filled (fun _ => True) leaves_presented node_filled_b (fun _ => false)).
  - by intros [fl [l|]].
  - intros ? ? _. apply node_filled_b_iff.
  - done.
  - apply presented_step.
Qed.

(** The three recursive coverage checks mean what they are used for: the
    completion check holds exactly when every remote node has a local
    counterpart of its kind without collision metadata, every remote leaf a
    local leaf with at least its bytes, and no local child beyond the remote
    tree is colliding or holds staged content; the presentation check drops
    the condition on extra children, and the terminal check drops the one on
    collision metadata. *)
Theorem coverage_exact r e : tree_ok r -> tree_ok e ->
  (directory_leaves_cover_remote (Some r) (Some e) = true <-> covers node_filled no_staged_extra r e) /\
  (directory_leaves_cover_remote_for_presentation (Some r) (Some e) = true <-> covers node_filled (fun _ => True) r e) /\
  (effective_local_tree_covers_remote_leaves_allowing_collision (Some r) (Some e) = true <->
     covers leaf_filled no_staged_below r e).
Proof. intros Hr He. split_and!; [by apply cover_iff|by apply presented_iff|by apply allowing_iff]. Qed.

Lemma coverage_exact_witness :
  directory_leaves_cover_remote (Some sample_remote) (Some sample_staged) = true /\
  covers node_filled no_staged_extra sample_remote sample_staged.
Proof.
  assert (H : directory_leaves_cover_remote (Some sample_remote) (Some sample_staged) = true) by (vm_compute; reflexivity).
  split; [exact H|].
  apply (coverage_exact sample_remote sample_staged); [apply tree_okb_ok; vm_compute; reflexivity..|exact H].
Defined.

Lemma leaf_times_Some x y l r : leaf_times x y = Some (l, r) -> sys_size y = sys_size x.
Proof. unfold leaf_times. destruct (Z.eqb_spec (sys_size y) (sys_size x)); [done|]. by rewrite andb_false_r. Qed.

Lemma leaf_proved_size x y : leaf_proved x y -> sys_size y = sys_size x.
Proof.
  unfold leaf_proved, leaf_matches_remote_collision_identity, leaf_matches_remote_queue_exclusion_identity. intros [_ H].
  destruct (leaf_times x y) as [[l r]|] eqn:E; [by eapply leaf_times_Some|]. rewrite andb_false_r in H. by destruct (sys_is_staging y).
Qed.

Lemma node_proved_filled x y : node_proved x y -> node_filled x y.
Proof. intros [Hc Hl]. split; [done|]. intros Hd. rewrite (leaf_proved_size x y); [done|auto]. Qed.

Lemma known_final_no_staged c : known_final c -> no_staged_extra c.
Proof.
  intros [_ H]. split.
  - specialize (H [] c eq_refl). unfold staging_ambiguity in H. rewrite !orb_false_iff in H. tauto.
  - intros q z Hz%H. unfold staging_ambiguity in Hz. rewrite !orb_false_iff in Hz. tauto.
Qed.

(** The proof required before an automatic move is at least as strong as
    every weaker completion check: a verified staged copy also counts as
    complete coverage, as terminal coverage and for presentation, retires the
    transfer's snapshot whatever progress it retained, and has no collision
    on any remote path. *)
Theorem staged_completion_implies_coverage r e retained : tree_ok r -> tree_ok e -> sys_is_dir r = true ->
  trees_have_verified_complete_staging_remote_identity (Some r) (Some e) = true ->
  effective_local_tree_proves_completion (Some r) (Some e) = true /\
  effective_local_tree_covers_remote_leaves_allowing_collision (Some r) (Some e) = true /\
  directory_leaves_cover_remote_for_presentation (Some r) (Some e) = true /\
  local_transfer_snapshot_is_caught_up (Some e) (Some r) retained = true /\
  (forall p x, descend r p = Some x -> collided_on e p = false).
Proof.
  intros Hr He Hdir H. unfold trees_have_verified_complete_staging_remote_identity in H.
  destruct (Bool.eqb (sys_is_dir r) (sys_is_dir e)) eqn:Ed; [|done]. cbn [negb] in H.
  assert (Hv : covers node_proved known_final r e).
  { apply verify_staged_iff; [done|done|]. destruct (verify_staged r (Some e)) as [[] []]; done. }
  assert (Hc : covers node_filled no_staged_extra r e).
  { eapply covers_mono, Hv; [apply node_proved_filled|apply known_final_no_staged]. }
  assert (Hcov : leaves_cover_remote r (Some e) = true) by (by apply cover_iff).
  assert (Heff : effective_local_tree_proves_completion (Some r) (Some e) = true).
  { unfold effective_local_tree_proves_completion, directory_leaves_cover_remote. rewrite Ed, Hdir, Hcov.
    destruct (cv_nodes _ _ _ _ Hc [] r eq_refl) as (y & [= <-] & _ & [-> _]). done. }
  split_and!; [done| | | |].
  - apply allowing_iff; [done|done|]. eapply covers_mono, Hc; [by intros ? ? [_ ?]|by intros ? [_ ?]].
  - apply presented_iff; [done|done|]. eapply covers_mono, Hc; done.
  - unfold local_transfer_snapshot_is_caught_up. by rewrite Hdir, Heff.
  - clear -Hv. intros p. revert r e Hv. induction p as [|n p IH]; intros r e Hv x Hx;
      destruct (cv_nodes _ _ _ _ Hv [] r eq_refl) as (y & [= <-] & _ & [Hcol _]); simpl; rewrite Hcol; [done|].
    destruct (first_child e n) as [e'|] eqn:E; [|done]. rewrite descend_cons in Hx.
    destruct (first_child r n) as [r'|] eqn:E'; [|done]. apply (IH r' e') with (x := x); [|done]. split.
    + intros q z Hz. destruct (cv_nodes _ _ _ _ Hv (n :: q) z) as (y & Hy & H'); [by rewrite descend_cons, E'|].
      rewrite descend_cons, E in Hy. eauto.
    + intros q d m y Hd Hno Hy. apply (cv_extras _ _ _ _ Hv (n :: q) d m); [by rewrite descend_cons, E'|done|].
      cbn [app]. by rewrite descend_cons, E.
Qed.

Lemma staged_completion_implies_coverage_witness :
  trees_have_verified_complete_staging_remote_identity (Some sample_remote) (Some sample_staged) = true /\
  effective_local_tree_proves_completion (Some sample_remote) (Some sample_staged) = true.
Proof.
  assert (H : trees_have_verified_complete_staging_remote_identity (Some sample_remote) (Some sample_staged) = true)
    by (vm_compute; reflexivity).
  split; [exact H|].
  apply (staged_completion_implies_coverage sample_remote sample_staged None);
    [apply tree_okb_ok; vm_compute; reflexivity..|reflexivity|exact H].
Defined.
