(* ===== verification/ScanInputsFacts.v ===== *)
(** * Queries of the scans: relative paths, leaves, buckets *)

From S2P Require Import Prelude PyDict PyStr Json SystemFile ModelFile ModelFileFacts TransferEvidence ScanInputs TransferEvidenceFacts.

(** ** Relative paths *)

Definition rel_from (relative : string) (p : list string) : string := fold_left child_relative p relative.
Definition rel_path (p : list string) : string := rel_from "" p.

Definition tail_chars (p : list string) : list ascii := concat (map (fun n => slash :: chars n) p).

Lemma rel_from_chars p : forall s, s <> "" -> chars (rel_from s p) = chars s ++ tail_chars p.
Proof.
  induction p as [|n p IH]; intros s Hs; [by rewrite app_nil_r|]. cbn [rel_from fold_left]. fold (rel_from (child_relative s n) p).
  unfold child_relative. rewrite (proj2 (String.eqb_neq s "") Hs).
  rewrite IH by (intros H%(f_equal chars); rewrite chars_app in H; apply app_eq_nil in H as [H _]; by apply chars_nil in H).
  rewrite !chars_app. cbn [tail_chars concat map]. by rewrite <- !app_assoc.
Qed.

Lemma rel_path_chars n p : n <> "" -> chars (rel_path (n :: p)) = chars n ++ tail_chars p.
Proof. intros Hn. unfold rel_path. cbn [rel_from fold_left]. by apply rel_from_chars. Qed.

Lemma split_tail p : forall l, slash ∉ l -> Forall name_ok p -> split_chars slash [] (l ++ tail_chars p) = l :: map chars p.
Proof.
  induction p as [|n p IH]; intros l Hl Hp; [rewrite app_nil_r; by apply split_chars_last|].
  apply Forall_cons in Hp as [(_ & Hs & _) Hp]. cbn [tail_chars concat map app].
  rewrite (split_chars_app slash l (chars n ++ tail_chars p)) by done. by rewrite IH.
Qed.

(** A relative path splits into the names it was built from. *)
Lemma split_rel_path p : p <> [] -> Forall name_ok p -> split slash (rel_path p) = p.
Proof.
  destruct p as [|n p]; [done|]. intros _ Hp. pose proof Hp as [(Hn & Hs & _) Hp']%Forall_cons.
  unfold split. rewrite rel_path_chars, split_tail by done. cbn [map]. rewrite str_chars. f_equal.
  clear. induction p as [|m p IH]; [done|]. cbn [map]. by rewrite str_chars, IH.
Qed.

(** ... and the components of a path without empty ones build it again. *)
Lemma rel_path_split s : has_empty (split slash s) = false -> rel_path (split slash s) = s.
Proof.
  unfold split. destruct (split_chars_back slash (chars s) []) as (h & t & E1 & E2). rewrite E1. cbn [map]. simpl in E2.
  unfold has_empty. cbn [existsb]. rewrite orb_false_iff. intros [Hn%String.eqb_neq _].
  apply chars_inj. rewrite rel_path_chars, chars_str, E2 by done. f_equal. unfold tail_chars. rewrite List.map_map.
  f_equal. apply map_ext. intros l. by rewrite chars_str.
Qed.

Lemma contains_char s c : contains s (str [c]) = true <-> c ∈ chars s.
Proof.
  unfold contains. rewrite chars_str. induction (chars s) as [|x l IH]; cbn [infix_of prefix_of].
  - split; [done|]. by intros ?%not_elem_of_nil.
  - rewrite orb_true_iff, IH, andb_true_r, Ascii.eqb_eq, elem_of_cons. done.
Qed.

Lemma rel_path_clean p : p <> [] -> Forall name_ok p ->
  String.eqb (rel_path p) "" = false /\ contains (rel_path p) "\" = false.
Proof.
  destruct p as [|n p]; [done|]. intros _ Hp. pose proof Hp as [(Hn & _ & Hb) Hp']%Forall_cons. split.
  - apply String.eqb_neq. intros H%(f_equal chars). rewrite rel_path_chars in H by done. apply app_eq_nil in H as [H _].
    by apply chars_nil in H.
  - apply not_true_is_false. intros H%(contains_char _ backslash). rewrite rel_path_chars in H by done.
    apply elem_of_app in H as [H|H]; [done|]. clear Hp Hb. induction p as [|m p IH]; [by apply not_elem_of_nil in H|].
    apply Forall_cons in Hp' as [(_ & _ & Hm) Hp']. cbn [tail_chars concat map app] in H.
    apply elem_of_cons in H as [H|H]; [done|]. apply elem_of_app in H as [H|H]; auto.
Qed.

Lemma rel_path_inj p q : p <> [] -> q <> [] -> Forall name_ok p -> Forall name_ok q -> rel_path p = rel_path q -> p = q.
Proof. intros Hp Hq Np Nq E. rewrite <- (split_rel_path p), <- (split_rel_path q) by done. by rewrite E. Qed.

(** ** Pairs of leaves *)

(** A remote and a local leaf at one path, with no collision on the way. *)
Definition leaf_pair (remote local : SystemFile) (p : list string) (r l : SystemFile) : Prop :=
  descend remote p = Some r /\ descend local p = Some l /\ sys_is_dir r = false /\ sys_is_dir l = false /\
  collided_on local p = false.

Lemma leaf_pair_nil remote local r l :
  leaf_pair remote local [] r l <->
  r = remote /\ l = local /\ sys_is_dir remote = false /\ sys_is_dir local = false /\ sys_has_staging_collision local = false.
Proof.
  unfold leaf_pair. cbn [descend collided_on]. rewrite orb_false_r. split.
  - intros ([= <-] & [= <-] & ?). done.
  - intros (-> & -> & ?). done.
Qed.

Lemma leaf_pair_cons remote local n p r l : tree_ok remote -> tree_ok local ->
  leaf_pair remote local (n :: p) r l <->
  sys_is_dir remote = true /\ sys_is_dir local = true /\ sys_has_staging_collision local = false /\
  exists r' l', first_child remote n = Some r' /\ first_child local n = Some l' /\ leaf_pair r' l' p r l.
Proof.
  intros Hr Hl. unfold leaf_pair. rewrite !descend_cons. cbn [collided_on]. rewrite orb_false_iff. split.
  - intros (Er & El & ? & ? & Hc & Hp). destruct (first_child remote n) as [r'|] eqn:Fr; [|done].
    destruct (first_child local n) as [l'|] eqn:Fl; [|done].
    split_and!; [by apply (child_is_dir remote n r')|by apply (child_is_dir local n l')|done|]. exists r', l'. done.
  - intros (_ & _ & Hc & r' & l' & -> & -> & ? & ? & ? & ? & ?). done.
Qed.

(** The shape of both walks: at two leaves one path if the test succeeds, at
    two directories what the common children give. *)
Section pairs.
Context (ok : SystemFile -> SystemFile -> string -> bool).

Definition found (remote local : SystemFile) (relative : string) (ancestor : bool) (x : string) : Prop :=
  exists p r l, x = rel_from relative p /\ ancestor = false /\ leaf_pair remote local p r l /\ ok r l x = true.

Lemma found_leaf remote local relative ancestor x : tree_ok remote -> tree_ok local ->
  sys_is_dir remote = false -> sys_is_dir local = false ->
  found remote local relative ancestor x <->
  x = relative /\ ancestor || sys_has_staging_collision local = false /\ ok remote local relative = true.
Proof.
  intros Hr Hl Dr Dl. rewrite orb_false_iff. split.
  - intros ([|n p] & r & l & Hx & Ha & Hp & Hok).
    + apply leaf_pair_nil in Hp as (-> & -> & _ & _ & Hc). simpl in Hx. by subst.
    + apply leaf_pair_cons in Hp as (? & _); [congruence|done|done].
  - intros (-> & [-> Hc] & Hok). exists [], remote, local. by rewrite leaf_pair_nil.
Qed.

Lemma found_dir remote local relative ancestor x : tree_ok remote -> tree_ok local ->
  sys_is_dir remote = true -> sys_is_dir local = true ->
  found remote local relative ancestor x <->
  exists n r l, first_child remote n = Some r /\ first_child local n = Some l /\
    found r l (child_relative relative n) (ancestor || sys_has_staging_collision local) x.
Proof.
  intros Hr Hl Dr Dl. split.
  - intros ([|n p] & r & l & Hx & Ha & Hp & Hok).
    + apply leaf_pair_nil in Hp as (_ & _ & ? & _). congruence.
    + apply leaf_pair_cons in Hp as (_ & _ & Hc & r' & l' & Fr & Fl & Hp); [|done|done]. exists n, r', l'. split_and!; [done|done|].
      exists p, r, l. rewrite Ha, Hc. done.
  - intros (n & r' & l' & Fr & Fl & p & r & l & Hx & [Ha Hc]%orb_false_iff & Hp & Hok).
    exists (n :: p), r, l. split_and!; [done|done| |done]. apply leaf_pair_cons; [done|done|]. split_and!; [done|done|done|]. eauto.
Qed.

Lemma found_mixed remote local relative ancestor x : tree_ok remote -> tree_ok local ->
  sys_is_dir remote <> sys_is_dir local -> ~ found remote local relative ancestor x.
Proof.
  intros Hr Hl Hd ([|n p] & r & l & _ & _ & Hp & _).
  - apply leaf_pair_nil in Hp as (_ & _ & ? & ? & _). congruence.
  - apply leaf_pair_cons in Hp as (? & ? & _); [congruence|done|done].
Qed.
End pairs.

Definition trusted_ok (r l : SystemFile) (_ : string) : bool := leaf_matches_remote_queue_exclusion_identity r l.

Lemma trusted_paths_eq remote local relative ancestor :
  trusted_paths remote local relative ancestor =
  if negb (Bool.eqb (sys_is_dir remote) (sys_is_dir local)) then []
  else if negb (sys_is_dir remote) then
    if leaf_matches_remote_queue_exclusion_identity remote local && negb (ancestor || sys_has_staging_collision local)
    then [relative] else []
  else concat (map (fun c =>
    match dget (children_by_name remote) (sys_name c) with
    | None => []
    | Some r => trusted_paths r c (child_relative relative (sys_name c)) (ancestor || sys_has_staging_collision local)
    end) (sys_children local)).
Proof. by destruct local as [fl [l|]]. Qed.

Lemma trusted_paths_found local : forall remote relative ancestor x, tree_ok remote -> tree_ok local ->
  x ∈ trusted_paths remote local relative ancestor <-> found trusted_ok remote local relative ancestor x.
Proof.
  apply (tree_induction (fun local => forall remote relative ancestor x, tree_ok remote -> tree_ok local ->
    x ∈ trusted_paths remote local relative ancestor <-> found trusted_ok remote local relative ancestor x)); clear local.
  intros local IH remote relative ancestor x Hr Hl. rewrite trusted_paths_eq.
  destruct (Bool.eqb (sys_is_dir remote) (sys_is_dir local)) eqn:Ed; cbn [negb].
  2:{ split; [by intros ?%not_elem_of_nil|]. intros H. exfalso. revert H. apply found_mixed; [done|done|].
      intros E. rewrite E, Bool.eqb_reflx in Ed. done. }
  apply Bool.eqb_prop in Ed. destruct (sys_is_dir remote) eqn:Dr; cbn [negb].
  - rewrite elem_of_concat_map, found_dir by done. split.
    + intros (c & Hc & Hx). rewrite dget_children in Hx by done.
      destruct (first_child remote (sys_name c)) as [r|] eqn:E; [|by apply not_elem_of_nil in Hx].
      exists (sys_name c), r, c. split_and!; [done|by apply first_child_name|].
      apply IH; [done|by apply (first_child_tree_ok remote _ _ Hr E)|by apply (tree_ok_child local)|done].
    + intros (n & r & l & Fr & Fl & Hx). pose proof Fl as [Hc <-]%first_child_Some. exists l. split; [done|].
      rewrite dget_children, Fr by done. apply IH; [done|by apply (first_child_tree_ok remote _ _ Hr Fr)|by apply (tree_ok_child local)|done].
  - rewrite found_leaf by done. unfold trusted_ok. destruct (leaf_matches_remote_queue_exclusion_identity remote local); cbn [andb];
      [|split; [by intros ?%not_elem_of_nil|by intros (_ & _ & ?)]].
    destruct (ancestor || _); cbn [negb]; [split; [by intros ?%not_elem_of_nil|by intros (_ & ? & _)]|].
    rewrite list_elem_of_singleton. naive_solver.
Qed.

Definition candidate_ok (r l : SystemFile) (x : string) : bool :=
  negb (String.eqb x "") && negb (contains x "\") && sys_is_staging l && negb (sys_status_sidecar_ready l) &&
  leaf_matches_remote_collision_identity r l.

Lemma candidate_paths_eq remote local relative ancestor :
  candidate_paths remote (Some local) relative ancestor =
  if negb (Bool.eqb (sys_is_dir remote) (sys_is_dir local)) then []
  else if negb (sys_is_dir remote) then
    if negb (String.eqb relative "") && negb (contains relative "\") && negb (ancestor || sys_has_staging_collision local) &&
       sys_is_staging local && negb (sys_status_sidecar_ready local) && leaf_matches_remote_collision_identity remote local
    then [relative] else []
  else concat (map (fun c =>
    candidate_paths c (dget (children_by_name local) (sys_name c)) (child_relative relative (sys_name c))
      (ancestor || sys_has_staging_collision local)) (sys_children remote)).
Proof. by destruct remote as [fl [l|]]. Qed.

Lemma candidate_paths_None remote relative ancestor : candidate_paths remote None relative ancestor = [].
Proof. by destruct remote. Qed.

Lemma candidate_paths_found remote : forall local relative ancestor x, tree_ok remote -> tree_ok local ->
  x ∈ candidate_paths remote (Some local) relative ancestor <-> found candidate_ok remote local relative ancestor x.
Proof.
  apply (tree_induction (fun remote => forall local relative ancestor x, tree_ok remote -> tree_ok local ->
    x ∈ candidate_paths remote (Some local) relative ancestor <-> found candidate_ok remote local relative ancestor x)); clear remote.
  intros remote IH local relative ancestor x Hr Hl. rewrite candidate_paths_eq.
  destruct (Bool.eqb (sys_is_dir remote) (sys_is_dir local)) eqn:Ed; cbn [negb].
  2:{ split; [by intros ?%not_elem_of_nil|]. intros H. exfalso. revert H. apply found_mixed; [done|done|].
      intros E. rewrite E, Bool.eqb_reflx in Ed. done. }
  apply Bool.eqb_prop in Ed. destruct (sys_is_dir remote) eqn:Dr; cbn [negb].
  - rewrite elem_of_concat_map, found_dir by done. split.
    + intros (c & Hc & Hx). rewrite dget_children in Hx by done.
      destruct (first_child local (sys_name c)) as [l|] eqn:E; [|rewrite candidate_paths_None in Hx; by apply not_elem_of_nil in Hx].
      exists (sys_name c), c, l. split_and!; [by apply first_child_name|done|].
      apply IH; [done|by apply (tree_ok_child remote)|by apply (first_child_tree_ok local _ _ Hl E)|done].
    + intros (n & r & l & Fr & Fl & Hx). pose proof Fr as [Hc <-]%first_child_Some. exists r. split; [done|].
      rewrite dget_children, Fl by done. apply IH; [done|by apply (tree_ok_child remote)|by apply (first_child_tree_ok local _ _ Hl Fl)|done].
  - rewrite found_leaf by done. unfold candidate_ok.
    destruct (ancestor || _), (String.eqb relative ""), (contains relative "\"), (sys_is_staging local),
      (sys_status_sidecar_ready local), (leaf_matches_remote_collision_identity remote local); cbn [andb negb];
      rewrite ?list_elem_of_singleton; try (split; [by intros ?%not_elem_of_nil|naive_solver]). naive_solver.
Qed.

(** ** Root identifiers *)

Lemma parse_value_str n s r : parse_value (S n) (json_str_chars s ++ r) = Some (JStr s, r).
Proof.
  change (json_str_chars s ++ r) with (quote :: (tail (json_str_chars s) ++ r)). cbn [parse_value].
  change (ord quote =? 34) with true. cbn [andb]. by rewrite json_str_unesc, str_chars.
Qed.

Lemma skip_str s r : skip (json_str_chars s ++ r) = json_str_chars s ++ r.
Proof. exact (skip_head quote _ eq_refl). Qed.

Lemma parse_item_str n s r : parse_items (S (S n)) (json_str_chars s ++ "]"%char :: r) = Some ([JStr s], r).
Proof. remember (S n) as m eqn:Em. cbn [parse_items]. rewrite Em, parse_value_str. reflexivity. Qed.

Lemma parse_items_str n s k r vs r' : parse_items (S n) (json_str_chars k ++ r) = Some (vs, r') ->
  parse_items (S (S n)) (json_str_chars s ++ ","%char :: json_str_chars k ++ r) = Some (JStr s :: vs, r').
Proof.
  intros H. remember (S n) as m eqn:Em. cbn [parse_items]. rewrite Em, parse_value_str, <- Em.
  rewrite skip_head by reflexivity. change (ord "," =? 93) with false. change (ord "," =? 44) with true. cbv iota.
  by rewrite skip_str, H.
Qed.

Lemma parse_pair n p path :
  parse_value (S (S (S (S n)))) ("["%char :: json_str_chars p ++ ","%char :: json_str_chars path ++ ["]"%char]) =
  Some (JArr [JStr p; JStr path], []).
Proof.
  remember (S (S (S n))) as m eqn:Em. cbn [parse_value]. change (ord "[" =? 34) with false.
  change (ord "[" =? 91) with true. cbv iota. rewrite skip_str.
  change (json_str_chars p ++ ","%char :: json_str_chars path ++ ["]"%char])
    with (quote :: (tail (json_str_chars p) ++ ","%char :: json_str_chars path ++ ["]"%char])).
  change (ord quote =? 93) with false. cbv iota.
  change (quote :: (tail (json_str_chars p) ++ ","%char :: json_str_chars path ++ ["]"%char]))
    with (json_str_chars p ++ ","%char :: json_str_chars path ++ ["]"%char]).
  rewrite Em. by rewrite (parse_items_str (S n) p path ["]"%char] _ _ (parse_item_str n path [])).
Qed.

(** The identifier of a scoped root names its pair. *)
Lemma file_id_pair name p : file_id_path_pair_id (root_file_id name (Some p)) = Some p.
Proof.
  unfold file_id_path_pair_id, root_file_id, build_file_id, loads. rewrite chars_str.
  rewrite <- length_chars, chars_str, skip_head by reflexivity.
  destruct (length _) as [|[|[|n]]] eqn:E.
  1-3: exfalso; revert E; unfold json_str_chars; cbn [length app]; rewrite ?length_app; cbn [length]; rewrite ?length_app; cbn; lia.
  by rewrite parse_pair.
Qed.

(** ** Buckets *)

(** An unscoped root whose name is not the identifier of a scoped one. *)
Definition root_named (r : scan_root) : Prop :=
  sys_pair_id (root_file r) = None -> file_id_path_pair_id (sys_name (root_file r)) = None.

Definition buckets_ok (bs : buckets) : Prop :=
  dwf bs /\ forall pair d, dget bs pair = Some d -> dwf d /\ forall fid r, dget d fid = Some r ->
    file_id_path_pair_id fid = pair /\ fid = root_file_id (sys_name (root_file r)) pair /\ sys_pair_id (root_file r) = pair.

Lemma root_file_id_pair r : root_named r ->
  file_id_path_pair_id (root_file_id (sys_name (root_file r)) (sys_pair_id (root_file r))) = sys_pair_id (root_file r).
Proof. unfold root_named. destruct (sys_pair_id (root_file r)); [intros _; apply file_id_pair|auto]. Qed.

Lemma buckets_ok_nil : buckets_ok [].
Proof. split; [apply dwf_nil|done]. Qed.

Lemma bucket_file_ok bs r : buckets_ok bs -> root_named r -> buckets_ok (bucket_file bs r).
Proof.
  intros [Hwf Hbs] Hr. unfold bucket_file. split; [by apply dwf_dset|]. intros pair d. rewrite dget_dset.
  case_decide as E; [|apply Hbs]. intros [= <-].
  assert (Hd : dwf (default [] (dget bs (sys_pair_id (root_file r))))).
  { destruct (dget bs _) as [d|] eqn:Ed; [apply (Hbs _ d Ed)|apply dwf_nil]. }
  split; [by apply dwf_dset|]. intros fid r'. rewrite dget_dset. case_decide as E'.
  - intros [= <-]. subst fid pair. split_and!; [by apply root_file_id_pair|done|done].
  - subst pair. destruct (dget bs _) as [d|] eqn:Ed; [|done]. apply (Hbs _ d Ed).
Qed.

Lemma bucket_files_ok files : Forall root_named files -> buckets_ok (bucket_files files).
Proof.
  unfold bucket_files. intros Hf. assert (H : buckets_ok []) by apply buckets_ok_nil. revert H. generalize ([] : buckets).
  induction Hf as [|r files Hr Hf' IH]; intros bs Hbs; [done|]. simpl. apply IH. by apply bucket_file_ok.
Qed.

Lemma concat_vals_elem (bs : buckets) fid r : buckets_ok bs ->
  (fid, r) ∈ concat (dvals bs) <-> exists d, dget bs (file_id_path_pair_id fid) = Some d /\ dget d fid = Some r.
Proof.
  intros [Hwf Hbs]. unfold dvals. rewrite elem_of_concat_map. split.
  - intros ([pair d] & Hin & Hr). apply dget_elem_of in Hin; [|done]. destruct (Hbs _ _ Hin) as [Hd Hf]. simpl in Hr.
    apply dget_elem_of in Hr; [|done]. destruct (Hf _ _ Hr) as (-> & _). eauto.
  - intros (d & Hd & Hr). exists (file_id_path_pair_id fid, d). split; [by apply dget_elem_of|].
    simpl. apply dget_elem_of; [apply (Hbs _ _ Hd)|done].
Qed.

Lemma concat_vals_wf (bs : buckets) : buckets_ok bs -> dwf (concat (dvals bs)).
Proof.
  intros [Hwf Hbs]. unfold dwf, dkeys in *. unfold dvals.
  assert (Hall : forall pair d, (pair, d) ∈ bs -> NoDup (map fst d) /\ forall fid, fid ∈ map fst d -> file_id_path_pair_id fid = pair).
  { intros pair d Hin. apply dget_elem_of in Hin; [|done]. destruct (Hbs _ _ Hin) as [Hd Hf]. split; [done|].
    intros fid Hfid. apply dget_is_Some in Hfid as [r Hr]. by destruct (Hf _ _ Hr). }
  clear Hbs. induction bs as [|[pair d] bs IH]; [constructor|]. cbn [map fst snd concat] in *.
  apply NoDup_cons in Hwf as [Hpair Hwf]. rewrite map_app. apply NoDup_app. split_and!.
  - apply (Hall pair). by left.
  - intros fid Hf Hrest. apply Hpair. apply (Hall pair d) in Hf; [|by left]. subst pair.
    apply list_elem_of_fmap in Hrest as ([fid' r] & -> & Hin). apply elem_of_concat_map in Hin as ([pair d'] & Hin & Hr).
    simpl in Hr |- *. rewrite (proj2 (Hall pair d' (list_elem_of_further _ _ _ Hin)) fid'); [|apply list_elem_of_fmap; by exists (fid', r)].
    apply list_elem_of_fmap. by exists (pair, d').
  - apply IH; [done|]. intros pair' d' Hin. apply Hall. by right.
Qed.

(** The flattened view and the per-pair lookup agree. *)
Lemma flatten_get bs fid : buckets_ok bs -> dget (flatten_buckets bs) fid = bucket_get bs fid.
Proof.
  intros Hbs. unfold flatten_buckets, bucket_get. rewrite dfrom_id by (by apply concat_vals_wf).
  apply option_eq. intros r. rewrite dget_elem_of, concat_vals_elem by (try apply concat_vals_wf; done).
  destruct (dget bs (file_id_path_pair_id fid)) as [d|]; simpl.
  - split; [intros (? & [= <-] & ?); done|eauto].
  - split; [by intros (? & ? & _)|done].
Qed.

Definition root_id (r : scan_root) : string := root_file_id (sys_name (root_file r)) (sys_pair_id (root_file r)).

Lemma bucket_get_file bs r fid : root_named r ->
  bucket_get (bucket_file bs r) fid = if decide (fid = root_id r) then Some r else bucket_get bs fid.
Proof.
  intros Hr. unfold bucket_get, bucket_file. fold (root_id r). rewrite dget_dset.
  destruct (decide (fid = root_id r)) as [->|Hne].
  - unfold root_id. rewrite root_file_id_pair by done. rewrite decide_True by done. cbn [default from_option id].
    apply dget_dset_eq.
  - case_decide as E; [|done]. cbn [default from_option id]. rewrite dget_dset_ne by congruence. by rewrite E.
Qed.

Lemma single_bucket r fid : root_named r ->
  bucket_get (bucket_files [r]) fid = if decide (fid = root_id r) then Some r else None.
Proof. intros Hr. unfold bucket_files. cbn [fold_left]. by rewrite bucket_get_file. Qed.

(** The builder's source buckets implement one map from root identifiers
    to scanned roots: the lookup through the path pair an identifier names and
    the lookup in the flattened view both give the last scanned root with that
    identifier, whatever mixture of path pairs the scan delivered. *)
Theorem source_buckets_refine_map files fid : Forall root_named files ->
  bucket_get (bucket_files files) fid = last (filter (fun r => root_id r = fid) files) /\
  dget (flatten_buckets (bucket_files files)) fid = last (filter (fun r => root_id r = fid) files).
Proof.
  intros Hf. rewrite flatten_get by (by apply bucket_files_ok).
  assert (bucket_get (bucket_files files) fid = last (filter (fun r => root_id r = fid) files)) as ->; [|done].
  induction files as [|r files IH] using rev_ind; [done|]. apply Forall_app in Hf as [Hf [Hr _]%Forall_cons].
  unfold bucket_files. rewrite fold_left_app. cbn [fold_left]. rewrite bucket_get_file by done.
  fold (bucket_files files). rewrite list.filter_app. destruct (decide (fid = root_id r)) as [->|Hne].
  - rewrite filter_cons_True, filter_nil by done. by rewrite last_snoc.
  - rewrite filter_cons_False, filter_nil, app_nil_r by congruence. by apply IH.
Qed.

Definition sample_roots : list scan_root :=
  [mkRoot 1 sample_remote; mkRoot 2 sample_staged; mkRoot 3 (put_sys_pair sample_remote (Some "p") None)].

Lemma source_buckets_refine_map_witness :
  bucket_get (bucket_files sample_roots) (root_file_id "show" (Some "p")) =
    Some (mkRoot 3 (put_sys_pair sample_remote (Some "p") None)) /\
  last (filter (fun r => root_id r = "show") sample_roots) = Some (mkRoot 2 sample_staged).
Proof.
  assert (H : Forall root_named sample_roots) by (repeat constructor; intros _; vm_compute; reflexivity).
  split; [vm_compute; reflexivity|].
  etransitivity; [symmetry; apply (source_buckets_refine_map sample_roots "show" H)|vm_compute; reflexivity].
Defined.

(** ** Leaves a Queue may omit *)

(** The final file holds the remote leaf: it is not staged and not colliding,
    it has its size, and its raw time is the remote one or that time cut to a
    whole second. *)
Definition same_source (r l : SystemFile) : Prop :=
  sys_is_staging l = false /\ sys_has_staging_collision l = false /\ sys_size l = sys_size r /\
  exists a b, sys_mtime_ns l = Some a /\ sys_mtime_ns r = Some b /\ (a = b \/ a = b / second_ns * second_ns).

Lemma cut_to_second a b : a mod second_ns = 0 /\ a / second_ns = b / second_ns <-> a = b / second_ns * second_ns.
Proof.
  unfold second_ns. split.
  - intros [Hm Hd]. rewrite <- Hd. rewrite (Z.div_mod a 1000000000) at 1 by lia. lia.
  - intros ->. rewrite Z.mod_mul, Z.div_mul by lia. done.
Qed.

Lemma queue_identity_iff r l : sys_is_dir r = false -> sys_is_dir l = false ->
  leaf_matches_remote_queue_exclusion_identity r l = true <-> same_source r l.
Proof.
  intros Hr Hl. unfold leaf_matches_remote_queue_exclusion_identity, leaf_times, is_authoritative_local_file, same_source.
  rewrite Hr, Hl, !andb_true_iff, !negb_true_iff. cbn [negb andb]. destruct (Z.eqb_spec (sys_size l) (sys_size r)) as [Hs|Hs];
    [|split; [by intros [_ ?]|by intros (_ & _ & ? & _)]].
  destruct (sys_mtime_ns l) as [a|]; [|split; [by intros [_ ?]|by intros (_ & _ & _ & ? & ? & ? & _)]].
  destruct (sys_mtime_ns r) as [b|]; [|split; [by intros [_ ?]|by intros (_ & _ & _ & ? & ? & _ & ? & _)]].
  rewrite orb_true_iff, andb_true_iff, !Z.eqb_eq, cut_to_second. split.
  - intros [[? ?] Hab]. split_and!; [done|done|done|]. eauto.
  - intros (? & ? & _ & a' & b' & [= <-] & [= <-] & Hab). done.
Qed.

(** The pair's local scan is known, or this root has a current scan proof. *)
Definition local_scan_admitted (i : ScanInputs) (fid : string) (session generation : pyval) (ready : bool) : Prop :=
  file_id_path_pair_id fid ∉ unknown_local_path_pair_ids i \/
  (ready = true /\ has_current_local_root_scan_proof i fid session generation None = true).

(** C17: A transfer leaves out exactly the paths that are safe to leave out:
    with the local scan of the pair known or proved current for the root, a
    path is omitted if and only if it is a leaf of both trees, no node on the
    way carries collision metadata, and the final file has the remote leaf's
    size and its raw modification time, exactly or cut to the whole second;
    without that authority nothing is omitted.  The paths come in order and
    without repetition. *)
Theorem trusted_leaves_exact i fid session generation ready r l :
  remote_file i fid = Some r -> (root_file <$> local_file i fid) = Some l ->
  sys_is_dir r = true -> sys_is_dir l = true -> tree_ok r -> tree_ok l ->
  let omitted := get_trusted_final_leaf_paths i fid session generation ready in
  (forall x, x ∈ omitted <->
     local_scan_admitted i fid session generation ready /\
     exists p rl ll, x = rel_path p /\ leaf_pair r l p rl ll /\ same_source rl ll) /\
  NoDup omitted /\ StronglySorted String.le omitted.
Proof.
  intros Er El Dr Dl Hr Hl. cbv zeta. unfold get_trusted_final_leaf_paths, get_trusted_final_leaf_paths_without_trace.
  rewrite Er, El, Dr, Dl. cbn [negb orb].
  assert (Hx : forall x, x ∈ sorted_set (trusted_paths r l "" false) <->
    exists p rl ll, x = rel_path p /\ leaf_pair r l p rl ll /\ same_source rl ll).
  { intros x. unfold sorted_set. rewrite elem_of_sorted_ids, elem_of_list_to_set, trusted_paths_found by done. unfold found.
    split.
    - intros (p & rl & ll & Hx & _ & Hp & Hok). exists p, rl, ll. split_and!; [done|done|].
      apply queue_identity_iff; [apply Hp|apply Hp|done].
    - intros (p & rl & ll & Hx & Hp & Hs). exists p, rl, ll. split_and!; [done|done|done|].
      apply queue_identity_iff; [apply Hp|apply Hp|done]. }
  assert (Hadm : bool_decide (file_id_path_pair_id fid ∈ unknown_local_path_pair_ids i) &&
      negb (bool_decide (file_id_path_pair_id fid ∈ unknown_local_path_pair_ids i) && ready &&
            has_current_local_root_scan_proof i fid session generation None) = false <->
    local_scan_admitted i fid session generation ready).
  { unfold local_scan_admitted. case_bool_decide as Hu; cbn [andb].
    - rewrite negb_false_iff, andb_true_iff. naive_solver.
    - naive_solver. }
  destruct (_ && _).
  - split; [|split; constructor]. intros x. split; [by intros ?%not_elem_of_nil|]. by intros [H%Hadm _].
  - split; [|split; [apply NoDup_sorted_ids|apply StronglySorted_sorted_ids]]. intros x. rewrite Hx. naive_solver.
Qed.

Definition sample_local : SystemFile :=
  sample "show" 3 S_DIR None (Some [sample "a" 3 0 (Some 5000000000) None; sample "b" 4 0 None None]).

Definition sample_inputs (local : SystemFile) : ScanInputs :=
  mkInputs (bucket_files [mkRoot 1 local]) (bucket_files [mkRoot 2 sample_remote]) [] ∅ [].

Lemma trusted_leaves_exact_witness :
  get_trusted_final_leaf_paths (sample_inputs sample_local) "show" PyNone PyNone false = ["a"] /\
  NoDup (get_trusted_final_leaf_paths (sample_inputs sample_local) "show" PyNone PyNone false).
Proof.
  split; [vm_compute; reflexivity|].
  apply (trusted_leaves_exact (sample_inputs sample_local) "show" PyNone PyNone false sample_remote sample_local);
    [vm_compute; reflexivity..|apply tree_okb_ok; vm_compute; reflexivity|apply tree_okb_ok; vm_compute; reflexivity].
Defined.

(** ** Staging leaves that may be published *)

Lemma collision_identity_dirs r l : sys_is_dir r = false -> sys_is_dir l = false ->
  leaf_matches_remote_collision_identity r l =
  (sys_size l =? sys_size r) &&
  match sys_mtime_ns l, sys_mtime_ns r with Some a, Some b => a / second_ns =? b / second_ns | _, _ => false end.
Proof.
  intros Hr Hl. unfold leaf_matches_remote_collision_identity, leaf_times. rewrite Hr, Hl. cbn [negb andb].
  destruct (sys_size l =? sys_size r); [|done]. by destruct (sys_mtime_ns l), (sys_mtime_ns r).
Qed.

Definition publishable (r l : SystemFile) : Prop :=
  sys_is_staging l = true /\ sys_status_sidecar_ready l = false /\ leaf_matches_remote_collision_identity r l = true.

Lemma candidate_walk_missing p : forall f c, candidate_walk f None c p <> Some "match".
Proof.
  induction p as [|n p IH]; intros f c; simpl; [by destruct (sys_is_dir f)|].
  destruct (negb (sys_is_dir f)); [done|]. by destruct (first_child f n).
Qed.

Lemma candidate_walk_match p : forall remote local collision, tree_ok remote -> tree_ok local ->
  candidate_walk remote (Some local) collision p = Some "match" <->
  collision = false /\ exists r l, leaf_pair remote local p r l /\ publishable r l.
Proof.
  induction p as [|n p IH]; intros remote local collision Hr Hl.
  - assert (Hnil : (exists r l, leaf_pair remote local [] r l /\ publishable r l) <->
      sys_is_dir remote = false /\ sys_is_dir local = false /\ sys_has_staging_collision local = false /\ publishable remote local).
    { setoid_rewrite leaf_pair_nil. naive_solver. }
    rewrite Hnil. cbn [candidate_walk]. unfold publishable.
    destruct (sys_is_dir remote) eqn:Dr; [split; [done|by intros (_ & ? & _)]|].
    destruct (sys_is_dir local) eqn:Dl; cbn [Bool.eqb negb]; [split; [done|by intros (_ & _ & ? & _)]|].
    rewrite collision_identity_dirs by done.
    destruct collision, (sys_has_staging_collision local), (sys_is_staging local), (sys_status_sidecar_ready local),
      (sys_size local =? sys_size remote), (sys_mtime_ns local), (sys_mtime_ns remote); cbn [negb orb andb];
      try (split; [done|naive_solver]).
    destruct (_ =? _); cbn [negb]; naive_solver.
  - setoid_rewrite leaf_pair_cons; [|done|done]. cbn [candidate_walk].
    destruct (sys_is_dir remote) eqn:Dr; cbn [negb]; [|naive_solver].
    destruct (first_child remote n) as [r'|] eqn:Fr; [|naive_solver].
    destruct (sys_is_dir local) eqn:Dl; cbn [Bool.eqb negb]; [|naive_solver].
    destruct (first_child local n) as [l'|] eqn:Fl; [|split; [intros H; by apply candidate_walk_missing in H|naive_solver]].
    rewrite IH by (eauto using first_child_tree_ok). rewrite orb_false_iff. naive_solver.
Qed.

(** The scans as the builder keeps them: roots by identifier, trees by name. *)
Definition inputs_ok (i : ScanInputs) : Prop :=
  buckets_ok (remote_files_by_pair i) /\
  (forall fid r, remote_file i fid = Some r -> tree_ok r) /\
  (forall fid l, local_file i fid = Some l -> tree_ok (root_file l)).

Lemma remote_files_elem i fid r : buckets_ok (remote_files_by_pair i) ->
  (fid, r) ∈ remote_files i <-> remote_file i fid = Some r.
Proof.
  intros Hb. unfold remote_files, remote_file.
  assert (Hwf : dwf (flatten_buckets (remote_files_by_pair i))) by apply dwf_dfrom.
  rewrite <- flatten_get by done. rewrite fmap_Some. split.
  - intros ([fid' root] & [= -> ->] & Hin)%list_elem_of_fmap. simpl. exists root. split; [|done]. by apply dget_elem_of.
  - intros (root & Hg & ->). apply list_elem_of_fmap. exists (fid, root). split; [done|]. by apply dget_elem_of in Hg.
Qed.

Lemma root_candidates_elem i fid r fid' x : inputs_ok i -> remote_file i fid = Some r ->
  (fid', x) ∈ root_candidates i (fid, r) <->
  fid' = fid /\ sys_is_dir r = true /\ exists l p rl ll,
    (root_file <$> local_file i fid) = Some l /\ x = rel_path p /\ leaf_pair r l p rl ll /\ publishable rl ll.
Proof.
  intros (_ & Hr & Hl) Er. specialize (Hr _ _ Er). unfold root_candidates. destruct (sys_is_dir r) eqn:Dr; cbn [negb];
    [|split; [by intros ?%not_elem_of_nil|by intros (_ & ? & _)]].
  destruct (local_file i fid) as [root|] eqn:El; cbn [fmap option_fmap option_map];
    [|split; [by intros ?%not_elem_of_nil|by intros (_ & _ & ? & ? & ? & ? & ? & _)]].
  specialize (Hl _ _ El). rewrite list_elem_of_fmap. setoid_rewrite candidate_paths_found; [|done|done].
  unfold found, candidate_ok, publishable. split.
  - intros (x' & [= -> ->] & p & rl & ll & Hx & _ & Hp & Hok). split_and!; [done|done|].
    rewrite !andb_true_iff, !negb_true_iff in Hok. destruct Hok as [[[[? ?] ?] ?] ?]. eexists _, p, rl, ll. done.
  - intros (-> & _ & l & p & rl & ll & [= <-] & -> & Hp & Hs & Hn & Hi). exists (rel_path p). split; [done|].
    exists p, rl, ll. split_and!; [done|done|done|]. rewrite Hs, Hn, Hi.
    destruct (rel_path_clean p) as [-> ->]; [| |done].
    + intros ->. apply leaf_pair_nil in Hp as (_ & _ & ? & _). congruence.
    + by apply (descend_names r p rl), Hp.
Qed.

(** The list of staging leaves that may be published and the explanation
    of a single leaf agree: a root and path are in the list exactly when the
    explanation of that path is a match. *)
Theorem candidate_reason_agrees i fid x : inputs_ok i ->
  (fid, x) ∈ get_finalizable_staging_leaf_candidates i <->
  get_finalizable_staging_leaf_candidate_reason i fid x = Some "match".
Proof.
  intros Hi. unfold get_finalizable_staging_leaf_candidates. rewrite merge_sort_Permutation, elem_of_concat_map.
  destruct Hi as (Hb & Hr & Hl). assert (Hi : inputs_ok i) by done.
  unfold get_finalizable_staging_leaf_candidate_reason. split.
  - intros ([fid' r] & Er%remote_files_elem & Hin); [|done].
    apply root_candidates_elem in Hin as (-> & Dr & l & p & rl & ll & El & -> & Hp & Hpub); [|done|done].
    assert (Hne : p <> []) by (intros ->; apply leaf_pair_nil in Hp as (_ & _ & ? & _); congruence).
    assert (Hnames : Forall name_ok p) by (apply (descend_names r p rl); [by apply (Hr fid')|apply Hp]).
    destruct (rel_path_clean p Hne Hnames) as [-> ->]. cbn [orb]. rewrite split_rel_path by done.
    assert (has_empty p = false) as ->.
    { unfold has_empty. apply existsb_false. intros n Hn. rewrite Forall_forall in Hnames. apply String.eqb_neq, Hnames, Hn. }
    rewrite Er, Dr, El. cbn [negb]. apply fmap_Some in El as (root & El & ->).
    apply candidate_walk_match; [by apply (Hr fid')|by apply (Hl fid')|]. split; [done|]. eauto.
  - destruct (_ || _) eqn:E1; [done|]. destruct (has_empty _) eqn:E2; [done|].
    destruct (remote_file i fid) as [r|] eqn:Er; [|done]. destruct (sys_is_dir r) eqn:Dr; cbn [negb]; [|done].
    destruct (local_file i fid) as [root|] eqn:El.
    + cbn [fmap option_fmap option_map]. intros (_ & rl & ll & Hp & Hpub)%candidate_walk_match; [|by apply (Hr fid)|by apply (Hl fid)].
      exists (fid, r). split; [by apply remote_files_elem|]. apply root_candidates_elem; [done|done|]. split_and!; [done|done|].
      exists (root_file root), (split slash x), rl, ll. rewrite El, rel_path_split by done. done.
    + intros H. by apply candidate_walk_missing in H.
Qed.

Lemma candidate_reason_agrees_witness :
  get_finalizable_staging_leaf_candidates (sample_inputs sample_staged) = [("show", "a")] /\
  get_finalizable_staging_leaf_candidate_reason (sample_inputs sample_staged) "show" "a" = Some "match".
Proof.
  assert (H : get_finalizable_staging_leaf_candidates (sample_inputs sample_staged) = [("show", "a")]) by (vm_compute; reflexivity).
  split; [exact H|]. apply (candidate_reason_agrees (sample_inputs sample_staged) "show" "a"); [|rewrite H; by left].
  split_and!.
  - apply (bucket_files_ok [mkRoot 2 sample_remote]). repeat constructor.
  - intros fid r. unfold remote_file. cbn [remote_files_by_pair sample_inputs].
    rewrite (single_bucket (mkRoot 2 sample_remote)) by (intros _; vm_compute; reflexivity). case_decide; [|done].
    intros [= <-]. apply tree_okb_ok. vm_compute. reflexivity.
  - intros fid l. unfold local_file. cbn [local_files_by_pair sample_inputs].
    rewrite (single_bucket (mkRoot 1 sample_staged)) by (intros _; vm_compute; reflexivity). case_decide; [|done].
    intros [= <-]. apply tree_okb_ok. vm_compute. reflexivity.
Defined.
