(* ===== verification/SplitRootFacts.v ===== *)
(** * The overlay of a running transfer, and confirmed deletions

    What [__merge_active_split_root] keeps of the scanned and of the active
    tree, and what [prune_confirmed_local_deletion] removes. *)

From S2P Require Import Prelude PyDict PyStr Json SystemFile SystemFileFacts TransferEvidence ScanInputs TransferEvidenceFacts.

(** ** Copies *)

Definition good (f : SystemFile) : Prop := tree_ok f /\ sys_ok f.

Lemma good_child f c : good f -> c ∈ sys_children f -> good c.
Proof.
  intros [Ht Hs] Hc. split; [by apply (tree_ok_child f)|]. apply sys_ok_unfold in Hs as [_ Hs]. rewrite Forall_forall in Hs. auto.
Qed.

Lemma good_first_child f n c : good f -> first_child f n = Some c -> good c.
Proof. intros Hf [Hc _]%first_child_Some. by apply (good_child f). Qed.

Lemma good_size f : good f -> 0 <= sys_size f.
Proof. intros [_ Hs]. by apply sys_ok_unfold in Hs as [(H & _) _]. Qed.

Definition clone_flags (dir stg : bool) (origin : option bool) (ready coll : bool) : Z :=
  let z := if dir then S_DIR else 0 in
  let z := if stg then Z.lor z S_STAGING else z in
  put_bits (put_bits (origin_flags z origin) S_STATUS_READY ready) S_STAGING_COLLISION coll.

Lemma clone_flags_spec dir stg origin ready coll :
  has_bits (clone_flags dir stg origin ready coll) S_DIR = dir /\
  has_bits (clone_flags dir stg origin ready coll) S_STAGING = stg /\
  origin_of_flags (clone_flags dir stg origin ready coll) = origin /\
  has_bits (clone_flags dir stg origin ready coll) S_STATUS_READY = ready /\
  has_bits (clone_flags dir stg origin ready coll) S_STAGING_COLLISION = coll /\
  flags_ok (clone_flags dir stg origin ready coll).
Proof.
  destruct dir, stg, origin as [[]|], ready, coll; (split_and!; [reflexivity..|]);
    (apply flags_ok_b; split; [apply elem_of_seqZ; vm_compute; split; congruence|reflexivity]).
Qed.

Lemma add_children_dir l : forall f, sys_is_dir f = true ->
  add_children f l = Ok (mkSys (sys_slots f) (match l with [] => sys_children_slot f | _ => Some (sys_children f ++ l) end)).
Proof.
  induction l as [|c l IH]; intros f Hf; [by destruct f|]. cbn [add_children]. unfold sys_add_child. rewrite Hf. cbn [negb mbind result_bind].
  rewrite IH by done. cbn [sys_slots sys_children_slot]. f_equal. f_equal.
  destruct l; [done|]. f_equal. unfold sys_children. cbn [sys_children_slot default from_option id]. by rewrite <- app_assoc.
Qed.

(** The copy with given children, as a value. *)
Definition copied (f : SystemFile) (size : Z) (stg : bool) (kids : list SystemFile) : SystemFile :=
  mkSys (mkSysFields (sys_name f) size
           (clone_flags (sys_is_dir f) stg (sys_has_staging_origin f) (sys_status_sidecar_ready f) (sys_has_staging_collision f))
           (sf_created (sys_slots f)) (sf_modified (sys_slots f)) (sys_mtime_ns f) (sys_pair_id f) (sys_pair_name f))
    (match kids with [] => None | _ => Some kids end).

Lemma clone_copied f children stg agg :
  let kids := match children with Some l => l | None => sys_children f end in
  let size := match agg, children with Some z, _ => z | None, Some l => zsum (map sys_size l) | None, None => sys_size f end in
  0 <= size -> (sys_is_dir f = false -> kids = []) ->
  clone_system_file f children stg agg =
  Ok (copied f size (match stg with Some b => b | None => sys_is_staging f end) kids).
Proof.
  intros kids size Hs Hk. unfold clone_system_file. fold size. fold kids. unfold new_system_file.
  assert ((size <? 0) = false) as -> by lia. cbn [mbind result_bind].
  assert (Hpi : forall f v, set_sys_pair_id f (of_opt_str v) = Ok (put_sys_pair f v (sf_pair_name (sys_slots f)))) by (by intros ? []).
  assert (Hpn : forall f v, set_sys_pair_name f (of_opt_str v) = Ok (put_sys_pair f (sf_pair_id (sys_slots f)) v)) by (by intros ? []).
  rewrite Hpi. cbn [mbind result_bind]. rewrite Hpn. cbn [mbind result_bind].
  unfold set_status_sidecar_ready, set_has_staging_collision, set_sys_bool. cbn [mbind result_bind]. unfold put_sys_flags, put_sys_pair.
  cbn [sys_slots sys_children_slot sf_flags sf_name sf_size sf_created sf_modified sf_mtime_ns sf_pair_id sf_pair_name].
  fold (clone_flags (sys_is_dir f) (match stg with Some b => b | None => sys_is_staging f end) (sys_has_staging_origin f)
          (sys_status_sidecar_ready f) (sys_has_staging_collision f)).
  destruct (sys_is_dir f) eqn:Ed.
  - rewrite add_children_dir by (unfold sys_is_dir; cbn [sys_slots sf_flags]; apply clone_flags_spec).
    unfold copied. rewrite Ed. by destruct kids.
  - rewrite Hk by done. unfold copied. by rewrite Ed.
Qed.

(** [y] is [f] with another size, staging flag, children and collision flag. *)
Record looks (y f : SystemFile) (size : Z) (stg coll : bool) (kids : list SystemFile) : Prop := {
  lk_name : sys_name y = sys_name f; lk_dir : sys_is_dir y = sys_is_dir f; lk_mtime : sys_mtime_ns y = sys_mtime_ns f;
  lk_size : sys_size y = size; lk_staging : sys_is_staging y = stg; lk_coll : sys_has_staging_collision y = coll;
  lk_kids : sys_children y = kids; lk_flags : flags_ok (sf_flags (sys_slots y)) }.

Lemma copied_looks f size stg kids : looks (copied f size stg kids) f size stg (sys_has_staging_collision f) kids.
Proof.
  destruct (clone_flags_spec (sys_is_dir f) stg (sys_has_staging_origin f) (sys_status_sidecar_ready f) (sys_has_staging_collision f))
    as (H1 & H2 & _ & _ & H5 & H6).
  split; try done. by destruct kids.
Qed.

Lemma put_flags_looks y f size stg coll kids z coll' : looks y f size stg coll kids ->
  flags_ok z -> has_bits z S_DIR = sys_is_dir y -> has_bits z S_STAGING = sys_is_staging y -> has_bits z S_STAGING_COLLISION = coll' ->
  looks (put_sys_flags y z) f size stg coll' kids.
Proof. intros [] Hz Hd Hs Hc. split; try done; by destruct y; rewrite <- ?lk_dir0, <- ?lk_staging0. Qed.

Lemma bit_in : S_DIR ∈ [S_DIR; S_STAGING; S_STAGING_COLLISION; S_STATUS_READY] /\
  S_STAGING ∈ [S_DIR; S_STAGING; S_STAGING_COLLISION; S_STATUS_READY] /\
  S_STAGING_COLLISION ∈ [S_DIR; S_STAGING; S_STAGING_COLLISION; S_STATUS_READY] /\ S_STAGING_COLLISION ∈ sys_masks.
Proof. split_and!; apply list_elem_of_In; simpl; tauto. Qed.

Lemma collided_looks y f size stg coll kids b : looks y f size stg coll kids ->
  exists y', collided y b = Ok y' /\ looks y' f size stg b kids.
Proof.
  intros Hy. eexists. split; [reflexivity|]. destruct bit_in as (B1 & B2 & B3 & B4).
  destruct (put_bits_ok S_STAGING_COLLISION b _ B4 (lk_flags _ _ _ _ _ _ Hy)) as (H1 & H2 & H3 & _).
  eapply put_flags_looks; [exact Hy|done|by apply H3|by apply H3|done].
Qed.

Lemma originated_looks y f size stg coll kids a : looks y f size stg coll kids ->
  exists y', originated y a = Ok y' /\ looks y' f size stg coll kids.
Proof.
  intros Hy. unfold originated. destruct (_ || _); [|eauto]. eexists. split; [reflexivity|]. destruct bit_in as (B1 & B2 & B3 & _).
  destruct (origin_flags_ok (Some true) _ (lk_flags _ _ _ _ _ _ Hy)) as (H1 & _ & H3).
  eapply put_flags_looks; [exact Hy|done|by apply H3|by apply H3|]. rewrite H3 by done. apply Hy.
Qed.

(** A copy with well-formed children is well formed. *)
Lemma looks_good y f size stg coll kids : looks y f size stg coll kids -> 0 <= size -> (sys_is_dir f = false -> kids = []) ->
  NoDup (map sys_name kids) -> Forall (fun c => name_ok (sys_name c)) kids -> Forall good kids -> good y.
Proof.
  intros [] Hs Hd Hnd Hn Hk. split.
  - split; rewrite lk_kids0; [done|done| |]; [by rewrite lk_dir0|]. eapply Forall_impl; [exact Hk|by intros ? [? _]].
  - apply sys_ok_unfold. rewrite lk_kids0. split; [split_and!|eapply Forall_impl; [exact Hk|by intros ? [_ ?]]].
    + change (0 <= sys_size y). by rewrite lk_size0.
    + done.
    + intros Hlen. change (sys_is_dir y = true). rewrite lk_dir0. destruct (sys_is_dir f); [done|]. rewrite (Hd eq_refl) in Hlen. cbn in Hlen. lia.
Qed.

Lemma good_kids f : good f -> NoDup (map sys_name (sys_children f)) /\ Forall (fun c => name_ok (sys_name c)) (sys_children f) /\
  Forall good (sys_children f) /\ (sys_is_dir f = false -> sys_children f = []).
Proof.
  intros Hf. pose proof Hf as [[H1 H2 H3 _] _]. split_and!; [done|done| |done]. apply Forall_forall.
  intros c Hc. by apply (good_child f).
Qed.

(** A plain copy. *)
Lemma clone_plain f : good f -> exists y, clone_system_file f None None None = Ok y /\
  looks y f (sys_size f) (sys_is_staging f) (sys_has_staging_collision f) (sys_children f) /\ good y.
Proof.
  intros Hf. destruct (good_kids f Hf) as (H1 & H2 & H3 & H4). eexists. rewrite clone_copied; [|by apply good_size|done].
  split; [done|]. split; [apply copied_looks|]. eapply looks_good; [apply copied_looks|by apply good_size|done..].
Qed.

Lemma zsum_sizes l : Forall good l -> 0 <= zsum (map sys_size l).
Proof.
  unfold zsum. induction 1 as [|f l Hf Hl IH]; [done|]. pose proof (good_size f Hf). cbn [map foldr]. lia.
Qed.

(** A copy of a directory with other children. *)
Lemma clone_with f l b : good f -> sys_is_dir f = true -> NoDup (map sys_name l) ->
  Forall (fun c => name_ok (sys_name c)) l -> Forall good l ->
  exists y, clone_system_file f (Some l) (Some b) None = Ok y /\
  looks y f (zsum (map sys_size l)) b (sys_has_staging_collision f) l /\ good y.
Proof.
  intros Hf Hd Hnd Hn Hl. eexists. rewrite clone_copied; [|by apply zsum_sizes|congruence].
  split; [done|]. split; [apply copied_looks|]. eapply looks_good; [apply copied_looks|by apply zsum_sizes|congruence|done..].
Qed.

(** ** Leaves of a copy *)

Definition same_leaf (y x : SystemFile) : Prop :=
  sys_is_dir y = false /\ sys_is_dir x = false /\ sys_size y = sys_size x /\ sys_mtime_ns y = sys_mtime_ns x /\
  sys_is_staging y = sys_is_staging x.

Lemma same_leaf_refl x : sys_is_dir x = false -> same_leaf x x.
Proof. done. Qed.

Lemma looks_first_child y f size stg coll kids n : looks y f size stg coll kids -> kids = sys_children f ->
  first_child y n = first_child f n.
Proof. intros [] ->. unfold first_child. by rewrite lk_kids0. Qed.

(** A copy with the same children has the same leaves. *)
Lemma looks_descend y f coll p x : looks y f (sys_size f) (sys_is_staging f) coll (sys_children f) ->
  descend f p = Some x -> sys_is_dir x = false -> exists z, descend y p = Some z /\ same_leaf z x.
Proof.
  intros Hy. destruct p as [|n p].
  - intros [= <-] Hd. exists y. split; [done|]. destruct Hy. split_and!; congruence.
  - rewrite !descend_cons. rewrite (looks_first_child _ _ _ _ _ _ n Hy eq_refl). intros Hx Hd. exists x. by split.
Qed.

Lemma looks_descend_back y f coll p z : looks y f (sys_size f) (sys_is_staging f) coll (sys_children f) ->
  descend y p = Some z -> sys_is_dir z = false -> exists x, descend f p = Some x /\ same_leaf z x.
Proof.
  intros Hy. destruct p as [|n p].
  - intros [= <-] Hd. exists f. split; [done|]. destruct Hy. split_and!; congruence.
  - rewrite !descend_cons. rewrite (looks_first_child _ _ _ _ _ _ n Hy eq_refl). intros Hx Hd. exists z. by split.
Qed.

(** ** Comprehensions of children *)

(** The kept results of a walk over children with distinct names, each under its own name. *)
Lemma collect_children (g : SystemFile -> result (option SystemFile)) l :
  NoDup (map sys_name l) -> Forall (fun c => name_ok (sys_name c)) l ->
  (forall c, c ∈ l -> exists o, g c = Ok o /\ forall m, o = Some m -> good m /\ sys_name m = sys_name c) ->
  exists ms, collect (map g l) = Ok ms /\ NoDup (map sys_name ms) /\ Forall (fun c => name_ok (sys_name c)) ms /\ Forall good ms /\
    (forall n, n ∈ map sys_name ms -> n ∈ map sys_name l) /\
    (forall m, m ∈ ms <-> exists c, c ∈ l /\ g c = Ok (Some m)).
Proof.
  intros Hnd Hn Hg. induction l as [|c l IH].
  { exists []. split_and!; [done|constructor..|done|]. intros m. split; [by intros ?%not_elem_of_nil|]. intros (c & Hc & _).
    by apply not_elem_of_nil in Hc. }
  apply NoDup_cons in Hnd as [Hc Hnd]. apply Forall_cons in Hn as [Hnc Hn].
  destruct IH as (ms & E & I1 & I2 & I3 & I4 & I5); [done|done|intros d Hd; apply Hg; by right|].
  destruct (Hg c) as (o & Eo & Ho); [by left|]. cbn [map collect]. rewrite Eo. cbn [mbind result_bind]. rewrite E.
  cbn [mbind result_bind]. exists (match o with Some x => x :: ms | None => ms end). split; [done|].
  assert (Hmem : forall m, m ∈ (match o with Some x => x :: ms | None => ms end) <-> o = Some m \/ m ∈ ms).
  { intros m. destruct o as [x|]; [rewrite elem_of_cons; naive_solver|naive_solver]. }
  assert (Hlast : forall m, o = Some m \/ m ∈ ms <-> exists d, d ∈ c :: l /\ g d = Ok (Some m)).
  { intros m. rewrite I5. setoid_rewrite elem_of_cons. split.
    - intros [->|(d & Hd & Ed)]; eauto.
    - intros (d & [->|Hd] & Ed); [left; congruence|eauto]. }
  destruct o as [x|].
  - destruct (Ho x eq_refl) as [Hx Ex]. cbn [map]. split_and!.
    + apply NoDup_cons. split; [|done]. rewrite Ex. intros Hin%I4. done.
    + constructor; [by rewrite Ex|done].
    + by constructor.
    + intros n [->|H]%elem_of_cons; [rewrite Ex; by left|right; auto].
    + intros m. by rewrite Hmem, Hlast.
  - split_and!; try done; [intros n H; right; auto|]. intros m. by rewrite Hmem, Hlast.
Qed.

(** ** What an overlay keeps *)

Lemma verified_identity r x : is_verified_final_leaf r x = true ->
  sys_is_dir r = false /\ sys_is_dir x = false /\ sys_is_staging x = false /\ sys_has_staging_collision x = false /\
  leaf_matches_remote_identity r x = true /\ leaf_matches_remote_queue_exclusion_identity r x = true.
Proof.
  unfold is_verified_final_leaf, is_authoritative_local_file. rewrite !andb_true_iff, !negb_true_iff.
  intros [[[H1 H2] [H3 H4]] H5]. split_and!; try done. unfold leaf_matches_remote_identity in H5.
  unfold leaf_matches_remote_queue_exclusion_identity, is_authoritative_local_file. rewrite H3, H4.
  destruct (leaf_times r x) as [[a b]|]; [|done]. cbn [negb andb]. by rewrite H5.
Qed.

(** A verified final leaf of [f] at a path. *)
Definition verified_at (f : SystemFile) (remote : option SystemFile) (p : list string) (x : SystemFile) : Prop :=
  exists r r', remote = Some r /\ descend f p = Some x /\ descend r p = Some r' /\ is_verified_final_leaf r' x = true.

(** The part of a tree below a child, if there is one. *)
Definition below (o : option SystemFile) (n : string) : option SystemFile := o ≫= fun f => first_child f n.

(** The overlay [o] of the scanned tree [f] and the active tree [act]: it is
    well formed and named like [f]; each leaf of it is a leaf of one of them;
    every verified final leaf stays; and where the active tree holds something
    else at the path of a verified leaf, a node on the way is marked. *)
Record overlay_ok (f : SystemFile) (act remote o : option SystemFile) : Prop := {
  ov_good m : o = Some m -> good m /\ sys_name m = sys_name f;
  ov_from m p y : o = Some m -> descend m p = Some y -> sys_is_dir y = false ->
    exists x, (descend f p = Some x \/ exists a, act = Some a /\ descend a p = Some x) /\ same_leaf y x;
  ov_keeps p x : verified_at f remote p x -> exists m y, o = Some m /\ descend m p = Some y /\ same_leaf y x;
  ov_marks p x a a' r r' : verified_at f remote p x -> act = Some a -> descend a p = Some a' -> remote = Some r ->
    descend r p = Some r' -> leaf_matches_remote_identity r' a' = false -> exists m, o = Some m /\ collided_on m p = true }.

Lemma verified_at_nil f remote x : verified_at f remote [] x <->
  x = f /\ exists r, remote = Some r /\ is_verified_final_leaf r f = true.
Proof. unfold verified_at. cbn [descend]. naive_solver. Qed.

Definition opt_tree_ok (o : option SystemFile) : Prop := forall r, o = Some r -> tree_ok r.

Lemma opt_tree_below o n : opt_tree_ok o -> opt_tree_ok (below o n).
Proof. intros Ho r Hr. unfold below in Hr. destruct o as [f|]; [|done]. by apply (first_child_tree_ok f n), Hr; apply Ho. Qed.

Lemma verified_at_cons f remote n p x : tree_ok f -> opt_tree_ok remote -> verified_at f remote (n :: p) x ->
  sys_is_dir f = true /\ (exists r, remote = Some r /\ sys_is_dir r = true) /\
  exists c, first_child f n = Some c /\ verified_at c (below remote n) p x.
Proof.
  intros Hf Hr (r & r' & -> & Hx & Hp & Hv). specialize (Hr r eq_refl). rewrite descend_cons in Hx, Hp.
  destruct (first_child f n) as [c|] eqn:Fc; [|done]. destruct (first_child r n) as [rc|] eqn:Fr; [|done].
  split_and!; [by eapply child_is_dir|exists r; split; [done|]; by eapply child_is_dir|]. exists c. split; [done|]. exists rc, r'.
  unfold below. cbn [mbind option_bind]. by rewrite Fr.
Qed.

(** A verified leaf fixes the kind of the two roots. *)
Lemma verified_at_kinds f r p x : tree_ok f -> tree_ok r -> verified_at f (Some r) p x -> sys_is_dir f = sys_is_dir r.
Proof.
  intros Hf Hr Hv. destruct p as [|n p].
  - apply verified_at_nil in Hv as (-> & r0 & [= <-] & (H1 & H2 & _)%verified_identity). congruence.
  - apply verified_at_cons in Hv as (-> & (r0 & [= <-] & ->) & _); [done|done|]. by intros ? [= <-].
Qed.

Lemma overlay_none f act remote : (forall p x, ~ verified_at f remote p x) -> overlay_ok f act remote None.
Proof. intros H. split; [done|done| |]; intros p x; intros; by destruct (H p x). Qed.

(** A directory whose children are the overlays of the children of [f] and
    the children only the active tree has. *)
Section directory.
Context (f y : SystemFile) (act remote : option SystemFile) (g : SystemFile -> result (option SystemFile)).
Context (ms extras : list SystemFile).
Context (Hf : good f) (Dy : sys_is_dir y = true) (Hy : good y) (Ny : sys_name y = sys_name f) (Hr : opt_tree_ok remote).
Context (Hg : forall c, c ∈ sys_children f ->
  exists o, g c = Ok o /\ overlay_ok c (below act (sys_name c)) (below remote (sys_name c)) o).
Context (Hms : forall m, m ∈ ms <-> exists c, c ∈ sys_children f /\ g c = Ok (Some m)).
Context (Hextras : forall m, m ∈ extras -> exists a, act = Some a /\ tree_ok a /\ m ∈ sys_children a).
Context (Hkids : forall m, m ∈ sys_children y <-> m ∈ ms \/ m ∈ extras).
Context (Df : sys_is_dir f = true).

Lemma directory_child c o m : first_child f (sys_name c) = Some c -> g c = Ok o ->
  overlay_ok c (below act (sys_name c)) (below remote (sys_name c)) o -> o = Some m -> first_child y (sys_name c) = Some m.
Proof.
  intros [Hc _]%first_child_Some Eg Ho ->. apply first_child_iff; [apply Hy|]. split; [|apply (ov_good _ _ _ _ Ho m eq_refl)].
  apply Hkids. left. apply Hms. eauto.
Qed.

Lemma directory_verified p x : verified_at f remote p x -> exists n q c o,
  p = n :: q /\ sys_name c = n /\ first_child f n = Some c /\ g c = Ok o /\ overlay_ok c (below act n) (below remote n) o /\
  verified_at c (below remote n) q x.
Proof.
  intros Hv. destruct p as [|n q].
  - apply verified_at_nil in Hv as (-> & r & _ & (_ & Hv & _)%verified_identity). congruence.
  - apply verified_at_cons in Hv as (_ & _ & c & Fc & Hv); [|apply Hf|done]. pose proof Fc as [Hc Nc]%first_child_Some.
    destruct (Hg c Hc) as (o & Eo & Ho). rewrite Nc in Ho. exists n, q, c, o. done.
Qed.

Lemma directory_overlay : overlay_ok f act remote (Some y).
Proof.
  split.
  - by intros m [= <-].
  - intros m [|n p] z [= <-]; [intros [= <-]; congruence|]. rewrite descend_cons.
    destruct (first_child y n) as [k|] eqn:Fk; [|done]. apply first_child_Some in Fk as [Hk Nk]. simpl. intros Hz Dz.
    apply Hkids in Hk as [(c & Hc & Ec)%Hms|(a & Ea & Ha & Hk)%Hextras].
    + destruct (Hg c Hc) as (o & Eo & Ho). rewrite Ec in Eo. injection Eo as <-.
      destruct (ov_good _ _ _ _ Ho k eq_refl) as [_ Nc]. rewrite Nk in Nc.
      destruct (ov_from _ _ _ _ Ho k p z eq_refl Hz Dz) as (x & Hx & Hs). rewrite <- Nc in Hx. exists x. split; [|done].
      destruct Hx as [Hx|(a & Ha & Hx)].
      * left. rewrite (proj2 (first_child_iff f n c (proj1 Hf))); [done|]. done.
      * right. unfold below in Ha. destruct act as [b|]; [|done]. exists b. split; [done|]. cbn in Ha. by rewrite Ha.
    + exists z. split; [|by apply same_leaf_refl]. right. exists a. split; [done|].
      by rewrite (proj2 (first_child_iff a n k Ha)).
  - intros p x Hv. destruct (directory_verified p x Hv) as (n & q & c & o & -> & Nc & Fc & Ec & Ho & Hq).
    destruct (ov_keeps _ _ _ _ Ho q x Hq) as (m & z & Em & Hz & Hs). exists y, z. split_and!; [done| |done].
    subst n. by rewrite descend_cons, (directory_child c o m).
  - intros p x a a' r r' Hv Ea Ha Er Hr' Hne. destruct (directory_verified p x Hv) as (n & q & c & o & -> & Nc & Fc & Ec & Ho & Hq).
    rewrite descend_cons in Ha, Hr'. destruct (first_child a n) as [b|] eqn:Fb; [|done].
    destruct (first_child r n) as [rc|] eqn:Frc; [|done].
    destruct (ov_marks _ _ _ _ Ho q x b a' rc r') as (m & Em & Hm); try done; [by rewrite Ea|by rewrite Er|].
    exists y. split; [done|]. subst n. cbn [collided_on]. rewrite (directory_child c o m), Hm by done. apply orb_true_r.
Qed.
End directory.

(** ** Final leaves without an active counterpart *)

Lemma final_structure_eq f r :
  final_split_root_structure f (Some r) =
  if negb (Bool.eqb (sys_is_dir f) (sys_is_dir r)) then Ok None
  else if negb (sys_is_dir f) then
    Ok (if negb (leaf_matches_remote_queue_exclusion_identity r f) then None else Some f)
  else
    retained ← collect (map (fun c => final_split_root_structure c (dget (children_by_name r) (sys_name c))) (sys_children f));
    if (match retained with [] => true | _ => false end) && sys_is_staging f then Ok None
    else cloned ← clone_system_file f (Some retained) (Some false) None; Ok (Some cloned).
Proof. by destruct f as [fl [l|]]. Qed.

Definition structure_ok (f : SystemFile) : Prop := forall remote, good f -> opt_tree_ok remote ->
  exists o, final_split_root_structure f remote = Ok o /\ overlay_ok f None remote o.

Lemma final_structure_dir f r : good f -> tree_ok r -> sys_is_dir f = true -> sys_is_dir r = true ->
  (forall c, c ∈ sys_children f -> structure_ok c) ->
  exists o, final_split_root_structure f (Some r) = Ok o /\ overlay_ok f None (Some r) o.
Proof.
  intros Hf Hr Df Dr IH. rewrite final_structure_eq, Df, Dr. cbn [Bool.eqb negb].
  set (g := fun c => final_split_root_structure c (dget (children_by_name r) (sys_name c))).
  assert (Hrr : opt_tree_ok (Some r)) by (by intros ? [= <-]).
  assert (Hg : forall c, c ∈ sys_children f ->
    exists o, g c = Ok o /\ overlay_ok c (below None (sys_name c)) (below (Some r) (sys_name c)) o).
  { intros c Hc. unfold g. rewrite dget_children by done. apply (IH c Hc); [by apply (good_child f)|].
    by apply (opt_tree_below (Some r)). }
  destruct (good_kids f Hf) as (Hnd & Hn & _ & _).
  destruct (collect_children g (sys_children f)) as (ms & E & I1 & I2 & I3 & _ & I5); [done|done| |].
  { intros c Hc. destruct (Hg c Hc) as (o & Eo & Ho). exists o. split; [done|]. apply Ho. }
  rewrite E. cbn [mbind result_bind]. destruct (_ && _) eqn:Es.
  - exists None. split; [done|]. apply overlay_none. intros p x Hv.
    destruct (directory_verified f None (Some r) g Hf Hrr Hg Df p x Hv) as (n & q & c & o & -> & _ & Fc & Ec & Ho & Hq).
    destruct (ov_keeps _ _ _ _ Ho q x Hq) as (m & z & -> & _). apply first_child_Some in Fc as [Hc _].
    destruct ms; [|done]. apply (not_elem_of_nil m), I5. eauto.
  - destruct (clone_with f ms false Hf Df I1 I2 I3) as (y & Ey & Hy & Hgood). rewrite Ey. cbn [mbind result_bind].
    exists (Some y). split; [done|]. destruct Hy. apply (directory_overlay f y None (Some r) g ms []); try done; [congruence| |].
    + intros m Hm. by apply not_elem_of_nil in Hm.
    + intros m. rewrite lk_kids0. set_solver.
Qed.

Lemma final_structure_ok f : structure_ok f.
Proof.
  revert f. apply tree_induction. intros f IH [r|] Hf Hr; [specialize (Hr r eq_refl)|].
  2:{ exists None. split; [by destruct f as [fl [l|]]|]. apply overlay_none. by intros p x (r & ? & ? & _). }
  destruct (Bool.eqb (sys_is_dir f) (sys_is_dir r)) eqn:Ed.
  2:{ rewrite final_structure_eq, Ed. exists None. split; [done|]. apply overlay_none. intros p x Hv.
      apply verified_at_kinds in Hv; [|apply Hf|done]. by rewrite Hv, Bool.eqb_reflx in Ed. }
  apply Bool.eqb_prop in Ed. destruct (sys_is_dir f) eqn:Df; [by apply final_structure_dir|].
  rewrite final_structure_eq, Df, <- Ed. cbn [Bool.eqb negb].
  destruct (leaf_matches_remote_queue_exclusion_identity r f) eqn:Ei; cbn [negb].
  - exists (Some f). split; [done|]. split; [by intros m [= <-]| | |done].
    + intros m p y [= <-] Hy Dy. eauto using same_leaf_refl.
    + intros p x (r0 & r' & _ & Hx & _ & Hv%verified_identity). exists f, x. split_and!; [done|done|].
      apply same_leaf_refl, Hv.
  - exists None. split; [done|]. apply overlay_none. intros [|n p] x Hv.
    + apply verified_at_nil in Hv as (-> & r0 & [= <-] & (_ & _ & _ & _ & _ & Hv)%verified_identity). congruence.
    + apply verified_at_cons in Hv as (Hv & _); [congruence|apply Hf|by intros ? [= <-]].
Qed.

(** ** The merge *)

Section merge_loop.
Context (remote : option SystemFile).

Fixpoint merge_loop (l : list SystemFile) (active_children : dict string SystemFile)
    : result (list SystemFile * dict string SystemFile) :=
  match l with
  | [] => Ok ([], active_children)
  | c :: l' =>
      let remote_child := match remote with
        | Some r => if sys_is_dir r then dget (children_by_name r) (sys_name c) else None
        | None => None
        end in
      match dget active_children (sys_name c) with
      | None =>
          retained ← final_split_root_structure c remote_child;
          rest ← merge_loop l' active_children;
          Ok (match retained with Some x => x :: rest.1 | None => rest.1 end, rest.2)
      | Some a =>
          merged ← merge_active_split_root c a remote_child;
          rest ← merge_loop l' (dpop active_children (sys_name c));
          Ok (merged :: rest.1, rest.2)
      end
  end.
End merge_loop.

Lemma merge_eq f a remote :
  merge_active_split_root f a remote =
  if negb (Bool.eqb (sys_is_dir f) (sys_is_dir a)) then
    if match remote with Some r => Bool.eqb (sys_is_dir f) (sys_is_dir r) | None => false end
    then merged ← clone_system_file f None None None; collided merged true
    else merged ← clone_system_file a None None None; collided merged true
  else if sys_is_dir f && sys_is_dir a then
    loop ← merge_loop remote (sys_children f) (children_by_name a);
    merged ← clone_system_file f (Some (sort_by_name (loop.1 ++ dvals loop.2))) (Some (sys_is_staging f && sys_is_staging a)) None;
    merged ← originated merged a;
    collided merged (sys_has_staging_collision f || sys_has_staging_collision a)
  else if negb (sys_is_staging f) &&
          match remote with Some r => leaf_matches_remote_identity r f | None => false end then
    merged ← clone_system_file f None None None;
    merged ← collided merged (negb (match remote with Some r => leaf_matches_remote_identity r a | None => false end));
    originated merged a
  else
    merged ← clone_system_file a None None None;
    collided merged (sys_has_staging_collision f || sys_has_staging_collision a).
Proof. by destruct f as [fl [l|]]. Qed.

(** The result for one child of the scanned directory. *)
Definition merged_child (remote : option SystemFile) (a : SystemFile) (c : SystemFile) : result (option SystemFile) :=
  match first_child a (sys_name c) with
  | None => final_split_root_structure c (below remote (sys_name c))
  | Some b => merged ← merge_active_split_root c b (below remote (sys_name c)); Ok (Some merged)
  end.

Lemma merged_child_eq remote a c :
  merged_child remote a c =
  match first_child a (sys_name c) with
  | None => final_split_root_structure c (below remote (sys_name c))
  | Some b => merged ← merge_active_split_root c b (below remote (sys_name c)); Ok (Some merged)
  end.
Proof. done. Qed.

Lemma remote_child_below remote n : opt_tree_ok remote ->
  match remote with Some r => if sys_is_dir r then dget (children_by_name r) n else None | None => None end = below remote n.
Proof.
  intros Hr. destruct remote as [r|]; [|done]. specialize (Hr r eq_refl). unfold below. cbn [mbind option_bind].
  rewrite dget_children by done. destruct (sys_is_dir r) eqn:Dr; [done|]. unfold first_child. by rewrite (no_children_leaf r).
Qed.

Lemma merge_loop_collect remote a l : forall d, opt_tree_ok remote -> NoDup (map sys_name l) ->
  (forall n, n ∈ map sys_name l -> dget d n = first_child a n) ->
  merge_loop remote l d = (ms ← collect (map (merged_child remote a) l); Ok (ms, fold_left dpop (map sys_name l) d)).
Proof.
  induction l as [|c l IH]; intros d Hr Hnd Hd; [done|]. cbn [map] in Hnd, Hd. apply NoDup_cons in Hnd as [Hc Hnd].
  cbn [merge_loop map collect fold_left]. rewrite remote_child_below, (Hd (sys_name c)) by (try done; by left).
  assert (Hpop : first_child a (sys_name c) = None -> dpop d (sys_name c) = d).
  { intros E. rewrite <- (Hd (sys_name c)) in E by (by left). clear -E. induction d as [|[k v] d IH]; [done|].
    simpl in E |- *. destruct (decide (sys_name c = k)); [done|]. f_equal. auto. }
  rewrite (merged_child_eq remote a c). destruct (first_child a (sys_name c)) as [b|] eqn:Fb.
  - destruct (merge_active_split_root _ _ _) as [m|e]; [|done]. cbn [mbind result_bind].
    rewrite (IH (dpop d (sys_name c))); [|done|done|].
    + by destruct (collect _).
    + intros n Hn. rewrite dget_dpop_ne by (intros <-; done). apply Hd. by right.
  - destruct (final_split_root_structure _ _) as [o|e]; [|done]. cbn [mbind result_bind].
    rewrite IH; [|done|done|intros n Hn; apply Hd; by right]. rewrite (Hpop eq_refl). by destruct (collect _).
Qed.

Lemma dwf_dpops {V} ks : forall d : dict string V, dwf d -> dwf (fold_left dpop ks d) /\
  forall n, dget (fold_left dpop ks d) n = if decide (n ∈ ks) then None else dget d n.
Proof.
  induction ks as [|k ks IH]; intros d Hd; [split; [done|]; intros n; rewrite decide_False; [done|apply not_elem_of_nil]|].
  cbn [fold_left]. destruct (IH (dpop d k)) as [H1 H2]; [by apply dwf_dpop|]. split; [done|]. intros n. rewrite H2.
  destruct (decide (n = k)) as [->|Hne].
  - rewrite (decide_True None (dget d k)) by (by left). case_decide; [done|]. by apply dget_dpop_eq.
  - rewrite dget_dpop_ne by congruence. destruct (decide (n ∈ ks)).
    + rewrite decide_True; [done|by right].
    + rewrite decide_False; [done|]. by intros [->|?]%elem_of_cons.
Qed.

(** The active children left after the loop. *)
Lemma leftover a ks : tree_ok a ->
  let left := dvals (fold_left dpop ks (children_by_name a)) in
  NoDup (map sys_name left) /\ forall m, m ∈ left <-> m ∈ sys_children a /\ sys_name m ∉ ks.
Proof.
  intros Ha. destruct (dwf_dpops ks (children_by_name a)) as [Hwf Hget]; [apply dwf_dfrom|]. cbv zeta.
  set (d := fold_left dpop ks (children_by_name a)) in *.
  assert (Hd : forall n m, (n, m) ∈ d <-> first_child a n = Some m /\ n ∉ ks).
  { intros n m. rewrite <- dget_elem_of, Hget, dget_children by done. case_decide; naive_solver. }
  assert (Hnames : map sys_name (dvals d) = dkeys d).
  { unfold dvals, dkeys. rewrite List.map_map. apply map_ext_in. intros [n m] Hin. apply list_elem_of_In, Hd in Hin as [Hf _].
    by apply first_child_Some in Hf as [_ ?]. }
  split; [by rewrite Hnames|]. intros m. unfold dvals. rewrite list_elem_of_fmap. split.
  - intros ([n m'] & -> & [[Hin Hn]%first_child_Some Hk]%Hd). simpl. by rewrite Hn.
  - intros [Hin Hk]. exists (sys_name m, m). split; [done|]. apply Hd. split; [by apply first_child_name|done].
Qed.

Lemma sort_by_name_perm l : sort_by_name l ≡ₚ l.
Proof. apply merge_sort_Permutation. Qed.

Definition merge_ok (f : SystemFile) : Prop := forall a remote, good f -> good a -> opt_tree_ok remote -> sys_name a = sys_name f ->
  exists m, merge_active_split_root f a remote = Ok m /\ overlay_ok f (Some a) remote (Some m).

Lemma merged_child_ok remote a f c : good f -> good a -> opt_tree_ok remote -> c ∈ sys_children f -> merge_ok c ->
  exists o, merged_child remote a c = Ok o /\ overlay_ok c (below (Some a) (sys_name c)) (below remote (sys_name c)) o.
Proof.
  intros Hf Ha Hr Hc IH. unfold merged_child. change (below (Some a) (sys_name c)) with (first_child a (sys_name c)).
  destruct (first_child a (sys_name c)) as [b|] eqn:Fb.
  - destruct (IH b (below remote (sys_name c))) as (m & Em & Hm);
      [by apply (good_child f)|by apply (good_first_child a _ _ Ha Fb)|by apply opt_tree_below|by apply first_child_Some in Fb as [_ ?]|].
    exists (Some m). by rewrite Em.
  - apply final_structure_ok; [by apply (good_child f)|by apply opt_tree_below].
Qed.

(** The children of the merged directory. *)
Lemma merged_children remote a f : good f -> good a -> opt_tree_ok remote -> (forall c, c ∈ sys_children f -> merge_ok c) ->
  exists ms d, merge_loop remote (sys_children f) (children_by_name a) = Ok (ms, d) /\
    let kids := sort_by_name (ms ++ dvals d) in
    NoDup (map sys_name kids) /\ Forall (fun c => name_ok (sys_name c)) kids /\ Forall good kids /\
    (forall m, m ∈ ms <-> exists c, c ∈ sys_children f /\ merged_child remote a c = Ok (Some m)) /\
    (forall m, m ∈ dvals d -> m ∈ sys_children a) /\ (forall m, m ∈ kids <-> m ∈ ms \/ m ∈ dvals d).
Proof.
  intros Hf Ha Hr IH. destruct (good_kids f Hf) as (Hnd & Hn & _ & _). destruct (good_kids a Ha) as (_ & Hna & Hka & _).
  rewrite (merge_loop_collect remote a) by (try done; intros n _; by apply dget_children, Ha).
  destruct (collect_children (merged_child remote a) (sys_children f)) as (ms & E & I1 & I2 & I3 & I4 & I5); [done|done| |].
  { intros c Hc. destruct (merged_child_ok remote a f c Hf Ha Hr Hc (IH c Hc)) as (o & Eo & Ho). exists o. split; [done|]. apply Ho. }
  rewrite E. destruct (leftover a (map sys_name (sys_children f))) as [L1 L2]; [apply Ha|].
  set (d := fold_left dpop _ _) in *. exists ms, d. split; [done|]. cbv zeta.
  assert (Hsub : forall m, m ∈ dvals d -> m ∈ sys_children a) by (intros m Hm; by apply L2).
  rewrite Forall_forall in Hna, Hka. split_and!; [| | |done|done|].
  - rewrite sort_by_name_perm, map_app. apply NoDup_app. split_and!; [done| |done].
    intros n Hin (m & -> & Hm)%list_elem_of_fmap. apply L2 in Hm as [_ Hm]. auto.
  - rewrite sort_by_name_perm. apply Forall_app. split; [done|]. apply Forall_forall. auto.
  - rewrite sort_by_name_perm. apply Forall_app. split; [done|]. apply Forall_forall. auto.
  - intros m. by rewrite sort_by_name_perm, elem_of_app.
Qed.

Lemma merge_directories f a remote : good f -> good a -> opt_tree_ok remote -> sys_is_dir f = true -> sys_is_dir a = true ->
  (forall c, c ∈ sys_children f -> merge_ok c) ->
  exists m, merge_active_split_root f a remote = Ok m /\ overlay_ok f (Some a) remote (Some m).
Proof.
  intros Hf Ha Hr Df Da IH. rewrite merge_eq, Df, Da. cbn [Bool.eqb negb andb].
  destruct (merged_children remote a f Hf Ha Hr IH) as (ms & d & E & K1 & K2 & K3 & Hms & Hd & Hkids). rewrite E.
  cbn [mbind result_bind fst snd].
  destruct (clone_with f _ (sys_is_staging f && sys_is_staging a) Hf Df K1 K2 K3) as (y & -> & Hy & Gy). cbn [mbind result_bind].
  destruct (originated_looks _ _ _ _ _ _ a Hy) as (y' & -> & Hy'). cbn [mbind result_bind].
  destruct (collided_looks _ _ _ _ _ _ (sys_has_staging_collision f || sys_has_staging_collision a) Hy') as (m & -> & Hm).
  exists m. split; [done|].
  assert (Gm : good m) by (eapply looks_good; [exact Hm|by apply zsum_sizes|congruence|done..]).
  destruct Hm. apply (directory_overlay f m (Some a) remote (merged_child remote a) ms (dvals d)); try done; [congruence| | |].
  - intros c Hc. by apply (merged_child_ok remote a f); [..|apply IH].
  - intros x Hx. exists a. split_and!; [done|apply Ha|auto].
  - intros x. rewrite lk_kids0. apply Hkids.
Qed.

(** A marked or unmarked copy of the scanned node. *)
Lemma overlay_existing f a remote y b : good f -> good y ->
  looks y f (sys_size f) (sys_is_staging f) b (sys_children f) ->
  (b = false -> forall r, remote = Some r -> leaf_matches_remote_identity r a = true) ->
  (b = false -> sys_is_dir f = false) ->
  overlay_ok f (Some a) remote (Some y).
Proof.
  intros Hf Hg Hy Hb Hd. split.
  - intros m [= <-]. split; [done|]. apply Hy.
  - intros m p z [= <-] Hz Dz. destruct (looks_descend_back _ _ _ _ _ Hy Hz Dz) as (x & Hx & Hs). eauto.
  - intros p x (r & r' & _ & Hx & _ & (_ & Dx & _)%verified_identity).
    destruct (looks_descend _ _ _ _ _ Hy Hx Dx) as (z & Hz & Hs). eauto.
  - intros p x a0 a' r r' (r0 & r1 & E & Hx & _) [= <-] Ha Er Hr Hne. exists y. split; [done|].
    assert (b = true) as ->.
    { destruct b; [done|]. destruct p as [|n p]; [|rewrite (descend_leaf f) in Hx by (try apply Hf; auto); done].
      injection Ha as <-. injection Hr as <-. rewrite (Hb eq_refl r Er) in Hne. done. }
    destruct p; cbn [collided_on]; by rewrite (lk_coll _ _ _ _ _ _ Hy).
Qed.

(** A copy of the active node, where no final leaf is verified. *)
Lemma overlay_active f a remote y b : good y -> sys_name a = sys_name f ->
  looks y a (sys_size a) (sys_is_staging a) b (sys_children a) -> (forall p x, ~ verified_at f remote p x) ->
  overlay_ok f (Some a) remote (Some y).
Proof.
  intros Hg Hn Hy Hv. split.
  - intros m [= <-]. split; [done|]. rewrite (lk_name _ _ _ _ _ _ Hy). done.
  - intros m p z [= <-] Hz Dz. destruct (looks_descend_back _ _ _ _ _ Hy Hz Dz) as (x & Hx & Hs). exists x. split; [|done]. eauto.
  - intros p x H. by destruct (Hv p x).
  - intros p x ? ? ? ? H. by destruct (Hv p x).
Qed.

(** A plain copy, marked. *)
Lemma clone_marked f b : good f -> exists y z, clone_system_file f None None None = Ok y /\ collided y b = Ok z /\
  looks z f (sys_size f) (sys_is_staging f) b (sys_children f) /\ good z.
Proof.
  intros Hf. destruct (clone_plain f Hf) as (y & Ey & Hy & _). destruct (collided_looks _ _ _ _ _ _ b Hy) as (z & Ez & Hz).
  exists y, z. split_and!; [done|done|done|]. destruct (good_kids f Hf) as (H1 & H2 & H3 & H4).
  eapply looks_good; [exact Hz|by apply good_size|done..].
Qed.

Lemma merge_total f : merge_ok f.
Proof.
  revert f. apply tree_induction. intros f IH a remote Hf Ha Hr Hn.
  destruct (Bool.eqb (sys_is_dir f) (sys_is_dir a)) eqn:Ed.
  - apply Bool.eqb_prop in Ed. destruct (sys_is_dir f) eqn:Df; [by apply merge_directories|].
    rewrite merge_eq, Df, <- Ed. cbn [Bool.eqb negb andb]. destruct (_ && _) eqn:Ei.
    + apply andb_true_iff in Ei as [Ef Ei]. destruct remote as [r|]; [|done].
      destruct (clone_marked f (negb (leaf_matches_remote_identity r a)) Hf) as (y & z & -> & Ez & Hz & Gz).
      cbn [mbind result_bind]. rewrite Ez. cbn [mbind result_bind].
      destruct (originated_looks _ _ _ _ _ _ a Hz) as (m & -> & Hm). exists m. split; [done|].
      assert (Gm : good m).
      { destruct (good_kids f Hf) as (H1 & H2 & H3 & H4). eapply looks_good; [exact Hm|by apply good_size|done..]. }
      apply (overlay_existing f a (Some r) m _ Hf Gm Hm); [|done]. intros Hb%negb_false_iff r0 [= <-]. done.
    + destruct (clone_marked a (sys_has_staging_collision f || sys_has_staging_collision a) Ha) as (y & z & -> & Ez & Hz & Gz).
      cbn [mbind result_bind]. rewrite Ez. exists z. split; [done|]. apply (overlay_active f a remote z _ Gz Hn Hz). intros [|n p] x Hv.
      * apply verified_at_nil in Hv as (-> & r & -> & (_ & _ & Hs & _ & Hi & _)%verified_identity). by rewrite Hs, Hi in Ei.
      * apply verified_at_cons in Hv as (Hv & _); [congruence|apply Hf|done].
  - rewrite merge_eq, Ed. cbn [negb]. destruct (match remote with Some r => _ | None => false end) eqn:Er.
    + destruct (clone_marked f true Hf) as (y & z & -> & Ez & Hz & Gz). cbn [mbind result_bind]. rewrite Ez.
      exists z. split; [done|]. by apply (overlay_existing f a remote z true).
    + destruct (clone_marked a true Ha) as (y & z & -> & Ez & Hz & Gz). cbn [mbind result_bind]. rewrite Ez.
      exists z. split; [done|]. apply (overlay_active f a remote z true Gz Hn Hz). intros p x Hv.
      pose proof Hv as (r & _ & -> & _). apply verified_at_kinds in Hv; [|apply Hf|by apply Hr]. by rewrite Hv, Bool.eqb_reflx in Er.
Qed.

(** C16: Overlaying a running transfer on a scanned root never raises and never
    hides a verified final leaf: the merged tree is well formed and keeps the
    root's name, every final leaf with the remote leaf's exact size and raw
    time is still there with both, every leaf of the merged tree is a leaf of
    the scanned or of the active tree at the same path, and where the active
    tree holds something else at the path of a verified leaf a node on that
    path carries the collision mark. *)
Theorem split_root_merge f a r : good f -> good a -> tree_ok r -> sys_name a = sys_name f ->
  exists m, merge_active_split_root f a (Some r) = Ok m /\ good m /\ sys_name m = sys_name f /\
  (forall p x r', descend f p = Some x -> descend r p = Some r' -> is_verified_final_leaf r' x = true ->
     exists y, descend m p = Some y /\ same_leaf y x) /\
  (forall p y, descend m p = Some y -> sys_is_dir y = false ->
     exists x, (descend f p = Some x \/ descend a p = Some x) /\ same_leaf y x) /\
  (forall p x r' a', descend f p = Some x -> descend r p = Some r' -> is_verified_final_leaf r' x = true ->
     descend a p = Some a' -> leaf_matches_remote_identity r' a' = false -> collided_on m p = true).
Proof.
  intros Hf Ha Hr Hn. destruct (merge_total f a (Some r) Hf Ha) as (m & Em & Hm); [by intros ? [= <-]|done|].
  exists m. split; [done|]. destruct (ov_good _ _ _ _ Hm m eq_refl) as [Gm Nm]. split_and!; [done|done| | |].
  - intros p x r' Hx Hr' Hv. destruct (ov_keeps _ _ _ _ Hm p x) as (m' & y & [= <-] & Hy & Hs); [by exists r, r'|]. eauto.
  - intros p y Hy Dy. destruct (ov_from _ _ _ _ Hm m p y eq_refl Hy Dy) as (x & Hx & Hs). exists x. split; [|done].
    destruct Hx as [Hx|(b & [= <-] & Hx)]; auto.
  - intros p x r' a' Hx Hr' Hv Ha' Hne.
    destruct (ov_marks _ _ _ _ Hm p x a a' r r') as (m' & [= <-] & Hc); try done. by exists r, r'.
Qed.

Definition sample_merge_remote : SystemFile :=
  sample "show" 7 S_DIR None (Some [sample "a" 3 0 (Some 5) None; sample "b" 4 0 (Some 6) None]).
Definition sample_scanned : SystemFile :=
  sample "show" 5 S_DIR None (Some [sample "a" 3 0 (Some 5) None; sample "b" 2 S_STAGING None None]).
Definition sample_active : SystemFile :=
  sample "show" 3 (S_DIR + S_STAGING) None (Some [sample "b" 3 S_STAGING None None]).

Lemma good_check f : tree_okb f = true -> sys_ok f -> good f.
Proof. intros H%tree_okb_ok Hs. by split. Qed.

Lemma split_root_merge_witness :
  (m ← merge_active_split_root sample_scanned sample_active (Some sample_merge_remote);
   Ok (sys_size <$> descend m ["a"], sys_size <$> descend m ["b"])) = Ok (Some 3, Some 3) /\
  exists m, merge_active_split_root sample_scanned sample_active (Some sample_merge_remote) = Ok m.
Proof.
  split; [vm_compute; reflexivity|].
  assert (H : tree_ok sample_merge_remote) by (apply tree_okb_ok; vm_compute; reflexivity).
  destruct (split_root_merge sample_scanned sample_active sample_merge_remote) as (m & Hm & _); [| |exact H|reflexivity|exists m; exact Hm].
  - apply good_check; [vm_compute; reflexivity|]. cbn. unfold node_ok, flags_ok. cbn. repeat split; try lia; intros; try done.
  - apply good_check; [vm_compute; reflexivity|]. cbn. unfold node_ok, flags_ok. cbn. repeat split; try lia; intros; try done.
Defined.

(** ** Confirmed deletions *)

Lemma prune_skip target visit l : forall a, target ∉ map sys_name l ->
  fold_left (prune_child target visit) l (Ok a) =
  Ok (mkPruneLoop (pl_matches a) (pl_changed a) (pl_removed a) (pl_children a ++ l)).
Proof.
  induction l as [|c l IH]; intros a Ht; [destruct a; by rewrite app_nil_r|]. cbn [map] in Ht. apply not_elem_of_cons in Ht as [Hc Ht].
  cbn [fold_left prune_child mbind result_bind]. rewrite (proj2 (String.eqb_neq _ _)) by congruence. cbn [negb].
  rewrite IH by done. cbn. by rewrite <- app_assoc.
Qed.

(** The child [c] stands where its siblings around it leave one target. *)
Lemma prune_hit visit l1 c l2 updated removed changed : sys_name c ∉ map sys_name l1 -> sys_name c ∉ map sys_name l2 ->
  visit c = Ok (updated, removed, changed) ->
  fold_left (prune_child (sys_name c) visit) (l1 ++ c :: l2) (Ok (mkPruneLoop 0 false 0 [])) =
  Ok (mkPruneLoop 1 changed (if changed : bool then removed else 0)
        (l1 ++ (match updated with Some u => [u] | None => [] end) ++ l2)).
Proof.
  intros H1 H2 Hv. rewrite fold_left_app, prune_skip by done. cbn [fold_left prune_child mbind result_bind pl_matches pl_changed pl_removed pl_children].
  rewrite String.eqb_refl. cbn [negb]. rewrite Hv. cbn [mbind result_bind]. rewrite prune_skip by done.
  cbn [pl_matches pl_changed pl_removed pl_children orb app]. destruct updated, changed; by rewrite <- ?app_assoc.
Qed.

Lemma split_at_child f n c : tree_ok f -> first_child f n = Some c ->
  exists l1 l2, sys_children f = l1 ++ c :: l2 /\ n ∉ map sys_name l1 /\ n ∉ map sys_name l2.
Proof.
  intros Hf [Hc <-]%first_child_Some. destruct Hf as [Hnd _ _ _]. apply list_elem_of_split in Hc as (l1 & l2 & E).
  exists l1, l2. split; [done|]. rewrite E, map_app in Hnd. cbn [map] in Hnd. apply NoDup_app in Hnd as (_ & Hd & Hnd).
  apply NoDup_cons in Hnd as [Hnd _]. split; [|done]. intros H. apply (Hd _ H). by left.
Qed.

(** One child removed or replaced by one of the same name. *)
Lemma replaced_child f y l1 c l2 o n : tree_ok f -> sys_children f = l1 ++ c :: l2 ->
  sys_name c ∉ map sys_name l1 -> sys_name c ∉ map sys_name l2 ->
  sys_children y = l1 ++ (match o with Some u => [u] | None => [] end) ++ l2 -> (forall u, o = Some u -> sys_name u = sys_name c) ->
  first_child y n = if decide (n = sys_name c) then o else first_child f n.
Proof.
  intros Hf Ef H1 H2 Ey Hu. unfold first_child. rewrite Ef, Ey.
  assert (Happ : forall l k, List.find (fun d => String.eqb (sys_name d) n) (l ++ k) =
    match List.find (fun d => String.eqb (sys_name d) n) l with Some d => Some d
    | None => List.find (fun d => String.eqb (sys_name d) n) k end).
  { induction l as [|d l IH]; intros k; simpl; [done|]. by destruct (String.eqb (sys_name d) n). }
  assert (Hnone : forall l, n ∉ map sys_name l -> List.find (fun d => String.eqb (sys_name d) n) l = None).
  { induction l as [|d l IH]; [done|]. cbn [map List.find]. intros [Hd Hl]%not_elem_of_cons.
    rewrite (proj2 (String.eqb_neq (sys_name d) n)) by congruence. auto. }
  rewrite !Happ. cbn [List.find]. case_decide as E.
  - subst n. rewrite (Hnone l1) by done. destruct o as [u|]; cbn [List.find]; [|by apply Hnone].
    by rewrite (Hu u eq_refl), String.eqb_refl.
  - rewrite (proj2 (String.eqb_neq (sys_name c) n)) by congruence. destruct (List.find _ l1); [done|].
    destruct o as [u|]; cbn [List.find]; [|done]. rewrite (Hu u eq_refl). by rewrite (proj2 (String.eqb_neq (sys_name c) n)) by congruence.
Qed.

Lemma replaced_kids (P : SystemFile -> Prop) l1 c l2 o : Forall P (l1 ++ c :: l2) -> (forall u, o = Some u -> P u) ->
  Forall P (l1 ++ (match o with Some u => [u] | None => [] end) ++ l2).
Proof.
  intros [H1 [_ H2]%Forall_cons]%Forall_app Hu. apply Forall_app. split; [done|]. apply Forall_app. split; [|done].
  destruct o; [constructor; [auto|constructor]|constructor].
Qed.

Lemma replaced_names l1 c l2 (o : option SystemFile) : NoDup (map sys_name (l1 ++ c :: l2)) -> (forall u, o = Some u -> sys_name u = sys_name c) ->
  NoDup (map sys_name (l1 ++ (match o with Some u => [u] | None => [] end) ++ l2)).
Proof.
  rewrite !map_app. cbn [map]. intros (H1 & Hd & [H2 H3]%NoDup_cons)%NoDup_app Hu. destruct o as [u|].
  - cbn [map app]. rewrite (Hu u eq_refl). apply NoDup_app. split_and!; [done|done|]. by apply NoDup_cons.
  - cbn [map app]. apply NoDup_app. split_and!; [done| |done]. intros n Hn Hn2. apply (Hd n Hn). by right.
Qed.

(** What a deletion of the node [x] at [path] leaves of [f]: nothing at the
    path, the other branches as they are, and the directories on the way with
    their bytes reduced. *)
Record pruned (f u : SystemFile) (path : list string) (x : SystemFile) : Prop := {
  pr_good : good u; pr_name : sys_name u = sys_name f;
  pr_gone : descend u path = None;
  pr_rest q : ~ prefix q path -> ~ prefix path q -> descend u q = descend f q;
  pr_way q d : prefix q path -> q <> path -> descend f q = Some d -> exists d', descend u q = Some d' /\
    sys_size d' = Z.max 0 (sys_size d - sys_size x) /\ sys_mtime_ns d' = sys_mtime_ns d /\ sys_is_dir d' = sys_is_dir d /\
    sys_is_staging d' = sys_is_staging d /\ sys_has_staging_collision d' = sys_has_staging_collision d }.

(** The copy made at one directory of the path. *)
Lemma prune_level f c x l1 l2 o rest : good f -> sys_is_dir f = true ->
  sys_children f = l1 ++ c :: l2 -> sys_name c ∉ map sys_name l1 -> sys_name c ∉ map sys_name l2 ->
  match o with
  | None => rest = []
  | Some u => rest <> [] /\ pruned c u rest x
  end ->
  exists y, clone_system_file f (Some (l1 ++ (match o with Some u => [u] | None => [] end) ++ l2)) None
      (Some (Z.max 0 (sys_size f - sys_size x))) = Ok y /\ pruned f y (sys_name c :: rest) x.
Proof.
  intros Hf Df Ef H1 H2 Ho.
  assert (Hname : forall u, o = Some u -> sys_name u = sys_name c) by (intros u ->; apply Ho).
  assert (Hgood : forall u, o = Some u -> good u) by (intros u ->; apply Ho).
  destruct (good_kids f Hf) as (Hnd & Hn & Hk & _). rewrite Ef in Hnd, Hn, Hk.
  set (kids := l1 ++ (match o with Some u => [u] | None => [] end) ++ l2).
  eexists. rewrite clone_copied; [|lia|congruence]. split; [done|].
  pose proof (copied_looks f (Z.max 0 (sys_size f - sys_size x)) (sys_is_staging f) kids) as Hy.
  set (y := copied f _ _ kids) in *.
  assert (Gy : good y).
  { eapply looks_good; [exact Hy|lia|congruence|by apply (replaced_names l1 c)| |by apply (replaced_kids good l1 c)].
    apply (replaced_kids _ l1 c); [done|]. intros u Eu. rewrite (Hname u Eu).
    rewrite Forall_forall in Hn. apply Hn. apply elem_of_app. right. by left. }
  assert (Hfc : forall n, first_child y n = if decide (n = sys_name c) then o else first_child f n).
  { intros n. apply (replaced_child f y l1 c l2 o n); [apply Hf|done|done|done|apply Hy|done]. }
  assert (Hc : first_child f (sys_name c) = Some c).
  { apply first_child_name; [apply Hf|]. rewrite Ef. apply elem_of_app. right. by left. }
  split; [done|apply Hy| | |].
  - rewrite descend_cons, Hfc, decide_True by done. destruct o as [u|]; [|done]. apply Ho.
  - intros [|n q] Hq1 Hq2; [by destruct Hq1; exists (sys_name c :: rest)|]. rewrite !descend_cons, Hfc. case_decide as E; [|done].
    subst n. rewrite Hc. destruct o as [u|]; cbn [mbind option_bind].
    + destruct Ho as [_ Hu]. apply (pr_rest _ _ _ _ Hu).
      * intros [k E]. apply Hq1. exists k. by rewrite E.
      * intros [k E]. apply Hq2. exists k. by rewrite E.
    + subst rest. destruct Hq2. by exists q.
  - intros [|n q] d [k Ek] Hne.
    + intros [= <-]. exists y. split; [done|]. destruct Hy. done.
    + cbn [app] in Ek. injection Ek as <- Ek. rewrite !descend_cons, Hfc, Hc, decide_True by done. cbn [mbind option_bind]. intros Hd.
      destruct o as [u|]; [|subst rest; destruct q; done]. destruct Ho as [_ Hu].
      apply (pr_way _ _ _ _ Hu q d); [by exists k|congruence|done].
Qed.

Lemma prune_spec path : forall f, good f -> path <> [] ->
  match descend f path with
  | None => prune_confirmed_local_descendant path f = Ok (Some f, 0, false)
  | Some x => exists u, prune_confirmed_local_descendant path f = Ok (Some u, sys_size x, true) /\ pruned f u path x
  end.
Proof.
  induction path as [|target rest IH]; intros f Hf Hne; [done|]. cbn [prune_confirmed_local_descendant].
  rewrite descend_cons. destruct (sys_is_dir f) eqn:Df; cbn [negb].
  2:{ unfold first_child. rewrite (no_children_leaf f) by (try apply Hf; done). done. }
  destruct (first_child f target) as [c|] eqn:Fc; cbn [mbind option_bind].
  2:{ apply first_child_None in Fc. rewrite prune_skip by done. done. }
  pose proof Fc as [Hc Ht]%first_child_Some. destruct (split_at_child f target c (proj1 Hf) Fc) as (l1 & l2 & Ef & H1 & H2).
  assert (Hgc : good c) by (by apply (good_child f)). rewrite Ef. subst target. destruct rest as [|t rest].
  - cbn [descend]. rewrite (prune_hit _ l1 c l2 None (sys_size c) true) by done. cbn [mbind result_bind pl_matches pl_changed pl_removed pl_children Nat.eqb negb orb].
    destruct (prune_level f c c l1 l2 None [] Hf Df Ef H1 H2 eq_refl) as (y & -> & Hy). cbn [mbind result_bind]. eauto.
  - specialize (IH c Hgc ltac:(done)). destruct (descend c (t :: rest)) as [x|] eqn:Ex.
    + destruct IH as (u & Eu & Hu). rewrite (prune_hit _ l1 c l2 (Some u) (sys_size x) true) by done.
      cbn [mbind result_bind pl_matches pl_changed pl_removed pl_children Nat.eqb negb orb].
      destruct (prune_level f c x l1 l2 (Some u) (t :: rest) Hf Df Ef H1 H2) as (y & -> & Hy); [done|]. cbn [mbind result_bind]. eauto.
    + rewrite (prune_hit _ l1 c l2 (Some c) 0 false) by done. done.
Qed.

(** A confirmed deletion below a root removes exactly that node from the
    scanned tree: nothing is left at the path, every branch off it is the one
    that was there, and each directory above it keeps its flags and time and
    loses exactly the deleted bytes (never below zero); when the path is not
    in the tree the tree is returned as it is. *)
Theorem prune_deletion_exact f path : good f -> path <> [] ->
  match descend f path with
  | None => prune_confirmed_local_deletion f path = Ok (Some f)
  | Some x => exists u, prune_confirmed_local_deletion f path = Ok (Some u) /\ pruned f u path x
  end.
Proof.
  intros Hf Hne. pose proof (prune_spec path f Hf Hne) as H. unfold prune_confirmed_local_deletion.
  destruct path as [|n path]; [done|]. destruct (descend f (n :: path)) as [x|].
  - destruct H as (u & -> & Hu). cbn [mbind result_bind]. eauto.
  - rewrite H. done.
Qed.

Lemma prune_deletion_exact_witness :
  (u ← prune_confirmed_local_deletion sample_scanned ["a"]; Ok (option_map sys_size u)) = Ok (Some 2) /\
  exists u, prune_confirmed_local_deletion sample_scanned ["a"] = Ok (Some u).
Proof.
  split; [vm_compute; reflexivity|].
  destruct (prune_deletion_exact sample_scanned ["a"]) as (u & Hu & _); [|discriminate|exists u; exact Hu].
  apply good_check; [vm_compute; reflexivity|]. cbn. unfold node_ok, flags_ok. cbn. repeat split; try lia; intros; try done.
Defined.
