(* ===== verification/EffectiveFacts.v ===== *)
(** * The effective local trees

    [__build_effective_local_files] over whole scans: it never raises, leaves
    roots without a running transfer alone, and invents no leaf; so the proofs
    of completion rest on scanned leaves. *)

From S2P Require Import Prelude PyDict PyStr SystemFile SystemFileFacts TransferEvidence ScanInputs TransferEvidenceFacts ScanInputsFacts SplitRootFacts.

(** Scans whose trees are well formed; an active root has the name of the
    scanned root with its identifier. *)
Record scans_ok (i : ScanInputs) : Prop := {
  so_local fid l : dget (local_files i) fid = Some l -> good (root_file l);
  so_active fid a : dget (active_files i) fid = Some a -> good a;
  so_remote fid r : remote_file i fid = Some r -> tree_ok r;
  so_names fid l a : dget (local_files i) fid = Some l -> dget (active_files i) fid = Some a -> sys_name a = sys_name (root_file l);
  so_wf : dwf (active_files i) }.

Definition base (i : ScanInputs) : effective :=
  map (fun kv => (kv.1, (Some (root_obj kv.2), root_file kv.2))) (local_files i).

Lemma base_get i fid : dget (base i) fid = (fun r => (Some (root_obj r), root_file r)) <$> dget (local_files i) fid.
Proof.
  unfold base. induction (local_files i) as [|[k r] d IH]; [done|]. cbn [map dget fst snd]. by case_decide.
Qed.

(** A leaf of the local or of the active scan of a root. *)
Definition scanned_leaf (i : ScanInputs) (fid : string) (p : list string) (x : SystemFile) : Prop :=
  (exists l, dget (local_files i) fid = Some l /\ descend (root_file l) p = Some x) \/
  (exists a, dget (active_files i) fid = Some a /\ descend a p = Some x).

(** An entry whose tree is well formed and made of scanned leaves. *)
Definition entry_ok (i : ScanInputs) (fid : string) (f : SystemFile) : Prop :=
  good f /\ forall p y, descend f p = Some y -> sys_is_dir y = false -> exists x, scanned_leaf i fid p x /\ same_leaf y x.

Lemma local_entry i fid l : scans_ok i -> dget (local_files i) fid = Some l -> entry_ok i fid (root_file l).
Proof.
  intros Hi Hl. split; [by apply (so_local i Hi fid)|]. intros p y Hy Dy. exists y. split; [left; eauto|by apply same_leaf_refl].
Qed.

Lemma active_entry i fid a : scans_ok i -> dget (active_files i) fid = Some a -> entry_ok i fid a.
Proof.
  intros Hi Ha. split; [by apply (so_active i Hi fid)|]. intros p y Hy Dy. exists y. split; [right; eauto|by apply same_leaf_refl].
Qed.

Lemma effective_root_ok i auth fid a : scans_ok i -> dget (active_files i) fid = Some a ->
  exists o, effective_root i auth fid (dget (base i) fid) a = Ok o /\ forall f, o = Some f -> entry_ok i fid f.
Proof.
  intros Hi Ha. rewrite base_get. destruct (dget (local_files i) fid) as [l|] eqn:El; cbn [fmap option_fmap option_map effective_root].
  2:{ exists (Some a). split; [done|]. intros f [= <-]. by apply active_entry. }
  destruct (match remote_file i fid with Some r => _ | None => false end) eqn:Em.
  - destruct (merge_total (root_file l) a (remote_file i fid)) as (m & -> & Hm);
      [by apply (so_local i Hi fid)|by apply (so_active i Hi fid)|intros r; apply (so_remote i Hi)|by apply (so_names i Hi fid)|].
    exists (Some m). split; [done|]. intros f [= <-]. split; [apply (ov_good _ _ _ _ Hm m eq_refl)|]. intros p y Hy Dy.
    destruct (ov_from _ _ _ _ Hm m p y eq_refl Hy Dy) as (x & Hx & Hs). exists x. split; [|done].
    destruct Hx as [Hx|(b & [= <-] & Hx)]; [left|right]; eauto.
  - destruct (sys_is_staging (root_file l)); [by exists None|]. destruct (_ && _); [by exists None|].
    exists (Some a). split; [done|]. intros f [= <-]. by apply active_entry.
Qed.

(** The loop, with the roots still to come untouched. *)
Lemma effective_loop i auth l : forall eff, scans_ok i -> NoDup (map fst l) ->
  (forall fid a, (fid, a) ∈ l -> dget (active_files i) fid = Some a) ->
  (forall fid, fid ∈ map fst l -> dget eff fid = dget (base i) fid) ->
  (forall fid o f, dget eff fid = Some (o, f) -> entry_ok i fid f) ->
  exists eff', fold_left (effective_step i auth) l (Ok eff) = Ok eff' /\
    (forall fid o f, dget eff' fid = Some (o, f) -> entry_ok i fid f) /\
    (forall fid, fid ∉ map fst l -> dget eff' fid = dget eff fid) /\
    (forall fid, is_Some (dget eff fid) -> is_Some (dget eff' fid)).
Proof.
  induction l as [|[fid a] l IH]; intros eff Hi Hnd Hl Hbase Hok; [by exists eff|]. cbn [map fst] in *.
  apply NoDup_cons in Hnd as [Hfid Hnd]. cbn [fold_left effective_step mbind result_bind].
  assert (Hnext : forall eff1, (forall k, k <> fid -> dget eff1 k = dget eff k) ->
    (forall o f, dget eff1 fid = Some (o, f) -> entry_ok i fid f) -> (is_Some (dget eff fid) -> is_Some (dget eff1 fid)) ->
    exists eff', fold_left (effective_step i auth) l (Ok eff1) = Ok eff' /\
    (forall k o f, dget eff' k = Some (o, f) -> entry_ok i k f) /\
    (forall k, k ∉ fid :: map fst l -> dget eff' k = dget eff k) /\
    (forall k, is_Some (dget eff k) -> is_Some (dget eff' k))).
  { intros eff1 H1 H2 H3. destruct (IH eff1) as (eff' & E & K1 & K2 & K3); [done|done|intros k b Hk; apply Hl; by right| | |].
    - intros k Hk. rewrite H1 by (intros ->; done). apply Hbase. by right.
    - intros k o f. destruct (decide (k = fid)) as [->|Hne]; [apply H2|]. rewrite H1 by done. apply Hok.
    - exists eff'. split_and!; [done|done| |].
      + intros k [Hk1 Hk2]%not_elem_of_cons. rewrite K2 by done. by apply H1.
      + intros k Hk. apply K3. destruct (decide (k = fid)) as [->|Hne]; [auto|]. by rewrite H1. }
  destruct (nested_active_file_root_file_id i a None).
  - apply Hnext; [done| |done]. intros o f. apply Hok.
  - destruct (effective_root_ok i auth fid a Hi) as (o & Eo & Ho); [apply Hl; by left|].
    replace (dget eff fid) with (dget (base i) fid) by (symmetry; apply Hbase; by left). rewrite Eo.
    cbn [mbind result_bind]. destruct o as [f|].
    + apply Hnext; [intros k Hk; by apply dget_dset_ne| |intros _; rewrite dget_dset_eq; eauto]. intros o f'. rewrite dget_dset_eq. intros [= <- <-]. auto.
    + apply Hnext; [done| |done]. intros o f'. apply Hok.
Qed.

Lemma effective_total i auth : scans_ok i -> exists eff, build_effective_local_files i auth = Ok eff /\
  (forall fid o f, dget eff fid = Some (o, f) -> entry_ok i fid f) /\
  (forall fid, dget (active_files i) fid = None -> dget eff fid = dget (base i) fid) /\
  (forall fid, is_Some (dget (local_files i) fid) -> is_Some (dget eff fid)).
Proof.
  intros Hi. destruct (effective_loop i auth (active_files i) (base i)) as (eff & E & K1 & K2 & K3); [done|apply Hi| |done| |].
  - intros fid a Hin. apply dget_elem_of; [apply Hi|done].
  - intros fid o f. rewrite base_get. intros (l & Hl & [= -> ->])%fmap_Some. by apply local_entry.
  - exists eff. split_and!; [done|done| |].
    + intros fid Hn. apply K2. by apply dget_None in Hn.
    + intros fid Hs. apply K3. rewrite base_get. destruct Hs as [l ->]. eauto.
Qed.

(** For well-formed scans the effective local trees are always computed
    (no merge raises), every scanned root is among them, a root without a
    running transfer is exactly its scanned tree, and every leaf of an
    effective tree is a leaf of the local or of the active scan of that root
    with the same size, raw time and staging flag. *)
Theorem effective_files_grounded i auth : scans_ok i ->
  exists eff, build_effective_local_files i auth = Ok eff /\
  (forall fid, is_Some (dget (local_files i) fid) -> is_Some (dget eff fid)) /\
  (forall fid l, dget (local_files i) fid = Some l -> dget (active_files i) fid = None ->
     dget eff fid = Some (Some (root_obj l), root_file l)) /\
  (forall fid o f p y, dget eff fid = Some (o, f) -> descend f p = Some y -> sys_is_dir y = false ->
     exists x, scanned_leaf i fid p x /\ same_leaf y x).
Proof.
  intros Hi. destruct (effective_total i auth Hi) as (eff & E & K1 & K2 & K3). exists eff. split_and!; [done|done| |].
  - intros fid l Hl Ha. by rewrite K2, base_get, Hl.
  - intros fid o f p y Hf Hy Dy. by apply (proj2 (K1 fid o f Hf)).
Qed.

(** Size and whole second of the remote leaf. *)
Definition portable_match (r x : SystemFile) : Prop :=
  sys_size x = sys_size r /\ exists a b, sys_mtime_ns x = Some a /\ sys_mtime_ns r = Some b /\ a / second_ns = b / second_ns.

Lemma leaf_proved_portable r x : leaf_proved r x -> portable_match r x.
Proof.
  intros H. split; [by apply leaf_proved_size|]. destruct H as [_ H]. revert H.
  unfold leaf_matches_remote_collision_identity, leaf_matches_remote_queue_exclusion_identity, leaf_times.
  destruct (_ && (sys_size x =? sys_size r)); [|rewrite andb_false_r; by destruct (sys_is_staging x)].
  destruct (sys_mtime_ns x) as [a|]; [|rewrite andb_false_r; by destruct (sys_is_staging x)].
  destruct (sys_mtime_ns r) as [b|]; [|rewrite andb_false_r; by destruct (sys_is_staging x)].
  intros H. exists a, b. split_and!; [done|done|]. destruct (sys_is_staging x); [lia|].
  apply andb_true_iff in H as [_ [->%Z.eqb_eq|[_ H]%andb_true_iff]%orb_true_iff]; [done|lia].
Qed.

(** C19: The proof that authorises an automatic move rests on scanned files:
    when it succeeds for a root, every leaf of the current remote tree is
    matched by a leaf of the local or of the active scan of that root at the
    same path, with the same size and the same whole second of its raw
    modification time. *)
Theorem move_proof_grounded i fid session generation reconciled r p rl : scans_ok i ->
  has_verified_complete_staging_remote_identity i fid session generation reconciled = Ok true ->
  remote_file i fid = Some r -> descend r p = Some rl -> sys_is_dir rl = false ->
  exists x, scanned_leaf i fid p x /\ portable_match rl x.
Proof.
  intros Hi Hv Er Hp Dl. unfold has_verified_complete_staging_remote_identity, effective_local_file in Hv.
  destruct (effective_total i (normalize_current_local_scan_authority session generation reconciled) Hi) as (eff & E & K1 & _).
  rewrite E, Er in Hv. cbn [mbind result_bind] in Hv. destruct (dget eff fid) as [[o f]|] eqn:Ef; [|done]. cbn in Hv.
  destruct (K1 fid o f Ef) as [Gf Hf].
  destruct (Bool.eqb (sys_is_dir r) (sys_is_dir f)); [|done]. cbn [negb] in Hv.
  assert (Hc : covers node_proved known_final r f).
  { apply verify_staged_iff; [by apply (so_remote i Hi fid)|apply Gf|]. by destruct (verify_staged r (Some f)) as [[] ?]. }
  destruct (cv_nodes _ _ _ _ Hc p rl Hp) as (y & Hy & Dy & [_ Hl]). rewrite Dl in Dy.
  destruct (Hf p y Hy Dy) as (x & Hx & (_ & _ & Hsize & Hns & _)). exists x. split; [done|].
  destruct (leaf_proved_portable rl y (Hl Dl)) as (H1 & a & b & H2 & H3). split; [congruence|]. exists a, b.
  split; [congruence|done].
Qed.

(** One local, one remote and one active root with one identifier. *)
Definition single_inputs (l r : scan_root) (a : SystemFile) : ScanInputs :=
  mkInputs (bucket_files [l]) (bucket_files [r]) [(root_id l, a)] ∅ [].

Lemma single_scans l r a : root_named l -> root_named r -> good (root_file l) -> good a -> tree_ok (root_file r) ->
  sys_name a = sys_name (root_file l) -> scans_ok (single_inputs l r a).
Proof.
  intros Hl Hr Gl Ga Tr Hn.
  assert (Hlocal : forall fid x, dget (local_files (single_inputs l r a)) fid = Some x -> x = l).
  { intros fid x. unfold local_files. cbn [local_files_by_pair single_inputs].
    rewrite flatten_get, single_bucket by (try apply bucket_files_ok; by repeat constructor). case_decide; [by intros [= <-]|done]. }
  assert (Hactive : forall fid x, dget (active_files (single_inputs l r a)) fid = Some x -> x = a).
  { intros fid x. cbn [active_files single_inputs dget]. case_decide; [by intros [= <-]|done]. }
  split.
  - by intros fid x ->%Hlocal.
  - by intros fid x ->%Hactive.
  - intros fid x. unfold remote_file. cbn [remote_files_by_pair single_inputs]. rewrite single_bucket by done.
    case_decide; [by intros [= <-]|done].
  - by intros fid x y ->%Hlocal ->%Hactive.
  - apply NoDup_singleton.
Qed.

Definition sample_running : SystemFile :=
  sample "show" 3 (S_DIR + S_STAGING) None (Some [sample "a" 3 S_STAGING (Some 5000000000) None]).

Lemma sample_scans : scans_ok (single_inputs (mkRoot 1 sample_staged) (mkRoot 2 sample_remote) sample_running).
Proof.
  apply single_scans; [intros _; vm_compute; reflexivity..| | | |reflexivity].
  - apply good_check; [vm_compute; reflexivity|]. cbn. unfold node_ok, flags_ok. cbn. repeat split; try lia; intros; try done.
  - apply good_check; [vm_compute; reflexivity|]. cbn. unfold node_ok, flags_ok. cbn. repeat split; try lia; intros; try done.
  - apply tree_okb_ok. vm_compute. reflexivity.
Qed.

Lemma effective_files_grounded_witness :
  exists eff, build_effective_local_files (single_inputs (mkRoot 1 sample_staged) (mkRoot 2 sample_remote) sample_running) None = Ok eff.
Proof.
  destruct (effective_files_grounded (single_inputs (mkRoot 1 sample_staged) (mkRoot 2 sample_remote) sample_running) None sample_scans)
    as (eff & Heff & _).
  exists eff. exact Heff.
Defined.

Lemma move_proof_grounded_witness :
  let i := single_inputs (mkRoot 1 sample_staged) (mkRoot 2 sample_remote) sample_running in
  has_verified_complete_staging_remote_identity i "show" PyNone PyNone None = Ok true /\
  exists x, scanned_leaf i "show" ["a"] x /\ portable_match (sample "a" 3 0 (Some 5000000007) None) x.
Proof.
  assert (H : has_verified_complete_staging_remote_identity
    (single_inputs (mkRoot 1 sample_staged) (mkRoot 2 sample_remote) sample_running) "show" PyNone PyNone None = Ok true)
    by (vm_compute; reflexivity).
  split; [exact H|].
  apply (move_proof_grounded _ "show" PyNone PyNone None sample_remote ["a"] _ sample_scans H); vm_compute; reflexivity.
Defined.
