(* ===== verification/LifecycleState.v ===== *)
(** * The lifecycle state of a root ([controller/model_builder.py])

    [__determine_state]: how the persisted markers, the extraction and
    validation statuses and the failed moves turn the transfer state of a
    rendered root into the state readers see.  The trace records of the source
    are output only. *)

From S2P Require Import Prelude PyDict PyStr SystemFile ModelFile TransferEvidence.

Record ValidateStatus := mkValidate {
  vs_state : State; vs_progress : option Z; vs_error : option string; vs_corrupt_chunks : option (list Z) }.

(** The lifecycle inputs of the builder; an extraction status is known by
    whether it is one of a directory. *)
Record lifecycle := mkLifecycle {
  downloaded_files : option (gset string); extracted_files : gset string;
  suppressed_ambiguous_extracted_file_names : gset string; move_failed_files : gset string;
  final_move_succeeded_files : gset string; unknown_pairs : gset (option string);
  extract_statuses : dict string bool; validation_statuses : dict string ValidateStatus }.

Definition model_file_matches_persisted_name (fid : string) (persisted : option (gset string)) : bool :=
  match persisted with None => false | Some s => bool_decide (fid ∈ s) end.

Definition check_persist_authority (b : lifecycle) (fid : string) (f : ModelFile) : ModelFile :=
  match downloaded_files b with
  | None => f
  | Some _ =>
      if bool_decide (path_pair_id f ∈ unknown_pairs b) then f
      else if bool_decide (state f = DEFAULT) && bool_decide (local_size f = None) &&
              model_file_matches_persisted_name fid (downloaded_files b)
      then put_state f DELETED else f
  end.

Definition check_extracting (b : lifecycle) (fid : string) (f : ModelFile) : result ModelFile :=
  match dget (extract_statuses b) fid with
  | None => Ok f
  | Some dir =>
      if negb (Bool.eqb (is_dir f) dir) then Raise (ModelError "Mismatch in is_dir between file and extract status")
      else if (bool_decide (state f = DEFAULT) || bool_decide (state f = DOWNLOADED)) && negb (bool_decide (local_size f = None))
      then Ok (put_state f EXTRACTING) else Ok f
  end.

Definition mark_extracted (b : lifecycle) (fid : string) (local : option SystemFile) (f : ModelFile) : ModelFile :=
  if model_file_matches_persisted_name fid (Some (extracted_files b)) && bool_decide (state f = DOWNLOADED) &&
     is_authoritative_local_file local &&
     (bool_decide (fid ∈ extracted_files b) || negb (bool_decide (name f ∈ suppressed_ambiguous_extracted_file_names b)))
  then put_state f EXTRACTED else f.

Definition validatable (s : State) : bool :=
  match s with DEFAULT | DOWNLOADED | EXTRACTED | VALIDATING | VALIDATED | CORRUPT => true | _ => false end.

Definition py_chunks (c : option (list Z)) : pyval := match c with None => PyNone | Some l => PyList (map PyInt l) end.

Definition check_validating (b : lifecycle) (fid : string) (f : ModelFile) : result ModelFile :=
  match dget (validation_statuses b) fid with
  | None => Ok f
  | Some v =>
      if validatable (state f) && negb (bool_decide (local_size f = None)) && negb (bool_decide (remote_size f = None)) then
        f ← set_validation_progress (put_state f (vs_state v)) (py_opt_int (vs_progress v));
        f ← set_validation_error f (py_opt_str (vs_error v));
        set_corrupt_chunks f (py_chunks (vs_corrupt_chunks v))
      else Ok f
  end.

Definition determine_state (b : lifecycle) (r : fileref) (local : option SystemFile) : result ModelFile :=
  let fid := file_id r in
  f ← set_final_move_succeeded (ref_file r) (PyBool (bool_decide (fid ∈ final_move_succeeded_files b)));
  let f := check_persist_authority b fid f in
  f ← check_extracting b fid f;
  let f := mark_extracted b fid local f in
  f ← check_validating b fid f;
  Ok (if bool_decide (fid ∈ move_failed_files b) then put_state f MOVE_FAILED else f).

(** ** What a verdict means *)

(** What [determine_state] never touches. *)
Definition kept (f : ModelFile) : string * bool * option Z * option Z * option string * option (list ModelFile) :=
  (name f, is_dir f, remote_size f, local_size f, path_pair_id f, children_slot f).

Lemma kept_put_state f s : kept (put_state f s) = kept f.
Proof. done. Qed.

Lemma kept_runtime f k v d : kept (set_runtime f k v d) = kept f /\ state (set_runtime f k v d) = state f.
Proof. unfold set_runtime. destruct (py_same v d); [|done]. by destruct (f_runtime (slots f)). Qed.

Lemma kept_persist b fid f : kept (check_persist_authority b fid f) = kept f.
Proof. unfold check_persist_authority. destruct (downloaded_files b); [|done]. by repeat case_match. Qed.

Lemma kept_extracting b fid f g : check_extracting b fid f = Ok g -> kept g = kept f.
Proof.
  unfold check_extracting. destruct (dget _ _); [|by intros [= <-]]. destruct (negb _); [done|].
  destruct (_ && _); by intros [= <-].
Qed.

Lemma kept_extracted b fid local f : kept (mark_extracted b fid local f) = kept f.
Proof. unfold mark_extracted. by case_match. Qed.

(** The validation fields are written without touching the rest. *)
Lemma validation_writes f v g :
  (f ← set_validation_progress f (py_opt_int (vs_progress v));
   f ← set_validation_error f (py_opt_str (vs_error v)); set_corrupt_chunks f (py_chunks (vs_corrupt_chunks v))) = Ok g ->
  kept g = kept f /\ state g = state f.
Proof.
  assert (Hp : forall f o g, set_validation_progress f (py_opt_int o) = Ok g -> kept g = kept f /\ state g = state f).
  { intros h o k. unfold set_validation_progress, set_percent. destruct o as [z|]; cbn [py_opt_int].
    - case_match; [done|]. intros [= <-]. apply kept_runtime.
    - intros [= <-]. apply kept_runtime. }
  assert (He : forall f o g, set_validation_error f (py_opt_str o) = Ok g -> kept g = kept f /\ state g = state f).
  { intros h o k. unfold set_validation_error. destruct o; intros [= <-]; apply kept_runtime. }
  assert (Hc : forall f o g, set_corrupt_chunks f (py_chunks o) = Ok g -> kept g = kept f /\ state g = state f).
  { intros h o k. unfold set_corrupt_chunks. destruct o; cbn [py_chunks]; [case_match; [|done]|]; intros [= <-]; apply kept_runtime. }
  destruct (set_validation_progress f _) as [f1|e] eqn:E1; [|done]. cbn [mbind result_bind].
  destruct (set_validation_error f1 _) as [f2|e] eqn:E2; [|done]. cbn [mbind result_bind]. intros E3.
  destruct (Hp _ _ _ E1), (He _ _ _ E2), (Hc _ _ _ E3). split; congruence.
Qed.

Lemma kept_validating b fid f g : check_validating b fid f = Ok g ->
  kept g = kept f /\ (state g = state f \/ exists v, dget (validation_statuses b) fid = Some v /\ validatable (state f) = true /\
    local_size f <> None /\ remote_size f <> None /\ state g = vs_state v).
Proof.
  unfold check_validating. destruct (dget _ _) as [v|]; [|intros [= <-]; auto].
  destruct (_ && _) eqn:E; [|intros [= <-]; auto]. rewrite !andb_true_iff, !negb_true_iff, !bool_decide_eq_false in E.
  destruct E as [[E1 E2] E3]. intros [H1 H2]%validation_writes. split; [done|]. right. exists v. done.
Qed.

Lemma validating_errors b fid f e : check_validating b fid f = Raise e ->
  exists v, dget (validation_statuses b) fid = Some v /\ (e = ValueError \/ e = TypeError).
Proof.
  unfold check_validating. destruct (dget _ _) as [v|]; [|done]. destruct (_ && _); [|done]. intros H. exists v. split; [done|].
  unfold set_validation_progress, set_percent, set_validation_error, set_corrupt_chunks in H.
  destruct (vs_progress v) as [z|], (vs_error v), (vs_corrupt_chunks v); cbn [py_opt_int py_opt_str py_chunks mbind result_bind] in H;
    repeat (case_match; cbn [mbind result_bind] in H); simplify_eq; auto.
Qed.

(** Where a verdict comes from: the state the transfers gave the root, or the
    marker, status or failure that justifies it. *)
Definition justified (b : lifecycle) (r : fileref) (local : option SystemFile) (s : State) : Prop :=
  let f := ref_file r in
  let fid := file_id r in
  s = state f \/
  (s = DELETED /\ state f = DEFAULT /\ local_size f = None /\ path_pair_id f ∉ unknown_pairs b /\
     exists d, downloaded_files b = Some d /\ fid ∈ d) \/
  (s = EXTRACTING /\ (state f = DEFAULT \/ state f = DOWNLOADED) /\ local_size f <> None /\
     dget (extract_statuses b) fid = Some (is_dir f)) \/
  (s = EXTRACTED /\ state f = DOWNLOADED /\ is_authoritative_local_file local = true /\ fid ∈ extracted_files b) \/
  (exists v, s = vs_state v /\ dget (validation_statuses b) fid = Some v /\ local_size f <> None /\ remote_size f <> None) \/
  (s = MOVE_FAILED /\ fid ∈ move_failed_files b).

Lemma persist_state b fid f : let g := check_persist_authority b fid f in
  state g = state f \/
  (state g = DELETED /\ state f = DEFAULT /\ local_size f = None /\ path_pair_id f ∉ unknown_pairs b /\
     exists d, downloaded_files b = Some d /\ fid ∈ d).
Proof.
  cbv zeta. unfold check_persist_authority. destruct (downloaded_files b) as [d|] eqn:Ed; [|auto].
  case_bool_decide; [auto|]. destruct (_ && _) eqn:E; [|auto]. right. unfold model_file_matches_persisted_name in E.
  rewrite !andb_true_iff, !bool_decide_eq_true in E. destruct E as [[? ?] ?]. split_and!; eauto.
Qed.

Lemma extracting_state b fid f g : check_extracting b fid f = Ok g ->
  state g = state f \/
  (state g = EXTRACTING /\ (state f = DEFAULT \/ state f = DOWNLOADED) /\ local_size f <> None /\
     dget (extract_statuses b) fid = Some (is_dir f)).
Proof.
  unfold check_extracting. destruct (dget _ _) as [d|]; [|intros [= <-]; auto].
  destruct (Bool.eqb (is_dir f) d) eqn:Ed; cbn [negb]; [|done]. apply Bool.eqb_prop in Ed as ->.
  destruct (_ && _) eqn:E; intros [= <-]; [|auto]. rewrite andb_true_iff, orb_true_iff, negb_true_iff in E.
  rewrite !bool_decide_eq_true, bool_decide_eq_false in E. right. tauto.
Qed.

Lemma extracted_state b fid local f : let g := mark_extracted b fid local f in
  state g = state f \/
  (state g = EXTRACTED /\ state f = DOWNLOADED /\ is_authoritative_local_file local = true /\ fid ∈ extracted_files b).
Proof.
  cbv zeta. unfold mark_extracted. destruct (_ && _) eqn:E; [|auto]. right. unfold model_file_matches_persisted_name in E.
  rewrite !andb_true_iff, !bool_decide_eq_true in E. tauto.
Qed.

(** A root's lifecycle verdict is always justified: it is the state the
    transfers gave it, or DELETED because a root known to be downloaded has
    no local bytes while its pair's local scan is known, or EXTRACTING,
    EXTRACTED or a validation verdict because a matching status or marker and
    the local file support it, or MOVE_FAILED, which wins over everything;
    nothing else of the root changes, and the only failure besides an
    out-of-range validation value is an extraction status of the wrong kind. *)
Theorem lifecycle_verdict b r local :
  match determine_state b r local with
  | Ok g =>
      justified b r local (state g) /\ kept g = kept (ref_file r) /\ (file_id r ∈ move_failed_files b -> state g = MOVE_FAILED)
  | Raise e =>
      (exists msg d, e = ModelError msg /\ dget (extract_statuses b) (file_id r) = Some d /\ d <> is_dir (ref_file r)) \/
      (exists v, dget (validation_statuses b) (file_id r) = Some v /\ (e = ValueError \/ e = TypeError))
  end.
Proof.
  unfold determine_state. set (fid := file_id r). set (f0 := ref_file r). cbn [set_final_move_succeeded set_checked_bool mbind result_bind].
  set (f1 := set_runtime f0 _ _ _). destruct (kept_runtime f0 "final_move_succeeded"
    (PyBool (bool_decide (fid ∈ final_move_succeeded_files b))) (PyBool false)) as [K1 S1]. fold f1 in K1, S1.
  pose proof (persist_state b fid f1) as S2. pose proof (kept_persist b fid f1) as K2. cbv zeta in S2.
  set (f2 := check_persist_authority b fid f1) in *. rewrite K1 in K2.
  destruct (check_extracting b fid f2) as [f3|e] eqn:E3; cbn [mbind result_bind].
  2:{ left. unfold check_extracting in E3. destruct (dget _ _) as [d|]; [|done].
      destruct (Bool.eqb (is_dir f2) d) eqn:Ed; cbn [negb] in E3; [by destruct (_ && _)|]. injection E3 as <-.
      eexists _, d. split_and!; [done|done|]. intros ->. injection K2 as _ Kd _. rewrite Kd, Bool.eqb_reflx in Ed. done. }
  pose proof (extracting_state b fid f2 f3 E3) as S3. pose proof (kept_extracting b fid f2 f3 E3) as K3. rewrite K2 in K3.
  pose proof (extracted_state b fid local f3) as S4. pose proof (kept_extracted b fid local f3) as K4. cbv zeta in S4. rewrite K3 in K4.
  set (f4 := mark_extracted b fid local f3) in *.
  destruct (check_validating b fid f4) as [f5|e] eqn:E5; cbn [mbind result_bind].
  2:{ right. by apply validating_errors in E5. }
  destruct (kept_validating b fid f4 f5 E5) as [K5 S5]. rewrite K4 in K5.
  assert (Hj : justified b r local (state f5)).
  { injection K1 as N1 D1 R1 L1 P1 C1. injection K2 as N2 D2 R2 L2 P2 C2. injection K4 as N4 D4 R4 L4 P4 C4.
    unfold justified. fold fid. fold f0. rewrite R4, L4 in S5. rewrite D2, L2 in S3. rewrite L1, P1 in S2. rewrite S1 in S2.
    destruct S5 as [->|(v & ? & _ & ? & ? & ?)]; [|naive_solver]. destruct S4 as [->|(-> & S4 & ? & ?)].
    - destruct S3 as [->|(-> & S3 & ? & ?)]; [destruct S2 as [->|?]; [auto|tauto]|].
      destruct S2 as [S2|(S2 & _)]; rewrite S2 in S3; [tauto|naive_solver].
    - destruct S3 as [S3|(S3 & _)]; rewrite S3 in S4; [|done].
      destruct S2 as [S2|(S2 & _)]; rewrite S2 in S4; [tauto|done]. }
  case_bool_decide as Hm; split_and!; [|by rewrite kept_put_state|done|done|done|by intros ?].
  change (state (put_state f5 MOVE_FAILED)) with MOVE_FAILED. unfold justified. tauto.
Qed.
