(* ===== verification/Exclude.v ===== *)
(** * Exclusions ([common/exclude_patterns.py])

    The configured globs, the exact recovery exclusions, and the filter that
    prunes a scanned tree, against a declarative statement of which paths
    stay. *)

From S2P Require Import Prelude PyDict PyStr Json SystemFile SystemFileFacts.

(** ** Pattern lists *)

(** [str | Iterable[str | None] | None] *)
Inductive raw_patterns := RawNone | RawStr (s : string) | RawList (l : list (option string)).

Definition raw_list (raw : raw_patterns) : list (option string) :=
  match raw with
  | RawNone => []
  | RawStr s => map Some (split ","%char s)
  | RawList l => l
  end.

Fixpoint parse_loop (seen : gset string) (l : list (option string)) : list string :=
  match l with
  | [] => []
  | None :: l' => parse_loop seen l'
  | Some p :: l' =>
      let normalized := strip p in
      if String.eqb normalized "" || bool_decide (normalized ∈ seen) then parse_loop seen l'
      else normalized :: parse_loop ({[normalized]} ∪ seen) l'
  end.

Definition parse_exclude_patterns (raw : raw_patterns) : list string := parse_loop ∅ (raw_list raw).

(** The glob and whether it is for directories only. *)
Definition compile_exclude_patterns (raw : raw_patterns) : list (string * bool) :=
  map (fun p => (rstrip_char "/"%char p, endswith p "/")) (parse_exclude_patterns raw).

(** [ExactPathExclusion(...)] *)
Definition exact_path (v : pyval) : result string :=
  match v with
  | PyStr p =>
      if String.eqb p "" || startswith p "/" ||
         existsb (fun part => String.eqb part "" || String.eqb part "." || String.eqb part "..") (split "/"%char p)
      then Raise ValueError
      else if existsb (fun c => (ord c <? 32) || (ord c =? 127)) (chars p) then Raise ValueError
      else Ok p
  | _ => Raise TypeError
  end.

Inductive transfer_item := TGlob (p : option string) | TExact (path : string).
Inductive transfer_exclusions := TRaw (raw : raw_patterns) | TItems (l : list transfer_item).

Definition exact_items (l : list transfer_item) : list string :=
  fold_left (fun acc i =>
    match i with
    | TExact p => if bool_decide (p ∈ acc) then acc else acc ++ [p]
    | TGlob _ => acc
    end) l [].

Definition glob_items (l : list transfer_item) : list (option string) :=
  filter_map (fun i => match i with TGlob p => Some p | TExact _ => None end) l.

Definition partition_transfer_exclusions (e : transfer_exclusions) : list string * list string :=
  match e with
  | TRaw raw => (parse_exclude_patterns raw, [])
  | TItems l => (parse_exclude_patterns (RawList (glob_items l)), exact_items l)
  end.

(** ** The filter *)

Definition matches_exclude (relative_path : string) (is_dir : bool) (patterns : list (string * bool)) : bool :=
  existsb (fun '(p, dir_only) => fnmatch relative_path p && (negb dir_only || is_dir)) patterns.

Fixpoint add_children (l : list SystemFile) (f : SystemFile) : result SystemFile :=
  match l with
  | [] => Ok f
  | c :: l' => f' ← sys_add_child f c; add_children l' f'
  end.

Definition sum_sizes (l : list SystemFile) : Z := foldr (fun c n => sys_size c + n) 0 l.

Definition clone_system_file (f : SystemFile) (children : option (list SystemFile)) : result SystemFile :=
  c ← new_system_file (sys_name f) (match children with Some l => sum_sizes l | None => sys_size f end)
        (sys_is_dir f) (sf_created (sys_slots f)) (sf_modified (sys_slots f)) (sys_is_staging f)
        (sf_mtime_ns (sys_slots f)) None;
  c ← set_sys_pair_id c (of_opt_str (sf_pair_id (sys_slots f)));
  c ← set_sys_pair_name c (of_opt_str (sf_pair_name (sys_slots f)));
  c ← set_status_sidecar_ready c (PyBool (sys_status_sidecar_ready f));
  c ← set_has_staging_collision c (PyBool (sys_has_staging_collision f));
  add_children (match children with Some l => l | None => sys_children f end) c.

Definition child_relative_path (parent : option string) (child : string) : string :=
  match parent with
  | None => child
  | Some p => if String.eqb p "" then child else p +:+ "/" +:+ child
  end.

Fixpoint filter_excluded_tree (f : SystemFile) (relative_path : option string) (patterns : list (string * bool))
    : result (option SystemFile) :=
  match f with
  | mkSys fl cs =>
      let go := fix go (l : list SystemFile) : result (list SystemFile) :=
        match l with
        | [] => Ok []
        | c :: l' =>
            x ← filter_excluded_tree c (Some (child_relative_path relative_path (sys_name c))) patterns;
            xs ← go l';
            Ok (match x with Some c' => c' :: xs | None => xs end)
        end in
      if match relative_path with Some p => matches_exclude p (has_bits (sf_flags fl) S_DIR) patterns | None => false end
      then Ok None
      else if negb (has_bits (sf_flags fl) S_DIR) then
        c ← clone_system_file (mkSys fl cs) None; Ok (Some c)
      else
        kids ← match cs with Some l => go l | None => Ok [] end;
        c ← clone_system_file (mkSys fl cs) (Some kids); Ok (Some c)
  end.

Fixpoint filter_files (patterns : list (string * bool)) (l : list SystemFile) : result (list SystemFile) :=
  match l with
  | [] => Ok []
  | f :: l' =>
      if matches_exclude (sys_name f) (sys_is_dir f) patterns then filter_files patterns l'
      else
        x ← (if sys_is_dir f then filter_excluded_tree f None patterns
             else c ← clone_system_file f None; Ok (Some c));
        xs ← filter_files patterns l';
        Ok (match x with Some c => c :: xs | None => xs end)
  end.

Definition filter_excluded_files (files : option (list SystemFile)) (raw : raw_patterns) : result (list SystemFile) :=
  match files with
  | None => Ok []
  | Some l =>
      match compile_exclude_patterns raw with
      | [] => Ok l
      | patterns => filter_files patterns l
      end
  end.

(** ** Pattern lists: facts *)

Lemma parse_loop_spec seen l :
  NoDup (parse_loop seen l) /\
  forall p, p ∈ parse_loop seen l <-> p <> "" /\ p ∉ seen /\ exists raw, Some raw ∈ l /\ strip raw = p.
Proof.
  revert seen. induction l as [|[q|] l IH]; intros seen; simpl.
  - split; [constructor|]. intros p. split; [intros Hp; inversion Hp|]. intros (_ & _ & raw & Hin & _). inversion Hin.
  - destruct (String.eqb_spec (strip q) "") as [E|Hne]; cbn [orb].
    { destruct (IH seen) as [Hnd Hin]. split; [done|]. intros p. rewrite Hin. setoid_rewrite elem_of_cons.
      split; [intros (? & ? & raw & ? & ?); eauto 6|]. intros (? & ? & raw & [[= ->]|?] & ?); [congruence|eauto 6]. }
    case_bool_decide as Hseen.
    { destruct (IH seen) as [Hnd Hin]. split; [done|]. intros p. rewrite Hin. setoid_rewrite elem_of_cons.
      split; [intros (? & ? & raw & ? & ?); eauto 6|]. intros (? & ? & raw & [[= ->]|?] & ?); [congruence|eauto 6]. }
    destruct (IH ({[strip q]} ∪ seen)) as [Hnd Hin]. split.
    + apply NoDup_cons. split; [|done]. rewrite Hin. set_solver.
    + intros p. rewrite elem_of_cons, Hin. setoid_rewrite elem_of_cons. split.
      * intros [->|(? & ? & raw & ? & ?)]; [eauto 6|]. split_and!; [done|set_solver|eauto].
      * intros (? & ? & raw & [[= ->]|?] & ?); [by left|].
        destruct (decide (p = strip q)); [by left|right]. split_and!; [done|set_solver|eauto].
  - destruct (IH seen) as [Hnd Hin]. split; [done|]. intros p. rewrite Hin. setoid_rewrite elem_of_cons. naive_solver.
Qed.

(** Parsing a list of stripped, distinct patterns changes nothing. *)
Lemma parse_loop_clean seen l : NoDup l -> (forall p, p ∈ l -> strip p = p /\ p <> "" /\ p ∉ seen) ->
  parse_loop seen (map Some l) = l.
Proof.
  intros Hnd. revert seen. induction Hnd as [|p l Hp Hnd IH]; intros seen Hl; [done|]. cbn [map parse_loop].
  destruct (Hl p) as (-> & Hne & Hs); [left|]. rewrite (proj2 (String.eqb_neq p "")) by done.
  rewrite bool_decide_eq_false_2 by done. cbn [orb]. f_equal. apply IH. intros q Hq.
  destruct (Hl q) as (? & ? & ?); [by right|]. split_and!; [done|done|]. intros [->%elem_of_singleton|?]%elem_of_union; done.
Qed.

(** Exclusion lists: whatever form they are given in, the parsed patterns are
    the non-blank entries without surrounding space, each once, and
    parsing them again gives the same list; the exact recovery paths are kept
    apart from the globs, each once. *)
Theorem exclusion_lists raw items :
  NoDup (parse_exclude_patterns raw) /\
  (forall p, p ∈ parse_exclude_patterns raw <-> p <> "" /\ exists e, Some e ∈ raw_list raw /\ strip e = p) /\
  parse_exclude_patterns (RawList (map Some (parse_exclude_patterns raw))) = parse_exclude_patterns raw /\
  (let '(globs, exact) := partition_transfer_exclusions (TItems items) in
   NoDup exact /\ (forall p, p ∈ exact <-> TExact p ∈ items) /\
   (forall p, p ∈ globs <-> p <> "" /\ exists e, TGlob (Some e) ∈ items /\ strip e = p)).
Proof.
  assert (Hparse : forall l p, p ∈ parse_loop ∅ l <-> p <> "" /\ exists e, Some e ∈ l /\ strip e = p).
  { intros l p. destruct (parse_loop_spec ∅ l) as [_ ->]. set_solver. }
  split_and!.
  - apply parse_loop_spec.
  - intros p. apply Hparse.
  - apply parse_loop_clean; [apply parse_loop_spec|]. intros p [Hne (e & _ & <-)]%Hparse.
    split_and!; [apply strip_strip|done|set_solver].
  - unfold partition_transfer_exclusions. split_and!.
    + unfold exact_items. assert (Hg : forall acc : list string, NoDup acc -> NoDup (fold_left (fun acc i => match i with
        | TExact p => if bool_decide (p ∈ acc) then acc else acc ++ [p] | TGlob _ => acc end) items acc)).
      { induction items as [|[q|q] items IH]; intros acc Hacc; simpl; [done|by apply IH|]. apply IH. case_bool_decide; [done|].
        apply NoDup_app. split_and!; [done| |apply NoDup_singleton]. intros x Hx Hx'%list_elem_of_singleton. congruence. }
      apply Hg. constructor.
    + assert (Hg : forall (acc : list string) p, p ∈ fold_left (fun acc i => match i with
        | TExact p => if bool_decide (p ∈ acc) then acc else acc ++ [p] | TGlob _ => acc end) items acc <->
        p ∈ acc \/ TExact p ∈ items).
      { induction items as [|[q|q] items IH]; intros acc p; simpl.
        - set_solver.
        - rewrite IH, elem_of_cons. naive_solver.
        - rewrite IH, elem_of_cons. case_bool_decide; [naive_solver|]. rewrite elem_of_app, list_elem_of_singleton. naive_solver. }
      intros p. unfold exact_items. rewrite Hg. set_solver.
    + intros p. unfold parse_exclude_patterns, raw_list. rewrite Hparse. apply and_iff_compat_l.
      split; intros (e & He & <-); exists e; (split; [|done]).
      * apply elem_of_filter_map in He as (i & Hi & E). destruct i; by simplify_eq.
      * apply elem_of_filter_map. by exists (TGlob (Some e)).
Qed.

(** ** Which paths stay *)

(** The nodes of a tree: the names and kinds on the way, and a file's size. *)
Definition step_of (c : SystemFile) : string * bool := (sys_name c, sys_is_dir c).

Fixpoint tree_nodes (f : SystemFile) : list (list (string * bool) * Z) :=
  match f with
  | mkSys fl cs =>
      ([], if has_bits (sf_flags fl) S_DIR then 0 else sf_size fl) ::
      match cs with
      | Some l => concat (map (fun c => map (fun n => (step_of c :: n.1, n.2)) (tree_nodes c)) l)
      | None => []
      end
  end.

Definition child_nodes (c : SystemFile) : list (list (string * bool) * Z) :=
  map (fun n => (step_of c :: n.1, n.2)) (tree_nodes c).

Definition node_total (f : SystemFile) : Z := foldr (fun n z => n.2 + z) 0 (tree_nodes f).

(** No node on the way from the root is excluded by its path. *)
Fixpoint allowed (patterns : list (string * bool)) (rel : option string) (path : list (string * bool)) : bool :=
  match path with
  | [] => true
  | (n, d) :: rest =>
      let r := child_relative_path rel n in
      negb (matches_exclude r d patterns) && allowed patterns (Some r) rest
  end.

Definition root_passes (patterns : list (string * bool)) (path : list (string * bool)) : bool :=
  match path with
  | [] => true
  | (n, d) :: rest => negb (matches_exclude n d patterns) && allowed patterns None rest
  end.

(** The same, on texts: a scanned root is tested by its name, and what is
    below it by the names on the way from the root, separated by slashes
    (names that are empty are not counted before the first that is not). *)
Definition relative_text (names : list string) : string :=
  str (join [slash] (map chars (drop_while (String.eqb "") names))).

Fixpoint prefixes {A} (l : list A) : list (list A) :=
  match l with
  | [] => []
  | x :: l' => [x] :: map (cons x) (prefixes l')
  end.

Definition root_allowed (patterns : list (string * bool)) (path : list (string * bool)) : bool :=
  match path with
  | [] => true
  | (n, d) :: rest =>
      negb (matches_exclude n d patterns) &&
      forallb (fun q => negb (matches_exclude (relative_text (map fst q)) (from_option snd false (last q)) patterns))
        (prefixes rest)
  end.

Lemma join_snoc sep x ls y : join sep ((x :: ls) ++ [y]) = join sep (x :: ls) ++ sep ++ y.
Proof.
  revert x. induction ls as [|z ls IH]; intros x; [done|]. cbn [app] in *. rewrite !join_cons2, IH.
  by rewrite <- !app_assoc.
Qed.

Lemma drop_while_snoc {A} (p : A -> bool) l x :
  drop_while p (l ++ [x]) = match drop_while p l with [] => drop_while p [x] | k => k ++ [x] end.
Proof. induction l as [|y l IH]; [done|]. simpl. destruct (p y); [apply IH|done]. Qed.

Lemma join_first_nonempty sep x (ls : list (list ascii)) : x <> [] -> join sep (x :: ls) <> [].
Proof. destruct ls, x; done. Qed.

Lemma relative_text_snoc names n : names <> [] ->
  relative_text (names ++ [n]) = child_relative_path (Some (relative_text names)) n.
Proof.
  intros _. unfold relative_text, child_relative_path. rewrite drop_while_snoc.
  destruct (drop_while (String.eqb "") names) as [|x ls] eqn:E.
  - change (String.eqb (str (join [slash] (map chars []))) "") with true. cbv iota. cbn [drop_while].
    destruct (String.eqb_spec "" n) as [<-|]; [done|]. apply str_chars.
  - assert (Hx : x <> "").
    { revert E. induction names as [|y names IH]; [done|]. cbn [drop_while].
      destruct (String.eqb_spec "" y) as [|Hy]; [apply IH|]. intros [= <- _]. congruence. }
    rewrite map_app. cbn [map]. rewrite join_snoc, !str_app, str_chars.
    destruct (String.eqb_spec (str (join [slash] (chars x :: map chars ls))) "") as [He|]; [|done].
    exfalso. apply (inj str _ []) in He. revert He. apply join_first_nonempty.
    intros Hc%(inj chars x ""). done.
Qed.

Lemma prefixes_nonempty {A} (l : list A) : Forall (fun q => q <> []) (prefixes l).
Proof. destruct l as [|x l]; [apply Forall_nil_2|]. apply Forall_cons_2; [done|]. by apply Forall_map, Forall_true. Qed.

Lemma allowed_texts patterns pre path :
  allowed patterns (match pre with [] => None | _ => Some (relative_text (map fst pre)) end) path =
  forallb (fun q => negb (matches_exclude (relative_text (map fst (pre ++ q))) (from_option snd false (last q)) patterns))
    (prefixes path).
Proof.
  revert pre. induction path as [|[n d] path IH]; intros pre; [done|]. cbn [allowed prefixes forallb].
  assert (Hn : child_relative_path match pre with [] => None | _ => Some (relative_text (map fst pre)) end n =
               relative_text (map fst (pre ++ [(n, d)]))).
  { destruct pre as [|p pre]; [|rewrite map_app; symmetry; by apply relative_text_snoc].
    unfold relative_text. cbn [app map fst drop_while child_relative_path]. destruct (String.eqb_spec "" n) as [<-|]; [done|].
    symmetry. apply str_chars. }
  rewrite Hn. f_equal. specialize (IH (pre ++ [(n, d)])).
  replace (match pre ++ [(n, d)] with [] => None | _ => _ end) with (Some (relative_text (map fst (pre ++ [(n, d)]))))
    in IH by (by destruct pre).
  rewrite IH. clear IH. induction (prefixes_nonempty path) as [|q qs Hq _ IHq]; [done|]. cbn [map forallb].
  rewrite <- IHq. f_equal. rewrite <- app_assoc. cbn [app]. by destruct q.
Qed.

Lemma root_passes_texts patterns path : root_passes patterns path = root_allowed patterns path.
Proof. destruct path as [|[n d] path]; [done|]. simpl. f_equal. apply (allowed_texts patterns []). Qed.

(** A copy: same attributes but the staging origin, new size and children. *)
Definition copy_of (f : SystemFile) (size : Z) (kids : list SystemFile) : SystemFile :=
  let fl := sys_slots f in
  mkSys (mkSysFields (sf_name fl) size (origin_flags (sf_flags fl) None) (sf_created fl) (sf_modified fl)
           (sf_mtime_ns fl) (sf_pair_id fl) (sf_pair_name fl)) (match kids with [] => None | _ => Some kids end).

Lemma add_children_run l f : sys_is_dir f = true \/ l = [] ->
  add_children l f = Ok (mkSys (sys_slots f) (match l with [] => sys_children_slot f | _ => Some (sys_children f ++ l) end)).
Proof.
  revert f. induction l as [|c l IH]; intros f Hd; [by destruct f|]. destruct Hd as [Hd|]; [|done].
  cbn [add_children]. unfold sys_add_child. rewrite Hd. cbn [negb]. unfold mbind, result_bind. rewrite IH by (by left).
  destruct l as [|c' l]; [done|]. do 2 f_equal. unfold sys_children. cbn. by rewrite <- app_assoc.
Qed.

Definition cloned_flags (z : Z) : Z :=
  let z0 := if has_bits z S_DIR then S_DIR else 0 in
  let z1 := if has_bits z S_STAGING then Z.lor z0 S_STAGING else z0 in
  put_bits (put_bits (origin_flags z1 None) S_STATUS_READY (has_bits z S_STATUS_READY)) S_STAGING_COLLISION
    (has_bits z S_STAGING_COLLISION).

Lemma cloned_flags_ok z : flags_ok z -> cloned_flags z = origin_flags z None.
Proof.
  intros Hz. apply Z.eqb_eq. apply (flags_forall (fun z => cloned_flags z =? origin_flags z None)); [|done].
  vm_compute. reflexivity.
Qed.

Lemma clone_run f children : sys_ok f ->
  let size := match children with Some l => sum_sizes l | None => sys_size f end in
  let kids := match children with Some l => l | None => sys_children f end in
  0 <= size -> sys_is_dir f = true \/ kids = [] ->
  clone_system_file f children = Ok (copy_of f size kids).
Proof.
  intros Hf size kids Hsize Hkids. pose proof (proj1 (sys_ok_unfold f) Hf) as [(_ & Hz & _) _].
  unfold clone_system_file. fold size kids. unfold new_system_file. destruct (Z.ltb_spec size 0); [lia|].
  assert (Hid : forall c v, set_sys_pair_id c (of_opt_str v) = Ok (put_sys_pair c v (sf_pair_name (sys_slots c)))) by
    (intros c [v|]; done).
  assert (Hname : forall c v, set_sys_pair_name c (of_opt_str v) = Ok (put_sys_pair c (sf_pair_id (sys_slots c)) v)) by
    (intros c [v|]; done).
  unfold mbind, result_bind. rewrite Hid, Hname. unfold set_status_sidecar_ready, set_has_staging_collision, set_sys_bool.
  set (c := put_sys_flags _ _).
  assert (Hc : c = mkSys (mkSysFields (sys_name f) size (cloned_flags (sf_flags (sys_slots f))) (sf_created (sys_slots f))
    (sf_modified (sys_slots f)) (sf_mtime_ns (sys_slots f)) (sf_pair_id (sys_slots f)) (sf_pair_name (sys_slots f))) None) by done.
  clearbody c. subst c. rewrite cloned_flags_ok by done. rewrite add_children_run; [done|].
  destruct Hkids as [Hd|]; [left|by right]. unfold sys_is_dir. cbn [sys_slots sf_flags].
  destruct (origin_flags_ok None _ Hz) as (_ & _ & Hb). rewrite Hb by left. exact Hd.
Qed.

Lemma copy_ok f size kids : sys_ok f -> 0 <= size -> Forall sys_ok kids -> sys_is_dir f = true \/ kids = [] ->
  sys_ok (copy_of f size kids) /\ step_of (copy_of f size kids) = step_of f /\
  sys_children (copy_of f size kids) = kids.
Proof.
  intros Hf Hs Hk Hd. pose proof (proj1 (sys_ok_unfold f) Hf) as [(_ & Hz & _) _].
  destruct (origin_flags_ok None _ Hz) as (H1 & _ & H3).
  assert (Hdir : has_bits (origin_flags (sf_flags (sys_slots f)) None) S_DIR = sys_is_dir f) by (apply H3; left).
  assert (Hc : sys_children (copy_of f size kids) = kids) by (by destruct kids).
  split_and!.
  - apply sys_ok_unfold. rewrite Hc. split; [|done]. split_and!; [done|done|]. cbn [copy_of sys_slots sf_flags].
    rewrite Hdir. destruct Hd as [?| ->]; [done|]. simpl. lia.
  - unfold step_of. f_equal. exact Hdir.
  - exact Hc.
Qed.

(** The tree the filter is to return, for a node that stays. *)
Fixpoint prune (patterns : list (string * bool)) (rel : option string) (f : SystemFile) : SystemFile :=
  match f with
  | mkSys fl cs =>
      let kids := match cs with
        | Some l => (fix go l := match l with
            | [] => []
            | c :: l' =>
                let r := child_relative_path rel (sys_name c) in
                if matches_exclude r (sys_is_dir c) patterns then go l' else prune patterns (Some r) c :: go l'
            end) l
        | None => [] end in
      copy_of (mkSys fl cs) (if has_bits (sf_flags fl) S_DIR then sum_sizes kids else sf_size fl) kids
  end.

(** Its children. *)
Fixpoint prune_kids (patterns : list (string * bool)) (rel : option string) (l : list SystemFile) : list SystemFile :=
  match l with
  | [] => []
  | c :: l' =>
      let r := child_relative_path rel (sys_name c) in
      if matches_exclude r (sys_is_dir c) patterns then prune_kids patterns rel l'
      else prune patterns (Some r) c :: prune_kids patterns rel l'
  end.

Lemma prune_unfold patterns rel f :
  prune patterns rel f = copy_of f (if sys_is_dir f then sum_sizes (prune_kids patterns rel (sys_children f)) else sys_size f)
    (prune_kids patterns rel (sys_children f)).
Proof.
  destruct f as [fl cs].
  assert (E : forall l, (fix go l := match l with
            | [] => []
            | c :: l' =>
                let r := child_relative_path rel (sys_name c) in
                if matches_exclude r (sys_is_dir c) patterns then go l' else prune patterns (Some r) c :: go l'
            end) l = prune_kids patterns rel l) by (induction l as [|c l IH]; [done|]; cbn [prune_kids]; rewrite <- IH; reflexivity).
  destruct cs as [l|]; [|done]. change (sys_children (mkSys fl (Some l))) with l. rewrite <- E. reflexivity.
Qed.

Lemma file_no_kids f : sys_ok f -> sys_is_dir f = false -> sys_children f = [].
Proof.
  intros [(_ & _ & Hd) _]%sys_ok_unfold Hf. destruct (sys_children f); [done|].
  unfold sys_is_dir in Hf. rewrite Hd in Hf by (simpl; lia). done.
Qed.

Lemma sum_sizes_nonneg l : Forall sys_ok l -> 0 <= sum_sizes l.
Proof.
  induction 1 as [|c l Hc Hl IH]; simpl; [lia|]. apply sys_ok_unfold in Hc as [(? & _) _]. unfold sys_size. lia.
Qed.

Lemma prune_ok patterns f : sys_ok f -> forall rel, sys_ok (prune patterns rel f) /\ step_of (prune patterns rel f) = step_of f /\
  sys_children (prune patterns rel f) = prune_kids patterns rel (sys_children f).
Proof.
  induction f as [fl cs IH] using SystemFile_tree_ind. intros Hf rel.
  pose proof (proj1 (sys_ok_unfold _) Hf) as [(Hs & _ & _) Hk]. unfold sys_children in Hk. simpl in Hk.
  assert (Hkids : Forall sys_ok (prune_kids patterns rel (default [] cs))).
  { clear Hf Hs. induction (default [] cs) as [|c l IHl]; [apply Forall_nil_2|]. simpl.
    apply Forall_cons in IH as [IHc IH]. apply Forall_cons in Hk as [Hc Hk].
    destruct (matches_exclude _ _ _); [by apply IHl|]. apply Forall_cons_2; [by apply IHc|by apply IHl]. }
  rewrite prune_unfold. apply copy_ok; [done| |done|].
  - destruct (sys_is_dir _); [by apply sum_sizes_nonneg|done].
  - destruct (sys_is_dir (mkSys fl cs)) eqn:Ed; [by left|right]. by rewrite (file_no_kids _ Hf Ed).
Qed.

Lemma filter_tree_run patterns f : sys_ok f -> forall rel,
  filter_excluded_tree f rel patterns =
  Ok (if match rel with Some p => matches_exclude p (sys_is_dir f) patterns | None => false end
      then None else Some (prune patterns rel f)).
Proof.
  induction f as [fl cs IH] using SystemFile_tree_ind. intros Hf rel.
  pose proof (proj1 (sys_ok_unfold _) Hf) as [(Hs & _ & _) Hk]. unfold sys_children in Hk. simpl in Hk.
  cbn [filter_excluded_tree]. unfold sys_is_dir. cbn [sys_slots].
  destruct (match rel with Some p => _ | None => false end); [done|].
  destruct (has_bits (sf_flags fl) S_DIR) eqn:Ed; cbn [negb].
  - set (go := fix go l := match l with [] => Ok [] | c :: l' => _ end).
    assert (Hgo : match cs with Some l => go l | None => Ok [] end = Ok (prune_kids patterns rel (default [] cs))).
    { assert (Hl : forall l, Forall (fun f => sys_ok f -> forall rel, filter_excluded_tree f rel patterns =
          Ok (if match rel with Some p => matches_exclude p (sys_is_dir f) patterns | None => false end
              then None else Some (prune patterns rel f))) l -> Forall sys_ok l -> go l = Ok (prune_kids patterns rel l)).
      { clear. induction l as [|c l IHl]; intros IH Hk; [done|].
        apply Forall_cons in IH as [IHc IH]. apply Forall_cons in Hk as [Hc Hk].
        cbn [go prune_kids]. rewrite IHc by done. unfold mbind, result_bind. fold go. rewrite IHl by done.
        by destruct (matches_exclude _ _ _). }
      destruct cs as [l|]; [by apply Hl|done]. }
    rewrite Hgo. unfold mbind at 1, result_bind at 1.
    assert (Hpk : Forall sys_ok (prune_kids patterns rel (default [] cs))).
    { pose proof (prune_ok patterns _ Hf rel) as (Hp & _ & Hc). apply sys_ok_unfold in Hp as [_ Hp]. by rewrite Hc in Hp. }
    rewrite clone_run; [|done|by apply sum_sizes_nonneg|by left].
    rewrite prune_unfold. unfold sys_is_dir, sys_children. cbn [sys_slots sys_children_slot]. by rewrite Ed.
  - pose proof (file_no_kids _ Hf Ed) as Hnil. rewrite clone_run; [|done|exact Hs|by right].
    rewrite prune_unfold. unfold sys_is_dir. cbn [sys_slots]. by rewrite Ed, Hnil.
Qed.

(** ** The nodes of a pruned tree *)

Lemma tree_nodes_unfold f :
  tree_nodes f = ([], if sys_is_dir f then 0 else sys_size f) :: concat (map child_nodes (sys_children f)).
Proof. destruct f as [fl [l|]]; done. Qed.

Lemma filter_map_cons patterns rel (c : SystemFile) (l : list (list (string * bool) * Z)) :
  filter (fun n => allowed patterns rel n.1 = true) (map (fun n => (step_of c :: n.1, n.2)) l) =
  if matches_exclude (child_relative_path rel (sys_name c)) (sys_is_dir c) patterns then []
  else map (fun n => (step_of c :: n.1, n.2))
         (filter (fun n => allowed patterns (Some (child_relative_path rel (sys_name c))) n.1 = true) l).
Proof.
  destruct (matches_exclude _ _ _) eqn:E; induction l as [|[p z] l IH]; [done| |done|]; cbn [map]; rewrite filter_cons.
  - rewrite decide_False by (cbn; by rewrite E). exact IH.
  - rewrite filter_cons. cbn [fst snd allowed step_of]. rewrite E. cbn [negb andb].
    destruct (decide (allowed patterns (Some (child_relative_path rel (sys_name c))) p = true)); cbn [map fst snd]; by rewrite IH.
Qed.

Lemma prune_nodes patterns f : sys_ok f -> forall rel,
  tree_nodes (prune patterns rel f) = filter (fun n => allowed patterns rel n.1 = true) (tree_nodes f).
Proof.
  induction f as [fl cs IH] using SystemFile_tree_ind. intros Hf rel.
  pose proof (proj1 (sys_ok_unfold _) Hf) as [_ Hk]. unfold sys_children in Hk. cbn in Hk.
  destruct (prune_ok patterns _ Hf rel) as (Hp & Hstep & Hkids).
  rewrite tree_nodes_unfold, (tree_nodes_unfold (mkSys fl cs)), Hkids, filter_cons_True by done.
  assert (Hdir : sys_is_dir (prune patterns rel (mkSys fl cs)) = sys_is_dir (mkSys fl cs)) by exact (f_equal snd Hstep).
  rewrite Hdir. f_equal.
  - f_equal. rewrite prune_unfold. destruct (sys_is_dir (mkSys fl cs)); done.
  - unfold sys_children. cbn [sys_children_slot]. clear Hf Hp Hdir Hkids.
    induction (default [] cs) as [|c l IHl]; [done|].
    apply Forall_cons in IH as [IHc IH]. apply Forall_cons in Hk as [Hc Hk].
    cbn [map concat]. rewrite filter_app, <- IHl by done. unfold child_nodes at 2. rewrite filter_map_cons.
    cbn [prune_kids]. destruct (matches_exclude _ _ _) eqn:E; [done|]. cbn [map concat]. f_equal.
    unfold child_nodes. rewrite IHc by done. by destruct (prune_ok patterns c Hc (Some (child_relative_path rel (sys_name c)))) as (_ & -> & _).
Qed.

Definition nodes_total (l : list (list (string * bool) * Z)) : Z := foldr (fun n z => n.2 + z) 0 l.

Lemma nodes_total_app a b : nodes_total (a ++ b) = nodes_total a + nodes_total b.
Proof. induction a as [|n a IH]; simpl; lia. Qed.

Lemma node_total_unfold f :
  node_total f = (if sys_is_dir f then 0 else sys_size f) + foldr (fun c z => node_total c + z) 0 (sys_children f).
Proof.
  unfold node_total. rewrite tree_nodes_unfold. cbn [foldr snd]. f_equal. fold (nodes_total (concat (map child_nodes (sys_children f)))).
  induction (sys_children f) as [|c l IH]; [done|]. cbn [map concat foldr]. rewrite nodes_total_app, IH. f_equal.
  unfold child_nodes, nodes_total. induction (tree_nodes c) as [|n t IHt]; [done|]. cbn [map foldr snd]. by rewrite IHt.
Qed.

(** A kept directory is as large as the files kept in it. *)
Lemma prune_size patterns f : sys_ok f -> forall rel, sys_size (prune patterns rel f) = node_total (prune patterns rel f).
Proof.
  induction f as [fl cs IH] using SystemFile_tree_ind. intros Hf rel.
  pose proof (proj1 (sys_ok_unfold _) Hf) as [_ Hk]. unfold sys_children in Hk. cbn in Hk.
  destruct (prune_ok patterns _ Hf rel) as (Hp & Hstep & Hkids).
  assert (Hdir : sys_is_dir (prune patterns rel (mkSys fl cs)) = sys_is_dir (mkSys fl cs)) by exact (f_equal snd Hstep).
  rewrite node_total_unfold, Hkids, Hdir, prune_unfold.
  destruct (sys_is_dir (mkSys fl cs)) eqn:Ed.
  - unfold sys_size at 1, copy_of. cbn [sys_slots sf_size]. unfold sys_children. cbn [sys_children_slot].
    rewrite Z.add_0_l. clear Hf Hp Hkids Hdir Hstep Ed. induction (default [] cs) as [|c l IHl]; [done|].
    apply Forall_cons in IH as [IHc IH]. apply Forall_cons in Hk as [Hc Hk]. cbn [prune_kids].
    destruct (matches_exclude _ _ _); [by apply IHl|]. cbn [sum_sizes foldr]. fold (sum_sizes (prune_kids patterns rel l)).
    rewrite IHc by done. f_equal. by apply IHl.
  - rewrite (file_no_kids _ Hf Ed). unfold sys_size, copy_of. simpl. lia.
Qed.

Lemma filter_files_run patterns l : Forall sys_ok l ->
  exists out, filter_files patterns l = Ok out /\
    concat (map child_nodes out) = filter (fun n => root_passes patterns n.1 = true) (concat (map child_nodes l)) /\
    Forall (fun f => sys_size f = node_total f) out.
Proof.
  induction 1 as [|f l Hf Hl IH]; [by exists []|]. destruct IH as (out & Hrun & Hnodes & Hsize). cbn [filter_files map concat].
  assert (Hroot : filter (fun n => root_passes patterns n.1 = true) (child_nodes f) =
    if matches_exclude (sys_name f) (sys_is_dir f) patterns then []
    else map (fun n => (step_of f :: n.1, n.2)) (filter (fun n => allowed patterns None n.1 = true) (tree_nodes f))).
  { unfold child_nodes. destruct (matches_exclude _ _ _) eqn:E; induction (tree_nodes f) as [|[p z] t IHt]; [done| |done|];
      cbn [map]; rewrite filter_cons.
    - rewrite decide_False by (cbn; by rewrite E). exact IHt.
    - rewrite filter_cons. cbn [fst snd root_passes step_of]. rewrite E. cbn [negb andb].
      destruct (decide (allowed patterns None p = true)); cbn [map fst snd]; by rewrite IHt. }
  rewrite filter_app, Hroot, <- Hnodes. destruct (matches_exclude (sys_name f) (sys_is_dir f) patterns) eqn:E; [by exists out|].
  assert (Hone : (if sys_is_dir f then filter_excluded_tree f None patterns else c ← clone_system_file f None; Ok (Some c)) =
    Ok (Some (prune patterns None f))).
  { destruct (sys_is_dir f) eqn:Ed; [by rewrite filter_tree_run|]. pose proof (file_no_kids _ Hf Ed) as Hnil.
    pose proof (proj1 (sys_ok_unfold _) Hf) as [(Hs & _ & _) _].
    rewrite clone_run; [|done|exact Hs|by right]. rewrite prune_unfold, Ed, Hnil. done. }
  rewrite Hone. unfold mbind, result_bind. rewrite Hrun. exists (prune patterns None f :: out). split; [done|]. split.
  - cbn [map concat]. f_equal. unfold child_nodes. rewrite prune_nodes by done.
    by destruct (prune_ok patterns f Hf None) as (_ & -> & _).
  - apply Forall_cons_2; [by apply prune_size|done].
Qed.

(** C14: The exclusion filter on well-formed scans never raises and keeps exactly the
    right nodes, in their order and with their file sizes: a root stays
    unless its name is excluded, a node below it unless it or one of its
    ancestors is excluded by its path from the root.  When there are
    patterns, every returned directory reports the size of the files left
    in it. *)
Theorem exclusion_exact files raw :
  Forall sys_ok files ->
  exists out, filter_excluded_files (Some files) raw = Ok out /\
    concat (map child_nodes out) =
      filter (fun n => root_allowed (compile_exclude_patterns raw) n.1 = true) (concat (map child_nodes files)) /\
    (compile_exclude_patterns raw <> [] -> Forall (fun f => sys_size f = node_total f) out).
Proof.
  intros Hf. unfold filter_excluded_files. destruct (compile_exclude_patterns raw) as [|p ps].
  - exists files. split; [done|]. split; [|done]. symmetry. apply filter_all_id. intros [path z] _. cbn [fst].
    rewrite <- root_passes_texts.
    assert (Ha : forall path rel, allowed [] rel path = true) by (induction path0 as [|[n d] q IH]; intros rel; [done|]; apply IH).
    destruct path as [|[n d] path]; [done|]. apply Ha.
  - destruct (filter_files_run (p :: ps) files Hf) as (out & ? & Hn & ?). exists out. split_and!; [done| |done].
    rewrite Hn. apply list_filter_iff. intros n. by rewrite root_passes_texts.
Qed.

Definition sample_scan : list SystemFile :=
  [mkSys (mkSysFields "d" 5 1 None None None None None)
     (Some [mkSys (mkSysFields "a.txt" 2 0 None None None None None) None;
            mkSys (mkSysFields "b.nfo" 3 0 None None None None None) None])].

Example sample_excluded :
  option_map (map (fun f => (sys_size f, length (sys_children f))))
    (match filter_excluded_files (Some sample_scan) (RawStr " *.nfo ,") with Ok l => Some l | Raise _ => None end) = Some [(2, 1%nat)].
Proof. vm_compute. reflexivity. Qed.

Lemma exclusion_exact_witness :
  exists out, filter_excluded_files (Some sample_scan) (RawStr "*.nfo") = Ok out /\
    Forall (fun f => sys_size f = node_total f) out.
Proof.
  destruct (exclusion_exact sample_scan (RawStr "*.nfo")) as (out & H1 & _ & H3).
  - assert (Hflags : forall z, z = 0 \/ z = 1 -> flags_ok z).
    { intros z [->| ->]; (split; [lia|]; vm_compute; discriminate). }
    apply Forall_singleton. split; [|split; [|split; [|exact I]]].
    + split; [simpl; lia|]. split; [apply Hflags; by right|reflexivity].
    + split; [|exact I]. split; [simpl; lia|]. split; [apply Hflags; by left|]. intros Hk. simpl in Hk. lia.
    + split; [|exact I]. split; [simpl; lia|]. split; [apply Hflags; by left|]. intros Hk. simpl in Hk. lia.
  - exists out. split; [exact H1|]. apply H3. vm_compute. discriminate.
Defined.

(** The copy the filter makes forgets whether a node came from the staging
    area: with any pattern configured, a filtered root's staging origin is
    unknown even where the scan knew it. *)
Theorem filtered_origin_unknown patterns f f' :
  sys_ok f -> matches_exclude (sys_name f) (sys_is_dir f) patterns = false ->
  filter_files patterns [f] = Ok [f'] -> sys_has_staging_origin f' = None.
Proof.
  intros Hf Hm. cbn [filter_files]. rewrite Hm.
  assert (Horg : forall size kids, sys_has_staging_origin (copy_of f size kids) = None).
  { intros size kids. pose proof (proj1 (sys_ok_unfold f) Hf) as [(_ & Hz & _) _]. apply (origin_flags_ok None _ Hz). }
  destruct (sys_is_dir f) eqn:Ed.
  - rewrite filter_tree_run by done. intros [= <-]. rewrite prune_unfold. apply Horg.
  - pose proof (proj1 (sys_ok_unfold _) Hf) as [(Hs & _ & _) _]. pose proof (file_no_kids _ Hf Ed).
    rewrite clone_run; [|done|exact Hs|by right]. intros [= <-]. apply Horg.
Qed.

Lemma filtered_origin_unknown_witness :
  let f := mkSys (mkSysFields "s" 5 (2 + 16 + 32) None None None None None) None in
  sys_has_staging_origin f = Some true /\
  exists f', filter_files [("*.nfo", false)] [f] = Ok [f'] /\ sys_has_staging_origin f' = None.
Proof.
  intros f. split; [reflexivity|]. eexists. split; [vm_compute; reflexivity|].
  apply (filtered_origin_unknown [("*.nfo", false)] f).
  - split; [|exact I]. split; [simpl; lia|]. split; [split; [simpl; lia|reflexivity]|]. intros Hk. simpl in Hk. lia.
  - reflexivity.
  - vm_compute. reflexivity.
Defined.
