(* ===== verification/ControllerPersist.v ===== *)
(** * Controller markers and their identity migration
      ([controller/controller_persist.py], [controller/persist_keys.py])

    The marker sets the controller keeps between runs, the two encodings of a
    marker's key, and the restart-safe migration from legacy keys to canonical
    file identifiers.  Time stamps are floats; the migration only moves them,
    so their type is a parameter. *)

From S2P Require Import Prelude PyDict PyStr Json ModelFile.

(** ** Keys *)

(** The ASCII unit separator. *)
Definition KEY_SEP : ascii := chr 31.

Definition key_sep_str : string := str [KEY_SEP].

Definition persist_key (pair_id : option string) (name : string) : string :=
  match pair_id with
  | Some p => if String.eqb p "" then name else p +:+ key_sep_str +:+ name
  | None => name
  end.

(** [key[len(prefix):] if key.startswith(prefix)] *)
Definition strip_prefix (prefix key : string) : option string :=
  if startswith key prefix then Some (str (drop (String.length prefix) (chars key))) else None.

Definition strip_persist_key (key : string) (pair_id : option string) : string :=
  match pair_id with
  | None => key
  | Some p =>
      if String.eqb p "" then key else
      match strip_prefix (p +:+ key_sep_str) key with
      | Some name => name
      | None => match strip_prefix (p +:+ ":") key with Some name => name | None => key end
      end
  end.

(** ** UUIDs *)

(** [s.replace(p, "")] for a non-empty [p] *)
Fixpoint remove_all (fuel : nat) (p l : list ascii) : list ascii :=
  match fuel with
  | O => l
  | S n =>
      match l with
      | [] => []
      | c :: l' => if prefix_of p l then remove_all n p (drop (length p) l) else c :: remove_all n p l'
      end
  end.

Definition is_brace (c : ascii) : bool := (ord c =? 123) || (ord c =? 125).

Definition is_hex (c : ascii) : bool :=
  is_digit c || ((65 <=? ord c) && (ord c <=? 70)) || ((97 <=? ord c) && (ord c <=? 102)).

(** Hexadecimal digits with single underscores between them. *)
Fixpoint hex_digits (l : list ascii) : bool :=
  match l with
  | [] => false
  | c :: l' =>
      is_hex c &&
      match l' with
      | [] => true
      | d :: l'' => if ord d =? 95 then hex_digits l'' else hex_digits l'
      end
  end.

(** [int(s, 16)] succeeds: surrounding space, a sign, a prefix with an optional
    underscore, digits.  A minus sign cannot occur here. *)
Definition int16_ok (l : list ascii) : bool :=
  let l := rstrip_by is_space (drop_while is_space l) in
  let l := match l with c :: r => if ord c =? 43 then r else l | [] => l end in
  hex_digits l ||
  match l with
  | z :: x :: r =>
      (ord z =? 48) && ((ord x =? 120) || (ord x =? 88)) &&
      (hex_digits r || match r with u :: r' => (ord u =? 95) && hex_digits r' | [] => false end)
  | _ => false
  end.

(** [uuid.UUID(s)] does not raise. *)
Definition uuid_ok (s : list ascii) : bool :=
  let h := remove_all (S (length s)) (chars "urn:") s in
  let h := remove_all (S (length h)) (chars "uuid:") h in
  let h := rstrip_by is_brace (drop_while is_brace h) in
  let h := remove_all (S (length h)) (chars "-") h in
  Nat.eqb (length h) 32 && int16_ok h.

(** ** Canonical identifiers *)

(** The key is the identifier of a scoped file. *)
Definition is_scoped_id (key : string) : bool :=
  match loads key with
  | Some (JArr [JStr p; JStr path]) => String.eqb key (build_file_id path (Some p))
  | _ => false
  end.

(** [key.split(KEY_SEP, 1)], when the separator occurs. *)
Fixpoint split_sep (cur l : list ascii) : option (list ascii * list ascii) :=
  match l with
  | [] => None
  | c :: l' => if Ascii.eqb c KEY_SEP then Some (rev cur, l') else split_sep (c :: cur) l'
  end.

(** The legacy form: a UUID, a colon and a name. *)
Definition uuid_colon (key : string) : option (string * string) :=
  let l := chars key in
  if (37 <? length l)%nat && match l !! 36%nat with Some c => ord c =? 58 | None => false end && uuid_ok (take 36 l)
  then Some (str (take 36 l), str (drop 37 l)) else None.

Definition canonical_file_id (key : string) (default_pair : option string) : option string :=
  if is_scoped_id key then Some key else
  match split_sep [] (chars key) with
  | Some (p, n) => match p with [] => None | _ => Some (build_file_id (str n) (Some (str p))) end
  | None =>
      match uuid_colon key with
      | Some (p, n) => Some (build_file_id n (Some p))
      | None =>
          match default_pair with
          | Some p => Some (build_file_id key (Some p))
          | None => None
          end
      end
  end.

(** Identifiers of resume sources: scoped, or the bare path of the default pair. *)
Definition canonical_resume_source_id (key : string) : option string :=
  if bool_decide (canonical_file_id key None = Some key) then Some key
  else match split_sep [] (chars key) with
       | Some _ => None
       | None =>
           match uuid_colon key with
           | Some _ => None
           | None => match loads key with
                     | Some (JArr _) => None
                     | _ => if String.eqb key (build_file_id key None) then Some key else None
                     end
           end
       end.

(** ** State *)

Section migration.
Context {time : Type}.

Record ControllerPersist := mkCP {
  downloaded : gset string; downloaded_timestamps : dict string time; extracted : gset string;
  stopped : gset string; move_failure_counts : dict string Z; final_move_succeeded_names : gset string;
  resume_sources : dict string (Z * Z); display_floors : dict string (Z * Z * Z * Z * Z);
  migration_phase : Z }.

Definition new_controller_persist : ControllerPersist := mkCP ∅ [] ∅ ∅ [] ∅ [] [] 0.

Definition canonicalize_set (X : gset string) (d : option string) : gset string :=
  list_to_set (filter_map (fun k => canonical_file_id k d) (elements X)).

Definition canonicalize_counts (counts : dict string Z) (d : option string) : dict string Z :=
  fold_left (fun acc kv =>
    match canonical_file_id kv.1 d with
    | Some k => dset acc k (Z.max (default 0 (dget acc k)) kv.2)
    | None => acc
    end) counts [].

Definition canonicalize_timestamps (times : dict string time) (d : option string) : dict string time :=
  fold_left (fun acc kv =>
    match canonical_file_id kv.1 d with
    | Some k => if negb (dhas acc k) || String.eqb kv.1 k then dset acc k kv.2 else acc
    | None => acc
    end) times [].

(** [self.move_failure_counts[key] = max(...)] over the canonical counts *)
Definition merge_counts (counts canonical : dict string Z) : dict string Z :=
  fold_left (fun acc kv => dset acc kv.1 (Z.max (default 0 (dget acc kv.1)) kv.2)) canonical counts.

(** One phase of the migration; the result says whether to save at once. *)
Definition canonicalize_file_identities (d : option string) : st ControllerPersist bool :=
  s ← gets (fun s : ControllerPersist => s);
  if 2 <=? migration_phase s then mret false else
  let dl := canonicalize_set (downloaded s) d in
  let ex := canonicalize_set (extracted s) d in
  let stp := canonicalize_set (stopped s) d in
  let fin := canonicalize_set (final_move_succeeded_names s) d in
  let counts := canonicalize_counts (move_failure_counts s) d in
  let times := canonicalize_timestamps (downloaded_timestamps s) d in
  (if migration_phase s =? 0 then
     modify (fun s => mkCP (downloaded s ∪ dl) (dupdate (downloaded_timestamps s) times) (extracted s ∪ ex)
       (stopped s ∪ stp) (merge_counts (move_failure_counts s) counts) (final_move_succeeded_names s ∪ fin)
       (resume_sources s) (display_floors s) 1)
   else
     modify (fun s => mkCP dl times ex stp counts fin (resume_sources s) (display_floors s) 2));;
  mret true.
End migration.
Arguments ControllerPersist : clear implicits.
