(* ===== verification/ControllerPersistFacts.v ===== *)
(** * Controller markers: keys, canonical identifiers, migration *)

From S2P Require Import Prelude PyDict PyStr Json ModelFile ControllerPersist.

(** ** Keys *)

Lemma prefix_of_same p l : prefix_of p (p ++ l) = true.
Proof. induction p as [|c p IH]; [done|]. simpl. by rewrite Ascii.eqb_refl. Qed.

Lemma strip_prefix_app p n : strip_prefix p (p +:+ n) = Some n.
Proof.
  unfold strip_prefix, startswith. rewrite chars_app, prefix_of_same, <- length_chars, drop_app_length. by rewrite str_chars.
Qed.

(** Splitting at the first separator. *)
Lemma split_sep_app cur p n : KEY_SEP ∉ p -> split_sep cur (p ++ KEY_SEP :: n) = Some (rev cur ++ p, n).
Proof.
  revert cur. induction p as [|c p IH]; intros cur Hp; cbn [app split_sep].
  - by rewrite Ascii.eqb_refl, app_nil_r.
  - destruct (Ascii.eqb_spec c KEY_SEP) as [->|Hne]; [destruct Hp; left|]. rewrite IH by (intros ?; apply Hp; by right).
    cbn [rev]. by rewrite <- app_assoc.
Qed.

(** ** Reading back a scoped identifier *)

Lemma loads_scoped path p : loads (build_file_id path (Some p)) = Some (JArr [JStr p; JStr path]).
Proof.
  unfold loads. cbn [build_file_id]. rewrite chars_str.
  set (l := "["%char :: _). assert (Hlen : exists n, S (String.length (str l)) = S (S (S (S n)))).
  { exists (String.length (str l) - 3)%nat. rewrite <- length_chars, chars_str. unfold l, json_str_chars.
    repeat (simpl; rewrite ?length_app). lia. }
  destruct Hlen as [n ->]. unfold l, json_str_chars. rewrite skip_head by done.
  cbn [parse_value]. change (ord "["%char =? 34) with false. change (ord "["%char =? 91) with true. cbv iota. cbn [app].
  rewrite skip_head by done. change (ord quote =? 93) with false. cbv iota.
  cbn [parse_items parse_value]. change (ord quote =? 34) with true. cbv iota.
  rewrite <- app_assoc, unesc_key. cbn [app]. rewrite skip_head by done.
  change (ord ","%char =? 93) with false. change (ord ","%char =? 44) with true. cbv iota.
  rewrite skip_head by done. cbn [parse_items parse_value]. change (ord quote =? 34) with true. cbv iota.
  rewrite <- app_assoc, unesc_key. cbn [app]. rewrite skip_head by done.
  change (ord "]"%char =? 93) with true. cbv iota. by rewrite !str_chars.
Qed.

Lemma scoped_is_scoped path p : is_scoped_id (build_file_id path (Some p)) = true.
Proof. unfold is_scoped_id. rewrite loads_scoped. apply String.eqb_refl. Qed.

(** Every canonical identifier is the identifier of a scoped file. *)
Lemma canonical_shape key d c : canonical_file_id key d = Some c -> exists path p, c = build_file_id path (Some p).
Proof.
  unfold canonical_file_id. destruct (is_scoped_id key) eqn:E.
  - intros [= <-]. unfold is_scoped_id in E. destruct (loads key) as [[| | | | |l|]|]; try done.
    destruct l as [|v1 l]; [done|]. destruct v1; try done. destruct l as [|v2 l]; [done|]. destruct v2; try done.
    destruct l; [|done]. apply String.eqb_eq in E. eauto.
  - destruct (split_sep [] (chars key)) as [[[|c0 q] m]|]; [done|intros Hc%(inj Some); eauto|].
    destruct (uuid_colon key) as [[p n]|]; [intros Hc%(inj Some); eauto|]. destruct d as [p|]; [|done].
    intros Hc%(inj Some). eauto.
Qed.

Lemma canonical_fixed path p d : canonical_file_id (build_file_id path (Some p)) d = Some (build_file_id path (Some p)).
Proof. unfold canonical_file_id. by rewrite scoped_is_scoped. Qed.

Lemma canonical_idempotent key d d' c : canonical_file_id key d = Some c -> canonical_file_id c d' = Some c.
Proof. intros (path & p & ->)%canonical_shape. apply canonical_fixed. Qed.

(** The separator is escaped in every scoped identifier. *)
Lemma esc_char_no_sep c x : x ∈ esc_char c -> x <> KEY_SEP.
Proof.
  assert (H : forallb (fun x => negb (Ascii.eqb x KEY_SEP)) (esc_char c) = true) by
    (destruct c as [[] [] [] [] [] [] [] []]; reflexivity).
  intros Hx ->. rewrite forallb_forall in H. apply list_elem_of_In, H in Hx. by rewrite Ascii.eqb_refl in Hx.
Qed.

Lemma json_str_no_sep s x : x ∈ json_str_chars s -> x <> KEY_SEP.
Proof.
  unfold json_str_chars. intros [->|[Hx| ->%list_elem_of_singleton]%elem_of_app]%elem_of_cons; [done| |done].
  apply list_elem_of_In, in_concat in Hx as (l & Hl & Hx). apply in_map_iff in Hl as (c & <- & _).
  apply list_elem_of_In in Hx. by eapply esc_char_no_sep.
Qed.

Lemma scoped_no_sep path p : KEY_SEP ∉ chars (build_file_id path (Some p)).
Proof.
  cbn [build_file_id]. rewrite chars_str. intros [E|[Hx|[E|[Hx|E%list_elem_of_singleton]%elem_of_app]%elem_of_cons]%elem_of_app]%elem_of_cons;
    [done|by eapply json_str_no_sep|done|by eapply json_str_no_sep|done].
Qed.

Lemma sep_not_scoped key : KEY_SEP ∈ chars key -> is_scoped_id key = false.
Proof.
  intros Hin. destruct (is_scoped_id key) eqn:E; [|done]. unfold is_scoped_id in E.
  destruct (loads key) as [[| | | | |l|]|]; try done.
  destruct l as [|v1 l]; [done|]. destruct v1 as [| | | |p| |]; try done. destruct l as [|v2 l]; [done|].
  destruct v2 as [| | | |path| |]; try done. destruct l; [|done]. apply String.eqb_eq in E. rewrite E in Hin.
  by apply scoped_no_sep in Hin.
Qed.

Lemma strip_sep_colon p n : strip_prefix (p +:+ key_sep_str) (p +:+ ":" +:+ n) = None.
Proof.
  unfold strip_prefix, startswith. rewrite !chars_app. change (chars key_sep_str) with [KEY_SEP].
  change (chars ":") with [":"%char].
  assert (E : prefix_of (chars p ++ [KEY_SEP]) (chars p ++ [":"%char] ++ chars n) = false); [|by rewrite E].
  induction (chars p) as [|c l IH]; [done|]. cbn [app prefix_of]. by rewrite Ascii.eqb_refl.
Qed.

(** Marker keys: a key built for a pair gives back the file name, also in the
    legacy colon form; a key without the pair's prefix is left alone; a
    key of a pair whose identifier has no separator is read as that pair's
    scoped identifier, whatever the name contains; and an identifier that is
    canonical stays as it is, whatever the default pair. *)
Theorem marker_keys p n d :
  p <> "" -> KEY_SEP ∉ chars p ->
  strip_persist_key (persist_key (Some p) n) (Some p) = n /\
  strip_persist_key (p +:+ ":" +:+ n) (Some p) = n /\
  (forall key, strip_prefix (p +:+ key_sep_str) key = None -> strip_prefix (p +:+ ":") key = None ->
     strip_persist_key key (Some p) = key) /\
  canonical_file_id (persist_key (Some p) n) d = Some (build_file_id n (Some p)) /\
  (forall key c d', canonical_file_id key d = Some c -> canonical_file_id c d' = Some c).
Proof.
  intros Hp Hsep. unfold strip_persist_key, persist_key.
  rewrite (proj2 (String.eqb_neq p "")) by done.
  assert (Hassoc : forall a b c : string, a +:+ b +:+ c = (a +:+ b) +:+ c).
  { intros a b c. apply (inj chars). by rewrite !chars_app, app_assoc. }
  assert (Hns : is_scoped_id (p +:+ key_sep_str +:+ n) = false).
  { apply sep_not_scoped. rewrite !chars_app. apply elem_of_app. right. left. }
  split_and!.
  - rewrite Hassoc, strip_prefix_app. done.
  - rewrite strip_sep_colon, Hassoc, strip_prefix_app. done.
  - intros key -> ->. done.
  - unfold canonical_file_id. rewrite Hns, !chars_app. change (chars key_sep_str) with [KEY_SEP]. cbn [app].
    rewrite split_sep_app by done. cbn [rev app]. rewrite str_chars.
    destruct (chars p) as [|c l] eqn:E; [|by rewrite <- E, str_chars].
    destruct Hp. apply (inj chars). by rewrite E.
  - intros key c d'. apply canonical_idempotent.
Qed.

Lemma marker_keys_witness :
  strip_persist_key (persist_key (Some "pair") "a.mkv") (Some "pair") = "a.mkv" /\
  canonical_file_id (persist_key (Some "pair") "a.mkv") None = Some (build_file_id "a.mkv" (Some "pair")).
Proof.
  destruct (marker_keys "pair" "a.mkv" None) as (H1 & _ & _ & H4 & _).
  - discriminate.
  - apply (bool_decide_unpack _). vm_compute. exact I.
  - exact (conj H1 H4).
Defined.

(** ** Migration *)

Section migration_facts.
Context {time : Type}.
Implicit Types (s : ControllerPersist time) (d : option string).

Lemma elem_of_canonicalize_set X d k :
  k ∈ canonicalize_set X d <-> exists key, key ∈ X /\ canonical_file_id key d = Some k.
Proof.
  unfold canonicalize_set. rewrite elem_of_list_to_set, elem_of_filter_map. by setoid_rewrite elem_of_elements.
Qed.

(** Canonicalizing the union with the canonical keys gives the same keys. *)
Lemma canonicalize_set_again X d : canonicalize_set (X ∪ canonicalize_set X d) d = canonicalize_set X d.
Proof.
  apply set_eq. intros k. rewrite !elem_of_canonicalize_set. split.
  - intros (key & [Hin|Hin]%elem_of_union & Hk); [eauto|]. pose proof Hin as (key' & ? & E)%elem_of_canonicalize_set.
    apply (canonical_idempotent _ _ d) in E as E'. rewrite E' in Hk. injection Hk as <-. eauto.
  - intros (key & ? & ?). exists key. split; [set_solver|done].
Qed.

(** The counts that go into one canonical key. *)
Definition contributes (m : dict string Z) d k c : Prop :=
  exists key, dget m key = Some c /\ canonical_file_id key d = Some k.

Definition largest (m : dict string Z) d k v : Prop :=
  0 <= v /\ (exists c, contributes m d k c) /\ (forall c, contributes m d k c -> c <= v) /\
  (v = 0 \/ contributes m d k v).

Lemma canonicalize_counts_acc d (l acc : dict string Z) k :
  dget (fold_left (fun acc kv => match canonical_file_id kv.1 d with
    | Some k => dset acc k (Z.max (default 0 (dget acc k)) kv.2) | None => acc end) l acc) k =
  match filter_map (fun kv => if decide (canonical_file_id kv.1 d = Some k) then Some kv.2 else None) l with
  | [] => dget acc k
  | cs => Some (foldl Z.max (default 0 (dget acc k)) cs)
  end.
Proof.
  revert acc. induction l as [|[key c] l IH]; intros acc; [done|]. cbn [fold_left fst snd filter_map].
  destruct (canonical_file_id key d) as [k'|] eqn:E.
  - rewrite IH, dget_dset. destruct (decide (Some k' = Some k)) as [[= ->]|Hne].
    + rewrite decide_True by done. destruct (filter_map _ l); done.
    + rewrite decide_False by congruence. done.
  - rewrite IH. destruct (decide (None = Some k)); done.
Qed.

Lemma foldl_max_spec (cs : list Z) a :
  a <= foldl Z.max a cs /\ (forall c, c ∈ cs -> c <= foldl Z.max a cs) /\
  (foldl Z.max a cs = a \/ foldl Z.max a cs ∈ cs).
Proof.
  revert a. induction cs as [|c cs IH]; intros a; simpl.
  - split; [lia|]. split; [|by left]. intros c Hc. inversion Hc.
  - destruct (IH (Z.max a c)) as (H1 & H2 & H3). split; [lia|]. split.
    + intros x [->|Hx]%elem_of_cons; [lia|auto].
    + destruct H3 as [->|?]; [|by right; right]. destruct (Z.max_spec a c) as [[? ->]|[? ->]]; [right; left|by left].
Qed.

Lemma canonicalize_counts_spec (m : dict string Z) d k : dwf m ->
  match dget (canonicalize_counts m d) k with
  | Some v => largest m d k v
  | None => forall c, ~ contributes m d k c
  end.
Proof.
  intros Hwf. unfold canonicalize_counts. rewrite canonicalize_counts_acc. cbn [default dget].
  set (cs := filter_map _ m).
  assert (Hcs : forall c, c ∈ cs <-> contributes m d k c).
  { intros c. unfold cs. rewrite elem_of_filter_map. unfold contributes. split.
    - intros ([key c'] & Hin & E). cbn in E. destruct (decide _); [|done]. injection E as ->. exists key.
      split; [by apply dget_elem_of|done].
    - intros (key & Hk & E). exists (key, c). split; [by apply dget_elem_of|]. cbn. by rewrite decide_True. }
  destruct cs as [|c0 cs']; [intros c Hc%Hcs; inversion Hc|].
  destruct (foldl_max_spec (c0 :: cs') 0) as (H1 & H2 & H3).
  split; [done|]. split; [exists c0; apply Hcs; left|]. split; [intros c Hc%Hcs; auto|].
  destruct H3 as [?|Hin]; [by left|right]. by apply Hcs.
Qed.

Lemma largest_unique m d k v w : largest m d k v -> largest m d k w -> v = w.
Proof.
  intros (Hv0 & _ & Hv & Hv') (Hw0 & _ & Hw & Hw'). destruct Hv' as [->|Hv'], Hw' as [->|Hw']; auto.
  - apply Hv in Hw'. lia.
  - apply Hw in Hv'. lia.
  - apply Hv in Hw'. apply Hw in Hv'. lia.
Qed.

Lemma dget_merge_counts (m cc : dict string Z) key : dwf cc ->
  dget (merge_counts m cc) key =
  match dget cc key with Some c => Some (Z.max (default 0 (dget m key)) c) | None => dget m key end.
Proof.
  unfold merge_counts. revert m. induction cc as [|[k c] cc IH]; intros m Hwf; [done|].
  apply NoDup_cons in Hwf as [Hk Hwf]. cbn [fold_left fst snd]. rewrite IH by done. cbn [dget].
  rewrite !dget_dset. destruct (decide (k = key)) as [->|Hne].
  - rewrite (proj2 (dget_None cc key)) by exact Hk. destruct (decide (key = key)); done.
  - destruct (decide (key = k)); [congruence|done].
Qed.

Lemma dwf_canonicalize_counts m d : dwf (canonicalize_counts m d).
Proof.
  unfold canonicalize_counts. assert (Hg : forall (l acc : dict string Z), dwf acc -> dwf (fold_left (fun acc kv => match canonical_file_id kv.1 d with
    | Some k => dset acc k (Z.max (default 0 (dget acc k)) kv.2) | None => acc end) l acc)).
  { induction l as [|[key c] l IH]; intros acc Ha; [done|]. cbn [fold_left fst snd]. apply IH.
    destruct (canonical_file_id key d); [by apply dwf_dset|done]. }
  apply Hg, dwf_nil.
Qed.

Lemma dwf_merge_counts m cc : dwf m -> dwf (merge_counts m cc).
Proof.
  unfold merge_counts. revert m. induction cc as [|[k c] cc IH]; intros m Hm; [done|]. cbn [fold_left]. apply IH. by apply dwf_dset.
Qed.

(** Counts after both phases: still the largest count of the key's spellings. *)
Lemma counts_again m d k : dwf m ->
  dget (canonicalize_counts (merge_counts m (canonicalize_counts m d)) d) k = dget (canonicalize_counts m d) k.
Proof.
  intros Hwf. set (cc := canonicalize_counts m d). set (m1 := merge_counts m cc).
  pose proof (dwf_canonicalize_counts m d) as Hcc. fold cc in Hcc.
  pose proof (canonicalize_counts_spec m d k Hwf) as H0. fold cc in H0.
  pose proof (canonicalize_counts_spec m1 d k (dwf_merge_counts m cc Hwf)) as H1.
  assert (Hm1 : forall key, dget m1 key = match dget cc key with Some c => Some (Z.max (default 0 (dget m key)) c) | None => dget m key end).
  { intros key. by apply dget_merge_counts. }
  assert (Hfix : forall key c, dget cc key = Some c -> canonical_file_id key d = Some key).
  { intros key c Hc. pose proof (canonicalize_counts_spec m d key Hwf) as Hs. fold cc in Hs. rewrite Hc in Hs.
    destruct Hs as (_ & (c' & key' & _ & Hk) & _). by eapply canonical_idempotent. }
  assert (Hup : forall c v, dget cc k = Some v -> contributes m1 d k c -> c <= v).
  { intros c v Hv (key & Hk & Hcan). rewrite Hv in H0. destruct H0 as (Hv0 & _ & Hle & _). rewrite Hm1 in Hk.
    destruct (dget cc key) as [c'|] eqn:Ec.
    - assert (key = k) as -> by (apply Hfix in Ec as E2; congruence). rewrite Hv in Ec. injection Ec as <-.
      injection Hk as <-. destruct (dget m k) as [x|] eqn:Ex; simpl; [|lia].
      enough (x <= v) by lia. apply Hle. by exists k.
    - apply Hle. by exists key. }
  destruct (dget cc k) as [v|] eqn:Ev.
  - destruct (dget (canonicalize_counts m1 d) k) as [w|].
    + f_equal. assert (Hself : contributes m1 d k (Z.max (default 0 (dget m k)) v)).
      { exists k. rewrite Hm1, Ev. split; [done|by eapply Hfix]. }
      destruct H1 as (Hw0 & _ & Hw & Hw'). destruct H0 as (Hv0 & _ & _ & _).
      apply Hw in Hself. destruct Hw' as [->|Hw']; [lia|]. apply (Hup _ v) in Hw'; [lia|done].
    + exfalso. eapply H1. exists k. rewrite Hm1, Ev. split; [done|by eapply Hfix].
  - destruct (dget (canonicalize_counts m1 d) k) as [w|]; [|done]. exfalso.
    destruct H1 as (_ & (c & key & Hk & Hcan) & _). rewrite Hm1 in Hk. destruct (dget cc key) as [c'|] eqn:Ec.
    + assert (key = k) as -> by (apply Hfix in Ec as E2; congruence). congruence.
    + eapply H0. by exists key.
Qed.

(** ** Time stamps *)

Lemma timestamps_acc d (l acc : dict string time) k :
  dget (fold_left (fun acc kv => match canonical_file_id kv.1 d with
    | Some k => if negb (dhas acc k) || String.eqb kv.1 k then dset acc k kv.2 else acc | None => acc end) l acc) k = None <->
  dget acc k = None /\ forall key v, (key, v) ∈ l -> canonical_file_id key d <> Some k.
Proof.
  revert acc. induction l as [|[key c] l IH]; intros acc; cbn [fold_left fst snd].
  { split; [|tauto]. intros ?. split; [done|]. intros key v Hin. apply list_elem_of_In in Hin. inversion Hin. }
  assert (Hcons : (forall key' v, (key', v) ∈ (key, c) :: l -> canonical_file_id key' d <> Some k) <->
    canonical_file_id key d <> Some k /\ forall key' v, (key', v) ∈ l -> canonical_file_id key' d <> Some k).
  { split.
    - intros Hall. split; [apply (Hall key c); left|]. intros key' v Hin. apply (Hall key' v). by right.
    - intros [H1 H2] key' v Hin. apply list_elem_of_In in Hin. destruct Hin as [[= -> ->]|Hin]; [done|].
      apply (H2 key' v). by apply list_elem_of_In. }
  rewrite IH, Hcons. destruct (canonical_file_id key d) as [k'|] eqn:E; [|naive_solver].
  destruct (negb (dhas acc k') || String.eqb key k') eqn:Eb.
  - rewrite dget_dset. destruct (decide (k' = k)) as [->|Hne]; [naive_solver|]. split; [|naive_solver].
    intros [? ?]. split_and!; [done|congruence|done].
  - split; [|naive_solver]. intros [Ha ?]. split_and!; [done| |done]. intros [= ->].
    apply orb_false_iff in Eb as [Eb _]. apply negb_false_iff, dhas_true in Eb. rewrite Ha in Eb. by destruct Eb.
Qed.

Lemma timestamps_explicit d (l acc : dict string time) k v : canonical_file_id k d = Some k -> NoDup (map fst l) ->
  ((k, v) ∈ l \/ (dget acc k = Some v /\ k ∉ map fst l)) ->
  dget (fold_left (fun acc kv => match canonical_file_id kv.1 d with
    | Some k => if negb (dhas acc k) || String.eqb kv.1 k then dset acc k kv.2 else acc | None => acc end) l acc) k = Some v.
Proof.
  intros Hk. revert acc. induction l as [|[key c] l IH]; intros acc Hnd Hin; cbn [fold_left fst snd].
  { destruct Hin as [Hin|[? _]]; [apply list_elem_of_In in Hin; inversion Hin|done]. }
  cbn [map fst] in Hnd. apply NoDup_cons in Hnd as [Hkey Hnd]. apply IH; [done|].
  destruct Hin as [Hin|[Ha Hn]].
  - apply list_elem_of_In in Hin. destruct Hin as [[= -> ->]|Hin]; [|left; by apply list_elem_of_In].
    right. split; [|done]. rewrite Hk, String.eqb_refl, orb_true_r. apply dget_dset_eq.
  - right. assert (key <> k) by (intros ->; apply Hn; left). split; [|intros ?; apply Hn; by right].
    destruct (canonical_file_id key d) as [k'|] eqn:E; [|done].
    destruct (negb (dhas acc k') || String.eqb key k') eqn:Eb; [|done].
    destruct (decide (k' = k)) as [->|Hne]; [|by rewrite dget_dset_ne].
    apply orb_true_iff in Eb as [Eb%negb_true_iff|Eb%String.eqb_eq]; [|done].
    apply dhas_false in Eb. congruence.
Qed.

Lemma timestamps_source d (l acc : dict string time) k v :
  dget (fold_left (fun acc kv => match canonical_file_id kv.1 d with
    | Some k => if negb (dhas acc k) || String.eqb kv.1 k then dset acc k kv.2 else acc | None => acc end) l acc) k = Some v ->
  dget acc k = Some v \/ exists key, canonical_file_id key d = Some k.
Proof.
  revert acc. induction l as [|[key c] l IH]; intros acc; cbn [fold_left fst snd]; [by left|].
  intros [Ha|?]%IH; [|by right]. destruct (canonical_file_id key d) as [k'|] eqn:E; [|by left].
  destruct (negb _ || _); [|by left]. rewrite dget_dset in Ha. destruct (decide (k' = k)) as [->|]; [right; eauto|by left].
Qed.

Lemma dget_dupdate {V} (m l : dict string V) k : dwf l ->
  dget (dupdate m l) k = match dget l k with Some v => Some v | None => dget m k end.
Proof.
  unfold dupdate. revert m. induction l as [|[k' v] l IH]; intros m Hwf; [done|].
  apply NoDup_cons in Hwf as [Hk Hwf]. cbn [fold_left fst snd]. rewrite IH by done. cbn [dget]. rewrite dget_dset.
  destruct (decide (k' = k)) as [->|Hne].
  - rewrite (proj2 (dget_None l k)) by exact Hk. destruct (decide (k = k)); done.
  - destruct (decide (k = k')); [congruence|done].
Qed.

Lemma dwf_timestamps (m : dict string time) d : dwf (canonicalize_timestamps m d).
Proof.
  unfold canonicalize_timestamps. assert (Hg : forall (l acc : dict string time), dwf acc -> dwf (fold_left (fun acc kv => match canonical_file_id kv.1 d with
    | Some k => if negb (dhas acc k) || String.eqb kv.1 k then dset acc k kv.2 else acc | None => acc end) l acc)).
  { induction l as [|[key c] l IH]; intros acc Ha; [done|]. cbn [fold_left fst snd]. apply IH.
    destruct (canonical_file_id key d); [|done]. destruct (negb _ || _); [by apply dwf_dset|done]. }
  apply Hg, dwf_nil.
Qed.

(** Time stamps after both phases: those of the first. *)
Lemma timestamps_again (m : dict string time) d k : dwf m ->
  dget (canonicalize_timestamps (dupdate m (canonicalize_timestamps m d)) d) k = dget (canonicalize_timestamps m d) k.
Proof.
  intros Hwf. set (ct := canonicalize_timestamps m d). pose proof (dwf_timestamps m d) as Hct. fold ct in Hct.
  assert (Hm1 : dwf (dupdate m ct)) by (by apply dwf_dupdate).
  assert (Hfix : forall key v, dget ct key = Some v -> canonical_file_id key d = Some key).
  { intros key v Hv. apply timestamps_source in Hv as [Hv|[key' E]]; [done|]. by eapply canonical_idempotent. }
  destruct (dget ct k) as [v|] eqn:Ev.
  - apply timestamps_explicit; [by eapply Hfix|exact Hm1|]. left. apply dget_elem_of; [done|].
    by rewrite dget_dupdate, Ev.
  - apply timestamps_acc. split; [done|]. intros key v Hin Hcan. apply dget_elem_of in Hin; [|done].
    rewrite dget_dupdate in Hin by done. destruct (dget ct key) as [w|] eqn:Ew.
    + apply Hfix in Ew as E2. congruence.
    + apply timestamps_acc in Ev as [_ Hno]. apply (Hno key v); [by apply dget_elem_of|done].
Qed.

Lemma phase_one d dl ts ex stp mc fin rs fl :
  canonicalize_file_identities d (mkCP (time := time) dl ts ex stp mc fin rs fl 0) =
  (Ok true, mkCP (dl ∪ canonicalize_set dl d) (dupdate ts (canonicalize_timestamps ts d)) (ex ∪ canonicalize_set ex d)
     (stp ∪ canonicalize_set stp d) (merge_counts mc (canonicalize_counts mc d)) (fin ∪ canonicalize_set fin d) rs fl 1).
Proof. reflexivity. Qed.

Lemma phase_two d dl ts ex stp mc fin rs fl :
  canonicalize_file_identities d (mkCP (time := time) dl ts ex stp mc fin rs fl 1) =
  (Ok true, mkCP (canonicalize_set dl d) (canonicalize_timestamps ts d) (canonicalize_set ex d)
     (canonicalize_set stp d) (canonicalize_counts mc d) (canonicalize_set fin d) rs fl 2).
Proof. reflexivity. Qed.

(** Same lookups. *)
Definition same_dict {V} (a b : dict string V) : Prop := forall k, dget a k = dget b k.

(** The identity migration is safe to interrupt.  From an unmigrated store, the
    first phase keeps every marker and adds the canonical ones, the second
    leaves exactly the canonical ones, and from then on nothing
    changes.  Each of the two phases asks to be saved, and the outcome is the
    canonical form of the original store: a marker survives under the
    identifier its key stands for, a failure count is the largest of the
    counts of its spellings, and a time recorded under the
    identifier itself wins over those of legacy spellings. *)
Theorem marker_migration s d :
  migration_phase s = 0 -> dwf (move_failure_counts s) -> dwf (downloaded_timestamps s) ->
  let r1 := canonicalize_file_identities d s in
  let r2 := canonicalize_file_identities d r1.2 in
  r1.1 = Ok true /\ r2.1 = Ok true /\ canonicalize_file_identities d r2.2 = (Ok false, r2.2) /\
  (downloaded s ⊆ downloaded r1.2 /\ extracted s ⊆ extracted r1.2 /\ stopped s ⊆ stopped r1.2 /\
   final_move_succeeded_names s ⊆ final_move_succeeded_names r1.2) /\
  downloaded r2.2 = canonicalize_set (downloaded s) d /\ extracted r2.2 = canonicalize_set (extracted s) d /\
  stopped r2.2 = canonicalize_set (stopped s) d /\
  final_move_succeeded_names r2.2 = canonicalize_set (final_move_succeeded_names s) d /\
  (forall k, match dget (move_failure_counts r2.2) k with
             | Some v => largest (move_failure_counts s) d k v
             | None => forall c, ~ contributes (move_failure_counts s) d k c
             end) /\
  same_dict (downloaded_timestamps r2.2) (canonicalize_timestamps (downloaded_timestamps s) d) /\
  (forall k v, dget (downloaded_timestamps s) k = Some v -> canonical_file_id k d = Some k ->
     dget (downloaded_timestamps r2.2) k = Some v) /\
  resume_sources r2.2 = resume_sources s /\ display_floors r2.2 = display_floors s.
Proof.
  intros Hp Hc Ht. destruct s as [dl ts ex stp mc fin rs fl ph]. cbn [migration_phase move_failure_counts downloaded_timestamps] in *.
  subst ph. cbv zeta. rewrite phase_one. cbn [snd fst]. rewrite phase_two. cbn [snd fst downloaded extracted stopped
    final_move_succeeded_names move_failure_counts downloaded_timestamps resume_sources display_floors].
  assert (Hts : forall k, dget (canonicalize_timestamps (dupdate ts (canonicalize_timestamps ts d)) d) k = dget (canonicalize_timestamps ts d) k)
    by (intros k; by apply timestamps_again).
  rewrite !canonicalize_set_again.
  split_and!; try done; try set_solver.
  - intros k. rewrite counts_again by done. by apply canonicalize_counts_spec.
  - intros k v Hk Hcan. rewrite Hts. apply timestamps_explicit; [done|exact Ht|]. left. by apply dget_elem_of.
Qed.
End migration_facts.

Lemma marker_migration_witness :
  let s := mkCP {[persist_key (Some "p") "a"]} [("b", 5)] ∅ ∅ [("b", 2); ("c", 1)] ∅ [] [] 0 in
  let r1 := canonicalize_file_identities (Some "q") s in
  downloaded (canonicalize_file_identities (Some "q") r1.2).2 = canonicalize_set {[persist_key (Some "p") "a"]} (Some "q").
Proof.
  intros s. destruct (marker_migration s (Some "q")) as (_ & _ & _ & _ & H & _).
  - reflexivity.
  - repeat constructor; set_solver.
  - repeat constructor; set_solver.
  - exact H.
Defined.
