(* ===== verification/ControllerFile.v ===== *)
(** * The controller's state file ([controller/controller_persist.py])

    Reading and writing the markers the controller keeps between runs.  A
    file that was written reads back to the same state; any other content is
    read to a valid state or refused, with one exception the code does not
    translate. *)

From S2P Require Import Prelude PyDict PyStr Json PyFloat ControllerPersist.

(** ** Reading *)

Definition read_string (v : json) : option string :=
  match v with JStr s => Some s | _ => None end.

(** [_read_string_set] *)
Definition read_string_set (v : json) : result (gset string) :=
  match v with
  | JArr l => match mapM read_string l with Some ss => Ok (list_to_set ss) | None => Raise TypeError end
  | _ => Raise TypeError
  end.

(** [isinstance(value, dict)] *)
Definition read_object (v : json) : result (dict string json) :=
  match v with JObj d => Ok d | _ => Raise TypeError end.

(** [dct[key]] and [dct.get(key, default)] *)
Definition field (d : dict string json) (key : string) : result json :=
  match dget d key with Some v => Ok v | None => Raise KeyError end.

(** The condition of the timestamp comprehension; [float(value)] may raise. *)
Definition read_timestamp (v : json) : result (option double) :=
  x ← match v with
      | JInt z => x ← float_of_int z; Ok (Some x)
      | JFloat t => Ok (Some (float_of_text t))
      | _ => Ok None
      end;
  Ok (match x with
      | Some x => if is_finite x && float_nonneg x then Some x else None
      | None => None
      end).

Fixpoint read_timestamps (l : list (string * json)) : result (list (string * double)) :=
  match l with
  | [] => Ok []
  | (k, v) :: l' =>
      x ← read_timestamp v;
      rest ← read_timestamps l';
      Ok (match x with Some x => (k, x) :: rest | None => rest end)
  end.

Definition read_count (kv : string * json) : option (string * Z) :=
  match kv with
  | (k, JInt c) => if negb (String.eqb k "") && (0 <=? c) && (c <=? 4) then Some (k, c) else None
  | _ => None
  end.

(** [type(d.get(key)) is int] *)
Definition int_field (d : dict string json) (key : string) : option Z :=
  match dget d key with Some (JInt z) => Some z | _ => None end.

Definition canonical_key (k : string) : bool := bool_decide (canonical_resume_source_id k = Some k).

Definition read_resume_source (kv : string * json) : result (string * (Z * Z)) :=
  match kv with
  | (k, JObj d) =>
      if negb (canonical_key k) then Raise TypeError else
      match int_field d "size", int_field d "mtime" with
      | Some size, Some mtime =>
          if (size <? 0) || (mtime <? 0) then Raise TypeError else Ok (k, (size, mtime))
      | _, _ => Raise TypeError
      end
  | _ => Raise TypeError
  end.

(** The percentage a floor must carry. *)
Definition floor_percent (bytes size : Z) : Z := Z.min 99 (round_float (true_div (bytes * 100) size)).

Definition floor_valid (f : Z * Z * Z * Z * Z) : bool :=
  let '(bytes, percent, size, mtime, subset) := f in
  (0 <? bytes) && (0 <=? percent) && (percent <=? 99) && (0 <? size) && (0 <=? mtime) &&
  (0 <? subset) && (subset <=? size) && (bytes <? size) && (percent =? floor_percent bytes size).

Definition read_floor (kv : string * json) : result (string * (Z * Z * Z * Z * Z)) :=
  match kv with
  | (k, JObj d) =>
      if negb (canonical_key k) then Raise TypeError else
      match int_field d "bytes", int_field d "percent", int_field d "size", int_field d "mtime",
            int_field d "subset" with
      | Some b, Some p, Some s, Some m, Some u =>
          if floor_valid (b, p, s, m, u) then Ok (k, (b, p, s, m, u)) else Raise TypeError
      | _, _, _, _, _ => Raise TypeError
      end
  | _ => Raise TypeError
  end.

Fixpoint read_all {A B} (f : A -> result B) (l : list A) : result (list B) :=
  match l with
  | [] => Ok []
  | x :: l' => y ← f x; ys ← read_all f l'; Ok (y :: ys)
  end.

Definition parse_persist (v : json) : result (ControllerPersist double) :=
  d ← read_object v;
  v ← field d "downloaded";
  dl ← read_string_set v;
  ts ← read_object (default (JObj []) (dget d "downloaded_timestamps"));
  ts ← read_timestamps ts;
  v ← field d "extracted";
  ex ← read_string_set v;
  stp ← read_string_set (default (JArr []) (dget d "stopped"));
  counts ← read_object (default (JObj []) (dget d "move_failure_counts"));
  fin ← read_string_set (default (JArr []) (dget d "final_move_succeeded"));
  rs ← read_object (default (JObj []) (dget d "resume_sources"));
  rs ← read_all read_resume_source rs;
  fl ← read_object (default (JObj []) (dget d "display_progress_floors"));
  fl ← read_all read_floor fl;
  match default (JInt 0) (dget d "marker_identity_migration") with
  | JInt phase =>
      if (phase =? 0) || (phase =? 1) || (phase =? 2)
      then Ok (mkCP dl (dfrom ts) ex stp (dfrom (filter_map read_count counts)) fin (dfrom rs) (dfrom fl) phase)
      else Raise TypeError
  | _ => Raise TypeError
  end.

Definition controller_persist_error : exn := PersistError "Error parsing ControllerPersist".

(** [from_str]: the clause catches [ValueError], [TypeError] and [KeyError]. *)
Definition persist_of_str (content : string) : result (ControllerPersist double) :=
  match loads content with
  | None => Raise controller_persist_error
  | Some v =>
      match parse_persist v with
      | Raise (ValueError | TypeError | KeyError) => Raise controller_persist_error
      | r => r
      end
  end.

(** ** Writing *)

Definition json_set (X : gset string) : json := JArr (map JStr (elements X)).
Definition json_dict {V} (f : V -> json) (d : dict string V) : json := JObj (map (fun kv => (kv.1, f kv.2)) d).
Definition json_source (v : Z * Z) : json := JObj [("size", JInt v.1); ("mtime", JInt v.2)].
Definition json_floor (v : Z * Z * Z * Z * Z) : json :=
  let '(b, p, s, m, u) := v in
  JObj [("bytes", JInt b); ("percent", JInt p); ("size", JInt s); ("mtime", JInt m); ("subset", JInt u)].

(** A member that is written only when there is something to write. *)
Definition optional {V} (key : string) (f : V -> json) (d : dict string V) : list (string * json) :=
  match d with [] => [] | _ => [(key, json_dict f d)] end.

Definition persist_json (s : ControllerPersist double) : json :=
  JObj ([("downloaded", json_set (downloaded s));
         ("extracted", json_set (extracted s));
         ("stopped", json_set (stopped s));
         ("move_failure_counts", json_dict JInt (move_failure_counts s));
         ("final_move_succeeded", json_set (final_move_succeeded_names s));
         ("marker_identity_migration", JInt (migration_phase s))] ++
        optional "resume_sources" json_source (resume_sources s) ++
        optional "display_progress_floors" json_floor (display_floors s) ++
        optional "downloaded_timestamps" (fun x => JFloat (float_repr x)) (downloaded_timestamps s)).

Definition persist_to_text (s : ControllerPersist double) : string := dumps 4 (persist_json s).

(** ** Valid states *)

Definition count_valid (kv : string * Z) : Prop := kv.1 <> "" /\ 0 <= kv.2 <= 4.
Definition time_valid (x : double) : Prop := is_finite x = true /\ float_nonneg x = true.
Definition source_valid (kv : string * (Z * Z)) : Prop := canonical_key kv.1 = true /\ 0 <= kv.2.1 /\ 0 <= kv.2.2.
Definition floor_ok (kv : string * (Z * Z * Z * Z * Z)) : Prop := canonical_key kv.1 = true /\ floor_valid kv.2 = true.

Record persist_valid (s : ControllerPersist double) : Prop := {
  pv_times : dwf (downloaded_timestamps s) /\ Forall (fun kv => time_valid kv.2) (downloaded_timestamps s);
  pv_counts : dwf (move_failure_counts s) /\ Forall count_valid (move_failure_counts s);
  pv_sources : dwf (resume_sources s) /\ Forall source_valid (resume_sources s);
  pv_floors : dwf (display_floors s) /\ Forall floor_ok (display_floors s);
  pv_phase : 0 <= migration_phase s <= 2 }.

(** What the interpreter can print and read back: integers of at most 4300
    digits, floats whose shortest text reads back. *)
Definition printable_int (z : Z) : Prop := (length (show_int z) <= max_int_digits)%nat.
Definition printable_float (x : double) : bool :=
  number_text (float_repr x) && bool_decide (float_of_text (float_repr x) = x).

Record persist_printable (s : ControllerPersist double) : Prop := {
  pp_times : Forall (fun kv => printable_float kv.2 = true) (downloaded_timestamps s);
  pp_sources : Forall (fun kv => printable_int kv.2.1 /\ printable_int kv.2.2) (resume_sources s);
  pp_floors : Forall (fun kv => let '(b, p, z, m, u) := kv.2 in
                printable_int b /\ printable_int z /\ printable_int m /\ printable_int u) (display_floors s) }.

(** ** Reading back *)

Lemma read_set_back X : read_string_set (json_set X) = Ok X.
Proof.
  unfold read_string_set, json_set. assert (H : mapM read_string (map JStr (elements X)) = Some (elements X)).
  { induction (elements X) as [|x l IH]; [done|]. cbn [map mapM]. rewrite IH. done. }
  rewrite H. f_equal. apply list_to_set_elements_L.
Qed.

Lemma read_timestamps_back (d : dict string double) :
  Forall (fun kv => time_valid kv.2) d -> Forall (fun kv => printable_float kv.2 = true) d ->
  read_timestamps (map (fun kv => (kv.1, JFloat (float_repr kv.2))) d) = Ok d.
Proof.
  induction 1 as [|[k x] d [Hf Hn] _ IH]; intros Hp; [done|]. apply Forall_cons in Hp as [Hx Hp].
  cbn [map read_timestamps read_timestamp fst snd mbind result_bind] in *.
  apply andb_true_iff in Hx as [_ Hx%bool_decide_eq_true]. rewrite Hx, Hf, Hn, IH by done. done.
Qed.

Lemma read_counts_back (d : dict string Z) : Forall count_valid d ->
  filter_map read_count (map (fun kv => (kv.1, JInt kv.2)) d) = d.
Proof.
  induction 1 as [|[k c] d [Hk Hc] _ IH]; [done|]. cbn [map filter_map fst snd read_count] in *.
  apply String.eqb_neq in Hk. rewrite Hk. destruct (Z.leb_spec 0 c), (Z.leb_spec c 4); try lia. cbn [negb andb].
  by rewrite IH.
Qed.

Lemma read_sources_back (d : dict string (Z * Z)) : Forall source_valid d ->
  read_all read_resume_source (map (fun kv => (kv.1, json_source kv.2)) d) = Ok d.
Proof.
  induction 1 as [|[k [z m]] d (Hk & Hz & Hm) _ IH]; [done|]. cbn [map read_all fst snd] in *.
  assert (E : read_resume_source (k, json_source (z, m)) = Ok (k, (z, m))).
  { unfold read_resume_source. rewrite Hk.
    change ((if (z <? 0) || (m <? 0) then Raise TypeError else Ok (k, (z, m))) = Ok (k, (z, m))).
    by assert ((z <? 0) || (m <? 0) = false) as -> by lia. }
  rewrite E. cbn [mbind result_bind]. by rewrite IH.
Qed.

Lemma read_floors_back (d : dict string (Z * Z * Z * Z * Z)) : Forall floor_ok d ->
  read_all read_floor (map (fun kv => (kv.1, json_floor kv.2)) d) = Ok d.
Proof.
  induction 1 as [|[k [[[[b p] z] m] u]] d (Hk & Hf) _ IH]; [done|]. cbn [map read_all fst snd] in *.
  assert (E : read_floor (k, json_floor (b, p, z, m, u)) = Ok (k, (b, p, z, m, u))).
  { unfold read_floor. rewrite Hk.
    change ((if floor_valid (b, p, z, m, u) then Ok (k, (b, p, z, m, u)) else Raise TypeError) = Ok (k, (b, p, z, m, u))).
    by rewrite Hf. }
  rewrite E. cbn [mbind result_bind]. by rewrite IH.
Qed.

(** Where the members are found. *)
Lemma persist_members s : exists d, persist_json s = JObj d /\
  dget d "downloaded" = Some (json_set (downloaded s)) /\ dget d "extracted" = Some (json_set (extracted s)) /\
  dget d "stopped" = Some (json_set (stopped s)) /\
  dget d "move_failure_counts" = Some (json_dict JInt (move_failure_counts s)) /\
  dget d "final_move_succeeded" = Some (json_set (final_move_succeeded_names s)) /\
  dget d "marker_identity_migration" = Some (JInt (migration_phase s)) /\
  default (JObj []) (dget d "resume_sources") = json_dict json_source (resume_sources s) /\
  default (JObj []) (dget d "display_progress_floors") = json_dict json_floor (display_floors s) /\
  default (JObj []) (dget d "downloaded_timestamps") =
    json_dict (fun x => JFloat (float_repr x)) (downloaded_timestamps s).
Proof.
  eexists. split; [reflexivity|].
  split_and!; (by destruct (resume_sources s), (display_floors s), (downloaded_timestamps s)).
Qed.

Lemma parse_persist_json s : persist_valid s -> persist_printable s -> parse_persist (persist_json s) = Ok s.
Proof.
  intros [[Hwt Ht] [Hwc Hc] [Hws Hs] [Hwf Hf] Hph] [Pt _ _].
  destruct (persist_members s) as (d & -> & H1 & H2 & H3 & H4 & H5 & H6 & H7 & H8 & H9).
  unfold parse_persist. cbn [read_object mbind result_bind]. unfold field. rewrite H1, H2, H3, H4, H5, H6, H7, H8, H9.
  cbn [read_object default id mbind result_bind json_dict]. rewrite !read_set_back. cbn [mbind result_bind].
  rewrite read_timestamps_back by done. cbn [mbind result_bind]. rewrite read_sources_back by done.
  cbn [mbind result_bind]. rewrite read_floors_back by done. cbn [mbind result_bind].
  assert ((migration_phase s =? 0) || (migration_phase s =? 1) || (migration_phase s =? 2) = true) as -> by lia.
  rewrite read_counts_back by done. rewrite !dfrom_id by done. by destruct s.
Qed.

(** ** The written text is JSON *)

Lemma json_ok_set X : json_ok (json_set X).
Proof. apply json_ok_arr. unfold json_set. induction (elements X) as [|x l IH]; constructor; done. Qed.

Lemma json_ok_dict {V} (f : V -> json) (d : dict string V) : dwf d -> Forall (fun kv => json_ok (f kv.2)) d ->
  json_ok (json_dict f d).
Proof.
  intros Hd Hf. apply json_ok_obj. split.
  - rewrite map_map. exact Hd.
  - apply Forall_map. eapply Forall_impl; [exact Hf|]. done.
Qed.

Lemma json_ok_ints (l : list (string * Z)) : NoDup (map fst l) -> Forall (fun kv => printable_int kv.2) l ->
  json_ok (JObj (map (fun kv => (kv.1, JInt kv.2)) l)).
Proof.
  intros Hn Hf. apply json_ok_obj. split; [by rewrite map_map|].
  apply Forall_map. eapply Forall_impl; [exact Hf|]. done.
Qed.

Lemma printable_small z : 0 <= z <= 99 -> printable_int z.
Proof.
  intros Hz. unfold printable_int.
  assert (H : forallb (fun n => Nat.leb (length (show_int (Z.of_nat n))) 4300) (seq 0 100) = true) by (vm_compute; done).
  rewrite forallb_forall in H. specialize (H (Z.to_nat z)). rewrite Z2Nat.id in H by lia.
  apply Nat.leb_le, H. apply in_seq. lia.
Qed.

Lemma json_ok_source v : printable_int v.1 -> printable_int v.2 -> json_ok (json_source v).
Proof.
  intros H1 H2. apply (json_ok_ints [("size", v.1); ("mtime", v.2)]).
  - apply (bool_decide_unpack _). vm_compute. done.
  - repeat (apply Forall_cons_2; [done|]). apply Forall_nil_2.
Qed.

Lemma json_ok_floor b p z m u : printable_int b -> printable_int p -> printable_int z -> printable_int m ->
  printable_int u -> json_ok (json_floor (b, p, z, m, u)).
Proof.
  intros. apply (json_ok_ints [("bytes", b); ("percent", p); ("size", z); ("mtime", m); ("subset", u)]).
  - apply (bool_decide_unpack _). vm_compute. done.
  - repeat (apply Forall_cons_2; [done|]). apply Forall_nil_2.
Qed.

Lemma json_ok_optional {V} key (f : V -> json) (d : dict string V) : json_ok (json_dict f d) ->
  Forall (fun kv => json_ok kv.2) (optional key f d).
Proof. intros H. destruct d; [apply Forall_nil_2|]. apply Forall_singleton. exact H. Qed.

Lemma persist_json_ok s : persist_valid s -> persist_printable s -> json_ok (persist_json s).
Proof.
  intros [[Hwt Ht] [Hwc Hc] [Hws Hs] [Hwf Hf] Hph] [Pt Ps Pf]. apply json_ok_obj. split.
  { destruct (resume_sources s), (display_floors s), (downloaded_timestamps s);
      apply (bool_decide_unpack _); vm_compute; done. }
  apply Forall_app. split.
  { repeat (apply Forall_cons_2; [first [apply json_ok_set | idtac]|]); [| |apply Forall_nil_2]; cbn [snd].
    - apply json_ok_dict; [done|]. eapply Forall_impl; [exact Hc|]. intros [k c] [_ ?]. apply printable_small. simpl in *. lia.
    - apply printable_small. lia. }
  apply Forall_app. split; [|apply Forall_app; split]; apply json_ok_optional, json_ok_dict; try done.
  - eapply Forall_impl; [exact Ps|]. intros kv [? ?]. by apply json_ok_source.
  - apply Forall_forall. intros [k [[[[b p] z] m] u]] Hin. rewrite Forall_forall in Pf, Hf.
    specialize (Pf _ Hin). specialize (Hf _ Hin). destruct Hf as [_ Hf]. cbn [snd] in *.
    destruct Pf as (? & ? & ? & ?). apply json_ok_floor; try done. apply printable_small.
    unfold floor_valid in Hf. rewrite !andb_true_iff in Hf. lia.
  - eapply Forall_impl; [exact Pt|]. intros kv [? _]%andb_true_iff. by apply number_text_ok.
Qed.

(** The controller's state file: what was written is read back to the
    same state, markers, times, failure counts, resume sources and display
    floors included. *)
Theorem controller_file_round_trip s :
  persist_valid s -> persist_printable s -> persist_of_str (persist_to_text s) = Ok s.
Proof.
  intros Hv Hp. unfold persist_of_str, persist_to_text.
  rewrite loads_dumps by (by apply persist_json_ok). by rewrite parse_persist_json.
Qed.

Lemma Forall_dfrom {V} (P : string * V -> Prop) (l : list (string * V)) : Forall P l -> Forall P (dfrom l).
Proof.
  intros Hl. unfold dfrom, dupdate.
  assert (H : forall acc : dict string V, Forall P acc -> Forall P (fold_left (fun acc kv => dset acc kv.1 kv.2) l acc)).
  { induction Hl as [|[k v] l Hk _ IH]; intros acc Hacc; [done|]. apply IH. by apply Forall_dset. }
  apply H, Forall_nil_2.
Qed.

Lemma read_string_set_error v e : read_string_set v = Raise e -> e = TypeError.
Proof. destruct v; simpl; try (by intros [= <-]). by destruct (mapM _ _); [|intros [= <-]]. Qed.

Lemma read_object_error v e : read_object v = Raise e -> e = TypeError.
Proof. destruct v; simpl; try done; by intros [= <-]. Qed.

Lemma field_error d k e : field d k = Raise e -> e = KeyError.
Proof. unfold field. by destruct (dget d k); [|intros [= <-]]. Qed.

(** Only the conversion of an integer raises. *)
Lemma read_timestamps_spec l :
  match read_timestamps l with
  | Ok ts => Forall (fun kv => time_valid kv.2) ts
  | Raise e => e = OverflowError /\ exists k z, (k, JInt z) ∈ l /\ float_of_int z = Raise OverflowError
  end.
Proof.
  induction l as [|[k v] l IH]; [apply Forall_nil_2|]. cbn [read_timestamps].
  destruct (read_timestamp v) as [x|e] eqn:E; cbn [mbind result_bind].
  - destruct (read_timestamps l) as [ts|e']; cbn [mbind result_bind].
    + destruct x as [x|]; [|done]. apply Forall_cons_2; [|done]. revert E. unfold read_timestamp.
      destruct (match v with JInt z => _ | JFloat t => _ | _ => _ end) as [[y|]|]; cbn [mbind result_bind]; try done.
      destruct (is_finite y && float_nonneg y) eqn:Ey; [|done]. intros [= <-]. by apply andb_true_iff in Ey.
    + destruct IH as [-> (k' & z & Hin & Hz)]. split; [done|]. exists k', z. split; [by right|done].
  - destruct v as [| |z|t| | |]; try done. unfold read_timestamp, float_of_int in E.
    destruct (is_finite _) eqn:Ef; cbn [mbind result_bind] in E; [done|]. injection E as <-. split; [done|].
    exists k, z. split; [left|]. unfold float_of_int. by rewrite Ef.
Qed.

Lemma read_all_spec {A B} (f : A -> result B) (P : B -> Prop) l :
  (forall a b, f a = Ok b -> P b) -> (forall a e, f a = Raise e -> e = TypeError) ->
  match read_all f l with Ok ys => Forall P ys | Raise e => e = TypeError end.
Proof.
  intros Hok Herr. induction l as [|x l IH]; [apply Forall_nil_2|]. cbn [read_all].
  destruct (f x) as [y|e] eqn:E; cbn [mbind result_bind]; [|by apply (Herr x)].
  destruct (read_all f l); cbn [mbind result_bind]; [|done]. apply Forall_cons_2; [by apply (Hok x)|done].
Qed.

Lemma read_sources_spec l :
  match read_all read_resume_source l with Ok ys => Forall source_valid ys | Raise e => e = TypeError end.
Proof.
  apply read_all_spec; intros [k []]; simpl; try (by intros ? [= <-]); try done.
  - intros b. destruct (canonical_key k) eqn:Ek; [|done]. cbn [negb].
    destruct (int_field _ _) as [z|]; [|done]. destruct (int_field _ _) as [m|]; [|done].
    destruct ((z <? 0) || (m <? 0)) eqn:E; [done|]. intros [= <-]. split; [done|]. simpl. lia.
  - intros b. destruct (canonical_key k) eqn:Ek; [|by intros [= <-]]. cbn [negb].
    destruct (int_field _ _) as [z|]; [|by intros [= <-]]. destruct (int_field _ _) as [m|]; [|by intros [= <-]].
    destruct ((z <? 0) || (m <? 0)) eqn:E; by intros [= <-].
Qed.

Lemma read_floors_spec l :
  match read_all read_floor l with Ok ys => Forall floor_ok ys | Raise e => e = TypeError end.
Proof.
  apply read_all_spec; intros [k v] y; unfold read_floor; destruct v; try (by intros [= <-]); try done;
    (destruct (canonical_key k) eqn:Ek; [|by intros [= <-]]; cbn [negb];
     do 5 (destruct (int_field _ _); [|by intros [= <-]]); destruct (floor_valid _) eqn:Ef; by intros [= <-]).
Qed.

(** The outcomes of decoding. *)
Lemma parse_persist_spec v :
  match parse_persist v with
  | Ok s => persist_valid s
  | Raise e => e = TypeError \/ e = KeyError \/
      e = OverflowError /\ exists d ts k z, v = JObj d /\ dget d "downloaded_timestamps" = Some (JObj ts) /\
        (k, JInt z) ∈ ts /\ float_of_int z = Raise OverflowError
  end.
Proof.
  unfold parse_persist.
  destruct (read_object v) as [d|e] eqn:E; cbn [mbind result_bind]; [|left; by eapply read_object_error].
  assert (v = JObj d) as -> by (destruct v; simpl in E; congruence). clear E.
  destruct (field d "downloaded") as [v1|e] eqn:E; cbn [mbind result_bind]; [|right; left; by eapply field_error]. clear E.
  destruct (read_string_set v1) as [dl|e] eqn:E; cbn [mbind result_bind]; [|left; by eapply read_string_set_error]. clear E.
  destruct (read_object (default (JObj []) (dget d "downloaded_timestamps"))) as [ts|e] eqn:Et; cbn [mbind result_bind];
    [|left; by eapply read_object_error].
  pose proof (read_timestamps_spec ts) as Hts. destruct (read_timestamps ts) as [times|e]; cbn [mbind result_bind].
  2:{ right. right. destruct Hts as [-> (k & z & Hin & Hz)]. split; [done|]. exists d, ts, k, z. split; [done|].
      split; [|done]. destruct (dget d "downloaded_timestamps") as [[]|]; simpl in Et; try done; injection Et as <-; [done|].
      inversion Hin. }
  destruct (field d "extracted") as [v2|e] eqn:E; cbn [mbind result_bind]; [|right; left; by eapply field_error]. clear E.
  destruct (read_string_set v2) as [ex|e] eqn:E; cbn [mbind result_bind]; [|left; by eapply read_string_set_error]. clear E.
  destruct (read_string_set (default _ (dget d "stopped"))) as [stp|e] eqn:E; cbn [mbind result_bind];
    [|left; by eapply read_string_set_error]. clear E.
  destruct (read_object (default _ (dget d "move_failure_counts"))) as [counts|e] eqn:E; cbn [mbind result_bind];
    [|left; by eapply read_object_error]. clear E.
  destruct (read_string_set (default _ (dget d "final_move_succeeded"))) as [fin|e] eqn:E; cbn [mbind result_bind];
    [|left; by eapply read_string_set_error]. clear E.
  destruct (read_object (default _ (dget d "resume_sources"))) as [rs|e] eqn:E; cbn [mbind result_bind];
    [|left; by eapply read_object_error]. clear E.
  pose proof (read_sources_spec rs) as Hrs. destruct (read_all read_resume_source rs) as [srcs|e]; cbn [mbind result_bind]; [|by left].
  destruct (read_object (default _ (dget d "display_progress_floors"))) as [fl|e] eqn:E; cbn [mbind result_bind];
    [|left; by eapply read_object_error]. clear E.
  pose proof (read_floors_spec fl) as Hfl. destruct (read_all read_floor fl) as [floors|e]; cbn [mbind result_bind]; [|by left].
  destruct (default (JInt 0) _) as [| |phase| | | |]; try (by left).
  destruct ((phase =? 0) || (phase =? 1) || (phase =? 2)) eqn:Ep; [|by left]. constructor; simpl; [| | | |lia].
  - split; [apply dwf_dfrom|by apply Forall_dfrom].
  - split; [apply dwf_dfrom|]. apply Forall_dfrom, Forall_forall. intros [k c] Hin%elem_of_filter_map.
    destruct Hin as ([k' v'] & _ & Hr). unfold read_count in Hr. destruct v'; try done.
    destruct (negb (String.eqb k' "") && (0 <=? z) && (z <=? 4)) eqn:Eb; [|done]. injection Hr as <- <-.
    rewrite !andb_true_iff, negb_true_iff, String.eqb_neq in Eb. split; simpl; [tauto|lia].
  - split; [apply dwf_dfrom|by apply Forall_dfrom].
  - split; [apply dwf_dfrom|by apply Forall_dfrom].
Qed.


(** ** Samples *)

Definition sample_persist : ControllerPersist double :=
  mkCP {["a"; "b"]} [("a", float_of_text "1735689600.123456")] {["a"]} ∅ [("b", 3)] {["c"]}
    [("r", (1000, 1735689600))] [("r", (500, 50, 1000, 1735689600, 1000))] 2.

Example oversized_time_not_translated :
  persist_of_str (dumps 0 (JObj [("downloaded", JArr []);
    ("downloaded_timestamps", JObj [("a", JInt (10 ^ 400))]); ("extracted", JArr [])])) = Raise OverflowError.
Proof. vm_compute. reflexivity. Qed.

Lemma controller_file_round_trip_witness :
  persist_of_str (persist_to_text sample_persist) = Ok sample_persist.
Proof.
  apply controller_file_round_trip.
  - constructor; simpl; [| | | |lia]; (split; [apply NoDup_singleton|apply Forall_singleton]).
    + split; vm_compute; reflexivity.
    + split; [discriminate|simpl; lia].
    + split; [vm_compute; reflexivity|simpl; lia].
    + split; vm_compute; reflexivity.
  - constructor; simpl; apply Forall_singleton.
    + vm_compute; reflexivity.
    + split; (apply Nat.leb_le; vm_compute; reflexivity).
    + split_and!; (apply Nat.leb_le; vm_compute; reflexivity).
Defined.
