(* ===== verification/ManagedExtract.v ===== *)
(** * Managed extraction folders ([common/managed_extract.py])

    The folder an archive is extracted to, and the marker file left in it:
    its content, how it is read back, and the file identifier it stands for.
    The clock and the outcome of the file operations are arguments. *)

From S2P Require Import Prelude PyDict PyStr Json PyFloat ModelFile ModelFileFacts.

Definition MANAGED_EXTRACT_MARKER_FILE_NAME : string := ".seedsync-extract.json".

Definition ARCHIVE_FOLDER_SUFFIXES : list string :=
  [".7z"; ".bz2"; ".gz"; ".lz"; ".rar"; ".tar"; ".tbz2"; ".tgz"; ".zip"; ".zipx"].

Definition is_managed_extract_marker_name (file_name : string) : bool :=
  String.eqb file_name MANAGED_EXTRACT_MARKER_FILE_NAME.

(** ** Folder names *)

Definition is_archive_suffix (suffix : string) : bool :=
  bool_decide (lower suffix ∈ ARCHIVE_FOLDER_SUFFIXES).

(** One turn of the loop: the shortened name, or [None] when it stops. *)
Definition strip_archive_suffix (folder_name : string) : option string :=
  let '(root, suffix) := splitext folder_name in
  if String.eqb root "" || negb (is_archive_suffix suffix) then None else Some root.

Fixpoint folder_loop (fuel : nat) (folder_name : string) : string :=
  match fuel with
  | O => folder_name
  | S fuel =>
      match strip_archive_suffix folder_name with
      | None => folder_name
      | Some root => folder_loop fuel root
      end
  end.

(** Every turn shortens the name, so its length bounds the turns. *)
Definition build_managed_extract_folder_name (archive_name : string) : string :=
  let folder_name := basename (rstrip_char slash archive_name) in
  folder_loop (String.length folder_name) folder_name.

Definition build_managed_extract_folder_path (out_dir_path archive_name : string) : string :=
  path_join out_dir_path (build_managed_extract_folder_name archive_name).

(** ** Markers *)

Record ManagedExtractMarker := mkMarker {
  mk_archive_name : string; mk_extracted_at : option string;
  mk_archive_file_id : option string; mk_path_pair_id : option string }.

#[export] Instance marker_eq_dec : EqDecision ManagedExtractMarker.
Proof. solve_decision. Defined.

(** [now] is [datetime.now().isoformat()]. *)
Definition build_managed_extract_marker (now archive_name : string) (archive_file_id path_pair_id : option string)
    : ManagedExtractMarker := mkMarker archive_name (Some now) archive_file_id path_pair_id.

Definition opt_member (key : string) (v : option string) : list (string * json) :=
  match v with Some s => [(key, JStr s)] | None => [] end.

(** The dictionary, in the order of its construction. *)
Definition marker_dict (m : ManagedExtractMarker) : dict string json :=
  [("schema_version", JInt 1); ("archive_name", JStr (mk_archive_name m))] ++
  opt_member "extracted_at" (mk_extracted_at m) ++ opt_member "archive_file_id" (mk_archive_file_id m) ++
  opt_member "path_pair_id" (mk_path_pair_id m).

(** [sort_keys=True]: members by increasing key *)
Fixpoint key_insert (x : string * json) (l : list (string * json)) : list (string * json) :=
  match l with
  | [] => [x]
  | y :: l' => if decide (String.le x.1 y.1) then x :: l else y :: key_insert x l'
  end.

Definition sort_keys (d : list (string * json)) : list (string * json) := foldr key_insert [] d.

(** The text of a marker file, final newline included. *)
Definition marker_text (m : ManagedExtractMarker) : string :=
  dumps 2 (JObj (sort_keys (marker_dict m))) +:+ str [chr 10].

(** What the directory creation and the write did: the write may stop after
    some characters. *)
Inductive write_outcome := NoDirectory | NoFile | Stopped (n : nat) | Written.

(** The files of the disk, by path. *)
Definition write_managed_extract_marker (o : write_outcome) (now out_dir_path archive_name : string)
    (archive_file_id path_pair_id : option string) : st (dict string string) unit :=
  let marker_path := path_join out_dir_path MANAGED_EXTRACT_MARKER_FILE_NAME in
  let text := marker_text (build_managed_extract_marker now archive_name archive_file_id path_pair_id) in
  match o with
  | NoDirectory | NoFile => raise OSError
  | Stopped n => modify (fun d => dset d marker_path (str (take n (chars text))));; raise OSError
  | Written => modify (fun d => dset d marker_path text)
  end.

(** A member that must be a string when it is given; [None] inside is absence. *)
Definition opt_string (d : dict string json) (key : string) : option (option string) :=
  match dget d key with
  | None | Some JNull => Some None
  | Some (JStr s) => Some (Some s)
  | Some _ => None
  end.

Definition read_marker_value (v : json) : option ManagedExtractMarker :=
  match v with
  | JObj d =>
      if negb (json_is_one (default JNull (dget d "schema_version"))) then None else
      match dget d "archive_name" with
      | Some (JStr n) =>
          if String.eqb n "" then None else
          match opt_string d "extracted_at", opt_string d "archive_file_id", opt_string d "path_pair_id" with
          | Some at_, Some fid, Some pid => Some (mkMarker n at_ fid pid)
          | _, _, _ => None
          end
      | _ => None
      end
  | _ => None
  end.

(** A path that is not a readable file gives no content. *)
Definition read_managed_extract_marker (files : dict string string) (marker_path : string)
    : option ManagedExtractMarker :=
  text ← dget files marker_path;
  v ← loads text;
  read_marker_value v.

(** On any mapping. *)
Definition resolve_managed_extract_file_id (marker : dict string json) : option string :=
  match dget marker "archive_name" with
  | Some (JStr n) =>
      if String.eqb n "" then None else
      match opt_string marker "path_pair_id" with
      | Some pid =>
          let expected := build_file_id n pid in
          match dget marker "archive_file_id" with
          | None | Some JNull => Some expected
          | Some (JStr fid) =>
              if String.eqb fid "" then Some expected
              else if String.eqb fid expected then Some fid else None
          | Some _ => None
          end
      | None => None
      end
  | _ => None
  end.

(** ** Folder names, characterised *)

(** The characters after the last [c] of a text that has one. *)
Lemma after_last_found c cur l : existsb (fun x => Ascii.eqb x c) l = true ->
  exists k, l = k ++ c :: after_last c cur l /\ existsb (fun x => Ascii.eqb x c) (after_last c cur l) = false.
Proof.
  revert cur. induction l as [|x l IH]; intros cur; [done|]. simpl.
  destruct (Ascii.eqb x c) eqn:E.
  - apply Ascii.eqb_eq in E as ->. intros _. destruct (existsb (fun x => Ascii.eqb x c) l) eqn:El.
    + destruct (IH l eq_refl) as (k & Hk & Hn). exists (c :: k). split; [|done]. simpl. by f_equal.
    + exists []. assert (Hl : forall cur, after_last c cur l = cur).
      { clear IH. revert El. induction l as [|y l IHl]; [done|]. simpl. intros [Hy Hl]%orb_false_iff cur'.
        rewrite Hy. by apply IHl. }
      rewrite Hl. done.
  - cbn [orb]. intros Hl. destruct (IH cur Hl) as (k & Hk & Hn). exists (x :: k). split; [|done]. simpl. by f_equal.
Qed.

Lemma after_last_absent c cur l : existsb (fun x => Ascii.eqb x c) l = false -> after_last c cur l = cur.
Proof.
  revert cur. induction l as [|x l IH]; intros cur; [done|]. simpl. intros [-> Hl]%orb_false_iff. by apply IH.
Qed.

Lemma append_nil_r s : s +:+ "" = s.
Proof. apply (inj chars). by rewrite chars_app, app_nil_r. Qed.

Lemma splitext_parts p : (splitext p).1 +:+ (splitext p).2 = p.
Proof.
  unfold splitext. set (l := chars p). set (base := after_last slash l l).
  destruct (existsb (fun x => Ascii.eqb x dot) base) eqn:Ed; cbn [negb]; [|apply append_nil_r].
  destruct (forallb _ _); [apply append_nil_r|]. cbn [fst snd].
  assert (Hb : exists k, l = k ++ base).
  { destruct (existsb (fun x => Ascii.eqb x slash) l) eqn:Es.
    - destruct (after_last_found slash l l Es) as (k & Hk & _). exists (k ++ [slash]). by rewrite <- app_assoc.
    - exists []. subst base. by rewrite after_last_absent. }
  destruct Hb as [k Hk]. destruct (after_last_found dot base base Ed) as (k' & Hk' & _).
  set (ext := after_last dot base base) in *.
  assert (Hl : l = (k ++ k') ++ dot :: ext) by (rewrite <- app_assoc, <- Hk'; exact Hk).
  rewrite <- str_app, <- (str_chars p). change (chars p) with l. f_equal.
  clearbody ext. clearbody base. clear Hk Hk' Ed. rewrite Hl. generalize (k ++ k'). intros m.
  replace (length (m ++ dot :: ext) - length ext - 1)%nat with (length m) by (rewrite length_app; simpl; lia).
  by rewrite take_app_length.
Qed.

Lemma strip_archive_suffix_spec f r : strip_archive_suffix f = Some r ->
  exists suffix, f = r +:+ suffix /\ r <> "" /\ is_archive_suffix suffix = true.
Proof.
  unfold strip_archive_suffix. pose proof (splitext_parts f) as Hp. destruct (splitext f) as [root suffix]. cbn [fst snd] in Hp.
  destruct (String.eqb_spec root ""); [done|]. destruct (is_archive_suffix suffix) eqn:E; [|done]. cbn [orb negb].
  intros [= <-]. by exists suffix.
Qed.

Lemma archive_suffix_nonempty s : is_archive_suffix s = true -> (0 < String.length s)%nat.
Proof. destruct s; [|simpl; lia]. vm_compute. done. Qed.

Lemma length_append s t : String.length (s +:+ t) = (String.length s + String.length t)%nat.
Proof. by rewrite <- !length_chars, chars_app, length_app. Qed.

(** The loop stops, having removed archive suffixes only. *)
Lemma folder_loop_spec fuel f : (String.length f <= fuel)%nat ->
  strip_archive_suffix (folder_loop fuel f) = None /\
  (f <> "" -> folder_loop fuel f <> "") /\
  exists sufs, Forall (fun s => is_archive_suffix s = true) sufs /\ f = foldl String.append (folder_loop fuel f) sufs.
Proof.
  revert f. induction fuel as [|fuel IH]; intros f Hf.
  - destruct f; [|simpl in Hf; lia]. split_and!; [done|done|]. by exists [].
  - cbn [folder_loop]. destruct (strip_archive_suffix f) as [r|] eqn:E.
    2:{ split_and!; [done|done|]. by exists []. }
    apply strip_archive_suffix_spec in E as (s & -> & Hr & Hs). rewrite length_append in Hf.
    pose proof (archive_suffix_nonempty s Hs). destruct (IH r ltac:(lia)) as (H1 & H2 & sufs & H3 & H4).
    split_and!; [done|auto|]. exists (sufs ++ [s]). split; [apply Forall_app; split; [done|by apply Forall_singleton]|].
    rewrite foldl_app. cbn [foldl]. by rewrite <- H4.
Qed.

(** ** Markers read back *)

Lemma loads_trailing_newline indent v : json_ok v -> loads (dumps indent v +:+ str [chr 10]) = Some v.
Proof.
  intros Hv. unfold loads, dumps. rewrite chars_app, !chars_str, skip_dump by done.
  rewrite dump_reads_back; [done|done| |done].
  rewrite <- length_chars, chars_app, !chars_str, length_app. pose proof (weight_dump indent 0 v Hv). lia.
Qed.

Lemma marker_json_ok m : json_ok (JObj (sort_keys (marker_dict m))).
Proof.
  apply json_ok_obj. destruct m as [n [?|] [?|] [?|]]; (split; [apply (bool_decide_unpack _); vm_compute; done|]);
    repeat (apply Forall_cons_2; [try done; apply Nat.leb_le; vm_compute; reflexivity|]); apply Forall_nil_2.
Qed.

Lemma read_marker_back m : mk_archive_name m <> "" -> read_marker_value (JObj (sort_keys (marker_dict m))) = Some m.
Proof.
  intros Hn%String.eqb_neq. destruct m as [n [a|] [f|] [p|]]; cbn [mk_archive_name] in Hn;
    (match goal with |- _ = Some ?m =>
       change ((if String.eqb n "" then None else Some m) = Some m) end); by rewrite Hn.
Qed.

Lemma resolve_marker m : mk_archive_name m <> "" ->
  let expected := build_file_id (mk_archive_name m) (mk_path_pair_id m) in
  resolve_managed_extract_file_id (marker_dict m) =
  if bool_decide (mk_archive_file_id m = None \/ mk_archive_file_id m = Some "" \/ mk_archive_file_id m = Some expected)
  then Some expected else None.
Proof.
  intros Hn%String.eqb_neq expected. destruct m as [n a [f|] p]; cbn [mk_archive_name mk_archive_file_id mk_path_pair_id] in *.
  - transitivity (if String.eqb n "" then None else if String.eqb f "" then Some expected
                  else if String.eqb f expected then Some f else None).
    { subst expected. by destruct a, p. }
    rewrite Hn. destruct (String.eqb_spec f "") as [->|H1]; [by rewrite bool_decide_eq_true_2 by auto|].
    destruct (String.eqb_spec f expected) as [->|H2]; [by rewrite bool_decide_eq_true_2 by auto|].
    by rewrite bool_decide_eq_false_2 by naive_solver.
  - transitivity (if String.eqb n "" then None else Some expected).
    { subst expected. by destruct a, p. }
    by rewrite Hn, bool_decide_eq_true_2 by auto.
Qed.

(** Extraction markers.  The folder name of an archive is its base name
    without any of the archive suffixes at its end, at least one character
    being kept.  A marker that was written is read back unchanged from its
    folder, other files untouched; it stands for the archive's identifier
    when it carries none or the expected one, and for nothing otherwise, so
    that the marker of an archive below a directory of a path pair is never
    taken for a root archive of the same name. *)
Theorem managed_marker files now out n fid pid :
  n <> "" ->
  (let base := basename (rstrip_char slash n) in let folder := build_managed_extract_folder_name n in
   strip_archive_suffix folder = None /\ (base <> "" -> folder <> "") /\
   exists sufs, Forall (fun s => is_archive_suffix s = true) sufs /\ base = foldl String.append folder sufs) /\
  let marker := build_managed_extract_marker now n fid pid in
  let path := path_join out MANAGED_EXTRACT_MARKER_FILE_NAME in
  let '(r, files') := write_managed_extract_marker Written now out n fid pid files in
  r = Ok tt /\ read_managed_extract_marker files' path = Some marker /\
  (forall p, p <> path -> dget files' p = dget files p) /\
  resolve_managed_extract_file_id (marker_dict marker) =
    (if bool_decide (fid = None \/ fid = Some "" \/ fid = Some (build_file_id n pid))
     then Some (build_file_id n pid) else None) /\
  (forall path' pair, pid = Some pair -> fid = Some (build_file_id path' (Some pair)) -> path' <> n ->
     resolve_managed_extract_file_id (marker_dict marker) = None).
Proof.
  intros Hn. split.
  { by apply folder_loop_spec. }
  intros marker path. cbn [write_managed_extract_marker modify]. fold path. fold marker.
  assert (Hres : resolve_managed_extract_file_id (marker_dict marker) =
    if bool_decide (fid = None \/ fid = Some "" \/ fid = Some (build_file_id n pid))
    then Some (build_file_id n pid) else None).
  { apply resolve_marker. done. }
  split_and!; [done| | |done|].
  - unfold read_managed_extract_marker. rewrite dget_dset_eq. cbn [mbind option_bind]. unfold marker_text.
    rewrite loads_trailing_newline by apply marker_json_ok. by apply read_marker_back.
  - intros p Hp. by apply dget_dset_ne.
  - intros path' pair -> -> Hne. rewrite Hres. rewrite bool_decide_eq_false_2; [done|].
    intros [H|[H%(inj Some)|H%(inj Some)]]; [done| |].
    + pose proof (scoped_id_bracket path' pair) as Hb. by rewrite H in Hb.
    + apply build_scoped_id_inj in H as [? _]. done.
Qed.

Lemma managed_marker_witness :
  let '(r, files') := write_managed_extract_marker Written "2026-01-01T00:00:00" "/out/a" "a.tar.gz" None (Some "p") [] in
  r = Ok tt /\ read_managed_extract_marker files' "/out/a/.seedsync-extract.json" =
    Some (mkMarker "a.tar.gz" (Some "2026-01-01T00:00:00") None (Some "p")).
Proof.
  destruct (managed_marker [] "2026-01-01T00:00:00" "/out/a" "a.tar.gz" None (Some "p") ltac:(discriminate)) as [_ H].
  cbv zeta in H. destruct (write_managed_extract_marker _ _ _ _ _ _ _) as [r files'].
  destruct H as (Hr & Hread & _). split; [exact Hr|exact Hread].
Defined.

Example folder_names : map build_managed_extract_folder_name ["a.tar.gz"; "b.rar"; "/x/.tar.gz/"; "c"; "d.part1.RAR"] =
  ["a"; "b"; ".tar"; "c"; "d.part1"].
Proof. vm_compute. reflexivity. Qed.
