(* ===== verification/ExtractArchive.v ===== *)
(** * Extraction of one archive ([controller/extract/extract.py])

    Which files count as archives, how the external extractor is called, and
    the checks that keep an extraction inside its target directory.  The
    disk, the archive listings and the external tool answer through the class
    [ExtractEnv]; every change of the disk is an event of the log. *)

From S2P Require Import Prelude PyDict PyStr Json ManagedExtract.

(** ** Kinds of archives *)

Inductive archive_kind := ZIP | TAR | RAR | SEVENZIP | GZ | BZ2.

#[export] Instance archive_kind_eq_dec : EqDecision archive_kind.
Proof. solve_decision. Defined.

(** A regular file: what [zipfile.is_zipfile] and [tarfile.is_tarfile] say of
    it (the latter raises on a file it cannot open), and its first bytes. *)
Record disk_file := mkDiskFile {
  df_is_zip : bool; df_is_tar : result bool; df_header : option (list ascii) }.

Definition bytes_of (codes : list Z) : list ascii := map chr codes.

Definition header_kind (h : list ascii) : option archive_kind :=
  if prefix_of (chars "Rar!" ++ bytes_of [26; 7; 0]) h || prefix_of (chars "Rar!" ++ bytes_of [26; 7; 1; 0]) h
  then Some RAR
  else if prefix_of (chars "7z" ++ bytes_of [188; 175; 39; 28]) h then Some SEVENZIP
  else if prefix_of (bytes_of [31; 139]) h then Some GZ
  else if prefix_of (chars "BZh") h then Some BZ2
  else None.

(** What is on the disk under a path, if it is a regular file. *)
Class Disk := { regular_file : string -> option disk_file }.

Definition detect_archive_kind `{Disk} (archive_path : string) : result (option archive_kind) :=
  match regular_file archive_path with
  | None => Ok None
  | Some f =>
      if df_is_zip f then Ok (Some ZIP) else
      is_tar ← df_is_tar f;
      if is_tar : bool then Ok (Some TAR) else
      Ok (h ← df_header f; header_kind (take 8 h))
  end.

Definition is_archive `{Disk} (archive_path : string) : result bool :=
  match regular_file archive_path with
  | None => Ok false
  | Some _ => k ← detect_archive_kind archive_path; Ok (match k with Some _ => true | None => false end)
  end.

Definition is_archive_fast (archive_path : string) : bool :=
  let ext := (splitext (basename archive_path)).2 in
  match chars ext with
  | [] => false
  | _ :: e => bool_decide (str e ∈ ["7z"; "bz2"; "gz"; "rar"; "tar"; "tgz"; "tbz"; "tbz2"; "zip"; "zipx"])
  end.

(** ** Names of intermediate files *)

Definition SECOND_PASS_TAR_EXTENSIONS : list string :=
  [".tar.gz"; ".tgz"; ".tar.bz"; ".tar.bz2"; ".tbz"; ".tbz2"].
Definition SINGLE_FILE_COMPRESSED_EXTENSIONS : list string := [".gz"; ".bz2"].

Definition requires_second_tar_pass (archive_path : string) : bool :=
  existsb (endswith (lower archive_path)) SECOND_PASS_TAR_EXTENSIONS.

(** [sorted(suffixes, key=len, reverse=True)] *)
Fixpoint longer_first (x : string) (l : list string) : list string :=
  match l with
  | [] => [x]
  | y :: l' => if (String.length y <=? String.length x)%nat then x :: l else y :: longer_first x l'
  end.

Definition strip_archive_extension (archive_name : string) (suffixes : list string) : string :=
  match find (endswith (lower archive_name)) (foldr longer_first [] suffixes) with
  | Some suffix =>
      let stripped := str (take (String.length archive_name - String.length suffix) (chars archive_name)) in
      if String.eqb stripped "" then archive_name else stripped
  | None => archive_name
  end.

Definition controlled_single_file_output_path (archive_path output_root : string) : string :=
  path_join output_root (strip_archive_extension (basename archive_path) SINGLE_FILE_COMPRESSED_EXTENSIONS).

Definition controlled_wrapped_tar_output_path (archive_path wrapped_root : string) : string :=
  let n := strip_archive_extension (basename archive_path) SECOND_PASS_TAR_EXTENSIONS in
  path_join wrapped_root (if endswith (lower n) ".tar" then n else n +:+ ".tar").

Definition build_7z_extract_command (archive_path out_dir_path : string) : list string :=
  ["7z"; "x"; "-y"; "-o" +:+ out_dir_path; "--"; archive_path].
Definition build_7z_stdout_command (archive_path : string) : list string :=
  ["7z"; "x"; "-so"; "--"; archive_path].

(** ** Containment *)

(** The components [os.path.commonpath] compares. *)
Definition path_parts (p : string) : list string :=
  filter (fun c => c <> "" /\ c <> ".") (split slash p).

Definition is_abs (p : string) : bool := startswith p "/".

Definition slash_join (l : list string) : string := str (join [slash] (map chars l)).

Fixpoint common_parts (a b : list string) : list string :=
  match a, b with
  | x :: a', y :: b' => if String.eqb x y then x :: common_parts a' b' else []
  | _, _ => []
  end.

(** [os.path.commonpath([a, b])]; [None] is [ValueError]. *)
Definition commonpath (a b : string) : option string :=
  if Bool.eqb (is_abs a) (is_abs b)
  then Some ((if is_abs a then "/" else "") +:+ slash_join (common_parts (path_parts a) (path_parts b)))
  else None.

(** [commonpath([root, path]) == root], the empty string standing for an error. *)
Definition inside (root path : string) : bool := String.eqb (default "" (commonpath root path)) root.

Definition is_within_root (path root : string) : bool :=
  match commonpath root path with Some c => String.eqb c root | None => false end.

(** ** The environment *)

Inductive tar_member := TarFile | TarDir | TarSym | TarLink | TarOther.
Inductive tool_run := ToolMissing | ToolRefused | ToolTimeout | ToolExit (code : Z).
Inductive open_failure := OpenMissing | OpenRefused.

(** One step of [os.walk]: the directory, its sub-directories, its files.
    For the payload the directory is relative to the payload root, ["."] the
    root itself. *)
Definition walk_step : Type := string * list string * list string.

Class ExtractEnv := {
  env_disk :: Disk;
  realpath : string -> string;
  path_exists : string -> bool;
  makedirs_error : string -> option exn;
  temp_dir : result string;
  zip_members : string -> result (list (string * Z));
  tar_members : string -> result (list (string * tar_member));
  open_error : string -> option open_failure;
  run_tool : list string -> tool_run;
  staged_walk : list walk_step;
  payload_walk : list walk_step;
  is_link : string -> bool;
  is_file : string -> bool;
  link_count : string -> result Z;
  replace_error : string -> string -> option exn }.

Inductive disk_event :=
  | MadeDirectory (path : string)
  | RanTool (command : list string)
  | Replaced (source target : string).

Definition xst : Type -> Type := st (list disk_event).

Section extract.
Context `{ExtractEnv}.

Definition record (e : disk_event) : xst unit := modify (fun l => l ++ [e]).

Definition makedirs (p : string) : xst unit :=
  match makedirs_error p with Some e => raise e | None => record (MadeDirectory p) end.

Definition check_member_path (member_name real_out_dir : string) : xst unit :=
  if inside real_out_dir (realpath (path_join real_out_dir member_name)) then mret tt
  else raise (ExtractError "Archive member escapes target directory").

Definition is_symlink_attr (external_attr : Z) : bool :=
  Z.land (Z.shiftr external_attr 16) 61440 =? 40960.

Definition pre_validate_members (archive_path out_dir_path : string) : xst unit :=
  let real_out_dir := realpath out_dir_path in
  if match regular_file archive_path with Some f => df_is_zip f | None => false end then
    members ← lift (zip_members archive_path);
    mfor members (fun m : string * Z =>
      if is_symlink_attr m.2 then raise (ExtractError "Symlink rejected in archive")
      else check_member_path m.1 real_out_dir)
  else
    members ← lift (tar_members archive_path);
    mfor members (fun m : string * tar_member =>
      match m.2 with
      | TarFile | TarDir => check_member_path m.1 real_out_dir
      | _ => raise (ExtractError "Unsupported tar member type")
      end).

Definition run_subprocess_extractor (command : list string) : xst unit :=
  match run_tool command with
  | ToolMissing => raise (ExtractError "Required extraction tool not found: 7z")
  | ToolRefused => raise OSError
  | ToolTimeout => record (RanTool command);; raise (ExtractError "7z failed after timeout")
  | ToolExit code =>
      record (RanTool command);;
      if code =? 0 then mret tt else raise (ExtractError "7z failed with exit code")
  end.

Definition run_7z_extract (archive_path out_dir_path : string) : xst unit :=
  run_subprocess_extractor (build_7z_extract_command archive_path out_dir_path).

Definition run_7z_extract_to_file (archive_path destination_path : string) : xst unit :=
  makedirs (dirname destination_path);;
  match open_error destination_path with
  | Some OpenMissing => raise (ExtractError "Required extraction tool not found: 7z")
  | Some OpenRefused => raise OSError
  | None => run_subprocess_extractor (build_7z_stdout_command archive_path)
  end.

(** One name found below the temporary directory. *)
Definition validate_staged_path (real_allowed_roots : list string) (full_path : string) : xst unit :=
  if negb (existsb (is_within_root (realpath full_path)) real_allowed_roots)
  then raise (ExtractError "Extracted path escapes staged extraction directory")
  else if is_link full_path then raise (ExtractError "Link rejected in extracted archive")
  else if is_file full_path then
    match link_count full_path with
    | Ok n => if 1 <? n then raise (ExtractError "Hardlink rejected in extracted archive") else mret tt
    | Raise OSError => raise (ExtractError "stat failed")
    | Raise e => raise e
    end
  else mret tt.

Definition staged_paths (walk : list walk_step) : list string :=
  concat (map (fun '(dirpath, dirs, files) => map (path_join dirpath) (dirs ++ files)) walk).

Definition validate_staged_paths (allowed_roots : list string) : xst unit :=
  mfor (staged_paths staged_walk) (validate_staged_path (map realpath allowed_roots)).

Definition check_target (real_out_dir target : string) : xst unit :=
  if inside real_out_dir (realpath target) then mret tt
  else raise (ExtractError "Staged path escapes target directory").

Definition replace (source target : string) : xst unit :=
  match replace_error source target with Some e => raise e | None => record (Replaced source target) end.

Definition merge_step (payload_root out_dir_path : string) (step : walk_step) : xst unit :=
  let '(rel_dir, dirs, files) := step in
  let real_out_dir := realpath out_dir_path in
  let dirpath := if String.eqb rel_dir "." then payload_root else path_join payload_root rel_dir in
  let target_dir := if String.eqb rel_dir "." then out_dir_path else path_join out_dir_path rel_dir in
  check_target real_out_dir target_dir;;
  makedirs target_dir;;
  mfor dirs (fun d => check_target real_out_dir (path_join target_dir d));;
  mfor files (fun f =>
    check_target real_out_dir (path_join target_dir f);;
    replace (path_join dirpath f) (path_join target_dir f)).

Definition merge_staged_payload (payload_root out_dir_path : string) : xst unit :=
  mfor payload_walk (merge_step payload_root out_dir_path).

Definition extract_staged_archive (kind : archive_kind) (archive_path out_dir_path : string) : xst unit :=
  temp_root ← lift temp_dir;
  let payload_root := path_join temp_root "payload" in
  makedirs payload_root;;
  let wrapped_root := path_join temp_root "wrapped" in
  let two_pass := bool_decide (kind = TAR) && requires_second_tar_pass archive_path in
  (if two_pass then
     makedirs wrapped_root;;
     let wrapped := controlled_wrapped_tar_output_path archive_path wrapped_root in
     run_7z_extract_to_file archive_path wrapped;;
     run_7z_extract wrapped payload_root
   else if bool_decide (kind = GZ \/ kind = BZ2) then
     run_7z_extract_to_file archive_path (controlled_single_file_output_path archive_path payload_root)
   else run_7z_extract archive_path payload_root);;
  validate_staged_paths (if two_pass then [payload_root; wrapped_root] else [payload_root]);;
  merge_staged_payload payload_root out_dir_path.

(** The errors of the file system and of the archive readers
    ([BadZipFile], [TarError], [EOFError]) become [ExtractError]. *)
Definition as_extract_error {A} (m : xst A) : xst A := fun s =>
  match m s with
  | (Raise (OSError | ExternalError _), s') => (Raise (ExtractError "extraction failed"), s')
  | r => r
  end.

Definition extract_archive (archive_path out_dir_path : string) : xst unit :=
  kind ← lift (detect_archive_kind archive_path);
  match kind with
  | None => raise (ExtractError "Path is not a valid archive")
  | Some kind =>
      as_extract_error (
        (if path_exists out_dir_path then mret tt else makedirs out_dir_path);;
        (if bool_decide (kind = ZIP \/ kind = TAR) then pre_validate_members archive_path out_dir_path else mret tt);;
        extract_staged_archive kind archive_path out_dir_path)
  end.
End extract.

(** ** Containment, on components *)

(** A canonical absolute path, as [os.path.realpath] returns. *)
Definition canonical (p : string) : Prop := is_abs p = true /\ p = "/" +:+ slash_join (path_parts p).

(** [path] is [root] or below it. *)
Definition below (root path : string) : Prop := exists rest, path_parts path = path_parts root ++ rest.

Lemma common_parts_prefix a b : exists k, a = common_parts a b ++ k /\ exists k', b = common_parts a b ++ k'.
Proof.
  revert b. induction a as [|x a IH]; intros b; [exists []; split; [done|]; by exists b|].
  destruct b as [|y b]; [exists (x :: a); split; [done|]; by exists []|]. simpl.
  destruct (String.eqb_spec x y) as [->|]; [|exists (x :: a); split; [done|]; by exists (y :: b)].
  destruct (IH b) as (k & Hk & k' & Hk'). exists k. split; [simpl; by f_equal|]. exists k'. simpl. by f_equal.
Qed.


Lemma join_shorter (a b : list (list ascii)) : Forall (fun x => x <> []) b -> b <> [] ->
  (length (join [slash] a) < length (join [slash] (a ++ b)))%nat.
Proof.
  intros Hb Hne. induction a as [|x a IH].
  - destruct b as [|y b]; [done|]. apply Forall_cons in Hb as [Hy _]. destruct y; [done|]. destruct b; simpl; lia.
  - destruct a as [|x' a].
    + destruct b as [|y b]; [done|]. cbn [app]. rewrite join_cons2, !length_app. simpl. lia.
    + cbn [app] in *. rewrite !join_cons2, !length_app. simpl in *. lia.
Qed.

Lemma path_parts_nonempty p : Forall (fun c => c <> "") (path_parts p).
Proof. apply Forall_forall. intros c Hc. unfold path_parts in Hc. apply list_elem_of_filter in Hc. tauto. Qed.

Lemma inside_below root path : canonical root -> inside root path = true -> below root path.
Proof.
  intros [Habs Hc]. unfold inside, commonpath. rewrite Habs. destruct (is_abs path); cbn [Bool.eqb default].
  2:{ intros E%String.eqb_eq. unfold is_abs in Habs. by rewrite <- E in Habs. }
  intros E%String.eqb_eq. cbn [id from_option] in E. rewrite Hc in E at 2. apply (f_equal chars) in E. rewrite !chars_app in E.
  apply app_inv_head in E. apply (inj chars) in E. unfold slash_join in E. apply (inj str) in E.
  destruct (common_parts_prefix (path_parts root) (path_parts path)) as (k & Hk & k' & Hk').
  destruct k as [|x k]; [rewrite app_nil_r in Hk; exists k'; by rewrite Hk|].
  exfalso. rewrite Hk in E at 2. rewrite map_app in E.
  pose proof (path_parts_nonempty root) as Hne. rewrite Hk in Hne. apply Forall_app in Hne as [_ Hne].
  pose proof (join_shorter (map chars (common_parts (path_parts root) (path_parts path))) (map chars (x :: k))) as Hl.
  rewrite <- E in Hl. assert (Hf : Forall (fun x => x <> []) (map chars (x :: k))); [|specialize (Hl Hf ltac:(done)); lia].
  apply Forall_map. eapply Forall_impl; [exact Hne|]. intros c Hcc Hn. apply Hcc. by apply (inj chars c "").
Qed.

Lemma within_root_inside path root : is_within_root path root = true -> inside root path = true.
Proof. unfold is_within_root, inside. by destruct (commonpath root path). Qed.

(** ** What a run adds to the log

    [emits P m]: every run of [m], whatever its outcome, only adds events
    that satisfy [P].  [checks m b]: [m] changes nothing, and returns exactly
    when [b] holds. *)
Definition emits {A} (P : disk_event -> Prop) (m : xst A) : Prop :=
  forall s, exists es, (m s).2 = s ++ es /\ Forall P es.

Definition checks (m : xst unit) (b : bool) : Prop :=
  forall s, if b then m s = (Ok tt, s) else exists e, m s = (Raise e, s).

Section emits.
Context (P : disk_event -> Prop).

Lemma emits_pure {A} (m : xst A) : (forall s, (m s).2 = s) -> emits P m.
Proof. intros H s. exists []. rewrite app_nil_r. split; [apply H|apply Forall_nil_2]. Qed.

Lemma emits_ret {A} (a : A) : emits P (mret (M := xst) a).
Proof. by apply emits_pure. Qed.
Lemma emits_raise {A} e : emits P (raise e : xst A).
Proof. by apply emits_pure. Qed.
Lemma emits_lift {A} (r : result A) : emits P (lift r : xst A).
Proof. by apply emits_pure. Qed.

Lemma emits_lift_ok {A B} (r : result A) (k : A -> xst B) :
  (forall a, r = Ok a -> emits P (k a)) -> emits P (lift r ≫= k).
Proof.
  intros Hk. destruct r as [a|e]; [by apply Hk|]. by apply emits_pure.
Qed.

Lemma emits_record e : P e -> emits P (record e).
Proof. intros He s. exists [e]. split; [done|]. by apply Forall_singleton. Qed.

Lemma emits_bind {A B} (m : xst A) (k : A -> xst B) : emits P m -> (forall a, emits P (k a)) -> emits P (m ≫= k).
Proof.
  intros Hm Hk s. destruct (Hm s) as (es & Es & Hes). unfold mbind, st_bind.
  destruct (m s) as [[a|e] s1]; cbn [snd] in *; [|by exists es].
  destruct (Hk a s1) as (es' & Es' & Hes'). exists (es ++ es'). rewrite Es', Es, app_assoc. split; [done|].
  by apply Forall_app.
Qed.

Lemma emits_mfor {A} (l : list A) (f : A -> xst unit) : (forall x, emits P (f x)) -> emits P (mfor l f).
Proof. intros Hf. induction l as [|x l IH]; [apply emits_ret|]. apply emits_bind; auto. Qed.

Lemma emits_catch {A} (m : xst A) : emits P m -> emits P (as_extract_error m).
Proof.
  intros Hm s. destruct (Hm s) as (es & Es & Hes). exists es. split; [|done]. rewrite <- Es. unfold as_extract_error.
  by destruct (m s) as [[a|[]] s1].
Qed.

Lemma emits_checks {B} (m : xst unit) b (k : xst B) : checks m b -> (b = true -> emits P k) -> emits P (m;; k).
Proof.
  intros Hm Hk s. specialize (Hm s). unfold mbind, st_bind. destruct b.
  - rewrite Hm. by apply Hk.
  - destruct Hm as [e ->]. exists []. split; [by rewrite app_nil_r|apply Forall_nil_2].
Qed.
End emits.

Lemma emits_weaken (P Q : disk_event -> Prop) {A} (m : xst A) : (forall e, P e -> Q e) -> emits P m -> emits Q m.
Proof.
  intros HPQ Hm s. destruct (Hm s) as (es & Es & Hes). exists es. split; [done|]. by eapply Forall_impl.
Qed.

Lemma checks_mfor {A} (l : list A) (f : A -> xst unit) (b : A -> bool) :
  (forall x, checks (f x) (b x)) -> checks (mfor l f) (forallb b l).
Proof.
  intros Hf s. induction l as [|x l IH]; [done|]. cbn [forallb mfor]. specialize (Hf x s). unfold mbind, st_bind.
  destruct (b x); [rewrite Hf; exact IH|]. destruct Hf as [e ->]. by exists e.
Qed.

Section safety.
Context `{E : ExtractEnv}.

Definition member_safe (real_out_dir name : string) : Prop :=
  below real_out_dir (realpath (path_join real_out_dir name)).

(** What the member listing of a zip or tar archive must satisfy. *)
Definition members_safe (archive out : string) : Prop :=
  forall f, regular_file archive = Some f ->
  (df_is_zip f = true ->
     exists ms, zip_members archive = Ok ms /\
       forall m, m ∈ ms -> is_symlink_attr m.2 = false /\ member_safe (realpath out) m.1) /\
  (df_is_zip f = false -> df_is_tar f = Ok true ->
     exists ms, tar_members archive = Ok ms /\
       forall m, m ∈ ms -> (m.2 = TarFile \/ m.2 = TarDir) /\ member_safe (realpath out) m.1).

(** What every staged path must satisfy. *)
Definition staged_safe (p : string) : Prop :=
  is_link p = false /\ (is_file p = true -> exists n, link_count p = Ok n /\ n <= 1) /\
  exists temp root, temp_dir = Ok temp /\ (root = path_join temp "payload" \/ root = path_join temp "wrapped") /\
    below (realpath root) (realpath p).

Definition contained (archive out : string) (e : disk_event) : Prop :=
  match e with
  | MadeDirectory _ => True
  | RanTool _ => members_safe archive out
  | Replaced _ target =>
      members_safe archive out /\ below (realpath out) (realpath target) /\
      forall p, p ∈ staged_paths staged_walk -> staged_safe p
  end.

Context (Hreal : forall p, canonical (realpath p)).

Lemma check_member_path_checks n out : checks (check_member_path n out) (inside out (realpath (path_join out n))).
Proof. intros s. unfold check_member_path. destruct (inside _ _); [done|]. by eexists. Qed.

Lemma pre_validate_checks archive out : exists b, checks (pre_validate_members archive out) b /\
  (b = true -> members_safe archive out).
Proof.
  unfold pre_validate_members. destruct (regular_file archive) as [f|] eqn:Ef.
  2:{ destruct (tar_members archive) as [ms|e].
      - exists (forallb (fun m : string * tar_member => match m.2 with
          | TarFile | TarDir => inside (realpath out) (realpath (path_join (realpath out) m.1)) | _ => false end) ms).
        split; [|intros _ f Hf; congruence]. unfold mbind, st_bind, lift. apply checks_mfor. intros [n []]; cbn [fst snd];
          first [apply check_member_path_checks | intros s; by eexists].
      - exists false. split; [|done]. intros s. by exists e. }
  destruct (df_is_zip f) eqn:Ez.
  - destruct (zip_members archive) as [ms|e] eqn:Em.
    2:{ exists false. split; [|done]. intros s. by exists e. }
    exists (forallb (fun m : string * Z => negb (is_symlink_attr m.2) &&
              inside (realpath out) (realpath (path_join (realpath out) m.1))) ms). split.
    + unfold mbind, st_bind, lift. apply checks_mfor. intros [n a]. cbn [fst snd].
      destruct (is_symlink_attr a); [intros s; by eexists|apply check_member_path_checks].
    + intros Hb f' Hf'. assert (f' = f) as -> by congruence. split; [|congruence]. intros _. exists ms. split; [done|].
      intros m Hm. rewrite forallb_forall in Hb. apply list_elem_of_In, Hb in Hm. apply andb_true_iff in Hm as [H1 H2].
      apply negb_true_iff in H1. split; [done|]. by apply inside_below.
  - destruct (tar_members archive) as [ms|e] eqn:Em.
    2:{ exists false. split; [|done]. intros s. by exists e. }
    exists (forallb (fun m : string * tar_member => match m.2 with
          | TarFile | TarDir => inside (realpath out) (realpath (path_join (realpath out) m.1)) | _ => false end) ms). split.
    + unfold mbind, st_bind, lift. apply checks_mfor. intros [n []]; cbn [fst snd];
        first [apply check_member_path_checks | intros s; by eexists].
    + intros Hb f' Hf'. assert (f' = f) as -> by congruence. split; [congruence|]. intros _ _. exists ms. split; [done|].
      intros m Hm. rewrite forallb_forall in Hb. apply list_elem_of_In, Hb in Hm. destruct m as [n []]; cbn [fst snd] in *;
        try done; (split; [auto|by apply inside_below]).
Qed.

Definition staged_ok (roots : list string) (p : string) : bool :=
  existsb (is_within_root (realpath p)) (map realpath roots) && negb (is_link p) &&
  (negb (is_file p) || match link_count p with Ok n => n <=? 1 | Raise _ => false end).

Lemma validate_staged_checks roots : checks (validate_staged_paths roots) (forallb (staged_ok roots) (staged_paths staged_walk)).
Proof.
  apply checks_mfor. intros p s. unfold staged_ok, validate_staged_path.
  destruct (existsb _ _); cbn [negb andb]; [|by eexists]. destruct (is_link p); cbn [negb andb]; [by eexists|].
  destruct (is_file p); cbn [negb orb]; [|done]. destruct (link_count p) as [n|e].
  - destruct (Z.leb_spec n 1), (Z.ltb_spec 1 n); try lia; [done|by eexists].
  - destruct e; by eexists.
Qed.

Lemma staged_ok_safe temp roots p : temp_dir = Ok temp ->
  (forall r, r ∈ roots -> r = path_join temp "payload" \/ r = path_join temp "wrapped") ->
  staged_ok roots p = true -> staged_safe p.
Proof.
  intros Ht Hr. unfold staged_ok. rewrite !andb_true_iff, negb_true_iff. intros [[Hw Hl] Hf]. split; [done|]. split.
  - intros Hfile. rewrite Hfile in Hf. cbn [negb orb] in Hf. destruct (link_count p) as [n|]; [|done]. exists n. split; [done|lia].
  - apply existsb_exists in Hw as (root' & Hin & Hw). apply list_elem_of_In, list_elem_of_fmap in Hin as (root & -> & Hin).
    exists temp, root. split_and!; [done|by apply Hr|]. by apply inside_below, within_root_inside.
Qed.

Lemma makedirs_emits archive out p : emits (contained archive out) (makedirs p).
Proof. unfold makedirs. destruct (makedirs_error p); [apply emits_raise|by apply emits_record]. Qed.

Lemma run_tool_emits archive out command : members_safe archive out ->
  emits (contained archive out) (run_subprocess_extractor command).
Proof.
  intros Hm. unfold run_subprocess_extractor. destruct (run_tool command).
  - apply emits_raise.
  - apply emits_raise.
  - apply emits_bind; [by apply emits_record|]. intros. apply emits_raise.
  - apply emits_bind; [by apply emits_record|]. intros. destruct (code =? 0); [apply emits_ret|apply emits_raise].
Qed.

Lemma run_to_file_emits archive out a d : members_safe archive out ->
  emits (contained archive out) (run_7z_extract_to_file a d).
Proof.
  intros Hm. apply emits_bind; [apply makedirs_emits|]. intros _.
  destruct (open_error d) as [[]|]; [apply emits_raise|apply emits_raise|by apply run_tool_emits].
Qed.

Lemma check_target_checks root t : checks (check_target root t) (inside root (realpath t)).
Proof. intros s. unfold check_target. destruct (inside _ _); [done|]. by eexists. Qed.

Lemma merge_emits archive out payload : members_safe archive out ->
  (forall p, p ∈ staged_paths staged_walk -> staged_safe p) ->
  emits (contained archive out) (merge_staged_payload payload out).
Proof.
  intros Hm Hs. apply emits_mfor. intros [[rel dirs] files]. unfold merge_step.
  eapply emits_checks; [apply check_target_checks|]. intros _.
  apply emits_bind; [apply makedirs_emits|]. intros _.
  eapply emits_checks; [apply checks_mfor; intros d; apply check_target_checks|]. intros _.
  apply emits_mfor. intros f. eapply emits_checks; [apply check_target_checks|]. intros Hin.
  unfold replace. destruct (replace_error _ _); [apply emits_raise|]. apply emits_record. split_and!; [done| |done].
  by apply inside_below.
Qed.

Lemma extract_staged_emits kind archive out : members_safe archive out ->
  emits (contained archive out) (extract_staged_archive kind archive out).
Proof.
  intros Hm. apply emits_lift_ok. intros temp Ht. apply emits_bind; [apply makedirs_emits|]. intros _. cbv zeta.
  set (two := bool_decide (kind = TAR) && requires_second_tar_pass archive).
  apply emits_bind.
  { destruct two; [|destruct (bool_decide (kind = GZ \/ kind = BZ2)); [by apply run_to_file_emits|by apply run_tool_emits]].
    apply emits_bind; [apply makedirs_emits|]. intros _. apply emits_bind; [by apply run_to_file_emits|].
    intros _. by apply run_tool_emits. }
  intros _. eapply emits_checks; [apply validate_staged_checks|]. intros Hall.
  apply merge_emits; [done|]. intros p Hp. rewrite forallb_forall in Hall. apply list_elem_of_In, Hall in Hp.
  eapply staged_ok_safe; [done| |exact Hp]. intros r Hr. destruct two; set_solver.
Qed.

(** A kind other than zip and tar has no listing to check. *)
Lemma other_kind_safe archive out k : detect_archive_kind archive = Ok (Some k) -> k <> ZIP -> k <> TAR ->
  members_safe archive out.
Proof.
  intros Hk Hz Ht f Hf. unfold detect_archive_kind in Hk. rewrite Hf in Hk. destruct (df_is_zip f); [congruence|].
  split; [done|]. intros _ Htar. rewrite Htar in Hk. cbn in Hk. congruence.
Qed.

Lemma extract_archive_emits archive out : emits (contained archive out) (extract_archive archive out).
Proof.
  apply emits_lift_ok. intros [k|] Hk; [|apply emits_raise]. apply emits_catch, emits_bind.
  { destruct (path_exists out); [apply emits_ret|apply makedirs_emits]. }
  intros _. case_bool_decide as Hkind.
  - destruct (pre_validate_checks archive out) as (b & Hb & Hsafe). eapply emits_checks; [exact Hb|].
    intros ?. apply extract_staged_emits; auto.
  - apply emits_bind; [apply emits_ret|]. intros _. apply extract_staged_emits.
    eapply other_kind_safe; [exact Hk| |]; intros ->; auto.
Qed.
End safety.

(** ** Errors *)

(** What the file system and the archive readers raise. *)
Definition io_error (e : exn) : bool := match e with OSError | ExternalError _ => true | _ => false end.
Definition extraction_error (e : exn) : bool := io_error e || match e with ExtractError _ => true | _ => false end.

Record env_errors `{ExtractEnv} : Prop := {
  ee_makedirs : forall p e, makedirs_error p = Some e -> io_error e = true;
  ee_temp : forall e, temp_dir = Raise e -> io_error e = true;
  ee_zip : forall p e, zip_members p = Raise e -> io_error e = true;
  ee_tar : forall p e, tar_members p = Raise e -> io_error e = true;
  ee_links : forall p e, link_count p = Raise e -> io_error e = true;
  ee_replace : forall p q e, replace_error p q = Some e -> io_error e = true }.

Definition fails {A} (m : xst A) : Prop := forall s e, (m s).1 = Raise e -> extraction_error e = true.

Lemma fails_ret {A} (a : A) : fails (mret (M := xst) a).
Proof. by intros s e. Qed.
Lemma fails_raise {A} e : extraction_error e = true -> fails (raise e : xst A).
Proof. by intros He s e' [= <-]. Qed.
Lemma fails_modify f : fails (modify f : xst unit).
Proof. by intros s e. Qed.
Lemma fails_lift {A} (r : result A) : (forall e, r = Raise e -> extraction_error e = true) -> fails (lift r : xst A).
Proof. intros H s e. simpl. apply H. Qed.
Lemma fails_bind {A B} (m : xst A) (k : A -> xst B) : fails m -> (forall a, fails (k a)) -> fails (m ≫= k).
Proof.
  intros Hm Hk s e. specialize (Hm s). unfold mbind, st_bind. destruct (m s) as [[a|e'] s1]; cbn [fst] in *; [apply Hk|].
  intros [= <-]. by apply Hm.
Qed.
Lemma fails_mfor {A} (l : list A) (f : A -> xst unit) : (forall x, fails (f x)) -> fails (mfor l f).
Proof. intros Hf. induction l as [|x l IH]; [apply fails_ret|]. apply fails_bind; auto. Qed.

Create HintDb fails.
#[export] Hint Resolve fails_ret fails_modify : fails.

(** Case analysis down to the leaves of an operation. *)
Ltac solve_fails :=
  repeat first
    [ apply fails_ret | apply fails_modify | by apply fails_raise
    | apply fails_bind; [|intros ?] | apply fails_mfor; intros ?
    | match goal with |- fails (match ?x with _ => _ end) => destruct x eqn:? end ].

Lemma io_extraction e : io_error e = true -> extraction_error e = true.
Proof. unfold extraction_error. by intros ->. Qed.

Lemma staged_fails `{ExtractEnv} kind archive out : env_errors -> fails (extract_staged_archive kind archive out).
Proof.
  intros [Hmk Ht Hz Hta Hl Hr].
  assert (Hdirs : forall p, fails (makedirs p)).
  { intros p. unfold makedirs. destruct (makedirs_error p) eqn:Em; [|apply fails_modify].
    apply fails_raise, io_extraction. by eapply Hmk. }
  assert (Htool : forall c, fails (run_subprocess_extractor c)).
  { intros c. unfold run_subprocess_extractor, record. solve_fails. }
  assert (Hfile : forall a d, fails (run_7z_extract_to_file a d)).
  { intros a d. apply fails_bind; [done|]. intros _. destruct (open_error d) as [[]|]; [by apply fails_raise..|done]. }
  apply fails_bind; [apply fails_lift; intros e He; apply io_extraction; by apply Ht|]. intros temp.
  apply fails_bind; [done|]. intros _. cbv zeta. apply fails_bind.
  { destruct (_ && _); [|destruct (bool_decide _); [apply Hfile|apply Htool]].
    apply fails_bind; [done|]. intros _. apply fails_bind; [apply Hfile|]. intros _. apply Htool. }
  intros _. apply fails_bind.
  - apply fails_mfor. intros p. unfold validate_staged_path. solve_fails.
    all: apply fails_raise, io_extraction; by eapply Hl.
  - intros _. apply fails_mfor. intros [[rel dirs] files]. unfold merge_step, check_target, replace, record. solve_fails.
    all: first [apply Hdirs | apply fails_raise, io_extraction; by eapply Hr].
Qed.


(** ** A sample extraction *)

Definition sample_paths : list string := ["/out"; "/out/a.txt"; "/t/payload"; "/t/payload/a.txt"].

Definition sample_env (members : list (string * Z)) : ExtractEnv := {|
  env_disk := {| regular_file p := if String.eqb p "/in/x.zip" then Some (mkDiskFile true (Ok false) None) else None |};
  realpath p := if bool_decide (p ∈ sample_paths) then p else "/";
  path_exists p := String.eqb p "/out";
  makedirs_error _ := None;
  temp_dir := Ok "/t";
  zip_members _ := Ok members;
  tar_members _ := Ok [];
  open_error _ := None;
  run_tool _ := ToolExit 0;
  staged_walk := [("/t", ["payload"], []); ("/t/payload", [], ["a.txt"])];
  payload_walk := [(".", [], ["a.txt"])];
  is_link _ := false;
  is_file p := String.eqb p "/t/payload/a.txt";
  link_count _ := Ok 1;
  replace_error _ _ := None |}.

Example sample_extraction :
  extract_archive (H := sample_env [("a.txt", 0)]) "/in/x.zip" "/out" [] =
  (Ok tt, [MadeDirectory "/t/payload"; RanTool ["7z"; "x"; "-y"; "-o/t/payload"; "--"; "/in/x.zip"];
           MadeDirectory "/out"; Replaced "/t/payload/a.txt" "/out/a.txt"]).
Proof. vm_compute. reflexivity. Qed.

Example sample_slip :
  extract_archive (H := sample_env [("../etc/passwd", 0)]) "/in/x.zip" "/out" [] =
  (Raise (ExtractError "Archive member escapes target directory"), []).
Proof. vm_compute. reflexivity. Qed.

Lemma sample_canonical ms p : canonical (realpath (ExtractEnv := sample_env ms) p).
Proof.
  assert (Hall : Forall canonical ("/" :: sample_paths)).
  { repeat (apply Forall_cons_2; [split; vm_compute; reflexivity|]). apply Forall_nil_2. }
  rewrite Forall_forall in Hall. apply Hall. cbn [realpath sample_env]. case_bool_decide; [by right|left].
Qed.

