(* ===== verification/Dispatch.v ===== *)
(** * Extraction dispatch ([controller/extract/dispatch.py], [extract_request.py])

    Building the list of archives of a request, the queue of tasks, and the
    worker thread, whose moves interleave with the calls of other threads.
    The disk is the class [Disk] of [ExtractArchive]; the extraction of one
    archive and the writing of its marker are the class [Extractor]. *)

From S2P Require Import Prelude PyDict PyStr Json ModelFile ModelFileFacts ManagedExtract ExtractArchive.

(** ** Paths *)

(** [str.casefold]: below code point 256 it is [lower], the sharp s apart. *)
Definition casefold (s : string) : string :=
  str (concat (map (fun c => if ord c =? 223 then chars "ss" else [lower_char c]) (chars s))).

(** ** Requests and tasks *)

Record ExtractRequest := mkRequest {
  rq_file : fileref; rq_pair_id : option string; rq_local_path : string; rq_out_dir : string;
  rq_local_fallback : option string; rq_out_fallback : string }.

(** The constructor: an absent or empty second output directory is the first. *)
Definition new_request (f : fileref) (local_path out_dir : string) (pair_id local_fallback out_fallback : option string)
    : ExtractRequest :=
  mkRequest f pair_id local_path out_dir local_fallback
    (match out_fallback with Some o => if String.eqb o "" then out_dir else o | None => out_dir end).

Record archive_path := mkArchive {
  ap_path : string; ap_out_dir : string; ap_name : string; ap_file_id : string; ap_pair_id : option string }.

Record task := mkTask {
  tk_root_name : string; tk_root_is_dir : bool; tk_root_file_id : string; tk_pair_id : option string;
  tk_archives : list archive_path }.

#[export] Instance archive_path_eq_dec : EqDecision archive_path.
Proof. solve_decision. Defined.
#[export] Instance task_eq_dec : EqDecision task.
Proof. solve_decision. Defined.

Section build.
Context `{Disk}.

Definition resolve_archive_path (local_path : string) (fallback : option string) (relative_path : string)
    : result (option string * bool) :=
  let primary := path_join local_path relative_path in
  a ← is_archive primary;
  if a : bool then Ok (Some primary, false) else
  match fallback with
  | Some f =>
      if String.eqb f "" || String.eqb f local_path then Ok (None, false) else
      let second := path_join f relative_path in
      b ← is_archive second;
      Ok (if b : bool then (Some second, true) else (None, false))
  | None => Ok (None, false)
  end.

(** The breadth-first loop: the plain files in the order they are met. *)
Fixpoint bfs (fuel : nat) (frontier : list fileref) : option (list fileref) :=
  match frontier with
  | [] => Some []
  | r :: rest =>
      match fuel with
      | O => None
      | S fuel =>
          if is_dir (ref_file r) then bfs fuel (rest ++ child_refs r)
          else cons r <$> bfs fuel rest
      end
  end.

(** The loop visits every node once. *)
Fixpoint node_count (f : ModelFile) : nat :=
  match f with mkFile _ cs => S (match cs with Some l => list_sum (map node_count l) | None => 0 end) end.

Definition ref_path (r : fileref) : string := full_path (ref_parents r) (ref_file r).

(** One plain file of a directory. *)
Definition archive_of (rq : ExtractRequest) (r : fileref) : result (option archive_path) :=
  x ← resolve_archive_path (rq_local_path rq) (rq_local_fallback rq) (ref_path r);
  Ok (match local_size (ref_file r), x with
      | Some z, (Some p, second) =>
          if 0 <? z then
            let base := if second && negb (String.eqb (rq_out_fallback rq) (rq_out_dir rq))
                        then rq_out_fallback rq else rq_out_dir rq in
            Some (mkArchive p (path_join base (dirname (ref_path r))) (name (ref_file r)) (file_id r)
                    (path_pair_id (ref_file r)))
          else None
      | _, _ => None
      end).

Fixpoint archives_of (rq : ExtractRequest) (l : list fileref) : result (list archive_path) :=
  match l with
  | [] => Ok []
  | r :: l' =>
      a ← archive_of rq r;
      rest ← archives_of rq l';
      Ok (match a with Some a => a :: rest | None => rest end)
  end.

(** [^\.r\d{2,}$], the final line break included *)
Definition is_split_volume (ext : string) : bool :=
  match chars ext with
  | c :: d :: ds =>
      let ds := match last ds with Some e => if ord e =? 10 then take (length ds - 1) ds else ds | None => ds end in
      (ord c =? 46) && (ord d =? 114) && (2 <=? Z.of_nat (length ds)) && forallb is_digit ds
  | _ => false
  end.

Definition split_volume_path (p : string) : bool := is_split_volume (splitext (basename p)).2.

Definition coalesce_extractions (l : list archive_path) : list archive_path :=
  filter (fun a => split_volume_path (ap_path a) = false) l.

(** The task of a request. *)
Definition build_task (rq : ExtractRequest) : result task :=
  let r := rq_file rq in
  let f := ref_file r in
  let mk := mkTask (name f) (is_dir f) (file_id r) (path_pair_id f) in
  if is_dir f then
    found ← archives_of rq (default [] (bfs (node_count f) [r]));
    let archives := coalesce_extractions found in
    if bool_decide (archives = []) then Raise (ExtractDispatchError "Directory does not contain any archives")
    else Ok (mk archives)
  else
    if bool_decide (local_size f = None \/ local_size f = Some 0)
    then Raise (ExtractDispatchError "File does not exist locally") else
    x ← resolve_archive_path (rq_local_path rq) (rq_local_fallback rq) (name f);
    match x with
    | (Some p, second) =>
        if String.eqb p "" then Raise (ExtractDispatchError "File is not an archive") else
        let base := if second && negb (String.eqb (rq_out_fallback rq) (rq_out_dir rq))
                    then rq_out_fallback rq else rq_out_dir rq in
        Ok (mk [mkArchive p base (name f) (file_id r) (path_pair_id f)])
    | (None, _) => Raise (ExtractDispatchError "File is not an archive")
    end.
End build.

(** ** The dispatcher *)

(** What the listeners are told, for all listeners registered at that time. *)
Record notification := mkNotification { nt_task : task; nt_completed : bool; nt_listeners : list nat }.

Record dispatch := mkDispatch {
  d_out_dir : string; d_local_path : string; d_local_fallback : option string; d_managed : bool;
  d_queue : list task; d_shutdown : bool; d_listeners : list nat; d_notified : list notification }.

Definition new_dispatch (out_dir local_path : string) (fallback : option string) (managed : bool) : dispatch :=
  mkDispatch out_dir local_path fallback managed [] false [] [].

Definition dst : Type -> Type := st dispatch.

Definition put_queue (q : list task) (s : dispatch) : dispatch :=
  mkDispatch (d_out_dir s) (d_local_path s) (d_local_fallback s) (d_managed s) q (d_shutdown s)
    (d_listeners s) (d_notified s).

Definition stop : dst unit :=
  modify (fun s => mkDispatch (d_out_dir s) (d_local_path s) (d_local_fallback s) (d_managed s) (d_queue s) true
    (d_listeners s) (d_notified s)).

Definition add_listener (l : nat) : dst unit :=
  modify (fun s => mkDispatch (d_out_dir s) (d_local_path s) (d_local_fallback s) (d_managed s) (d_queue s)
    (d_shutdown s) (d_listeners s ++ [l]) (d_notified s)).

Definition set_base_paths (out_dir local_path : string) (fallback : option string) : dst unit :=
  modify (fun s => mkDispatch out_dir local_path fallback (d_managed s) (d_queue s) (d_shutdown s)
    (d_listeners s) (d_notified s)).

(** [status]: one entry per queued task (name, kind, identifier, pair). *)
Definition status (s : dispatch) : list (string * bool * string * option string) :=
  map (fun t => (tk_root_name t, tk_root_is_dir t, tk_root_file_id t, tk_pair_id t)) (d_queue s).

Inductive extract_item := ItemRequest (rq : ExtractRequest) | ItemFile (f : fileref).

Definition normalize_extract_request (s : dispatch) (i : extract_item) : ExtractRequest :=
  match i with
  | ItemRequest rq => rq
  | ItemFile f => new_request f (d_local_path s) (d_out_dir s) (path_pair_id (ref_file f)) (d_local_fallback s) None
  end.

(** [extract]: the append and the search for a queued task of the same root
    happen under the queue's mutex. *)
Definition extract `{Disk} (i : extract_item) : dst unit :=
  rq ← gets (fun s => normalize_extract_request s i);
  t ← lift (build_task rq);
  modify (fun s =>
    if existsb (fun q => String.eqb (tk_root_file_id q) (tk_root_file_id t)) (d_queue s) then s
    else put_queue (d_queue s ++ [t]) s).

(** ** The worker thread *)

(** The outcomes of the extraction of one archive to a folder, and of the
    marker written there afterwards. *)
Class Extractor := {
  extract_outcome : string -> string -> result unit;
  marker_outcome : string -> write_outcome }.

(** The folder an archive of a task goes to. *)
Definition resolved_out_dir (managed : bool) (a : archive_path) : string :=
  if managed : bool then
    let folder := build_managed_extract_folder_name (ap_name a) in
    if String.eqb (casefold (basename (normpath (ap_out_dir a)))) (casefold folder) then ap_out_dir a
    else build_managed_extract_folder_path (ap_out_dir a) (ap_name a)
  else ap_out_dir a.

(** Whether one archive is done; every exception counts as a failure. *)
Definition extract_one `{Extractor} (managed : bool) (a : archive_path) : bool :=
  let out := resolved_out_dir managed a in
  match extract_outcome (ap_path a) out with
  | Raise _ => false
  | Ok _ => if managed : bool then match marker_outcome out with Written => true | _ => false end else true
  end.

(** Where the worker stands: at the outer loop's test, at the inner loop's
    (with [has_tasks]), inside a task, before removing it from the queue,
    before notifying, before looking for more tasks, or gone. *)
Inductive position :=
  | Outer
  | Inner (has_tasks : bool)
  | Running (t : task) (todo : list archive_path)
  | Removing (t : task) (completed : bool)
  | Notifying (t : task) (completed : bool)
  | Checking
  | Gone.

Definition notify (t : task) (completed : bool) (s : dispatch) : dispatch :=
  mkDispatch (d_out_dir s) (d_local_path s) (d_local_fallback s) (d_managed s) (d_queue s) (d_shutdown s)
    (d_listeners s) (d_notified s ++ [mkNotification t completed (d_listeners s)]).

Definition has_tasks (s : dispatch) : bool := negb (bool_decide (d_queue s = [])).

(** One move of the worker. *)
Definition work `{Extractor} (s : dispatch) (p : position) : dispatch * position :=
  match p with
  | Outer => if d_shutdown s then (s, Gone) else (s, Inner (has_tasks s))
  | Inner false => (s, Outer)
  | Inner true =>
      if d_shutdown s then (s, Outer) else
      match d_queue s with
      | [] => (s, Outer)
      | t :: _ => (s, Running t (tk_archives t))
      end
  | Running t [] => (s, Removing t true)
  | Running t (a :: todo) =>
      if d_shutdown s then (s, Removing t false)
      else if extract_one (d_managed s) a then (s, Running t todo) else (s, Removing t false)
  | Removing t completed => (put_queue (tail (d_queue s)) s, Notifying t completed)
  | Notifying t completed => (notify t completed s, Checking)
  | Checking => (s, Inner (has_tasks s))
  | Gone => (s, Gone)
  end.
