(* ===== verification/DispatchFacts.v ===== *)
(** * Facts about the extraction dispatcher

    The archives of a request are found exactly; the queue serves every
    accepted task once and in order, whatever the interleaving of calls and
    worker moves. *)

From S2P Require Import Prelude PyDict PyStr Json ModelFile ModelFileFacts ManagedExtract ExtractArchive Dispatch.

(** ** The breadth-first search *)

(** The plain files below a node, in document order. *)
Fixpoint leaves_at (oid : nat) (parents : list string) (f : ModelFile) : list fileref :=
  match f with
  | mkFile fl cs =>
      if is_dir (mkFile fl cs) then
        match cs with
        | Some l => concat (map (leaves_at oid (parents ++ [name (mkFile fl cs)])) l)
        | None => []
        end
      else [mkRef oid parents (mkFile fl cs)]
  end.

Definition leaves (r : fileref) : list fileref := leaves_at (ref_oid r) (ref_parents r) (ref_file r).

Definition nodes (l : list fileref) : nat := list_sum (map (fun r => node_count (ref_file r)) l).

Lemma leaves_dir r : is_dir (ref_file r) = true -> leaves r = concat (map leaves (child_refs r)).
Proof.
  destruct r as [oid ps [fl cs]]. unfold leaves, child_refs. cbn [ref_oid ref_parents ref_file]. intros Hd. cbn [leaves_at].
  rewrite Hd. unfold get_children. cbn [children_slot]. destruct cs as [l|]; [|done]. cbn [default]. by rewrite map_map.
Qed.

Lemma leaves_file r : is_dir (ref_file r) = false -> leaves r = [r].
Proof. destruct r as [oid ps [fl cs]]. unfold leaves. cbn [ref_oid ref_parents ref_file leaves_at]. by intros ->. Qed.

Lemma nodes_dir r : node_count (ref_file r) = S (nodes (child_refs r)).
Proof.
  destruct r as [oid ps [fl [l|]]]; [|done]. unfold nodes, child_refs, get_children. cbn [ref_file children_slot default node_count].
  f_equal. by rewrite map_map.
Qed.

Lemma nodes_app a b : nodes (a ++ b) = (nodes a + nodes b)%nat.
Proof. unfold nodes. by rewrite map_app, list_sum_app. Qed.

(** The loop ends within one turn per node and finds every plain file once. *)
Lemma bfs_spec fuel frontier : (nodes frontier <= fuel)%nat ->
  exists l, bfs fuel frontier = Some l /\ l ≡ₚ concat (map leaves frontier).
Proof.
  revert frontier. induction fuel as [|fuel IH]; intros [|r rest] Hn; try (by exists []).
  - unfold nodes in Hn. cbn [map list_sum] in Hn. rewrite nodes_dir in Hn. simpl in Hn. lia.
  - cbn [bfs]. assert (Hr : (S (nodes (child_refs r)) + nodes rest <= S fuel)%nat).
    { rewrite <- nodes_dir. exact Hn. }
    destruct (is_dir (ref_file r)) eqn:Ed.
    + destruct (IH (rest ++ child_refs r)) as (l & -> & Hl); [rewrite nodes_app; lia|]. exists l. split; [done|].
      rewrite Hl. cbn [map concat]. rewrite leaves_dir, map_app, concat_app by done. apply Permutation_app_comm.
    + destruct (IH rest) as (l & -> & Hl); [lia|]. exists (r :: l). split; [done|]. cbn [map concat].
      rewrite leaves_file by done. cbn [app]. by rewrite Hl.
Qed.

(** ** The archives of a request *)

Section tasks.
Context `{Disk}.
Implicit Types (rq : ExtractRequest) (r : fileref) (a : archive_path).

(** Where the archive for a relative path is: under the first directory, or
    under the second when it is another one and the first has none. *)
Definition found_at rq (rel p : string) (second : bool) : Prop :=
  if second then
    is_archive (path_join (rq_local_path rq) rel) = Ok false /\
    exists f, rq_local_fallback rq = Some f /\ f <> "" /\ f <> rq_local_path rq /\ p = path_join f rel /\
      is_archive p = Ok true
  else p = path_join (rq_local_path rq) rel /\ is_archive p = Ok true.

(** The output directory that goes with it. *)
Definition out_base rq (second : bool) : string := if second then rq_out_fallback rq else rq_out_dir rq.

Lemma resolve_found rq rel p second :
  resolve_archive_path (rq_local_path rq) (rq_local_fallback rq) rel = Ok (Some p, second) <-> found_at rq rel p second.
Proof.
  unfold resolve_archive_path, found_at.
  destruct (is_archive (path_join (rq_local_path rq) rel)) as [[]|] eqn:E1; cbn [mbind result_bind].
  - destruct second; split.
    + done.
    + by intros [? _].
    + by intros [= <-].
    + by intros [-> _].
  - destruct (rq_local_fallback rq) as [f|].
    2:{ destruct second; split; try done; [by intros (_ & ? & ? & _)|intros [-> ?]; congruence]. }
    destruct (String.eqb_spec f "") as [->|Hf]; cbn [orb].
    { destruct second; split; try done; [by intros (_ & ? & [= <-] & ? & _)|intros [-> ?]; congruence]. }
    destruct (String.eqb_spec f (rq_local_path rq)) as [->|Hne].
    { destruct second; split; try done; [by intros (_ & ? & [= <-] & _ & ? & _)|intros [-> ?]; congruence]. }
    destruct (is_archive (path_join f rel)) as [[]|] eqn:E2; cbn [mbind result_bind]; destruct second; split; try done.
    + intros [= <-]. split; [done|]. by exists f.
    + by intros (_ & ? & [= <-] & _ & _ & -> & _).
    + intros [-> ?]; congruence.
    + intros (_ & ? & [= <-] & _ & _ & -> & ?); congruence.
    + intros [-> ?]; congruence.
    + intros (_ & ? & [= <-] & _ & _ & -> & ?); congruence.
    + intros [-> ?]; congruence.
  - destruct second; split; try done; [by intros [? _]|intros [-> ?]; congruence].
Qed.

Lemma out_base_spec rq second :
  (if second && negb (String.eqb (rq_out_fallback rq) (rq_out_dir rq)) then rq_out_fallback rq else rq_out_dir rq) =
  out_base rq second.
Proof. unfold out_base. destruct second; [|done]. cbn [andb]. by destruct (String.eqb_spec (rq_out_fallback rq) (rq_out_dir rq)). Qed.

(** A plain file gives an archive when it is there with content and can be
    found as an archive. *)
Lemma archive_of_spec rq r a : archive_of rq r = Ok (Some a) <->
  exists z p second, local_size (ref_file r) = Some z /\ 0 < z /\ found_at rq (ref_path r) p second /\
    a = mkArchive p (path_join (out_base rq second) (dirname (ref_path r))) (name (ref_file r)) (file_id r)
          (path_pair_id (ref_file r)).
Proof.
  unfold archive_of. split.
  - destruct (resolve_archive_path _ _ _) as [[[p|] second]|] eqn:E; cbn [mbind result_bind]; [|by destruct (local_size _)|done].
    destruct (local_size (ref_file r)) as [z|] eqn:Ez; [|done]. destruct (Z.ltb_spec 0 z); [|done].
    rewrite out_base_spec. intros [= <-]. exists z, p, second. split_and!; try done. by apply resolve_found.
  - intros (z & p & second & -> & Hz & Hf%resolve_found & ->). rewrite Hf. cbn [mbind result_bind].
    destruct (Z.ltb_spec 0 z); [|lia]. by rewrite out_base_spec.
Qed.

Definition wanted rq r : option archive_path :=
  match archive_of rq r with
  | Ok (Some a) => if split_volume_path (ap_path a) then None else Some a
  | _ => None
  end.

Lemma archives_of_spec rq l :
  match archives_of rq l with
  | Ok found => coalesce_extractions found = filter_map (wanted rq) l /\ (forall r, r ∈ l -> exists x, archive_of rq r = Ok x)
  | Raise e => exists r, r ∈ l /\ archive_of rq r = Raise e
  end.
Proof.
  induction l as [|r l IH]; [split; [done|]; intros r Hr; inversion Hr|]. cbn [archives_of].
  destruct (archive_of rq r) as [x|e] eqn:E; cbn [mbind result_bind]; [|exists r; split; [left|done]].
  destruct (archives_of rq l) as [found|e]; cbn [mbind result_bind].
  2:{ destruct IH as (r' & ? & ?). exists r'. split; [by right|done]. }
  destruct IH as [IH Hx]. split.
  - cbn [filter_map]. unfold wanted at 1. rewrite E. destruct x as [a|]; [|done].
    unfold coalesce_extractions. rewrite filter_cons. destruct (split_volume_path (ap_path a)); simpl; by rewrite <- IH.
  - intros r' [->|Hr']%elem_of_cons; [by exists x|]. by apply Hx.
Qed.

Lemma filter_map_perm {A B} (f : A -> option B) l k : l ≡ₚ k -> filter_map f l ≡ₚ filter_map f k.
Proof.
  induction 1 as [|x l k _ IH|x y l|l1 l2 l3 _ IH1 _ IH2]; simpl; [done| | |by rewrite IH1].
  - destruct (f x); by rewrite IH.
  - destruct (f x), (f y); try done. apply Permutation_swap.
Qed.

(** C33: The task of an extraction request.  For a directory the search ends
    and finds every plain file of the tree once: the task lists exactly the
    archives among those present with content, taken from the second local
    directory only when the first has none and then with the second output
    directory, the volumes of split archives left out; a request without any
    is refused.  For a single file, the file must be present and be an
    archive.  Apart from these refusals only a failing inspection of the disk
    stops a request. *)
Theorem extraction_task rq :
  let r := rq_file rq in
  let f := ref_file r in
  match build_task rq with
  | Ok t =>
      (tk_root_name t, tk_root_is_dir t, tk_root_file_id t, tk_pair_id t) =
        (name f, is_dir f, file_id r, path_pair_id f) /\
      tk_archives t <> [] /\
      (if is_dir f then
         tk_archives t ≡ₚ filter_map (wanted rq) (leaves r) /\
         forall a, a ∈ tk_archives t <->
           exists c z p second, c ∈ leaves r /\ local_size (ref_file c) = Some z /\ 0 < z /\
             found_at rq (ref_path c) p second /\ split_volume_path p = false /\
             a = mkArchive p (path_join (out_base rq second) (dirname (ref_path c))) (name (ref_file c)) (file_id c)
                   (path_pair_id (ref_file c))
       else exists z p second, local_size f = Some z /\ z <> 0 /\ found_at rq (name f) p second /\
              tk_archives t = [mkArchive p (out_base rq second) (name f) (file_id r) (path_pair_id f)])
  | Raise e =>
      (exists msg, e = ExtractDispatchError msg) /\
        (if is_dir f then forall c, c ∈ leaves r -> wanted rq c = None
         else local_size f = None \/ local_size f = Some 0 \/
              forall p second, found_at rq (name f) p second -> p = "") \/
      exists rel, resolve_archive_path (rq_local_path rq) (rq_local_fallback rq) rel = Raise e
  end.
Proof.
  intros r f. unfold build_task. fold r. fold f. destruct (is_dir f) eqn:Ed.
  - destruct (bfs_spec (node_count f) [r]) as (l & -> & Hl); [unfold nodes; simpl; fold f; lia|].
    cbn [map concat] in Hl. rewrite app_nil_r in Hl.
    pose proof (archives_of_spec rq l) as Ha. change (default [] (Some l)) with l.
    destruct (archives_of rq l) as [found|e]; cbn [mbind result_bind].
    2:{ destruct Ha as (c & _ & Hc). right. exists (ref_path c). unfold archive_of in Hc.
        destruct (resolve_archive_path _ _ _) as [x|e'] eqn:Er; cbn [mbind result_bind] in Hc; [done|]. congruence. }
    destruct Ha as [Hco _]. pose proof (filter_map_perm (wanted rq) _ _ Hl) as Hp. rewrite <- Hco in Hp.
    case_bool_decide as Hnil.
    + left. split; [by eexists|]. rewrite Hnil in Hp. apply Permutation_nil in Hp.
      intros c Hc. destruct (wanted rq c) as [a|] eqn:Ew; [|done].
      assert (Hin : a ∈ filter_map (wanted rq) (leaves r)) by (apply elem_of_filter_map; by exists c).
      rewrite Hp in Hin. inversion Hin.
    + cbn [tk_root_name tk_root_is_dir tk_root_file_id tk_pair_id tk_archives]. split; [done|]. split; [done|]. split; [done|].
      intros a. rewrite Hp, elem_of_filter_map. split.
      * intros (c & Hc & Hw). unfold wanted in Hw. destruct (archive_of rq c) as [[a'|]|] eqn:Ea; try done.
        destruct (split_volume_path (ap_path a')) eqn:Es; [done|]. injection Hw as ->.
        apply archive_of_spec in Ea as (z & p & second & ? & ? & ? & ->). by exists c, z, p, second.
      * intros (c & z & p & second & Hc & Hz & Hpos & Hf & Hs & ->). exists c. split; [done|]. unfold wanted.
        match goal with |- _ = Some ?a => assert (Hex : archive_of rq c = Ok (Some a)) end.
        { apply archive_of_spec. by exists z, p, second. }
        rewrite Hex. cbn [ap_path]. by rewrite Hs.
  - case_bool_decide as Hsize.
    { left. split; [by eexists|]. tauto. }
    destruct (resolve_archive_path _ _ _) as [[[p|] second]|e] eqn:Er; cbn [mbind result_bind].
    + destruct (String.eqb_spec p "") as [->|Hne].
      * left. split; [by eexists|]. right. right. intros p' s' Hf%resolve_found. congruence.
      * cbn [tk_root_name tk_root_is_dir tk_root_file_id tk_pair_id tk_archives]. split; [done|]. split; [done|].
        destruct (local_size f) as [z|]; [|naive_solver]. exists z, p, second. rewrite out_base_spec.
        split_and!; [done|naive_solver|by apply resolve_found|done].
    + left. split; [by eexists|]. right. right. intros p' s' Hf%resolve_found. congruence.
    + right. by eexists.
Qed.
End tasks.

(** ** Interleavings

    A move is a call of another thread, with the disk as it then is, or one
    move of the worker, with the outcomes it then gets.  The last component
    of a reachable configuration is the list of the tasks accepted so far. *)

Inductive dispatch_move :=
  | CallExtract (disk : Disk) (i : extract_item)
  | CallStop
  | CallAddListener (l : nat)
  | CallSetBasePaths (out_dir local_path : string) (fallback : option string)
  | Work (outcomes : Extractor).

(** The task an [extract] call appends, if any. *)
Definition accepts `{Disk} (i : extract_item) (s : dispatch) : list task :=
  match build_task (normalize_extract_request s i) with
  | Ok t => if existsb (fun q => String.eqb (tk_root_file_id q) (tk_root_file_id t)) (d_queue s) then [] else [t]
  | Raise _ => []
  end.

Definition run_move (m : dispatch_move) (c : dispatch * position * list task) : dispatch * position * list task :=
  let '(s, p, acc) := c in
  match m with
  | CallExtract disk i => ((extract i s).2, p, acc ++ accepts i s)
  | CallStop => ((stop s).2, p, acc)
  | CallAddListener l => ((add_listener l s).2, p, acc)
  | CallSetBasePaths o l f => ((set_base_paths o l f s).2, p, acc)
  | Work outcomes => (work s p, acc)
  end.

Inductive config_reach : dispatch * position * list task -> Prop :=
  | config_start out local_path fallback managed :
      config_reach (new_dispatch out local_path fallback managed, Outer, [])
  | config_move c m : config_reach c -> config_reach (run_move m c).

(** The task removed from the queue and not yet reported. *)
Definition in_flight (p : position) : list task := match p with Notifying t _ => [t] | _ => [] end.

Record dispatch_inv (c : dispatch * position * list task) : Prop := {
  di_history : map nt_task (d_notified c.1.1) ++ in_flight c.1.2 ++ d_queue c.1.1 = c.2;
  di_distinct : NoDup (map tk_root_file_id (d_queue c.1.1));
  di_position : match c.1.2 with
                | Running t todo => head (d_queue c.1.1) = Some t /\ exists pre, tk_archives t = pre ++ todo
                | Removing t _ => head (d_queue c.1.1) = Some t
                | Gone => d_shutdown c.1.1 = true
                | _ => True
                end }.

Lemma extract_queue `{Disk} i s : d_queue (extract i s).2 = d_queue s ++ accepts i s /\
  d_notified (extract i s).2 = d_notified s /\ d_shutdown (extract i s).2 = d_shutdown s /\
  d_listeners (extract i s).2 = d_listeners s /\ d_managed (extract i s).2 = d_managed s.
Proof.
  unfold extract, accepts, mbind, st_bind, gets, lift, modify. destruct (build_task _) as [t|e]; cbn [snd].
  - destruct (existsb _ _); [by rewrite app_nil_r|]. done.
  - by rewrite app_nil_r.
Qed.

Lemma accepts_fresh `{Disk} i s t : t ∈ accepts i s -> tk_root_file_id t ∉ map tk_root_file_id (d_queue s).
Proof.
  unfold accepts. destruct (build_task _) as [t'|]; [|intros Ht; inversion Ht].
  destruct (existsb _ _) eqn:E; [intros Ht; inversion Ht|]. intros ->%list_elem_of_singleton Hin.
  apply list_elem_of_fmap in Hin as (q & Hq & Hin). apply not_true_iff_false in E. apply E, existsb_exists.
  exists q. split; [by apply list_elem_of_In|]. apply String.eqb_eq. congruence.
Qed.

Lemma head_app_some {A} (l k : list A) x : head l = Some x -> head (l ++ k) = Some x.
Proof. by destruct l. Qed.

Lemma dispatch_inv_extract `{Disk} i s p acc : dispatch_inv (s, p, acc) ->
  dispatch_inv ((extract i s).2, p, acc ++ accepts i s).
Proof.
  intros [Hh Hd Hp]. cbn [fst snd] in *. destruct (extract_queue i s) as (Hq & Hn & Hs & _). constructor; cbn [fst snd].
  - by rewrite Hq, Hn, <- Hh, <- !app_assoc.
  - rewrite Hq, map_app. apply NoDup_app. split_and!; [done| |].
    + intros x Hx (t & -> & Ht)%list_elem_of_fmap. by apply (accepts_fresh i s t).
    + unfold accepts. destruct (build_task _); [|apply NoDup_nil_2]. destruct (existsb _ _); [apply NoDup_nil_2|apply NoDup_singleton].
  - rewrite Hs, Hq. destruct p; try done.
    + destruct Hp as [Hp ?]. split; [by apply head_app_some|done].
    + by apply head_app_some.
Qed.

Lemma dispatch_inv_work `{Extractor} s p acc : dispatch_inv (s, p, acc) -> dispatch_inv (work s p, acc).
Proof.
  intros [Hh Hd Hp]. cbn [fst snd] in *. destruct p as [|[]|t [|a todo]|t b|t b| |]; cbn [work].
  - destruct (d_shutdown s) eqn:Es; by constructor.
  - destruct (d_shutdown s); [by constructor|]. destruct (d_queue s) as [|t q] eqn:Eq; constructor; cbn [fst snd in_flight]; rewrite ?Eq; try done.
    split; [done|]. by exists [].
  - by constructor.
  - constructor; cbn [fst snd]; [done|done|]. apply Hp.
  - destruct Hp as [Hhd (pre & Hpre)]. destruct (d_shutdown s); [by constructor|].
    destruct (extract_one _ _); constructor; cbn [fst snd]; try done. split; [done|].
    exists (pre ++ [a]). by rewrite <- app_assoc.
  - destruct (d_queue s) as [|t' q] eqn:Eq; [done|]. injection Hp as ->. constructor; cbn [fst snd put_queue d_queue d_notified in_flight tail].
    + exact Hh.
    + cbn [map] in Hd. by apply NoDup_cons in Hd as [_ ?].
    + done.
  - constructor; cbn [fst snd notify d_queue d_notified in_flight]; try done.
    rewrite map_app, <- app_assoc. exact Hh.
  - by constructor.
  - by constructor.
Qed.

Lemma config_inv c : config_reach c -> dispatch_inv c.
Proof.
  induction 1 as [out l f m|[[s p] acc] m _ IH]; [constructor; cbn; [done|apply NoDup_nil_2|done]|].
  destruct m; cbn [run_move].
  - by apply dispatch_inv_extract.
  - destruct IH as [? ? ?]. constructor; cbn [fst snd stop modify d_queue d_notified d_shutdown] in *; try done. by destruct p.
  - destruct IH as [? ? ?]. by constructor.
  - destruct IH as [? ? ?]. by constructor.
  - by apply dispatch_inv_work.
Qed.

(** Whatever calls are made and however they interleave with the worker,
    tasks are served in the order they were accepted and each is reported at
    most once: the reported tasks, the one being reported and the queued ones
    are together exactly the accepted tasks, in order; no two queued tasks
    belong to the same root; and the worker only works on the first queued
    task. *)
Theorem dispatch_fifo c : config_reach c ->
  let '(s, p, acc) := c in
  map nt_task (d_notified s) ++ in_flight p ++ d_queue s = acc /\
  NoDup (map tk_root_file_id (d_queue s)) /\
  match p with Running t _ | Removing t _ => head (d_queue s) = Some t | _ => True end.
Proof.
  intros Hc%config_inv. destruct c as [[s p] acc], Hc as [? ? Hp]. cbn [fst snd] in *. split_and!; [done|done|].
  destruct p; try done. by destruct Hp.
Qed.

(** ** Every accepted task is reported *)

Section liveness.
Context `{Extractor}.

Fixpoint work_n (n : nat) (s : dispatch) (p : position) : dispatch * position :=
  match n with
  | O => (s, p)
  | S n => let '(s', p') := work s p in work_n n s' p'
  end.

Lemma work_n_app n m s p : work_n (n + m) s p = let '(s', p') := work_n n s p in work_n m s' p'.
Proof.
  revert s p. induction n as [|n IH]; intros s p; [done|]. simpl. destruct (work s p) as [s' p']. apply IH.
Qed.

(** The outcome of a task, and how it is reported. *)
Definition succeeds (managed : bool) (archives : list archive_path) : bool := forallb (extract_one managed) archives.
Definition verdict (s : dispatch) (t : task) : notification :=
  mkNotification t (succeeds (d_managed s) (tk_archives t)) (d_listeners s).

Definition reported (s : dispatch) (ns : list notification) (q : list task) : dispatch :=
  mkDispatch (d_out_dir s) (d_local_path s) (d_local_fallback s) (d_managed s) q (d_shutdown s)
    (d_listeners s) (d_notified s ++ ns).

(** Steps the tasks of a queue can take. *)
Definition effort (q : list task) : nat := list_sum (map (fun t => length (tk_archives t) + 5) q)%nat.

Lemma run_archives s t todo : d_shutdown s = false ->
  exists n, (n <= length todo + 1)%nat /\ work_n n s (Running t todo) = (s, Removing t (succeeds (d_managed s) todo)).
Proof.
  intros Hs. induction todo as [|a todo (n & Hn & IH)]; [by exists 1%nat|]. cbn [succeeds forallb].
  destruct (extract_one (d_managed s) a) eqn:Ea.
  - exists (S n). split; [simpl; lia|]. cbn [work_n work]. rewrite Hs, Ea. exact IH.
  - exists 1%nat. split; [simpl; lia|]. cbn [work_n work]. by rewrite Hs, Ea.
Qed.

Lemma finish_task s t q b : d_queue s = t :: q ->
  work_n 3 s (Removing t b) =
  (reported s [mkNotification t b (d_listeners s)] q, Inner (negb (bool_decide (q = [])))).
Proof. intros Hq. cbn [work_n work]. unfold put_queue, notify, has_tasks. cbn. by rewrite Hq. Qed.

(** From the inner loop's test, the whole queue is worked off. *)
Lemma drain q s : d_queue s = q -> d_shutdown s = false ->
  exists n, (n <= effort q)%nat /\
    work_n n s (Inner (has_tasks s)) = (reported s (map (verdict s) q) [], Inner false).
Proof.
  revert s. induction q as [|t q IH]; intros s Hq Hs.
  - exists 0%nat. split; [lia|]. unfold has_tasks. rewrite Hq. cbn. unfold reported. rewrite app_nil_r. by destruct s; simpl in *; subst.
  - destruct (run_archives s t (tk_archives t) Hs) as (n & Hn & Hrun).
    set (s1 := reported s [verdict s t] q).
    destruct (IH s1 eq_refl Hs) as (m & Hm & Hrest).
    exists (1 + (n + (3 + m)))%nat. split; [unfold effort in *; simpl; lia|].
    rewrite work_n_app. cbn [work_n]. unfold has_tasks at 1. rewrite Hq. cbn [work]. rewrite Hs, Hq.
    change (negb (bool_decide (t :: q = []))) with true. cbv iota.
    rewrite work_n_app, Hrun, work_n_app, (finish_task s t q) by done. fold (verdict s t). fold s1.
    change (negb (bool_decide (q = []))) with (has_tasks s1). rewrite Hrest. subst s1. unfold reported. cbn.
    by rewrite <- app_assoc.
Qed.

(** The tasks not yet begun, and the verdict on the one at hand. *)
Definition pending (s : dispatch) (p : position) : list task :=
  match p with Running _ _ | Removing _ _ => tail (d_queue s) | _ => d_queue s end.
Definition at_hand (s : dispatch) (p : position) : list notification :=
  match p with
  | Running t todo => [mkNotification t (succeeds (d_managed s) todo) (d_listeners s)]
  | Removing t b | Notifying t b => [mkNotification t b (d_listeners s)]
  | _ => []
  end.

Lemma drain_from s p acc : dispatch_inv (s, p, acc) -> d_shutdown s = false ->
  exists n, (n <= effort (d_queue s) + 5)%nat /\
    work_n n s p = (reported s (at_hand s p ++ map (verdict s) (pending s p)) [], Inner false).
Proof.
  intros [_ _ Hp] Hs. cbn [fst snd] in Hp.
  assert (Hgo : forall k ns q, work_n k s p = (reported s ns q, Inner (negb (bool_decide (q = [])))) ->
    (k + effort q <= effort (d_queue s) + 5)%nat ->
    exists n, (n <= effort (d_queue s) + 5)%nat /\ work_n n s p = (reported s (ns ++ map (verdict s) q) [], Inner false)).
  { intros k ns q Hk Hle. destruct (drain q (reported s ns q) eq_refl Hs) as (m & Hm & Hd).
    exists (k + m)%nat. split; [lia|]. rewrite work_n_app, Hk.
    change (negb (bool_decide (q = []))) with (has_tasks (reported s ns q)). rewrite Hd. unfold reported. cbn.
    by rewrite <- app_assoc. }
  assert (Hsame : reported s [] (d_queue s) = s) by (unfold reported; rewrite app_nil_r; by destruct s).
  assert (Hhas : negb (bool_decide (d_queue s = [])) = has_tasks s) by done.
  destruct p as [|[]|t todo|t b|t b| |]; cbn [at_hand pending].
  - apply (Hgo 1%nat); [cbn [work_n work]; by rewrite Hs, Hsame|lia].
  - destruct (d_queue s) as [|t q] eqn:Eq.
    + apply (Hgo 2%nat []); [|lia]. cbn [work_n work]. rewrite Hs, Eq. cbn [work]. rewrite Hs, Hsame. unfold has_tasks. by rewrite Eq.
    + apply (Hgo 0%nat []); [|lia]. by rewrite Hsame.
  - apply (Hgo 2%nat); [|lia]. cbn [work_n work]. rewrite Hs. cbn [work]. by rewrite Hsame.
  - destruct Hp as [Hhd (pre & Hpre)]. destruct (d_queue s) as [|t' q] eqn:Eq; [done|]. injection Hhd as ->. cbn [tail].
    destruct (run_archives s t todo Hs) as (n & Hn & Hrun). apply (Hgo (n + 3)%nat).
    + by rewrite work_n_app, Hrun, (finish_task s t q).
    + unfold effort. simpl. rewrite Hpre, length_app. fold (effort q). lia.
  - destruct (d_queue s) as [|t' q] eqn:Eq; [done|]. injection Hp as ->. cbn [tail]. apply (Hgo 3%nat).
    + by rewrite (finish_task s t q).
    + unfold effort. simpl. fold (effort q). lia.
  - apply (Hgo 2%nat); [|lia]. cbn [work_n work]. unfold notify, has_tasks, reported. by destruct s.
  - apply (Hgo 1%nat); [|lia]. cbn [work_n work]. by rewrite Hsame.
  - congruence.
Qed.

Lemma gone_inner n b s : d_shutdown s = true -> work_n (2 + n) s (Inner b) = (s, Gone).
Proof.
  intros Hs. assert (Hgone : work_n n s Gone = (s, Gone)) by (induction n; done).
  destruct b; cbn [Nat.add work_n work]; rewrite ?Hs; cbn [work]; rewrite ?Hs; exact Hgone.
Qed.

Lemma gone_notifying n t b s : d_shutdown s = true -> work_n (4 + n) s (Notifying t b) = (notify t b s, Gone).
Proof. intros Hs. cbn [Nat.add work_n work]. by apply (gone_inner n). Qed.

Lemma shutdown_gone s p acc : dispatch_inv (s, p, acc) -> d_shutdown s = true ->
  exists s' ns, work_n 7 s p = (s', Gone) /\ d_notified s' = d_notified s ++ ns /\ (length ns <= 1)%nat.
Proof.
  intros _ Hs. assert (Hsame : d_notified s = d_notified s ++ []) by (by rewrite app_nil_r).
  destruct p as [|b|t todo|t b|t b| |].
  - exists s, []. split; [cbn [work_n work]; by rewrite Hs|]. split; [done|simpl; lia].
  - exists s, []. rewrite (gone_inner 5) by done. split; [done|]. split; [done|simpl; lia].
  - assert (Hrun : exists b, work s (Running t todo) = (s, Removing t b)).
    { destruct todo; [by eexists|]. cbn [work]. rewrite Hs. by eexists. }
    destruct Hrun as [b Hrun]. eexists _, [_]. change 7%nat with (S (S (4 + 1))). cbn [work_n]. rewrite Hrun. cbn [work].
    rewrite (gone_notifying 1) by done. split; [done|]. split; [done|simpl; lia].
  - eexists _, [_]. change 7%nat with (S (4 + 2)). cbn [work_n work].
    rewrite (gone_notifying 2) by done. split; [done|]. split; [done|simpl; lia].
  - eexists _, [_]. rewrite (gone_notifying 3) by done. split; [done|]. split; [done|simpl; lia].
  - exists s, []. change 7%nat with (S (2 + 4)). cbn [work_n work]. rewrite (gone_inner 4) by done.
    split; [done|]. split; [done|simpl; lia].
  - exists s, []. split; [done|]. split; [done|simpl; lia].
Qed.
End liveness.

(** C31: The worker makes progress.  In every reachable configuration that is
    not shutting down, the worker alone reports every accepted task within a
    bounded number of moves (five per task, one per archive, five more): the
    queue is then empty, every accepted task was reported, and a task not yet
    begun is reported as completed exactly when all its archives can be
    extracted and marked.  Once shutdown is requested the worker is gone after
    at most seven moves, having reported at most one more task. *)
Theorem dispatch_progress `{Extractor} s p acc : config_reach (s, p, acc) ->
  (d_shutdown s = false ->
   exists n s', (n <= effort (d_queue s) + 5)%nat /\ work_n n s p = (s', Inner false) /\ d_queue s' = [] /\
     map nt_task (d_notified s') = acc /\
     exists now, d_notified s' = d_notified s ++ now ++
       map (fun t => mkNotification t (forallb (extract_one (d_managed s)) (tk_archives t)) (d_listeners s)) (pending s p)) /\
  (d_shutdown s = true ->
   exists s' ns, work_n 7 s p = (s', Gone) /\ d_notified s' = d_notified s ++ ns /\ (length ns <= 1)%nat).
Proof.
  intros Hc%config_inv. split; [|by eapply shutdown_gone].
  intros Hs. destruct (drain_from s p acc Hc Hs) as (n & Hn & Hw). eexists n, _. split_and!; [done|exact Hw|done| |].
  - destruct Hc as [Hh _ Hp]. cbn [fst snd] in *. cbn [reported d_notified]. rewrite <- Hh, map_app. f_equal.
    rewrite map_app, map_map. cbn [verdict nt_task]. rewrite map_id.
    destruct p as [|[]|t todo|t b|t b| |]; cbn [at_hand pending in_flight map app nt_task]; try done.
    + destruct Hp as [Hp _]. by destruct (d_queue s); [|injection Hp as ->].
    + by destruct (d_queue s); [|injection Hp as ->].
  - by exists (at_hand s p).
Qed.

(** ** A sample run *)

Definition sample_disk : Disk := {| regular_file p :=
  if String.eqb p "/l/a.rar"
  then Some (mkDiskFile false (Ok false) (Some (chars "Rar!" ++ bytes_of [26; 7; 0; 0]))) else None |}.

Definition sample_archive : fileref := mkRef 1 [] (put_sizes (new_file 0 "a.rar" false) None (Some 5)).

Definition sample_outcomes : Extractor := {| extract_outcome _ _ := Ok tt; marker_outcome _ := Written |}.

Definition sample_config : dispatch * position * list task :=
  run_move (CallExtract sample_disk (ItemFile sample_archive))
    (run_move (CallAddListener 3) (new_dispatch "/o" "/l" None true, Outer, [])).

Lemma sample_config_reach : config_reach sample_config.
Proof. apply config_move, config_move, config_start. Qed.

Definition sample_task : task :=
  mkTask "a.rar" false "a.rar" None [mkArchive "/l/a.rar" "/o" "a.rar" "a.rar" None].

Example sample_queued : d_queue sample_config.1.1 = [sample_task].
Proof. vm_compute. reflexivity. Qed.

Lemma dispatch_fifo_witness : let '(s, p, acc) := sample_config in
  map nt_task (d_notified s) ++ in_flight p ++ d_queue s = acc /\ d_queue s = [sample_task].
Proof. exact (conj (proj1 (dispatch_fifo sample_config sample_config_reach)) sample_queued). Defined.

Lemma dispatch_progress_witness :
  exists n s', work_n (H := sample_outcomes) n sample_config.1.1 sample_config.1.2 = (s', Inner false) /\
    d_queue s' = [] /\ map nt_task (d_notified s') = sample_config.2.
Proof.
  destruct (dispatch_progress (H := sample_outcomes) sample_config.1.1 sample_config.1.2 sample_config.2
    sample_config_reach) as [Hlive _].
  destruct (Hlive eq_refl) as (n & s' & _ & H1 & H2 & H3 & _). exists n, s'. exact (conj H1 (conj H2 H3)).
Defined.
