(* ===== verification/Ini.v ===== *)
(** * INI files ([configparser] of the standard library)

    Reading and writing of [ConfigParser(interpolation=None)] with its default
    options: delimiters [=] and [:], full-line comments with [#] and [;], empty
    lines inside values, indented continuation lines, a [DEFAULT] section, and
    no repeated section or option.  An option's value is kept as the list of
    its lines until the end of the file. *)

From S2P Require Import Prelude PyDict PyStr Json.

Definition ini_options : Type := dict string (list string).

(** [MissingSectionHeaderError] is a [ParsingError].
    [cur]: the current section ([None] before the first header); [opt]: the
    current option; [added]: the sections and the options seen. *)
Record ini_state := mkIni {
  ini_sections : dict string ini_options; ini_defaults : ini_options; ini_cur : option string; ini_opt : option string;
  ini_indent : nat; ini_added : list string; ini_added_options : list (string * string); ini_bad : bool }.

Definition ini_start : ini_state := mkIni [] [] None None 0 [] [] false.

Definition default_section : string := "DEFAULT".

Definition cur_options (st : ini_state) : ini_options :=
  match ini_cur st with
  | None => []
  | Some s => if String.eqb s default_section then ini_defaults st else default [] (dget (ini_sections st) s)
  end.

Definition put_options (st : ini_state) (d : ini_options) : ini_state :=
  match ini_cur st with
  | None => st
  | Some s =>
      if String.eqb s default_section
      then mkIni (ini_sections st) d (ini_cur st) (ini_opt st) (ini_indent st) (ini_added st) (ini_added_options st) (ini_bad st)
      else mkIni (dset (ini_sections st) s d) (ini_defaults st) (ini_cur st) (ini_opt st) (ini_indent st) (ini_added st)
             (ini_added_options st) (ini_bad st)
  end.

(** [optname and ...]: the empty name is falsy *)
Definition open_option (st : ini_state) : option string :=
  match ini_cur st, ini_opt st with
  | Some _, Some o => if String.eqb o "" then None else Some o
  | _, _ => None
  end.

Definition append_line (st : ini_state) (o line : string) : ini_state :=
  put_options st (dset (cur_options st) o (default [] (dget (cur_options st) o) ++ [line])).

Definition set_indent (st : ini_state) (n : nat) : ini_state :=
  mkIni (ini_sections st) (ini_defaults st) (ini_cur st) (ini_opt st) n (ini_added st) (ini_added_options st) (ini_bad st).

Definition flag_bad (st : ini_state) : ini_state :=
  mkIni (ini_sections st) (ini_defaults st) (ini_cur st) (ini_opt st) (ini_indent st) (ini_added st) (ini_added_options st) true.

(** [\[(?P<header>.+)\]]: greedy, up to the last closing bracket *)
Definition section_header (value : string) : option string :=
  match chars value with
  | c :: l =>
      if ord c =? 91 then
        match drop_while (fun c => negb (ord c =? 93)) (rev l) with
        | _ :: h => match h with [] => None | _ => Some (str (rev h)) end
        | [] => None
        end
      else None
  | [] => None
  end.

Definition is_delim (c : ascii) : bool := (ord c =? 61) || (ord c =? 58).

(** The text before the first delimiter and the text after it. *)
Definition split_option (value : string) : option (string * string) :=
  let before := take_while (fun c => negb (is_delim c)) (chars value) in
  match drop_while (fun c => negb (is_delim c)) (chars value) with
  | [] => None
  | _ :: after => Some (str (rstrip_by is_space before), strip (str after))
  end.

Definition enter_section (st : ini_state) (s : string) : result ini_state :=
  if dhas (ini_sections st) s then
    if bool_decide (s ∈ ini_added st) then Raise DuplicateSectionError
    else Ok (mkIni (ini_sections st) (ini_defaults st) (Some s) None (ini_indent st) (s :: ini_added st) (ini_added_options st) (ini_bad st))
  else if String.eqb s default_section
  then Ok (mkIni (ini_sections st) (ini_defaults st) (Some s) None (ini_indent st) (ini_added st) (ini_added_options st) (ini_bad st))
  else Ok (mkIni (dset (ini_sections st) s []) (ini_defaults st) (Some s) None (ini_indent st) (s :: ini_added st)
             (ini_added_options st) (ini_bad st)).

Definition enter_option (st : ini_state) (s value : string) : result ini_state :=
  match split_option value with
  | None => Ok (flag_bad st)
  | Some (o, v) =>
      let st := if String.eqb o "" then flag_bad st else st in
      let o := lower o in
      if bool_decide ((s, o) ∈ ini_added_options st) then Raise DuplicateOptionError
      else
        let st := mkIni (ini_sections st) (ini_defaults st) (ini_cur st) (Some o) (ini_indent st) (ini_added st)
                    ((s, o) :: ini_added_options st) (ini_bad st) in
        Ok (put_options st (dset (cur_options st) o [v]))
  end.

Definition is_comment (value : string) : bool := startswith value "#" || startswith value ";".

Definition header_or_option (st : ini_state) (value : string) : result ini_state :=
  match section_header value, ini_cur st with
  | Some s, _ => enter_section st s
  | None, Some s => enter_option st s value
  | None, None => Raise ParsingError
  end.

Definition read_line (st : ini_state) (line : string) : result ini_state :=
  let value := strip line in
  if is_comment value then Ok st
  else if String.eqb value "" then
    Ok (match open_option st with Some o => append_line st o "" | None => st end)
  else
    let indent := length (take_while is_space (chars line)) in
    match open_option st with
    | Some o => if (ini_indent st <? indent)%nat then Ok (append_line st o value)
                else header_or_option (set_indent st indent) value
    | None => header_or_option (set_indent st indent) value
    end.

Fixpoint read_lines (st : ini_state) (ls : list string) : result ini_state :=
  match ls with
  | [] => Ok st
  | l :: ls' => st' ← read_line st l; read_lines st' ls'
  end.

(** Iteration over [StringIO]: a final newline opens no further line. *)
Definition text_lines (text : string) : list string :=
  match rev (split (chr 10) text) with
  | last :: rest => if String.eqb last "" then rev rest else rev (last :: rest)
  | [] => []
  end.

(** ['\n'.join(lines).rstrip()] *)
Definition join_lines (ls : list string) : string :=
  str (rstrip_by is_space (join [chr 10] (map chars ls))).

Definition finish_options (d : ini_options) : dict string string := map (fun kv => (kv.1, join_lines kv.2)) d.

(** [opts = section.copy(); opts.update(defaults)], with the section's own values *)
Definition with_defaults (defaults opts : dict string string) : dict string string :=
  opts ++ List.filter (fun kv => negb (dhas opts kv.1)) defaults.

(** [read_string], then [sections()] with [options] and [get]. *)
Definition ini_read (text : string) : result (dict string (dict string string)) :=
  st ← read_lines ini_start (text_lines text);
  if ini_bad st then Raise ParsingError
  else Ok (map (fun sv => (sv.1, with_defaults (finish_options (ini_defaults st)) (finish_options sv.2))) (ini_sections st)).

(** [str(value).replace('\n', '\n\t')] *)
Definition tabbed (s : string) : string := str (concat (map (fun c => if ord c =? 10 then [c; chr 9] else [c]) (chars s))).

Definition write_option (kv : string * string) : string := kv.1 +:+ " = " +:+ tabbed kv.2 +:+ str [chr 10].

(** [ConfigParser.write] without defaults *)
Definition write_section (sv : string * dict string string) : string :=
  "[" +:+ sv.1 +:+ "]" +:+ str [chr 10] +:+ fold_right String.append "" (map write_option sv.2) +:+ str [chr 10].

Definition ini_write (d : dict string (dict string string)) : string := fold_right String.append "" (map write_section d).

(** ** Reading back what was written *)

(** A lower-case name of plain characters that starts neither a comment nor a header. *)
Definition key_ok (k : string) : bool :=
  match chars k with
  | [] => false
  | c :: _ => negb ((ord c =? 35) || (ord c =? 59) || (ord c =? 91))
  end && forallb (fun c => negb (is_delim c || is_space c)) (chars k) && String.eqb (lower k) k.

(** One line without spaces at its ends. *)
Definition value_ok (v : string) : Prop := strip v = v /\ chr 10 ∉ chars v.

Definition header_ok (s : string) : Prop := s <> "" /\ s <> default_section /\ chr 10 ∉ chars s.

Definition section_ok (sv : string * dict string string) : Prop :=
  header_ok sv.1 /\ dwf sv.2 /\ Forall (fun kv => key_ok kv.1 = true /\ value_ok kv.2) sv.2.

Definition ini_ok (d : dict string (dict string string)) : Prop := dwf d /\ Forall section_ok d.

Definition option_line (kv : string * string) : string := kv.1 +:+ " = " +:+ kv.2.
Definition section_lines (sv : string * dict string string) : list string :=
  ("[" +:+ sv.1 +:+ "]") :: map option_line sv.2 ++ [""].

Lemma ord_newline c : ord c = 10 -> c = chr 10.
Proof. intros H. unfold chr. rewrite <- H. unfold ord. by rewrite N2Z.id, ascii_N_embedding. Qed.

Lemma tabbed_line v : chr 10 ∉ chars v -> tabbed v = v.
Proof.
  intros H. unfold tabbed. rewrite <- (str_chars v) at 2. f_equal. induction (chars v) as [|c l IH]; [done|]. cbn [map concat].
  apply not_elem_of_cons in H as [Hc Hl]. destruct (Z.eqb_spec (ord c) 10) as [E|E]; [by apply ord_newline in E|].
  cbn [app]. f_equal. by apply IH.
Qed.

Lemma lines_text ls : Forall (fun l => chr 10 ∉ chars l) ls ->
  text_lines (fold_right String.append "" (map (fun l => l +:+ str [chr 10]) ls)) = ls.
Proof.
  intros H. unfold text_lines.
  assert (Hs : split (chr 10) (fold_right String.append "" (map (fun l => l +:+ str [chr 10]) ls)) = ls ++ [""]).
  { unfold split. induction H as [|l ls Hl Hls IH]; [done|]. cbn [map fold_right]. rewrite !chars_app, chars_str, <- app_assoc.
    cbn [app]. rewrite split_chars_app by done. cbn [rev app map]. rewrite str_chars. f_equal. exact IH. }
  rewrite Hs, rev_app_distr. cbn [rev app]. apply rev_involutive.
Qed.

Lemma append_assoc (a b c : string) : (a +:+ b) +:+ c = a +:+ b +:+ c.
Proof. apply chars_inj. by rewrite !chars_app, app_assoc. Qed.

Lemma fold_append_app l k : fold_right String.append "" (l ++ k) = fold_right String.append "" l +:+ fold_right String.append "" k.
Proof. induction l as [|x l IH]; [done|]. cbn [app fold_right]. by rewrite IH, append_assoc. Qed.

Definition closed_lines (ls : list string) : string := fold_right String.append "" (map (fun l => l +:+ str [chr 10]) ls).

Lemma closed_lines_app l k : closed_lines (l ++ k) = closed_lines l +:+ closed_lines k.
Proof. unfold closed_lines. by rewrite map_app, fold_append_app. Qed.

Lemma options_lines opts : Forall (fun kv => key_ok kv.1 = true /\ value_ok kv.2) opts ->
  fold_right String.append "" (map write_option opts) = closed_lines (map option_line opts).
Proof.
  induction 1 as [|[k v] opts [_ Hv] _ IH]; [done|]. cbn [map fold_right]. rewrite IH. unfold closed_lines. cbn [map fold_right].
  f_equal. unfold write_option, option_line. cbn [fst snd]. rewrite tabbed_line by apply Hv. by rewrite !append_assoc.
Qed.

(** The text is its lines, each closed by a newline. *)
Lemma write_lines d : ini_ok d -> ini_write d = closed_lines (concat (map section_lines d)).
Proof.
  intros [_ H]. unfold ini_write. induction H as [|[s opts] d (_ & _ & Ho) Hd IH]; [done|]. cbn [map concat fold_right].
  rewrite closed_lines_app, IH. f_equal. unfold write_section, section_lines. cbn [fst snd] in *.
  change (?x :: ?l ++ ?k) with ([x] ++ l ++ k). rewrite !closed_lines_app, <- (options_lines opts Ho).
  unfold closed_lines. cbn [map fold_right]. rewrite !append_assoc. cbn [String.append]. done.
Qed.

Lemma written_plain_key k : key_ok k = true -> exists c l, chars k = c :: l /\ ord c <> 35 /\ ord c <> 59 /\ ord c <> 91 /\
  (forall x, x ∈ chars k -> is_delim x = false /\ is_space x = false) /\ lower k = k.
Proof.
  unfold key_ok. intros H. apply andb_true_iff in H as [[H1 H2]%andb_true_iff H3]. apply String.eqb_eq in H3.
  destruct (chars k) as [|c l] eqn:E; [done|]. exists c, l. rewrite forallb_forall in H2.
  apply negb_true_iff, orb_false_iff in H1 as [[H35 H59]%orb_false_iff H91]. apply Z.eqb_neq in H35, H59, H91.
  split_and!; [done..| |done]. intros x Hx%list_elem_of_In%H2. by apply negb_true_iff, orb_false_iff in Hx.
Qed.

Lemma key_trimmed k : key_ok k = true -> trimmed (chars k).
Proof.
  intros (c & l & Ek & _ & _ & _ & Hk & _)%written_plain_key.
  split; [rewrite Ek; apply Hk; rewrite Ek; by left|]. destruct (rev (chars k)) as [|x r] eqn:E; [done|].
  apply Hk. rewrite <- (rev_involutive (chars k)), E. rewrite list_elem_of_In, <- in_rev. by left.
Qed.

(** The stripped line of an option: its name, then the delimiter and the value. *)
Lemma option_line_stripped k v : key_ok k = true -> value_ok v ->
  exists m, chars (strip (option_line (k, v))) = chars k ++ " "%char :: "="%char :: m /\ strip (str m) = v.
Proof.
  intros H [Hv _]. pose proof (key_trimmed k H) as Tk. apply written_plain_key in H as (c & l & Ek & _). unfold option_line. cbn [fst snd].
  destruct (decide (chars v = [])) as [E|E].
  - exists []. assert (v = "") as -> by by apply chars_nil. split; [|done].
    change (" = " +:+ "") with (" =" +:+ str [" "%char]). rewrite <- append_assoc, strip_snoc_space by done.
    rewrite <- (str_chars (k +:+ " =")), strip_trimmed, chars_str, chars_app; [done|]. rewrite chars_app.
    apply (trimmed_app (chars k) ["="%char] Tk ltac:(done) ltac:(by rewrite Ek) ltac:(done) [" "%char]).
  - exists (" "%char :: chars v). split.
    + rewrite <- (str_chars (k +:+ " = " +:+ v)), strip_trimmed, chars_str, !chars_app; [done|]. rewrite !chars_app.
      apply trimmed_app; [done|by apply trimmed_strip|by rewrite Ek|done].
    + unfold strip in *. rewrite chars_str. cbn [drop_while]. exact Hv.
Qed.

Lemma split_option_line k v m value : key_ok k = true -> chars value = chars k ++ " "%char :: "="%char :: m -> strip (str m) = v ->
  split_option value = Some (k, v).
Proof.
  intros H Hv Hm. pose proof (key_trimmed k H) as Tk. apply written_plain_key in H as (c & l & Ek & _ & _ & _ & Hk & _). unfold split_option. rewrite Hv.
  change (?a ++ ?x :: ?y :: ?r) with (a ++ [x] ++ y :: r). rewrite app_assoc.
  destruct (take_while_app (fun c => negb (is_delim c)) (chars k ++ [" "%char]) ("="%char :: m)) as [-> ->]; [|done|].
  - intros y [Hy| ->%list_elem_of_singleton]%elem_of_app; [|done]. by rewrite (proj1 (Hk y Hy)).
  - rewrite rstrip_snoc_space by done. f_equal. f_equal; [|done]. rewrite <- (str_chars k) at 2. f_equal. by apply rstrip_trimmed.
Qed.

Lemma dget_snoc {V} (d : dict string V) s r : s ∉ dkeys d -> dget (d ++ [(s, r)]) s = Some r.
Proof.
  induction d as [|[k w] d IH]; cbn [dkeys map fst app dget]; intros H; [by rewrite decide_True|].
  apply not_elem_of_cons in H as [Hk Hd]. rewrite decide_False by done. by apply IH.
Qed.

Lemma dset_snoc {V} (d : dict string V) s r r' : s ∉ dkeys d -> dset (d ++ [(s, r)]) s r' = d ++ [(s, r')].
Proof. intros H. rewrite <- (dkeys_dset_fresh d s r H), dset_dset. by apply dkeys_dset_fresh. Qed.

(** The state of the reader after the sections [done] and, in section [s], the options [part]. *)
Definition finish_sections (raw : dict string ini_options) : dict string (dict string string) :=
  map (fun sv => (sv.1, finish_options sv.2)) raw.

Record reading (st : ini_state) (sections : dict string (dict string string)) : Prop := mkReading {
  rd_sections : finish_sections (ini_sections st) = sections;
  rd_defaults : ini_defaults st = [];
  rd_indent : ini_indent st = 0%nat;
  rd_bad : ini_bad st = false;
  rd_added : forall s, s ∈ ini_added st -> s ∈ dkeys sections;
  rd_options : forall s o, (s, o) ∈ ini_added_options st -> exists opts, (s, opts) ∈ sections /\ o ∈ dkeys opts }.

Lemma dkeys_finish raw : dkeys (finish_sections raw) = dkeys raw.
Proof. unfold dkeys, finish_sections. by rewrite map_map. Qed.

Lemma dkeys_finish_options r : dkeys (finish_options r) = dkeys r.
Proof. unfold dkeys, finish_options. by rewrite map_map. Qed.

(** A line that starts in the first column continues no value. *)
Lemma read_unindented st line c l l' : chars line = c :: l -> chars (strip line) = c :: l' -> is_space c = false ->
  ord c <> 35 -> ord c <> 59 -> ini_indent st = 0%nat -> read_line st line = header_or_option st (strip line).
Proof.
  intros El Ev Hc H35 H59 Hi. unfold read_line, is_comment, startswith. rewrite Ev, El. cbn [chars String.list_ascii_of_string prefix_of].
  destruct (Ascii.eqb_spec "#" c) as [<-|_]; [done|]. destruct (Ascii.eqb_spec ";" c) as [<-|_]; [done|]. cbn [andb orb].
  destruct (String.eqb_spec (strip line) "") as [E|_]; [by rewrite E in Ev|]. cbn [take_while]. rewrite Hc. cbn [length].
  rewrite Hi. assert (set_indent st 0 = st) as -> by (destruct st; cbn in *; by subst). by destruct (open_option st).
Qed.

Lemma header_line_read s : s <> "" -> strip ("[" +:+ s +:+ "]") = "[" +:+ s +:+ "]" /\ section_header ("[" +:+ s +:+ "]") = Some s.
Proof.
  intros Hne. split.
  - rewrite <- (str_chars ("[" +:+ s +:+ "]")), strip_trimmed; [done|]. rewrite !chars_app.
    by apply (trimmed_app ["["%char] ["]"%char]).
  - unfold section_header. rewrite chars_app. cbn [chars String.list_ascii_of_string app]. rewrite chars_app, rev_app_distr.
    cbn [chars String.list_ascii_of_string rev app drop_while]. change (ord "[" =? 91) with true. change (negb (ord "]" =? 93)) with false. cbv iota.
    destruct (rev (chars s)) as [|x h] eqn:E; [|by rewrite <- E, rev_involutive, str_chars].
    apply (f_equal (@rev ascii)) in E. rewrite rev_involutive in E. by apply chars_nil in E.
Qed.

Lemma step_header st sections s : reading st sections -> header_ok s -> s ∉ dkeys sections ->
  exists st', read_line st ("[" +:+ s +:+ "]") = Ok st' /\ reading st' (sections ++ [(s, [])]) /\ ini_cur st' = Some s /\
    ini_opt st' = None.
Proof.
  intros R (Hne & Hdef & _) Hs. destruct (header_line_read s Hne) as [Es Eh].
  rewrite (read_unindented st _ "["%char (chars (s +:+ "]")) (chars (s +:+ "]"))); [|done|by rewrite Es|done..|apply R].
  rewrite Es. unfold header_or_option. rewrite Eh. destruct R as [Rs Rd Ri Rb Ra Ro].
  assert (Hr : s ∉ dkeys (ini_sections st)) by by rewrite <- dkeys_finish, Rs.
  unfold enter_section. rewrite (proj2 (dhas_false _ _) (proj2 (dget_None _ _) Hr)).
  destruct (String.eqb_spec s default_section) as [|_]; [done|]. eexists. split; [reflexivity|]. rewrite (dkeys_dset_fresh _ _ _ Hr).
  split; [|done]. split; cbn; try done.
  - unfold finish_sections in *. by rewrite map_app, Rs.
  - intros x. unfold dkeys. rewrite map_app, elem_of_cons, elem_of_app. intros [->|Hx%Ra]; [right; by left|by left].
  - intros x o (opts & Hx & Ho)%Ro. exists opts. split; [|done]. apply elem_of_app. by left.
Qed.

(** The reader inside section [s], after the options [part]. *)
Record inside (st : ini_state) (sections : dict string (dict string string)) (s : string) (part : dict string string) : Prop := mkInside {
  in_cur : ini_cur st = Some s;
  in_reading : reading st (sections ++ [(s, part)]);
  in_fresh : s ∉ dkeys sections;
  in_named : s <> default_section;
  in_opt : forall o, ini_opt st = Some o -> o ∈ dkeys part }.

Lemma inside_raw st sections s part : inside st sections s part ->
  exists raw r, ini_sections st = raw ++ [(s, r)] /\ finish_sections raw = sections /\ finish_options r = part /\ s ∉ dkeys raw.
Proof.
  intros [_ [Rs _ _ _ _ _] Hf _ _]. unfold finish_sections in Rs. apply map_eq_app in Rs as (raw & l & El & Er & Es).
  destruct l as [|[s' r] [|]]; simplify_eq/=. exists raw, r. split_and!; try done. by rewrite <- dkeys_finish.
Qed.

Lemma put_inside st s raw r r' : ini_cur st = Some s -> s <> default_section -> ini_sections st = raw ++ [(s, r)] -> s ∉ dkeys raw ->
  put_options st r' = mkIni (raw ++ [(s, r')]) (ini_defaults st) (ini_cur st) (ini_opt st) (ini_indent st) (ini_added st)
                        (ini_added_options st) (ini_bad st) /\ cur_options st = r.
Proof.
  intros Hc Hn Hs Hr. unfold put_options, cur_options. rewrite Hc. apply String.eqb_neq in Hn as ->.
  by rewrite Hs, dset_snoc, dget_snoc.
Qed.

(** Replacing the options of the current section by others that read the same, or one more. *)
Lemma inside_put st sections s part raw r r' o extra : inside st sections s part -> ini_sections st = raw ++ [(s, r)] ->
  finish_sections raw = sections -> (forall x, x ∈ dkeys part -> x ∈ dkeys (finish_options r')) ->
  (forall x y, (x, y) ∈ extra -> x = s /\ y ∈ dkeys (finish_options r')) -> (forall x, o = Some x -> x ∈ dkeys (finish_options r')) ->
  inside (mkIni (raw ++ [(s, r')]) (ini_defaults st) (ini_cur st) o (ini_indent st) (ini_added st) (extra ++ ini_added_options st) (ini_bad st))
    sections s (finish_options r').
Proof.
  intros [Hc [Rs Rd Ri Rb Ra Ro] Hfr Hn _] Hs Hr Hsub Hx Ho'. split; try done. split; cbn; try done.
  - unfold finish_sections in *. by rewrite map_app, Hr.
  - intros x Hin%Ra. revert Hin. unfold dkeys. by rewrite !map_app.
  - intros x y [Hin|Hin]%elem_of_app.
    + apply Hx in Hin as [-> Hin]. exists (finish_options r'). split; [|done]. apply elem_of_app. right. by left.
    + apply Ro in Hin as (opts & [Ho|Ho%list_elem_of_singleton]%elem_of_app & Hy).
      * exists opts. split; [|done]. apply elem_of_app. by left.
      * simplify_eq. exists (finish_options r'). split; [apply elem_of_app; right; by left|by apply Hsub].
Qed.

Lemma step_option st sections s part k v : inside st sections s part -> key_ok k = true -> value_ok v -> k ∉ dkeys part ->
  exists st', read_line st (option_line (k, v)) = Ok st' /\ inside st' sections s (part ++ [(k, v)]).
Proof.
  intros I Hk Hv Hf. destruct (option_line_stripped k v Hk Hv) as (m & Em & Ev).
  destruct (written_plain_key k Hk) as (c & l & Ek & H35 & H59 & H91 & Hks & Hlow).
  pose proof (split_option_line k v m _ Hk Em Ev) as Hsplit. destruct (inside_raw _ _ _ _ I) as (raw & r & Es & Er & Ep & Hraw).
  pose proof I as [Hc [Rs Rd Ri Rb Ra Ro] Hfr Hn _].
  rewrite (read_unindented st _ c (l ++ chars (" = " +:+ v)) (l ++ " "%char :: "="%char :: m));
    [|unfold option_line; cbn [fst snd]; by rewrite chars_app, Ek|by rewrite Em, Ek|apply Hks; rewrite Ek; by left|done..].
  unfold header_or_option. assert (section_header (strip (option_line (k, v))) = None) as ->.
  { unfold section_header. rewrite Em, Ek. cbn [app]. by apply Z.eqb_neq in H91 as ->. }
  rewrite Hc. unfold enter_option. rewrite Hsplit, Hlow.
  destruct (String.eqb_spec k "") as [->|_]; [done|]. rewrite bool_decide_false.
  2: { intros (opts & Ho & Hin)%Ro. apply elem_of_app in Ho as [Ho|Ho%list_elem_of_singleton]; [|by simplify_eq].
       apply Hfr, list_elem_of_fmap. by exists (s, opts). }
  set (st1 := mkIni _ _ _ (Some k) _ _ _ _).
  destruct (put_inside st1 s raw r (dset r k [v]) Hc Hn Es Hraw) as [Hput Hcur]. rewrite Hcur, Hput. eexists. split; [reflexivity|].
  assert (Hr : k ∉ dkeys r) by by rewrite <- dkeys_finish_options, Ep. rewrite (dkeys_dset_fresh _ _ _ Hr).
  assert (Ef : finish_options (r ++ [(k, [v])]) = part ++ [(k, v)]).
  { unfold finish_options in *. rewrite map_app, Ep. cbn [map fst snd]. unfold join_lines. cbn [map join].
    rewrite rstrip_trimmed, str_chars; [done|]. by apply trimmed_strip, Hv. }
  rewrite <- Ef. apply (inside_put st sections s part raw r (r ++ [(k, [v])]) (Some k) [(s, k)] I Es Er); rewrite Ef; unfold dkeys;
    rewrite map_app; intros x; [intros Hx; apply elem_of_app; by left|intros y [= -> ->]%list_elem_of_singleton; split; [done|]|intros [= <-]];
    apply elem_of_app; right; by left.
Qed.

Lemma join_lines_blank l : join_lines (l ++ [""]) = join_lines l.
Proof.
  destruct l as [|x l]; [done|]. unfold join_lines. f_equal.
  assert (H : forall y, join [chr 10] (map chars ((y :: l) ++ [""])) = join [chr 10] (map chars (y :: l)) ++ [chr 10]).
  { induction l as [|z l IH]; intros y; [done|].
    cbn [app map]. rewrite !join_cons2. cbn [app map] in IH. rewrite IH. by rewrite <- !app_assoc. }
  rewrite H. by rewrite rstrip_snoc_space.
Qed.

(** The blank line that closes a section is part of no value. *)
Lemma step_blank st sections s part : inside st sections s part -> exists st', read_line st "" = Ok st' /\ inside st' sections s part.
Proof.
  intros I. unfold read_line. cbn [strip is_comment startswith String.eqb chars String.list_ascii_of_string prefix_of].
  cbn. destruct (open_option st) as [o|] eqn:Eo; [|by eauto]. eexists. split; [reflexivity|].
  destruct (inside_raw _ _ _ _ I) as (raw & r & Es & Er & Ep & Hraw). pose proof I as [Hc _ _ Hn Hopt].
  assert (Ho : ini_opt st = Some o) by (unfold open_option in Eo; rewrite Hc in Eo; destruct (ini_opt st) as [o'|]; [by case_match; simplify_eq|done]).
  pose proof (Hopt o Ho) as Hin. unfold append_line.
  destruct (put_inside st s raw r (dset r o (default [] (dget r o) ++ [""])) Hc Hn Es Hraw) as [Hput ->]. rewrite Hput.
  assert (Hr : o ∈ dkeys r) by by rewrite <- dkeys_finish_options, Ep.
  apply dget_is_Some in Hr as [ls Hls]. rewrite Hls. cbn [default from_option id].
  assert (Ef : finish_options (dset r o (ls ++ [""])) = part).
  { rewrite <- Ep. clear -Hls. unfold finish_options. induction r as [|[k l] r IH]; [done|]. cbn [dget dset map] in *.
    case_decide; simplify_eq; cbn [map fst snd]; [by rewrite join_lines_blank|]. by rewrite IH. }
  pose proof (inside_put st sections s part raw r (dset r o (ls ++ [""])) (Some o) [] I Es Er) as K. rewrite Ef in K.
  rewrite Ho. apply K; [done|by intros x y ?%elem_of_nil|by intros x [= <-]].
Qed.

Lemma read_lines_app l k : forall st st', read_lines st l = Ok st' -> read_lines st (l ++ k) = read_lines st' k.
Proof.
  induction l as [|x l IH]; intros st st' H; cbn [app read_lines] in *; [by simplify_eq|].
  destruct (read_line st x) as [st1|] eqn:E; [|done]. cbn [mbind result_bind] in *. by apply IH.
Qed.

Lemma read_options st sections s opts : forall part, inside st sections s part -> dwf (part ++ opts) ->
  Forall (fun kv => key_ok kv.1 = true /\ value_ok kv.2) opts ->
  exists st', read_lines st (map option_line opts) = Ok st' /\ inside st' sections s (part ++ opts).
Proof.
  intros part I Hw H. revert st part I Hw. induction H as [|[k v] opts [Hk Hv] Ho IH]; intros st part I Hw.
  - exists st. by rewrite app_nil_r.
  - cbn [map read_lines]. destruct (step_option st sections s part k v I Hk Hv) as (st1 & E1 & I1).
    { unfold dwf, dkeys in Hw. rewrite map_app, NoDup_app in Hw. destruct Hw as (_ & Hd & _). intros Hin. apply (Hd k Hin). by left. }
    rewrite E1. cbn [mbind result_bind]. destruct (IH st1 (part ++ [(k, v)]) I1) as (st2 & E2 & I2).
    { by rewrite <- app_assoc. }
    exists st2. split; [exact E2|]. by rewrite <- app_assoc in I2.
Qed.

Lemma read_section st sections s opts : reading st sections -> section_ok (s, opts) -> s ∉ dkeys sections ->
  exists st', read_lines st (section_lines (s, opts)) = Ok st' /\ reading st' (sections ++ [(s, opts)]).
Proof.
  intros R (Hh & Hw & Ho) Hs. destruct (step_header st sections s R Hh Hs) as (st1 & E1 & R1 & Hc & Hopt).
  assert (I1 : inside st1 sections s []). { split; try done; [apply Hh|]. intros o. by rewrite Hopt. }
  destruct (read_options st1 sections s opts [] I1 Hw Ho) as (st2 & E2 & I2).
  destruct (step_blank st2 sections s opts I2) as (st3 & E3 & I3).
  exists st3. split; [|apply I3]. unfold section_lines. cbn [fst snd read_lines]. rewrite E1. cbn [mbind result_bind].
  rewrite (read_lines_app _ _ _ _ E2). cbn [read_lines]. by rewrite E3.
Qed.

Lemma read_sections d : forall st sections, reading st sections -> Forall section_ok d -> dwf (sections ++ d) ->
  exists st', read_lines st (concat (map section_lines d)) = Ok st' /\ reading st' (sections ++ d).
Proof.
  induction d as [|[s opts] d IH]; intros st sections R H Hw; [exists st; by rewrite app_nil_r|].
  apply Forall_cons in H as [H1 H2]. destruct (read_section st sections s opts R H1) as (st1 & E1 & R1).
  { unfold dwf, dkeys in Hw. rewrite map_app, NoDup_app in Hw. destruct Hw as (_ & Hd & _). intros Hin. apply (Hd s Hin). by left. }
  cbn [map concat]. rewrite (read_lines_app _ _ _ _ E1). destruct (IH st1 _ R1 H2) as (st2 & E2 & R2); [by rewrite <- app_assoc|].
  exists st2. split; [exact E2|]. by rewrite <- app_assoc in R2.
Qed.

Lemma key_no_newline k : key_ok k = true -> chr 10 ∉ chars k.
Proof. intros (c & l & _ & _ & _ & _ & H & _)%written_plain_key Hin. by apply H in Hin as [_ ?]. Qed.

Lemma section_lines_plain sv : section_ok sv -> Forall (fun l => chr 10 ∉ chars l) (section_lines sv).
Proof.
  intros (Hh & _ & Ho). unfold section_lines. constructor; [|apply Forall_app; split; [|by repeat constructor; apply not_elem_of_nil]].
  - rewrite !chars_app, !not_elem_of_app. split_and!; [|apply Hh|]; by intros ?%list_elem_of_singleton.
  - apply Forall_map. eapply Forall_impl; [exact Ho|]. intros [k v] [Hk [_ Hv]]. unfold option_line. cbn [fst snd] in *.
    rewrite !chars_app, !not_elem_of_app. split_and!; [by apply key_no_newline|vm_compute; set_solver|done].
Qed.

(** Reading what was written gives the sections back. *)
Lemma ini_read_write d : ini_ok d -> ini_read (ini_write d) = Ok d.
Proof.
  intros Hok. pose proof Hok as [Hw H]. unfold ini_read. rewrite (write_lines d Hok). unfold closed_lines. rewrite lines_text.
  2: { clear -H. induction H as [|sv d Hs Hd IH]; [constructor|]. cbn [map concat]. apply Forall_app. split; [by apply section_lines_plain|done]. }
  destruct (read_sections d ini_start []) as (st & E & [Rs Rd _ Rb _ _]); [|done..|].
  { by split; [..|intros ? ?%elem_of_nil|intros ? ? ?%elem_of_nil]. }
  rewrite E. cbn [mbind result_bind]. rewrite Rb, Rd. f_equal. cbn [app] in Rs. rewrite <- Rs. unfold finish_sections.
  apply map_ext. intros [s r]. unfold with_defaults. cbn [fst snd finish_options map List.filter]. by rewrite app_nil_r.
Qed.

(** ** What reading gives *)

(** A value as the file gives it: trimmed, unless it has several lines. *)
Definition file_text (s : string) : Prop := chr 10 ∉ chars s -> strip s = s.

Definition trimmed_lines (ls : list string) : Prop := Forall (fun l => strip l = l) ls.

Definition raw_ok (o : ini_options) : Prop := dwf o /\ Forall (fun kv => trimmed_lines kv.2) o.

Record reader_ok (st : ini_state) : Prop := mkReaderOk {
  ro_sections : dwf (ini_sections st);
  ro_options : Forall (fun sv => raw_ok sv.2) (ini_sections st);
  ro_defaults : raw_ok (ini_defaults st) }.

Lemma Forall_dict_set {V} (P : string * V -> Prop) (d : dict string V) k v : Forall P d -> P (k, v) -> Forall P (dset d k v).
Proof.
  intros H Hk. induction H as [|[k' v'] d Hx Hd IH]; cbn [dset]; [by repeat constructor|].
  case_decide as E; constructor; try done. by rewrite <- E.
Qed.

Lemma Forall_dget {V} (P : string * V -> Prop) (d : dict string V) k v : Forall P d -> dget d k = Some v -> P (k, v).
Proof. intros H Hg. rewrite Forall_forall in H. by apply H, dget_Some_elem_of. Qed.

Lemma raw_ok_dset o k ls : raw_ok o -> trimmed_lines ls -> raw_ok (dset o k ls).
Proof. intros [Hw Hf] Hl. split; [by apply dwf_dset|]. by apply Forall_dict_set. Qed.

Lemma cur_options_ok st : reader_ok st -> raw_ok (cur_options st).
Proof.
  intros [_ Ho Hd]. unfold cur_options. destruct (ini_cur st) as [s|]; [|by split; [apply dwf_nil|constructor]].
  destruct (String.eqb s default_section); [done|]. destruct (dget (ini_sections st) s) as [o|] eqn:E; [|by split; [apply dwf_nil|constructor]].
  by apply (Forall_dget (fun sv => raw_ok sv.2) _ _ _ Ho) in E.
Qed.

Lemma put_options_ok st o : reader_ok st -> raw_ok o -> reader_ok (put_options st o).
Proof.
  intros [Hs Ho Hd] H. unfold put_options. destruct (ini_cur st) as [s|]; [|done]. destruct (String.eqb s default_section); [done|].
  split; cbn; [by apply dwf_dset|by apply Forall_dict_set|done].
Qed.

Lemma append_line_ok st o l : reader_ok st -> strip l = l -> reader_ok (append_line st o l).
Proof.
  intros H Hl. unfold append_line. apply put_options_ok; [done|]. pose proof (cur_options_ok st H) as Hc. apply raw_ok_dset; [done|].
  apply Forall_app. split; [|by repeat constructor]. destruct (dget (cur_options st) o) as [ls|] eqn:E; [|constructor].
  by apply (Forall_dget (fun kv => trimmed_lines kv.2) _ _ _ (proj2 Hc)) in E.
Qed.

Lemma header_or_option_ok st value st' : reader_ok st -> header_or_option st value = Ok st' -> reader_ok st'.
Proof.
  intros H. unfold header_or_option. destruct (section_header value) as [s|].
  - unfold enter_section. destruct H as [Hs Ho Hd]. destruct (dhas (ini_sections st) s); [case_bool_decide; [done|]; by intros [= <-]|].
    destruct (String.eqb s default_section); intros [= <-]; split; cbn; try done; [by apply dwf_dset|].
    apply Forall_dict_set; [done|]. split; [apply dwf_nil|constructor].
  - destruct (ini_cur st) as [s|]; [|done]. unfold enter_option. destruct (split_option value) as [[o v]|] eqn:E; [|intros [= <-]; by destruct H].
    assert (Hv : strip v = v).
    { unfold split_option in E. destruct (drop_while _ _); [done|]. injection E as <- <-. apply strip_strip. }
    set (st1 := if String.eqb o "" then flag_bad st else st). assert (H1 : reader_ok st1) by (unfold st1; destruct (String.eqb o ""), H; done).
    case_bool_decide; [done|]. intros [= <-]. apply put_options_ok; [by destruct H1|]. apply raw_ok_dset; [|by repeat constructor].
    apply cur_options_ok. by destruct H1.
Qed.

Lemma read_line_ok st line st' : reader_ok st -> read_line st line = Ok st' -> reader_ok st'.
Proof.
  intros H. unfold read_line. destruct (is_comment (strip line)); [by intros [= <-]|].
  assert (Hi : forall n, reader_ok (set_indent st n)) by (intros n; by destruct H).
  destruct (String.eqb (strip line) "").
  - intros [= <-]. destruct (open_option st); [|done]. by apply append_line_ok.
  - destruct (open_option st) as [o|]; [destruct (_ <? _)%nat|]; [|by apply header_or_option_ok..].
    intros [= <-]. apply append_line_ok; [done|apply strip_strip].
Qed.

Lemma read_lines_ok ls : forall st st', reader_ok st -> read_lines st ls = Ok st' -> reader_ok st'.
Proof.
  induction ls as [|l ls IH]; intros st st' H; cbn [read_lines]; [by intros [= <-]|].
  destruct (read_line st l) as [st1|] eqn:E; [|done]. cbn [mbind result_bind]. apply IH. by eapply read_line_ok.
Qed.

Lemma rstrip_prefix l : exists k, l = rstrip_by is_space l ++ k.
Proof.
  unfold rstrip_by. destruct (drop_while_suffix is_space (rev l)) as [k Hk]. exists (rev k).
  rewrite <- rev_app_distr, <- Hk. by rewrite rev_involutive.
Qed.

Lemma prefix_before {A} (x : A) (l k a b : list A) : l ++ k = a ++ x :: b -> x ∉ l -> exists c, a = l ++ c.
Proof.
  revert a. induction l as [|y l IH]; intros a H Hx; [by exists a|]. apply not_elem_of_cons in Hx as [Hy Hx].
  destruct a as [|z a]; simplify_eq/=. destruct (IH a) as [c ->]; [done|done|]. by exists c.
Qed.

Lemma join_lines_text ls : trimmed_lines ls -> file_text (join_lines ls).
Proof.
  intros H Hn. unfold join_lines in *. rewrite chars_str in Hn. set (j := join [chr 10] (map chars ls)) in *. apply strip_trimmed.
  assert (Hl : match rev (rstrip_by is_space j) with [] => True | c :: _ => is_space c = false end).
  { unfold rstrip_by. rewrite rev_involutive. apply drop_while_stop. }
  split; [|exact Hl]. destruct (rstrip_prefix j) as [k Hk]. destruct (rstrip_by is_space j) as [|c r] eqn:E; [done|].
  destruct ls as [|x ls]; [done|]. apply Forall_cons in H as [Hx _]. apply trimmed_strip in Hx as [Hx _].
  assert (Hp : exists t, chars x = (c :: r) ++ t).
  { destruct ls as [|y ls]; [exists k; exact Hk|].
    apply (prefix_before (chr 10) (c :: r) k (chars x) (join [chr 10] (map chars (y :: ls)))); [|done]. rewrite <- Hk. unfold j. cbn [map].
    by rewrite join_cons2. }
  destruct Hp as [t Ht]. rewrite Ht in Hx. exact Hx.
Qed.

Lemma finish_options_text o : raw_ok o -> dwf (finish_options o) /\ Forall (fun kv => file_text kv.2) (finish_options o).
Proof.
  intros [Hw Hf]. split; [unfold dwf; by rewrite dkeys_finish_options|]. unfold finish_options. apply Forall_map.
  eapply Forall_impl; [exact Hf|]. intros [k ls] Hl. by apply join_lines_text.
Qed.

Lemma with_defaults_text a b : dwf a /\ Forall (fun kv => file_text kv.2) a -> dwf b /\ Forall (fun kv => file_text kv.2) b ->
  dwf (with_defaults a b) /\ Forall (fun kv => file_text kv.2) (with_defaults a b).
Proof.
  intros [Ha Fa] [Hb Fb]. unfold with_defaults, dwf, dkeys in *. rewrite map_app. split.
  - apply NoDup_app. split_and!; [done| |].
    + intros k Hk Hin. apply list_elem_of_fmap in Hin as ([k' v] & -> & Hin). apply list_elem_of_In, filter_In in Hin as [_ Hn].
      apply negb_true_iff, dhas_false, dget_None in Hn. done.
    + clear -Ha. induction a as [|[k v] a IH]; [constructor|]. cbn [map fst] in Ha. apply NoDup_cons in Ha as [Hk Ha]. cbn [List.filter].
      destruct (negb _); [|by apply IH]. cbn [map fst]. apply NoDup_cons. split; [|by apply IH].
      intros Hin. apply Hk. apply list_elem_of_fmap in Hin as ([k' v'] & -> & Hin). apply list_elem_of_In, filter_In in Hin as [Hin _].
      apply list_elem_of_fmap. exists (k', v'). split; [done|]. by apply list_elem_of_In.
  - apply Forall_app. split; [done|]. rewrite Forall_forall in Fa. apply Forall_forall. intros x Hx%list_elem_of_In.
    apply filter_In in Hx as [Hx _]. apply Fa. by apply list_elem_of_In.
Qed.

(** A file that reads gives sections without repetition, and values without
    outer spaces unless they run over several lines. *)
Lemma ini_read_text t d : ini_read t = Ok d -> dwf d /\ Forall (fun sv => dwf sv.2 /\ Forall (fun kv => file_text kv.2) sv.2) d.
Proof.
  unfold ini_read. destruct (read_lines ini_start (text_lines t)) as [st|] eqn:E; [|done]. cbn [mbind result_bind].
  apply read_lines_ok in E as [Hs Ho Hd]; [|by split; [apply dwf_nil|constructor|split; [apply dwf_nil|constructor]]].
  destruct (ini_bad st); [done|]. intros [= <-]. split.
  - unfold dwf, dkeys. rewrite map_map. exact Hs.
  - apply Forall_map. eapply Forall_impl; [exact Ho|]. intros [s o] Hr. cbn [fst snd]. apply with_defaults_text; by apply finish_options_text.
Qed.

(** Reading raises parsing and duplicate errors only. *)
Lemma ini_read_errors t e : ini_read t = Raise e -> e = ParsingError \/ e = DuplicateSectionError \/ e = DuplicateOptionError.
Proof.
  unfold ini_read. destruct (read_lines ini_start (text_lines t)) as [st|e'] eqn:E; cbn [mbind result_bind];
    [destruct (ini_bad st); [|done]; intros [= <-]; by left|]. intros [= <-]. revert E. generalize ini_start.
  induction (text_lines t) as [|l ls IH]; intros st; cbn [read_lines]; [done|]. destruct (read_line st l) as [st1|e1] eqn:E1; cbn [mbind result_bind]; [apply IH|].
  intros [= <-]. clear IH. assert (K : forall st v, header_or_option st v = Raise e1 -> e1 = ParsingError \/ e1 = DuplicateSectionError \/ e1 = DuplicateOptionError).
  { clear. intros st v. unfold header_or_option, enter_section, enter_option. repeat case_match; intros [= <-]; auto. }
  unfold read_line in E1. destruct (is_comment _); [done|]. destruct (String.eqb _ _); [done|].
  destruct (open_option st); [destruct (_ <? _)%nat; [done|]|]; by apply K in E1.
Qed.
