(* ===== verification/Config.v ===== *)
(** * Configuration ([common/config.py])

    The settings of the service: checkers and converters of single values, the
    eight sections with their property tables, construction from a dictionary
    with the migrations of older files, and the text file.  A value is [None],
    a [bool], an [int] or a [str]; floats and containers, which no property
    table uses, are outside the model.  An [int] above the interpreter's limit
    of decimal digits cannot be formatted ([ValueError]). *)

From S2P Require Import Prelude PyDict PyStr Json Ini.

Inductive cval :=
  | VNone
  | VBool (b : bool)
  | VInt (z : Z)
  | VStr (s : string).

#[export] Instance cval_eq_dec : EqDecision cval.
Proof. solve_decision. Defined.

Definition truthy (v : cval) : bool :=
  match v with VNone => false | VBool b => b | VInt z => negb (z =? 0) | VStr s => negb (String.eqb s "") end.

(** Operand of an integer comparison: [bool] is an [int] *)
Definition as_int (v : cval) : result Z :=
  match v with VInt z => Ok z | VBool b => Ok (if b then 1 else 0) | _ => Raise TypeError end.

(** [str(v)] *)
Definition py_str (v : cval) : result string :=
  match v with
  | VNone => Ok "None"
  | VBool b => Ok (if b then "True" else "False")
  | VInt z => if (max_int_digits <? length (show_int (Z.abs z)))%nat then Raise ValueError else Ok (str (show_int z))
  | VStr s => Ok s
  end.

(** [str.upper]; the upper case of two characters lies above code point 255 *)
Definition upper_char (c : ascii) : list ascii :=
  let n := ord c in
  if n =? 223 then chars "SS"
  else if ((97 <=? n) && (n <=? 122)) || ((224 <=? n) && (n <=? 254) && negb (n =? 247)) then [chr (n - 32)] else [c].
Definition upper (s : string) : string := str (concat (map upper_char (chars s))).

Definition _strtobool (value : string) : option bool :=
  let l := lower value in
  if bool_decide (l ∈ ["y"; "yes"; "t"; "true"; "on"; "1"]) then Some true
  else if bool_decide (l ∈ ["n"; "no"; "f"; "false"; "off"; "0"]) then Some false
  else None.

Definition _LOG_LEVEL_VALUES : list string := ["DEBUG"; "INFO"; "WARNING"; "ERROR"; "CRITICAL"].
Definition _LOG_FORMAT_VALUES : list string := ["standard"; "json"].
Definition _TRANSFER_PROTOCOL_VALUES : list string := ["sftp"; "ftps"].
Definition _TRANSFER_BACKEND_VALUES : list string := ["lftp"; "rclone"].
Definition _BREADCRUMB_POLICY_LEVELS : list string := ["off"; "error"; "warning"; "info"; "debug"; "trace"].
Definition DEFAULT_BREADCRUMB_TRACE_MEMORY_BUDGET_BYTES : Z := 256 * 1024 * 1024.
Definition DEFAULT_BREADCRUMB_TRACE_MAX_ENTRIES : Z := 0.
Definition DEFAULT_BREADCRUMB_TRACE_POLICY : string := "{}".

(** ** The breadcrumb policy *)

(** [item.split("=", 1)], both parts stripped *)
Definition split_rule (item : string) : option (string * string) :=
  let no_eq := fun c => negb (ord c =? 61) in
  match drop_while no_eq (chars item) with
  | _ :: r => Some (strip (str (take_while no_eq (chars item))), strip (str r))
  | [] => None
  end.

Fixpoint compact_rules (items : list string) (rules : dict string string) (dflt : option string) :
    string + (dict string string * option string) :=
  match items with
  | [] => inr (rules, dflt)
  | i :: is' =>
      match split_rule (strip i) with
      | None => inl "policy entries must use category=level"
      | Some (category, level) =>
          if String.eqb category "" || String.eqb level "" then inl "policy categories and levels must be non-empty"
          else if bool_decide (category ∈ ["*"; "default"; "default_level"]) then compact_rules is' rules (Some level)
          else compact_rules is' (dset rules category level) dflt
      end
  end.

(** [candidate.get(a, candidate.get(b, d))] *)
Definition get_either (o : dict string json) (a b : string) (d : json) : json :=
  match dget o a with Some v => v | None => default d (dget o b) end.

Definition policy_level (v : json) : option string :=
  match v with
  | JStr s => if bool_decide (lower (strip s) ∈ _BREADCRUMB_POLICY_LEVELS) then Some (lower (strip s)) else None
  | _ => None
  end.

Definition is_control (c : ascii) : bool := (ord c <? 32) || (ord c =? 127).

Fixpoint policy_rules (raw : dict string json) (rules : dict string string) : string + dict string string :=
  match raw with
  | [] => inr rules
  | (category, raw_level) :: raw' =>
      if String.eqb (strip category) "" then inl "policy categories must be non-empty strings"
      else if existsb is_control (chars category) then inl "policy categories must not contain control characters"
      else
        let raw_level := match raw_level with JObj o => get_either o "level" "value" JNull | _ => raw_level end in
        match policy_level raw_level with
        | None => inl ("policy level for " +:+ category +:+ " is invalid")
        | Some level => policy_rules raw' (dset rules (strip category) level)
        end
  end.

Definition key_le {V} (a b : string * V) : Prop := String.le a.1 b.1.
#[export] Instance key_le_dec {V} (a b : string * V) : Decision (key_le a b).
Proof. unfold key_le. apply _. Defined.

Definition check_candidate (candidate : dict string json) : string + (string * dict string string) :=
  match policy_level (get_either candidate "default" "default_level" (JStr "info")) with
  | None => inl "policy default level is invalid"
  | Some dflt =>
      let raw_rules :=
        match get_either candidate "rules" "categories" JNull with
        | JNull => JObj (List.filter (fun kv => negb (bool_decide (kv.1 ∈ ["default"; "default_level"; "rules"; "categories"]))) candidate)
        | v => v
        end in
      match raw_rules with
      | JObj raw =>
          match policy_rules raw [] with
          | inl e => inl e
          | inr rules => inr (dflt, merge_sort key_le rules)
          end
      | _ => inl "policy rules must be an object"
      end
  end.

Definition strings_obj (d : dict string string) : json := JObj (map (fun kv => (kv.1, JStr kv.2)) d).

(** [inl]: the [ValueError] with its message *)
Definition parse_breadcrumb_trace_policy (value : string) : string + json :=
  let serialized := strip value in
  if String.eqb serialized "" then inl "policy is empty"
  else
    match loads serialized with
    | Some (JObj candidate) =>
        match check_candidate candidate with inl e => inl e | inr _ => inr (JObj candidate) end
    | Some _ => inl "policy must be a JSON object or category=level list"
    | None =>
        match compact_rules (split "," serialized) [] None with
        | inl e => inl e
        | inr (rules, dflt) =>
            let candidate := [("default", JStr (default "info" dflt)); ("rules", strings_obj rules)] in
            match check_candidate candidate with
            | inl e => inl e
            | inr (d, rs) => inr (JObj [("default", JStr d); ("rules", strings_obj rs)])
            end
        end
    end.

(** ** Normalisers *)

Definition bad (config_cls name : string) (what : string) : exn := ConfigError ("Bad config: " +:+ config_cls +:+ "." +:+ name +:+ " " +:+ what).

(** [ConfigError] whose message shows the value *)
Definition refuse {A} (config_cls name : string) (value : cval) (what : string) : result A :=
  t ← py_str value; Raise (bad config_cls name ("(" +:+ t +:+ ") " +:+ what)).

Definition empty_value {A} (config_cls name : string) : result A := Raise (bad config_cls name "is empty").

(** The common shape of the three enumerated settings. *)
Definition one_of (norm : string -> string) (values : list string) (kind what : string) (config_cls name : string) (value : cval) : result cval :=
  match value with
  | VStr s =>
      let normalized := norm (strip s) in
      if String.eqb normalized "" then empty_value config_cls name
      else if bool_decide (normalized ∈ values) then Ok (VStr normalized)
      else refuse config_cls name value what
  | _ => refuse config_cls name value kind
  end.

Definition _normalize_log_level : string -> string -> cval -> result cval :=
  one_of upper _LOG_LEVEL_VALUES "must be a log level value" "must be one of DEBUG, INFO, WARNING, ERROR, or CRITICAL".

Definition _normalize_log_format : string -> string -> cval -> result cval :=
  one_of lower _LOG_FORMAT_VALUES "must be either standard or json" "must be either standard or json".

Definition _normalize_transfer_protocol : string -> string -> cval -> result cval :=
  one_of lower _TRANSFER_PROTOCOL_VALUES "must be either sftp or ftps" "must be either sftp or ftps".

Definition _normalize_transfer_backend (value : cval) : cval :=
  match value with
  | VStr s =>
      let normalized := lower (strip s) in
      if String.eqb normalized "" then VStr "lftp"
      else if bool_decide (normalized ∈ _TRANSFER_BACKEND_VALUES) then VStr normalized else VStr "lftp"
  | _ => VStr "lftp"
  end.

Definition _normalize_remote_python_path (config_cls name : string) (value : cval) : result cval :=
  match value with
  | VNone => Ok (VStr "python3")
  | VStr s => let normalized := strip s in Ok (VStr (if String.eqb normalized "" then "python3" else normalized))
  | _ => refuse config_cls name value "must be a string value"
  end.

Definition _reject_control_characters (config_cls name : string) (value : cval) : result cval :=
  match value with
  | VStr s => if existsb is_control (chars s) then Raise (bad config_cls name "contains control characters") else Ok value
  | _ => Raise TypeError
  end.

(** ** [Converters]: from the text of a value *)

Definition converter : Type := string -> string -> string -> result cval.

Module Converters.

Definition null : converter := fun _ _ value => Ok (VStr value).

Definition int : converter := fun config_cls name value =>
  if String.eqb value "" then empty_value config_cls name
  else match py_int value with
       | Some z => Ok (VInt z)
       | None => refuse config_cls name (VStr value) "must be an integer value"
       end.

Definition bool : converter := fun config_cls name value =>
  if String.eqb value "" then empty_value config_cls name
  else match _strtobool value with
       | Some b => Ok (VBool b)
       | None => refuse config_cls name (VStr value) "must be a boolean value"
       end.

Definition log_level : converter := fun config_cls name value => _normalize_log_level config_cls name (VStr value).
Definition transfer_protocol : converter := fun config_cls name value => _normalize_transfer_protocol config_cls name (VStr value).
Definition transfer_backend : converter := fun _ _ value => Ok (_normalize_transfer_backend (VStr value)).
Definition remote_python_path : converter := fun config_cls name value => _normalize_remote_python_path config_cls name (VStr value).

End Converters.

(** ** [Checkers]: of a native value *)

Definition checker : Type := string -> string -> cval -> result cval.

(** [value.strip()] *)
Definition strip_value (v : cval) : result string :=
  match v with VStr s => Ok (strip s) | _ => Raise AttributeError end.

Module Checkers.

Definition null : checker := fun _ _ value => Ok value.

Definition bool_value : checker := fun config_cls name value =>
  match value with VBool _ => Ok value | _ => refuse config_cls name value "must be a boolean value" end.

Definition string_nonempty : checker := fun config_cls name value =>
  if negb (truthy value) then empty_value config_cls name
  else t ← strip_value value; if String.eqb t "" then empty_value config_cls name else Ok value.

Definition string_nonempty_no_control_chars : checker := fun config_cls name value =>
  v ← string_nonempty config_cls name value; _reject_control_characters config_cls name v.

Definition string_allow_empty : checker := fun config_cls name value =>
  if bool_decide (value = VStr "") then Ok value
  else if negb (truthy value) then empty_value config_cls name
  else t ← strip_value value; if String.eqb t "" then empty_value config_cls name else Ok value.

Definition string_allow_empty_no_control_chars : checker := fun config_cls name value =>
  v ← string_allow_empty config_cls name value; _reject_control_characters config_cls name v.

Definition notification_provider : checker := fun config_cls name value =>
  match value with
  | VStr s => if bool_decide (lower (strip s) ∈ ["webhook"; "apprise"]) then Ok (VStr (lower (strip s)))
              else Raise (bad config_cls name "must be webhook or apprise")
  | _ => Raise (bad config_cls name "must be webhook or apprise")
  end.

Definition log_level : checker := _normalize_log_level.
Definition log_format : checker := _normalize_log_format.
Definition transfer_protocol : checker := _normalize_transfer_protocol.
Definition transfer_backend : checker := fun _ _ value => Ok (_normalize_transfer_backend value).
Definition remote_python_path : checker := _normalize_remote_python_path.

Definition int_non_negative : checker := fun config_cls name value =>
  z ← as_int value; if z <? 0 then refuse config_cls name value "must be zero or greater" else Ok value.

Definition int_non_negative_max (max_val : Z) : checker := fun config_cls name value =>
  z ← as_int value;
  if z <? 1 then refuse config_cls name value "must be greater than 0"
  else if max_val <? z then refuse config_cls name value ("must not exceed " +:+ str (show_int max_val) +:+ " (FD_SETSIZE limit)")
  else Ok value.

Definition breadcrumb_trace_policy : checker := fun config_cls name value =>
  match value with
  | VStr s =>
      normalized ← _reject_control_characters config_cls name (VStr (strip s));
      if negb (truthy normalized) then empty_value config_cls name
      else match parse_breadcrumb_trace_policy (strip s) with
           | inl error => refuse config_cls name value ("is invalid: " +:+ error)
           | inr _ => Ok normalized
           end
  | _ => refuse config_cls name value "must be a serialized policy string"
  end.

Definition int_positive : checker := fun config_cls name value =>
  z ← as_int value; if z <? 1 then refuse config_cls name value "must be greater than 0" else Ok value.

Definition breadcrumb_trace_memory_budget : checker := fun config_cls name value =>
  match value with
  | VInt z => if z <? 1 then refuse config_cls name value "must be greater than 0" else Ok value
  | _ => refuse config_cls name value "must be greater than 0"
  end.

Definition breadcrumb_trace_max_entries : checker := fun config_cls name value =>
  match value with
  | VInt z => if z <? 0 then refuse config_cls name value "must be zero or greater" else Ok value
  | _ => refuse config_cls name value "must be zero or greater"
  end.

Definition int_range (min_val max_val : Z) : checker := fun config_cls name value =>
  let out := refuse config_cls name value ("must be between " +:+ str (show_int min_val) +:+ " and " +:+ str (show_int max_val)) in
  match value with
  | VInt z => if (z <? min_val) || (max_val <? z) then out else Ok value
  | _ => out
  end.

(** [_BYTE_SIZE_VALUE_RE] *)
Definition byte_size_match (l : list ascii) : bool :=
  match take_while is_digit l, drop_while is_digit l with
  | _ :: _, [] => true
  | _ :: _, [c] => bool_decide (lower_char c ∈ chars "kmg")
  | _, _ => false
  end.

(** [normalized[:-1] + suffix.upper()] when the last character is a letter *)
Definition upper_suffix (l : list ascii) : list ascii :=
  match rev l with
  | c :: r => if bool_decide (lower_char c ∈ chars "kmg") then rev r ++ upper_char c else l
  | [] => l
  end.

Definition byte_size_text (config_cls name s : string) : result cval :=
  if String.eqb s "" then Ok (VStr s)
  else
    let normalized := strip s in
    if String.eqb normalized "" then empty_value config_cls name
    else if byte_size_match (chars normalized) then Ok (VStr (str (upper_suffix (chars normalized))))
    else refuse config_cls name (VStr s) "must be a byte size value like 512K, 8M, 1G, or 8388608".

Definition byte_size_or_empty : checker := fun config_cls name value =>
  match value with
  | VInt _ => s ← py_str value; byte_size_text config_cls name s
  | VStr s => byte_size_text config_cls name s
  | _ => refuse config_cls name value "must be a byte size value"
  end.

End Checkers.

(** ** Sections and their property tables *)

Inductive section := General | Lftp | Validate | Controller | Web | AutoQueue | Logging | Notifications.

#[export] Instance section_eq_dec : EqDecision section.
Proof. solve_decision. Defined.

Definition cls_name (sec : section) : string :=
  match sec with
  | General => "General" | Lftp => "Lftp" | Validate => "Validate" | Controller => "Controller" | Web => "Web"
  | AutoQueue => "AutoQueue" | Logging => "Logging" | Notifications => "Notifications"
  end.

Record PropMetadata := mkProp { prop_checker : checker; prop_converter : converter }.

Definition PROP (name : string) (ck : checker) (cv : converter) : string * PropMetadata := (name, mkProp ck cv).

(** Properties in the order of their creation. *)
Definition general_properties : dict string PropMetadata :=
  [ PROP "log_level" Checkers.log_level Converters.log_level;
    PROP "verbose" Checkers.null Converters.bool;
    PROP "exclude_patterns" Checkers.string_allow_empty Converters.null;
    PROP "api_token" Checkers.null Converters.null;
    PROP "allowed_hostname" Checkers.null Converters.null;
    PROP "browser_handover_recovery_version" Checkers.null Converters.null;
    PROP "disable_browser_auth" Checkers.bool_value Converters.bool;
    PROP "breadcrumb_trace_enabled" Checkers.bool_value Converters.bool;
    PROP "breadcrumb_trace_memory_budget_bytes" Checkers.breadcrumb_trace_memory_budget Converters.int;
    PROP "breadcrumb_trace_max_entries" Checkers.breadcrumb_trace_max_entries Converters.int;
    PROP "breadcrumb_trace_policy" Checkers.breadcrumb_trace_policy Converters.null;
    PROP "performance_diagnostics_enabled" Checkers.bool_value Converters.bool;
    PROP "performance_diagnostics_retention_depth" (Checkers.int_range 1 240) Converters.int;
    PROP "performance_diagnostics_sample_interval_seconds" (Checkers.int_range 1 3600) Converters.int;
    PROP "py_spy_enabled" Checkers.bool_value Converters.bool;
    PROP "config_api_redact_remote_details" Checkers.bool_value Converters.bool ].

Definition lftp_properties : dict string PropMetadata :=
  [ PROP "transfer_backend" Checkers.transfer_backend Converters.transfer_backend;
    PROP "remote_address" Checkers.string_nonempty_no_control_chars Converters.null;
    PROP "remote_username" Checkers.string_nonempty_no_control_chars Converters.null;
    PROP "remote_password" Checkers.string_allow_empty_no_control_chars Converters.null;
    PROP "remote_port" Checkers.int_positive Converters.int;
    PROP "remote_path" Checkers.string_nonempty Converters.null;
    PROP "local_path" Checkers.string_nonempty Converters.null;
    PROP "remote_path_to_scan_script" Checkers.string_nonempty Converters.null;
    PROP "remote_python_path" Checkers.remote_python_path Converters.remote_python_path;
    PROP "use_ssh_key" Checkers.null Converters.bool;
    PROP "num_max_parallel_downloads" Checkers.int_positive Converters.int;
    PROP "num_max_parallel_files_per_download" Checkers.int_positive Converters.int;
    PROP "num_max_connections_per_root_file" Checkers.int_positive Converters.int;
    PROP "num_max_connections_per_dir_file" Checkers.int_positive Converters.int;
    PROP "num_max_total_connections" (Checkers.int_non_negative_max 32) Converters.int;
    PROP "use_temp_file" Checkers.null Converters.bool;
    PROP "rate_limit" Checkers.null Converters.null;
    PROP "net_socket_buffer" Checkers.byte_size_or_empty Converters.null;
    PROP "staging_path" Checkers.null Converters.null;
    PROP "protocol" Checkers.transfer_protocol Converters.transfer_protocol;
    PROP "remote_ftp_port" Checkers.int_positive Converters.int;
    PROP "ftp_ssl_verify_certificate" Checkers.bool_value Converters.bool;
    PROP "use_legacy_lftp_password_argv" Checkers.bool_value Converters.bool ].

Definition validate_properties : dict string PropMetadata := [ PROP "xfer_verify" Checkers.bool_value Converters.bool ].

Definition controller_properties : dict string PropMetadata :=
  [ PROP "interval_ms_remote_scan" Checkers.int_positive Converters.int;
    PROP "interval_ms_local_scan" Checkers.int_positive Converters.int;
    PROP "interval_ms_downloading_scan" Checkers.int_positive Converters.int;
    PROP "extract_path" Checkers.string_nonempty Converters.null;
    PROP "use_local_path_as_extract_path" Checkers.null Converters.bool;
    PROP "managed_extract_folders_enabled" Checkers.null Converters.bool ].

Definition web_properties : dict string PropMetadata := [ PROP "port" Checkers.int_positive Converters.int ].

Definition autoqueue_properties : dict string PropMetadata :=
  [ PROP "enabled" Checkers.null Converters.bool;
    PROP "patterns_only" Checkers.null Converters.bool;
    PROP "auto_extract" Checkers.null Converters.bool;
    PROP "auto_delete_remote" Checkers.bool_value Converters.bool ].

Definition logging_properties : dict string PropMetadata := [ PROP "log_format" Checkers.log_format Converters.null ].

Definition notifications_properties : dict string PropMetadata :=
  [ PROP "enabled" Checkers.bool_value Converters.bool;
    PROP "provider" Checkers.notification_provider Converters.null;
    PROP "webhook_url" Checkers.string_allow_empty Converters.null;
    PROP "hmac_secret" Checkers.string_allow_empty Converters.null;
    PROP "apprise_url" Checkers.string_allow_empty Converters.null;
    PROP "apprise_tag" Checkers.string_allow_empty Converters.null;
    PROP "allow_private_networks" Checkers.bool_value Converters.bool;
    PROP "download_start" Checkers.bool_value Converters.bool;
    PROP "download_complete" Checkers.bool_value Converters.bool;
    PROP "extraction_complete" Checkers.bool_value Converters.bool;
    PROP "delete_complete" Checkers.bool_value Converters.bool ].

Definition properties (sec : section) : dict string PropMetadata :=
  match sec with
  | General => general_properties | Lftp => lftp_properties | Validate => validate_properties | Controller => controller_properties
  | Web => web_properties | AutoQueue => autoqueue_properties | Logging => logging_properties | Notifications => notifications_properties
  end.

(** The assignments of each [__init__], in order. *)
Definition general_init : list (string * cval) :=
  [ ("log_level", VStr "INFO"); ("verbose", VNone); ("exclude_patterns", VStr ""); ("api_token", VNone);
    ("allowed_hostname", VNone); ("browser_handover_recovery_version", VNone); ("disable_browser_auth", VBool false);
    ("breadcrumb_trace_enabled", VBool false);
    ("breadcrumb_trace_memory_budget_bytes", VInt DEFAULT_BREADCRUMB_TRACE_MEMORY_BUDGET_BYTES);
    ("breadcrumb_trace_max_entries", VInt DEFAULT_BREADCRUMB_TRACE_MAX_ENTRIES);
    ("breadcrumb_trace_policy", VStr DEFAULT_BREADCRUMB_TRACE_POLICY); ("performance_diagnostics_enabled", VBool false);
    ("performance_diagnostics_retention_depth", VInt 120); ("performance_diagnostics_sample_interval_seconds", VInt 5);
    ("py_spy_enabled", VBool false); ("config_api_redact_remote_details", VBool true) ].

Definition lftp_init : list (string * cval) :=
  [ ("transfer_backend", VStr "lftp"); ("remote_address", VNone); ("remote_username", VNone); ("remote_password", VNone);
    ("remote_port", VNone); ("remote_path", VNone); ("local_path", VNone); ("remote_path_to_scan_script", VNone);
    ("remote_python_path", VStr "python3"); ("use_ssh_key", VNone); ("num_max_parallel_downloads", VNone);
    ("num_max_parallel_files_per_download", VNone); ("num_max_connections_per_root_file", VNone);
    ("num_max_connections_per_dir_file", VNone); ("num_max_total_connections", VNone); ("use_temp_file", VNone);
    ("rate_limit", VNone); ("net_socket_buffer", VNone); ("staging_path", VNone); ("protocol", VStr "sftp");
    ("remote_ftp_port", VInt 21); ("ftp_ssl_verify_certificate", VBool true); ("use_legacy_lftp_password_argv", VBool false) ].

Definition validate_init : list (string * cval) := [ ("xfer_verify", VBool true) ].

Definition controller_init : list (string * cval) :=
  [ ("interval_ms_remote_scan", VNone); ("interval_ms_local_scan", VNone); ("interval_ms_downloading_scan", VNone);
    ("extract_path", VNone); ("use_local_path_as_extract_path", VNone); ("managed_extract_folders_enabled", VBool true) ].

Definition web_init : list (string * cval) := [ ("port", VNone) ].

Definition autoqueue_init : list (string * cval) := [ ("enabled", VNone); ("patterns_only", VNone); ("auto_extract", VNone); ("auto_delete_remote", VBool false) ].

Definition logging_init : list (string * cval) := [ ("log_format", VStr "standard") ].

Definition notifications_init : list (string * cval) :=
  [ ("enabled", VBool false); ("provider", VStr "webhook"); ("webhook_url", VStr ""); ("hmac_secret", VStr "");
    ("apprise_url", VStr ""); ("apprise_tag", VStr ""); ("allow_private_networks", VBool false); ("download_start", VBool false);
    ("download_complete", VBool true); ("extraction_complete", VBool true); ("delete_complete", VBool true) ].

Definition init_values (sec : section) : list (string * cval) :=
  match sec with
  | General => general_init | Lftp => lftp_init | Validate => validate_init | Controller => controller_init
  | Web => web_init | AutoQueue => autoqueue_init | Logging => logging_init | Notifications => notifications_init
  end.

(** ** [InnerConfig] *)

(** The instance attributes of a section object. *)
Definition attrs : Type := dict string cval.

Definition _get_property (st : attrs) (name : string) : cval := default VNone (dget st name).

Definition inner_set_property (sec : section) (st : attrs) (name : string) (value : cval) (ck : checker) : result attrs :=
  if bool_decide (value = VNone) && bool_decide (_get_property st name = VNone) then Ok (dset st name VNone)
  else v ← ck (cls_name sec) name value; Ok (dset st name v).

(** [_set_property], with the override of [Lftp] *)
Definition _set_property (sec : section) (st : attrs) (name : string) (value : cval) (ck : checker) : result attrs :=
  st ← inner_set_property sec st name value ck;
  match sec with
  | Lftp =>
      if bool_decide (name ∈ ["transfer_backend"; "protocol"]) && bool_decide (_get_property st "transfer_backend" = VStr "rclone")
         && negb (bool_decide (_get_property st "protocol" = VStr "sftp"))
      then inner_set_property sec st "protocol" (VStr "sftp") Checkers.transfer_protocol
      else Ok st
  | _ => Ok st
  end.

(** [self.name = value] for a property [name] *)
Definition assign (sec : section) (st : attrs) (name : string) (value : cval) : result attrs :=
  match dget (properties sec) name with
  | Some p => _set_property sec st name value (prop_checker p)
  | None => Raise AttributeError
  end.

Fixpoint assign_all (sec : section) (st : attrs) (vs : list (string * cval)) : result attrs :=
  match vs with
  | [] => Ok st
  | (name, v) :: vs' => st ← assign sec st name v; assign_all sec st vs'
  end.

(** [cls()] *)
Definition new (sec : section) : result attrs := assign_all sec [] (init_values sec).

Definition inner_has_property (sec : section) (name : string) : bool := dhas (properties sec) name.

Definition has_property (sec : section) (name : string) : bool :=
  match sec with
  | General => String.eqb name "debug" || inner_has_property sec name
  | _ => inner_has_property sec name
  end.

(** [InnerConfig.set_property]; [name] is a property or no attribute of the
    class, as the callers' [has_property] ensures. *)
Definition inner_set (sec : section) (st : attrs) (name : string) (value : cval) : result attrs :=
  match dget (properties sec) name with
  | None => Raise AttributeError
  | Some p =>
      native ← match value with VStr s => prop_converter p (cls_name sec) name s | _ => Ok value end;
      _set_property sec st name native (prop_checker p)
  end.

(** [set_property], with the override of [General] *)
Definition set_property (sec : section) (st : attrs) (name : string) (value : cval) : result attrs :=
  match sec with
  | General =>
      if String.eqb name "debug" then
        v ← match value with VStr s => Converters.bool (cls_name sec) name s | _ => Ok value end;
        v ← Checkers.bool_value (cls_name sec) name v;
        inner_set sec st "log_level" (VStr (if truthy v then "DEBUG" else "INFO"))
      else inner_set sec st name value
  | _ => inner_set sec st name value
  end.

(** [dir(cls)] is sorted *)
Definition dir_properties (sec : section) : list string := merge_sort String.le (dkeys (properties sec)).

Fixpoint set_all (sec : section) (st : attrs) (config_dict : dict string cval) (names : list string) : result (attrs * dict string cval) :=
  match names with
  | [] => Ok (st, config_dict)
  | name :: names' =>
      match dget config_dict name with
      | None => Raise (ConfigError ("Missing config: " +:+ cls_name sec +:+ "." +:+ name))
      | Some v => st ← set_property sec st name v; set_all sec st (dpop config_dict name) names'
      end
  end.

Definition inner_from_dict (sec : section) (config_dict : dict string cval) : result attrs :=
  st ← new sec;
  r ← set_all sec st config_dict (dir_properties sec);
  match r.2 with
  | [] => Ok r.1
  | (k, _) :: _ => Raise (ConfigError ("Unknown config: " +:+ cls_name sec +:+ "." +:+ k))
  end.

Definition inner_as_dict (sec : section) (st : attrs) : dict string cval :=
  map (fun p => (p.1, _get_property st p.1)) (properties sec).

(** ** Migration of older dictionaries, per section *)

(** [if k not in d: d[k] = v] *)
Definition set_missing (k : string) (v : cval) (d : dict string cval) : dict string cval := if dhas d k then d else dset d k v.

Definition migrate_log_level (d : dict string cval) : result (dict string cval) :=
  if dhas d "log_level" then Ok (dpop d "debug")
  else match dget d "debug" with
       | Some v =>
           b ← match v with
               | VStr s => Converters.bool (cls_name General) "debug" s
               | _ => Checkers.bool_value (cls_name General) "debug" v
               end;
           Ok (dset (dpop d "debug") "log_level" (VStr (if truthy b then "DEBUG" else "INFO")))
       | None => Ok (dset d "log_level" (VStr "INFO"))
       end.

(** A renamed key: the old value when the new key is missing, else dropped *)
Definition renamed (old key : string) (v : cval) (d : dict string cval) : dict string cval :=
  if dhas d key then dpop d old
  else let legacy := default VNone (dget d old) in dset (dpop d old) key (if bool_decide (legacy = VNone) then v else legacy).

Definition general_migrate (d : dict string cval) : result (dict string cval) :=
  let d := dpop d "trusted_browser_bootstrap_remote_addrs" in
  let d := set_missing "exclude_patterns" (VStr "") d in
  let d := set_missing "api_token" (VStr "") d in
  let d := set_missing "allowed_hostname" (VStr "") d in
  let d := set_missing "browser_handover_recovery_version" (VStr "") d in
  let d := set_missing "disable_browser_auth" (VBool false) d in
  d ← migrate_log_level d;
  let d := set_missing "breadcrumb_trace_enabled" (VBool false) d in
  let d := set_missing "breadcrumb_trace_memory_budget_bytes" (VInt DEFAULT_BREADCRUMB_TRACE_MEMORY_BUDGET_BYTES) d in
  let d := renamed "breadcrumb_trace_retention_depth" "breadcrumb_trace_max_entries" (VInt DEFAULT_BREADCRUMB_TRACE_MAX_ENTRIES) d in
  let d := renamed "breadcrumb_trace_serialization_policy" "breadcrumb_trace_policy" (VStr DEFAULT_BREADCRUMB_TRACE_POLICY) d in
  let d := set_missing "performance_diagnostics_enabled" (VBool false) d in
  let d := set_missing "performance_diagnostics_retention_depth" (VInt 120) d in
  let d := set_missing "performance_diagnostics_sample_interval_seconds" (VInt 5) d in
  let d := set_missing "py_spy_enabled" (VBool false) d in
  Ok (set_missing "config_api_redact_remote_details" (VBool true) d).

Definition lftp_migrate (d : dict string cval) : dict string cval :=
  let d := set_missing "transfer_backend" (VStr "lftp") d in
  let d := set_missing "rate_limit" (VStr "0") d in
  let d := set_missing "remote_python_path" (VStr "python3") d in
  let d := set_missing "net_socket_buffer" (VStr "8M") d in
  let d := set_missing "staging_path" (VStr "") d in
  let d := set_missing "protocol" (VStr "sftp") d in
  let d := set_missing "remote_ftp_port" (VInt 21) d in
  let d := set_missing "ftp_ssl_verify_certificate" (VBool true) d in
  let d := set_missing "use_legacy_lftp_password_argv" (VBool false) d in
  let backend := _normalize_transfer_backend (default VNone (dget d "transfer_backend")) in
  let d := dset d "transfer_backend" backend in
  if bool_decide (backend = VStr "rclone") then dset d "protocol" (VStr "sftp") else d.

Definition logging_migrate (d : dict string cval) : dict string cval :=
  match dget d "log_format" with
  | None => dset d "log_format" (VStr "standard")
  | Some (VStr s) => if String.eqb (strip s) "" then dset d "log_format" (VStr "standard") else d
  | Some _ => d
  end.

Definition migrate (sec : section) (d : dict string cval) : result (dict string cval) :=
  match sec with
  | General => general_migrate d
  | Lftp => Ok (lftp_migrate d)
  | Validate => Ok (set_missing "xfer_verify" (VBool true) d)
  | Controller => Ok (set_missing "managed_extract_folders_enabled" (VBool true) d)
  | Web => Ok d
  | AutoQueue => Ok (set_missing "auto_delete_remote" (VBool false) d)
  | Logging => Ok (logging_migrate d)
  | Notifications => st ← new Notifications; Ok (dupdate (inner_as_dict Notifications st) d)
  end.

(** [cls.from_dict] *)
Definition section_from_dict (sec : section) (d : dict string cval) : result attrs :=
  d ← migrate sec d; inner_from_dict sec d.

(** ** [Config] *)

Record config := mkConfig {
  file_path : option string;
  general : attrs; lftp : attrs; validate : attrs; controller : attrs; web : attrs; autoqueue : attrs; logging : attrs; notifications : attrs }.

Definition section_of (c : config) (sec : section) : attrs :=
  match sec with
  | General => general c | Lftp => lftp c | Validate => validate c | Controller => controller c | Web => web c
  | AutoQueue => autoqueue c | Logging => logging c | Notifications => notifications c
  end.

Definition with_section (c : config) (sec : section) (st : attrs) : config :=
  match c with mkConfig p g l v ct w a lo n =>
    match sec with
    | General => mkConfig p st l v ct w a lo n
    | Lftp => mkConfig p g st v ct w a lo n
    | Validate => mkConfig p g l st ct w a lo n
    | Controller => mkConfig p g l v st w a lo n
    | Web => mkConfig p g l v ct st a lo n
    | AutoQueue => mkConfig p g l v ct w st lo n
    | Logging => mkConfig p g l v ct w a st n
    | Notifications => mkConfig p g l v ct w a lo st
    end
  end.

(** [config.<section>.set_property(name, value)]: a refused value leaves the section as it was *)
Definition config_set_property (c : config) (sec : section) (name : string) (value : cval) : result config :=
  st ← set_property sec (section_of c sec) name value; Ok (with_section c sec st).

(** [Config()] *)
Definition new_config : result config :=
  g ← new General; l ← new Lftp; v ← new Validate; ct ← new Controller; w ← new Web; a ← new AutoQueue; lo ← new Logging;
  n ← new Notifications; Ok (mkConfig None g l v ct w a lo n).

Definition outer : Type := dict string (dict string cval).

Definition _check_section (dct : outer) (name : string) : result (dict string cval * outer) :=
  match dget dct name with
  | None => Raise (ConfigError ("Missing config section: " +:+ name))
  | Some d => Ok (d, dpop dct name)
  end.

(** [dct.pop(name, {})] *)
Definition pop_section (dct : outer) (name : string) : dict string cval * outer := (default [] (dget dct name), dpop dct name).

Definition _check_empty_outer_dict (dct : outer) : result unit :=
  match dct with
  | [] => Ok tt
  | (k, _) :: _ => Raise (ConfigError ("Unknown section: " +:+ k))
  end.

Definition take_secret (legacy : cval) (d : dict string cval) : dict string cval :=
  if truthy legacy && negb (truthy (default VNone (dget d "hmac_secret"))) then dset d "hmac_secret" legacy else d.

Definition from_dict (config_dict : outer) : result config :=
  c0 ← new_config;
  r ← _check_section config_dict "General";
  let legacy_webhook_secret := default (VStr "") (dget r.1 "webhook_secret") in
  g ← section_from_dict General (dpop r.1 "webhook_secret");
  r ← _check_section r.2 "Lftp"; l ← section_from_dict Lftp r.1;
  let r := pop_section r.2 "Validate" in
  v ← section_from_dict Validate r.1;
  r ← _check_section r.2 "Controller"; ct ← section_from_dict Controller r.1;
  r ← _check_section r.2 "Web"; w ← section_from_dict Web r.1;
  r ← _check_section r.2 "AutoQueue"; a ← section_from_dict AutoQueue r.1;
  let r := pop_section r.2 "Logging" in
  lo ← section_from_dict Logging r.1;
  let r := pop_section r.2 "Notifications" in
  n ← section_from_dict Notifications (take_secret legacy_webhook_secret r.1);
  _ ← _check_empty_outer_dict r.2;
  Ok (mkConfig (file_path c0) g l v ct w a lo n).

Definition sections : list section := [General; Lftp; Validate; Controller; Web; AutoQueue; Logging; Notifications].

Definition as_dict (c : config) : outer := map (fun sec => (cls_name sec, inner_as_dict sec (section_of c sec))) sections.

(** [str(value)] of every value; a first value that cannot be formatted raises *)
Fixpoint str_values (d : dict string cval) : result (dict string string) :=
  match d with
  | [] => Ok []
  | (k, v) :: d' => s ← py_str v; r ← str_values d'; Ok ((k, s) :: r)
  end.

Fixpoint str_sections (d : outer) : result (dict string (dict string string)) :=
  match d with
  | [] => Ok []
  | (k, v) :: d' => s ← str_values v; r ← str_sections d'; Ok ((k, s) :: r)
  end.

Definition to_str (c : config) : result string := d ← str_sections (as_dict c); Ok (ini_write d).

(** [from_str]: parsing errors become [PersistError]; duplicates do not *)
Definition from_str (content : string) : result config :=
  d ← match ini_read content with
      | Raise ParsingError => Raise (PersistError "Error parsing Config")
      | r => r
      end;
  from_dict (map (fun sv => (sv.1, map (fun kv => (kv.1, VStr kv.2)) sv.2)) d).

(** [getattr(self, name)] is a section *)
Definition has_section (name : string) : bool :=
  bool_decide (name ∈ ["general"; "lftp"; "validate"; "controller"; "web"; "autoqueue"; "logging"; "notifications"]).

Definition REDACTED_SENTINELS : list string := ["**REDACTED**"; "********"].

Definition SENSITIVE_FIELDS : dict string (list string) :=
  [ ("general", ["api_token"; "webhook_secret"]); ("lftp", ["remote_password"]);
    ("notifications", ["webhook_url"; "hmac_secret"; "apprise_url"]) ].

Definition is_sensitive_field (section key : cval) : bool :=
  match section, key with
  | VStr s, VStr k => bool_decide (k ∈ default [] (dget SENSITIVE_FIELDS (lower s)))
  | _, _ => false
  end.

Definition is_redacted_value (value : cval) : bool :=
  match value with VStr s => bool_decide (s ∈ REDACTED_SENTINELS) | _ => false end.

Example new_config_ok : is_ok new_config = true.
Proof. vm_compute. reflexivity. Qed.

(** ** The first configuration ([Seedsync._create_default_config]) *)

Definition CONFIG_DUMMY_VALUE : cval := VStr "<replace me>".

Definition default_assignments : list (section * string * cval) :=
  [ (General, "log_level", VStr "INFO"); (General, "verbose", VBool false); (General, "api_token", VStr "");
    (General, "allowed_hostname", VStr ""); (General, "browser_handover_recovery_version", VStr "");
    (General, "breadcrumb_trace_enabled", VBool false);
    (Lftp, "remote_address", CONFIG_DUMMY_VALUE); (Lftp, "remote_username", CONFIG_DUMMY_VALUE);
    (Lftp, "remote_password", CONFIG_DUMMY_VALUE); (Lftp, "remote_port", VInt 22); (Lftp, "remote_path", CONFIG_DUMMY_VALUE);
    (Lftp, "local_path", CONFIG_DUMMY_VALUE); (Lftp, "remote_path_to_scan_script", VStr "/tmp"); (Lftp, "use_ssh_key", VBool false);
    (Lftp, "num_max_parallel_downloads", VInt 2); (Lftp, "num_max_parallel_files_per_download", VInt 4);
    (Lftp, "num_max_connections_per_root_file", VInt 4); (Lftp, "num_max_connections_per_dir_file", VInt 4);
    (Lftp, "num_max_total_connections", VInt 16); (Lftp, "use_temp_file", VBool false); (Lftp, "rate_limit", VStr "0");
    (Lftp, "net_socket_buffer", VStr "8M"); (Lftp, "staging_path", VStr "");
    (Controller, "interval_ms_remote_scan", VInt 30000); (Controller, "interval_ms_local_scan", VInt 10000);
    (Controller, "interval_ms_downloading_scan", VInt 1000); (Controller, "extract_path", VStr "/tmp");
    (Controller, "use_local_path_as_extract_path", VBool true); (Web, "port", VInt 8800);
    (AutoQueue, "enabled", VBool true); (AutoQueue, "patterns_only", VBool false); (AutoQueue, "auto_extract", VBool true);
    (Logging, "log_format", VStr "standard") ].

Fixpoint assign_config (c : config) (l : list (section * string * cval)) : result config :=
  match l with
  | [] => Ok c
  | (sec, name, v) :: l' => st ← assign sec (section_of c sec) name v; assign_config (with_section c sec st) l'
  end.

Definition _create_default_config : result config := c ← new_config; assign_config c default_assignments.
