(* ===== verification/ConfigFacts.v ===== *)
(** * Configuration: what a stored value satisfies

    Every value a section holds is accepted by its own converter and checker,
    and comes out unchanged; reading a text file raises configuration errors
    only. *)

From S2P Require Import Prelude PyDict PyStr Json Ini Config.

(** What [set_property] computes from a given value. *)
Definition readmit (p : PropMetadata) (config_cls name : string) (v : cval) : result cval :=
  native ← match v with VStr s => prop_converter p config_cls name s | _ => Ok v end;
  prop_checker p config_cls name native.

Definition stable (p : PropMetadata) : Prop := forall cls name v w, readmit p cls name v = Ok w -> readmit p cls name w = Ok w.

(** ** Facts on text *)

Lemma lower_char_idem c : lower_char (lower_char c) = lower_char c.
Proof. destruct c as [[] [] [] [] [] [] [] []]; reflexivity. Qed.

Lemma lower_lower s : lower (lower s) = lower s.
Proof. unfold lower. rewrite chars_str, map_map. f_equal. apply map_ext. apply lower_char_idem. Qed.

Lemma refuse_not_ok {A} cls name v what (w : A) : refuse cls name v what <> Ok w.
Proof. unfold refuse. by destruct (py_str v). Qed.

(** A fixed value of an enumeration is already normal. *)
Lemma one_of_ok norm values kind what cls name v w : one_of norm values kind what cls name v = Ok w ->
  exists s, w = VStr s /\ s ∈ values /\ s <> "" /\ exists t, v = VStr t /\ s = norm (strip t).
Proof.
  unfold one_of. destruct v as [| | |t]; try (intros H; by apply refuse_not_ok in H).
  destruct (String.eqb_spec (norm (strip t)) "") as [|Hn]; [done|]. case_bool_decide as H; [|intros K; by apply refuse_not_ok in K].
  intros [= <-]. by eauto 10.
Qed.

Lemma one_of_fixed norm values kind what cls name s : Forall (fun x => norm (strip x) = x /\ x <> "") values -> s ∈ values ->
  one_of norm values kind what cls name (VStr s) = Ok (VStr s).
Proof.
  intros H Hs. rewrite Forall_forall in H. destruct (H s Hs) as [E Hn]. unfold one_of. rewrite E.
  destruct (String.eqb_spec s ""); [done|]. by rewrite bool_decide_true.
Qed.

(** ** Integers in text *)

Definition fits (z : Z) : Prop := (length (show_int (Z.abs z)) <= max_int_digits)%nat.

Lemma show_digits_short fuel : forall z acc n, 0 <= z < 10 ^ Z.of_nat n -> (n <> 0)%nat -> (length (show_digits fuel z acc) <= n + length acc)%nat.
Proof.
  induction fuel as [|fuel IH]; intros z acc n Hz Hn; cbn [show_digits]; [lia|].
  destruct (Z.ltb_spec z 10) as [Hlt|Hge]; [cbn [length]; lia|]. destruct n as [|n]; [done|].
  rewrite Nat2Z.inj_succ, Z.pow_succ_r in Hz by lia.
  assert (Hd : 0 <= z / 10 < 10 ^ Z.of_nat n) by (split; [apply Z.div_pos; lia|apply Z.div_lt_upper_bound; lia]).
  assert (Hn' : (n <> 0)%nat). { intros ->. assert (1 <= z / 10) by (apply Z.div_le_lower_bound; lia). simpl in Hd. lia. }
  specialize (IH (z / 10) (chr (48 + z mod 10) :: acc) n Hd Hn'). cbn [length] in IH. lia.
Qed.

Lemma digits_value_bound l : (forall c, c ∈ l -> is_digit c = true) -> 0 <= digits_value l < 10 ^ Z.of_nat (length l).
Proof.
  induction l as [|c l IH] using rev_ind; [done|]. intros H. rewrite digits_value_app, length_app. cbn [length].
  assert (Hc : is_digit c = true) by (apply H, elem_of_app; right; by left). unfold is_digit in Hc.
  assert (IH' : 0 <= digits_value l < 10 ^ Z.of_nat (length l)) by (apply IH; intros x Hx; apply H, elem_of_app; by left).
  rewrite Nat.add_1_r, (Nat2Z.inj_succ (length l)), (Z.pow_succ_r _ (Z.of_nat (length l))) by lia. assert (digits_value [c] = ord c - 48) as -> by done.
  change (10 ^ Z.of_nat 1) with 10. lia.
Qed.

Lemma digits_fit l z : (forall c, c ∈ l -> is_digit c = true) -> (length l <= max_int_digits)%nat -> Z.abs z = digits_value l -> fits z.
Proof.
  intros Hd Hl Hz. unfold fits. rewrite Hz. pose proof (digits_value_bound l Hd) as [H0 H1]. unfold show_int.
  destruct (Z.ltb_spec (digits_value l) 0); [lia|].
  pose proof (show_digits_short (S (Z.to_nat (Z.log2 (digits_value l)))) (digits_value l) [] max_int_digits) as K.
  cbn [length] in K. rewrite Nat.add_0_r in K. apply K; [|done]. split; [done|]. eapply Z.lt_le_trans; [exact H1|].
  apply Z.pow_le_mono_r; lia.
Qed.

Lemma py_int_fits s z : py_int s = Some z -> fits z.
Proof.
  unfold py_int. destruct (match chars (strip s) with [] => _ | c :: r => _ end) as [neg ds].
  destruct (forallb _ _ && _) eqn:E; [|done]. apply andb_true_iff in E as [Hg Hl%Nat.leb_le]. intros [= <-].
  assert (Hd : forall c, c ∈ concat (split_chars "_" [] ds) -> is_digit c = true).
  { rewrite forallb_forall in Hg. intros c Hc. apply list_elem_of_In, in_concat in Hc as (g & Hin & Hc). specialize (Hg g Hin).
    destruct g as [|x g]; [done|]. rewrite forallb_forall in Hg. by apply Hg. }
  apply (digits_fit _ _ Hd Hl). pose proof (digits_value_bound _ Hd). destruct neg; lia.
Qed.

Lemma digit_not_space c : is_digit c = true -> is_space c = false.
Proof. unfold is_digit, is_space. intros H. lia. Qed.

Lemma show_int_shape z : show_int z = (if z <? 0 then ["-"%char] else []) ++ show_int (Z.abs z).
Proof.
  unfold show_int. destruct (Z.ltb_spec z 0); destruct (Z.ltb_spec (Z.abs z) 0); try lia; [by rewrite Z.abs_neq by lia|by rewrite Z.abs_eq by lia].
Qed.

(** [int(str(z)) == z] *)
Lemma py_int_show z : fits z -> value_ok (str (show_int z)) /\ py_int (str (show_int z)) = Some z /\ str (show_int z) <> "".
Proof.
  intros Hf. destruct (show_int_digits (Z.abs z) ltac:(lia)) as (Hne & Hd & Hv). rewrite show_int_shape.
  set (ds := show_int (Z.abs z)) in *.
  assert (Hsp : forall c, c ∈ (if z <? 0 then ["-"%char] else []) ++ ds -> is_space c = false).
  { intros c [Hc|Hc]%elem_of_app; [destruct (z <? 0); [by apply list_elem_of_singleton in Hc as ->|by apply elem_of_nil in Hc]|].
    by apply digit_not_space, Hd. }
  assert (Ht : trimmed ((if z <? 0 then ["-"%char] else []) ++ ds)).
  { split; [destruct (_ ++ ds) as [|c l] eqn:E; [done|]; apply Hsp; by left|].
    destruct (rev (_ ++ ds)) as [|c l] eqn:E; [done|]. apply Hsp, list_elem_of_In, in_rev. rewrite E. by left. }
  split_and!.
  - split; [by apply strip_trimmed|]. rewrite chars_str. intros H. by apply Hsp in H.
  - unfold py_int. rewrite (strip_trimmed _ Ht), chars_str.
    assert (Hus : "_"%char ∉ ds) by (intros K; by apply Hd in K).
    assert (E : match (if z <? 0 then ["-"%char] else []) ++ ds with [] => (false, (if z <? 0 then ["-"%char] else []) ++ ds)
      | c :: r => if ord c =? 45 then (true, r) else if ord c =? 43 then (false, r) else (false, (if z <? 0 then ["-"%char] else []) ++ ds) end
      = (z <? 0, ds)).
    { destruct (z <? 0); [done|]. cbn [app]. destruct ds as [|c l]; [done|]. assert (Hc : is_digit c = true) by (apply Hd; by left).
      unfold is_digit in Hc. destruct (Z.eqb_spec (ord c) 45); [lia|]. destruct (Z.eqb_spec (ord c) 43); [lia|done]. }
    rewrite E, (split_chars_last _ _ [] Hus). cbn [rev app forallb concat]. rewrite app_nil_r.
    assert ((match ds with [] => false | _ => forallb is_digit ds end) = true) as ->.
    { destruct ds as [|c l] eqn:Eds; [done|]. apply forallb_forall. intros x Hx%list_elem_of_In. by apply Hd. }
    unfold fits in Hf. fold ds in Hf. apply Nat.leb_le in Hf. rewrite Hf. cbn [andb]. rewrite Hv. f_equal. destruct (Z.ltb_spec z 0); lia.
  - intros K%(f_equal chars). rewrite chars_str in K. destruct (z <? 0); [done|]. by destruct ds.
Qed.

(** ** Rows of the property tables *)

Definition config_error (e : exn) : Prop := exists m, e = ConfigError m.

(** The text of a value reads back as the value. *)
Definition written (p : PropMetadata) (cls name : string) (v : cval) : Prop :=
  exists s, py_str v = Ok s /\ value_ok s /\ readmit p cls name (VStr s) = Ok v.

Definition one_line (v : cval) : Prop := match v with VStr s => chr 10 ∉ chars s | _ => True end.

Record row_ok (p : PropMetadata) : Prop := mkRowOk {
  row_stable : stable p;
  row_written : forall cls name s v, readmit p cls name (VStr s) = Ok v -> file_text s -> one_line v -> written p cls name v;
  row_errors : forall cls name s e, readmit p cls name (VStr s) = Raise e -> config_error e;
  row_native : forall cls name s, prop_converter p cls name s <> Ok VNone }.

Definition keeps_value (ck : checker) : Prop := forall cls name v w, ck cls name v = Ok w -> w = v.

Lemma refuse_error {A} cls name s what e : refuse (A := A) cls name (VStr s) what = Raise e -> config_error e.
Proof. intros [= <-]. by eexists. Qed.

Lemma empty_error {A} cls name e : empty_value (A := A) cls name = Raise e -> config_error e.
Proof. intros [= <-]. by eexists. Qed.

Lemma refuse_int_error {A} cls name z what e : fits z -> refuse (A := A) cls name (VInt z) what = Raise e -> config_error e.
Proof.
  intros Hf. unfold refuse, py_str. apply Nat.leb_le in Hf. rewrite Nat.leb_antisym in Hf. apply negb_true_iff in Hf. rewrite Hf.
  intros [= <-]. by eexists.
Qed.

Lemma bool_conv_ok cls name s v : Converters.bool cls name s = Ok v -> exists b, v = VBool b.
Proof. unfold Converters.bool. case_match; [done|]. destruct (_strtobool s) as [b|]; [|by intros ?%refuse_not_ok]. intros [= <-]. by eauto. Qed.

Lemma bool_row ck : (ck = Checkers.null \/ ck = Checkers.bool_value) -> row_ok (mkProp ck Converters.bool).
Proof.
  intros Hck. assert (Hb : forall cls name b, ck cls name (VBool b) = Ok (VBool b)) by by destruct Hck as [-> | ->].
  assert (Hk : keeps_value ck) by (destruct Hck as [-> | ->]; intros cls name [] w Hr; by (apply refuse_not_ok in Hr || injection Hr as <-)).
  assert (H : forall cls name s v, readmit (mkProp ck Converters.bool) cls name (VStr s) = Ok v -> exists b, v = VBool b).
  { intros cls name s v. unfold readmit. cbn. destruct (Converters.bool cls name s) as [u|] eqn:E; [|done]. cbn.
    apply bool_conv_ok in E as [b ->]. rewrite Hb. intros [= <-]. by eauto. }
  split.
  - intros cls name v w Hr. destruct v as [|b|z|s]; try (pose proof (Hk _ _ _ _ Hr); by subst).
    destruct (H _ _ _ _ Hr) as [b ->]. apply Hb.
  - intros cls name s v Hr _ _. destruct (H _ _ _ _ Hr) as [b ->]. exists (if b then "True" else "False"). split; [done|].
    destruct b; (split; [split; [done|vm_compute; set_solver]|apply Hb]).
  - intros cls name s e. unfold readmit. cbn. destruct (Converters.bool cls name s) as [u|] eqn:E; cbn.
    + apply bool_conv_ok in E as [b ->]. by rewrite Hb.
    + intros [= <-]. revert E. unfold Converters.bool. case_match; [apply empty_error|]. case_match; [done|apply refuse_error].
  - by intros cls name s [b K]%bool_conv_ok.
Qed.

Lemma int_conv_ok cls name s v : Converters.int cls name s = Ok v -> exists z, v = VInt z /\ fits z.
Proof.
  unfold Converters.int. case_match; [done|]. destruct (py_int s) as [z|] eqn:E; [|by intros ?%refuse_not_ok]. intros [= <-].
  exists z. split; [done|]. by eapply py_int_fits.
Qed.

Lemma int_row ck : keeps_value ck -> (forall cls name z e, fits z -> ck cls name (VInt z) = Raise e -> config_error e) ->
  row_ok (mkProp ck Converters.int).
Proof.
  intros Hk He. assert (H : forall cls name s v, readmit (mkProp ck Converters.int) cls name (VStr s) = Ok v ->
    exists z, v = VInt z /\ fits z /\ ck cls name v = Ok v).
  { intros cls name s v. unfold readmit. cbn. destruct (Converters.int cls name s) as [u|] eqn:E; [|done]. cbn.
    apply int_conv_ok in E as (z & -> & Hz). intros Hc. pose proof (Hk _ _ _ _ Hc) as ->. by eauto. }
  split.
  - intros cls name v w Hr. destruct v as [|b|z|s]; try (pose proof (Hk _ _ _ _ Hr); by subst).
    destruct (H _ _ _ _ Hr) as (z & -> & _ & Hz). exact Hz.
  - intros cls name s v Hr _ _. destruct (H _ _ _ _ Hr) as (z & -> & Hz & Hc). exists (str (show_int z)).
    destruct (py_int_show z Hz) as (Hv & Hp & Hne). split; [|split; [done|]].
    + unfold py_str, fits in *. apply Nat.ltb_ge in Hz. by rewrite Hz.
    + unfold readmit. cbn. unfold Converters.int. destruct (String.eqb_spec (str (show_int z)) ""); [done|]. by rewrite Hp.
  - intros cls name s e. unfold readmit. cbn. destruct (Converters.int cls name s) as [u|] eqn:E; cbn.
    + apply int_conv_ok in E as (z & -> & Hz). by apply He.
    + intros [= <-]. revert E. unfold Converters.int. case_match; [apply empty_error|]. case_match; [done|apply refuse_error].
  - by intros cls name s (z & K & _)%int_conv_ok.
Qed.

(** Text settings: the checker fixes what it returns, and returns text. *)
Lemma text_row ck : (forall cls name v w, ck cls name v = Ok w -> ck cls name w = Ok w) ->
  (forall cls name s w, ck cls name (VStr s) = Ok w -> exists t, w = VStr t /\ (t = s \/ strip t = t)) ->
  (forall cls name s e, ck cls name (VStr s) = Raise e -> config_error e) -> row_ok (mkProp ck Converters.null).
Proof.
  intros Hs Ht He. assert (Hr : forall cls name v, readmit (mkProp ck Converters.null) cls name v = ck cls name v) by by intros cls name [].
  split.
  - intros cls name v w. rewrite !Hr. apply Hs.
  - intros cls name s v. rewrite Hr. intros H Hf Hl. destruct (Ht _ _ _ _ H) as (t & -> & Ht'). exists t. split; [done|]. split.
    + split; [|exact Hl]. destruct Ht' as [->|]; [by apply Hf|done].
    + rewrite Hr. by eapply Hs.
  - intros cls name s e. rewrite Hr. apply He.
  - done.
Qed.

(** Settings whose converter normalises as the checker does. *)
Lemma normal_row ck cv : (forall cls name s, cv cls name s = ck cls name (VStr s)) ->
  (forall cls name v w, ck cls name v = Ok w -> exists t, w = VStr t /\ strip t = t /\ ck cls name w = Ok w) ->
  (forall cls name s e, ck cls name (VStr s) = Raise e -> config_error e) -> row_ok (mkProp ck cv).
Proof.
  intros Hcv Hn He.
  assert (Hf : forall cls name v w, ck cls name v = Ok w -> readmit (mkProp ck cv) cls name w = Ok w).
  { intros cls name v w H. destruct (Hn _ _ _ _ H) as (t & -> & _ & Hw). unfold readmit. cbn. rewrite Hcv, Hw. exact Hw. }
  assert (Hr : forall cls name v w, readmit (mkProp ck cv) cls name v = Ok w -> exists u, ck cls name u = Ok w).
  { intros cls name [|b|z|s] w; cbn; eauto. destruct (cv cls name s) as [u|]; [|done]. cbn. by eauto. }
  split.
  - intros cls name v w [u H]%Hr. by eapply Hf.
  - intros cls name s v [u H]%Hr _ Hl. destruct (Hn _ _ _ _ H) as (t & -> & Ht & _). exists t. split_and!; [done|done|by eapply Hf].
  - intros cls name s e. unfold readmit. cbn. rewrite Hcv. destruct (ck cls name (VStr s)) as [u|] eqn:E; cbn.
    + destruct (Hn _ _ _ _ E) as (t & -> & _ & ->). done.
    + intros [= <-]. by eapply He.
  - cbn. intros cls name s. rewrite Hcv. by intros (t & K & _)%Hn.
Qed.

(** *** The checkers *)

Ltac not_refused H := solve [by apply refuse_not_ok in H | by injection H as <- | done].

Lemma int_checks ck : ck = Checkers.int_positive \/ (exists m, ck = Checkers.int_non_negative_max m) \/
  ck = Checkers.breadcrumb_trace_memory_budget \/ ck = Checkers.breadcrumb_trace_max_entries \/ (exists a b, ck = Checkers.int_range a b) ->
  row_ok (mkProp ck Converters.int).
Proof.
  intros Hck. apply int_row.
  - intros cls name v w H. destruct Hck as [-> |[[m ->]|[->|[->|(a & b & ->)]]]].
    + unfold Checkers.int_positive in H. destruct (as_int v); [|done]. cbn in H. destruct (_ <? _); not_refused H.
    + unfold Checkers.int_non_negative_max in H. destruct (as_int v); [|done]. cbn in H. repeat destruct (_ <? _); not_refused H.
    + unfold Checkers.breadcrumb_trace_memory_budget in H. destruct v; try destruct (_ <? _); not_refused H.
    + unfold Checkers.breadcrumb_trace_max_entries in H. destruct v; try destruct (_ <? _); not_refused H.
    + unfold Checkers.int_range in H. destruct v; try destruct (_ || _); not_refused H.
  - intros cls name z e Hz. destruct Hck as [-> |[[m ->]|[->|[->|(a & b & ->)]]]];
      [unfold Checkers.int_positive|unfold Checkers.int_non_negative_max|unfold Checkers.breadcrumb_trace_memory_budget
      |unfold Checkers.breadcrumb_trace_max_entries|unfold Checkers.int_range]; cbn [as_int mbind result_bind];
      repeat case_match; try done; by apply refuse_int_error.
Qed.

Lemma string_nonempty_ok cls name v w : Checkers.string_nonempty cls name v = Ok w -> w = v /\ exists s, v = VStr s.
Proof.
  unfold Checkers.string_nonempty. destruct (negb (truthy v)); [done|]. destruct v as [|b|z|s]; try done. cbn.
  destruct (String.eqb (strip s) ""); [done|]. intros [= <-]. by eauto.
Qed.

Lemma string_allow_empty_ok cls name v w : Checkers.string_allow_empty cls name v = Ok w -> w = v /\ exists s, v = VStr s.
Proof.
  unfold Checkers.string_allow_empty. case_bool_decide as E; [intros [= <-]; by eauto|]. destruct (negb (truthy v)); [done|].
  destruct v as [|b|z|s]; try done. cbn. destruct (String.eqb (strip s) ""); [done|]. intros [= <-]. by eauto.
Qed.

Lemma no_control_ok cls name v w : _reject_control_characters cls name v = Ok w -> w = v.
Proof. unfold _reject_control_characters. destruct v; try done. destruct (existsb _ _); [done|]. by intros [= <-]. Qed.

Lemma string_nonempty_text cls name s e : Checkers.string_nonempty cls name (VStr s) = Raise e -> config_error e.
Proof. unfold Checkers.string_nonempty. case_match; [apply empty_error|]. cbn. case_match; [apply empty_error|done]. Qed.

Lemma string_allow_empty_text cls name s e : Checkers.string_allow_empty cls name (VStr s) = Raise e -> config_error e.
Proof. unfold Checkers.string_allow_empty. case_match; [done|]. case_match; [apply empty_error|]. cbn. case_match; [apply empty_error|done]. Qed.

Lemma no_control_text cls name s e : _reject_control_characters cls name (VStr s) = Raise e -> config_error e.
Proof. unfold _reject_control_characters. case_match; [|done]. intros [= <-]. by eexists. Qed.

(** A checker that returns the text it accepts. *)
Lemma keeping_row ck : keeps_value ck -> (forall cls name s e, ck cls name (VStr s) = Raise e -> config_error e) ->
  row_ok (mkProp ck Converters.null).
Proof.
  intros Hk He. apply text_row; [| |done].
  - intros cls name v w H. pose proof (Hk _ _ _ _ H). by subst.
  - intros cls name s w H. pose proof (Hk _ _ _ _ H). subst. by eauto.
Qed.

Lemma string_checks ck : ck = Checkers.null \/ ck = Checkers.string_nonempty \/ ck = Checkers.string_allow_empty \/
  ck = Checkers.string_nonempty_no_control_chars \/ ck = Checkers.string_allow_empty_no_control_chars -> row_ok (mkProp ck Converters.null).
Proof.
  intros Hck. apply keeping_row.
  - intros cls name v w H. destruct Hck as [-> |[->|[->|[->| ->]]]].
    + by injection H.
    + by apply string_nonempty_ok in H as [? _].
    + by apply string_allow_empty_ok in H as [? _].
    + unfold Checkers.string_nonempty_no_control_chars in H. destruct (Checkers.string_nonempty cls name v) as [u|] eqn:E; [|done].
      apply string_nonempty_ok in E as [-> _]. by apply no_control_ok in H.
    + unfold Checkers.string_allow_empty_no_control_chars in H. destruct (Checkers.string_allow_empty cls name v) as [u|] eqn:E; [|done].
      apply string_allow_empty_ok in E as [-> _]. by apply no_control_ok in H.
  - intros cls name s e H. destruct Hck as [-> |[->|[->|[->| ->]]]].
    + done.
    + by apply string_nonempty_text in H.
    + by apply string_allow_empty_text in H.
    + unfold Checkers.string_nonempty_no_control_chars in H. destruct (Checkers.string_nonempty cls name (VStr s)) as [u|e'] eqn:E; cbn in H.
      * apply string_nonempty_ok in E as [-> _]. by apply no_control_text in H.
      * injection H as <-. by apply string_nonempty_text in E.
    + unfold Checkers.string_allow_empty_no_control_chars in H. destruct (Checkers.string_allow_empty cls name (VStr s)) as [u|e'] eqn:E; cbn in H.
      * apply string_allow_empty_ok in E as [-> _]. by apply no_control_text in H.
      * injection H as <-. by apply string_allow_empty_text in E.
Qed.

Definition normal_values (norm : string -> string) (values : list string) : Prop :=
  Forall (fun x => (norm (strip x) = x /\ x <> "") /\ strip x = x) values.

Lemma one_of_normal norm values kind what cls name v w : normal_values norm values -> one_of norm values kind what cls name v = Ok w ->
  exists t, w = VStr t /\ strip t = t /\ one_of norm values kind what cls name w = Ok w.
Proof.
  intros Hn (s & -> & Hs & _)%one_of_ok. exists s. split; [done|]. split.
  - unfold normal_values in Hn. rewrite Forall_forall in Hn. by apply Hn.
  - apply one_of_fixed; [|done]. eapply Forall_impl; [exact Hn|]. intros x K. apply K.
Qed.

Lemma one_of_text norm values kind what cls name s e : one_of norm values kind what cls name (VStr s) = Raise e -> config_error e.
Proof. unfold one_of. case_match; [apply empty_error|]. case_match; [done|apply refuse_error]. Qed.

Lemma one_of_row norm values kind what : normal_values norm values ->
  row_ok (mkProp (one_of norm values kind what) Converters.null) /\
  forall cv, (forall cls name s, cv cls name s = one_of norm values kind what cls name (VStr s)) -> row_ok (mkProp (one_of norm values kind what) cv).
Proof.
  intros Hn. split.
  - apply text_row; [| |apply one_of_text].
    + intros cls name v w H. by destruct (one_of_normal _ _ _ _ _ _ _ _ Hn H) as (t & _ & _ & ?).
    + intros cls name s w H. destruct (one_of_normal _ _ _ _ _ _ _ _ Hn H) as (t & -> & ? & _). by eauto.
  - intros cv Hcv. apply normal_row; [done| |apply one_of_text]. intros cls name v w. by apply one_of_normal.
Qed.

Lemma backend_values v : _normalize_transfer_backend v = VStr "lftp" \/ _normalize_transfer_backend v = VStr "rclone".
Proof.
  unfold _normalize_transfer_backend. destruct v as [|b|z|s]; try by left. destruct (String.eqb _ _); [by left|]. case_bool_decide as H; [|by left].
  unfold _TRANSFER_BACKEND_VALUES in H. rewrite elem_of_cons, list_elem_of_singleton in H. destruct H as [->| ->]; [by left|by right].
Qed.

Lemma backend_row : row_ok (mkProp Checkers.transfer_backend Converters.transfer_backend).
Proof.
  apply normal_row; [done| |done]. intros cls name v w. unfold Checkers.transfer_backend. intros [= <-].
  destruct (backend_values v) as [->| ->]; eexists; by repeat split.
Qed.

Lemma python_path_row : row_ok (mkProp Checkers.remote_python_path Converters.remote_python_path).
Proof.
  apply normal_row; [done| |].
  - intros cls name v w. unfold Checkers.remote_python_path, _normalize_remote_python_path.
    destruct v as [|b|z|s]; try by intros ?%refuse_not_ok.
    + intros [= <-]. by exists "python3".
    + intros [= <-]. destruct (String.eqb_spec (strip s) "") as [E|E]; [by exists "python3"|].
      exists (strip s). rewrite strip_strip. destruct (String.eqb_spec (strip s) ""); [done|]. done.
  - intros cls name s e. done.
Qed.

Lemma provider_row : row_ok (mkProp Checkers.notification_provider Converters.null).
Proof.
  assert (K : forall cls name v w, Checkers.notification_provider cls name v = Ok w -> w = VStr "webhook" \/ w = VStr "apprise").
  { intros cls name v w. unfold Checkers.notification_provider. destruct v; try done. case_bool_decide as H; [|done]. intros [= <-].
    rewrite elem_of_cons, list_elem_of_singleton in H. destruct H as [->| ->]; [by left|by right]. }
  apply text_row.
  - intros cls name v w [->| ->]%K; done.
  - intros cls name s w [->| ->]%K; by eauto.
  - intros cls name s e. unfold Checkers.notification_provider. case_bool_decide; [done|]. intros [= <-]. by eexists.
Qed.

Lemma policy_ok cls name v w : Checkers.breadcrumb_trace_policy cls name v = Ok w ->
  exists s, w = VStr (strip s) /\ Checkers.breadcrumb_trace_policy cls name (VStr (strip s)) = Ok w.
Proof.
  unfold Checkers.breadcrumb_trace_policy. destruct v as [|b|z|s]; try by intros ?%refuse_not_ok.
  destruct (_reject_control_characters cls name (VStr (strip s))) as [u|] eqn:E; [|done]. cbn [mbind result_bind].
  destruct (negb (truthy u)) eqn:Et; [done|]. destruct (parse_breadcrumb_trace_policy (strip s)) as [e|] eqn:Ep; [by intros ?%refuse_not_ok|].
  intros [= <-]. pose proof (no_control_ok _ _ _ _ E) as ->. exists s. split; [done|]. rewrite strip_strip, E. cbn [mbind result_bind]. by rewrite Et, Ep.
Qed.

Lemma policy_row : row_ok (mkProp Checkers.breadcrumb_trace_policy Converters.null).
Proof.
  apply text_row.
  - intros cls name v w (s & -> & H)%policy_ok. exact H.
  - intros cls name s w (t & -> & H)%policy_ok. exists (strip t). split; [done|]. right. apply strip_strip.
  - intros cls name s e. unfold Checkers.breadcrumb_trace_policy.
    destruct (_reject_control_characters cls name (VStr (strip s))) as [u|e'] eqn:E; cbn.
    + case_match; [apply empty_error|]. case_match; [apply refuse_error|done].
    + intros [= <-]. by apply no_control_text in E.
Qed.

Definition is_suffix (c : ascii) : bool := bool_decide (lower_char c ∈ chars "kmg").

Lemma suffix_cases c : is_suffix c = true -> exists u, upper_char c = [u] /\ is_suffix u = true /\ upper_char u = [u] /\ is_space u = false.
Proof.
  intros H. destruct c as [[] [] [] [] [] [] [] []]; vm_compute in H; try discriminate H; eexists; by split_and!; [vm_compute; reflexivity|..].
Qed.

Lemma digit_not_suffix c : is_digit c = true -> is_suffix c = false.
Proof. destruct c as [[] [] [] [] [] [] [] []]; vm_compute; done. Qed.

Lemma suffix_not_digit c : is_suffix c = true -> is_digit c = false.
Proof. destruct c as [[] [] [] [] [] [] [] []]; vm_compute; done. Qed.

Lemma byte_size_shape l : Checkers.byte_size_match l = true ->
  exists d ds sfx, l = d :: ds ++ sfx /\ (forall c, c ∈ d :: ds -> is_digit c = true) /\ (sfx = [] \/ exists c, sfx = [c] /\ is_suffix c = true).
Proof.
  unfold Checkers.byte_size_match. intros H.
  assert (Hl : l = take_while is_digit l ++ drop_while is_digit l).
  { clear. induction l as [|c l IH]; [done|]. cbn. destruct (is_digit c); [cbn; by rewrite <- IH|done]. }
  assert (Hd : forall c, c ∈ take_while is_digit l -> is_digit c = true).
  { clear. induction l as [|c l IH]; cbn; intros x; [by intros ?%elem_of_nil|]. destruct (is_digit c) eqn:E; [|by intros ?%elem_of_nil].
    intros [->|Hx]%elem_of_cons; [done|by apply IH]. }
  destruct (take_while is_digit l) as [|d ds]; [done|]. exists d, ds, (drop_while is_digit l). split; [done|]. split; [done|].
  destruct (drop_while is_digit l) as [|c [|]]; [by left| |done]. right. by exists c.
Qed.

Lemma upper_suffix_shape d ds sfx : (forall c, c ∈ d :: ds -> is_digit c = true) -> (sfx = [] \/ exists c, sfx = [c] /\ is_suffix c = true) ->
  Checkers.upper_suffix (d :: ds ++ sfx) = d :: ds ++ concat (map upper_char sfx).
Proof.
  intros Hd [->|(c & -> & Hc)]; unfold Checkers.upper_suffix.
  - cbn [map concat]. rewrite app_nil_r. destruct (rev (d :: ds)) as [|x r] eqn:E; [done|].
    assert (Hx : is_digit x = true) by (apply Hd, list_elem_of_In, in_rev; rewrite E; by left).
    change (bool_decide (lower_char x ∈ chars "kmg")) with (is_suffix x). by rewrite (digit_not_suffix x Hx).
  - change (d :: ds ++ [c]) with ((d :: ds) ++ [c]). rewrite rev_app_distr. cbn [rev app].
    change (bool_decide (lower_char c ∈ chars "kmg")) with (is_suffix c). rewrite Hc.
    change (rev ds ++ [d]) with (rev (d :: ds)). rewrite rev_involutive. cbn [map concat]. by rewrite app_nil_r.
Qed.

Definition upper_done (sfx : list ascii) : Prop :=
  concat (map upper_char sfx) = sfx /\ (sfx = [] \/ exists c, sfx = [c] /\ is_suffix c = true) /\ forall c, c ∈ sfx -> is_space c = false.

Lemma suffix_upper_done sfx : (sfx = [] \/ exists c, sfx = [c] /\ is_suffix c = true) -> upper_done (concat (map upper_char sfx)).
Proof.
  intros [->|(c & -> & Hc)]; [by split_and!; [|left|intros ? ?%elem_of_nil]|].
  destruct (suffix_cases c Hc) as (u & E & Hu & Huu & Hsp). cbn [map concat]. rewrite E. cbn [app].
  split_and!; [cbn; by rewrite Huu|right; by eauto|by intros x ->%list_elem_of_singleton].
Qed.

Lemma byte_size_match_shape d ds sfx : (forall c, c ∈ d :: ds -> is_digit c = true) -> (sfx = [] \/ exists c, sfx = [c] /\ is_suffix c = true) ->
  Checkers.byte_size_match (d :: ds ++ sfx) = true.
Proof.
  intros Hd Hs. unfold Checkers.byte_size_match. change (d :: ds ++ sfx) with ((d :: ds) ++ sfx).
  destruct (take_while_app is_digit (d :: ds) sfx Hd) as [-> ->].
  - destruct Hs as [->|(c & -> & Hc)]; [done|by apply suffix_not_digit].
  - by destruct Hs as [->|(c & -> & Hc)].
Qed.

Lemma byte_size_ok cls name s w : Checkers.byte_size_text cls name s = Ok w ->
  exists t, w = VStr t /\ strip t = t /\ Checkers.byte_size_text cls name t = Ok w.
Proof.
  unfold Checkers.byte_size_text at 1. destruct (String.eqb_spec s "") as [->|Hs]; [intros [= <-]; by exists ""|].
  destruct (String.eqb (strip s) ""); [done|]. destruct (Checkers.byte_size_match (chars (strip s))) eqn:E; [|by intros ?%refuse_not_ok].
  intros [= <-]. apply byte_size_shape in E as (d & ds & sfx & -> & Hd & Hsfx).
  rewrite (upper_suffix_shape d ds sfx Hd Hsfx). pose proof (suffix_upper_done sfx Hsfx) as (Hup & Hsfx' & Hsp').
  set (sfx' := concat (map upper_char sfx)) in *. eexists. split; [done|].
  assert (Hsp : forall c, c ∈ d :: ds ++ sfx' -> is_space c = false).
  { intros c. change (d :: ds ++ sfx') with ((d :: ds) ++ sfx'). intros [Hc|Hc]%elem_of_app; [by apply digit_not_space, Hd|by apply Hsp']. }
  assert (Ht : trimmed (d :: ds ++ sfx')).
  { split; [apply Hsp; by left|]. destruct (rev (d :: ds ++ sfx')) as [|c l] eqn:E; [done|].
    apply Hsp, list_elem_of_In, in_rev. rewrite E. by left. }
  split; [by apply strip_trimmed|]. unfold Checkers.byte_size_text. rewrite (strip_trimmed _ Ht), chars_str. cbn [str String.string_of_list_ascii].
  cbn [String.eqb]. rewrite byte_size_match_shape by done. by rewrite upper_suffix_shape, Hup by done.
Qed.

Lemma byte_size_row : row_ok (mkProp Checkers.byte_size_or_empty Converters.null).
Proof.
  assert (K : forall cls name v w, Checkers.byte_size_or_empty cls name v = Ok w -> exists s, Checkers.byte_size_text cls name s = Ok w).
  { intros cls name v w. unfold Checkers.byte_size_or_empty. destruct v as [|b|z|s]; [by intros ?%refuse_not_ok|by intros ?%refuse_not_ok| |].
    - destruct (py_str (VInt z)) as [t|]; [|done]. cbn. by eauto.
    - by eauto. }
  apply text_row.
  - intros cls name v w [s H]%K. by apply byte_size_ok in H as (t & -> & _ & ?).
  - intros cls name s w H. apply byte_size_ok in H as (t & -> & ? & _). by eauto.
  - intros cls name s e. cbn. unfold Checkers.byte_size_text. case_match; [done|]. case_match; [apply empty_error|].
    case_match; [done|apply refuse_error].
Qed.

(** Every property of every section. *)
Lemma properties_ok sec name p : dget (properties sec) name = Some p -> row_ok p.
Proof.
  intros H. assert (K : Forall (fun kv => row_ok kv.2) (properties sec)).
  { assert (Hl : forall cv, (forall cls name s, cv cls name s = _normalize_log_level cls name (VStr s)) -> row_ok (mkProp Checkers.log_level cv))
      by (refine (proj2 (one_of_row upper _LOG_LEVEL_VALUES _ _ _)); by repeat constructor).
    assert (Hp : forall cv, (forall cls name s, cv cls name s = _normalize_transfer_protocol cls name (VStr s)) -> row_ok (mkProp Checkers.transfer_protocol cv))
      by (refine (proj2 (one_of_row lower _TRANSFER_PROTOCOL_VALUES _ _ _)); by repeat constructor).
    assert (Hf : row_ok (mkProp Checkers.log_format Converters.null))
      by (refine (proj1 (one_of_row lower _LOG_FORMAT_VALUES _ _ _)); by repeat constructor).
    destruct sec; cbn [properties general_properties lftp_properties validate_properties controller_properties web_properties autoqueue_properties logging_properties notifications_properties]; repeat apply Forall_cons_2; try apply Forall_nil_2; cbn [snd PROP];
      lazymatch goal with
      | |- row_ok (mkProp Checkers.null Converters.bool) => apply bool_row; by left
      | |- row_ok (mkProp Checkers.bool_value Converters.bool) => apply bool_row; by right
      | |- row_ok (mkProp Checkers.int_positive _) => apply int_checks; by left
      | |- row_ok (mkProp (Checkers.int_non_negative_max ?m) _) => apply int_checks; right; left; by exists m
      | |- row_ok (mkProp Checkers.breadcrumb_trace_memory_budget _) => apply int_checks; do 2 right; by left
      | |- row_ok (mkProp Checkers.breadcrumb_trace_max_entries _) => apply int_checks; do 3 right; by left
      | |- row_ok (mkProp (Checkers.int_range ?a ?b) _) => apply int_checks; do 4 right; by exists a, b
      | |- row_ok (mkProp _ Converters.log_level) => by apply Hl
      | |- row_ok (mkProp _ Converters.transfer_protocol) => by apply Hp
      | |- row_ok (mkProp _ Converters.transfer_backend) => apply backend_row
      | |- row_ok (mkProp _ Converters.remote_python_path) => apply python_path_row
      | |- row_ok (mkProp Checkers.log_format _) => apply Hf
      | |- row_ok (mkProp Checkers.notification_provider _) => apply provider_row
      | |- row_ok (mkProp Checkers.breadcrumb_trace_policy _) => apply policy_row
      | |- row_ok (mkProp Checkers.byte_size_or_empty _) => apply byte_size_row
      | |- row_ok (mkProp Checkers.null _) => apply string_checks; by left
      | |- row_ok (mkProp Checkers.string_nonempty _) => apply string_checks; right; by left
      | |- row_ok (mkProp Checkers.string_allow_empty _) => apply string_checks; do 2 right; by left
      | |- row_ok (mkProp Checkers.string_nonempty_no_control_chars _) => apply string_checks; do 3 right; by left
      | |- row_ok (mkProp Checkers.string_allow_empty_no_control_chars _) => apply string_checks; do 4 right; done
      end. }
  rewrite Forall_forall in K. apply dget_Some_elem_of in H. by apply K in H.
Qed.
