(* ===== verification/ConfigLoad.v ===== *)
(** * Configuration: construction of a section

    What [from_dict] makes of a dictionary: the migrations keep every given
    value, every property is set from its own entry, and the result is
    independent of the order of the assignments. *)

From S2P Require Import Prelude PyDict PyStr Json Ini Config ConfigFacts.

(** ** One assignment *)

Definition coupled (sec : section) (st : attrs) : Prop :=
  sec = Lftp -> _get_property st "transfer_backend" = VStr "rclone" -> _get_property st "protocol" = VStr "sftp".

(** The second half of [Lftp._set_property]. *)
Definition couple (sec : section) (name : string) (st : attrs) : attrs :=
  match sec with
  | Lftp =>
      if bool_decide (name ∈ ["transfer_backend"; "protocol"]) && bool_decide (_get_property st "transfer_backend" = VStr "rclone")
         && negb (bool_decide (_get_property st "protocol" = VStr "sftp"))
      then dset st "protocol" (VStr "sftp") else st
  | _ => st
  end.

Lemma set_property_couple sec st name v ck :
  _set_property sec st name v ck = (st' ← inner_set_property sec st name v ck; Ok (couple sec name st')).
Proof.
  unfold _set_property. destruct (inner_set_property sec st name v ck) as [st'|]; [|done]. cbn [mbind result_bind].
  destruct sec; try done. unfold couple. destruct (_ && _ && _); [|done]. unfold inner_set_property. done.
Qed.

Lemma get_dset st name v n : _get_property (dset st name v) n = if decide (name = n) then v else _get_property st n.
Proof. unfold _get_property. rewrite dget_dset. by case_decide. Qed.

(** What a stored value can come from. *)
Definition stores (sec : section) (p : PropMetadata) (st : attrs) (name : string) (v w : cval) : Prop :=
  (v = VNone /\ _get_property st name = VNone /\ w = VNone) \/ readmit p (cls_name sec) name v = Ok w.

Lemma inner_set_ok sec st name v st' : inner_set sec st name v = Ok st' ->
  exists p w, dget (properties sec) name = Some p /\ stores sec p st name v w /\ st' = couple sec name (dset st name w).
Proof.
  unfold inner_set. destruct (dget (properties sec) name) as [p|] eqn:Ep; [|done]. intros H. exists p.
  destruct (match v with VStr s => prop_converter p (cls_name sec) name s | _ => Ok v end) as [n|] eqn:En; [|done]. cbn [mbind result_bind] in H.
  rewrite set_property_couple in H. unfold inner_set_property in H.
  destruct (bool_decide (n = VNone) && bool_decide (_get_property st name = VNone)) eqn:Eb.
  - apply andb_true_iff in Eb as [->%bool_decide_eq_true Hg%bool_decide_eq_true]. injection H as <-. exists VNone. split; [done|]. split; [|done].
    left. destruct v as [| | |s]; try done. by apply row_native in En; [|eapply properties_ok].
  - destruct (prop_checker p (cls_name sec) name n) as [w|] eqn:Ew; [|done]. injection H as <-. exists w. split; [done|]. split; [|done].
    right. unfold readmit. by rewrite En.
Qed.

Lemma inner_set_accepts sec st name v p w : dget (properties sec) name = Some p -> v <> VNone -> readmit p (cls_name sec) name v = Ok w ->
  inner_set sec st name v = Ok (couple sec name (dset st name w)).
Proof.
  intros Hp Hv Hr. unfold inner_set. rewrite Hp. unfold readmit in Hr.
  destruct (match v with VStr s => prop_converter p (cls_name sec) name s | _ => Ok v end) as [n|] eqn:En; [|done]. cbn [mbind result_bind] in *.
  rewrite set_property_couple. unfold inner_set_property. rewrite bool_decide_false; [cbn [andb]; by rewrite Hr|].
  intros ->. destruct v as [| | |s]; try done. by apply row_native in En; [|eapply properties_ok].
Qed.

Lemma inner_set_refuses sec st name v p e : dget (properties sec) name = Some p -> v <> VNone -> readmit p (cls_name sec) name v = Raise e ->
  inner_set sec st name v = Raise e.
Proof.
  intros Hp Hv Hr. unfold inner_set. rewrite Hp. unfold readmit in Hr.
  destruct (match v with VStr s => prop_converter p (cls_name sec) name s | _ => Ok v end) as [n|] eqn:En; [|by injection Hr as <-]. cbn [mbind result_bind] in *.
  rewrite set_property_couple. unfold inner_set_property. rewrite bool_decide_false; [cbn [andb]; by rewrite Hr|].
  intros ->. destruct v as [| | |s]; try done. by apply row_native in En; [|eapply properties_ok].
Qed.

Lemma no_debug_property : dget (properties General) "debug" = None.
Proof. reflexivity. Qed.

Lemma set_property_inner sec st name v p : dget (properties sec) name = Some p -> set_property sec st name v = inner_set sec st name v.
Proof.
  intros Hp. destruct sec; try done. unfold set_property. destruct (String.eqb_spec name "debug") as [->|]; [|done]. by rewrite no_debug_property in Hp.
Qed.

Lemma keys_couple sec name st : "protocol" ∈ dkeys st \/ sec <> Lftp -> dkeys (couple sec name st) = dkeys st.
Proof.
  intros H. destruct sec; try done. unfold couple. destruct (_ && _ && _); [|done]. destruct H as [H|]; [|done]. by apply dkeys_dset_present.
Qed.

Lemma get_couple sec name st n : n <> "protocol" -> _get_property (couple sec name st) n = _get_property st n.
Proof. intros Hn. destruct sec; try done. unfold couple. destruct (_ && _ && _); [|done]. rewrite get_dset. by case_decide. Qed.

Lemma get_couple_protocol sec name st : _get_property (couple sec name st) "protocol" = _get_property st "protocol" \/
  (sec = Lftp /\ _get_property st "transfer_backend" = VStr "rclone" /\ _get_property (couple sec name st) "protocol" = VStr "sftp").
Proof.
  destruct sec; try by left. unfold couple. destruct (_ && _ && _) eqn:E; [|by left]. right.
  apply andb_true_iff in E as [[_ H%bool_decide_eq_true]%andb_true_iff _]. by rewrite get_dset.
Qed.

Lemma couple_coupled sec name st : name ∈ ["transfer_backend"; "protocol"] \/ coupled sec st -> coupled sec (couple sec name st).
Proof.
  intros H -> Hb. rewrite get_couple in Hb by done. destruct (get_couple_protocol Lftp name st) as [E|(_ & _ & E)]; [|done]. rewrite E.
  destruct H as [H|H]; [|by apply H]. revert E. unfold couple. rewrite (bool_decide_true _ H), (bool_decide_true _ Hb). cbn [andb].
  case_bool_decide as Hp; [done|]. cbn [negb]. rewrite get_dset, decide_True by done. congruence.
Qed.

(** ** Settled sections

    Every property holds a value that its own converter and checker return
    unchanged; with [rclone] the protocol is [sftp]. *)
Record settled (sec : section) (st : attrs) : Prop := mkSettled {
  se_keys : dkeys st = dkeys (properties sec);
  se_values : forall name p, dget (properties sec) name = Some p ->
    readmit p (cls_name sec) name (_get_property st name) = Ok (_get_property st name);
  se_coupled : coupled sec st }.

Lemma property_key sec name p : dget (properties sec) name = Some p -> name ∈ dkeys (properties sec).
Proof. apply dget_Some_keys. Qed.

Lemma protocol_key sec (st : attrs) : dkeys st = dkeys (properties sec) -> "protocol" ∈ dkeys st \/ sec <> Lftp.
Proof. intros ->. destruct (decide (sec = Lftp)) as [->|]; [left|by right]. apply dget_is_Some. by eexists. Qed.

Lemma settled_inner_set sec st name v st' : settled sec st -> inner_set sec st name v = Ok st' -> settled sec st'.
Proof.
  intros [Hk Hv Hc] (p & w & Hp & Hs & ->)%inner_set_ok. pose proof (properties_ok _ _ _ Hp) as Hrow.
  assert (Hw : readmit p (cls_name sec) name w = Ok w).
  { destruct Hs as [(-> & Hg & ->)|Hs]; [by rewrite <- Hg at 1; rewrite (Hv _ _ Hp), Hg|by eapply row_stable]. }
  assert (Hkeys : dkeys (dset st name w) = dkeys (properties sec)).
  { rewrite <- Hk. apply dkeys_dset_present. rewrite Hk. by eapply property_key. }
  split.
  - rewrite keys_couple; [done|]. by eapply protocol_key.
  - intros n q Hq. destruct (decide (n = "protocol")) as [->|Hn].
    + destruct (get_couple_protocol sec name (dset st name w)) as [->|(-> & _ & ->)].
      * rewrite get_dset. case_decide as E; [|by apply Hv]. subst name. rewrite Hp in Hq. injection Hq as <-. exact Hw.
      * change (dget (properties Lftp) "protocol") with (Some (mkProp Checkers.transfer_protocol Converters.transfer_protocol)) in Hq.
        injection Hq as <-. reflexivity.
    + rewrite get_couple, get_dset by done. case_decide as E; [|by apply Hv]. subst name. rewrite Hp in Hq. injection Hq as <-. exact Hw.
  - apply couple_coupled. destruct (decide (name ∈ ["transfer_backend"; "protocol"])) as [|Hn]; [by left|right].
    intros -> . rewrite !get_dset. rewrite !decide_False by (intros ->; apply Hn; rewrite !elem_of_cons; tauto). by apply Hc.
Qed.

Lemma settled_set_property sec st name v st' : settled sec st -> set_property sec st name v = Ok st' -> settled sec st'.
Proof.
  intros Hs. destruct sec; try apply settled_inner_set; try done. unfold set_property.
  destruct (String.eqb name "debug"); [|by apply settled_inner_set].
  destruct (match v with VStr s => _ | _ => _ end) as [b|]; [|done]. cbn [mbind result_bind].
  destruct (Checkers.bool_value _ _ b); [|done]. cbn [mbind result_bind]. by apply settled_inner_set.
Qed.

(** ** All assignments of [from_dict] *)

(** An entry of a dictionary that was read from a file: text, or a default. *)
Definition entry_ok (sec : section) (n : string) (v : cval) : Prop :=
  (exists s, v = VStr s /\ file_text s) \/
  (exists p, dget (properties sec) n = Some p /\ v <> VNone /\ readmit p (cls_name sec) n v = Ok v /\ written p (cls_name sec) n v).

Definition loadable (sec : section) (d : dict string cval) : Prop := forall n v, dget d n = Some v -> entry_ok sec n v.

(** The value that the entry of [n] gives. *)
Definition target (sec : section) (d : dict string cval) (n : string) : cval :=
  match dget (properties sec) n, dget d n with
  | Some p, Some v => match readmit p (cls_name sec) n v with Ok w => w | Raise _ => VNone end
  | _, _ => VNone
  end.

Definition accepted (sec : section) (d : dict string cval) (n : string) : Prop :=
  exists p v, dget (properties sec) n = Some p /\ dget d n = Some v /\ readmit p (cls_name sec) n v = Ok (target sec d n).

Definition coupled_dict (sec : section) (d : dict string cval) : Prop :=
  sec = Lftp -> target sec d "transfer_backend" = VStr "rclone" -> target sec d "protocol" = VStr "sftp".

Lemma entry_cases sec n v p : dget (properties sec) n = Some p -> entry_ok sec n v -> v <> VNone /\
  ((exists w, readmit p (cls_name sec) n v = Ok w) \/ exists e, readmit p (cls_name sec) n v = Raise e /\ config_error e).
Proof.
  intros Hp [(s & -> & _)|(q & Hq & Hn & Hr & _)].
  - split; [done|]. destruct (readmit p (cls_name sec) n (VStr s)) as [w|e] eqn:E; [by eauto|]. right. exists e. split; [done|].
    by eapply row_errors; [eapply properties_ok|].
  - split; [done|]. left. rewrite Hp in Hq. injection Hq as <-. by eauto.
Qed.

(** The state while the values [w] are assigned: the names in [seen] have theirs. *)
Record assigning (sec : section) (w : string -> cval) (st : attrs) (seen : list string) : Prop := mkAssigning {
  as_keys : dkeys st = dkeys (properties sec);
  as_seen : forall n, n ∈ seen -> _get_property st n = w n;
  as_backend : sec = Lftp -> _get_property st "transfer_backend" = VStr "rclone" -> w "transfer_backend" = VStr "rclone" }.

Lemma assigning_step sec w st seen n p : (sec = Lftp -> w "transfer_backend" = VStr "rclone" -> w "protocol" = VStr "sftp") ->
  assigning sec w st seen -> dget (properties sec) n = Some p ->
  assigning sec w (couple sec n (dset st n (w n))) (n :: seen).
Proof.
  intros Hd [Hk Hs Hb] Hp.
  assert (Hkeys : dkeys (dset st n (w n)) = dkeys (properties sec)).
  { rewrite <- Hk. apply dkeys_dset_present. rewrite Hk. by eapply property_key. }
  assert (Hg : forall m, m ∈ n :: seen -> _get_property (dset st n (w n)) m = w m).
  { intros m Hm. rewrite get_dset. case_decide as E; [by rewrite E|]. apply Hs. by apply elem_of_cons in Hm as [->|]. }
  assert (Hbk : sec = Lftp -> _get_property (dset st n (w n)) "transfer_backend" = VStr "rclone" ->
    w "transfer_backend" = VStr "rclone").
  { intros E. rewrite get_dset. case_decide as E'; [by rewrite E'|by apply Hb]. }
  split.
  - rewrite keys_couple; [done|]. by eapply protocol_key.
  - intros m Hm. destruct (decide (m = "protocol")) as [->|Hne]; [|rewrite get_couple by done; by apply Hg].
    destruct (get_couple_protocol sec n (dset st n (w n))) as [->|(E & Hr & ->)]; [by apply Hg|]. symmetry. apply Hd; [done|by apply Hbk].
  - intros E. rewrite get_couple by done. by apply Hbk.
Qed.

Lemma set_all_cases sec d0 : coupled_dict sec d0 -> loadable sec d0 -> forall names st d seen, NoDup names ->
  (forall n, n ∈ names -> dget d n = dget d0 n) -> (forall n, n ∈ names -> is_Some (dget (properties sec) n)) -> assigning sec (target sec d0) st seen ->
  (exists e, set_all sec st d names = Raise e /\ config_error e /\ exists n, n ∈ names /\ ~ accepted sec d0 n) \/
  (exists st' seen', set_all sec st d names = Ok (st', fold_left dpop names d) /\ assigning sec (target sec d0) st' seen' /\
     (forall n, n ∈ seen -> n ∈ seen') /\ forall n, n ∈ names -> n ∈ seen' /\ accepted sec d0 n).
Proof.
  intros Hc Hl. induction names as [|n names IH]; intros st d seen Hnd Hd Hp Ha.
  { right. exists st, seen. cbn. split_and!; [done|done|done|by intros n ?%elem_of_nil]. }
  apply NoDup_cons in Hnd as [Hn Hnd]. cbn [set_all]. rewrite (Hd n) by (by left). destruct (Hp n) as [p Ep]; [by left|].
  assert (Hfail : ~ accepted sec d0 n -> exists m, m ∈ n :: names /\ ~ accepted sec d0 m) by (intros K; exists n; split; [by left|done]).
  destruct (dget d0 n) as [v|] eqn:Ev.
  2: { left. eexists. split; [reflexivity|]. split; [by eexists|]. apply Hfail. intros (q & u & _ & Hu & _). congruence. }
  rewrite (set_property_inner _ _ _ _ _ Ep). destruct (entry_cases sec n v p Ep (Hl n v Ev)) as [Hv [[w Hw]|(e & He & Hce)]].
  - assert (Ht : target sec d0 n = w) by (unfold target; by rewrite Ep, Ev, Hw).
    rewrite (inner_set_accepts _ _ _ _ _ _ Ep Hv Hw). cbn [mbind result_bind]. rewrite <- Ht.
    destruct (IH (couple sec n (dset st n (target sec d0 n))) (dpop d n) (n :: seen) Hnd) as [(e & H1 & H2 & m & Hm & Hna)|(st' & seen' & H1 & H2 & H3 & H4)].
    + intros m Hm. rewrite dget_dpop_ne by (by intros ->). apply Hd. by right.
    + intros m Hm. apply Hp. by right.
    + by eapply (assigning_step sec (target sec d0)).
    + left. exists e. split_and!; [done|done|]. exists m. split; [by right|done].
    + right. exists st', seen'. split_and!; [exact H1|done|intros m Hm; apply H3; by right|]. intros m [->|Hm]%elem_of_cons.
      * split; [apply H3; by left|]. exists p, v. by rewrite Ht.
      * by apply H4.
  - left. exists e. rewrite (inner_set_refuses _ _ _ _ _ _ Ep Hv He). split_and!; [done|done|]. apply Hfail.
    intros (q & u & Hq & Hu & Hr). rewrite Ep in Hq. rewrite Ev in Hu. injection Hq as <-. injection Hu as <-. congruence.
Qed.

Lemma new_eq sec : new sec = Ok (init_values sec).
Proof. destruct sec; vm_compute; reflexivity. Qed.

Lemma init_keys sec : dkeys (init_values sec) = dkeys (properties sec).
Proof. destruct sec; reflexivity. Qed.

Lemma properties_wf sec : NoDup (dkeys (properties sec)).
Proof. apply (bool_decide_unpack _). destruct sec; vm_compute; exact I. Qed.

Lemma elem_of_dir sec n : n ∈ dir_properties sec <-> n ∈ dkeys (properties sec).
Proof. unfold dir_properties. by rewrite merge_sort_Permutation. Qed.

Lemma NoDup_dir sec : NoDup (dir_properties sec).
Proof. unfold dir_properties. rewrite merge_sort_Permutation. apply properties_wf. Qed.

(** A loaded section: every property has the value of its entry. *)
Record loaded (sec : section) (d : dict string cval) (st : attrs) : Prop := mkLoaded {
  ld_keys : dkeys st = dkeys (properties sec);
  ld_values : forall n, n ∈ dkeys (properties sec) -> accepted sec d n /\ _get_property st n = target sec d n;
  ld_known : forall n, n ∈ dkeys d -> n ∈ dkeys (properties sec) }.

Lemma fold_dpop_keys (d : dict string cval) names n : n ∈ dkeys d -> n ∉ names -> n ∈ dkeys (fold_left dpop names d).
Proof.
  revert d. induction names as [|m names IH]; intros d Hd Hn; [done|]. apply not_elem_of_cons in Hn as [Hne Hn]. cbn [fold_left].
  apply IH; [|done]. apply dget_is_Some. rewrite dget_dpop_ne by done. by apply dget_is_Some.
Qed.

Lemma fold_dpop_sub names n : forall d : dict string cval, dwf d -> n ∈ dkeys (fold_left dpop names d) -> n ∈ dkeys d /\ n ∉ names.
Proof.
  induction names as [|m names IH]; intros d Hw H; [split; [done|apply not_elem_of_nil]|].
  destruct (IH (dpop d m)) as [H1 H2]; [by apply dwf_dpop|done|]. split; [by eapply elem_of_dkeys_dpop_sub|].
  apply not_elem_of_cons. split; [|done]. intros ->. apply dget_is_Some in H1 as [u Hu]. by rewrite dget_dpop_eq in Hu.
Qed.

Lemma inner_from_dict_cases sec d : coupled_dict sec d -> loadable sec d -> dwf d ->
  (exists e, inner_from_dict sec d = Raise e /\ config_error e /\
     ((exists n, n ∈ dkeys (properties sec) /\ ~ accepted sec d n) \/ exists n, n ∈ dkeys d /\ n ∉ dkeys (properties sec))) \/
  (exists st, inner_from_dict sec d = Ok st /\ loaded sec d st).
Proof.
  intros Hc Hl Hw. unfold inner_from_dict. rewrite new_eq. cbn [mbind result_bind].
  destruct (set_all_cases sec d Hc Hl (dir_properties sec) (init_values sec) d [] (NoDup_dir sec)) as [(e & -> & He & n & Hn & Ha)|(st & seen & -> & Has & _ & Hall)].
  - done.
  - intros n Hn%elem_of_dir. by apply dget_is_Some.
  - split; [apply init_keys|by intros n ?%elem_of_nil|intros -> H; vm_compute in H; discriminate H].
  - left. exists e. split_and!; [done|done|]. left. exists n. by rewrite <- elem_of_dir.
  - cbn [mbind result_bind snd fst]. destruct (fold_left dpop (dir_properties sec) d) as [|[k v] rest] eqn:Er.
    + right. exists st. split; [done|]. split; [apply Has| |].
      * intros n Hn%elem_of_dir%Hall. split; [apply Hn|]. apply (as_seen _ _ _ _ Has), Hn.
      * intros n Hn. destruct (decide (n ∈ dir_properties sec)) as [Hin|Hin]; [by apply elem_of_dir|].
        pose proof (fold_dpop_keys d (dir_properties sec) n Hn Hin) as K. rewrite Er in K. by apply elem_of_nil in K.
    + left. eexists. split; [reflexivity|]. split; [by eexists|]. right. exists k.
      assert (Hk : k ∈ dkeys (fold_left dpop (dir_properties sec) d)) by (rewrite Er; by left).
      destruct (fold_dpop_sub _ _ _ Hw Hk) as [H1 H2]. split; [done|]. by rewrite <- elem_of_dir.
Qed.

(** ** Migrations *)

Lemma loadable_dset sec d k v : loadable sec d -> entry_ok sec k v -> loadable sec (dset d k v).
Proof. intros H Hk n w. rewrite dget_dset. case_decide as E; [intros [= <-]; by rewrite <- E|apply H]. Qed.

Lemma loadable_dpop sec d k : dwf d -> loadable sec d -> loadable sec (dpop d k).
Proof. intros Hw H n w. rewrite dget_dpop by done. case_decide; [done|apply H]. Qed.

(** A dictionary in the middle of a migration. *)
Definition migrating (sec : section) (d : dict string cval) : Prop := dwf d /\ loadable sec d.

Lemma migrating_dset sec d k v : migrating sec d -> entry_ok sec k v -> migrating sec (dset d k v).
Proof. intros [Hw Hl] Hk. split; [by apply dwf_dset|by apply loadable_dset]. Qed.

Lemma migrating_dpop sec d k : migrating sec d -> migrating sec (dpop d k).
Proof. intros [Hw Hl]. split; [by apply dwf_dpop|by apply loadable_dpop]. Qed.

Lemma migrating_set_missing sec d k v : migrating sec d -> entry_ok sec k v -> migrating sec (set_missing k v d).
Proof. intros H Hk. unfold set_missing. destruct (dhas d k); [done|by apply migrating_dset]. Qed.

(** The old key of a renamed setting is no property, so it holds text. *)
Lemma migrating_renamed sec d old key v : migrating sec d -> dget (properties sec) old = None -> entry_ok sec key v ->
  migrating sec (renamed old key v d).
Proof.
  intros H Ho Hk. unfold renamed. destruct (dhas d key); [by apply migrating_dpop|]. apply migrating_dset; [by apply migrating_dpop|].
  case_bool_decide as E; [done|]. destruct (dget d old) as [u|] eqn:Eu; [|done]. cbn [default from_option id].
  destruct H as [_ Hl]. destruct (Hl old u Eu) as [(s & -> & Hs)|(p & Hp & _)]; [left; by exists s|congruence].
Qed.

Lemma text_entry sec k s : file_text s -> entry_ok sec k (VStr s).
Proof. intros H. left. by exists s. Qed.

Lemma native_entry sec k p v s : dget (properties sec) k = Some p -> v <> VNone -> py_str v = Ok s -> value_ok s ->
  readmit p (cls_name sec) k v = Ok v -> readmit p (cls_name sec) k (VStr s) = Ok v -> entry_ok sec k v.
Proof. intros Hp Hn Hs Hv H1 H2. right. exists p. split_and!; [done..|]. by exists s. Qed.

Ltac plain_value := split; [reflexivity|apply (bool_decide_unpack _); vm_compute; exact I].

Lemma default_entry_ok sec k v : (k, v) ∈ init_values sec -> v <> VNone -> entry_ok sec k v.
Proof.
  assert (H : Forall (fun kv => kv.2 <> VNone -> entry_ok sec kv.1 kv.2) (init_values sec)).
  { destruct sec; cbn [init_values general_init lftp_init validate_init controller_init web_init autoqueue_init logging_init notifications_init]; repeat apply Forall_cons_2; try apply Forall_nil_2; cbn [fst snd]; intros Hn; try done;
      lazymatch goal with
      | |- entry_ok _ _ (VStr _) => apply text_entry; intros _; reflexivity
      | |- _ => eapply native_entry; [reflexivity|discriminate|vm_compute; reflexivity|plain_value|reflexivity|vm_compute; reflexivity]
      end. }
  rewrite Forall_forall in H. intros Hin Hn. by apply (H _ Hin).
Qed.

(** A default of the program's own: a text, or what [__init__] sets. *)
Ltac default_entry :=
  lazymatch goal with
  | |- entry_ok _ _ (VStr _) => apply text_entry; intros _; reflexivity
  | |- entry_ok _ _ _ => apply default_entry_ok; [apply (bool_decide_unpack _); vm_compute; exact I|discriminate]
  end.

Lemma migrate_log_level_cases d : migrating General d ->
  (exists e, migrate_log_level d = Raise e /\ config_error e) \/ (exists d', migrate_log_level d = Ok d' /\ migrating General d').
Proof.
  intros H. unfold migrate_log_level. destruct (dhas d "log_level"); [right; eexists; split; [done|by apply migrating_dpop]|].
  destruct (dget d "debug") as [v|] eqn:Ev; [|right; eexists; split; [done|apply migrating_dset; [done|default_entry]]].
  destruct H as [Hw Hl]. destruct (Hl _ _ Ev) as [(s & -> & _)|(p & Hp & _)]; [|by rewrite no_debug_property in Hp].
  destruct (Converters.bool (cls_name General) "debug" s) as [b|e] eqn:Eb; cbn [mbind result_bind].
  - right. eexists. split; [done|]. apply migrating_dset; [by apply migrating_dpop|]. destruct (truthy b); default_entry.
  - left. exists e. split; [done|]. revert Eb. unfold Converters.bool. case_match; [apply empty_error|]. case_match; [done|apply refuse_error].
Qed.

Lemma general_migrate_cases d : migrating General d ->
  (exists e, general_migrate d = Raise e /\ config_error e) \/ (exists d', general_migrate d = Ok d' /\ migrating General d').
Proof.
  intros H. unfold general_migrate. set (d1 := set_missing "disable_browser_auth" _ _).
  assert (H1 : migrating General d1) by (unfold d1; do 5 (apply migrating_set_missing; [|default_entry]); by apply migrating_dpop).
  destruct (migrate_log_level_cases d1 H1) as [(e & -> & He)|(d2 & -> & H2)]; [left; by exists e|]. right.
  cbn [mbind result_bind]. eexists. split; [reflexivity|].
  do 5 (apply migrating_set_missing; [|default_entry]). do 2 (apply migrating_renamed; [|done|default_entry]).
  do 2 (apply migrating_set_missing; [|default_entry]). done.
Qed.

Lemma backend_readmit n v : readmit (mkProp Checkers.transfer_backend Converters.transfer_backend) "Lftp" n v = Ok (_normalize_transfer_backend v).
Proof.
  destruct v as [|b|z|s]; try done. unfold readmit, Converters.transfer_backend, Checkers.transfer_backend. cbn [prop_converter prop_checker mbind result_bind].
  by destruct (backend_values (VStr s)) as [->| ->].
Qed.

Lemma lftp_migrate_ok d : migrating Lftp d -> migrating Lftp (lftp_migrate d) /\ coupled_dict Lftp (lftp_migrate d).
Proof.
  intros H. unfold lftp_migrate. set (d1 := set_missing "use_legacy_lftp_password_argv" _ _).
  assert (H1 : migrating Lftp d1) by (unfold d1; do 9 (apply migrating_set_missing; [|default_entry]); exact H).
  set (b := _normalize_transfer_backend _).
  assert (Hb : b = VStr "lftp" \/ b = VStr "rclone") by apply backend_values.
  assert (H2 : migrating Lftp (dset d1 "transfer_backend" b)) by (apply migrating_dset; [done|destruct Hb as [->| ->]; default_entry]).
  case_bool_decide as E.
  - split; [apply migrating_dset; [done|default_entry]|]. intros _ _. unfold target. rewrite dget_dset_eq. reflexivity.
  - split; [done|]. intros _. unfold target. rewrite dget_dset_eq. cbn [properties dget]. cbn.
    destruct Hb as [->|]; [|done]. done.
Qed.

Lemma logging_migrate_ok d : migrating Logging d -> migrating Logging (logging_migrate d).
Proof.
  intros H. unfold logging_migrate. destruct (dget d "log_format") as [[| | |s]|]; try done; [|apply migrating_dset; [done|default_entry]].
  destruct (String.eqb _ _); [apply migrating_dset; [done|default_entry]|done].
Qed.

Lemma as_dict_keys sec st : dkeys (inner_as_dict sec st) = dkeys (properties sec).
Proof. unfold inner_as_dict, dkeys. by rewrite map_map. Qed.

Lemma get_as_dict sec st n : n ∈ dkeys (properties sec) -> dget (inner_as_dict sec st) n = Some (_get_property st n).
Proof.
  unfold inner_as_dict, dkeys. induction (properties sec) as [|[k p] ps IH]; cbn [map fst dget]; [by intros ?%elem_of_nil|].
  case_decide as E; [by rewrite E|]. intros [->|Hn]%elem_of_cons; [done|by apply IH].
Qed.

Lemma notifications_migrate_ok d : migrating Notifications d ->
  migrating Notifications (dupdate (inner_as_dict Notifications (init_values Notifications)) d).
Proof.
  intros [Hw Hl].
  assert (Hd : migrating Notifications (inner_as_dict Notifications (init_values Notifications))).
  { split; [unfold dwf; rewrite as_dict_keys; apply properties_wf|]. intros n v H. apply default_entry_ok.
    - by apply dget_Some_elem_of in H.
    - assert (K : Forall (fun kv => kv.2 <> VNone) (init_values Notifications)) by by repeat constructor.
      rewrite Forall_forall in K. apply dget_Some_elem_of in H. by apply K in H. }
  assert (Hl' : Forall (fun kv => entry_ok Notifications kv.1 kv.2) d).
  { apply Forall_forall. intros [k v] Hin. apply Hl. by apply dget_elem_of. }
  clear Hw Hl. unfold dupdate. revert Hd. generalize (inner_as_dict Notifications (init_values Notifications)).
  induction Hl' as [|[k v] d Hk Hd' IH]; intros a Ha; [done|]. cbn [fold_left fst snd]. apply IH. by apply migrating_dset.
Qed.

Lemma migrate_cases sec d : migrating sec d ->
  (exists e, migrate sec d = Raise e /\ config_error e) \/ (exists d', migrate sec d = Ok d' /\ migrating sec d' /\ coupled_dict sec d').
Proof.
  intros H. destruct sec; cbn [migrate].
  1: { destruct (general_migrate_cases d H) as [|(d' & E & H')]; [by left|right]. by exists d'. }
  all: right; rewrite ?new_eq; cbn [mbind result_bind]; eexists; (split; [reflexivity|]).
  - by apply lftp_migrate_ok.
  - split; [|done]. apply migrating_set_missing; [done|default_entry].
  - split; [|done]. apply migrating_set_missing; [done|default_entry].
  - done.
  - split; [|done]. apply migrating_set_missing; [done|default_entry].
  - split; [|done]. by apply logging_migrate_ok.
  - split; [|done]. by apply notifications_migrate_ok.
Qed.
