(* ===== verification/ConfigFile.v ===== *)
(** * Configuration: the settings file

    Reading a text file gives settled sections or a configuration error; a
    configuration that was read from a file and saved reads back the same. *)

From S2P Require Import Prelude PyDict PyStr Json Ini Config ConfigFacts ConfigLoad.

(** ** Outcomes of loading *)

(** A value with the property, or a configuration error. *)
Definition yields {A} (Q : A -> Prop) (r : result A) : Prop := match r with Ok x => Q x | Raise e => config_error e end.

Lemma yields_bind {A B} (P : A -> Prop) (Q : B -> Prop) (m : result A) (k : A -> result B) :
  yields P m -> (forall x, P x -> yields Q (k x)) -> yields Q (m ≫= k).
Proof. intros Hm Hk. destruct m as [x|e]; cbn in *; [by apply Hk|done]. Qed.

Definition all_written (sec : section) (st : attrs) : Prop :=
  forall n p, dget (properties sec) n = Some p -> written p (cls_name sec) n (_get_property st n).

(** What a section read from a file is like. *)
Definition filed (sec : section) (st : attrs) : Prop :=
  settled sec st /\ ((forall n, one_line (_get_property st n)) -> all_written sec st).

Lemma loaded_filed sec d st : migrating sec d -> coupled_dict sec d -> loaded sec d st -> filed sec st.
Proof.
  intros [Hw Hl] Hc [Hk Hv Hn].
  assert (Hval : forall n p, dget (properties sec) n = Some p ->
    exists v, dget d n = Some v /\ readmit p (cls_name sec) n v = Ok (_get_property st n)).
  { intros n p Hp. destruct (Hv n (property_key _ _ _ Hp)) as [(q & v & Hq & Hd & Hr) E]. rewrite Hp in Hq. injection Hq as <-.
    exists v. rewrite E. done. }
  split; [split|].
  - done.
  - intros n p Hp. destruct (Hval n p Hp) as (v & _ & Hr). by eapply row_stable; [eapply properties_ok|].
  - intros ->. assert (Hg : forall n, n ∈ dkeys (properties Lftp) -> _get_property st n = target Lftp d n) by (intros n Hin; by apply Hv).
    rewrite !Hg by (apply (bool_decide_unpack _); vm_compute; exact I). by apply Hc.
  - intros Hone n p Hp. destruct (Hval n p Hp) as (v & Hd & Hr). destruct (Hl n v Hd) as [(s & -> & Hs)|(q & Hq & _ & Hrv & Hwr)].
    + eapply row_written; [eapply properties_ok; exact Hp|exact Hr|done|apply Hone].
    + rewrite Hp in Hq. injection Hq as <-. rewrite Hrv in Hr. injection Hr as <-. done.
Qed.

Lemma section_from_dict_yields sec d : migrating sec d -> yields (filed sec) (section_from_dict sec d).
Proof.
  intros H. unfold section_from_dict. destruct (migrate_cases sec d H) as [(e & -> & He)|(d' & -> & Hm & Hc)]; [done|]. cbn [mbind result_bind].
  destruct (inner_from_dict_cases sec d' Hc (proj2 Hm) (proj1 Hm)) as [(e & -> & He & _)|(st & -> & Hst)]; [done|]. by eapply loaded_filed.
Qed.

(** A dictionary of texts. *)
Definition texts (d : dict string cval) : Prop := dwf d /\ forall k v, dget d k = Some v -> exists s, v = VStr s /\ file_text s.

Lemma texts_migrating sec d : texts d -> migrating sec d.
Proof. intros [Hw H]. split; [done|]. intros n v Hd. left. by apply H in Hd. Qed.

Lemma texts_dpop d k : texts d -> texts (dpop d k).
Proof. intros [Hw H]. split; [by apply dwf_dpop|]. intros n v. rewrite dget_dpop by done. case_decide; [done|]. apply H. Qed.

Definition outer_texts (oc : outer) : Prop := dwf oc /\ forall k d, dget oc k = Some d -> texts d.

Lemma outer_dpop oc k : outer_texts oc -> outer_texts (dpop oc k).
Proof. intros [Hw H]. split; [by apply dwf_dpop|]. intros n d. rewrite dget_dpop by done. case_decide; [done|]. apply H. Qed.

Lemma check_section_yields oc k : outer_texts oc -> yields (fun r => texts r.1 /\ outer_texts r.2) (_check_section oc k).
Proof.
  intros H. unfold _check_section. destruct (dget oc k) as [d|] eqn:E; [|by eexists]. split; [by eapply H|by apply outer_dpop].
Qed.

Lemma pop_section_texts oc k : outer_texts oc -> texts (pop_section oc k).1 /\ outer_texts (pop_section oc k).2.
Proof.
  intros H. split; [|by apply outer_dpop]. cbn [pop_section fst]. destruct (dget oc k) as [d|] eqn:E; [by eapply H|].
  split; [apply dwf_nil|done].
Qed.

Lemma take_secret_migrating legacy d : (exists s, legacy = VStr s /\ file_text s) -> texts d -> migrating Notifications (take_secret legacy d).
Proof.
  intros (s & -> & Hs) Hd. unfold take_secret. destruct (_ && _); [|by apply texts_migrating].
  apply migrating_dset; [by apply texts_migrating|]. by apply text_entry.
Qed.

Lemma new_config_eq : new_config = Ok (mkConfig None (init_values General) (init_values Lftp) (init_values Validate) (init_values Controller)
  (init_values Web) (init_values AutoQueue) (init_values Logging) (init_values Notifications)).
Proof. unfold new_config. by rewrite !new_eq. Qed.

Definition filed_config (c : config) : Prop := file_path c = None /\ forall sec, filed sec (section_of c sec).

Lemma from_dict_yields oc : outer_texts oc -> yields filed_config (from_dict oc).
Proof.
  intros H. unfold from_dict. rewrite new_config_eq. cbn [mbind result_bind].
  eapply yields_bind; [by apply check_section_yields|]. intros [g o1] [Hg H1]. cbn [fst snd] in *.
  eapply yields_bind; [by apply section_from_dict_yields, texts_migrating, texts_dpop|]. intros gs Hgs.
  eapply yields_bind; [by apply check_section_yields|]. intros [l o2] [Hl H2]. cbn [fst snd] in *.
  eapply yields_bind; [by apply section_from_dict_yields, texts_migrating|]. intros ls Hls.
  destruct (pop_section_texts o2 "Validate" H2) as [Hv H3].
  eapply yields_bind; [by apply section_from_dict_yields, texts_migrating|]. intros vs Hvs.
  eapply yields_bind; [by apply check_section_yields|]. intros [ct o4] [Hct H4]. cbn [fst snd] in *.
  eapply yields_bind; [by apply section_from_dict_yields, texts_migrating|]. intros cts Hcts.
  eapply yields_bind; [by apply check_section_yields|]. intros [w o5] [Hw H5]. cbn [fst snd] in *.
  eapply yields_bind; [by apply section_from_dict_yields, texts_migrating|]. intros ws Hws.
  eapply yields_bind; [by apply check_section_yields|]. intros [a o6] [Ha H6]. cbn [fst snd] in *.
  eapply yields_bind; [by apply section_from_dict_yields, texts_migrating|]. intros aus Haus.
  destruct (pop_section_texts o6 "Logging" H6) as [Hlo H7].
  eapply yields_bind; [by apply section_from_dict_yields, texts_migrating|]. intros los Hlos.
  destruct (pop_section_texts _ "Notifications" H7) as [Hn H8].
  eapply yields_bind; [apply section_from_dict_yields, take_secret_migrating; [|done]|].
  { destruct (dget g "webhook_secret") as [u|] eqn:E; [by apply Hg in E|]. by exists "". }
  intros ns Hns. eapply (yields_bind (fun _ => True)).
  { unfold _check_empty_outer_dict. case_match; [done|]. case_match. by eexists. }
  intros _ _. split; [done|]. by intros [].
Qed.

Lemma outer_texts_read t d : ini_read t = Ok d -> outer_texts (map (fun sv => (sv.1, map (fun kv => (kv.1, VStr kv.2)) sv.2)) d).
Proof.
  intros [Hw Hf]%ini_read_text. split; [unfold dwf, dkeys; by rewrite map_map|]. intros k o Ho. apply dget_Some_elem_of in Ho.
  apply list_elem_of_fmap in Ho as ([k' opts] & [= -> ->] & Hin). rewrite Forall_forall in Hf. destruct (Hf _ Hin) as [Hwo Hv]. cbn [fst snd] in *.
  split; [unfold dwf, dkeys; by rewrite map_map|]. intros n v Hn. apply dget_Some_elem_of in Hn.
  apply list_elem_of_fmap in Hn as ([n' s] & [= -> ->] & Hs). exists s. split; [done|]. rewrite Forall_forall in Hv. by apply Hv in Hs.
Qed.

(** The exceptions of [from_str]. *)
Definition load_error (e : exn) : Prop :=
  config_error e \/ e = PersistError "Error parsing Config" \/ e = DuplicateSectionError \/ e = DuplicateOptionError.

Lemma from_str_outcome t : match from_str t with Ok c => filed_config c | Raise e => load_error e end.
Proof.
  unfold from_str. destruct (ini_read t) as [d|e] eqn:E; cbn [mbind result_bind].
  - pose proof (from_dict_yields _ (outer_texts_read t d E)) as H. destruct (from_dict _); [done|by left].
  - apply ini_read_errors in E as [->|[->| ->]]; cbn; unfold load_error; auto.
Qed.

(** ** Saving and reading back *)

Lemma dset_same {V} (d : dict string V) k v : dget d k = Some v -> dset d k v = d.
Proof. induction d as [|[k' v'] d IH]; [done|]. cbn [dget dset]. case_decide as E; [by intros [= ->]|]. intros H. by rewrite IH. Qed.

Lemma dpop_absent {V} (d : dict string V) k : k ∉ dkeys d -> dpop d k = d.
Proof.
  induction d as [|[k' v'] d IH]; [done|]. cbn [dkeys map fst dpop]. intros [Hk Hd]%not_elem_of_cons. rewrite decide_False by done.
  by rewrite IH.
Qed.

Lemma attrs_ext (a b : attrs) : dkeys a = dkeys b -> NoDup (dkeys a) -> (forall n, n ∈ dkeys a -> _get_property a n = _get_property b n) -> a = b.
Proof.
  unfold _get_property. revert b. induction a as [|[k v] a IH]; intros [|[k' v'] b] Hk Hn H; try done. cbn [dkeys map fst] in Hk. simplify_eq.
  cbn [dkeys map fst] in Hn. apply NoDup_cons in Hn as [Hk' Hn].
  assert (v = v') as ->. { specialize (H k' ltac:(by left)). cbn [dget] in H. rewrite !decide_True in H by done. exact H. }
  f_equal. apply IH; [done|done|]. intros n Hin. specialize (H n ltac:(by right)). cbn [dget] in H. rewrite !decide_False in H by (intros ->; by apply Hk').
  exact H.
Qed.

Lemma dupdate_snoc {V} (a l : dict string V) : dkeys a = map fst l -> NoDup (dkeys a) -> dupdate a l = l.
Proof.
  assert (K : forall l a pre : dict string V, dkeys a = map fst l -> NoDup (dkeys (pre ++ a)) -> dupdate (pre ++ a) l = pre ++ l).
  { clear. induction l as [|[k v] l IH]; intros [|[k' v'] a] pre Hk Hn; try done. cbn [dkeys map fst] in Hk. injection Hk as -> Hk.
    unfold dupdate in *. cbn [fold_left fst snd].
    assert (Hs : dset (pre ++ (k, v') :: a) k v = (pre ++ [(k, v)]) ++ a).
    { unfold dkeys in Hn. rewrite map_app in Hn. apply NoDup_app in Hn as (_ & Hd & _). clear -Hd.
      induction pre as [|[x y] pre IHp]; cbn [app dset]; [by rewrite decide_True|]. rewrite decide_False.
      - by rewrite IHp by (intros z Hz; apply Hd; by right).
      - intros ->. apply (Hd x); [by left|]. cbn [map fst]. by left. }
    rewrite Hs, IH; [by rewrite <- app_assoc|done|]. revert Hn. unfold dkeys. by rewrite <- app_assoc, !map_app. }
  intros Hk Hn. by apply (K l a []).
Qed.

(** The texts of a section. *)
Definition text_of (sec : section) (st : attrs) (d : dict string cval) : Prop :=
  dkeys d = dkeys (properties sec) /\ forall n p, dget (properties sec) n = Some p ->
    exists s, dget d n = Some (VStr s) /\ py_str (_get_property st n) = Ok s /\ readmit p (cls_name sec) n (VStr s) = Ok (_get_property st n) /\ value_ok s.

Lemma text_of_wf sec st d : text_of sec st d -> dwf d.
Proof. intros [Hk _]. unfold dwf. rewrite Hk. apply properties_wf. Qed.

Lemma set_missing_present d k v : k ∈ dkeys d -> set_missing k v d = d.
Proof. intros H. unfold set_missing. apply dget_is_Some, dhas_true in H. by rewrite H. Qed.

Ltac known_key Hk := rewrite Hk; apply (bool_decide_unpack _); vm_compute; exact I.

Lemma general_migrate_text st d : text_of General st d -> general_migrate d = Ok d.
Proof.
  intros [Hk _]. unfold general_migrate. rewrite (dpop_absent d) by known_key Hk. rewrite !(set_missing_present d) by known_key Hk.
  unfold migrate_log_level. assert (H : forall k, k ∈ dkeys (properties General) -> dhas d k = true) by (intros k Hin; apply dhas_true, dget_is_Some; by rewrite Hk).
  rewrite H by (apply (bool_decide_unpack _); vm_compute; exact I). rewrite (dpop_absent d) by known_key Hk. cbn [mbind result_bind].
  unfold renamed. rewrite !(set_missing_present d) by known_key Hk. rewrite H by (apply (bool_decide_unpack _); vm_compute; exact I).
  rewrite (dpop_absent d) by known_key Hk. rewrite H by (apply (bool_decide_unpack _); vm_compute; exact I).
  rewrite (dpop_absent d) by known_key Hk. by rewrite !(set_missing_present d) by known_key Hk.
Qed.

Lemma lftp_migrate_text st d : text_of Lftp st d -> coupled Lftp st -> lftp_migrate d = d.
Proof.
  intros [Hk Hv] Hc. unfold lftp_migrate. rewrite !(set_missing_present d) by known_key Hk.
  destruct (Hv "transfer_backend" _ eq_refl) as (s & Hs & Hp & Hr & _). rewrite backend_readmit in Hr.
  assert (Hn : _normalize_transfer_backend (VStr s) = _get_property st "transfer_backend") by congruence.
  assert (Hb : _get_property st "transfer_backend" = VStr s).
  { destruct (backend_values (VStr s)) as [E|E]; rewrite E in Hn; rewrite <- Hn in Hp |- *; by injection Hp as <-. }
  rewrite Hs. cbn [default from_option id]. rewrite Hn, Hb, (dset_same d _ _ Hs). case_bool_decide as E; [|done].
  rewrite E in Hb. apply (Hc eq_refl) in Hb. destruct (Hv "protocol" _ eq_refl) as (q & Hq & Hpq & _). rewrite Hb in Hpq. injection Hpq as <-.
  by apply dset_same.
Qed.

Lemma logging_migrate_text st d : text_of Logging st d -> logging_migrate d = d.
Proof.
  intros [_ Hv]. unfold logging_migrate. destruct (Hv "log_format" _ eq_refl) as (s & -> & _ & Hr & _).
  destruct (String.eqb_spec (strip s) "") as [E|]; [|done]. revert Hr. unfold readmit. cbn [prop_converter prop_checker Converters.null mbind result_bind].
  unfold Checkers.log_format, _normalize_log_format, one_of. rewrite E. done.
Qed.

Lemma migrate_text sec st d : text_of sec st d -> coupled sec st -> migrate sec d = Ok d.
Proof.
  intros H Hc. pose proof (proj1 H) as Hk. destruct sec; cbn [migrate].
  - by eapply general_migrate_text.
  - by rewrite (lftp_migrate_text st d H Hc).
  - by rewrite (set_missing_present d) by known_key Hk.
  - by rewrite (set_missing_present d) by known_key Hk.
  - done.
  - by rewrite (set_missing_present d) by known_key Hk.
  - by rewrite (logging_migrate_text st d H).
  - rewrite new_eq. cbn [mbind result_bind]. f_equal. apply dupdate_snoc; [by rewrite as_dict_keys|]. rewrite as_dict_keys. apply properties_wf.
Qed.

Lemma section_reload sec st d : settled sec st -> text_of sec st d -> section_from_dict sec d = Ok st.
Proof.
  intros [Hk Hv Hc] Ht. unfold section_from_dict. rewrite (migrate_text sec st d Ht Hc). cbn [mbind result_bind]. pose proof Ht as [Hkd Hd].
  assert (Htg : forall n p, dget (properties sec) n = Some p -> target sec d n = _get_property st n /\ accepted sec d n).
  { intros n p Hp. destruct (Hd n p Hp) as (s & Hs & _ & Hr & _). assert (E : target sec d n = _get_property st n) by (unfold target; by rewrite Hp, Hs, Hr).
    split; [done|]. exists p, (VStr s). by rewrite E. }
  assert (Hl : loadable sec d).
  { intros n v Hn. left. assert (Hin : n ∈ dkeys (properties sec)) by (rewrite <- Hkd; by apply dget_is_Some).
    apply dget_is_Some in Hin as [p Hp]. destruct (Hd n p Hp) as (s & Hs & _ & _ & Hok). rewrite Hs in Hn. injection Hn as <-.
    exists s. split; [done|]. intros _. apply Hok. }
  assert (Hcd : coupled_dict sec d).
  { intros ->. rewrite (proj1 (Htg "transfer_backend" _ eq_refl)), (proj1 (Htg "protocol" _ eq_refl)). by apply Hc. }
  destruct (inner_from_dict_cases sec d Hcd Hl (text_of_wf _ _ _ Ht)) as [(e & _ & _ & [(n & Hn & Ha)|(n & Hn & Ha)])|(st' & -> & [Hk' Hv' _])].
  - apply dget_is_Some in Hn as [p Hp]. destruct Ha. by eapply Htg.
  - by rewrite Hkd in Hn.
  - f_equal. apply attrs_ext; [by rewrite Hk, Hk'|rewrite Hk'; apply properties_wf|]. intros n Hn. rewrite Hk' in Hn.
    destruct (Hv' n Hn) as [_ ->]. apply dget_is_Some in Hn as [p Hp]. by eapply Htg.
Qed.

Definition shown (st : attrs) (n : string) : string := match py_str (_get_property st n) with Ok s => s | Raise _ => "" end.

Definition section_text (sec : section) (st : attrs) : dict string string := map (fun p => (p.1, shown st p.1)) (properties sec).

Lemma dget_map_names {V} (f : string -> V) (ps : dict string PropMetadata) n :
  dget (map (fun p => (p.1, f p.1)) ps) n = match dget ps n with Some _ => Some (f n) | None => None end.
Proof. induction ps as [|[k p] ps IH]; [done|]. cbn [map fst dget]. case_decide as E; [by rewrite E|done]. Qed.

Lemma str_values_text sec st : all_written sec st -> str_values (inner_as_dict sec st) = Ok (section_text sec st).
Proof.
  intros H. assert (K : Forall (fun p => exists s, py_str (_get_property st p.1) = Ok s) (properties sec)).
  { apply Forall_forall. intros [n p] Hin. destruct (H n p) as (s & Hs & _); [|by exists s]. apply dget_elem_of; [apply properties_wf|done]. }
  unfold inner_as_dict, section_text. clear H. induction K as [|[n p] ps [s Hs] _ IH]; [done|]. cbn [map fst str_values].
  unfold shown at 1. cbn [fst] in Hs. rewrite Hs. cbn [mbind result_bind]. by rewrite IH.
Qed.

Lemma section_text_of sec st : all_written sec st -> text_of sec st (map (fun kv => (kv.1, VStr kv.2)) (section_text sec st)).
Proof.
  intros H. unfold section_text. rewrite map_map. cbn [fst snd]. split; [unfold dkeys; by rewrite map_map|]. intros n p Hp.
  destruct (H n p Hp) as (s & Hs & Hv & Hr). exists s. rewrite (dget_map_names (fun n => VStr (shown st n))), Hp. unfold shown. by rewrite Hs.
Qed.

Lemma property_keys_ok : Forall (fun sec => forallb (fun p => key_ok p.1) (properties sec) = true) sections.
Proof. repeat constructor. Qed.

Lemma all_sections sec : sec ∈ sections.
Proof. destruct sec; apply (bool_decide_unpack _); vm_compute; exact I. Qed.

Lemma section_text_ok sec st : all_written sec st -> section_ok (cls_name sec, section_text sec st).
Proof.
  intros H. split; [|split].
  - destruct sec; (split_and!; [done|done|apply (bool_decide_unpack _); vm_compute; exact I]).
  - unfold dwf, section_text, dkeys. cbn [snd]. rewrite map_map. apply properties_wf.
  - unfold section_text. cbn [snd]. apply Forall_map, Forall_forall. intros [n p] Hin. cbn [fst snd].
    pose proof property_keys_ok as Hk. rewrite Forall_forall in Hk. specialize (Hk sec (all_sections sec)). rewrite forallb_forall in Hk.
    split; [by apply list_elem_of_In in Hin; apply Hk in Hin|].
    destruct (H n p) as (s & Hs & Hv & _); [apply dget_elem_of; [apply properties_wf|done]|]. unfold shown. by rewrite Hs.
Qed.

Definition config_text (c : config) : dict string (dict string string) :=
  map (fun sec => (cls_name sec, section_text sec (section_of c sec))) sections.

Lemma to_str_text c : (forall sec, all_written sec (section_of c sec)) -> to_str c = Ok (ini_write (config_text c)).
Proof.
  intros H. unfold to_str. assert (str_sections (as_dict c) = Ok (config_text c)) as ->; [|done]. unfold as_dict, config_text.
  induction sections as [|sec l IH]; [done|]. cbn [map str_sections]. rewrite (str_values_text sec _ (H sec)). cbn [mbind result_bind].
  by rewrite IH.
Qed.

(** The eight sections in file order. *)
Lemma from_dict_eight g l v ct w a lo n :
  from_dict [("General", g); ("Lftp", l); ("Validate", v); ("Controller", ct); ("Web", w); ("AutoQueue", a); ("Logging", lo); ("Notifications", n)] =
  (g' ← section_from_dict General (dpop g "webhook_secret"); l' ← section_from_dict Lftp l; v' ← section_from_dict Validate v;
   ct' ← section_from_dict Controller ct; w' ← section_from_dict Web w; a' ← section_from_dict AutoQueue a; lo' ← section_from_dict Logging lo;
   n' ← section_from_dict Notifications (take_secret (default (VStr "") (dget g "webhook_secret")) n);
   Ok (mkConfig None g' l' v' ct' w' a' lo' n')).
Proof. unfold from_dict. rewrite new_config_eq. reflexivity. Qed.

Definition unbound (c : config) : config :=
  mkConfig None (general c) (lftp c) (validate c) (controller c) (web c) (autoqueue c) (logging c) (notifications c).

Lemma save_and_load c : (forall sec, settled sec (section_of c sec)) -> (forall sec, all_written sec (section_of c sec)) ->
  exists t, to_str c = Ok t /\ from_str t = Ok (unbound c).
Proof.
  intros Hs Hw. exists (ini_write (config_text c)). split; [by apply to_str_text|]. unfold from_str. rewrite ini_read_write.
  2: { split; [unfold dwf, dkeys, config_text; rewrite map_map; apply (bool_decide_unpack _); vm_compute; exact I|].
       unfold config_text. apply Forall_map, Forall_forall. intros sec _. by apply section_text_ok. }
  cbn [mbind result_bind]. unfold config_text. rewrite map_map. unfold sections. cbn [map fst snd cls_name].
  pose proof (fun sec => section_text_of sec _ (Hw sec)) as Ht.
  pose proof (fun sec => section_reload sec _ _ (Hs sec) (Ht sec)) as Hr.
  rewrite from_dict_eight. destruct (Ht General) as [Hk _].
  rewrite (dpop_absent _ "webhook_secret") by known_key Hk.
  assert (dget (map (fun kv => (kv.1, VStr kv.2)) (section_text General (section_of c General))) "webhook_secret" = None) as ->
    by (apply dget_None; known_key Hk).
  cbn [default from_option]. unfold take_secret. cbn [truthy String.eqb negb andb].
  rewrite (Hr General). cbn [mbind result_bind]. rewrite (Hr Lftp). cbn [mbind result_bind]. rewrite (Hr Validate). cbn [mbind result_bind].
  rewrite (Hr Controller). cbn [mbind result_bind]. rewrite (Hr Web). cbn [mbind result_bind]. rewrite (Hr AutoQueue). cbn [mbind result_bind].
  rewrite (Hr Logging). cbn [mbind result_bind]. rewrite (Hr Notifications). done.
Qed.

(** ** Theorems *)

Definition single_line (c : config) : Prop := forall sec, Forall (fun kv => one_line kv.2) (section_of c sec).

Lemma single_line_get (st : attrs) : Forall (fun kv => one_line kv.2) st -> forall n, one_line (_get_property st n).
Proof.
  intros H n. unfold _get_property. destruct (dget st n) as [v|] eqn:E; [|done]. rewrite Forall_forall in H. by apply dget_Some_elem_of, H in E.
Qed.

(** C28: a configuration that was read from a settings file and whose text
    values have one line each can be saved, and reading the saved file gives
    exactly the same configuration, whatever older keys, comments, defaults or
    spellings the first file used. *)
Theorem config_reload t c : from_str t = Ok c -> single_line c -> exists t', to_str c = Ok t' /\ from_str t' = Ok c.
Proof.
  intros H Hl. pose proof (from_str_outcome t) as K. rewrite H in K. destruct K as [Hp Hf].
  destruct (save_and_load c) as (t' & H1 & H2); [intros sec; apply Hf|intros sec; apply Hf, single_line_get, Hl|].
  exists t'. split; [done|]. rewrite H2. f_equal. destruct c. cbn in Hp. by rewrite Hp.
Qed.

(** C35: reading a settings file gives a configuration in which every value is
    one that its own converter and checker return unchanged (with the rclone
    backend only together with sftp), or raises one of four exceptions: a
    configuration error, the persistence error of an unreadable file, or, for
    a section or an option that is there twice, the parser's own duplicate
    errors, which the caller's handler of the other two does not see. *)
Theorem from_str_contract :
  (forall t, match from_str t with
             | Ok c => forall sec, settled sec (section_of c sec)
             | Raise e => load_error e
             end) /\
  from_str (ini_write [("Web", [("port", "1"); ("port", "2")])]) = Raise DuplicateOptionError /\
  from_str (ini_write [("Web", []); ("Web", [])]) = Raise DuplicateSectionError.
Proof.
  split; [|by vm_compute]. intros t. pose proof (from_str_outcome t) as K. destruct (from_str t) as [c|e]; [|done]. intros sec. apply K.
Qed.

(** The first configuration, saved and read. *)
Definition default_text : string := match (c ← _create_default_config; to_str c) with Ok t => t | Raise _ => "" end.
Definition default_loaded : config :=
  match from_str default_text with Ok c => c | Raise _ => mkConfig None [] [] [] [] [] [] [] [] end.

Lemma default_loads : from_str default_text = Ok default_loaded.
Proof. vm_compute. reflexivity. Qed.

Lemma default_settled sec : settled sec (section_of default_loaded sec).
Proof. pose proof (from_str_outcome default_text) as K. rewrite default_loads in K. apply K. Qed.

#[export] Instance one_line_dec v : Decision (one_line v).
Proof. destruct v; cbn [one_line]; apply _. Defined.

Lemma config_reload_witness : from_str default_text = Ok default_loaded /\
  exists t', to_str default_loaded = Ok t' /\ from_str t' = Ok default_loaded.
Proof.
  split; [exact default_loads|]. apply (config_reload default_text default_loaded); [exact default_loads|].
  intros sec. apply (bool_decide_unpack _). destruct sec; vm_compute; exact I.
Defined.
