(* ===== verification/ConfigApi.v ===== *)
(** * The configuration API ([web/handler/config.py],
      [web/serialize/serialize_config.py], [web/config_restart.py])

    Setting one value over the web API, with its guards, the save and the
    roll-back, and the view of the settings that the API serves.  The value of
    a request is a scalar; the text of the request is decoded before. *)

From S2P Require Import Prelude PyDict PyStr Json Ini Config.

(** ** Restart requirements *)

Definition LFTP_RUNTIME_RECONFIGURE_FIELDS : list string :=
  [ "num_max_parallel_downloads"; "num_max_parallel_files_per_download"; "num_max_connections_per_root_file";
    "num_max_connections_per_dir_file"; "num_max_total_connections"; "rate_limit"; "net_socket_buffer" ].
Definition VALIDATE_RUNTIME_RECONFIGURE_FIELDS : list string := ["xfer_verify"].
Definition GENERAL_RUNTIME_RECONFIGURE_FIELDS : list string := ["verbose"; "exclude_patterns"].
Definition GENERAL_RUNTIME_NO_RESTART_FIELDS : list string :=
  ["verbose"; "exclude_patterns"; "breadcrumb_trace_enabled"; "performance_diagnostics_enabled"].

Definition requires_restart (section key : string) : bool :=
  if String.eqb section "general" && bool_decide (key ∈ GENERAL_RUNTIME_NO_RESTART_FIELDS) then false
  else if String.eqb section "lftp" && bool_decide (key ∈ LFTP_RUNTIME_RECONFIGURE_FIELDS) then false
  else if String.eqb section "validate" && bool_decide (key ∈ VALIDATE_RUNTIME_RECONFIGURE_FIELDS) then false
  else true.

(** ** [SerializeConfig] *)

Definition REDACTED_SENTINEL : string := "**REDACTED**".
Definition _REMOTE_DETAIL_FIELDS : list string := ["remote_address"; "remote_username"; "remote_path"; "remote_python_path"].
Definition _CONFIG_FILE_ONLY_FIELDS : list (string * list string) := [("lftp", ["use_legacy_lftp_password_argv"])].

Definition json_of (v : cval) : json :=
  match v with VNone => JNull | VBool b => JBool b | VInt z => JInt z | VStr s => JStr s end.

Definition view : Type := dict string (dict string cval).

(** [if section in v: v[section] = f(v[section])] *)
Definition in_section (section : string) (f : dict string cval -> dict string cval) (v : view) : view :=
  match dget v section with Some d => dset v section (f d) | None => v end.

(** [for field in fields: section_dict.pop(field, None)] *)
Definition drop_fields (fields : list string) (d : dict string cval) : dict string cval := fold_left dpop fields d.

(** [for field in fields: if field in section_dict: section_dict[field] = _REDACTED] *)
Definition redact (fields : list string) (d : dict string cval) : dict string cval :=
  fold_left (fun d f => if dhas d f then dset d f (VStr REDACTED_SENTINEL) else d) fields d.

Definition configured_flags (n : attrs) (d : dict string cval) : dict string cval :=
  let flag k := VBool (truthy (_get_property n k)) in
  dset (dset (dset d "webhook_url_configured" (flag "webhook_url")) "hmac_secret_configured" (flag "hmac_secret"))
    "apprise_url_configured" (flag "apprise_url").

Definition serialize_view (c : config) : view :=
  let v := map (fun sv => (lower sv.1, sv.2)) (as_dict c) in
  let v := fold_left (fun v sf => in_section sf.1 (drop_fields sf.2) v) _CONFIG_FILE_ONLY_FIELDS v in
  let v := fold_left (fun v sf => in_section sf.1 (redact sf.2) v) SENSITIVE_FIELDS v in
  let v := in_section "notifications" (configured_flags (notifications c)) v in
  if truthy (_get_property (general c) "config_api_redact_remote_details") then in_section "lftp" (redact _REMOTE_DETAIL_FIELDS) v else v.

(** The document that [SerializeConfig.config] writes. *)
Definition serialize_config (c : config) : json :=
  let v := serialize_view c in
  let restart := map (fun sd => (sd.1, JObj (map (fun kv => (kv.1, JBool (requires_restart sd.1 kv.1))) sd.2))) v in
  JObj (dset (map (fun sd => (sd.1, JObj (map (fun kv => (kv.1, json_of kv.2)) sd.2))) v) "restart_required" (JObj restart)).

(** ** [ConfigHandler] *)

Definition BODY_SET_BLOCKED_FIELDS : dict string (list string) :=
  [ ("general", ["api_token"; "config_api_redact_remote_details"; "disable_browser_auth"]);
    ("notifications", ["enabled"; "provider"; "webhook_url"; "hmac_secret"; "apprise_url"; "apprise_tag"; "allow_private_networks";
                       "download_start"; "download_complete"; "extraction_complete"; "delete_complete"]);
    ("lftp", ["use_legacy_lftp_password_argv"]) ].

Definition is_blank_text (v : cval) : bool :=
  match v with VNone => true | VStr s => String.eqb (strip s) "" | _ => false end.

Definition normalize_for_guard (v : cval) : cval := match v with VStr s => VStr (lower (strip s)) | _ => v end.

Definition would_create_blank_ftps_password (st : attrs) (section key : string) (value : cval) : bool :=
  if negb (String.eqb section "lftp") then false
  else
    let transfer_backend := if String.eqb key "transfer_backend" then value else _get_property st "transfer_backend" in
    let protocol := if String.eqb key "protocol" then value else _get_property st "protocol" in
    let remote_password :=
      if String.eqb key "protocol" then _get_property st "remote_password"
      else if String.eqb key "remote_password" then value else _get_property st "remote_password" in
    bool_decide (normalize_for_guard transfer_backend = VStr "lftp") && bool_decide (normalize_for_guard protocol = VStr "ftps")
    && is_blank_text remote_password.

Definition normalize_lftp_backend_constraints (st : attrs) : result attrs :=
  if bool_decide (_get_property st "transfer_backend" = VStr "rclone") then set_property Lftp st "protocol" (VStr "sftp") else Ok st.

(** [getattr(config, section)] *)
Definition section_named (name : string) : option section :=
  if String.eqb name "general" then Some General else if String.eqb name "lftp" then Some Lftp
  else if String.eqb name "validate" then Some Validate else if String.eqb name "controller" then Some Controller
  else if String.eqb name "web" then Some Web else if String.eqb name "autoqueue" then Some AutoQueue
  else if String.eqb name "logging" then Some Logging else if String.eqb name "notifications" then Some Notifications else None.

(** [for k, v in snapshot.items(): inner_config.set_property(k, v)] *)
Fixpoint restore_previous_snapshot (sec : section) (st : attrs) (snapshot : dict string cval) : result attrs * attrs :=
  match snapshot with
  | [] => (Ok st, st)
  | (k, v) :: rest =>
      match set_property sec st k v with
      | Ok st' => restore_previous_snapshot sec st' rest
      | Raise e => (Raise e, st)
      end
  end.

Inductive hook := BreadcrumbSync | LftpReconfigure.

Record http := mkHttp { status : Z; body : string }.

(** The configuration object, the text of its file, and the hooks that ran. *)
Record api := mkApi { api_config : config; api_file : option string; api_hooks : list hook }.

(** [config.to_file()]; [disk] is the outcome of the write itself, which
    replaces the file or leaves it as it was. *)
Definition to_file (disk : result unit) (c : config) (file : option string) : result unit * option string :=
  match file_path c with
  | None => (Raise (PersistError "Config file path is not bound"), file)
  | Some _ =>
      match to_str c, disk with
      | Raise e, _ => (Raise e, file)
      | Ok _, Raise e => (Raise e, file)
      | Ok t, Ok _ => (Ok tt, Some t)
      end
  end.

(** The [try] block: the section after it, its outcome, and the file *)
Definition try_set (disk : result unit) (c : config) (file : option string) (sec : section) (section key : string) (value : cval) :
    result unit * attrs * option string :=
  let st := section_of c sec in
  match set_property sec st key value with
  | Raise e => (Raise e, st, file)
  | Ok st1 =>
      match (if String.eqb section "lftp" then normalize_lftp_backend_constraints st1 else Ok st1) with
      | Raise e => (Raise e, st1, file)
      | Ok st2 => let '(r, file') := to_file disk (with_section c sec st2) file in (r, st2, file')
      end
  end.

Definition hooks_of (has_sync has_reconfigure : bool) (section key : string) : list hook :=
  (if has_sync && String.eqb section "general" && String.eqb key "breadcrumb_trace_enabled" then [BreadcrumbSync] else []) ++
  (if has_reconfigure &&
      ((String.eqb section "lftp" && bool_decide (key ∈ LFTP_RUNTIME_RECONFIGURE_FIELDS))
       || (String.eqb section "general" && bool_decide (key ∈ GENERAL_RUNTIME_RECONFIGURE_FIELDS))
       || (String.eqb section "validate" && bool_decide (key ∈ VALIDATE_RUNTIME_RECONFIGURE_FIELDS)))
   then [LftpReconfigure] else []).

Definition FTPS_TRANSFER_PASSWORD_REQUIRED : string := "FTPS requires a transfer password.".

(** [__handle_set_config] for the value of the request *)
Definition handle_set_config (has_sync has_reconfigure : bool) (disk : result unit) (section key : string) (value : cval) (s : api) :
    result http * api :=
  let c := api_config s in
  match section_named section with
  | None => (Ok (mkHttp 404 ("There is no section '" +:+ section +:+ "' in config")), s)
  | Some sec =>
      if negb (has_property sec key) then (Ok (mkHttp 404 ("Section '" +:+ section +:+ "' in config has no option '" +:+ key +:+ "'")), s)
      else if is_sensitive_field (VStr section) (VStr key) && is_redacted_value value then
        (Ok (mkHttp 400 ("Section '" +:+ section +:+ "' option '" +:+ key +:+ "' cannot be set to redacted value")), s)
      else if bool_decide (key ∈ default [] (dget BODY_SET_BLOCKED_FIELDS section)) then
        (Ok (mkHttp 403 ("Section '" +:+ section +:+ "' option '" +:+ key +:+ "' cannot be set via request body")), s)
      else if would_create_blank_ftps_password (section_of c sec) section key value then
        (Ok (mkHttp 400 FTPS_TRANSFER_PASSWORD_REQUIRED), s)
      else
        let old_snapshot := inner_as_dict sec (section_of c sec) in
        let '(r, st, file) := try_set disk c (api_file s) sec section key value in
        match r with
        | Raise e =>
            let '(r', st') := restore_previous_snapshot sec st old_snapshot in
            let s' := mkApi (with_section c sec st') file (api_hooks s) in
            match r', e with
            | Raise e', _ => (Raise e', s')
            | Ok _, ConfigError m => (Ok (mkHttp 400 m), s')
            | Ok _, _ => (Ok (mkHttp 500 ("Failed to persist config " +:+ section +:+ "." +:+ key)), s')
            end
        | Ok _ =>
            let s' := mkApi (with_section c sec st) file (api_hooks s ++ hooks_of has_sync has_reconfigure section key) in
            let response_value :=
              if is_sensitive_field (VStr section) (VStr key) then VStr REDACTED_SENTINEL
              else if inner_has_property sec key then _get_property st key else value in
            (t ← py_str response_value; Ok (mkHttp 200 (section +:+ "." +:+ key +:+ " set to " +:+ t)), s')
        end
  end.
