(* ===== verification/ConfigApiFacts.v ===== *)
(** * The configuration API: atomic updates

    A request that fails leaves the configuration, its file and the hooks as
    they were; a request that succeeds keeps the sections settled and never
    leaves an FTPS transfer without a password. *)

From S2P Require Import Prelude PyDict PyStr Json Ini Config ConfigFacts ConfigLoad ConfigFile ConfigApi.

(** ** Rolling back *)

(** A value that reads back as itself can always be set. *)
Lemma set_back sec st n p v : dget (properties sec) n = Some p -> readmit p (cls_name sec) n v = Ok v ->
  set_property sec st n v = Ok (couple sec n (dset st n v)).
Proof.
  intros Hp Hr. rewrite (set_property_inner _ _ _ _ _ Hp). destruct (decide (v = VNone)) as [->|Hv]; [|by eapply inner_set_accepts].
  unfold inner_set. rewrite Hp. cbn [mbind result_bind]. rewrite set_property_couple. unfold inner_set_property.
  rewrite bool_decide_true by done. cbn [andb]. case_bool_decide; [done|]. unfold readmit in Hr. cbn [mbind result_bind] in *. by rewrite Hr.
Qed.

Lemma restore_rest sec st0 : settled sec st0 -> forall names st seen, (forall n, n ∈ names -> n ∈ dkeys (properties sec)) ->
  assigning sec (_get_property st0) st seen ->
  exists st', restore_previous_snapshot sec st (map (fun n => (n, _get_property st0 n)) names) = (Ok st', st') /\
    assigning sec (_get_property st0) st' (rev names ++ seen).
Proof.
  intros [Hk Hv Hc]. induction names as [|n names IH]; intros st seen Hn Ha; cbn [map restore_previous_snapshot rev app]; [by exists st|].
  destruct (proj2 (dget_is_Some (properties sec) n)) as [p Hp]; [apply Hn; by left|].
  rewrite (set_back _ _ _ _ _ Hp (Hv n p Hp)). rewrite <- app_assoc. apply IH; [intros m Hm; apply Hn; by right|].
  eapply assigning_step; [exact Hc|exact Ha|exact Hp].
Qed.

Lemma as_dict_names sec st : inner_as_dict sec st = map (fun n => (n, _get_property st n)) (dkeys (properties sec)).
Proof. unfold inner_as_dict, dkeys. by rewrite map_map. Qed.

Lemma assigned_all sec st0 st seen : settled sec st0 -> assigning sec (_get_property st0) st seen ->
  (forall n, n ∈ dkeys (properties sec) -> n ∈ seen) -> st = st0.
Proof.
  intros [Hk _ _] [Hk' Hs _] Hall. apply attrs_ext; [by rewrite Hk, Hk'|rewrite Hk'; apply properties_wf|].
  intros n Hn. apply Hs, Hall. by rewrite <- Hk'.
Qed.

(** The backend is restored before the protocol. *)
Lemma restore_snapshot sec st0 st : settled sec st0 -> dkeys st = dkeys (properties sec) ->
  restore_previous_snapshot sec st (inner_as_dict sec st0) = (Ok st0, st0).
Proof.
  intros Hs Hk. rewrite as_dict_names. pose proof Hs as [_ Hv Hc].
  assert (Hrest : forall names st1 seen, assigning sec (_get_property st0) st1 seen -> (forall n, n ∈ names -> n ∈ dkeys (properties sec)) ->
    (forall n, n ∈ dkeys (properties sec) -> n ∈ rev names ++ seen) ->
    restore_previous_snapshot sec st1 (map (fun n => (n, _get_property st0 n)) names) = (Ok st0, st0)).
  { intros names st1 seen Ha Hn Hall. destruct (restore_rest sec st0 Hs names st1 seen Hn Ha) as (st' & -> & Ha').
    by rewrite (assigned_all sec st0 st' _ Hs Ha' Hall). }
  destruct (decide (sec = Lftp)) as [->|Hne].
  - change (dkeys (properties Lftp)) with ("transfer_backend" :: tail (dkeys (properties Lftp))). cbn [map restore_previous_snapshot].
    rewrite (set_back Lftp st "transfer_backend" _ _ eq_refl (Hv "transfer_backend" _ eq_refl)).
    apply (Hrest _ _ ["transfer_backend"]).
    + split.
      * rewrite keys_couple; [|left; apply elem_of_dkeys_dset; right; rewrite Hk; apply (bool_decide_unpack _); vm_compute; exact I].
        rewrite <- Hk. apply dkeys_dset_present. rewrite Hk. apply (bool_decide_unpack _). vm_compute. exact I.
      * intros n ->%list_elem_of_singleton. rewrite get_couple by done. by rewrite get_dset, decide_True.
      * intros _. rewrite get_couple by done. by rewrite get_dset, decide_True.
    + intros n Hn. change (dkeys (properties Lftp)) with ("transfer_backend" :: tail (dkeys (properties Lftp))). by right.
    + intros n. change (dkeys (properties Lftp)) with ("transfer_backend" :: tail (dkeys (properties Lftp))) at 1.
      intros [->|Hn]%elem_of_cons; apply elem_of_app; [right; by left|left]. apply list_elem_of_In. rewrite <- in_rev. by apply list_elem_of_In.
  - apply (Hrest _ _ []); [by split; [|intros n ?%elem_of_nil|]|done|]. intros n Hn. apply elem_of_app. left.
    apply list_elem_of_In. rewrite <- in_rev. by apply list_elem_of_In.
Qed.

(** ** The handler *)

Definition settled_api (s : api) : Prop := forall sec, settled sec (section_of (api_config s) sec).

Lemma section_with c sec st sec' : section_of (with_section c sec st) sec' = if decide (sec = sec') then st else section_of c sec'.
Proof. destruct c, sec, sec'; reflexivity. Qed.

Lemma with_section_same c sec : with_section c sec (section_of c sec) = c.
Proof. by destruct c, sec. Qed.

Lemma with_section_twice c sec a b : with_section (with_section c sec a) sec b = with_section c sec b.
Proof. by destruct c, sec. Qed.

Lemma file_path_with c sec st : file_path (with_section c sec st) = file_path c.
Proof. by destruct c, sec. Qed.

(** What the [try] block leaves: a settled section in any case, the old file unless it succeeded. *)
Lemma try_set_cases disk c file sec section key value r st file' : settled sec (section_of c sec) ->
  (section = "lftp" -> sec = Lftp) -> try_set disk c file sec section key value = (r, st, file') ->
  settled sec st /\ match r with
    | Raise _ => file' = file
    | Ok _ => set_property sec (section_of c sec) key value = Ok st /\ to_str (with_section c sec st) = Ok (default "" file') /\ file' <> None
    end.
Proof.
  intros Hs Hsec. unfold try_set. destruct (set_property sec (section_of c sec) key value) as [st1|e] eqn:E1; [|by intros [= <- <- <-]].
  pose proof (settled_set_property _ _ _ _ _ Hs E1) as Hs1.
  assert (E2 : (if String.eqb section "lftp" then normalize_lftp_backend_constraints st1 else Ok st1) = Ok st1).
  { destruct (String.eqb_spec section "lftp") as [El|]; [|done]. rewrite (Hsec El) in Hs1. unfold normalize_lftp_backend_constraints.
    case_bool_decide as Eb; [|done]. pose proof (se_coupled _ _ Hs1 eq_refl Eb) as Hp. pose proof (se_values _ _ Hs1 "protocol" _ eq_refl) as Hr.
    rewrite Hp in Hr. rewrite (set_back Lftp st1 "protocol" _ _ eq_refl Hr). f_equal. rewrite dset_same.
    - unfold couple. rewrite Hp. rewrite (bool_decide_true (VStr "sftp" = VStr "sftp")) by done. by rewrite andb_false_r.
    - unfold _get_property in Hp. destruct (dget st1 "protocol") as [u|]; [by cbn in Hp; rewrite Hp|done]. }
  rewrite E2. unfold to_file. rewrite file_path_with. destruct (file_path c); [|by intros [= <- <- <-]].
  destruct (to_str (with_section c sec st1)) as [t|] eqn:E3; [|by intros [= <- <- <-]]. destruct disk; intros [= <- <- <-]; [|done].
  split; [done|]. split; [done|]. by rewrite E3.
Qed.

Lemma section_named_lftp section sec : section_named section = Some sec -> section = "lftp" -> sec = Lftp.
Proof. intros H ->. vm_compute in H. by injection H. Qed.

(** The whole request: a success commits, everything else changes nothing. *)
Definition committed (has_sync has_reconfigure : bool) (section key : string) (value : cval) (s s' : api) : Prop :=
  exists sec st t, section_named section = Some sec /\ set_property sec (section_of (api_config s) sec) key value = Ok st /\
    api_config s' = with_section (api_config s) sec st /\ to_str (api_config s') = Ok t /\ api_file s' = Some t /\
    api_hooks s' = api_hooks s ++ hooks_of has_sync has_reconfigure section key /\ would_create_blank_ftps_password (section_of (api_config s) sec) section key value = false.

(** ** The response *)

Lemma str_values_ok d t n v : str_values d = Ok t -> dget d n = Some v -> exists s, py_str v = Ok s.
Proof.
  revert t. induction d as [|[k u] d IH]; intros t; [done|]. cbn [str_values dget]. destruct (py_str u) as [x|] eqn:E; [|done]. cbn [mbind result_bind].
  destruct (str_values d) as [r|]; [|done]. intros _. case_decide; [intros [= <-]; by exists x|]. by apply (IH r).
Qed.

Lemma str_sections_ok d t k v : str_sections d = Ok t -> dget d k = Some v -> exists s, str_values v = Ok s.
Proof.
  revert t. induction d as [|[j u] d IH]; intros t; [done|]. cbn [str_sections dget]. destruct (str_values u) as [x|] eqn:E; [|done]. cbn [mbind result_bind].
  destruct (str_sections d) as [r|]; [|done]. intros _. case_decide; [intros [= <-]; by exists x|]. by apply (IH r).
Qed.

Lemma get_as_dict_outer c sec : dget (as_dict c) (cls_name sec) = Some (inner_as_dict sec (section_of c sec)).
Proof. destruct sec; reflexivity. Qed.

(** A configuration that can be saved has values that can be shown. *)
Lemma saved_shows c t sec n : to_str c = Ok t -> dhas (properties sec) n = true -> exists s, py_str (_get_property (section_of c sec) n) = Ok s.
Proof.
  unfold to_str. destruct (str_sections (as_dict c)) as [d|] eqn:E; [|done]. intros _ Hn. apply dhas_true, dget_is_Some in Hn.
  destruct (str_sections_ok _ _ _ _ E (get_as_dict_outer c sec)) as [s Hs]. eapply str_values_ok; [exact Hs|]. by apply get_as_dict.
Qed.

Lemma debug_value_shows st value st' : set_property General st "debug" value = Ok st' -> exists s, py_str value = Ok s.
Proof.
  unfold set_property. cbn [String.eqb]. destruct value as [|b|z|s]; cbn; eauto. intros H.
  change ((v ← refuse (A := cval) "General" "debug" (VInt z) "must be a boolean value"; inner_set General st "log_level" (VStr (if truthy v then "DEBUG" else "INFO"))) = Ok st') in H.
  destruct (refuse _ _ _ _) as [u|] eqn:E; [by apply refuse_not_ok in E|done].
Qed.

Lemma response_shows c sec st key value section t : set_property sec (section_of c sec) key value = Ok st ->
  to_str (with_section c sec st) = Ok t -> has_property sec key = true ->
  exists x, py_str (if is_sensitive_field (VStr section) (VStr key) then VStr REDACTED_SENTINEL
                    else if inner_has_property sec key then _get_property st key else value) = Ok x.
Proof.
  intros H1 H2 Hh. destruct (is_sensitive_field _ _); [by eexists|]. destruct (inner_has_property sec key) eqn:Ei.
  - destruct (saved_shows _ _ sec key H2 Ei) as [x Hx]. rewrite section_with, decide_True in Hx by done. by exists x.
  - destruct sec; cbn [has_property] in Hh; rewrite ?Ei in Hh; try done. apply orb_true_iff in Hh as [->%String.eqb_eq|]; [|done].
    by eapply debug_value_shows.
Qed.

Lemma handle_outcome hs hr disk section key value s : settled_api s ->
  exists h s', handle_set_config hs hr disk section key value s = (Ok h, s') /\
    ((status h = 200 /\ committed hs hr section key value s s') \/ (status h <> 200 /\ s' = s)).
Proof.
  intros Hs. unfold handle_set_config. destruct (section_named section) as [sec|] eqn:En; [|eexists _, s; split; [done|by right]].
  destruct (has_property sec key) eqn:Eh; cbn [negb]; [|eexists _, s; split; [done|by right]].
  destruct (_ && is_redacted_value value); [eexists _, s; split; [done|by right]|].
  case_bool_decide as Eb; [eexists _, s; split; [done|by right]|].
  destruct (would_create_blank_ftps_password _ _ _ _) eqn:Ew; [eexists _, s; split; [done|by right]|].
  destruct (try_set disk (api_config s) (api_file s) sec section key value) as [[r st] file] eqn:Et.
  destruct (try_set_cases _ _ _ _ _ _ _ _ _ _ (Hs sec) (section_named_lftp _ _ En) Et) as [Hst Hr]. destruct r as [u|e].
  - destruct Hr as (H1 & H2 & H3). destruct (response_shows _ _ _ _ _ section _ H1 H2 Eh) as [x ->]. cbn [mbind result_bind]. eexists _, _. split; [reflexivity|]. left.
    split; [done|]. destruct file as [t|]; [|done]. exists sec, st, t. by split_and!.
  - rewrite (restore_snapshot sec (section_of (api_config s) sec) st (Hs sec) (se_keys _ _ Hst)), with_section_same, Hr.
    destruct s as [c f hk]. destruct e; (eexists _, _; split; [reflexivity|by right]).
Qed.

(** ** No FTPS transfer without a password *)

Definition blank_ftps (st : attrs) : Prop :=
  _get_property st "transfer_backend" = VStr "lftp" /\ _get_property st "protocol" = VStr "ftps" /\ is_blank_text (_get_property st "remote_password") = true.

Lemma settled_backend st : settled Lftp st -> _get_property st "transfer_backend" = VStr "lftp" \/ _get_property st "transfer_backend" = VStr "rclone".
Proof.
  intros H. pose proof (se_values _ _ H "transfer_backend" _ eq_refl) as Hr. rewrite backend_readmit in Hr.
  assert (E : _get_property st "transfer_backend" = _normalize_transfer_backend (_get_property st "transfer_backend")) by congruence.
  rewrite E. apply backend_values.
Qed.

Lemma protocol_readmit v w : readmit (mkProp Checkers.transfer_protocol Converters.transfer_protocol) "Lftp" "protocol" v = Ok w ->
  normalize_for_guard v = w.
Proof.
  assert (K : forall v w, Checkers.transfer_protocol "Lftp" "protocol" v = Ok w -> normalize_for_guard v = w).
  { intros u x (s & -> & _ & _ & t & -> & ->)%one_of_ok. done. }
  unfold readmit. cbn [prop_converter prop_checker]. destruct v as [|b|z|s]; cbn [mbind result_bind]; try apply K.
  change (Converters.transfer_protocol "Lftp" "protocol" s) with (Checkers.transfer_protocol "Lftp" "protocol" (VStr s)).
  destruct (Checkers.transfer_protocol "Lftp" "protocol" (VStr s)) as [u|] eqn:E; [|done]. cbn [mbind result_bind]. intros Hw.
  rewrite (K _ _ E). assert (Hn : normal_values lower _TRANSFER_PROTOCOL_VALUES) by by repeat constructor.
  destruct (one_of_normal _ _ _ _ _ _ _ _ Hn E) as (x & -> & _ & Hx). unfold Checkers.transfer_protocol, _normalize_transfer_protocol in Hw. congruence.
Qed.

Lemma password_readmit v w : readmit (mkProp Checkers.string_allow_empty_no_control_chars Converters.null) "Lftp" "remote_password" v = Ok w -> w = v.
Proof.
  assert (K : forall v w, Checkers.string_allow_empty_no_control_chars "Lftp" "remote_password" v = Ok w -> w = v).
  { intros u x H. unfold Checkers.string_allow_empty_no_control_chars in H.
    destruct (Checkers.string_allow_empty "Lftp" "remote_password" u) as [y|] eqn:E; [|done]. apply string_allow_empty_ok in E as [-> _].
    by apply no_control_ok in H. }
  destruct v; apply K.
Qed.

(** The guard of the handler is enough. *)
Lemma guarded_set st key value st' : settled Lftp st -> would_create_blank_ftps_password st "lftp" key value = false ->
  set_property Lftp st key value = Ok st' -> ~ blank_ftps st -> ~ blank_ftps st'.
Proof.
  intros Hs Hg Hset Hold (Hb & Hp & Hpw). change (set_property Lftp st key value) with (inner_set Lftp st key value) in Hset.
  apply inner_set_ok in Hset as (p & w & Ep & Hw & ->). rewrite get_couple, get_dset in Hb, Hpw by done.
  assert (Hpr : _get_property (dset st key w) "protocol" = VStr "ftps").
  { destruct (get_couple_protocol Lftp key (dset st key w)) as [<-|(_ & _ & E)]; [done|]. rewrite E in Hp. done. }
  rewrite get_dset in Hpr. unfold would_create_blank_ftps_password in Hg. cbn [String.eqb negb] in Hg.
  destruct (String.eqb_spec key "transfer_backend") as [->|Hk1]; [|rewrite decide_False in Hb by done].
  - rewrite decide_False in Hpr by done. rewrite decide_False in Hpw by done. destruct (settled_backend st Hs) as [E|E]; [by apply Hold|].
    pose proof (se_coupled _ _ Hs eq_refl E) as E'. rewrite E' in Hpr. done.
  - rewrite Hb in Hg. rewrite (bool_decide_true (normalize_for_guard (VStr "lftp") = VStr "lftp")) in Hg by done. cbn [andb] in Hg.
    destruct (String.eqb_spec key "protocol") as [->|Hk2].
    + rewrite decide_True in Hpr by done. rewrite decide_False in Hpw by done. rewrite Hpw in Hg. subst w. injection Ep as <-.
      destruct Hw as [(_ & _ & [=])|Hw]. apply protocol_readmit in Hw. rewrite Hw in Hg. done.
    + rewrite decide_False in Hpr by done. rewrite Hpr in Hg.
      rewrite (bool_decide_true (normalize_for_guard (VStr "ftps") = VStr "ftps")) in Hg by done. cbn [andb] in Hg.
      destruct (String.eqb_spec key "remote_password") as [->|Hk3].
      * rewrite decide_True in Hpw by done. injection Ep as <-. assert (w = value) as ->; [|by rewrite Hpw in Hg].
        destruct Hw as [(-> & _ & ->)|Hw]; [done|]. by apply password_readmit in Hw.
      * rewrite decide_False in Hpw by done. by rewrite Hpw in Hg.
Qed.

(** ** Sequences of requests *)

Record request := mkRequest { rq_section : string; rq_key : string; rq_value : cval; rq_disk : result unit }.

Definition serve (hs hr : bool) (s : api) (r : request) : api :=
  (handle_set_config hs hr (rq_disk r) (rq_section r) (rq_key r) (rq_value r) s).2.

Definition api_ok (s : api) : Prop := settled_api s /\ ~ blank_ftps (lftp (api_config s)).

Lemma committed_ok hs hr section key value s s' : api_ok s -> committed hs hr section key value s s' -> api_ok s'.
Proof.
  intros [Hs Hb] (sec & st & t & En & Eset & Ec & _ & _ & _ & Hg). split.
  - intros sec'. rewrite Ec, section_with. case_decide as E; [|apply Hs]. rewrite <- E. by eapply settled_set_property.
  - rewrite Ec. change (lftp ?c) with (section_of c Lftp). rewrite section_with. case_decide as E; [|exact Hb]. subst sec.
    assert (section = "lftp") as -> by (unfold section_named in En; repeat case_match; try discriminate En; by apply String.eqb_eq).
    by eapply guarded_set; [apply (Hs Lftp)|exact Hg|exact Eset|exact Hb].
Qed.

Lemma serve_ok hs hr s r : api_ok s -> api_ok (serve hs hr s r).
Proof.
  intros H. unfold serve. destruct (handle_outcome hs hr (rq_disk r) (rq_section r) (rq_key r) (rq_value r) s (proj1 H)) as (h & s' & -> & [[_ Hc]|[_ ->]]);
    [by eapply committed_ok|done].
Qed.

(** ** Theorems *)

(** C27: a request to set one value is atomic.  It always gets a response.  If
    the response is 200, the section holds what the setter computed, the file
    holds the text of the new configuration and the hooks of that setting were
    run; with any other response, also when the disk refuses the write after
    the value was set, the configuration, the file and the hooks are what they
    were. *)
Theorem config_update_atomic has_sync has_reconfigure disk section key value s : settled_api s ->
  exists h s', handle_set_config has_sync has_reconfigure disk section key value s = (Ok h, s') /\
    ((status h = 200 /\ committed has_sync has_reconfigure section key value s s') \/ (status h <> 200 /\ s' = s)).
Proof. apply handle_outcome. Qed.

(** C30: over any sequence of requests, whatever the disk does, every section
    stays settled, the rclone backend stays with sftp, and no request turns the
    settings into an FTPS transfer with a blank password. *)
Theorem config_requests_safe has_sync has_reconfigure requests s : api_ok s ->
  api_ok (fold_left (serve has_sync has_reconfigure) requests s).
Proof.
  revert s. induction requests as [|r rs IH]; intros s H; [done|]. cbn [fold_left]. apply IH. by apply serve_ok.
Qed.

(** The API over the first configuration. *)
Definition bound (c : config) (path : string) : config :=
  mkConfig (Some path) (general c) (lftp c) (validate c) (controller c) (web c) (autoqueue c) (logging c) (notifications c).

Lemma section_of_bound c path sec : section_of (bound c path) sec = section_of c sec.
Proof. by destruct sec. Qed.

Definition default_api : api := mkApi (bound default_loaded "settings.cfg") None [].

Lemma default_protocol : bool_decide (_get_property (section_of default_loaded Lftp) "protocol" = VStr "ftps") = false.
Proof. vm_compute. reflexivity. Qed.

Lemma default_api_ok : api_ok default_api.
Proof.
  split.
  - intros sec. unfold default_api. cbn [api_config]. rewrite section_of_bound. apply default_settled.
  - unfold default_api. cbn [api_config]. change (lftp (bound ?c ?p)) with (section_of (bound c p) Lftp). rewrite section_of_bound.
    intros (_ & H & _). pose proof default_protocol as K. by rewrite bool_decide_true in K.
Qed.

Lemma config_update_atomic_witness :
  exists h s', handle_set_config true true (Raise OSError) "lftp" "transfer_backend" (VStr "rclone") default_api = (Ok h, s') /\
    ((status h = 200 /\ committed true true "lftp" "transfer_backend" (VStr "rclone") default_api s') \/ (status h <> 200 /\ s' = default_api)).
Proof. apply (config_update_atomic true true (Raise OSError) "lftp" "transfer_backend" (VStr "rclone") default_api). apply default_api_ok. Defined.

Lemma config_requests_safe_witness :
  api_ok (fold_left (serve true true)
    [mkRequest "lftp" "remote_password" (VStr "") (Ok tt); mkRequest "lftp" "protocol" (VStr "ftps") (Ok tt)] default_api).
Proof. apply (config_requests_safe true true _ default_api). apply default_api_ok. Defined.

