(* ===== verification/ConfigView.v ===== *)
(** * The configuration API: what it shows

    The served document does not depend on the secret values. *)

From S2P Require Import Prelude PyDict PyStr Json Ini Config ConfigFacts ConfigLoad ConfigFile ConfigApi ConfigApiFacts.

(** Dictionaries with the same keys that differ at most in the named fields. *)
Definition agree (fields : list string) (d d' : dict string cval) : Prop :=
  dwf d /\ dkeys d = dkeys d' /\ forall n, n ∉ fields -> dget d n = dget d' n.

Lemma agree_nil d d' : agree [] d d' -> d = d'.
Proof.
  intros (Hw & Hk & H). apply attrs_ext; [done|done|]. intros n _. unfold _get_property. by rewrite (H n (not_elem_of_nil n)).
Qed.

Lemma agree_has fields d d' n : agree fields d d' -> dhas d n = dhas d' n.
Proof.
  intros (_ & Hk & _). assert (K : forall e : dict string cval, dhas e n = bool_decide (n ∈ dkeys e)).
  { intros e. destruct (dhas e n) eqn:E; symmetry; [apply bool_decide_true, dget_is_Some; by apply dhas_true|].
    apply bool_decide_false, dget_None. by apply dhas_false. }
  by rewrite !K, Hk.
Qed.

Lemma agree_set f fields d d' v : agree (f :: fields) d d' -> dhas d f = true -> agree fields (dset d f v) (dset d' f v).
Proof.
  intros H Hf. pose proof (agree_has _ _ _ f H) as Hf'. destruct H as (Hw & Hk & H). rewrite Hf in Hf'. symmetry in Hf'.
  apply dhas_true, dget_is_Some in Hf, Hf'. split_and!; [by apply dwf_dset|by rewrite !dkeys_dset_present|]. intros n Hn.
  rewrite !dget_dset. case_decide as E; [done|]. apply H. apply not_elem_of_cons. split; [|done]. by intros ->.
Qed.

Lemma agree_weaken f fields d d' : agree (f :: fields) d d' -> dhas d f = false -> agree fields d d'.
Proof.
  intros H Hf. pose proof (agree_has _ _ _ f H) as Hf'. destruct H as (Hw & Hk & H). split_and!; [done|done|]. intros n Hn.
  destruct (decide (n = f)) as [->|Hne]; [|apply H, not_elem_of_cons; done]. rewrite Hf in Hf'. symmetry in Hf'.
  apply dhas_false in Hf, Hf'. by rewrite Hf, Hf'.
Qed.

Lemma agree_redact fs : forall extra d d', agree (fs ++ extra) d d' -> agree extra (redact fs d) (redact fs d').
Proof.
  induction fs as [|f fs IH]; intros extra d d' H; [done|]. unfold redact in *. cbn [fold_left app] in *. apply IH.
  rewrite <- (agree_has _ _ _ f H). destruct (dhas d f) eqn:E; [by apply agree_set|by eapply agree_weaken].
Qed.

Lemma agree_drop f fields d d' : agree (f :: fields) d d' -> agree fields (dpop d f) (dpop d' f).
Proof.
  intros (Hw & Hk & H). assert (Hw' : dwf d') by (unfold dwf; by rewrite <- Hk). split_and!; [by apply dwf_dpop|by rewrite !dkeys_dpop_filter, Hk|].
  intros n Hn. rewrite !dget_dpop by done. case_decide as E; [done|]. apply H, not_elem_of_cons. split; [|done]. by intros ->.
Qed.

(** The sections of the view. *)
Lemma serialize_view_eq c : serialize_view c =
  let lftp_view := redact ["remote_password"] (dpop (inner_as_dict Lftp (lftp c)) "use_legacy_lftp_password_argv") in
  [ ("general", redact ["api_token"; "webhook_secret"] (inner_as_dict General (general c)));
    ("lftp", if truthy (_get_property (general c) "config_api_redact_remote_details") then redact _REMOTE_DETAIL_FIELDS lftp_view else lftp_view);
    ("validate", inner_as_dict Validate (validate c)); ("controller", inner_as_dict Controller (controller c));
    ("web", inner_as_dict Web (web c)); ("autoqueue", inner_as_dict AutoQueue (autoqueue c)); ("logging", inner_as_dict Logging (logging c));
    ("notifications", configured_flags (notifications c)
       (redact ["webhook_url"; "hmac_secret"; "apprise_url"] (inner_as_dict Notifications (notifications c)))) ].
Proof. unfold serialize_view. destruct (truthy _); reflexivity. Qed.

(** The settings whose values the API must not show. *)
Definition hidden (c : config) (sec : section) (n : string) : Prop :=
  match sec with
  | General => n = "api_token"
  | Lftp => n = "remote_password" \/ n = "use_legacy_lftp_password_argv" \/
            (truthy (_get_property (general c) "config_api_redact_remote_details") = true /\ n ∈ _REMOTE_DETAIL_FIELDS)
  | Notifications => n ∈ ["webhook_url"; "hmac_secret"; "apprise_url"]
  | _ => False
  end.

(** Equal but for hidden values; of the notification secrets, whether they are set is public. *)
Definition same_public (c c' : config) : Prop :=
  (forall sec n, ~ hidden c sec n -> _get_property (section_of c sec) n = _get_property (section_of c' sec) n) /\
  forall n, n ∈ ["webhook_url"; "hmac_secret"; "apprise_url"] ->
    truthy (_get_property (notifications c) n) = truthy (_get_property (notifications c') n).

Lemma agree_sections c c' sec fields : (forall n, n ∉ fields -> _get_property (section_of c sec) n = _get_property (section_of c' sec) n) ->
  agree fields (inner_as_dict sec (section_of c sec)) (inner_as_dict sec (section_of c' sec)).
Proof.
  intros H. split_and!; [unfold dwf; rewrite as_dict_keys; apply properties_wf|by rewrite !as_dict_keys|]. intros n Hn. unfold inner_as_dict.
  rewrite !(dget_map_names (_get_property _)). destruct (dget (properties sec) n); [|done]. by rewrite H.
Qed.

Lemma public_section c c' sec : same_public c c' -> (forall n, ~ hidden c sec n) ->
  inner_as_dict sec (section_of c sec) = inner_as_dict sec (section_of c' sec).
Proof. intros [H _] Hh. apply agree_nil, agree_sections. intros n _. by apply H. Qed.

Lemma lftp_view_public c c' : same_public c c' ->
  let view c := redact ["remote_password"] (dpop (inner_as_dict Lftp (lftp c)) "use_legacy_lftp_password_argv") in
  (if truthy (_get_property (general c) "config_api_redact_remote_details") then redact _REMOTE_DETAIL_FIELDS (view c) else view c) =
  (if truthy (_get_property (general c) "config_api_redact_remote_details") then redact _REMOTE_DETAIL_FIELDS (view c') else view c').
Proof.
  intros [Hp _] view. unfold view. destruct (truthy (_get_property (general c) "config_api_redact_remote_details")) eqn:Ef.
  - apply agree_nil, agree_redact, agree_redact, agree_drop, (agree_sections c c' Lftp). intros n Hin. apply Hp. intros K. apply Hin.
    rewrite app_nil_r. cbn [app]. rewrite !elem_of_cons. destruct K as [->|[->|[_ K]]]; tauto.
  - apply agree_nil, agree_redact, agree_drop, (agree_sections c c' Lftp). intros n Hin. apply Hp. intros K. apply Hin.
    cbn [app]. rewrite !elem_of_cons. destruct K as [->|[->|[K _]]]; [tauto|tauto|congruence].
Qed.

Lemma notifications_view_public c c' : same_public c c' ->
  configured_flags (notifications c) (redact ["webhook_url"; "hmac_secret"; "apprise_url"] (inner_as_dict Notifications (notifications c))) =
  configured_flags (notifications c') (redact ["webhook_url"; "hmac_secret"; "apprise_url"] (inner_as_dict Notifications (notifications c'))).
Proof.
  intros [Hp Hn]. unfold configured_flags.
  rewrite (Hn "webhook_url"), (Hn "hmac_secret"), (Hn "apprise_url") by (apply (bool_decide_unpack _); vm_compute; exact I).
  do 3 f_equal. apply agree_nil, agree_redact, (agree_sections c c' Notifications). intros n Hin. apply Hp. by rewrite app_nil_r in Hin.
Qed.


(** A changed password is such a difference. *)
Lemma password_hidden c v : same_public c (with_section c Lftp (dset (lftp c) "remote_password" v)).
Proof.
  split.
  - intros sec n Hn. rewrite section_with. case_decide as E; [|done]. subst sec. rewrite get_dset. case_decide as E; [|done]. subst n.
    destruct Hn. by left.
  - intros n _. by destruct c.
Qed.

