(* ===== verification/Base64.v ===== *)
(** * Base64

    [base64.b64encode] and the non-strict [base64.b64decode], which secret
    hashes go through.  Bytes are strings of code points below 256.  Decoding
    what was encoded gives the bytes back, and the encoding uses its alphabet
    only. *)

From S2P Require Import Prelude PyStr Json.

(** ** The alphabet *)

Definition b64_alphabet : list ascii :=
  chars "ABCDEFGHIJKLMNOPQRSTUVWXYZabcdefghijklmnopqrstuvwxyz0123456789+/".

Definition b64_char (n : Z) : ascii := default "="%char (b64_alphabet !! Z.to_nat n).

Definition b64_value (c : ascii) : option Z :=
  let n := ord c in
  if (65 <=? n) && (n <=? 90) then Some (n - 65)
  else if (97 <=? n) && (n <=? 122) then Some (n - 71)
  else if (48 <=? n) && (n <=? 57) then Some (n + 4)
  else if n =? 43 then Some 62
  else if n =? 47 then Some 63
  else None.

(** ** Encoding, three bytes at a time *)

Fixpoint b64_encode (l : list ascii) : list ascii :=
  match l with
  | a :: b :: c :: r =>
      b64_char (ord a / 4) :: b64_char (ord a mod 4 * 16 + ord b / 16) ::
      b64_char (ord b mod 16 * 4 + ord c / 64) :: b64_char (ord c mod 64) :: b64_encode r
  | [a; b] =>
      [b64_char (ord a / 4); b64_char (ord a mod 4 * 16 + ord b / 16); b64_char (ord b mod 16 * 4); "="%char]
  | [a] => [b64_char (ord a / 4); b64_char (ord a mod 4 * 16); "="%char; "="%char]
  | [] => []
  end.

Definition b64encode (s : string) : string := str (b64_encode (chars s)).

(** ** Decoding

    [binascii.a2b_base64] keeps the position in the current quadruple, the
    bits left over and the padding seen; characters outside the alphabet are
    skipped and a complete padding ends the input.  [None] is
    [binascii.Error]. *)
Fixpoint b64_decode (quad_pos left pads : Z) (l : list ascii) : option (list ascii) :=
  match l with
  | [] => if quad_pos =? 0 then Some [] else None
  | ch :: r =>
      if ord ch =? 61 then
        if 2 <=? quad_pos then
          if 4 <=? quad_pos + (pads + 1) then Some [] else b64_decode quad_pos left (pads + 1) r
        else b64_decode quad_pos left pads r
      else
        match b64_value ch with
        | None => b64_decode quad_pos left pads r
        | Some v =>
            if quad_pos =? 0 then b64_decode 1 v 0 r
            else if quad_pos =? 1 then cons (chr ((left * 4 + v / 16) mod 256)) <$> b64_decode 2 (v mod 16) 0 r
            else if quad_pos =? 2 then cons (chr ((left * 16 + v / 4) mod 256)) <$> b64_decode 3 (v mod 4) 0 r
            else cons (chr ((left * 64 + v) mod 256)) <$> b64_decode 0 0 0 r
        end
  end.

Definition b64decode (s : string) : option string := str <$> b64_decode 0 0 0 (chars s).

(** ** The round trip *)

Lemma ord_range c : 0 <= ord c < 256.
Proof. unfold ord. pose proof (N_ascii_bounded c). lia. Qed.

Lemma chr_ord_mod c z : z = ord c -> chr (z mod 256) = c.
Proof.
  intros ->. rewrite Z.mod_small by apply ord_range. unfold chr, ord. rewrite N2Z.id. apply ascii_N_embedding.
Qed.

Lemma b64_table n : 0 <= n < 64 -> b64_value (b64_char n) = Some n /\ ord (b64_char n) =? 61 = false.
Proof.
  intros Hn.
  assert (H : forallb (fun k => bool_decide (b64_value (b64_char (Z.of_nat k)) = Some (Z.of_nat k))
                         && negb (ord (b64_char (Z.of_nat k)) =? 61)) (seq 0 64) = true) by (vm_compute; reflexivity).
  rewrite forallb_forall in H. specialize (H (Z.to_nat n)). rewrite Z2Nat.id in H by lia.
  apply andb_true_iff in H as [H1 H2]; [|apply in_seq; lia].
  apply bool_decide_eq_true in H1. by apply negb_true_iff in H2.
Qed.

(** One data character of the machine. *)
Lemma b64_decode_char q left pads n r : 0 <= n < 64 ->
  b64_decode q left pads (b64_char n :: r) =
  if q =? 0 then b64_decode 1 n 0 r
  else if q =? 1 then cons (chr ((left * 4 + n / 16) mod 256)) <$> b64_decode 2 (n mod 16) 0 r
  else if q =? 2 then cons (chr ((left * 16 + n / 4) mod 256)) <$> b64_decode 3 (n mod 4) 0 r
  else cons (chr ((left * 64 + n) mod 256)) <$> b64_decode 0 0 0 r.
Proof. intros Hn. destruct (b64_table n Hn) as [Hv He]. cbn [b64_decode]. by rewrite He, Hv. Qed.

Ltac sextet := Z.to_euclidean_division_equations; lia.

Lemma b64_decode_encode l : b64_decode 0 0 0 (b64_encode l) = Some l.
Proof.
  induction l as [l IH] using (induction_ltof1 _ (@length ascii)). unfold ltof in IH.
  destruct l as [|a [|b [|c r]]]; [done|..]; cbn [b64_encode].
  - pose proof (ord_range a). rewrite !b64_decode_char by sextet.
    cbn -[chr ord Z.mul Z.add Z.div Z.modulo]. by rewrite (chr_ord_mod a) by sextet.
  - pose proof (ord_range a). pose proof (ord_range b).
    rewrite !b64_decode_char by sextet.
    cbn -[chr ord Z.mul Z.add Z.div Z.modulo].
    by rewrite (chr_ord_mod a), (chr_ord_mod b) by sextet.
  - pose proof (ord_range a). pose proof (ord_range b). pose proof (ord_range c).
    rewrite !b64_decode_char by sextet.
    cbn -[chr ord Z.mul Z.add Z.div Z.modulo b64_decode b64_encode]. rewrite IH by (simpl; lia).
    cbn -[chr ord Z.mul Z.add Z.div Z.modulo].
    by rewrite (chr_ord_mod a), (chr_ord_mod b), (chr_ord_mod c) by sextet.
Qed.

Lemma b64decode_b64encode s : b64decode (b64encode s) = Some s.
Proof. unfold b64decode, b64encode. rewrite chars_str, b64_decode_encode. simpl. by rewrite str_chars. Qed.

Lemma b64encode_inj s t : b64encode s = b64encode t -> s = t.
Proof. intros E. pose proof (b64decode_b64encode s) as H. rewrite E, b64decode_b64encode in H. by injection H. Qed.

(** The encoding consists of ASCII letters, digits and [+ / =]. *)
Definition b64_text (c : ascii) : bool := bool_decide (is_Some (b64_value c)) || (ord c =? 61).

Lemma b64_encode_text l c : c ∈ b64_encode l -> b64_text c = true.
Proof.
  assert (Hc : forall n, 0 <= n < 64 -> b64_text (b64_char n) = true).
  { intros n Hn. unfold b64_text. by rewrite (proj1 (b64_table n Hn)), bool_decide_true by eauto. }
  revert c. induction l as [l IH] using (induction_ltof1 _ (@length ascii)). unfold ltof in IH. intros x.
  destruct l as [|a [|b [|d r]]]; cbn [b64_encode]; rewrite ?elem_of_cons, ?elem_of_nil; [done|..].
  - pose proof (ord_range a). intros [-> | [-> | [-> | [-> | []]]]]; try done; apply Hc; sextet.
  - pose proof (ord_range a). pose proof (ord_range b).
    intros [-> | [-> | [-> | [-> | []]]]]; try done; apply Hc; sextet.
  - pose proof (ord_range a). pose proof (ord_range b). pose proof (ord_range d).
    intros [-> | [-> | [-> | [-> | Hx]]]]; try (apply Hc; Z.to_euclidean_division_equations; lia).
    apply (IH r); [simpl; lia|done].
Qed.
