(* ===== verification/AuthStore.v ===== *)
(** * The API key store

    [web/auth_store.py]: API keys and their hashed secrets, browser sessions,
    the first-run bootstrap proof and exchange, the browser handover window
    with its sidecar file, and the JSON file all of it is kept in.

    The record [ApiKeyStore] holds the attributes of the Python object and,
    after them, what the process shares with it: the files it writes, its
    history log and the number of answers drawn so far from the outside
    ([ticks]).  The class [AuthWorld] is that outside: the clock, the random
    source, the disk, the hash functions and the ISO-8601 conversions; each
    draw is numbered, so two reads of the clock in one call may differ.
    Completed-migration claims (their binding, journal and marker) are not
    modelled: the binding is absent.  Files are replaced atomically; the
    numbered disk answers say which accesses fail. *)

From S2P Require Import Prelude PyDict PyStr Json PyFloat Config Base64.

(** ** The outside *)

(** What [datetime.fromisoformat] reads: a naive or an aware instant, in
    microseconds. *)
Inductive timestamp := Naive (t : Z) | Aware (t : Z).

Class AuthWorld := {
  (** [hashlib.pbkdf2_hmac("sha256", secret, salt, iterations)] *)
  pbkdf2_sha256 : string -> string -> Z -> string;
  (** [hashlib.sha256(text).hexdigest()] *)
  sha256_hex : string -> string;
  (** [datetime.isoformat(timespec="seconds")] of an aware UTC instant *)
  isoformat : Z -> string;
  (** [datetime.fromisoformat]; [None] is [ValueError] *)
  fromisoformat : string -> option timestamp;
  (** [datetime.now(timezone.utc)], in microseconds *)
  clock : nat -> Z;
  (** [secrets.token_urlsafe(32)], [str(uuid.uuid4())], [os.urandom(16)] *)
  token_urlsafe : nat -> string;
  uuid4 : nat -> string;
  urandom : nat -> string;
  (** whether an access to the disk fails *)
  disk_fails : nat -> bool }.

(** ** Constants *)

Definition _ALLOWED_SCOPES : list string := ["read"; "write"; "stream"; "admin"; "bootstrap"].
Definition _HASH_ALGORITHM : string := "pbkdf2_sha256".
Definition _HASH_ITERATIONS : Z := 200000.
Definition second : Z := 1000000.
Definition minute : Z := 60 * second.
Definition hour : Z := 60 * minute.
Definition _UI_SESSION_TTL : Z := 12 * hour.
Definition _REMEMBERED_UI_SESSION_COOKIE_MAX_AGE : Z := 3650 * 24 * hour.
Definition _BOOTSTRAP_PROOF_TTL : Z := 10 * minute.
Definition _BOOTSTRAP_EXCHANGE_TTL : Z := 5 * minute.
Definition _INITIAL_BROWSER_HANDOVER_TTL : Z := 8 * hour.
Definition _RECOVERY_BROWSER_HANDOVER_TTL : Z := 2 * hour.
Definition _BROWSER_HANDOVER_STATE_MAX_BYTES : Z := 16 * 1024.
Definition _BROWSER_HANDOVER_SEEN_RECOVERY_VERSION_LIMIT : nat := 128.
Definition __BROWSER_HANDOVER_DEADLINE_NAME : string := "browser-handover-deadline.json".

(** ** Records *)

Record ApiKeyRecord := mkKey {
  key_id : string; key_name : string; key_scopes : list string; secret_hash : string;
  created_at : string; updated_at : string; revoked_at : option string }.

Record UiSessionRecord := mkSession {
  ses_secret : string; ses_scopes : list string; ses_created_at : string; ses_expires_at : string;
  bootstrap : bool; remembered : bool; api_key_id : option string; api_key_secret_hash : option string }.

(** [BootstrapProofRecord] and [BootstrapExchangeRecord] have the same fields. *)
Record BootstrapRecord := mkBootstrap { bs_secret : string; bs_created_at : string; bs_expires_at : string }.

(** The sidecar of the handover window: the window and the recovery versions
    that were ever opened. *)
Record Deadline := mkDeadline { kind : string; version_sha256 : string; opened_at : string; expires_at : string }.
Record HandoverState := mkHandover { active : option Deadline; seen_recovery_versions : list string }.

Record HistoryEntry := mkHistory {
  timestamp_text : string; event : string; reason : string; store_file : string; details : list (string * json) }.

#[export] Instance ApiKeyRecord_eq_dec : EqDecision ApiKeyRecord.
Proof. solve_decision. Defined.

(** What [__history_snapshot] reports. *)
Record Snapshot := mkSnapshot {
  api_key_count : Z; active_api_key_count : Z; ui_session_count : Z; remembered_ui_session_count : Z;
  claimed_version : string; bootstrap_proof_present : bool; bootstrap_exchange_present : bool }.

#[export] Instance Snapshot_eq_dec : EqDecision Snapshot.
Proof. solve_decision. Defined.

Definition is_revoked (r : ApiKeyRecord) : bool := bool_decide (revoked_at r <> None).

Definition is_active_admin (r : ApiKeyRecord) : bool := negb (is_revoked r) && bool_decide ("admin" ∈ key_scopes r).

Definition opt_json (v : option string) : json := match v with Some s => JStr s | None => JNull end.
Definition scopes_json (l : list string) : json := JArr (map JStr l).

(** [asdict] of the two stored records *)
Definition key_json (r : ApiKeyRecord) : json := JObj [
  ("id", JStr (key_id r)); ("name", JStr (key_name r)); ("scopes", scopes_json (key_scopes r));
  ("secret_hash", JStr (secret_hash r)); ("created_at", JStr (created_at r)); ("updated_at", JStr (updated_at r));
  ("revoked_at", opt_json (revoked_at r))].

Definition session_json (r : UiSessionRecord) : json := JObj [
  ("secret", JStr (ses_secret r)); ("scopes", scopes_json (ses_scopes r)); ("created_at", JStr (ses_created_at r));
  ("expires_at", JStr (ses_expires_at r)); ("bootstrap", JBool (bootstrap r)); ("remembered", JBool (remembered r));
  ("api_key_id", opt_json (api_key_id r)); ("api_key_secret_hash", opt_json (api_key_secret_hash r))].

(** the record without its hash, with the [active] flag *)
Definition to_public_dict (r : ApiKeyRecord) : json := JObj [
  ("id", JStr (key_id r)); ("name", JStr (key_name r)); ("scopes", scopes_json (key_scopes r));
  ("created_at", JStr (created_at r)); ("updated_at", JStr (updated_at r)); ("revoked_at", opt_json (revoked_at r));
  ("active", JBool (negb (is_revoked r)))].

(** ** The object *)

Record ApiKeyStore := mkStore {
  file_path : option string;
  api_keys : list ApiKeyRecord;
  ui_sessions : dict string UiSessionRecord;
  browser_handover_claimed_version : string;
  browser_handover_deadline : option HandoverState;
  browser_handover_deadline_loaded : bool;
  browser_handover_deadline_invalid : bool;
  browser_handover_activated : bool;
  bootstrap_proof_path : option string;
  bootstrap_proof : option BootstrapRecord;
  bootstrap_exchange : option BootstrapRecord;
  completed_migration_claimed_handover_version : string;
  last_saved_history_snapshot : option Snapshot;
  ticks : nat;
  files : dict string string;
  history : list HistoryEntry }.

Definition set_file_path (v : option string) (s : ApiKeyStore) : ApiKeyStore :=
  mkStore v (api_keys s) (ui_sessions s) (browser_handover_claimed_version s) (browser_handover_deadline s) (browser_handover_deadline_loaded s) (browser_handover_deadline_invalid s) (browser_handover_activated s) (bootstrap_proof_path s) (bootstrap_proof s) (bootstrap_exchange s) (completed_migration_claimed_handover_version s) (last_saved_history_snapshot s) (ticks s) (files s) (history s).
Definition set_api_keys (v : list ApiKeyRecord) (s : ApiKeyStore) : ApiKeyStore :=
  mkStore (file_path s) v (ui_sessions s) (browser_handover_claimed_version s) (browser_handover_deadline s) (browser_handover_deadline_loaded s) (browser_handover_deadline_invalid s) (browser_handover_activated s) (bootstrap_proof_path s) (bootstrap_proof s) (bootstrap_exchange s) (completed_migration_claimed_handover_version s) (last_saved_history_snapshot s) (ticks s) (files s) (history s).
Definition set_ui_sessions (v : dict string UiSessionRecord) (s : ApiKeyStore) : ApiKeyStore :=
  mkStore (file_path s) (api_keys s) v (browser_handover_claimed_version s) (browser_handover_deadline s) (browser_handover_deadline_loaded s) (browser_handover_deadline_invalid s) (browser_handover_activated s) (bootstrap_proof_path s) (bootstrap_proof s) (bootstrap_exchange s) (completed_migration_claimed_handover_version s) (last_saved_history_snapshot s) (ticks s) (files s) (history s).
Definition set_browser_handover_claimed_version (v : string) (s : ApiKeyStore) : ApiKeyStore :=
  mkStore (file_path s) (api_keys s) (ui_sessions s) v (browser_handover_deadline s) (browser_handover_deadline_loaded s) (browser_handover_deadline_invalid s) (browser_handover_activated s) (bootstrap_proof_path s) (bootstrap_proof s) (bootstrap_exchange s) (completed_migration_claimed_handover_version s) (last_saved_history_snapshot s) (ticks s) (files s) (history s).
Definition set_browser_handover_deadline (v : option HandoverState) (s : ApiKeyStore) : ApiKeyStore :=
  mkStore (file_path s) (api_keys s) (ui_sessions s) (browser_handover_claimed_version s) v (browser_handover_deadline_loaded s) (browser_handover_deadline_invalid s) (browser_handover_activated s) (bootstrap_proof_path s) (bootstrap_proof s) (bootstrap_exchange s) (completed_migration_claimed_handover_version s) (last_saved_history_snapshot s) (ticks s) (files s) (history s).
Definition set_browser_handover_deadline_loaded (v : bool) (s : ApiKeyStore) : ApiKeyStore :=
  mkStore (file_path s) (api_keys s) (ui_sessions s) (browser_handover_claimed_version s) (browser_handover_deadline s) v (browser_handover_deadline_invalid s) (browser_handover_activated s) (bootstrap_proof_path s) (bootstrap_proof s) (bootstrap_exchange s) (completed_migration_claimed_handover_version s) (last_saved_history_snapshot s) (ticks s) (files s) (history s).
Definition set_browser_handover_deadline_invalid (v : bool) (s : ApiKeyStore) : ApiKeyStore :=
  mkStore (file_path s) (api_keys s) (ui_sessions s) (browser_handover_claimed_version s) (browser_handover_deadline s) (browser_handover_deadline_loaded s) v (browser_handover_activated s) (bootstrap_proof_path s) (bootstrap_proof s) (bootstrap_exchange s) (completed_migration_claimed_handover_version s) (last_saved_history_snapshot s) (ticks s) (files s) (history s).
Definition set_browser_handover_activated (v : bool) (s : ApiKeyStore) : ApiKeyStore :=
  mkStore (file_path s) (api_keys s) (ui_sessions s) (browser_handover_claimed_version s) (browser_handover_deadline s) (browser_handover_deadline_loaded s) (browser_handover_deadline_invalid s) v (bootstrap_proof_path s) (bootstrap_proof s) (bootstrap_exchange s) (completed_migration_claimed_handover_version s) (last_saved_history_snapshot s) (ticks s) (files s) (history s).
Definition set_bootstrap_proof_path (v : option string) (s : ApiKeyStore) : ApiKeyStore :=
  mkStore (file_path s) (api_keys s) (ui_sessions s) (browser_handover_claimed_version s) (browser_handover_deadline s) (browser_handover_deadline_loaded s) (browser_handover_deadline_invalid s) (browser_handover_activated s) v (bootstrap_proof s) (bootstrap_exchange s) (completed_migration_claimed_handover_version s) (last_saved_history_snapshot s) (ticks s) (files s) (history s).
Definition set_bootstrap_proof (v : option BootstrapRecord) (s : ApiKeyStore) : ApiKeyStore :=
  mkStore (file_path s) (api_keys s) (ui_sessions s) (browser_handover_claimed_version s) (browser_handover_deadline s) (browser_handover_deadline_loaded s) (browser_handover_deadline_invalid s) (browser_handover_activated s) (bootstrap_proof_path s) v (bootstrap_exchange s) (completed_migration_claimed_handover_version s) (last_saved_history_snapshot s) (ticks s) (files s) (history s).
Definition set_bootstrap_exchange (v : option BootstrapRecord) (s : ApiKeyStore) : ApiKeyStore :=
  mkStore (file_path s) (api_keys s) (ui_sessions s) (browser_handover_claimed_version s) (browser_handover_deadline s) (browser_handover_deadline_loaded s) (browser_handover_deadline_invalid s) (browser_handover_activated s) (bootstrap_proof_path s) (bootstrap_proof s) v (completed_migration_claimed_handover_version s) (last_saved_history_snapshot s) (ticks s) (files s) (history s).
Definition set_completed_migration_claimed_handover_version (v : string) (s : ApiKeyStore) : ApiKeyStore :=
  mkStore (file_path s) (api_keys s) (ui_sessions s) (browser_handover_claimed_version s) (browser_handover_deadline s) (browser_handover_deadline_loaded s) (browser_handover_deadline_invalid s) (browser_handover_activated s) (bootstrap_proof_path s) (bootstrap_proof s) (bootstrap_exchange s) v (last_saved_history_snapshot s) (ticks s) (files s) (history s).
Definition set_last_saved_history_snapshot (v : option Snapshot) (s : ApiKeyStore) : ApiKeyStore :=
  mkStore (file_path s) (api_keys s) (ui_sessions s) (browser_handover_claimed_version s) (browser_handover_deadline s) (browser_handover_deadline_loaded s) (browser_handover_deadline_invalid s) (browser_handover_activated s) (bootstrap_proof_path s) (bootstrap_proof s) (bootstrap_exchange s) (completed_migration_claimed_handover_version s) v (ticks s) (files s) (history s).
Definition set_ticks (v : nat) (s : ApiKeyStore) : ApiKeyStore :=
  mkStore (file_path s) (api_keys s) (ui_sessions s) (browser_handover_claimed_version s) (browser_handover_deadline s) (browser_handover_deadline_loaded s) (browser_handover_deadline_invalid s) (browser_handover_activated s) (bootstrap_proof_path s) (bootstrap_proof s) (bootstrap_exchange s) (completed_migration_claimed_handover_version s) (last_saved_history_snapshot s) v (files s) (history s).
Definition set_files (v : dict string string) (s : ApiKeyStore) : ApiKeyStore :=
  mkStore (file_path s) (api_keys s) (ui_sessions s) (browser_handover_claimed_version s) (browser_handover_deadline s) (browser_handover_deadline_loaded s) (browser_handover_deadline_invalid s) (browser_handover_activated s) (bootstrap_proof_path s) (bootstrap_proof s) (bootstrap_exchange s) (completed_migration_claimed_handover_version s) (last_saved_history_snapshot s) (ticks s) v (history s).
Definition set_history (v : list HistoryEntry) (s : ApiKeyStore) : ApiKeyStore :=
  mkStore (file_path s) (api_keys s) (ui_sessions s) (browser_handover_claimed_version s) (browser_handover_deadline s) (browser_handover_deadline_loaded s) (browser_handover_deadline_invalid s) (browser_handover_activated s) (bootstrap_proof_path s) (bootstrap_proof s) (bootstrap_exchange s) (completed_migration_claimed_handover_version s) (last_saved_history_snapshot s) (ticks s) (files s) v.

(** [ApiKeyStore(file_path)], created in a process with these shared parts *)
Definition new_store (path : option string) (n : nat) (fs : dict string string) (h : list HistoryEntry) : ApiKeyStore :=
  mkStore path [] [] "" None false false false None None None "" None n fs h.

(** The configuration object handed to the store: [None], or one whose
    [general] section may be missing. *)
Definition conf : Type := option (option attrs).

(** [getattr(getattr(config, "general", None), name, default)] *)
Definition general_attr (config : conf) (name : string) : option cval :=
  match config with Some (Some g) => dget g name | _ => None end.

Definition __configured_browser_handover_version (config : conf) : string :=
  match general_attr config "browser_handover_recovery_version" with Some (VStr v) => strip v | _ => "" end.

(** [x.strip() if isinstance(x, str) else ""] *)
Definition stripped (v : json) : string := match v with JStr s => strip s | _ => "" end.

(** [not isinstance(v, str) or not v.strip()] *)
Definition blank (v : json) : bool := match v with JStr s => String.eqb (strip s) "" | _ => true end.

(** [v is not None] *)
Definition given (v : json) : bool := match v with JNull => false | _ => true end.

(** [ValueError] carries its message where a caller repeats it. *)
Definition of_sum {A} (r : string + A) : result A := match r with inr a => Ok a | inl _ => Raise ValueError end.

(** ** Scopes *)

Fixpoint normalize_loop (scopes : list json) (normalized : list string) : string + list string :=
  match scopes with
  | [] => inr normalized
  | JStr scope :: rest =>
      let scope_name := lower (strip scope) in
      if String.eqb scope_name "" then inl "API key scopes cannot be blank"
      else if bool_decide (scope_name ∈ _ALLOWED_SCOPES) then
        normalize_loop rest (if bool_decide (scope_name ∈ normalized) then normalized else normalized ++ [scope_name])
      else inl ("Unknown API key scope '" +:+ scope +:+ "'")
  | _ :: _ => inl "API key scopes must be strings"
  end.

Definition _normalize_scopes (scopes : json) : string + list string :=
  match scopes with
  | JArr l =>
      match normalize_loop l [] with
      | inr [] => inl "API key scopes cannot be empty"
      | r => r
      end
  | _ => inl "API key scopes must be a list of scope names"
  end.

(** ** Comparisons that may raise *)

(** [hmac.compare_digest] on two [str]: ASCII only *)
Definition is_ascii (s : string) : bool := forallb (fun c => ord c <? 128) (chars s).
Definition compare_digest (a b : string) : result bool :=
  if is_ascii a && is_ascii b then Ok (String.eqb a b) else Raise TypeError.

(** [s.split("$", 3)] into exactly four parts *)
Definition split4 (s : string) : option (string * string * string * string) :=
  match split "$" s with
  | a :: b :: c :: d :: rest => Some (a, b, c, str (join ["$"%char] (map chars (d :: rest))))
  | _ => None
  end.

Definition max_iterations : Z := 2147483647.

Section store.
Context {W : AuthWorld}.

Definition tick : st ApiKeyStore nat := fun s => (Ok (ticks s), set_ticks (S (ticks s)) s).
Definition datetime_now : st ApiKeyStore Z := n ← tick; mret (clock n).
Definition _utc_now_iso : st ApiKeyStore string := t ← datetime_now; mret (isoformat t).

(** an access to the disk, which may raise *)
Definition disk : st ApiKeyStore unit := n ← tick; if disk_fails n then raise OSError else mret tt.

(** [datetime.fromisoformat(text) <= now] *)
Definition iso_le (text : string) (now : Z) : result bool :=
  match fromisoformat text with
  | None => Raise ValueError
  | Some (Naive _) => Raise TypeError
  | Some (Aware t) => Ok (t <=? now)
  end.

(** ** Secrets *)

(** [hashlib.pbkdf2_hmac] refuses iteration counts outside its range. *)
Definition pbkdf2_hmac (secret salt : string) (iterations : Z) : result string :=
  if max_iterations <? iterations then Raise OverflowError
  else if iterations <? 1 then Raise ValueError
  else Ok (pbkdf2_sha256 secret salt iterations).

Definition hash_text (iterations : Z) (salt digest : string) : string :=
  _HASH_ALGORITHM +:+ "$" +:+ str (show_int iterations) +:+ "$" +:+ b64encode salt +:+ "$" +:+ b64encode digest.

(** [_hash_secret(secret)], the salt being the random bytes drawn *)
Definition _hash_secret (secret : string) : st ApiKeyStore string :=
  if String.eqb secret "" then raise ValueError
  else n ← tick;
    digest ← lift (pbkdf2_hmac secret (urandom n) _HASH_ITERATIONS);
    mret (hash_text _HASH_ITERATIONS (urandom n) digest).

(** [ValueError] (and its subclass [binascii.Error]) and [TypeError] are
    caught; [OverflowError] is not. *)
Definition _verify_secret (secret stored_hash : string) : result bool :=
  match split4 stored_hash with
  | None => Ok false
  | Some (algorithm, iterations, salt_b64, digest_b64) =>
      if negb (String.eqb algorithm _HASH_ALGORITHM) then Ok false
      else if negb (is_ascii salt_b64) then Ok false
      else match b64decode salt_b64 with
      | None => Ok false
      | Some salt =>
          if negb (is_ascii digest_b64) then Ok false
          else match b64decode digest_b64 with
          | None => Ok false
          | Some expected_digest =>
              match py_int iterations with
              | None => Ok false
              | Some n =>
                  match pbkdf2_hmac secret salt n with
                  | Ok actual_digest => Ok (String.eqb expected_digest actual_digest)
                  | Raise ValueError => Ok false
                  | Raise e => Raise e
                  end
              end
          end
      end
  end.

(** ** History *)

Definition _history_file_path (path : option string) : option string :=
  match path with
  | None | Some "" => None
  | Some p => Some ((splitext p).1 +:+ ".history.jsonl")
  end.

(** Appending is best effort: a failing disk drops the entry. *)
Definition __record_history_event (ev rs : string) (ds : list (string * json)) : st ApiKeyStore unit :=
  path ← gets file_path;
  match _history_file_path path, path with
  | Some _, Some p =>
      t ← _utc_now_iso;
      n ← tick;
      if disk_fails n then mret tt
      else modify (fun s => set_history (history s ++ [mkHistory t ev rs (basename p) ds]) s)
  | _, _ => mret tt
  end.

Definition count {A} (p : A -> bool) (l : list A) : Z := Z.of_nat (length (List.filter p l)).

Definition __history_snapshot (s : ApiKeyStore) : Snapshot :=
  mkSnapshot (Z.of_nat (length (api_keys s))) (count (fun r => negb (is_revoked r)) (api_keys s))
    (Z.of_nat (length (ui_sessions s))) (count remembered (dvals (ui_sessions s)))
    (browser_handover_claimed_version s) (bool_decide (is_Some (bootstrap_proof s)))
    (bool_decide (is_Some (bootstrap_exchange s))).

Definition snapshot_json (v : Snapshot) : list (string * json) := [
  ("api_key_count", JInt (api_key_count v)); ("active_api_key_count", JInt (active_api_key_count v));
  ("ui_session_count", JInt (ui_session_count v));
  ("remembered_ui_session_count", JInt (remembered_ui_session_count v));
  ("browser_handover_claimed_version", JStr (claimed_version v));
  ("bootstrap_proof_present", JBool (bootstrap_proof_present v));
  ("bootstrap_exchange_present", JBool (bootstrap_exchange_present v))].

(** ** Queries *)

Definition active_admin_key_count (s : ApiKeyStore) : Z := count is_active_admin (api_keys s).

Definition list_api_keys (include_revoked : bool) (s : ApiKeyStore) : list json :=
  map to_public_dict (if include_revoked then api_keys s else List.filter (fun r => negb (is_revoked r)) (api_keys s)).

Definition get_api_key (id : string) (s : ApiKeyStore) : option ApiKeyRecord :=
  List.find (fun r => String.eqb (key_id r) id) (api_keys s).

Fixpoint find_by_secret (secret : string) (l : list ApiKeyRecord) : result (option ApiKeyRecord) :=
  match l with
  | [] => Ok None
  | r :: l' => b ← _verify_secret secret (secret_hash r); if b : bool then Ok (Some r) else find_by_secret secret l'
  end.

Definition find_api_key_by_secret (secret : string) : st ApiKeyStore (option ApiKeyRecord) :=
  keys ← gets api_keys; lift (find_by_secret secret keys).

(** ** The bootstrap proof, its artifact and the exchange *)

Definition __sync_bootstrap_proof_artifact : st ApiKeyStore unit :=
  path ← gets bootstrap_proof_path;
  match path with
  | None | Some "" => mret tt
  | Some p =>
      when (negb (String.eqb (dirname p) "")) disk;;
      proof ← gets bootstrap_proof;
      match proof with
      | None =>
          present ← gets (fun s => dhas (files s) p);
          when present (disk;; modify (fun s => set_files (dpop (files s) p) s))
      | Some r =>
          disk;;
          modify (fun s => set_files (dset (files s) p (dumps 2 (JObj [
            ("proof", JStr (bs_secret r)); ("created_at", JStr (bs_created_at r));
            ("expires_at", JStr (bs_expires_at r))]))) s)
      end
  end.

Definition clear_bootstrap_proof (rs : string) : st ApiKeyStore unit :=
  proof ← gets bootstrap_proof;
  match proof with
  | None => mret tt
  | Some _ =>
      modify (set_bootstrap_proof None);;
      __sync_bootstrap_proof_artifact;;
      __record_history_event "bootstrap_proof_cleared" rs []
  end.

Definition clear_bootstrap_exchange (rs : string) : st ApiKeyStore unit :=
  exchange ← gets bootstrap_exchange;
  match exchange with
  | None => mret tt
  | Some _ =>
      modify (set_bootstrap_exchange None);;
      __record_history_event "bootstrap_exchange_cleared" rs []
  end.

(** [datetime.fromisoformat(record.expires_at) > now], a [ValueError] counting as expired *)
Definition still_valid (r : BootstrapRecord) (now : Z) : result bool :=
  match iso_le (bs_expires_at r) now with
  | Ok b => Ok (negb b)
  | Raise ValueError => Ok false
  | Raise e => Raise e
  end.

Definition __prune_bootstrap_proof (now : Z) : st ApiKeyStore unit :=
  proof ← gets bootstrap_proof;
  match proof with
  | None => mret tt
  | Some r => ok ← lift (still_valid r now); if ok : bool then mret tt else clear_bootstrap_proof "expired"
  end.

Definition __prune_bootstrap_exchange (now : Z) : st ApiKeyStore unit :=
  exchange ← gets bootstrap_exchange;
  match exchange with
  | None => mret tt
  | Some r => ok ← lift (still_valid r now); if ok : bool then mret tt else clear_bootstrap_exchange "expired"
  end.

Definition bind_bootstrap_proof_path (p : string) : st ApiKeyStore unit :=
  modify (set_bootstrap_proof_path (Some p));; __sync_bootstrap_proof_artifact.

(** ** Sessions expire *)

(** Whether a session is past its deadline; a malformed deadline is. *)
Definition session_expired (now : Z) (r : UiSessionRecord) : result bool :=
  if remembered r then Ok false
  else match iso_le (ses_expires_at r) now with
       | Ok b => Ok b
       | Raise ValueError => Ok true
       | Raise e => Raise e
       end.

Fixpoint expired_session_ids (now : Z) (l : list (string * UiSessionRecord)) : result (list string) :=
  match l with
  | [] => Ok []
  | (secret, r) :: l' =>
      b ← session_expired now r;
      ids ← expired_session_ids now l';
      Ok (if b : bool then secret :: ids else ids)
  end.

Definition pop_sessions (ids : list string) (d : dict string UiSessionRecord) : dict string UiSessionRecord :=
  fold_left dpop ids d.

Definition __prune_expired_ui_sessions (now : Z) : st ApiKeyStore unit :=
  sessions ← gets ui_sessions;
  ids ← lift (expired_session_ids now sessions);
  modify (fun s => set_ui_sessions (pop_sessions ids (ui_sessions s)) s).

(** ** Writing the file *)

(** the order of the key [(record.created_at, record.secret)] *)
Definition session_le (a b : UiSessionRecord) : Prop :=
  (ses_created_at a <> ses_created_at b /\ String.le (ses_created_at a) (ses_created_at b)) \/
  (ses_created_at a = ses_created_at b /\ String.le (ses_secret a) (ses_secret b)).

#[export] Instance session_le_dec a b : Decision (session_le a b).
Proof. unfold session_le. apply _. Defined.

Definition store_json (s : ApiKeyStore) : json := JObj [
  ("version", JInt 3);
  ("api_keys", JArr (map key_json (api_keys s)));
  ("ui_sessions", JArr (map session_json (merge_sort session_le (dvals (ui_sessions s)))));
  ("browser_handover_claimed_version", JStr (browser_handover_claimed_version s))].

Definition to_str : st ApiKeyStore string :=
  now ← datetime_now;
  __prune_expired_ui_sessions now;;
  __prune_bootstrap_proof now;;
  __prune_bootstrap_exchange now;;
  gets (fun s => dumps 2 (store_json s)).

(** [self.to_file(path)]: a temporary file, then an atomic replacement; the
    backup of the previous file is best effort and kept elsewhere *)
Definition to_file (p : string) : st ApiKeyStore unit :=
  disk;;
  text ← to_str;
  disk;;
  modify (fun s => set_files (dset (files s) p text) s).

Definition save : st ApiKeyStore unit :=
  path ← gets file_path;
  match path with
  | None => mret tt
  | Some p =>
      when (negb (String.eqb (dirname p) "")) disk;;
      to_file p;;
      snapshot ← gets __history_snapshot;
      last ← gets last_saved_history_snapshot;
      when (bool_decide (last <> Some snapshot))
        (__record_history_event "store_saved" "persisted" (snapshot_json snapshot);;
         modify (set_last_saved_history_snapshot (Some snapshot)))
  end.

(** ** Sessions *)

Definition create_ui_session (scopes boot id hash rem : json) : st ApiKeyStore UiSessionRecord :=
  normalized_scopes ← lift (of_sum (_normalize_scopes scopes));
  match boot with
  | JBool boot =>
      if given id && blank id then raise ValueError
      else if given hash && blank hash then raise ValueError
      else match rem with
      | JBool rem =>
          if boot && rem then raise ValueError
          else
            now ← datetime_now;
            n ← tick;
            let record := mkSession (token_urlsafe n) normalized_scopes (isoformat now)
              (if rem then "" else isoformat (now + _UI_SESSION_TTL)) boot rem
              (match id with JStr i => Some (strip i) | _ => None end)
              (match hash with JStr h => Some (strip h) | _ => None end) in
            modify (fun s => set_ui_sessions (dset (ui_sessions s) (ses_secret record) record) s);;
            __prune_expired_ui_sessions now;;
            save;;
            __record_history_event "ui_session_created"
              (if rem then "remembered_browser_session_created"
               else if boot then "bootstrap_session_created" else "browser_session_created")
              [("bootstrap", JBool boot); ("remembered", JBool rem); ("api_key_id", opt_json (api_key_id record));
               ("scopes", scopes_json (ses_scopes record))];;
            mret record
      | _ => raise ValueError
      end
  | _ => raise ValueError
  end.

(** [create_browser_session_for_api_key] and, with [rem],
    [create_remembered_browser_session_for_api_key] *)
Definition browser_session_for (rem : bool) (id : json) : st ApiKeyStore UiSessionRecord :=
  match id with
  | JStr i =>
      if blank id then raise ValueError
      else
        record ← gets (get_api_key i);
        match record with
        | None => raise KeyError
        | Some r =>
            if is_revoked r then raise ValueError
            else create_ui_session (scopes_json (key_scopes r)) (JBool false) (JStr (key_id r))
                   (JStr (secret_hash r)) (JBool rem)
        end
  | _ => raise ValueError
  end.

Definition create_browser_session_for_api_key := browser_session_for false.
Definition create_remembered_browser_session_for_api_key := browser_session_for true.

Definition session_of_key (id : string) (r : UiSessionRecord) : bool := bool_decide (api_key_id r = Some id).

Definition __discard_browser_sessions_for_api_key (id rs : string) : st ApiKeyStore Z :=
  sessions ← gets ui_sessions;
  let matching := List.filter (fun kv => session_of_key id kv.2) sessions in
  let remembered_count := count (fun kv : string * UiSessionRecord => remembered kv.2) matching in
  modify (fun s => set_ui_sessions (pop_sessions (dkeys matching) (ui_sessions s)) s);;
  __record_history_event "ui_sessions_discarded" rs
    [("api_key_id", JStr id); ("discarded_count", JInt (Z.of_nat (length matching)));
     ("remembered_count", JInt remembered_count)];;
  mret (Z.of_nat (length matching)).

Definition find_ui_session_by_secret (secret : string) : st ApiKeyStore (option UiSessionRecord) :=
  now ← datetime_now;
  __prune_expired_ui_sessions now;;
  record ← gets (fun s => dget (ui_sessions s) secret);
  match record with
  | None => mret None
  | Some r =>
      if remembered r then mret (Some r)
      else match iso_le (ses_expires_at r) now with
           | Ok true | Raise ValueError =>
               modify (fun s => set_ui_sessions (dpop (ui_sessions s) secret) s);; mret None
           | Ok false => mret (Some r)
           | Raise e => raise e
           end
  end.

Definition invalidate_ui_session (secret : json) : st ApiKeyStore unit :=
  match secret with
  | JStr sec =>
      if blank secret then mret tt
      else
        present ← gets (fun s => dhas (ui_sessions s) sec);
        when present (modify (fun s => set_ui_sessions (dpop (ui_sessions s) sec) s);; save)
  | _ => mret tt
  end.

Definition resolve_ui_session_api_key (session : UiSessionRecord) (s : ApiKeyStore) : result (option ApiKeyRecord) :=
  match api_key_id session, api_key_secret_hash session with
  | Some id, Some hash =>
      if blank (JStr id) || blank (JStr hash) then Ok None
      else match get_api_key id s with
           | None => Ok None
           | Some r =>
               if is_revoked r then Ok None
               else same ← compare_digest (secret_hash r) hash; Ok (if same : bool then Some r else None)
           end
  | _, _ => Ok None
  end.

Definition cookie_max_age_seconds (r : UiSessionRecord) : result Z :=
  if remembered r then Ok (_REMEMBERED_UI_SESSION_COOKIE_MAX_AGE / second)
  else match fromisoformat (ses_created_at r), fromisoformat (ses_expires_at r) with
       | None, _ | _, None => Raise ValueError
       | Some (Aware c), Some (Aware e) | Some (Naive c), Some (Naive e) => Ok (Z.max 0 (Z.quot (e - c) second))
       | _, _ => Raise TypeError
       end.

(** ** The handover window *)

Definition json_is_int (n : Z) (v : json) : bool :=
  match v with
  | JInt z => z =? n
  | JBool b => Z.b2z b =? n
  | JFloat t => SpecFloat.SFeqb (float_of_text t) (round_quotient false n 1)
  | _ => false
  end.

Definition hex_digit (c : ascii) : bool := is_digit c || ((97 <=? ord c) && (ord c <=? 102)).

(** [re.fullmatch(r"[0-9a-f]{64}", s)] *)
Definition is_hex64 (s : string) : bool := (String.length s =? 64)%nat && forallb hex_digit (chars s).

(** [set(o) == set(names)] *)
Definition same_keys (o : dict string json) (names : list string) : bool :=
  forallb (fun k => bool_decide (k ∈ names)) (dkeys o) && forallb (dhas o) names.

Definition get_json (o : dict string json) (name : string) : json := default JNull (dget o name).

Definition __browser_handover_version_digest (version : string) : string := sha256_hex version.

(** The checks of [__validate_browser_handover_deadline]; every failure is an
    exception the caller turns into an invalid state. *)
Definition __validate_browser_handover_deadline (o : dict string json) : option Deadline :=
  if same_keys o ["kind"; "version_sha256"; "opened_at"; "expires_at"] then
    match get_json o "kind", get_json o "version_sha256", get_json o "opened_at", get_json o "expires_at" with
    | JStr k, JStr v, JStr op, JStr ex =>
        if bool_decide (k ∈ ["initial"; "recovery"]) && (negb (String.eqb k "initial") || String.eqb v "")
           && (negb (String.eqb k "recovery") || is_hex64 v) then
          match fromisoformat op, fromisoformat ex with
          | Some (Aware a), Some (Aware b) => if b <=? a then None else Some (mkDeadline k v op ex)
          | _, _ => None
          end
        else None
    | _, _, _, _ => None
    end
  else None.

Fixpoint hex_versions (l : list json) : option (list string) :=
  match l with
  | [] => Some []
  | JStr v :: l' => if is_hex64 v then cons v <$> hex_versions l' else None
  | _ :: _ => None
  end.

(** The sidecar's text, in its present or its first layout. *)
Definition parse_deadline (text : string) : option HandoverState :=
  match loads text with
  | Some (JObj raw) =>
      if json_is_int 1 (get_json raw "schema") then
        if same_keys raw ["schema"; "kind"; "version"; "opened_at"; "expires_at"] then
          match get_json raw "kind", get_json raw "version" with
          | JStr k, JStr legacy_version =>
              if bool_decide (k ∈ ["initial"; "recovery"]) then
                let digest := if String.eqb k "recovery" then __browser_handover_version_digest legacy_version else "" in
                d ← __validate_browser_handover_deadline [("kind", JStr k); ("version_sha256", JStr digest);
                      ("opened_at", get_json raw "opened_at"); ("expires_at", get_json raw "expires_at")];
                Some (mkHandover (Some d) (if String.eqb k "recovery" then [digest] else []))
              else None
          | _, _ => None
          end
        else None
      else if same_keys raw ["schema"; "active"; "seen_recovery_versions"] && json_is_int 2 (get_json raw "schema") then
        a ← match get_json raw "active" with
            | JNull => Some None
            | JObj o => Some <$> __validate_browser_handover_deadline o
            | _ => None
            end;
        match get_json raw "seen_recovery_versions" with
        | JArr l =>
            if (length l <=? _BROWSER_HANDOVER_SEEN_RECOVERY_VERSION_LIMIT)%nat then
              seen ← hex_versions l;
              if bool_decide (NoDup seen) then Some (mkHandover a seen) else None
            else None
        | _ => None
        end
      else None
  | _ => None
  end.

(** [Path(file_path).with_name(name)] of a normalised path *)
Definition __browser_handover_deadline_path (s : ApiKeyStore) : option string :=
  match file_path s with
  | None | Some "" => None
  | Some p => Some (path_join (dirname p) __BROWSER_HANDOVER_DEADLINE_NAME)
  end.

Definition __load_browser_handover_deadline : st ApiKeyStore (option HandoverState) :=
  loaded ← gets browser_handover_deadline_loaded;
  if loaded : bool then gets browser_handover_deadline
  else
    modify (set_browser_handover_deadline_loaded true);;
    path ← gets __browser_handover_deadline_path;
    text ← gets (fun s => p ← path; dget (files s) p);
    match text with
    | None => mret None
    | Some t =>
        n ← tick;
        match (if disk_fails n || (_BROWSER_HANDOVER_STATE_MAX_BYTES <? Z.of_nat (String.length t)) then None
               else parse_deadline t) with
        | Some state => modify (set_browser_handover_deadline (Some state))
        | None => modify (set_browser_handover_deadline_invalid true)
        end;;
        gets browser_handover_deadline
    end.

Definition deadline_json (d : Deadline) : json := JObj [
  ("expires_at", JStr (expires_at d)); ("kind", JStr (kind d)); ("opened_at", JStr (opened_at d));
  ("version_sha256", JStr (version_sha256 d))].

(** [json.dumps({"schema": 2, **state}, sort_keys=True, separators=(",", ":")) + "\n"] *)
Definition deadline_text (state : HandoverState) : string :=
  dumps Compact (JObj [
    ("active", match active state with Some d => deadline_json d | None => JNull end);
    ("schema", JInt 2);
    ("seen_recovery_versions", JArr (map JStr (seen_recovery_versions state)))]) +:+ str [chr 10].

(** A private file is replaced atomically; setting its mode and syncing the
    directory may still fail after that. *)
Definition _write_completed_migration_private_file (p content : string) : st ApiKeyStore unit :=
  disk;; modify (fun s => set_files (dset (files s) p content) s);; disk.

Definition __write_browser_handover_deadline (state : HandoverState) : st ApiKeyStore unit :=
  path ← gets __browser_handover_deadline_path;
  match path with
  | None => mret tt
  | Some p =>
      if _BROWSER_HANDOVER_STATE_MAX_BYTES <? Z.of_nat (String.length (deadline_text state)) then raise ValueError
      else _write_completed_migration_private_file p (deadline_text state)
  end.

Definition __deadline_expired (d : Deadline) (now : Z) : result bool :=
  match iso_le (expires_at d) now with
  | Ok b => Ok b
  | Raise ValueError => Ok true
  | Raise e => Raise e
  end.

Record HandoverPayload := mkPayload {
  configured_version : string; payload_claimed_version : string; open : bool; window_type : option string;
  payload_opened_at : option string; payload_expires_at : option string; remaining_seconds : Z; expired : bool;
  state_invalid : bool; recovery_version_closed : bool; recovery_history_full : bool }.

Definition __handover_payload (version : string) (deadline : option Deadline) (now : Z)
    (open_window exp invalid seen full : bool) : st ApiKeyStore HandoverPayload :=
  claimed ← gets browser_handover_claimed_version;
  '(op, remaining) ← match deadline with
    | Some d =>
        if open_window then
          match fromisoformat (expires_at d) with
          | None => mret (false, 0)
          | Some (Naive _) => raise TypeError
          | Some (Aware t) => mret (true, Z.max 0 (Z.quot (t - now) second))
          end
        else mret (open_window, 0)
    | None => mret (open_window, 0)
    end;
  mret (mkPayload version claimed op (kind <$> deadline) (opened_at <$> deadline) (expires_at <$> deadline)
          remaining exp invalid seen full).

(** [try: m; return True  except (OSError, ValueError): return False] *)
Definition best_effort (m : st ApiKeyStore unit) : st ApiKeyStore bool := fun s =>
  match m s with
  | (Ok _, s') => (Ok true, s')
  | (Raise OSError, s') | (Raise ValueError, s') => (Ok false, s')
  | (Raise e, s') => (Raise e, s')
  end.

Definition __mark_browser_handover_claimed (version : string) : st ApiKeyStore unit :=
  loaded ← gets browser_handover_deadline_loaded;
  invalid ← gets browser_handover_deadline_invalid;
  if negb loaded || invalid then mret tt
  else
    state ← gets browser_handover_deadline;
    match state with
    | Some (mkHandover (Some a) seen) =>
        let expected := if String.eqb (kind a) "recovery" then __browser_handover_version_digest version else "" in
        if String.eqb (version_sha256 a) expected then
          modify (set_browser_handover_deadline (Some (mkHandover None seen)));;
          __write_browser_handover_deadline (mkHandover None seen)
        else mret tt
    | _ => mret tt
    end.

Definition finalize_browser_handover_claim (version : json) : st ApiKeyStore bool :=
  best_effort (__mark_browser_handover_claimed (stripped version)).

Definition deadline_matches (desired_kind desired_version : string) (d : option Deadline) : bool :=
  match d with
  | Some d => String.eqb (kind d) desired_kind && String.eqb (version_sha256 d) desired_version
  | None => false
  end.

(** The window [__browser_handover_state] asks for: a recovery window once an
    active administrator exists and another version is configured, or the
    initial one. *)
Definition wants_recovery (version : string) (config : conf) (s : ApiKeyStore) : bool :=
  (0 <? active_admin_key_count s) && negb (String.eqb version (browser_handover_claimed_version s))
  && (negb (String.eqb (__configured_browser_handover_version config) "") || bool_decide (config = None)).

Definition open_window (desired_kind desired_version : string) (now : Z) (state : option HandoverState) :
    st ApiKeyStore Deadline :=
  let recovery := String.eqb desired_kind "recovery" in
  let ttl := if recovery then _RECOVERY_BROWSER_HANDOVER_TTL else _INITIAL_BROWSER_HANDOVER_TTL in
  let d := mkDeadline desired_kind desired_version (isoformat now) (isoformat (now + ttl)) in
  let seen := match state with Some st => seen_recovery_versions st | None => [] end in
  let state' := mkHandover (Some d) (if recovery then seen ++ [desired_version] else seen) in
  modify (set_browser_handover_deadline_invalid false);;
  modify (set_browser_handover_deadline (Some state'));;
  __write_browser_handover_deadline state';;
  mret d.

Definition __browser_handover_state (version : string) (config : conf) (activate reopen_initial : bool) :
    st ApiKeyStore HandoverPayload :=
  now ← datetime_now;
  admins ← gets active_admin_key_count;
  recovery ← gets (wants_recovery version config);
  let desired_kind := if recovery : bool then "recovery" else "initial" in
  let desired_version := if recovery : bool then __browser_handover_version_digest version else "" in
  state ← __load_browser_handover_deadline;
  invalid ← gets browser_handover_deadline_invalid;
  if negb recovery && (0 <? admins) then
    (if activate then finalize_browser_handover_claim (JStr version);; mret tt else mret tt);;
    __handover_payload version None now false false invalid false false
  else
    let deadline := st ← state; active st in
    let matching := deadline_matches desired_kind desired_version deadline in
    exp ← match deadline with
          | Some d => if matching then lift (__deadline_expired d now) else mret false
          | None => mret false
          end;
    let seen := match state with
                | Some st => recovery && bool_decide (desired_version ∈ seen_recovery_versions st)
                | None => false
                end in
    let full := match state with
                | Some st => recovery && negb matching && negb seen
                    && (_BROWSER_HANDOVER_SEEN_RECOVERY_VERSION_LIMIT <=? length (seen_recovery_versions st))%nat
                | None => false
                end in
    activated ← gets browser_handover_activated;
    let should_open := negb invalid
      && ((negb matching && negb seen && negb full) || (String.eqb desired_kind "initial" && exp && reopen_initial))
      && (activate || (recovery && activated)) in
    if should_open then
      d ← open_window desired_kind desired_version now state;
      __handover_payload version (Some d) now (negb invalid) false invalid seen full
    else
      __handover_payload version (if matching then deadline else None) now
        (matching && negb exp && negb invalid) exp invalid seen full.

Definition effective_browser_handover_version (config : conf) (s : ApiKeyStore) : string :=
  let configured := __configured_browser_handover_version config in
  if negb (String.eqb configured "") then configured else completed_migration_claimed_handover_version s.

Definition get_browser_handover_state (config : conf) : st ApiKeyStore HandoverPayload :=
  version ← gets (effective_browser_handover_version config);
  __browser_handover_state version config false false.

Definition activate_browser_handover (config : conf) : st ApiKeyStore HandoverPayload :=
  version ← gets (effective_browser_handover_version config);
  activated ← gets browser_handover_activated;
  modify (set_browser_handover_activated true);;
  __browser_handover_state version config true (negb activated).

Definition bind_completed_migration_claimed_handover_version (version : json) : st ApiKeyStore unit :=
  if blank version then raise ValueError
  else modify (set_completed_migration_claimed_handover_version (stripped version)).

Definition can_claim_initial_admin (version : json) (config : conf) : st ApiKeyStore bool :=
  let v := stripped version in
  state ← __browser_handover_state v config false false;
  activated ← gets browser_handover_activated;
  if activated || state_invalid state || bool_decide (is_Some (payload_expires_at state)) then mret (open state)
  else gets (fun s => (active_admin_key_count s =? 0) || negb (String.eqb (browser_handover_claimed_version s) v)).

(** what a successful claim records, unless a completed migration pins it *)
Definition record_claimed_version (v : string) : st ApiKeyStore unit :=
  pinned ← gets completed_migration_claimed_handover_version;
  when (String.eqb pinned "") (modify (set_browser_handover_claimed_version v)).

Definition claim_initial_admin_if_available (version : json) : st ApiKeyStore bool :=
  let v := stripped version in
  can ← can_claim_initial_admin (JStr v) None;
  if can : bool then
    record_claimed_version v;;
    save;;
    finalize_browser_handover_claim (JStr v);;
    __record_history_event "browser_handover_claimed" "initial_admin_claimed" [("browser_handover_version", JStr v)];;
    mret true
  else mret false.

(** ** Keys *)

Definition __create_api_key_record (name scopes : json) : st ApiKeyStore (ApiKeyRecord * string) :=
  scopes ← lift (of_sum (_normalize_scopes scopes));
  match name with
  | JStr nm =>
      if blank name then raise ValueError
      else
        n ← tick;
        now ← _utc_now_iso;
        m ← tick;
        hash ← _hash_secret (token_urlsafe n);
        let record := mkKey (uuid4 m) (strip nm) scopes hash now now None in
        modify (fun s => set_api_keys (api_keys s ++ [record]) s);;
        mret (record, token_urlsafe n)
  | _ => raise ValueError
  end.

Definition key_details (r : ApiKeyRecord) : list (string * json) :=
  [("api_key_id", JStr (key_id r)); ("name", JStr (key_name r)); ("scopes", scopes_json (key_scopes r))].

Definition create_initial_admin_api_key_if_available (version name : json) :
    st ApiKeyStore (option (ApiKeyRecord * string)) :=
  let v := stripped version in
  can ← can_claim_initial_admin (JStr v) None;
  if can : bool then
    r ← __create_api_key_record name (JArr [JStr "admin"]);
    record_claimed_version v;;
    clear_bootstrap_proof "admin_api_key_created";;
    clear_bootstrap_exchange "admin_api_key_created";;
    save;;
    finalize_browser_handover_claim (JStr v);;
    __record_history_event "api_key_created" "initial_admin_created"
      (key_details r.1 ++ [("browser_handover_version", JStr v)]);;
    mret (Some r)
  else mret None.

Definition create_api_key (name scopes : json) : st ApiKeyStore (ApiKeyRecord * string) :=
  r ← __create_api_key_record name scopes;
  when (bool_decide ("admin" ∈ key_scopes r.1))
    (clear_bootstrap_proof "admin_api_key_created";; clear_bootstrap_exchange "admin_api_key_created");;
  save;;
  __record_history_event "api_key_created" "create_api_key" (key_details r.1);;
  mret r.

(** An assignment to attributes of the record found by [get_api_key]. *)
Fixpoint upd_key (id : string) (f : ApiKeyRecord -> ApiKeyRecord) (l : list ApiKeyRecord) : list ApiKeyRecord :=
  match l with
  | [] => []
  | r :: l' => if String.eqb (key_id r) id then f r :: l' else r :: upd_key id f l'
  end.

Definition assign_key (id : string) (f : ApiKeyRecord -> ApiKeyRecord) : st ApiKeyStore unit :=
  modify (fun s => set_api_keys (upd_key id f (api_keys s)) s).

Definition with_name (v : string) (r : ApiKeyRecord) : ApiKeyRecord :=
  mkKey (key_id r) v (key_scopes r) (secret_hash r) (created_at r) (updated_at r) (revoked_at r).
Definition with_scopes (v : list string) (r : ApiKeyRecord) : ApiKeyRecord :=
  mkKey (key_id r) (key_name r) v (secret_hash r) (created_at r) (updated_at r) (revoked_at r).
Definition with_hash (v : string) (r : ApiKeyRecord) : ApiKeyRecord :=
  mkKey (key_id r) (key_name r) (key_scopes r) v (created_at r) (updated_at r) (revoked_at r).
Definition with_updated (v : string) (r : ApiKeyRecord) : ApiKeyRecord :=
  mkKey (key_id r) (key_name r) (key_scopes r) (secret_hash r) (created_at r) v (revoked_at r).
Definition with_revoked (v : string) (r : ApiKeyRecord) : ApiKeyRecord :=
  mkKey (key_id r) (key_name r) (key_scopes r) (secret_hash r) (created_at r) (updated_at r) (Some v).

(** The record an operation works on; it raises [KeyError] when it is missing. *)
Definition the_key (id : string) : st ApiKeyStore ApiKeyRecord :=
  record ← gets (get_api_key id);
  match record with Some r => mret r | None => raise KeyError end.

Definition update_name (id : string) (r : ApiKeyRecord) (name : json) : st ApiKeyStore bool :=
  match name with
  | JNull => mret false
  | JStr nm =>
      if blank name then raise ValueError
      else assign_key id (with_name (strip nm));; mret (negb (String.eqb (strip nm) (key_name r)))
  | _ => raise ValueError
  end.

Definition update_scopes (id : string) (r : ApiKeyRecord) (scopes : json) : st ApiKeyStore bool :=
  match scopes with
  | JNull => mret false
  | _ =>
      normalized ← lift (of_sum (_normalize_scopes scopes));
      assign_key id (with_scopes normalized);; mret (bool_decide (normalized <> key_scopes r))
  end.

Definition update_api_key (id : string) (name scopes : json) : st ApiKeyStore ApiKeyRecord :=
  record ← the_key id;
  if is_revoked record then raise ValueError
  else
    name_changed ← update_name id record name;
    scopes_changed ← update_scopes id record scopes;
    now ← _utc_now_iso;
    assign_key id (with_updated now);;
    save;;
    record ← the_key id;
    __record_history_event "api_key_updated"
      (if name_changed && scopes_changed then "name_and_scopes_updated"
       else if name_changed : bool then "name_updated"
       else if scopes_changed : bool then "scopes_updated" else "metadata_refreshed")
      (key_details record);;
    mret record.

Definition discarded_details (r : ApiKeyRecord) (n : Z) : list (string * json) :=
  [("api_key_id", JStr (key_id r)); ("name", JStr (key_name r)); ("discarded_session_count", JInt n)].

(** [list.remove(record)] *)
Fixpoint remove_key (r : ApiKeyRecord) (l : list ApiKeyRecord) : list ApiKeyRecord :=
  match l with
  | [] => []
  | x :: l' => if decide (x = r) then l' else x :: remove_key r l'
  end.

Definition delete_api_key (id : string) : st ApiKeyStore ApiKeyRecord :=
  record ← the_key id;
  if negb (is_revoked record) then raise ValueError
  else
    n ← __discard_browser_sessions_for_api_key (key_id record) "api_key_deleted";
    modify (fun s => set_api_keys (remove_key record (api_keys s)) s);;
    save;;
    __record_history_event "api_key_deleted" "api_key_deleted" (discarded_details record n);;
    mret record.

Definition revoke_api_key (id : string) : st ApiKeyStore ApiKeyRecord :=
  record ← the_key id;
  if is_revoked record then raise ValueError
  else
    now ← _utc_now_iso;
    assign_key id (fun r => with_updated now (with_revoked now r));;
    n ← __discard_browser_sessions_for_api_key (key_id record) "api_key_revoked";
    save;;
    record ← the_key id;
    __record_history_event "api_key_revoked" "api_key_revoked" (discarded_details record n);;
    mret record.

Definition rotate_api_key (id : string) : st ApiKeyStore (ApiKeyRecord * string) :=
  record ← the_key id;
  if is_revoked record then raise ValueError
  else
    n ← tick;
    hash ← _hash_secret (token_urlsafe n);
    assign_key id (with_hash hash);;
    now ← _utc_now_iso;
    assign_key id (with_updated now);;
    save;;
    record ← the_key id;
    __record_history_event "api_key_rotated" "api_key_rotated" (key_details record);;
    mret (record, token_urlsafe n).

(** ** First-run bootstrap *)

Definition fresh_bootstrap (now ttl : Z) : st ApiKeyStore BootstrapRecord :=
  n ← tick; mret (mkBootstrap (token_urlsafe n) (isoformat now) (isoformat (now + ttl))).

Definition ensure_bootstrap_proof : st ApiKeyStore (option BootstrapRecord) :=
  now ← datetime_now;
  __prune_bootstrap_proof now;;
  __prune_bootstrap_exchange now;;
  admins ← gets active_admin_key_count;
  if 0 <? admins then
    clear_bootstrap_proof "active_admin_key_exists";;
    clear_bootstrap_exchange "active_admin_key_exists";;
    mret None
  else
    proof ← gets bootstrap_proof;
    match proof with
    | None =>
        r ← fresh_bootstrap now _BOOTSTRAP_PROOF_TTL;
        modify (set_bootstrap_proof (Some r));;
        __sync_bootstrap_proof_artifact;;
        __record_history_event "bootstrap_proof_created" "first_run_bootstrap_window_opened"
          [("expires_at", JStr (bs_expires_at r))]
    | Some _ => mret tt
    end;;
    gets bootstrap_proof.

Definition ensure_bootstrap_exchange : st ApiKeyStore (option BootstrapRecord) :=
  now ← datetime_now;
  __prune_bootstrap_exchange now;;
  admins ← gets active_admin_key_count;
  if 0 <? admins then clear_bootstrap_exchange "active_admin_key_exists";; mret None
  else
    exchange ← gets bootstrap_exchange;
    match exchange with
    | None =>
        r ← fresh_bootstrap now _BOOTSTRAP_EXCHANGE_TTL;
        modify (set_bootstrap_exchange (Some r));;
        __record_history_event "bootstrap_exchange_created" "first_run_bootstrap_window_opened"
          [("expires_at", JStr (bs_expires_at r))]
    | Some _ => mret tt
    end;;
    gets bootstrap_exchange.

(** [hmac.compare_digest(record.secret, secret.strip())], a missing record failing *)
Definition secret_matches (r : option BootstrapRecord) (secret : string) : result bool :=
  match r with None => Ok false | Some r => compare_digest (bs_secret r) (strip secret) end.

Definition peek_bootstrap_proof (secret : json) : st ApiKeyStore bool :=
  match secret with
  | JStr sec =>
      if blank secret then mret false
      else
        now ← datetime_now;
        __prune_bootstrap_proof now;;
        proof ← gets bootstrap_proof;
        lift (secret_matches proof sec)
  | _ => mret false
  end.

Definition peek_bootstrap_exchange (secret : json) : st ApiKeyStore bool :=
  match secret with
  | JStr sec =>
      if blank secret then mret false
      else
        now ← datetime_now;
        __prune_bootstrap_exchange now;;
        exchange ← gets bootstrap_exchange;
        lift (secret_matches exchange sec)
  | _ => mret false
  end.

Definition consume_bootstrap_proof (secret : json) : st ApiKeyStore bool :=
  ok ← peek_bootstrap_proof secret;
  if ok : bool then
    modify (set_bootstrap_proof None);;
    __sync_bootstrap_proof_artifact;;
    __record_history_event "bootstrap_proof_cleared" "consumed" [];;
    mret true
  else mret false.

Definition consume_bootstrap_exchange (secret : json) : st ApiKeyStore bool :=
  ok ← peek_bootstrap_exchange secret;
  if ok : bool then
    modify (set_bootstrap_exchange None);;
    __record_history_event "bootstrap_exchange_cleared" "consumed" [];;
    mret true
  else mret false.

(** ** Reading the file *)

Definition invalid_store {A} (what : string) : result A := Raise (PersistError ("Invalid API key store JSON: " +:+ what)).

(** [record[name]], which must be a string *)
Definition _required_string_field (o : dict string json) (name : string) : string + string :=
  match dget o name with
  | None => inl ("missing field '" +:+ name +:+ "'")
  | Some (JStr v) => inr v
  | Some _ => inl (name +:+ " must be a string")
  end.

#[local] Instance sum_bind : MBind (sum string) := fun A B f m => match m with inr a => f a | inl e => inl e end.

Definition optional_string (message : string) (v : json) : string + option string :=
  match v with JNull => inr None | JStr s => inr (Some s) | _ => inl message end.

Definition as_bool (message : string) (v : option json) : string + bool :=
  match v with None => inr false | Some (JBool b) => inr b | Some _ => inl message end.

Definition get_scopes (o : dict string json) : string + list string :=
  _normalize_scopes (default (JArr []) (dget o "scopes")).

Definition read_key (o : dict string json) : string + ApiKeyRecord :=
  id ← _required_string_field o "id";
  name ← _required_string_field o "name";
  scopes ← get_scopes o;
  hash ← _required_string_field o "secret_hash";
  created ← _required_string_field o "created_at";
  updated ← _required_string_field o "updated_at";
  revoked ← match get_json o "revoked_at" with
            | JNull => inr None
            | _ => v ← _required_string_field o "revoked_at"; inr (Some v)
            end;
  inr (mkKey id name scopes hash created updated revoked).

Definition read_session (o : dict string json) : string + UiSessionRecord :=
  id ← optional_string "API key session api_key_id must be a string" (get_json o "api_key_id");
  hash ← optional_string "API key session api_key_secret_hash must be a string" (get_json o "api_key_secret_hash");
  rem ← as_bool "API key session remembered flag must be a boolean" (dget o "remembered");
  secret ← _required_string_field o "secret";
  boot ← as_bool "API key session bootstrap flag must be a boolean" (dget o "bootstrap");
  scopes ← get_scopes o;
  created ← _required_string_field o "created_at";
  expires ← _required_string_field o "expires_at";
  inr (mkSession secret scopes created expires boot rem id hash).

Fixpoint read_keys (l : list json) : result (list ApiKeyRecord) :=
  match l with
  | [] => Ok []
  | JObj o :: l' =>
      match read_key o with
      | inr r => rs ← read_keys l'; Ok (r :: rs)
      | inl m => invalid_store m
      end
  | _ :: _ => invalid_store "api key record must be an object"
  end.

Fixpoint read_sessions (l : list json) (d : dict string UiSessionRecord) : result (dict string UiSessionRecord) :=
  match l with
  | [] => Ok d
  | JObj o :: l' =>
      match read_session o with
      | inr r => read_sessions l' (dset d (ses_secret r) r)
      | inl m => invalid_store m
      end
  | _ :: _ => invalid_store "ui session record must be an object"
  end.

(** What [from_str] puts into the fresh object; the text of a syntax error is
    not part of the model. *)
Record StoreContent := mkContent {
  content_claimed : string; content_keys : list ApiKeyRecord; content_sessions : dict string UiSessionRecord }.

Definition from_str (content : string) : result StoreContent :=
  match loads content with
  | None => invalid_store ""
  | Some (JObj payload) =>
      match default (JInt 1) (dget payload "version") with
      | JInt version =>
          if version <? 1 then invalid_store "version must be at least 1"
          else
            claimed ← match default (JStr "") (dget payload "browser_handover_claimed_version") with
                      | JNull => Ok ""
                      | JStr v => Ok v
                      | _ => invalid_store "browser_handover_claimed_version must be a string"
                      end;
            match default (JArr []) (dget payload "api_keys") with
            | JArr records =>
                keys ← read_keys records;
                match default (JArr []) (dget payload "ui_sessions") with
                | JArr raw => sessions ← read_sessions raw []; Ok (mkContent claimed keys sessions)
                | _ => invalid_store "ui_sessions must be a list"
                end
            | _ => invalid_store "api_keys must be a list"
            end
      | _ => invalid_store "version must be an integer"
      end
  | Some _ => invalid_store "expected an object"
  end.

Definition of_content (c : StoreContent) (s : ApiKeyStore) : ApiKeyStore :=
  set_browser_handover_claimed_version (content_claimed c)
    (set_ui_sessions (content_sessions c) (set_api_keys (content_keys c) s)).

(** [Seedsync.__backup_file]: the first free name; the number of files bounds
    the search *)
Fixpoint free_backup (fs : dict string string) (path : string) (fuel : nat) (i : Z) : string :=
  let candidate := path_join (dirname path) (basename path +:+ "." +:+ str (show_int i) +:+ ".bak") in
  match fuel with
  | O => candidate
  | S fuel' => if dhas fs candidate then free_backup fs path fuel' (i + 1) else candidate
  end.

(** A restart: [Seedsync._load_persist] and [bind_file_path] over the files of
    the previous process; an unreadable store is set aside and a fresh one
    takes its place. *)
Definition restart (path : string) : st ApiKeyStore unit :=
  modify (fun s => new_store (Some path) (ticks s) (files s) (history s));;
  text ← gets (fun s => dget (files s) path);
  match text with
  | None => mret tt
  | Some t =>
      disk;;
      match from_str t with
      | Ok c =>
          modify (of_content c);;
          snapshot ← gets __history_snapshot;
          __record_history_event "store_loaded" "loaded_existing_store" (snapshot_json snapshot)
      | Raise (PersistError _) =>
          backup_path ← gets (fun s => free_backup (files s) path (length (files s)) 1);
          disk;;
          modify (fun s => set_files (dset (files s) backup_path t) s);;
          __record_history_event "store_load_failed" "persist_error_fallback"
            [("error_type", JStr "PersistError"); ("backup_path", JStr backup_path); ("fallback", JStr "fresh_store")]
      | Raise e => raise e
      end
  end.

End store.
