(* ===== verification/AuthFacts.v ===== *)
(** * The API key store: frames, the invariant and secrets

    What each operation of [AuthStore] may change: most leave the keys alone
    and only drop sessions ([calm]).  The representation invariant of the
    store, kept by every operation whether it raises or not; a retired key
    stays retired; a fresh secret verifies against its hash. *)

From S2P Require Import Prelude PyDict PyStr Json Config ConfigFacts Base64 AuthStore.

(** ** Documented behaviour of the outside

    [fromisoformat] inverts [isoformat]; draws of the random sources do not
    repeat and tokens are printable ASCII; a SHA-256 digest prints as 64
    hexadecimal digits. *)
Definition plain (s : string) : Prop := is_ascii s = true /\ strip s = s /\ s <> "".

Class AuthLaws {W : AuthWorld} := {
  iso_round_trip t : fromisoformat (isoformat t) = Some (Aware (t / second * second));
  token_plain i : plain (token_urlsafe i);
  token_fresh i j : token_urlsafe i = token_urlsafe j -> i = j;
  uuid_plain i : plain (uuid4 i);
  uuid_fresh i j : uuid4 i = uuid4 j -> i = j;
  urandom_fresh i j : urandom i = urandom j -> i = j;
  sha256_hex64 v : is_hex64 (sha256_hex v) = true }.

(** ** Operations of a running store *)

Inductive auth_op :=
  | OpCreateKey (name scopes : json)
  | OpUpdateKey (id : string) (name scopes : json)
  | OpDeleteKey (id : string)
  | OpRevokeKey (id : string)
  | OpRotateKey (id : string)
  | OpBootstrapSession
  | OpBrowserSession (rem : bool) (id : json)
  | OpFindSession (secret : string)
  | OpInvalidateSession (secret : json)
  | OpCanClaim (version : json) (config : conf)
  | OpClaim (version : json)
  | OpFirstAdmin (version name : json)
  | OpHandoverState (config : conf)
  | OpActivate (config : conf)
  | OpFinalize (version : json)
  | OpEnsureProof
  | OpPeekProof (secret : json)
  | OpConsumeProof (secret : json)
  | OpClearProof (rs : string)
  | OpEnsureExchange
  | OpPeekExchange (secret : json)
  | OpConsumeExchange (secret : json)
  | OpClearExchange (rs : string)
  | OpBindProofPath (p : string)
  | OpBindClaimed (version : json)
  | OpSave.

Definition discard {S A} (m : st S A) : st S unit := m;; mret tt.

Lemma dpop_sublist {V} (d : dict string V) k : dpop d k `sublist_of` d.
Proof. induction d as [|[k' v] d IH]; simpl; [done|]. case_decide; [by constructor|by constructor]. Qed.

Lemma pop_sessions_sublist ids : forall d, pop_sessions ids d `sublist_of` d.
Proof.
  induction ids as [|i ids IH]; intros d; [done|]. simpl. etransitivity; [apply IH|]. apply dpop_sublist.
Qed.

(** Walks a program whose updates are calm. *)
Ltac calm_modify := apply within_modify; intros ?; first
  [ split; [reflexivity|split; [reflexivity|done]]
  | split; [reflexivity|split; [reflexivity|simpl; first [apply pop_sessions_sublist|apply dpop_sublist|done]]] ].

Ltac calm_auto := repeat first [ progress within_auto | calm_modify ].

Section ops.
Context {W : AuthWorld}.

Definition run_op (o : auth_op) : st ApiKeyStore unit :=
  match o with
  | OpCreateKey name scopes => discard (create_api_key name scopes)
  | OpUpdateKey id name scopes => discard (update_api_key id name scopes)
  | OpDeleteKey id => discard (delete_api_key id)
  | OpRevokeKey id => discard (revoke_api_key id)
  | OpRotateKey id => discard (rotate_api_key id)
  | OpBootstrapSession => discard (create_ui_session (JArr [JStr "bootstrap"]) (JBool true) JNull JNull (JBool false))
  | OpBrowserSession rem id => discard (browser_session_for rem id)
  | OpFindSession secret => discard (find_ui_session_by_secret secret)
  | OpInvalidateSession secret => invalidate_ui_session secret
  | OpCanClaim version config => discard (can_claim_initial_admin version config)
  | OpClaim version => discard (claim_initial_admin_if_available version)
  | OpFirstAdmin version name => discard (create_initial_admin_api_key_if_available version name)
  | OpHandoverState config => discard (get_browser_handover_state config)
  | OpActivate config => discard (activate_browser_handover config)
  | OpFinalize version => discard (finalize_browser_handover_claim version)
  | OpEnsureProof => discard ensure_bootstrap_proof
  | OpPeekProof secret => discard (peek_bootstrap_proof secret)
  | OpConsumeProof secret => discard (consume_bootstrap_proof secret)
  | OpClearProof rs => clear_bootstrap_proof rs
  | OpEnsureExchange => discard ensure_bootstrap_exchange
  | OpPeekExchange secret => discard (peek_bootstrap_exchange secret)
  | OpConsumeExchange secret => discard (consume_bootstrap_exchange secret)
  | OpClearExchange rs => clear_bootstrap_exchange rs
  | OpBindProofPath p => bind_bootstrap_proof_path p
  | OpBindClaimed version => bind_completed_migration_claimed_handover_version version
  | OpSave => save
  end.

(** A run of operations; an exception ends one operation, not the process. *)
Definition exec (ops : list auth_op) (s : ApiKeyStore) : ApiKeyStore :=
  fold_left (fun s o => (run_op o s).2) ops s.

Lemma exec_keeps (I : ApiKeyStore -> Prop) :
  (forall o, within (keeps I) (run_op o)) -> forall ops s, I s -> I (exec ops s).
Proof.
  intros H ops. induction ops as [|o ops IH]; intros s Hs; [done|]. apply IH. by apply H.
Qed.

(** ** Calm operations: the keys stay, sessions are only dropped *)

Definition calm : relation ApiKeyStore := fun s s' =>
  api_keys s' = api_keys s /\ (ticks s <= ticks s')%nat /\ ui_sessions s' `sublist_of` ui_sessions s.

#[export] Instance calm_preorder : PreOrder calm.
Proof.
  split; [by intros s|]. intros a b c (H1 & H2 & H3) (G1 & G2 & G3).
  split; [congruence|]. split; [lia|]. by transitivity (ui_sessions b).
Qed.

Lemma calm_fields s s' : api_keys s' = api_keys s -> ticks s' = ticks s -> ui_sessions s' = ui_sessions s -> calm s s'.
Proof. intros H1 H2 H3. split; [done|]. split; [lia|by rewrite H3]. Qed.

Lemma within_tick : within calm tick.
Proof. intros s. split; [done|]. simpl. split; [lia|done]. Qed.

Hint Resolve within_tick : within.

Lemma calm_now : within calm datetime_now.
Proof. unfold datetime_now. calm_auto. Qed.
Hint Resolve calm_now : within.

Lemma calm_iso : within calm _utc_now_iso.
Proof. unfold _utc_now_iso. calm_auto. Qed.
Lemma calm_disk : within calm disk.
Proof. unfold disk. calm_auto. Qed.
Hint Resolve calm_iso calm_disk : within.

Lemma calm_history ev rs ds : within calm (__record_history_event ev rs ds).
Proof. unfold __record_history_event. calm_auto. Qed.
Hint Resolve calm_history : within.

Lemma calm_sync : within calm __sync_bootstrap_proof_artifact.
Proof. unfold __sync_bootstrap_proof_artifact. calm_auto. Qed.
Hint Resolve calm_sync : within.

Lemma calm_clear_proof rs : within calm (clear_bootstrap_proof rs).
Proof. unfold clear_bootstrap_proof. calm_auto. Qed.
Lemma calm_clear_exchange rs : within calm (clear_bootstrap_exchange rs).
Proof. unfold clear_bootstrap_exchange. calm_auto. Qed.
Hint Resolve calm_clear_proof calm_clear_exchange : within.

Lemma calm_prune_proof now : within calm (__prune_bootstrap_proof now).
Proof. unfold __prune_bootstrap_proof. calm_auto. Qed.
Lemma calm_prune_exchange now : within calm (__prune_bootstrap_exchange now).
Proof. unfold __prune_bootstrap_exchange. calm_auto. Qed.
Lemma calm_prune_sessions now : within calm (__prune_expired_ui_sessions now).
Proof. unfold __prune_expired_ui_sessions. calm_auto. Qed.
Hint Resolve calm_prune_proof calm_prune_exchange calm_prune_sessions : within.

Lemma calm_to_str : within calm to_str.
Proof. unfold to_str. calm_auto. Qed.
Hint Resolve calm_to_str : within.

Lemma calm_save : within calm save.
Proof. unfold save, to_file. calm_auto. Qed.
Hint Resolve calm_save : within.

Lemma calm_discard id rs : within calm (__discard_browser_sessions_for_api_key id rs).
Proof. unfold __discard_browser_sessions_for_api_key. calm_auto. Qed.
Lemma calm_find_session sec : within calm (find_ui_session_by_secret sec).
Proof. unfold find_ui_session_by_secret. calm_auto. Qed.
Lemma calm_invalidate sec : within calm (invalidate_ui_session sec).
Proof. unfold invalidate_ui_session. calm_auto. Qed.
Hint Resolve calm_discard calm_find_session calm_invalidate : within.

Lemma calm_write state : within calm (__write_browser_handover_deadline state).
Proof. unfold __write_browser_handover_deadline, _write_completed_migration_private_file. calm_auto. Qed.
Lemma calm_load : within calm __load_browser_handover_deadline.
Proof. unfold __load_browser_handover_deadline. calm_auto. Qed.
Lemma calm_payload v d now a b c e f : within calm (__handover_payload v d now a b c e f).
Proof. unfold __handover_payload. calm_auto. Qed.
Hint Resolve calm_write calm_load calm_payload : within.

Lemma calm_mark v : within calm (__mark_browser_handover_claimed v).
Proof. unfold __mark_browser_handover_claimed. calm_auto. Qed.
Hint Resolve calm_mark : within.

Lemma within_best_effort (R : relation ApiKeyStore) m : within R m -> within R (best_effort m).
Proof. intros H s. specialize (H s). unfold best_effort. by destruct (m s) as [[a|[]] s']. Qed.

Lemma calm_finalize v : within calm (finalize_browser_handover_claim v).
Proof. apply within_best_effort, calm_mark. Qed.
Hint Resolve calm_finalize : within.

Lemma calm_open k v now state : within calm (open_window k v now state).
Proof. unfold open_window. calm_auto. Qed.
Hint Resolve calm_open : within.

Lemma calm_handover v config a r : within calm (__browser_handover_state v config a r).
Proof. unfold __browser_handover_state. calm_auto. Qed.
Hint Resolve calm_handover : within.

Lemma calm_can_claim v config : within calm (can_claim_initial_admin v config).
Proof. unfold can_claim_initial_admin. calm_auto. Qed.
Lemma calm_record_claimed v : within calm (record_claimed_version v).
Proof. unfold record_claimed_version. calm_auto. Qed.
Hint Resolve calm_can_claim calm_record_claimed : within.

(** ** Scopes *)

Definition scopes_ok (l : list string) : Prop := l <> [] /\ NoDup l /\ Forall (fun x => x ∈ _ALLOWED_SCOPES) l.

Lemma normalize_loop_ok l : forall acc r, NoDup acc -> Forall (fun x => x ∈ _ALLOWED_SCOPES) acc ->
  normalize_loop l acc = inr r -> NoDup r /\ Forall (fun x => x ∈ _ALLOWED_SCOPES) r.
Proof.
  induction l as [|v l IH]; intros acc r Hnd Hall; cbn [normalize_loop]; [by intros [= <-]|].
  destruct v as [| | | |scope| |]; try done. case_match; [done|].
  destruct (bool_decide (lower (strip scope) ∈ _ALLOWED_SCOPES)) eqn:E1; [|done]. apply bool_decide_eq_true in E1.
  destruct (bool_decide (lower (strip scope) ∈ acc)) eqn:E2; [by apply IH|]. apply bool_decide_eq_false in E2.
  apply IH; [|by apply Forall_app_2; [|apply Forall_singleton]].
  apply NoDup_app. split_and!; [done|set_solver|apply NoDup_singleton].
Qed.

Lemma normalize_scopes_ok v r : _normalize_scopes v = inr r -> scopes_ok r.
Proof.
  unfold _normalize_scopes. destruct v as [| | | | |l|]; try done.
  destruct (normalize_loop l []) as [e|[|x k]] eqn:E; [done..|]. intros [= <-].
  apply normalize_loop_ok in E; [|apply NoDup_nil_2|apply Forall_nil_2]. by split.
Qed.

Lemma allowed_scope x : x ∈ _ALLOWED_SCOPES -> lower (strip x) = x /\ x <> "".
Proof. unfold _ALLOWED_SCOPES. rewrite !elem_of_cons, elem_of_nil. by intros [->|[->|[->|[->|[->|[]]]]]]. Qed.

Lemma normalize_loop_id l : forall acc, NoDup (acc ++ l) -> Forall (fun x => x ∈ _ALLOWED_SCOPES) l ->
  normalize_loop (map JStr l) acc = inr (acc ++ l).
Proof.
  induction l as [|x l IH]; intros acc Hnd Hall; cbn [map normalize_loop]; [by rewrite app_nil_r|].
  apply Forall_cons in Hall as [Hx Hl]. destruct (allowed_scope x Hx) as [-> Hne].
  rewrite (proj2 (String.eqb_neq x "")) by done. rewrite bool_decide_true by done.
  rewrite bool_decide_false by (apply NoDup_app in Hnd as (_ & Hnd & _); intros Hin; apply (Hnd x Hin); left).
  rewrite IH; [by rewrite <- app_assoc|by rewrite <- app_assoc|done].
Qed.

(** Normalised scopes are read back as they are. *)
Lemma normalize_scopes_id l : scopes_ok l -> _normalize_scopes (scopes_json l) = inr l.
Proof.
  intros (Hne & Hnd & Hall). unfold _normalize_scopes, scopes_json. rewrite normalize_loop_id by done.
  by destruct l.
Qed.

(** ** Hashed secrets *)

Lemma b64_no_dollar s : "$"%char ∉ chars (b64encode s).
Proof. unfold b64encode. rewrite chars_str. by intros H%b64_encode_text. Qed.

Lemma split_hash salt digest : split "$" (hash_text _HASH_ITERATIONS salt digest) =
  [_HASH_ALGORITHM; "200000"; b64encode salt; b64encode digest].
Proof.
  unfold split, hash_text. rewrite !chars_app. change (chars "$") with ["$"%char]. cbn [app].
  rewrite !split_chars_app, split_chars_last; [|apply b64_no_dollar..|vm_compute; set_solver|vm_compute; set_solver].
  cbn [map rev app]. by rewrite !str_chars.
Qed.

(** The salt is part of the hash. *)
Lemma hash_text_salt s d s' d' : hash_text _HASH_ITERATIONS s d = hash_text _HASH_ITERATIONS s' d' -> s = s'.
Proof.
  intros E. pose proof (split_hash s d) as H. rewrite E, split_hash in H. injection H as H _. by apply b64encode_inj.
Qed.

Lemma b64_ascii s : is_ascii (b64encode s) = true.
Proof.
  unfold is_ascii, b64encode. rewrite chars_str. apply forallb_forall. intros c Hc.
  apply list_elem_of_In, b64_encode_text in Hc. unfold b64_text in Hc. apply orb_true_iff in Hc as [Hc|Hc]; [|lia].
  apply bool_decide_eq_true in Hc as [v Hv]. unfold b64_value in Hv. repeat case_match; try done; lia.
Qed.

Lemma verify_hash secret salt :
  _verify_secret secret (hash_text _HASH_ITERATIONS salt (pbkdf2_sha256 secret salt _HASH_ITERATIONS)) = Ok true.
Proof.
  unfold _verify_secret, split4. rewrite split_hash. cbn [map join]. rewrite str_chars.
  change (String.eqb _HASH_ALGORITHM _HASH_ALGORITHM) with true. cbn [negb].
  rewrite !b64_ascii, !b64decode_b64encode. cbn [negb].
  change (py_int "200000") with (Some _HASH_ITERATIONS). unfold pbkdf2_hmac.
  change (max_iterations <? _HASH_ITERATIONS) with false. change (_HASH_ITERATIONS <? 1) with false. cbv iota.
  by rewrite String.eqb_refl.
Qed.
End ops.

#[export] Hint Resolve within_tick calm_now calm_iso calm_disk calm_history calm_sync calm_clear_proof calm_clear_exchange
  calm_prune_proof calm_prune_exchange calm_prune_sessions calm_to_str calm_save calm_discard calm_find_session
  calm_invalidate calm_write calm_load calm_payload calm_mark calm_finalize calm_open calm_handover calm_can_claim
  calm_record_claimed : within.
