(* ===== verification/AuthToy.v ===== *)
(** * A concrete outside for the API key store

    An instance of [AuthWorld] that satisfies [AuthLaws]: binary numerals for
    instants, tokens, identifiers and salts, a clock that advances one second
    per draw, a disk that never fails.  The witnesses run the store in it. *)

From S2P Require Import Prelude PyDict PyStr Json Config AuthStore AuthFacts.

Fixpoint enc (p : positive) : list ascii :=
  match p with xH => [] | xO q => "0"%char :: enc q | xI q => "1"%char :: enc q end.

Fixpoint dec (l : list ascii) : positive :=
  match l with [] => xH | c :: r => if Ascii.eqb c "0" then xO (dec r) else xI (dec r) end.

Lemma dec_enc p : dec (enc p) = p.
Proof. induction p as [p IH|p IH|]; cbn; by rewrite ?IH. Qed.

Lemma enc_chars p c : c ∈ enc p -> c = "0"%char \/ c = "1"%char.
Proof.
  induction p as [p IH|p IH|]; cbn [enc]; rewrite ?elem_of_cons, ?elem_of_nil; [|..|done]; (intros [->|H]; [tauto|auto]).
Qed.

Definition numeral (tag : ascii) (n : nat) : string := str (tag :: enc (Pos.of_succ_nat n)).

Definition show_instant (t : Z) : string :=
  match t with Z0 => "z" | Zpos p => str ("p"%char :: enc p) | Zneg p => str ("n"%char :: enc p) end.

Definition read_instant (s : string) : option timestamp :=
  match chars s with
  | c :: r =>
      if Ascii.eqb c "z" then Some (Aware 0)
      else if Ascii.eqb c "p" then Some (Aware (Zpos (dec r) * second))
      else if Ascii.eqb c "n" then Some (Aware (Zneg (dec r) * second))
      else if Ascii.eqb c "N" then Some (Naive 0)
      else None
  | [] => None
  end.

Definition toy : AuthWorld := {|
  pbkdf2_sha256 secret salt _ := secret +:+ salt;
  sha256_hex _ := str (repeat "0"%char 64);
  isoformat t := show_instant (t / second);
  fromisoformat := read_instant;
  clock n := Z.of_nat n * second;
  token_urlsafe := numeral "t";
  uuid4 := numeral "u";
  urandom := numeral "s";
  disk_fails _ := false |}.

Lemma read_show z : read_instant (show_instant z) = Some (Aware (z * second)).
Proof. destruct z as [|p|p]; cbn [show_instant]; unfold read_instant; rewrite ?chars_str; [done|cbn; by rewrite dec_enc..]. Qed.

Lemma numeral_inj tag i j : numeral tag i = numeral tag j -> i = j.
Proof.
  unfold numeral. intros E. apply (f_equal chars) in E. rewrite !chars_str in E. injection E as E.
  apply (f_equal dec) in E. rewrite !dec_enc in E. lia.
Qed.

Lemma numeral_plain tag i : is_space tag = false -> ord tag <? 128 = true -> plain (numeral tag i).
Proof.
  intros Hs Ha. unfold numeral.
  assert (Hall : forall c, c ∈ tag :: enc (Pos.of_succ_nat i) -> is_space c = false /\ ord c <? 128 = true).
  { intros c [->|Hc]%elem_of_cons; [done|]. by apply enc_chars in Hc as [->| ->]. }
  split; [|split].
  - unfold is_ascii. rewrite chars_str. apply forallb_forall. intros c Hc. apply Hall. by apply list_elem_of_In.
  - apply strip_trimmed. split; [done|].
    destruct (rev (tag :: enc (Pos.of_succ_nat i))) as [|c r] eqn:E; [done|]. apply Hall.
    rewrite <- (rev_involutive (tag :: _)), E. cbn [rev]. apply elem_of_app. right. by apply list_elem_of_singleton.
  - intros E. apply (f_equal chars) in E. by rewrite chars_str in E.
Qed.

Lemma toy_laws : AuthLaws (W := toy).
Proof.
  split.
  - intros t. apply read_show.
  - intros i. by apply numeral_plain.
  - apply numeral_inj.
  - intros i. by apply numeral_plain.
  - apply numeral_inj.
  - apply numeral_inj.
  - intros v. reflexivity.
Qed.

(** A store in use: a key was created and a browser remembered for it. *)
Definition demo_path : string := "/config/api-keys.json".
Definition demo_id : string := numeral "u" 2.
Definition demo_start : ApiKeyStore := new_store (Some demo_path) 0 [] [].
Definition demo_ops : list auth_op :=
  [OpCreateKey (JStr "ci") (JArr [JStr "read"; JStr "Write"]); OpBrowserSession true (JStr demo_id)].
Definition demo : ApiKeyStore := exec (W := toy) demo_ops demo_start.

(** A recovery window was opened beside an existing administrator. *)
Definition recovery_config : conf := Some (Some [("browser_handover_recovery_version", VStr "recover-1")]).
Definition demo_recovery : ApiKeyStore :=
  exec (W := toy) [OpCreateKey (JStr "root") (JArr [JStr "admin"]); OpActivate recovery_config] demo_start.

(** The initial window is open; a bootstrap proof is out. *)
Definition demo_initial : ApiKeyStore := exec (W := toy) [OpActivate None; OpEnsureProof] demo_start.
