(* ===== verification/AuthSteps.v ===== *)
(** * The API key store as a transition system

    An abstract step relation on keys and sessions; every operation is shown
    to be a sequence of its steps, so properties of the keys and sessions are
    proved by induction on the steps. *)

From S2P Require Import Prelude PyDict PyStr Json AuthStore AuthFacts.

Section steps.
Context {W : AuthWorld}.

(** A hash salted with a draw of the interval [lo, hi). *)
Definition salted (lo hi : nat) (h : string) : Prop :=
  exists k d, (lo <= k < hi)%nat /\ h = hash_text _HASH_ITERATIONS (urandom k) d.

(** What an assignment may do to a record between two draws. *)
Record refines (lo hi : nat) (f : ApiKeyRecord -> ApiKeyRecord) : Prop := {
  refines_id r : key_id (f r) = key_id r;
  refines_revoked r : is_revoked r = true -> is_revoked (f r) = true;
  refines_scopes r : scopes_ok (key_scopes r) -> scopes_ok (key_scopes (f r));
  refines_hash r : secret_hash (f r) = secret_hash r \/ salted lo hi (secret_hash (f r)) }.

(** Whom a session stands for: the bootstrap user, or an active key as it is
    stored at that moment. *)
Definition bound (s : ApiKeyStore) (r : UiSessionRecord) : Prop :=
  (bootstrap r = true /\ ses_scopes r = ["bootstrap"] /\ remembered r = false /\ api_key_id r = None /\ api_key_secret_hash r = None) \/
  (bootstrap r = false /\ exists k, k ∈ api_keys s /\ is_revoked k = false /\
     api_key_id r = Some (strip (key_id k)) /\ api_key_secret_hash r = Some (strip (secret_hash k))).

Inductive key_step (s s' : ApiKeyStore) : Prop :=
  | StepCalm : calm s s' -> key_step s s'
  | StepAdd r m :
      (ticks s <= m < ticks s')%nat -> key_id r = uuid4 m -> salted (ticks s) (ticks s') (secret_hash r) ->
      is_revoked r = false -> scopes_ok (key_scopes r) ->
      api_keys s' = api_keys s ++ [r] -> ui_sessions s' = ui_sessions s -> key_step s s'
  | StepAssign id f :
      refines (ticks s) (ticks s') f -> (ticks s <= ticks s')%nat ->
      api_keys s' = upd_key id f (api_keys s) -> ui_sessions s' = ui_sessions s -> key_step s s'
  | StepRemove r :
      ticks s' = ticks s -> api_keys s' = remove_key r (api_keys s) -> ui_sessions s' = ui_sessions s -> key_step s s'
  | StepSession n r :
      (ticks s <= n < ticks s')%nat -> ses_secret r = token_urlsafe n -> scopes_ok (ses_scopes r) -> bound s r ->
      api_keys s' = api_keys s -> ui_sessions s' = dset (ui_sessions s) (ses_secret r) r -> key_step s s'.

Definition key_steps : relation ApiKeyStore := rtc key_step.

#[export] Instance key_steps_preorder : PreOrder key_steps.
Proof. unfold key_steps. apply _. Qed.

Lemma steps_calm {A} (m : st ApiKeyStore A) : within calm m -> within key_steps m.
Proof. intros H s. apply rtc_once, StepCalm, H. Qed.

(** ** Operations are sequences of steps *)

Lemma hash_secret_run sec s : sec <> "" -> _hash_secret sec s =
  (Ok (hash_text _HASH_ITERATIONS (urandom (ticks s)) (pbkdf2_sha256 sec (urandom (ticks s)) _HASH_ITERATIONS)),
   set_ticks (S (ticks s)) s).
Proof. intros H. unfold _hash_secret. by rewrite (proj2 (String.eqb_neq sec "") H). Qed.

Lemma hash_secret_blank s : _hash_secret "" s = (Raise ValueError, s).
Proof. done. Qed.

(** What the creation of a record draws and appends. *)
Lemma create_record_run nm l scopes s : _normalize_scopes scopes = inr l -> blank (JStr nm) = false ->
  token_urlsafe (ticks s) <> "" ->
  let n := ticks s in
  let t := isoformat (clock (S n)) in
  let salt := urandom (S (S (S n))) in
  let r := mkKey (uuid4 (S (S n))) (strip nm) l
    (hash_text _HASH_ITERATIONS salt (pbkdf2_sha256 (token_urlsafe n) salt _HASH_ITERATIONS)) t t None in
  __create_api_key_record (JStr nm) scopes s =
  (Ok (r, token_urlsafe n), set_api_keys (api_keys s ++ [r]) (set_ticks (S (S (S (S n)))) s)).
Proof.
  intros El Hb Ht n t salt r. unfold __create_api_key_record. rewrite El, Hb.
  rewrite (st_bind_ok (lift _) _ s l s) by done. rewrite (st_bind_ok tick _ _ _ _ eq_refl).
  rewrite (st_bind_ok _utc_now_iso _ _ _ _ eq_refl). rewrite (st_bind_ok tick _ _ _ _ eq_refl).
  rewrite (st_bind_ok _ _ _ _ _ (hash_secret_run _ _ Ht)). reflexivity.
Qed.

Lemma create_record_blank nm l scopes s : _normalize_scopes scopes = inr l -> blank (JStr nm) = false ->
  token_urlsafe (ticks s) = "" ->
  __create_api_key_record (JStr nm) scopes s = (Raise ValueError, set_ticks (S (S (S (ticks s)))) s).
Proof.
  intros El Hb Ht. unfold __create_api_key_record. rewrite El, Hb.
  rewrite (st_bind_ok (lift _) _ s l s) by done. rewrite (st_bind_ok tick _ _ _ _ eq_refl).
  rewrite (st_bind_ok _utc_now_iso _ _ _ _ eq_refl). rewrite (st_bind_ok tick _ _ _ _ eq_refl).
  by rewrite Ht.
Qed.

Lemma steps_create_record name scopes : within key_steps (__create_api_key_record name scopes).
Proof.
  destruct (_normalize_scopes scopes) as [e|l] eqn:El.
  { unfold __create_api_key_record. rewrite El. apply (within_raise _ ValueError). }
  destruct name as [| | | |nm| |]; try by (unfold __create_api_key_record; rewrite El; apply (within_raise _ ValueError)).
  destruct (blank (JStr nm)) eqn:Hb.
  { unfold __create_api_key_record. rewrite El, Hb. apply (within_raise _ ValueError). }
  intros s. apply rtc_once. destruct (decide (token_urlsafe (ticks s) = "")) as [Ht|Ht].
  - rewrite (create_record_blank _ _ _ _ El Hb Ht). apply StepCalm. split; [done|]. simpl. split; [lia|done].
  - rewrite (create_record_run _ _ _ _ El Hb Ht). cbv zeta. cbn [snd].
    eapply (StepAdd _ _ _ (S (S (ticks s)))); cbn; [lia|..|reflexivity|reflexivity]; try reflexivity;
      [|by eapply normalize_scopes_ok].
    exists (S (S (S (ticks s)))), (pbkdf2_sha256 (token_urlsafe (ticks s)) (urandom (S (S (S (ticks s))))) _HASH_ITERATIONS).
    split; [lia|reflexivity].
Qed.

Lemma steps_assign id f : (forall n m, refines n m f) -> within key_steps (assign_key id f).
Proof. intros H. apply within_modify. intros s. apply rtc_once. by eapply (StepAssign _ _ id f). Qed.

Lemma refines_attrs n m f : (forall r, key_id (f r) = key_id r /\ secret_hash (f r) = secret_hash r /\
    (is_revoked r = true -> is_revoked (f r) = true) /\
    (scopes_ok (key_scopes r) -> scopes_ok (key_scopes (f r)))) -> refines n m f.
Proof. intros H. split; intros r; destruct (H r) as (? & ? & ? & ?); auto. Qed.

Lemma steps_rehash id sec (k : st ApiKeyStore (ApiKeyRecord * string)) : within key_steps k ->
  within key_steps (hash ← _hash_secret sec; assign_key id (with_hash hash);; k).
Proof.
  intros Hk s. destruct (decide (sec = "")) as [->|Hs]; [done|].
  rewrite (st_bind_ok _ _ _ _ _ (hash_secret_run _ _ Hs)). rewrite (st_bind_ok (assign_key _ _) _ _ _ _ eq_refl).
  etransitivity; [|apply Hk]. apply rtc_once. eapply (StepAssign _ _ id); cbn; try reflexivity; [|lia].
  split; intros r; cbn; try done. right. exists (ticks s), (pbkdf2_sha256 sec (urandom (ticks s)) _HASH_ITERATIONS). split; [lia|reflexivity].
Qed.

Lemma revoked_with v r : is_revoked (with_revoked v r) = true.
Proof. by unfold is_revoked; rewrite bool_decide_true. Qed.

(** A new session is bound to what its caller read. *)
Lemma steps_create_session scopes boot id hash rem s :
  (boot = JBool true /\ scopes = JArr [JStr "bootstrap"] /\ id = JNull /\ hash = JNull \/
   boot = JBool false /\ exists k, k ∈ api_keys s /\ is_revoked k = false /\ id = JStr (key_id k) /\ hash = JStr (secret_hash k)) ->
  key_steps s (create_ui_session scopes boot id hash rem s).2.
Proof.
  intros Hb. unfold create_ui_session. destruct (_normalize_scopes scopes) as [e|l] eqn:El; [done|].
  rewrite (st_bind_ok (lift _) _ s l s) by done.
  destruct boot as [|boot| | | | |]; try done. case_match; [done|]. case_match; [done|].
  destruct rem as [|rem| | | | |]; try done. destruct (boot && rem) eqn:Hbr; [done|].
  rewrite (st_bind_ok datetime_now _ _ _ _ eq_refl), (st_bind_ok tick _ _ _ _ eq_refl). cbv zeta.
  match goal with |- context [dset _ (ses_secret ?r) ?r] => set (record := r) end.
  rewrite (st_bind_ok (modify _) _ _ _ _ eq_refl).
  match goal with |- key_steps s (?m ?s1).2 => assert (Hm : within key_steps m) by
    (apply steps_calm; within_auto); assert (H1 : key_step s s1) end.
  { eapply (StepSession _ _ (S (ticks s)) record); cbn; try reflexivity; [lia|by eapply normalize_scopes_ok|].
    destruct Hb as [(Hbo & -> & -> & ->)|(Hbo & k & Hk & Hrev & -> & ->)]; injection Hbo as ->.
    - left. cbn in Hbr. subst rem. by injection El as <-.
    - right. split; [done|]. by exists k. }
  etransitivity; [apply rtc_once, H1|]. apply Hm.
Qed.

Lemma steps_browser_session rem id : within key_steps (browser_session_for rem id).
Proof.
  unfold browser_session_for. destruct id as [| | | |i| |]; try (apply within_raise; exact _).
  destruct (blank (JStr i)); [apply within_raise; exact _|]. apply within_bind_gets. intros s.
  destruct (get_api_key i s) as [r|] eqn:Er; [|done]. destruct (is_revoked r) eqn:Hr; [done|].
  apply steps_create_session. right. split; [done|]. exists r.
  apply List.find_some in Er as [Hin _]. split; [by apply list_elem_of_In|done].
Qed.

Lemma steps_the_key id : within key_steps (the_key id).
Proof. unfold the_key. within_auto. Qed.

Lemma steps_update_name id r name : within key_steps (update_name id r name).
Proof.
  unfold update_name. destruct name; try within_step. case_match; [within_step|].
  within_step; [|within_step]. apply steps_assign. intros n m. by apply refines_attrs.
Qed.

Lemma steps_update_scopes id r scopes : within key_steps (update_scopes id r scopes).
Proof.
  assert (H : forall v, within key_steps (normalized ← lift (of_sum (_normalize_scopes v));
      assign_key id (with_scopes normalized);; mret (bool_decide (normalized <> key_scopes r)))).
  { intros v s. destruct (_normalize_scopes v) as [e|l] eqn:El; [done|].
    apply rtc_once. eapply (StepAssign _ _ id (with_scopes l)); [|done..].
    apply refines_attrs. intros k. split_and!; try done. intros _. by eapply normalize_scopes_ok. }
  unfold update_scopes. destruct scopes; [within_step|apply H..].
Qed.

(** Reading back the record after a change. *)
#[local] Hint Resolve steps_the_key steps_update_name steps_update_scopes steps_create_record steps_browser_session : within.
#[local] Hint Extern 5 (within key_steps _) => (apply steps_calm; solve [eauto 2 with within]) : within.

Lemma steps_update id name scopes : within key_steps (update_api_key id name scopes).
Proof.
  unfold update_api_key. within_auto. apply steps_assign. intros n m. by apply refines_attrs.
Qed.

Lemma steps_delete id : within key_steps (delete_api_key id).
Proof.
  unfold delete_api_key. within_auto. apply within_modify. intros s. apply rtc_once. by eapply StepRemove.
Qed.

Lemma steps_revoke id : within key_steps (revoke_api_key id).
Proof.
  unfold revoke_api_key. within_auto. apply steps_assign. intros n m. apply refines_attrs. intros r.
  by split_and!.
Qed.

Lemma steps_rotate id : within key_steps (rotate_api_key id).
Proof.
  unfold rotate_api_key. within_step; [apply steps_the_key|]. case_match; [within_step|].
  within_step; [apply steps_calm, within_tick|]. apply steps_rehash. within_auto.
  apply steps_assign. intros n m. by apply refines_attrs.
Qed.


Lemma steps_calm_ops o : match o with
  | OpFindSession _ | OpInvalidateSession _ | OpCanClaim _ _ | OpClaim _ | OpHandoverState _ | OpActivate _
  | OpFinalize _ | OpEnsureProof | OpPeekProof _ | OpConsumeProof _ | OpClearProof _ | OpEnsureExchange
  | OpPeekExchange _ | OpConsumeExchange _ | OpClearExchange _ | OpBindProofPath _ | OpBindClaimed _ | OpSave =>
      within calm (run_op o)
  | _ => True
  end.
Proof.
  destruct o; try exact I; cbn [run_op]; unfold discard, claim_initial_admin_if_available, get_browser_handover_state,
    activate_browser_handover, ensure_bootstrap_proof, ensure_bootstrap_exchange, fresh_bootstrap,
    consume_bootstrap_proof, consume_bootstrap_exchange, peek_bootstrap_proof, peek_bootstrap_exchange,
    bind_bootstrap_proof_path, bind_completed_migration_claimed_handover_version; calm_auto.
Qed.

(** Every operation of the store is a sequence of abstract steps. *)
Lemma steps_op o : within key_steps (run_op o).
Proof.
  pose proof (steps_calm_ops o) as Hc.
  destruct o; try (by apply steps_calm); cbn [run_op]; unfold discard; (within_step; [|within_step]).
  - unfold create_api_key. within_auto.
  - apply steps_update.
  - apply steps_delete.
  - apply steps_revoke.
  - apply steps_rotate.
  - intros s. apply steps_create_session. by left.
  - apply steps_browser_session.
  - unfold create_initial_admin_api_key_if_available. within_auto.
Qed.

Lemma exec_steps ops : forall s, key_steps s (exec ops s).
Proof.
  induction ops as [|o ops IH]; intros s; [done|]. etransitivity; [apply (steps_op o)|apply IH].
Qed.

(** Rule induction over a run. *)
Lemma exec_invariant (I : ApiKeyStore -> Prop) :
  (forall s s', key_step s s' -> I s -> I s') -> forall ops s, I s -> I (exec ops s).
Proof.
  intros HI ops s Hs. pose proof (exec_steps ops s) as H. induction H as [|a b c Hab _ IH]; eauto.
Qed.
End steps.
