(* ===== verification/AuthKeys.v ===== *)
(** * The API key store: invariant, revocation, rotation

    The representation invariant of keys and sessions holds after any run of
    operations; revoking a key is final and locks its sessions out, rotating
    one locks out the sessions opened before; a created key's secret
    authenticates. *)

From S2P Require Import Prelude PyDict PyStr Json Base64 AuthStore AuthFacts AuthToy AuthSteps.

Section keys.
Context {W : AuthWorld} {L : AuthLaws}.

Lemma no_space_trimmed l : (forall c, c ∈ l -> is_space c = false) -> trimmed l.
Proof.
  intros H. split.
  - destruct l as [|c l]; [done|]. apply H. left.
  - destruct (rev l) as [|c r] eqn:E; [done|]. apply H. rewrite <- (rev_involutive l), E. cbn [rev].
    apply elem_of_app. right. by apply list_elem_of_singleton.
Qed.

(** The hash, as a session keeps it, is not salted with draw [n]. *)
Definition fresh_salt (n : nat) (h : string) : Prop := forall d, strip h <> hash_text _HASH_ITERATIONS (urandom n) d.

Lemma strip_hash salt digest : strip (hash_text _HASH_ITERATIONS salt digest) = hash_text _HASH_ITERATIONS salt digest.
Proof.
  rewrite <- (str_chars (hash_text _ _ _)) at 1. rewrite strip_trimmed; [apply str_chars|]. apply no_space_trimmed.
  assert (Hb : forall x c, c ∈ chars (b64encode x) -> is_space c = false).
  { intros x c. unfold b64encode. rewrite chars_str. intros Hc%b64_encode_text. unfold b64_text in Hc.
    destruct (is_space c) eqn:E; [|done]. exfalso. unfold is_space in E. unfold b64_value in Hc.
    apply orb_true_iff in Hc as [Hc|Hc]; [|lia]. apply bool_decide_eq_true in Hc as [v Hv]. repeat case_match; try done; lia. }
  unfold hash_text. rewrite !chars_app. change (chars "$") with ["$"%char]. intros c.
  rewrite !elem_of_app, !list_elem_of_singleton. intros [Hc|[->|[Hc|[->|[Hc|[->|Hc]]]]]]; try done; try by eapply Hb.
  - revert c Hc. apply Forall_forall, (bool_decide_unpack _). vm_compute. exact I.
  - revert c Hc. apply Forall_forall, (bool_decide_unpack _). vm_compute. exact I.
Qed.

Lemma salted_ne lo hi h h' : salted lo hi h -> (forall n, (lo <= n)%nat -> fresh_salt n h') -> h <> h'.
Proof. intros (k & d & Hk & ->) Hf <-. apply (Hf k ltac:(lia) d). apply strip_hash. Qed.

Lemma salted_fresh lo hi h n : salted lo hi h -> (hi <= n)%nat -> fresh_salt n h.
Proof.
  intros (k & d & Hk & ->) Hn d'. rewrite strip_hash. intros E%hash_text_salt%urandom_fresh. lia.
Qed.

Lemma fresh_salt_strip n h : fresh_salt n h -> fresh_salt n (strip h).
Proof. intros H d. rewrite strip_strip. apply H. Qed.

Definition session_ok (kv : string * UiSessionRecord) : Prop :=
  ses_secret kv.2 = kv.1 /\ scopes_ok (ses_scopes kv.2) /\ (bootstrap kv.2 = true -> ses_scopes kv.2 = ["bootstrap"]).

(** The invariant: ids are distinct, scopes normalised, sessions filed under
    their own secret, and what the random sources will still yield is unused. *)
Record store_ok (s : ApiKeyStore) : Prop := {
  ok_ids : NoDup (map key_id (api_keys s));
  ok_scopes : Forall (fun r => scopes_ok (key_scopes r)) (api_keys s);
  ok_dict : dwf (ui_sessions s);
  ok_sessions : Forall session_ok (ui_sessions s);
  ok_uuids n : (ticks s <= n)%nat -> uuid4 n ∉ map key_id (api_keys s);
  ok_tokens n : (ticks s <= n)%nat -> token_urlsafe n ∉ dkeys (ui_sessions s);
  ok_salts n : (ticks s <= n)%nat -> Forall (fun r => fresh_salt n (secret_hash r)) (api_keys s);
  ok_session_salts n : (ticks s <= n)%nat ->
    Forall (fun kv => forall h, api_key_secret_hash kv.2 = Some h -> fresh_salt n h) (ui_sessions s) }.

Lemma sublist_dkeys {V} (a b : dict string V) : a `sublist_of` b -> dkeys a `sublist_of` dkeys b.
Proof. unfold dkeys. induction 1; simpl; by constructor. Qed.

Lemma Forall_sublist {A} (P : A -> Prop) (a b : list A) : a `sublist_of` b -> Forall P b -> Forall P a.
Proof. rewrite !Forall_forall. intros Hs H x Hx. apply H. by eapply elem_of_sublist. Qed.

Lemma upd_key_ids id f l : (forall r, key_id (f r) = key_id r) -> map key_id (upd_key id f l) = map key_id l.
Proof. intros Hf. induction l as [|r l IH]; simpl; [done|]. case_match; simpl; [by rewrite Hf|by rewrite IH]. Qed.

Lemma Forall_upd_key (P : ApiKeyRecord -> Prop) id f l :
  (forall r, P r -> P (f r)) -> Forall P l -> Forall P (upd_key id f l).
Proof.
  intros Hf Hl. induction Hl as [|r l Hr Hl IH]; simpl; [done|]. case_match; by constructor; auto.
Qed.

Lemma remove_key_sublist r l : remove_key r l `sublist_of` l.
Proof. induction l as [|x l IH]; simpl; [done|]. case_decide; by constructor. Qed.

Lemma store_ok_step s s' : key_step s s' -> store_ok s -> store_ok s'.
Proof.
  intros Hs [Hi Hsc Hd Hse Hu Ht Hsa Hss']. destruct Hs as
    [(Hk & Htk & Hsub)|r m Hm Hid Hsalt Hrev Hsco Hk Hss|id f [Fi Fr Fs Fh] Htk Hk Hss|r Htk Hk Hss|n r Hn Hsec Hsco Hb Hk Hss].
  - split; rewrite ?Hk; try done.
    + eapply sublist_NoDup; [exact Hd|]. by apply sublist_dkeys.
    + by eapply Forall_sublist.
    + intros n Hn. apply Hu. lia.
    + intros n Hn Hin. apply (Ht n); [lia|]. eapply elem_of_sublist; [done|by apply sublist_dkeys].
    + intros n Hn. apply Hsa. lia.
    + intros n Hn. eapply Forall_sublist; [done|]. apply Hss'. lia.
  - split; rewrite ?Hk, ?Hss; try done.
    + rewrite map_app. apply NoDup_app. split_and!; [done| |apply NoDup_singleton].
      intros x Hx ->%list_elem_of_singleton. apply (Hu m); [lia|]. by rewrite <- Hid.
    + apply Forall_app_2; [done|]. by apply Forall_singleton.
    + intros n Hn. rewrite map_app, not_elem_of_app. split; [apply Hu; lia|].
      intros E%list_elem_of_singleton. simpl in E. rewrite Hid in E. apply uuid_fresh in E. lia.
    + intros n Hn. apply Ht. lia.
    + intros n Hn. apply Forall_app_2; [apply Hsa; lia|]. apply Forall_singleton. by eapply salted_fresh.
    + intros n Hn. apply Hss'. lia.
  - split; rewrite ?Hk, ?Hss, ?upd_key_ids by done; try done.
    + by apply Forall_upd_key.
    + intros n Hn. apply Hu. lia.
    + intros n Hn. apply Ht. lia.
    + intros n Hn. apply Forall_upd_key; [|apply Hsa; lia]. intros r Hr.
      destruct (Fh r) as [->|Hf]; [done|]. by eapply salted_fresh.
    + intros n Hn. apply Hss'. lia.
  - assert (Hsub := remove_key_sublist r (api_keys s)). split; rewrite ?Hk, ?Hss, ?Htk; try done.
    + eapply sublist_NoDup; [exact Hi|]. by apply fmap_sublist.
    + by eapply Forall_sublist.
    + intros n Hn Hin. apply (Hu n Hn). eapply elem_of_sublist; [exact Hin|]. by apply fmap_sublist.
    + intros n Hn. eapply Forall_sublist; [done|]. by apply Hsa.
  - split; rewrite ?Hk, ?Hss; try done.
    + by apply dwf_dset.
    + apply Forall_dset; [done|]. split; [done|]. split; [done|]. simpl. intros E. destruct Hb as [(_ & Hb & _)|[Hb _]]; congruence.
    + intros k Hk'. apply Hu. lia.
    + intros k Hk'. rewrite elem_of_dkeys_dset, Hsec. intros [E%token_fresh|Hin]; [lia|]. apply (Ht k); [lia|done].
    + intros k Hk'. apply Hsa. lia.
    + intros k Hk'. apply Forall_dset; [apply Hss'; lia|]. simpl. intros h Eh.
      destruct Hb as [(_ & _ & _ & _ & Hb)|(_ & x & Hx & _ & _ & Hb)]; [congruence|].
      rewrite Hb in Eh. injection Eh as <-. apply fresh_salt_strip.
      assert (Hall : Forall (fun r => fresh_salt k (secret_hash r)) (api_keys s)) by (apply Hsa; lia).
      rewrite Forall_forall in Hall. by apply Hall.
Qed.

(** A fresh store is well-formed, and so is every store reached from one. *)
Lemma new_store_ok p n fs h : store_ok (new_store p n fs h).
Proof. split; cbn; try (intros; apply Forall_nil_2); try done; try apply NoDup_nil_2; intros; apply not_elem_of_nil. Qed.

Lemma reachable_ok ops p n fs h : store_ok (exec ops (new_store p n fs h)).
Proof. apply exec_invariant; [apply store_ok_step|apply new_store_ok]. Qed.


(** ** Revocation *)

(** No record of this id is active, and none will be created. *)
Definition retired (id : string) (s : ApiKeyStore) : Prop :=
  Forall (fun r => key_id r = id -> is_revoked r = true) (api_keys s) /\
  forall n, (ticks s <= n)%nat -> uuid4 n <> id.

Lemma retired_step id s s' : key_step s s' -> retired id s -> retired id s'.
Proof.
  intros Hs [Hr Hf]. destruct Hs as
    [(Hk & Htk & Hsub)|r m Hm Hid Hsalt Hrev Hsco Hk Hss|id' f [Fi Fr Fs Fh] Htk Hk Hss|r Htk Hk Hss|n r Hn Hsec Hsco Hb Hk Hss];
    (split; [rewrite Hk|intros k Hk'; apply Hf; lia]); try done.
  - apply Forall_app_2; [done|]. apply Forall_singleton. intros E. exfalso. apply (Hf m); [lia|]. congruence.
  - apply Forall_upd_key; [|done]. intros r IHr E. apply Fr, IHr. by rewrite <- (Fi r).
  - eapply Forall_sublist; [apply remove_key_sublist|done].
Qed.

Lemma get_api_key_in id s r : get_api_key id s = Some r -> r ∈ api_keys s /\ key_id r = id.
Proof. intros [Hin Heq%String.eqb_eq]%List.find_some. split; [by apply list_elem_of_In|done]. Qed.

Lemma find_by_secret_in sec l r : find_by_secret sec l = Ok (Some r) -> r ∈ l /\ _verify_secret sec (secret_hash r) = Ok true.
Proof.
  induction l as [|x l IH]; simpl; [done|]. destruct (_verify_secret sec (secret_hash x)) as [[]|e] eqn:E; simpl; [|..|done].
  - intros [= <-]. split; [left|done].
  - intros H. destruct (IH H) as [Hin Hv]. split; [by right|done].
Qed.

(** Nothing of a retired key is accepted. *)
Lemma retired_resolve id s session : retired id s -> api_key_id session = Some id ->
  resolve_ui_session_api_key session s = Ok None.
Proof.
  intros [Hr _] Hid. unfold resolve_ui_session_api_key. rewrite Hid. destruct (api_key_secret_hash session) as [h|]; [|done].
  case_match; [done|]. destruct (get_api_key id s) as [r|] eqn:E; [|done]. apply get_api_key_in in E as [Hin Heq].
  rewrite Forall_forall in Hr. by rewrite (Hr r Hin Heq).
Qed.

Lemma retired_secret id s sec r : retired id s -> find_by_secret sec (api_keys s) = Ok (Some r) ->
  key_id r = id -> is_revoked r = true.
Proof. intros [Hr _] [Hin _]%find_by_secret_in. rewrite Forall_forall in Hr. by apply Hr. Qed.

Lemma upd_key_revokes id t l : NoDup (map key_id l) ->
  Forall (fun r => key_id r = id -> is_revoked r = true) (upd_key id (fun r => with_updated t (with_revoked t r)) l).
Proof.
  induction l as [|r l IH]; cbn [map upd_key]; [intros; apply Forall_nil_2|]. intros [Hr Hl]%NoDup_cons.
  destruct (String.eqb_spec (key_id r) id) as [E|E].
  - apply Forall_cons. split; [done|]. apply Forall_forall. intros x Hx Ex. exfalso. apply Hr.
    rewrite E, <- Ex. by apply list_elem_of_fmap_2.
  - apply Forall_cons. split; [done|by apply IH].
Qed.

Lemma steps_retired {A} (m : st ApiKeyStore A) id : within key_steps m -> within (keeps (retired id)) m.
Proof.
  intros H s. specialize (H s). unfold keeps. induction H as [|a b c Hab _ IH]; [done|].
  intros Ha. apply IH. by eapply retired_step.
Qed.

(** An id stored in a well-formed store is never drawn again. *)
Lemma ok_id_used s id r : store_ok s -> get_api_key id s = Some r -> forall n, (ticks s <= n)%nat -> uuid4 n <> id.
Proof.
  intros Hok [Hin <-]%get_api_key_in n Hn E. apply (ok_uuids _ Hok n Hn). rewrite E. by apply list_elem_of_fmap_2.
Qed.

Lemma ids_distinct (l : list ApiKeyRecord) x y :
  NoDup (map key_id l) -> x ∈ l -> y ∈ l -> key_id x = key_id y -> x = y.
Proof.
  induction l as [|r l IH]; [by rewrite elem_of_nil|]. cbn [map]. intros [Hr Hl]%NoDup_cons Hx Hy E.
  apply elem_of_cons in Hx as [->|Hx], Hy as [->|Hy]; [done|exfalso..|by apply IH]; apply Hr.
  - rewrite E. by apply list_elem_of_fmap_2.
  - rewrite <- E. by apply list_elem_of_fmap_2.
Qed.

(** What [revoke_api_key] does after the record is marked. *)
Definition after_revoke (id : string) (record : ApiKeyRecord) : st ApiKeyStore ApiKeyRecord :=
  n ← __discard_browser_sessions_for_api_key (key_id record) "api_key_revoked";
  save;;
  record ← the_key id;
  __record_history_event "api_key_revoked" "api_key_revoked" (discarded_details record n);;
  mret record.

Lemma steps_after_revoke id r : within key_steps (after_revoke id r).
Proof. apply steps_calm. unfold after_revoke, the_key. calm_auto. Qed.

Lemma revoke_retires s id r : store_ok s -> get_api_key id s = Some r -> retired id (revoke_api_key id s).2.
Proof.
  intros Hok Hr. pose proof (ok_id_used s id r Hok Hr) as Hu. unfold revoke_api_key.
  rewrite (st_bind_ok (the_key id) _ s r s) by (unfold the_key, mbind, st_bind; simpl; by rewrite Hr).
  destruct (is_revoked r) eqn:Hrev.
  - split; [|exact Hu]. apply Forall_forall. intros x Hx Ex. cbn in Hx.
    apply get_api_key_in in Hr as [Hin Heq]. by rewrite (ids_distinct _ _ _ (ok_ids _ Hok) Hx Hin) by congruence.
  - rewrite (st_bind_ok _utc_now_iso _ _ _ _ eq_refl), (st_bind_ok (assign_key _ _) _ _ _ _ eq_refl).
    fold (after_revoke id r). apply (steps_retired _ id (steps_after_revoke id r)). split.
    + apply upd_key_revokes, Hok.
    + cbn. intros n Hn. apply Hu. lia.
Qed.

(** C21: Revoking a key is final, also when saving the store fails: in a
    well-formed store, whatever operations follow, no secret is accepted as an
    active key of that id, and no browser session bound to the id (also one
    kept by a client) resolves to a key again. *)
Theorem revocation_is_final s id r ops secret session :
  store_ok s -> get_api_key id s = Some r ->
  let s' := exec ops (revoke_api_key id s).2 in
  (forall k, find_api_key_by_secret secret s' = (Ok (Some k), s') -> key_id k = id -> is_revoked k = true) /\
  (api_key_id session = Some id -> resolve_ui_session_api_key session s' = Ok None).
Proof.
  intros Hok Hr s'. assert (H : retired id s').
  { apply exec_invariant; [apply retired_step|]. by eapply revoke_retires. }
  split; [|by apply retired_resolve]. intros k E. eapply retired_secret; [exact H|].
  unfold find_api_key_by_secret, mbind, st_bind, lift in E. cbn in E. by injection E.
Qed.

(** ** Rotation *)

(** No record of the id has this hash, and none will get it. *)
Definition locked (id h : string) (s : ApiKeyStore) : Prop :=
  Forall (fun r => key_id r = id -> secret_hash r <> h) (api_keys s) /\
  forall n, (ticks s <= n)%nat -> fresh_salt n h.

Lemma locked_step id h s s' : key_step s s' -> locked id h s -> locked id h s'.
Proof.
  intros Hs [Hr Hf]. destruct Hs as
    [(Hk & Htk & Hsub)|r m Hm Hid Hsalt Hrev Hsco Hk Hss|id' f [Fi Fr Fs Fh] Htk Hk Hss|r Htk Hk Hss|n r Hn Hsec Hsco Hb Hk Hss];
    (split; [rewrite Hk|intros k Hk'; apply Hf; lia]); try done.
  - apply Forall_app_2; [done|]. apply Forall_singleton. intros _. by eapply salted_ne.
  - apply Forall_upd_key; [|done]. intros r IHr E. destruct (Fh r) as [->|Hs]; [|by eapply salted_ne].
    apply IHr. by rewrite <- (Fi r).
  - eapply Forall_sublist; [apply remove_key_sublist|done].
Qed.

Lemma locked_resolve id h s session k : locked id h s -> api_key_id session = Some id ->
  api_key_secret_hash session = Some h -> resolve_ui_session_api_key session s <> Ok (Some k).
Proof.
  intros [Hr _] Hid Hh. unfold resolve_ui_session_api_key. rewrite Hid, Hh. case_match; [done|].
  destruct (get_api_key id s) as [r|] eqn:E; [|done]. apply get_api_key_in in E as [Hin Heq]. case_match; [done|].
  unfold compare_digest. case_match; [|done]. cbn. destruct (String.eqb_spec (secret_hash r) h) as [Eh|]; [|done].
  rewrite Forall_forall in Hr. by destruct (Hr r Hin Heq).
Qed.

Lemma upd_key_locks id v h l : NoDup (map key_id l) -> v <> h ->
  Forall (fun r => key_id r = id -> secret_hash r <> h) (upd_key id (with_hash v) l).
Proof.
  intros Hnd Hv. induction l as [|r l IH]; cbn [map upd_key] in *; [apply Forall_nil_2|].
  apply NoDup_cons in Hnd as [Hr Hl]. destruct (String.eqb_spec (key_id r) id) as [E|E].
  - apply Forall_cons. split; [done|]. apply Forall_forall. intros x Hx Ex. exfalso. apply Hr.
    rewrite E, <- Ex. by apply list_elem_of_fmap_2.
  - apply Forall_cons. split; [done|by apply IH].
Qed.

Lemma steps_locked {A} (m : st ApiKeyStore A) id h : within key_steps m -> within (keeps (locked id h)) m.
Proof.
  intros H s. specialize (H s). unfold keeps. induction H as [|a b c Hab _ IH]; [done|].
  intros Ha. apply IH. by eapply locked_step.
Qed.

(** What [rotate_api_key] does after the new hash is stored. *)
Definition after_rotate (id secret : string) : st ApiKeyStore (ApiKeyRecord * string) :=
  now ← _utc_now_iso;
  assign_key id (with_updated now);;
  save;;
  record ← the_key id;
  __record_history_event "api_key_rotated" "api_key_rotated" (key_details record);;
  mret (record, secret).

Lemma steps_after_rotate id secret : within key_steps (after_rotate id secret).
Proof.
  unfold after_rotate. within_step; [apply steps_calm; auto with within|].
  within_step; [apply steps_assign; intros n m; by apply refines_attrs|].
  apply steps_calm. unfold the_key. calm_auto.
Qed.

Lemma rotate_locks s id r h : store_ok s -> get_api_key id s = Some r -> is_revoked r = false ->
  (forall n, (ticks s <= n)%nat -> fresh_salt n h) -> locked id h (rotate_api_key id s).2.
Proof.
  intros Hok Hr Hrev Hh. unfold rotate_api_key.
  rewrite (st_bind_ok (the_key id) _ s r s) by (unfold the_key, mbind, st_bind; simpl; by rewrite Hr).
  rewrite Hrev, (st_bind_ok tick _ _ _ _ eq_refl).
  rewrite (st_bind_ok _ _ _ _ _ (hash_secret_run _ _ (proj2 (proj2 (token_plain (ticks s)))))).
  rewrite (st_bind_ok (assign_key _ _) _ _ _ _ eq_refl). fold (after_rotate id (token_urlsafe (ticks s))).
  apply (steps_locked _ id h (steps_after_rotate id _)). split; cbn.
  - apply upd_key_locks; [apply Hok|]. eapply salted_ne; [|exact Hh].
    exists (S (ticks s)), (pbkdf2_sha256 (token_urlsafe (ticks s)) (urandom (S (ticks s))) _HASH_ITERATIONS).
    split; [|reflexivity]. split; [lia|apply Nat.lt_succ_diag_r].
  - intros n Hn. apply Hh. lia.
Qed.

(** Rotating a key locks out every browser session opened with its former
    secret: in a well-formed store, a session stored for the key before the
    rotation never resolves to a key afterwards, whatever operations follow
    and even if saving fails. *)
Theorem rotation_locks_sessions s id r secret session ops k :
  store_ok s -> get_api_key id s = Some r ->
  dget (ui_sessions s) secret = Some session -> api_key_id session = Some id ->
  resolve_ui_session_api_key session (exec ops (rotate_api_key id s).2) <> Ok (Some k).
Proof.
  intros Hok Hr Hs Hid. destruct (api_key_secret_hash session) as [h|] eqn:Eh.
  2: { unfold resolve_ui_session_api_key. by rewrite Hid, Eh. }
  destruct (is_revoked r) eqn:Hrev.
  - assert (H : retired id s).
    { split; [|by eapply ok_id_used]. apply Forall_forall. intros x Hx Ex. apply get_api_key_in in Hr as [Hin Heq].
      by rewrite (ids_distinct _ _ _ (ok_ids _ Hok) Hx Hin) by congruence. }
    rewrite (retired_resolve id); [done| |done]. apply exec_invariant; [apply retired_step|].
    by apply (steps_retired _ id (steps_rotate id)).
  - apply (locked_resolve id h); [|done..]. apply exec_invariant; [apply locked_step|].
    eapply rotate_locks; [done..|]. intros n Hn. pose proof (ok_session_salts _ Hok n Hn) as Hf.
    rewrite Forall_forall in Hf. apply (Hf (secret, session)); [by apply dget_Some_elem_of|done].
Qed.

(** ** Creation *)

(** A bind that returns ran both its parts. *)
Lemma st_bind_inv {S A B} (m : st S A) (k : A -> st S B) s b s' :
  (m ≫= k) s = (Ok b, s') -> exists a s1, m s = (Ok a, s1) /\ k a s1 = (Ok b, s').
Proof. unfold mbind, st_bind. destruct (m s) as [[a|e] s1] eqn:E; [|done]. eauto. Qed.

Lemma find_by_secret_app sec l r : find_by_secret sec l = Ok None -> _verify_secret sec (secret_hash r) = Ok true ->
  find_by_secret sec (l ++ [r]) = Ok (Some r).
Proof.
  intros Hl Hr. induction l as [|x l IH]; cbn [app find_by_secret] in *; [by rewrite Hr|].
  destruct (_verify_secret sec (secret_hash x)) as [[]|e]; cbn in *; [done| |done]. by apply IH.
Qed.

(** The record a creation appends, and the secret it hands out. *)
Lemma create_record_inv name scopes s r secret s' :
  __create_api_key_record name scopes s = (Ok (r, secret), s') ->
  api_keys s' = api_keys s ++ [r] /\ ui_sessions s' = ui_sessions s /\ is_revoked r = false /\
  _normalize_scopes scopes = inr (key_scopes r) /\ _verify_secret secret (secret_hash r) = Ok true /\
  secret = token_urlsafe (ticks s) /\ key_id r = uuid4 (S (S (ticks s))).
Proof.
  intros E. destruct (_normalize_scopes scopes) as [e|l] eqn:El.
  { unfold __create_api_key_record in E. by rewrite El in E. }
  destruct name as [| | | |nm| |]; try by (unfold __create_api_key_record in E; rewrite El in E).
  destruct (blank (JStr nm)) eqn:Hb; [by unfold __create_api_key_record in E; rewrite El, Hb in E|].
  rewrite (create_record_run _ _ _ _ El Hb (proj2 (proj2 (token_plain (ticks s))))) in E. cbv zeta in E.
  injection E as <- <- <-. split_and!; try done. apply verify_hash.
Qed.

(** A key that was created is usable: it is stored, active, with exactly
    the normalised scopes asked for, the secret handed out verifies against
    the stored hash, and unless that secret already belonged to another key a
    request bearing it is attributed to the new one. *)
Theorem created_key_authenticates name scopes s r secret s' :
  create_api_key name scopes s = (Ok (r, secret), s') ->
  api_keys s' = api_keys s ++ [r] /\ is_revoked r = false /\ _normalize_scopes scopes = inr (key_scopes r) /\
  _verify_secret secret (secret_hash r) = Ok true /\
  (find_by_secret secret (api_keys s) = Ok None -> find_api_key_by_secret secret s' = (Ok (Some r), s')).
Proof.
  unfold create_api_key. intros ([r' sec'] & s1 & E1 & E2)%st_bind_inv. cbn [fst] in E2.
  assert (Hc : calm s1 s' /\ (r', sec') = (r, secret)).
  { split.
    - match type of E2 with ?m s1 = _ => assert (Hw : within calm m) by calm_auto; specialize (Hw s1); by rewrite E2 in Hw end.
    - do 3 apply st_bind_inv in E2 as (? & ? & _ & E2). by injection E2 as <- <- _. }
  destruct Hc as [(Hk & _ & _) [= -> ->]].
  destruct (create_record_inv _ _ _ _ _ _ E1) as (Ha & _ & Hr & Hs & Hv & _ & _). rewrite Hk.
  split_and!; try done. intros Hn. unfold find_api_key_by_secret, mbind, st_bind, lift, gets. cbn.
  by rewrite Hk, Ha, find_by_secret_app.
Qed.
End keys.

(** ** Witnesses *)

#[local] Existing Instance toy.
#[local] Existing Instance toy_laws.

Lemma demo_ok : store_ok demo.
Proof. apply reachable_ok. Qed.

Lemma demo_key : { r | get_api_key demo_id demo = Some r }.
Proof.
  destruct (get_api_key demo_id demo) as [r|] eqn:E; [by exists r|]. exfalso. revert E.
  assert (H : bool_decide (is_Some (get_api_key demo_id demo)) = true) by (vm_compute; reflexivity).
  apply bool_decide_eq_true in H as [r Hr]. by rewrite Hr.
Defined.

Lemma demo_session : { kv | dget (ui_sessions demo) kv.1 = Some kv.2 /\ api_key_id kv.2 = Some demo_id }.
Proof.
  assert (H : match head (ui_sessions demo) with
              | Some kv => bool_decide (is_Some (dget (ui_sessions demo) kv.1)) && bool_decide (api_key_id kv.2 = Some demo_id)
              | None => false end = true) by (vm_compute; reflexivity).
  destruct (ui_sessions demo) as [|[k r] d] eqn:E; [done|]. cbn [head fst snd] in H.
  apply andb_true_iff in H as [_ H]. apply bool_decide_eq_true in H. exists (k, r). split; [|done].
  cbn [fst snd dget]. by rewrite decide_True.
Defined.


Lemma revocation_is_final_witness : exists r session,
  get_api_key demo_id demo = Some r /\
  resolve_ui_session_api_key session (exec [OpSave] (revoke_api_key demo_id demo).2) = Ok None.
Proof.
  destruct demo_key as [r Hr]. destruct demo_session as [[k ses] [_ Hs]]. exists r, ses. split; [exact Hr|].
  exact (proj2 (revocation_is_final demo demo_id r [OpSave] "t" ses demo_ok Hr) Hs).
Defined.

Lemma rotation_locks_sessions_witness : exists r session,
  resolve_ui_session_api_key session (exec [OpSave] (rotate_api_key demo_id demo).2) <> Ok (Some r).
Proof.
  destruct demo_key as [r Hr]. destruct demo_session as [[k ses] [Hd Hs]]. exists r, ses.
  exact (rotation_locks_sessions demo demo_id r k ses [OpSave] r demo_ok Hr Hd Hs).
Defined.

Lemma created_key_authenticates_witness : exists r secret,
  _verify_secret secret (secret_hash r) = Ok true /\ is_revoked r = false.
Proof.
  assert (H : match (create_api_key (JStr "ci") (JArr [JStr "admin"]) demo).1 with Ok _ => true | _ => false end = true)
    by (vm_compute; reflexivity).
  destruct (create_api_key (JStr "ci") (JArr [JStr "admin"]) demo) as [[[r secret]|e] s'] eqn:E; [|discriminate H].
  destruct (created_key_authenticates _ _ _ _ _ _ E) as (_ & Hr & _ & Hv & _). exists r, secret. exact (conj Hv Hr).
Defined.
