(* ===== verification/AuthHandover.v ===== *)
(** * The handover window and the bootstrap proof

    The sidecar's state as a transition system: which moves an operation may
    make on the window, the recovery versions seen and the bootstrap proof.
    A recovery version is opened once and its deadline never moves; a claim
    needs a live window and closes it; a bootstrap proof is accepted once and
    only before its deadline. *)

From S2P Require Import Prelude PyDict PyStr Json Config AuthStore AuthFacts AuthToy AuthSteps AuthKeys.

Section handover.
Context {W : AuthWorld} {L : AuthLaws}.

(** ** The state of the window *)

Definition hand (s : ApiKeyStore) : option HandoverState * bool * bool :=
  (browser_handover_deadline s, browser_handover_deadline_loaded s, browser_handover_deadline_invalid s).

Definition seen (s : ApiKeyStore) : list string :=
  match browser_handover_deadline s with Some h => seen_recovery_versions h | None => [] end.

Definition window (s : ApiKeyStore) : option Deadline := h ← browser_handover_deadline s; active h.

(** A window as the sidecar may hold it. *)
Definition deadline_valid (d : Deadline) : Prop :=
  (kind d = "initial" /\ version_sha256 d = "" \/ kind d = "recovery" /\ is_hex64 (version_sha256 d) = true) /\
  exists a b, fromisoformat (opened_at d) = Some (Aware a) /\ fromisoformat (expires_at d) = Some (Aware b) /\ a < b.

(** The sidecar is read before anything is kept in memory. *)
Definition hand_wf (s : ApiKeyStore) : Prop :=
  browser_handover_deadline_loaded s = false -> browser_handover_deadline s = None.

Inductive hand_step (s s' : ApiKeyStore) : Prop :=
  | HandQuiet : hand s' = hand s -> hand_step s s'
  | HandLoad :
      browser_handover_deadline_loaded s = false -> browser_handover_deadline_loaded s' = true ->
      (browser_handover_deadline s' = None \/
       exists t h, parse_deadline t = Some h /\ browser_handover_deadline s' = Some h) -> hand_step s s'
  | HandRecovery v d :
      browser_handover_deadline_loaded s = true -> browser_handover_deadline_loaded s' = true ->
      is_hex64 v = true -> v ∉ seen s -> (length (seen s) < _BROWSER_HANDOVER_SEEN_RECOVERY_VERSION_LIMIT)%nat ->
      kind d = "recovery" -> version_sha256 d = v -> deadline_valid d ->
      browser_handover_deadline s' = Some (mkHandover (Some d) (seen s ++ [v])) -> hand_step s s'
  | HandInitial d :
      browser_handover_deadline_loaded s = true -> browser_handover_deadline_loaded s' = true ->
      kind d = "initial" -> version_sha256 d = "" -> deadline_valid d ->
      browser_handover_deadline s' = Some (mkHandover (Some d) (seen s)) -> hand_step s s'
  | HandClose h :
      browser_handover_deadline_loaded s' = browser_handover_deadline_loaded s ->
      browser_handover_deadline s = Some h ->
      browser_handover_deadline s' = Some (mkHandover None (seen_recovery_versions h)) -> hand_step s s'.

(** A bootstrap proof stays, goes, or is a fresh draw. *)
Definition proof_rel : relation ApiKeyStore := fun s s' =>
  (ticks s <= ticks s')%nat /\
  (bootstrap_proof s' = bootstrap_proof s \/ bootstrap_proof s' = None \/
   exists n p, (ticks s <= n < ticks s')%nat /\ bootstrap_proof s' = Some p /\ bs_secret p = token_urlsafe n).

Definition side_rel : relation ApiKeyStore := fun s s' =>
  proof_rel s s' /\ (hand_wf s -> hand_wf s' /\ rtc hand_step s s').

#[export] Instance proof_rel_preorder : PreOrder proof_rel.
Proof.
  split; [intros s; split; [lia|by left]|]. intros a b c [H1 H2] [G1 G2]. split; [lia|].
  destruct G2 as [->|[->|(n & p & Hn & Hp & Hs)]]; [|by right; left|right; right; exists n, p; split; [lia|done]].
  destruct H2 as [->|[->|(n & p & Hn & Hp & Hs)]]; [by left|by right; left|]. right; right. exists n, p. split; [lia|done].
Qed.

#[export] Instance side_rel_preorder : PreOrder side_rel.
Proof.
  split; [intros s; split; [reflexivity|]; intros Hw; by split|]. intros a b c [H1 H2] [G1 G2].
  split; [by transitivity b|]. intros Ha. destruct (H2 Ha) as [Hb Hab]. destruct (G2 Hb) as [Hc Hbc].
  split; [done|]. by transitivity b.
Qed.

(** Updates elsewhere. *)
Lemma side_quiet s s' : hand s' = hand s -> bootstrap_proof s' = bootstrap_proof s \/ bootstrap_proof s' = None ->
  (ticks s <= ticks s')%nat -> side_rel s s'.
Proof.
  intros Hh Hp Ht. split; [split; [done|tauto]|]. intros Hw. split.
  - unfold hand in Hh. injection Hh as Hd Hl _. unfold hand_wf. by rewrite Hd, Hl.
  - by apply rtc_once, HandQuiet.
Qed.

Ltac side_modify := apply within_modify; intros ?; apply side_quiet;
  [reflexivity | first [left; reflexivity | right; reflexivity] | cbn; lia].
Ltac side_auto := repeat first [ progress within_auto | side_modify ].

Lemma side_tick : within side_rel tick.
Proof. intros s. apply side_quiet; [done|by left|cbn; lia]. Qed.
Hint Resolve side_tick : within.
Lemma side_now : within side_rel datetime_now.
Proof. unfold datetime_now. side_auto. Qed.
Hint Resolve side_now : within.
Lemma side_iso : within side_rel _utc_now_iso.
Proof. unfold _utc_now_iso. side_auto. Qed.
Lemma side_disk : within side_rel disk.
Proof. unfold disk. side_auto. Qed.
Hint Resolve side_iso side_disk : within.
Lemma side_history ev rs ds : within side_rel (__record_history_event ev rs ds).
Proof. unfold __record_history_event. side_auto. Qed.
Hint Resolve side_history : within.
Lemma side_sync : within side_rel __sync_bootstrap_proof_artifact.
Proof. unfold __sync_bootstrap_proof_artifact. side_auto. Qed.
Hint Resolve side_sync : within.
Lemma side_clear_proof rs : within side_rel (clear_bootstrap_proof rs).
Proof. unfold clear_bootstrap_proof. side_auto. Qed.
Lemma side_clear_exchange rs : within side_rel (clear_bootstrap_exchange rs).
Proof. unfold clear_bootstrap_exchange. side_auto. Qed.
Hint Resolve side_clear_proof side_clear_exchange : within.
Lemma side_prune_proof now : within side_rel (__prune_bootstrap_proof now).
Proof. unfold __prune_bootstrap_proof. side_auto. Qed.
Lemma side_prune_exchange now : within side_rel (__prune_bootstrap_exchange now).
Proof. unfold __prune_bootstrap_exchange. side_auto. Qed.
Lemma side_prune_sessions now : within side_rel (__prune_expired_ui_sessions now).
Proof. unfold __prune_expired_ui_sessions. side_auto. Qed.
Hint Resolve side_prune_proof side_prune_exchange side_prune_sessions : within.
Lemma side_save : within side_rel save.
Proof. unfold save, to_file, to_str. side_auto. Qed.
Hint Resolve side_save : within.
Lemma side_write state : within side_rel (__write_browser_handover_deadline state).
Proof. unfold __write_browser_handover_deadline, _write_completed_migration_private_file. side_auto. Qed.
Lemma side_payload v d now a b c e f : within side_rel (__handover_payload v d now a b c e f).
Proof. unfold __handover_payload. side_auto. Qed.
Hint Resolve side_write side_payload : within.
Lemma side_create_session scopes boot id hash rem : within side_rel (create_ui_session scopes boot id hash rem).
Proof. unfold create_ui_session. side_auto. Qed.
Hint Resolve side_create_session : within.
Lemma side_hash sec : within side_rel (_hash_secret sec).
Proof. unfold _hash_secret. side_auto. Qed.
Hint Resolve side_hash : within.
Lemma side_create_record name scopes : within side_rel (__create_api_key_record name scopes).
Proof. unfold __create_api_key_record. side_auto. Qed.
Lemma side_the_key id : within side_rel (the_key id).
Proof. unfold the_key. side_auto. Qed.
Lemma side_assign id f : within side_rel (assign_key id f).
Proof. unfold assign_key. side_auto. Qed.
Lemma side_discard id rs : within side_rel (__discard_browser_sessions_for_api_key id rs).
Proof. unfold __discard_browser_sessions_for_api_key. side_auto. Qed.
Hint Resolve side_create_record side_the_key side_assign side_discard : within.

(** ** The moves of the window *)

Lemma window_move s s' : proof_rel s s' -> hand_step s s' -> (hand_wf s -> hand_wf s') -> side_rel s s'.
Proof. intros Hp Hs Hw. split; [done|]. intros H. split; [by apply Hw|by apply rtc_once]. Qed.

Lemma side_mark v : within side_rel (__mark_browser_handover_claimed v).
Proof.
  intros s. unfold __mark_browser_handover_claimed.
  rewrite (st_bind_ok (gets _) _ s _ s eq_refl), (st_bind_ok (gets _) _ s _ s eq_refl).
  destruct (negb _ || _); [done|]. rewrite (st_bind_ok (gets _) _ s _ s eq_refl).
  destruct (browser_handover_deadline s) as [[[a|] sn]|] eqn:E; [|done..]. cbv zeta.
  destruct (String.eqb _ _); [|done]. rewrite (st_bind_ok (modify _) _ _ _ _ eq_refl).
  etransitivity; [|apply side_write]. apply window_move; [split; [cbn; lia|by left]|by eapply HandClose|].
  intros Hw Hl. cbn in *. by rewrite (Hw Hl) in E.
Qed.
Hint Resolve side_mark : within.

Lemma side_finalize v : within side_rel (finalize_browser_handover_claim v).
Proof. apply within_best_effort, side_mark. Qed.
Hint Resolve side_finalize : within.

(** What the state machine guarantees from a fixed start. *)
Definition moved (s0 s : ApiKeyStore) : Prop := hand_wf s /\ rtc hand_step s0 s.

Lemma spec_side {A} s0 (m : st ApiKeyStore A) : within side_rel m -> spec (moved s0) m (fun _ => moved s0) (moved s0).
Proof.
  intros H s [Hw Hs]. specialize (H s) as [_ H]. destruct (H Hw) as [Hw' Hs'].
  destruct (m s) as [[a|e] s']; cbn in *; (split; [done|]); by transitivity s.
Qed.

Lemma spec_read {S A B} (P : S -> Prop) (f : S -> A) (k : A -> st S B) R E :
  (forall a, spec P (k a) R E) -> spec P (gets f ≫= k) R E.
Proof. intros H s Hs. by apply (H (f s)). Qed.

(** Memory and the returned state agree once the sidecar is loaded. *)
Definition loaded_as (s0 : ApiKeyStore) (h : option HandoverState) (s : ApiKeyStore) : Prop :=
  moved s0 s /\ browser_handover_deadline_loaded s = true /\ browser_handover_deadline s = h.

Lemma load_step s s' : hand_wf s -> browser_handover_deadline_loaded s = false ->
  browser_handover_deadline_loaded s' = true ->
  (browser_handover_deadline s' = browser_handover_deadline s \/
   exists t h, parse_deadline t = Some h /\ browser_handover_deadline s' = Some h) ->
  hand_wf s' /\ hand_step s s'.
Proof.
  intros Hw Hl Hl' Hd. split; [by intros E; congruence|]. apply HandLoad; [done..|].
  destruct Hd as [Hd|Hd]; [left|by right]. by rewrite Hd, (Hw Hl).
Qed.

Lemma spec_load s0 : spec (moved s0) __load_browser_handover_deadline (loaded_as s0) (moved s0).
Proof.
  intros s [Hw Hs]. unfold __load_browser_handover_deadline, mbind, st_bind, gets, modify.
  destruct (browser_handover_deadline_loaded s) eqn:El; [by split|]. cbv beta iota.
  assert (Hstep : forall s', browser_handover_deadline_loaded s' = true ->
    (browser_handover_deadline s' = browser_handover_deadline s \/
     exists t h, parse_deadline t = Some h /\ browser_handover_deadline s' = Some h) ->
    loaded_as s0 (browser_handover_deadline s') s').
  { intros s' Hl' Hd. destruct (load_step s s' Hw El Hl' Hd) as [Hw' Hst].
    split; [split; [done|]|done]. by eapply rtc_r. }
  cbn -[parse_deadline]. destruct (option_bind _ _ _) as [t|].
  - cbn -[parse_deadline]. destruct (if _ || _ then None else parse_deadline t) as [h|] eqn:Ep; cbn.
    + refine (Hstep (set_browser_handover_deadline (Some h)
        (set_ticks (S (ticks s)) (set_browser_handover_deadline_loaded true s))) _ _); [done|]. right. exists t, h. split; [|done].
      destruct (_ || _); [done|exact Ep].
    + refine (Hstep (set_browser_handover_deadline_invalid true
        (set_ticks (S (ticks s)) (set_browser_handover_deadline_loaded true s))) _ _); [done|by left].
  - cbn. pose proof (Hstep (set_browser_handover_deadline_loaded true s) eq_refl (or_introl eq_refl)) as H.
    cbn in H. by rewrite (Hw El) in H.
Qed.

(** A fresh window ends after it starts, to the second. *)
Lemma opened_before now (recovery : bool) : exists a b, fromisoformat (isoformat now) = Some (Aware a) /\
  fromisoformat (isoformat (now + if recovery then _RECOVERY_BROWSER_HANDOVER_TTL else _INITIAL_BROWSER_HANDOVER_TTL))
    = Some (Aware b) /\ a < b.
Proof.
  rewrite !iso_round_trip. do 2 eexists. split; [done|]. split; [done|].
  unfold _RECOVERY_BROWSER_HANDOVER_TTL, _INITIAL_BROWSER_HANDOVER_TTL, hour, minute, second.
  destruct recovery; Z.to_euclidean_division_equations; lia.
Qed.

(** The windows [open_window] may be asked for. *)
Definition may_open (k v : string) (h : option HandoverState) : Prop :=
  let sn := match h with Some h => seen_recovery_versions h | None => [] end in
  (k = "recovery" /\ is_hex64 v = true /\ v ∉ sn /\
   (length sn < _BROWSER_HANDOVER_SEEN_RECOVERY_VERSION_LIMIT)%nat) \/
  (k = "initial" /\ v = "").

Lemma spec_open s0 k v now h : may_open k v h ->
  spec (loaded_as s0 h) (open_window k v now h) (fun _ => moved s0) (moved s0).
Proof.
  intros Hm s ([Hw Hs] & Hl & Hd). unfold open_window. cbv zeta.
  do 2 rewrite (st_bind_ok (modify _) _ _ _ _ eq_refl).
  match goal with |- context [(_ ≫= _) ?x] => assert (H1 : moved s0 x) end.
  { split; [intros E; cbn in E; congruence|]. eapply rtc_r; [exact Hs|].
    destruct Hm as [(-> & Hx & Hv & Hlen)|(-> & ->)].
    - eapply (HandRecovery _ _ v (mkDeadline "recovery" v _ _)); cbn; unfold seen; rewrite ?Hd; try done.
      split; [by right|exact (opened_before now true)].
    - eapply (HandInitial _ _ (mkDeadline "initial" "" _ _)); cbn; unfold seen; rewrite ?Hd; try done.
      split; [by left|exact (opened_before now false)]. }
  match goal with |- match (?m ?x) with _ => _ end => assert (Hside : within side_rel m) by within_auto;
    exact (spec_side s0 m Hside x H1) end.
Qed.

Lemma spec_forget {A} s0 h (m : st ApiKeyStore A) : within side_rel m ->
  spec (loaded_as s0 h) m (fun _ => moved s0) (moved s0).
Proof. intros Hm. eapply spec_pre; [by apply spec_side|]. by intros s [H _]. Qed.

Lemma spec_value {A B} (P : ApiKeyStore -> Prop) (r : result A) (k : A -> st ApiKeyStore B) s0 :
  (forall s, P s -> moved s0 s) -> (forall a, spec P (k a) (fun _ => moved s0) (moved s0)) ->
  spec P (lift r ≫= k) (fun _ => moved s0) (moved s0).
Proof. intros HP Hk. apply spec_lift; [intros e _; exact HP|intros a _; apply Hk]. Qed.

(** The window is opened only as [may_open] allows. *)
Lemma should_open_may version (recovery matching sn full invalid exp reopen activate activated : bool) h :
  let k := if recovery then "recovery" else "initial" in
  let v := if recovery then __browser_handover_version_digest version else "" in
  sn = match h with Some st => recovery && bool_decide (v ∈ seen_recovery_versions st) | None => false end ->
  full = match h with
         | Some st => recovery && negb matching && negb sn
             && (_BROWSER_HANDOVER_SEEN_RECOVERY_VERSION_LIMIT <=? length (seen_recovery_versions st))%nat
         | None => false
         end ->
  negb invalid && ((negb matching && negb sn && negb full) || (String.eqb k "initial" && exp && reopen))
    && (activate || (recovery && activated)) = true -> may_open k v h.
Proof.
  intros k v Hsn Hfull Ho. destruct recovery; [left|by right].
  assert (H : matching = false /\ sn = false /\ full = false).
  { subst k. change (String.eqb "recovery" "initial") with false in Ho. rewrite !andb_false_l, orb_false_r in Ho.
    destruct matching, sn, full; try done; by rewrite ?andb_false_r in Ho. }
  destruct H as (-> & Hs & Hf). rewrite Hs in Hsn, Hfull. rewrite Hf in Hfull.
  split; [done|]. split; [apply sha256_hex64|]. destruct h as [st|].
  - cbn [andb negb] in Hsn, Hfull. split; [|symmetry in Hfull; by apply Nat.leb_gt].
    symmetry in Hsn. by apply bool_decide_eq_false in Hsn.
  - split; [apply not_elem_of_nil|apply Nat.lt_0_succ].
Qed.

Lemma spec_handover s0 version config activate reopen :
  spec (moved s0) (__browser_handover_state version config activate reopen) (fun _ => moved s0) (moved s0).
Proof.
  unfold __browser_handover_state. eapply spec_bind; [apply spec_side; auto with within|]. intros now.
  apply spec_read. intros admins. apply spec_read. intros recovery. cbv zeta.
  eapply spec_bind; [apply spec_load|]. intros h. apply spec_read. intros invalid.
  destruct (negb recovery && _); [apply spec_forget; destruct activate; within_auto|].
  set (matching := deadline_matches _ _ _).
  assert (Hk : forall k : bool -> st ApiKeyStore HandoverPayload, (forall a, spec (loaded_as s0 h) (k a) (fun _ => moved s0) (moved s0)) ->
    spec (loaded_as s0 h) ((match h ≫= active with
          | Some d => if matching then lift (__deadline_expired d now) else mret false
          | None => mret false end : st ApiKeyStore bool) ≫= k) (fun _ => moved s0) (moved s0)).
  { intros k Hk. destruct (h ≫= active) as [d|]; [destruct matching|]; try apply Hk.
    apply spec_value; [by intros s []|done]. }
  apply Hk. intros exp. apply spec_read. intros activated. clear Hk.
  match goal with |- spec _ (if ?b then _ else _) _ _ => destruct b eqn:Ho end; [|apply spec_forget; within_auto].
  eapply spec_bind; [apply spec_open|intros d; apply spec_side; within_auto].
  eapply should_open_may; [reflexivity..|exact Ho].
Qed.

Lemma proof_of_side {A} (m : st ApiKeyStore A) : within side_rel m -> within proof_rel m.
Proof. intros H s. apply H. Qed.

Lemma proof_quiet s s' : bootstrap_proof s' = bootstrap_proof s -> ticks s' = ticks s -> proof_rel s s'.
Proof. intros H1 H2. split; [lia|by left]. Qed.

Lemma proof_handover version config activate reopen : within proof_rel (__browser_handover_state version config activate reopen).
Proof.
  assert (Hl : within proof_rel __load_browser_handover_deadline).
  { unfold __load_browser_handover_deadline.
    repeat first [progress within_auto | apply within_modify; intros ?; by apply proof_quiet | apply proof_of_side, side_tick]. }
  unfold __browser_handover_state, open_window.
  repeat first [ exact Hl | apply proof_of_side; solve [auto with within] | progress within_auto
               | apply within_modify; intros ?; by apply proof_quiet ].
Qed.

Lemma side_handover version config activate reopen : within side_rel (__browser_handover_state version config activate reopen).
Proof.
  intros s. split; [apply proof_handover|]. intros Hw.
  pose proof (spec_handover s version config activate reopen s (conj Hw (rtc_refl _ _))) as H.
  by destruct (__browser_handover_state version config activate reopen s) as [[a|e] s'].
Qed.
Hint Resolve side_handover : within.

Lemma side_can_claim v config : within side_rel (can_claim_initial_admin v config).
Proof. unfold can_claim_initial_admin. side_auto. Qed.
Lemma side_record_claimed v : within side_rel (record_claimed_version v).
Proof. unfold record_claimed_version. side_auto. Qed.
Hint Resolve side_can_claim side_record_claimed : within.

(** The proof is made of a fresh token. *)
Lemma side_new_proof now ttl (k : BootstrapRecord -> st ApiKeyStore unit) : (forall r, within side_rel (k r)) ->
  within side_rel (r ← fresh_bootstrap now ttl; modify (set_bootstrap_proof (Some r));; k r).
Proof.
  intros Hk s. rewrite (st_bind_ok (fresh_bootstrap now ttl) _ s _ _ eq_refl).
  rewrite (st_bind_ok (modify _) _ _ _ _ eq_refl). etransitivity; [|apply Hk]. split.
  - split; [cbn; lia|]. right. right. eexists (ticks s), _. split; [cbn; lia|]. split; reflexivity.
  - intros Hw. split; [exact Hw|]. by apply rtc_once, HandQuiet.
Qed.

Lemma side_ensure_proof : within side_rel ensure_bootstrap_proof.
Proof.
  unfold ensure_bootstrap_proof. do 3 (within_step; [auto with within|]). within_step; [within_step|].
  destruct (0 <? _); [within_auto|]. within_step; [within_step|]. within_step; [|within_step]. case_match; [within_step|]. apply side_new_proof. intros r.
  within_auto.
Qed.
Hint Resolve side_ensure_proof : within.

Lemma side_op o : within side_rel (run_op o).
Proof.
  destruct o; cbn [run_op]; unfold discard, create_api_key, update_api_key, update_name, update_scopes, delete_api_key,
    revoke_api_key, rotate_api_key, browser_session_for, find_ui_session_by_secret, invalidate_ui_session,
    claim_initial_admin_if_available, create_initial_admin_api_key_if_available, get_browser_handover_state,
    activate_browser_handover, ensure_bootstrap_exchange, fresh_bootstrap,
    consume_bootstrap_proof, consume_bootstrap_exchange, peek_bootstrap_proof, peek_bootstrap_exchange,
    bind_bootstrap_proof_path, bind_completed_migration_claimed_handover_version; side_auto.
Qed.

Lemma exec_moves ops : forall s, hand_wf s -> hand_wf (exec ops s) /\ rtc hand_step s (exec ops s).
Proof.
  induction ops as [|o ops IH]; intros s Hw; [by split|]. destruct (side_op o s) as [_ H]. destruct (H Hw) as [Hw1 H1].
  destruct (IH _ Hw1) as [Hw2 H2]. split; [done|]. etransitivity; [exact H1|exact H2].
Qed.

(** Rule induction over the moves of the window. *)
Lemma exec_hand (I : ApiKeyStore -> Prop) : (forall s s', hand_step s s' -> I s -> I s') ->
  forall ops s, hand_wf s -> I s -> I (exec ops s).
Proof.
  intros HI ops s Hw. destruct (exec_moves ops s Hw) as [_ H]. clear Hw.
  induction H as [|a b c Hab _ IH]; [done|]. intros Ha. apply IH. by eapply HI.
Qed.

(** ** The recovery versions seen *)

Definition history_ok (h : HandoverState) : Prop :=
  (forall d, active h = Some d -> deadline_valid d) /\
  NoDup (seen_recovery_versions h) /\
  (length (seen_recovery_versions h) <= _BROWSER_HANDOVER_SEEN_RECOVERY_VERSION_LIMIT)%nat /\
  Forall (fun v => is_hex64 v = true) (seen_recovery_versions h).

Lemma hex_versions_spec l vs : hex_versions l = Some vs -> length vs = length l /\ Forall (fun v => is_hex64 v = true) vs.
Proof.
  revert vs. induction l as [|v l IH]; intros vs; cbn [hex_versions]; [by intros [= <-]|].
  destruct v as [| | | |v| |]; try done. destruct (is_hex64 v) eqn:Ev; [|done].
  destruct (hex_versions l) as [k|]; [|done]. intros [= <-]. destruct (IH k eq_refl) as [Hl Hk].
  split; [cbn; by rewrite Hl|by apply Forall_cons].
Qed.

Lemma validate_deadline_ok o d : __validate_browser_handover_deadline o = Some d -> deadline_valid d.
Proof.
  unfold __validate_browser_handover_deadline. destruct (same_keys o _); [|done].
  destruct (get_json o "kind") as [| | | |k| |]; try done. destruct (get_json o "version_sha256") as [| | | |v| |]; try done.
  destruct (get_json o "opened_at") as [| | | |a| |]; try done. destruct (get_json o "expires_at") as [| | | |b| |]; try done.
  destruct (bool_decide (k ∈ _)) eqn:Ek; [|done]. apply bool_decide_eq_true in Ek. cbn [andb].
  destruct ((negb (String.eqb k "initial") || String.eqb v "") && (negb (String.eqb k "recovery") || is_hex64 v)) eqn:Ev; [|done].
  destruct (fromisoformat a) as [[ta|ta]|] eqn:Ea; try done. destruct (fromisoformat b) as [[tb|tb]|] eqn:Eb; try done.
  destruct (Z.leb_spec tb ta); [done|]. intros [= <-]. split; [|by exists ta, tb]. cbn.
  apply elem_of_cons in Ek as [-> | Ek]; [|apply list_elem_of_singleton in Ek as ->]; [left|right]; cbn in Ev.
  - split; [done|]. rewrite andb_true_r in Ev. by apply String.eqb_eq.
  - by split.
Qed.

(** Whatever the sidecar contains, what is read from it is well-formed. *)
Lemma parse_deadline_ok t h : parse_deadline t = Some h -> history_ok h.
Proof.
  unfold parse_deadline. destruct (loads t) as [[| | | | | |raw]|]; try done. destruct (json_is_int 1 _).
  - destruct (same_keys raw _); [|done]. destruct (get_json raw "kind") as [| | | |k| |]; try done.
    destruct (get_json raw "version") as [| | | |v| |]; try done. destruct (bool_decide _); [|done]. cbv zeta.
    destruct (__validate_browser_handover_deadline _) as [d|] eqn:Ed; [|done]. apply validate_deadline_ok in Ed.
    assert (Hact : forall x, Some d = Some x -> deadline_valid x) by by intros x [= <-].
    intros [= <-]. unfold history_ok. cbn -[_BROWSER_HANDOVER_SEEN_RECOVERY_VERSION_LIMIT].
    destruct (String.eqb k "recovery"); cbn [seen_recovery_versions].
    + split_and!; [done|apply NoDup_singleton|by apply Nat.leb_le|]. apply Forall_singleton, sha256_hex64.
    + split_and!; [done|apply NoDup_nil_2|by apply Nat.leb_le|apply Forall_nil_2].
  - case_match; [|done].
    match goal with |- (?x ≫= _) = _ -> _ => destruct x as [a|] eqn:Ea end; [|done]. cbn.
    assert (Hact : forall x, a = Some x -> deadline_valid x).
    { intros x ->. destruct (get_json raw "active") as [| | | | | |o]; try done.
      destruct (__validate_browser_handover_deadline o) as [d|] eqn:Ed; [|done]. injection Ea as ->.
      by eapply validate_deadline_ok. }
    destruct (get_json raw "seen_recovery_versions") as [| | | | |l|]; try done.
    destruct (Nat.leb_spec (length l) _BROWSER_HANDOVER_SEEN_RECOVERY_VERSION_LIMIT); [|done].
    destruct (hex_versions l) as [vs|] eqn:E; [|done]. cbn. destruct (bool_decide (NoDup vs)) eqn:En; [|done].
    intros [= <-]. apply bool_decide_eq_true in En. destruct (hex_versions_spec _ _ E) as [Hl Hx].
    split_and!; cbn; [done|done|by rewrite Hl|done].
Qed.

(** The state of the window in memory is well-formed. *)
Definition hand_ok (s : ApiKeyStore) : Prop := forall h, browser_handover_deadline s = Some h -> history_ok h.

Lemma hand_ok_step s s' : hand_step s s' -> hand_ok s -> hand_ok s'.
Proof.
  intros Hs Hok h Hh. destruct Hs as [Hq|Hl Hl' Hd|v d Hl Hl' Hx Hv Hlen Hk Hver Hvd Hd|d Hl Hl' Hk Hver Hvd Hd|h0 Hl Ho Hd].
  - injection Hq as Hq _ _. rewrite Hq in Hh. by apply Hok.
  - destruct Hd as [Hd|(t & h' & Hp & Hd)]; rewrite Hd in Hh; [done|]. injection Hh as <-. by eapply parse_deadline_ok.
  - rewrite Hd in Hh. injection Hh as <-. unfold seen in *. destruct (browser_handover_deadline s) as [h|] eqn:E.
    + destruct (Hok h E) as (_ & Hnd & Hle & Hhex). split_and!; cbn [seen_recovery_versions active]; [by intros x [= <-]|..].
      * apply NoDup_app. split_and!; [done|intros x Hx' ->%list_elem_of_singleton; done|apply NoDup_singleton].
      * rewrite length_app. cbn [length]. lia.
      * apply Forall_app_2; [done|by apply Forall_singleton].
    + split_and!; cbn [seen_recovery_versions app active]; [by intros x [= <-]|apply NoDup_singleton|by apply Nat.leb_le|by apply Forall_singleton].
  - rewrite Hd in Hh. injection Hh as <-. unfold seen. destruct (browser_handover_deadline s) as [h|] eqn:E.
    + destruct (Hok h E) as (_ & Hnd). split; [by intros x [= <-]|exact Hnd].
    + split_and!; cbn [seen_recovery_versions active]; [by intros x [= <-]|apply NoDup_nil_2|by apply Nat.leb_le|apply Forall_nil_2].
  - rewrite Hd in Hh. injection Hh as <-. destruct (Hok h0 Ho) as (_ & Hnd). by split.
Qed.

(** The recovery window of [d]'s version can only be [d] itself. *)
Definition pinned (d : Deadline) (s : ApiKeyStore) : Prop :=
  browser_handover_deadline_loaded s = true /\ version_sha256 d ∈ seen s /\
  forall d', window s = Some d' -> kind d' = "recovery" -> version_sha256 d' = version_sha256 d -> d' = d.

(** What holds of the windows of a version that was seen goes on holding: a
    new window is one of another version. *)
Lemma window_keeps (P : Deadline -> Prop) v s s' : hand_step s s' ->
  browser_handover_deadline_loaded s = true /\ v ∈ seen s /\
    (forall d, window s = Some d -> kind d = "recovery" -> version_sha256 d = v -> P d) ->
  browser_handover_deadline_loaded s' = true /\ v ∈ seen s' /\
    (forall d, window s' = Some d -> kind d = "recovery" -> version_sha256 d = v -> P d).
Proof.
  intros Hs (Hload & Hin & HP). destruct Hs as [Hq|Hl Hl' Hd|w d Hl Hl' Hx Hv Hlen Hk Hver Hvd Hd|d Hl Hl' Hk Hver Hvd Hd|h0 Hl Ho Hd].
  - injection Hq as Hq Hq' _. unfold seen, window in *. by rewrite Hq, Hq'.
  - congruence.
  - split; [done|]. unfold seen at 1, window. rewrite Hd. cbn. split; [apply elem_of_app; by left|].
    intros d' [= <-] _ Ev. exfalso. apply Hv. by rewrite <- Hver, Ev.
  - split; [done|]. unfold seen at 1, window. rewrite Hd. cbn. split; [done|].
    intros d' [= <-] Ek _. rewrite Hk in Ek. done.
  - split; [congruence|]. unfold seen, window in *. rewrite Ho in *. rewrite Hd. cbn in *. by split.
Qed.

(** C23: A recovery version gets one window.  Once the sidecar is in memory,
    whatever operations follow: the recovery window of a version that was seen
    is the same window, with the same deadline, for as long as it is open, and
    once it is not open it never opens again; the list of versions seen stays
    free of duplicates and within its limit. *)
Theorem recovery_window_once s ops d :
  browser_handover_deadline_loaded s = true -> hand_ok s ->
  window s = Some d -> kind d = "recovery" -> version_sha256 d ∈ seen s ->
  let s' := exec ops s in
  hand_ok s' /\
  (forall d', window s' = Some d' -> kind d' = "recovery" -> version_sha256 d' = version_sha256 d -> d' = d) /\
  (forall ops' d', window s' <> Some d -> window (exec ops' s') = Some d' -> kind d' = "recovery" ->
     version_sha256 d' <> version_sha256 d).
Proof.
  intros Hl Hok Hwin Hk Hin s'.
  assert (Hw : hand_wf s) by (intros E; congruence). destruct (exec_moves ops s Hw) as [Hw' _]. fold s' in Hw'.
  assert (Hp : pinned d s').
  { apply exec_hand; [intros a b; apply (window_keeps (fun x => x = d))|done|].
    split; [done|]. split; [done|]. intros d' Hd' _ _. congruence. }
  split; [apply exec_hand; [apply hand_ok_step|done..]|]. destruct Hp as (Hl' & Hin' & Hpin). split; [exact Hpin|].
  intros ops' d' Hne Hd' Hk' Ev.
  assert (Hu : browser_handover_deadline_loaded (exec ops' s') = true /\ version_sha256 d ∈ seen (exec ops' s') /\
    (forall x, window (exec ops' s') = Some x -> kind x = "recovery" -> version_sha256 x = version_sha256 d -> False)).
  { apply exec_hand; [intros a b; apply (window_keeps (fun _ => False))|done|]. split; [done|]. split; [done|].
    intros x Hx Hkx Evx. apply Hne. rewrite Hx. f_equal. by apply Hpin. }
  destruct Hu as (_ & _ & Hu). by eapply Hu.
Qed.
End handover.

#[export] Hint Resolve side_tick side_now side_iso side_disk side_history side_sync side_clear_proof side_clear_exchange
  side_prune_proof side_prune_exchange side_prune_sessions side_save side_write side_payload side_create_session
  side_hash side_create_record side_the_key side_assign side_discard side_mark side_finalize side_handover
  side_can_claim side_record_claimed side_ensure_proof : within.

(** ** Witnesses *)

#[local] Existing Instance toy.
#[local] Existing Instance toy_laws.

Lemma demo_recovery_ok : hand_ok demo_recovery.
Proof. unfold demo_recovery. apply exec_hand; [apply hand_ok_step|done|by intros h]. Qed.

Lemma demo_recovery_window : browser_handover_deadline_loaded demo_recovery = true /\
  exists d, window demo_recovery = Some d /\ kind d = "recovery" /\ version_sha256 d ∈ seen demo_recovery.
Proof.
  assert (H : browser_handover_deadline_loaded demo_recovery &&
    match window demo_recovery with
    | Some d => String.eqb (kind d) "recovery" && bool_decide (version_sha256 d ∈ seen demo_recovery)
    | None => false end = true) by (vm_compute; reflexivity).
  apply andb_true_iff in H as [Hl H]. split; [exact Hl|]. destruct (window demo_recovery) as [d|] eqn:E; [|done].
  apply andb_true_iff in H as [Hk%String.eqb_eq Hv%bool_decide_eq_true]. by exists d.
Qed.

Lemma recovery_window_once_witness : exists d, window demo_recovery = Some d /\
  hand_ok (exec [OpHandoverState recovery_config; OpFirstAdmin (JStr "recover-1") (JStr "again")] demo_recovery).
Proof.
  destruct demo_recovery_window as (Hl & d & Hw & Hk & Hv). exists d. split; [exact Hw|].
  exact (proj1 (recovery_window_once demo_recovery _ d Hl demo_recovery_ok Hw Hk Hv)).
Defined.
