(* ===== verification/AuthClaim.v ===== *)
(** * Claiming the first administrator, and the bootstrap proof

    A claim through an activated store needs a live handover window and
    closes it; a version that was claimed cannot be claimed again while an
    administrator is active; a bootstrap proof is accepted once, before its
    deadline. *)

From S2P Require Import Prelude PyDict PyStr Json Config AuthStore AuthFacts AuthToy AuthSteps AuthKeys AuthHandover.

Section claim.
Context {W : AuthWorld} {L : AuthLaws}.

(** ** The bootstrap proof *)

(** The proof's secret will not be drawn again. *)
Definition proof_drawn (s : ApiKeyStore) : Prop :=
  forall p n, bootstrap_proof s = Some p -> (ticks s <= n)%nat -> token_urlsafe n <> bs_secret p.

(** The secret [x] was used: it is not the present proof and not a future one. *)
Definition spent (x : string) (s : ApiKeyStore) : Prop :=
  (forall p, bootstrap_proof s = Some p -> bs_secret p <> x) /\ forall n, (ticks s <= n)%nat -> token_urlsafe n <> x.

Lemma spent_rel x s s' : proof_rel s s' -> spent x s -> spent x s'.
Proof.
  intros [Ht Hp] [H1 H2]. split; [|intros n Hn; apply H2; lia]. intros p E.
  destruct Hp as [Hp|[Hp|(n & q & Hn & Hq & Hs)]]; [apply H1; congruence|congruence|].
  rewrite Hq in E. injection E as <-. rewrite Hs. apply H2. lia.
Qed.

Lemma exec_proof ops : forall s, proof_rel s (exec ops s).
Proof.
  induction ops as [|o ops IH]; intros s; [reflexivity|]. etransitivity; [apply (side_op o)|apply IH].
Qed.

Lemma proof_drawn_run ops s : proof_drawn s -> proof_drawn (exec ops s).
Proof.
  intros H p n Hp Hn E. destruct (exec_proof ops s) as [Ht [Hq|[Hq|(m & q & Hm & Hq & Hs)]]].
  - apply (H p n); [congruence|lia|done].
  - congruence.
  - rewrite Hq in Hp. injection Hp as <-. rewrite Hs in E. apply token_fresh in E. lia.
Qed.

Ltac keep_proof := repeat first [progress within_auto | apply within_modify; intros ?; reflexivity].

Lemma proof_kept_tick : within (unchanged bootstrap_proof) tick.
Proof. by intros s. Qed.
Hint Resolve proof_kept_tick : within.

Lemma proof_kept_disk : within (unchanged bootstrap_proof) disk.
Proof. unfold disk. keep_proof. Qed.
Hint Resolve proof_kept_disk : within.

Lemma proof_kept_history ev rs ds : within (unchanged bootstrap_proof) (__record_history_event ev rs ds).
Proof. unfold __record_history_event, _utc_now_iso, datetime_now. keep_proof. Qed.
Lemma proof_kept_sync : within (unchanged bootstrap_proof) __sync_bootstrap_proof_artifact.
Proof. unfold __sync_bootstrap_proof_artifact. keep_proof. Qed.
Hint Resolve proof_kept_history proof_kept_sync : within.

(** After a pruning that returns, the proof is still the one in force, or gone. *)
Lemma prune_proof_run now s u s' : __prune_bootstrap_proof now s = (Ok u, s') ->
  bootstrap_proof s' = None \/
  exists p, bootstrap_proof s = Some p /\ still_valid p now = Ok true /\ s' = s.
Proof.
  unfold __prune_bootstrap_proof. rewrite (st_bind_ok (gets _) _ s _ s eq_refl).
  destruct (bootstrap_proof s) as [p|] eqn:E; [|intros [= _ <-]; by left].
  destruct (still_valid p now) as [[]|e] eqn:Ev; [intros [= _ <-]; right; by exists p| |done].
  intros H. left. change (clear_bootstrap_proof "expired" s = (Ok u, s')) in H.
  unfold clear_bootstrap_proof in H. rewrite (st_bind_ok (gets _) _ s _ s eq_refl), E in H.
  rewrite (st_bind_ok (modify _) _ _ _ _ eq_refl) in H.
  match type of H with ?m ?x = _ => assert (Hw : within (unchanged bootstrap_proof) m) by keep_proof;
    specialize (Hw x); rewrite H in Hw; exact Hw end.
Qed.

Lemma still_valid_live p now : still_valid p now = Ok true ->
  exists t, fromisoformat (bs_expires_at p) = Some (Aware t) /\ now < t.
Proof.
  unfold still_valid, iso_le. destruct (fromisoformat (bs_expires_at p)) as [[t|t]|]; try done.
  intros [= H]. exists t. split; [done|]. apply negb_true_iff in H. lia.
Qed.

(** A proof that is accepted is the present one, before its deadline. *)
Lemma peek_proof_true sec s s' : peek_bootstrap_proof sec s = (Ok true, s') ->
  exists p t, bootstrap_proof s = Some p /\ bs_secret p = stripped sec /\
    fromisoformat (bs_expires_at p) = Some (Aware t) /\ clock (ticks s) < t.
Proof.
  unfold peek_bootstrap_proof. destruct sec as [| | | |sec| |]; try done. destruct (blank (JStr sec)); [done|].
  rewrite (st_bind_ok datetime_now _ s _ _ eq_refl). intros ([] & s1 & E1 & E)%st_bind_inv.
  rewrite (st_bind_ok (gets _) _ s1 _ s1 eq_refl) in E. unfold lift in E. injection E as E _.
  apply prune_proof_run in E1 as [E1|(p & Hp & Hv & ->)].
  - by rewrite E1 in E.
  - cbn in E, Hp. rewrite Hp in E. cbn [secret_matches] in E. unfold compare_digest in E.
    destruct (_ && _); [|done]. injection E as E%String.eqb_eq. apply still_valid_live in Hv as (t & Ht & Hlt).
    by exists p, t.
Qed.

(** C26: A bootstrap proof is single-use and timed: one that is consumed was
    the store's present proof, before its deadline, and whatever operations
    follow, the same secret is never accepted again. *)
Theorem bootstrap_proof_single_use secret s s' :
  proof_drawn s -> consume_bootstrap_proof secret s = (Ok true, s') ->
  (exists p t, bootstrap_proof s = Some p /\ bs_secret p = stripped secret /\
     fromisoformat (bs_expires_at p) = Some (Aware t) /\ clock (ticks s) < t) /\
  forall ops secret', stripped secret' = stripped secret ->
    (consume_bootstrap_proof secret' (exec ops s')).1 <> Ok true.
Proof.
  intros Hd Hc. unfold consume_bootstrap_proof in Hc. apply st_bind_inv in Hc as (b & s1 & E1 & E2).
  destruct b; [|done]. pose proof (peek_proof_true _ _ _ E1) as Hp. split; [exact Hp|].
  destruct Hp as (p & t & Hp & Hx & _ & _). intros ops secret' Hs.
  assert (Hspent : spent (stripped secret) (exec ops s')).
  { eapply spent_rel; [apply exec_proof|].
    assert (H1 : spent (stripped secret) (set_bootstrap_proof None s1)).
    { split; [done|]. cbn. intros n Hn. rewrite <- Hx. apply (Hd p n Hp).
      assert (Hw : within side_rel (peek_bootstrap_proof secret)) by (unfold peek_bootstrap_proof; within_auto).
      destruct (Hw s) as [[Ht _] _]. rewrite E1 in Ht. cbn in Ht. lia. }
    rewrite (st_bind_ok (modify _) _ _ _ _ eq_refl) in E2.
    match type of E2 with ?m ?x = _ => assert (Hw : within side_rel m) by within_auto;
      destruct (Hw x) as [Hw' _]; rewrite E2 in Hw' end.
    by eapply spent_rel. }
  unfold consume_bootstrap_proof, mbind, st_bind.
  destruct (peek_bootstrap_proof secret' (exec ops s')) as [[[]|e] s2] eqn:E; try done.
  intros _. apply peek_proof_true in E as (q & u & Hq & Hy & _). apply (proj1 Hspent q Hq). by rewrite Hy, Hs.
Qed.

(** ** The handover window *)

(** The window that a claim of [version] may use at [now]. *)
Definition claimable (version : string) (config : conf) (s0 : ApiKeyStore) (now : Z) (d : Deadline) : Prop :=
  (exists t, fromisoformat (expires_at d) = Some (Aware t) /\ now < t) /\
  ((kind d = "initial" /\ version_sha256 d = "" /\ active_admin_key_count s0 = 0) \/
   (kind d = "recovery" /\ version_sha256 d = sha256_hex version /\ wants_recovery version config s0 = true)).

Definition live_window (version : string) (config : conf) (s0 : ApiKeyStore) (now : Z) (s : ApiKeyStore) : Prop :=
  browser_handover_deadline_loaded s = true /\ browser_handover_deadline_invalid s = false /\
  exists d, window s = Some d /\ claimable version config s0 now d.

Lemma payload_run v dl now ow exp inv sn full s p s' :
  __handover_payload v dl now ow exp inv sn full s = (Ok p, s') ->
  s' = s /\ payload_expires_at p = expires_at <$> dl /\ state_invalid p = inv /\ (open p = true -> ow = true).
Proof.
  unfold __handover_payload. rewrite (st_bind_ok (gets _) _ s _ s eq_refl). intros ([op rem] & s1 & E1 & E2)%st_bind_inv.
  cbn in E2. injection E2 as <- <-. cbn.
  assert (H : s1 = s /\ (op = true -> ow = true)).
  { destruct dl as [d|]; [destruct ow; [destruct (fromisoformat (expires_at d)) as [[]|]|]|];
      try discriminate E1; injection E1 as <- <- <-; by split. }
  destruct H as [-> H]. done.
Qed.

Lemma count_nonneg {A} (f : A -> bool) l : 0 <= count f l.
Proof. unfold count. lia. Qed.

(** Opening makes the window of the request, live. *)
Lemma open_window_run k v now h s d s' : open_window k v now h s = (Ok d, s') ->
  d = mkDeadline k v (isoformat now)
        (isoformat (now + if String.eqb k "recovery" then _RECOVERY_BROWSER_HANDOVER_TTL else _INITIAL_BROWSER_HANDOVER_TTL)) /\
  window s' = Some d /\ browser_handover_deadline_invalid s' = false /\
  browser_handover_deadline_loaded s' = browser_handover_deadline_loaded s.
Proof.
  unfold open_window. cbv zeta. do 2 rewrite (st_bind_ok (modify _) _ _ _ _ eq_refl).
  intros (u & s1 & E1 & E2)%st_bind_inv. injection E2 as <- <-. split; [done|].
  assert (Hw : forall st, within (unchanged hand) (__write_browser_handover_deadline st)).
  { intros st. unfold __write_browser_handover_deadline, _write_completed_migration_private_file, disk.
    repeat first [progress within_auto | apply within_modify; intros ?; reflexivity | by intros ?]. }
  match type of E1 with __write_browser_handover_deadline ?st ?x = _ => specialize (Hw st x); rewrite E1 in Hw end.
  injection Hw as H1 H2 H3. unfold window. by rewrite H1, H2, H3.
Qed.

Lemma fresh_deadline now k : exists t,
  fromisoformat (isoformat (now + if String.eqb k "recovery" then _RECOVERY_BROWSER_HANDOVER_TTL else _INITIAL_BROWSER_HANDOVER_TTL))
    = Some (Aware t) /\ now < t.
Proof.
  rewrite iso_round_trip. eexists. split; [done|].
  assert (H : forall x, now + 2 * second <= x -> now < x / second * second).
  { unfold second. intros x Hx. Z.to_euclidean_division_equations. lia. }
  apply H. unfold _RECOVERY_BROWSER_HANDOVER_TTL, _INITIAL_BROWSER_HANDOVER_TTL, hour, minute, second.
  destruct (String.eqb k "recovery"); lia.
Qed.

Lemma not_expired_live d now : __deadline_expired d now = Ok false ->
  exists t, fromisoformat (expires_at d) = Some (Aware t) /\ now < t.
Proof.
  unfold __deadline_expired, iso_le. destruct (fromisoformat (expires_at d)) as [[t|t]|]; try done.
  intros [= H]. exists t. split; [done|]. lia.
Qed.

(** When the handover state says open, there is a live window for it. *)
Lemma handover_open version config activate reopen s p s' : hand_wf s ->
  __browser_handover_state version config activate reopen s = (Ok p, s') -> open p = true ->
  live_window version config s (clock (ticks s)) s'.
Proof.
  intros Hw E Hopen. unfold __browser_handover_state in E. rewrite (st_bind_ok datetime_now _ s _ _ eq_refl) in E.
  rewrite !(st_bind_ok (gets _) _ _ _ _ eq_refl) in E. cbv zeta in E.
  set (s1 := set_ticks (S (ticks s)) s) in *. change (active_admin_key_count s1) with (active_admin_key_count s) in E.
  change (wants_recovery version config s1) with (wants_recovery version config s) in E.
  set (recovery := wants_recovery version config s) in *.
  apply st_bind_inv in E as (h & s2 & E1 & E).
  pose proof (spec_load s1 s1 (conj Hw (rtc_refl _ _))) as Hl. rewrite E1 in Hl. destruct Hl as (_ & Hload & Hd).
  rewrite (st_bind_ok (gets _) _ s2 _ s2 eq_refl) in E.
  set (invalid := browser_handover_deadline_invalid s2) in *.
  destruct (negb recovery && _) eqn:Hadm.
  { apply st_bind_inv in E as (u & s3 & _ & E). apply payload_run in E as (_ & _ & _ & E). by apply E in Hopen. }
  assert (Hfor : forall d, kind d = (if recovery then "recovery" else "initial") ->
      version_sha256 d = (if recovery then sha256_hex version else "") ->
      (exists t, fromisoformat (expires_at d) = Some (Aware t) /\ clock (ticks s) < t) ->
      claimable version config s (clock (ticks s)) d).
  { intros d Hk Hv Ht. split; [done|]. fold recovery. destruct recovery; [by right|]. left. split_and!; try done.
    cbn [negb andb] in Hadm. pose proof (count_nonneg is_active_admin (api_keys s)). unfold active_admin_key_count in *. lia. }
  apply st_bind_inv in E as (exp & s3 & E3 & E).
  set (matching := deadline_matches _ _ _) in *.
  assert (Hexp : s3 = s2 /\ forall d, h ≫= active = Some d -> matching = true -> __deadline_expired d (clock (ticks s)) = Ok exp).
  { change (h ≫= λ st, active st) with (h ≫= active) in E3. destruct (h ≫= active) as [d|];
      [destruct matching; [unfold lift in E3|]|]; injection E3; intros; subst; split; try done; congruence. }
  destruct Hexp as [-> Hexp]. rewrite (st_bind_ok (gets _) _ s2 _ s2 eq_refl) in E.
  match type of E with (if ?b then _ else _) _ = _ => destruct b end.
  - apply st_bind_inv in E as (d & s4 & E4 & E). apply payload_run in E as (-> & _ & _ & _).
    apply open_window_run in E4 as (-> & Hwin & Hinv & Hload'). split; [congruence|]. split; [done|].
    eexists. split; [exact Hwin|]. apply Hfor; [done..|]. apply fresh_deadline.
  - apply payload_run in E as (-> & _ & _ & E). apply E in Hopen.
    apply andb_true_iff in Hopen as [[Hm He]%andb_true_iff Hi]. split; [done|]. split; [by apply negb_true_iff in Hi|].
    unfold matching, deadline_matches in Hm. change (h ≫= λ st, active st) with (h ≫= active) in Hm.
    destruct (h ≫= active) as [d|] eqn:Ed; [|done]. apply andb_true_iff in Hm as [Hk%String.eqb_eq Hv%String.eqb_eq].
    exists d. split; [unfold window; by rewrite Hd|]. apply Hfor; [done..|]. apply not_expired_live.
    rewrite (Hexp d eq_refl). { apply negb_true_iff in He. by rewrite He. }
    unfold matching. replace (h ≫= λ st, active st) with (Some d) by (symmetry; exact Ed).
    cbn [deadline_matches]. by rewrite Hk, Hv, !String.eqb_refl.
Qed.

(** ** What a claim leaves behind *)

Ltac keep_hand := repeat first [progress within_auto | apply within_modify; intros ?; reflexivity | by intros ?].

Lemma hand_kept_history ev rs ds : within (unchanged hand) (__record_history_event ev rs ds).
Proof. unfold __record_history_event, _utc_now_iso, datetime_now. keep_hand. Qed.
Hint Resolve hand_kept_history : within.
Lemma hand_kept_clear rs rs' : within (unchanged hand) (clear_bootstrap_proof rs) /\ within (unchanged hand) (clear_bootstrap_exchange rs').
Proof. unfold clear_bootstrap_proof, clear_bootstrap_exchange, __sync_bootstrap_proof_artifact, disk. split; keep_hand. Qed.
Lemma hand_kept_clear_proof rs : within (unchanged hand) (clear_bootstrap_proof rs).
Proof. apply (hand_kept_clear rs rs). Qed.
Lemma hand_kept_clear_exchange rs : within (unchanged hand) (clear_bootstrap_exchange rs).
Proof. apply (hand_kept_clear rs rs). Qed.
Hint Resolve hand_kept_clear_proof hand_kept_clear_exchange : within.
Lemma hand_kept_save : within (unchanged hand) save.
Proof.
  unfold save, to_file, to_str, __prune_expired_ui_sessions, __prune_bootstrap_proof, __prune_bootstrap_exchange, disk, datetime_now.
  keep_hand.
Qed.
Lemma hand_kept_record v : within (unchanged hand) (record_claimed_version v).
Proof. unfold record_claimed_version. keep_hand. Qed.
Lemma hand_kept_create name scopes : within (unchanged hand) (__create_api_key_record name scopes).
Proof. unfold __create_api_key_record, _hash_secret, _utc_now_iso, datetime_now. keep_hand. Qed.
Hint Resolve hand_kept_save hand_kept_record hand_kept_create : within.

(** Finishing a claim closes the window it used, also when the sidecar cannot
    be written. *)
Lemma finalize_closes version config s0 now s b s' : live_window version config s0 now s -> strip version = version ->
  finalize_browser_handover_claim (JStr version) s = (Ok b, s') -> window s' = None.
Proof.
  intros (Hl & Hi & d & Hw & _ & Hd) Hv. unfold finalize_browser_handover_claim, best_effort. cbn [stripped]. rewrite Hv.
  unfold __mark_browser_handover_claimed. rewrite !(st_bind_ok (gets _) _ s _ s eq_refl). rewrite Hl, Hi. cbn [negb orb].
  rewrite (st_bind_ok (gets _) _ s _ s eq_refl). unfold window in Hw.
  destruct (browser_handover_deadline s) as [[a sn]|] eqn:E; [|done]. cbn in Hw. subst a. cbv zeta.
  assert (Heq : String.eqb (version_sha256 d) (if String.eqb (kind d) "recovery" then __browser_handover_version_digest version else "") = true).
  { apply String.eqb_eq. destruct Hd as [(-> & -> & _)|(-> & -> & _)]; done. }
  rewrite Heq, (st_bind_ok (modify _) _ _ _ _ eq_refl).
  match goal with |- match ?m ?x with _ => _ end = _ -> _ => assert (Hk : within (unchanged hand) m) end.
  { unfold __write_browser_handover_deadline, _write_completed_migration_private_file, disk. keep_hand. }
  match goal with |- match ?m ?x with _ => _ end = _ -> _ => specialize (Hk x); destruct (m x) as [[u|e] s2] end.
  - intros [= _ <-]. injection Hk as Hk _ _. cbn in Hk. unfold window. by rewrite Hk.
  - injection Hk as Hk _ _. cbn in Hk. destruct e; try discriminate; intros [= _ <-]; unfold window; by rewrite Hk.
Qed.

Lemma live_window_hand version config s0 now s s' : unchanged hand s s' -> live_window version config s0 now s ->
  live_window version config s0 now s'.
Proof.
  intros Hh (Hl & Hi & Hd). injection Hh as H1 H2 H3. unfold live_window, window in *. by rewrite H1, H2, H3.
Qed.

(** A run that leaves the window alone. *)
Lemma live_window_run {A} version config s0 now (m : st ApiKeyStore A) s a s' :
  within (unchanged hand) m -> m s = (Ok a, s') -> live_window version config s0 now s -> live_window version config s0 now s'.
Proof. intros Hm E. apply live_window_hand. specialize (Hm s). by rewrite E in Hm. Qed.

Lemma activated_kept version config a r : within (unchanged browser_handover_activated) (__browser_handover_state version config a r).
Proof.
  unfold __browser_handover_state, __load_browser_handover_deadline, __handover_payload, open_window,
    finalize_browser_handover_claim, __write_browser_handover_deadline, _write_completed_migration_private_file, disk, datetime_now.
  repeat first [progress within_auto | apply within_modify; intros ?; reflexivity | by intros ?
    | apply within_best_effort; unfold __mark_browser_handover_claimed, __write_browser_handover_deadline,
        _write_completed_migration_private_file, disk ].
Qed.

(** In a process whose window was activated, a claim is granted by the window only. *)
Lemma can_claim_live version config s s' : hand_wf s -> browser_handover_activated s = true ->
  can_claim_initial_admin version config s = (Ok true, s') ->
  live_window (stripped version) config s (clock (ticks s)) s'.
Proof.
  intros Hw Ha. unfold can_claim_initial_admin. cbv zeta. intros (p & s1 & E1 & E2)%st_bind_inv.
  pose proof (activated_kept (stripped version) config false false s) as Hk. rewrite E1 in Hk.
  rewrite (st_bind_ok (gets _) _ s1 _ s1 eq_refl) in E2. unfold unchanged in Hk. cbn in Hk. rewrite Hk, Ha in E2.
  cbn [orb] in E2. injection E2 as Ho <-. by eapply handover_open.
Qed.

(** The claimed version, and whether a migration pins it. *)
Definition claims (s : ApiKeyStore) : string * string :=
  (browser_handover_claimed_version s, completed_migration_claimed_handover_version s).

Ltac keep_claims := repeat first [progress within_auto | apply within_modify; intros ?; reflexivity | by intros ?
  | apply within_best_effort ].

Lemma claims_kept_history ev rs ds : within (unchanged claims) (__record_history_event ev rs ds).
Proof. unfold __record_history_event, _utc_now_iso, datetime_now. keep_claims. Qed.
Hint Resolve claims_kept_history : within.
Lemma claims_kept_clear_proof rs : within (unchanged claims) (clear_bootstrap_proof rs).
Proof. unfold clear_bootstrap_proof, __sync_bootstrap_proof_artifact, disk. keep_claims. Qed.
Lemma claims_kept_clear_exchange rs : within (unchanged claims) (clear_bootstrap_exchange rs).
Proof. unfold clear_bootstrap_exchange. keep_claims. Qed.
Hint Resolve claims_kept_clear_proof claims_kept_clear_exchange : within.
Lemma claims_kept_save : within (unchanged claims) save.
Proof.
  unfold save, to_file, to_str, __prune_expired_ui_sessions, __prune_bootstrap_proof, __prune_bootstrap_exchange, disk, datetime_now.
  keep_claims.
Qed.
Lemma claims_kept_create name scopes : within (unchanged claims) (__create_api_key_record name scopes).
Proof. unfold __create_api_key_record, _hash_secret, _utc_now_iso, datetime_now. keep_claims. Qed.
Lemma claims_kept_finalize v : within (unchanged claims) (finalize_browser_handover_claim v).
Proof.
  apply within_best_effort. unfold __mark_browser_handover_claimed, __write_browser_handover_deadline,
    _write_completed_migration_private_file, disk. keep_claims.
Qed.
Hint Resolve claims_kept_save claims_kept_create claims_kept_finalize : within.
Lemma claims_kept_handover v config a r : within (unchanged claims) (__browser_handover_state v config a r).
Proof.
  unfold __browser_handover_state, __load_browser_handover_deadline, __handover_payload, open_window,
    __write_browser_handover_deadline, _write_completed_migration_private_file, disk, datetime_now. keep_claims.
Qed.
Hint Resolve claims_kept_handover : within.
Lemma claims_kept_can_claim v config : within (unchanged claims) (can_claim_initial_admin v config).
Proof. unfold can_claim_initial_admin. keep_claims. Qed.

(** A claimed version is not up for another claim while an administrator is
    active. *)
Lemma claimed_stays_closed version config s : 0 < active_admin_key_count s ->
  browser_handover_claimed_version s = stripped version ->
  (can_claim_initial_admin version config s).1 <> Ok true.
Proof.
  intros Hadm Hc. unfold can_claim_initial_admin. cbv zeta.
  destruct (((__browser_handover_state (stripped version) config false false) ≫= _) s) as [r s'] eqn:E. cbn. intros ->.
  apply st_bind_inv in E as (p & s1 & E1 & E2).
  pose proof (claims_kept_handover (stripped version) config false false s) as Hk. rewrite E1 in Hk. injection Hk as Hk _.
  pose proof (calm_handover (stripped version) config false false s) as (Ha & _ & _). rewrite E1 in Ha. cbn in Ha, Hk.
  assert (Hp : open p = false).
  { destruct (open p) eqn:Ho; [|done]. exfalso. unfold __browser_handover_state in E1.
    rewrite (st_bind_ok datetime_now _ s _ _ eq_refl) in E1. rewrite !(st_bind_ok (gets _) _ _ _ _ eq_refl) in E1.
    cbv zeta in E1. apply st_bind_inv in E1 as (h & s2 & _ & E1). rewrite (st_bind_ok (gets _) _ s2 _ s2 eq_refl) in E1.
    assert (Hr : wants_recovery (stripped version) config (set_ticks (S (ticks s)) s) = false).
    { unfold wants_recovery. cbn. rewrite Hc, String.eqb_refl. cbn. by rewrite andb_false_r. }
    rewrite Hr in E1. change (active_admin_key_count (set_ticks (S (ticks s)) s)) with (active_admin_key_count s) in E1.
    assert (Hlt : (0 <? active_admin_key_count s) = true) by lia. rewrite Hlt in E1. cbn [negb andb] in E1.
    apply st_bind_inv in E1 as (u & s3 & _ & E1). apply payload_run in E1 as (_ & _ & _ & E1). by apply E1 in Ho. }
  rewrite (st_bind_ok (gets _) _ s1 _ s1 eq_refl) in E2. rewrite Hp in E2.
  destruct (_ || _ || _); [done|]. unfold gets in E2. injection E2 as E2 _.
  rewrite Hk, Hc, String.eqb_refl in E2. unfold active_admin_key_count in E2, Hadm. rewrite Ha in E2.
  cbn [negb] in E2. rewrite orb_false_r in E2. lia.
Qed.

(** A run of code within a relation. *)
Lemma run_rel {A} (R : relation ApiKeyStore) (m : st ApiKeyStore A) s a s' : within R m -> m s = (Ok a, s') -> R s s'.
Proof. intros Hm E. specialize (Hm s). by rewrite E in Hm. Qed.

Lemma record_claimed_run v s u s' : record_claimed_version v s = (Ok u, s') ->
  completed_migration_claimed_handover_version s = "" -> browser_handover_claimed_version s' = v.
Proof.
  unfold record_claimed_version. rewrite (st_bind_ok (gets _) _ s _ s eq_refl). intros E H. rewrite H in E.
  cbn in E. by injection E as _ <-.
Qed.

(** What the claim does once it is granted. *)
Lemma admin_scopes r : _normalize_scopes (JArr [JStr "admin"]) = inr (key_scopes r) -> is_revoked r = false ->
  is_active_admin r = true.
Proof. intros [= H] Hr. unfold is_active_admin. rewrite Hr, <- H. done. Qed.

Lemma active_admin_app l r : is_active_admin r = true -> 0 < count is_active_admin (l ++ [r]).
Proof. intros H. unfold count. rewrite List.filter_app. cbn [List.filter]. rewrite H, length_app. cbn [length]. lia. Qed.

(** C24: In a process whose handover window was activated, an administrator is
    created through the handover only while a window is live for that version
    (the initial window while there is no active administrator, or the
    recovery window of a version other than the claimed one, before its
    deadline), and creating it closes the window even if the sidecar cannot be
    written: the new key is an active administrator, its secret verifies, and,
    unless a completed migration pins the version, the version cannot be
    claimed again while an administrator is active. *)
Theorem admin_claim_uses_window version name s r secret s' :
  hand_wf s -> browser_handover_activated s = true ->
  create_initial_admin_api_key_if_available version name s = (Ok (Some (r, secret)), s') ->
  let v := stripped version in
  (exists d s1, can_claim_initial_admin (JStr v) None s = (Ok true, s1) /\ window s1 = Some d /\
     claimable v None s (clock (ticks s)) d) /\
  window s' = None /\ api_keys s' = api_keys s ++ [r] /\ is_active_admin r = true /\
  _verify_secret secret (secret_hash r) = Ok true /\
  (completed_migration_claimed_handover_version s = "" ->
     browser_handover_claimed_version s' = v /\ forall config, (can_claim_initial_admin version config s').1 <> Ok true).
Proof.
  intros Hw Ha E v. unfold create_initial_admin_api_key_if_available in E. cbv zeta in E. fold v in E.
  apply st_bind_inv in E as (can & s1 & E1 & E). destruct can; [|done].
  assert (Hv : stripped (JStr v) = v) by (unfold v; destruct version; cbn; try done; apply strip_strip).
  pose proof (can_claim_live _ _ _ _ Hw Ha E1) as Hlive. rewrite Hv in Hlive.
  apply st_bind_inv in E as ([r' sec'] & s2 & E2 & E). apply st_bind_inv in E as ([] & s3 & E3 & E).
  apply st_bind_inv in E as ([] & s4 & E4 & E). apply st_bind_inv in E as ([] & s5 & E5 & E).
  apply st_bind_inv in E as ([] & s6 & E6 & E). apply st_bind_inv in E as (b & s7 & E7 & E).
  apply st_bind_inv in E as ([] & s8 & E8 & E). injection E as <- <- <-. cbn [fst snd] in *.
  destruct (create_record_inv _ _ _ _ _ _ E2) as (Hk2 & _ & Hr & Hs & Hver & _ & _).
  assert (Hk : api_keys s8 = api_keys s ++ [r']).
  { assert (H28 : calm s2 s8).
    { etransitivity; [by eapply run_rel, E3; auto with within|]. etransitivity; [by eapply run_rel, E4; auto with within|].
      etransitivity; [by eapply run_rel, E5; auto with within|]. etransitivity; [by eapply run_rel, E6; auto with within|].
      etransitivity; [by eapply run_rel, E7; auto with within|]. by eapply run_rel, E8; auto with within. }
    destruct H28 as (-> & _). rewrite Hk2. f_equal. by destruct (run_rel calm _ _ _ _ (calm_can_claim _ _) E1) as (-> & _). }
  assert (Hlive6 : live_window v None s (clock (ticks s)) s6).
  { do 5 (eapply live_window_run; [|eassumption|]; [auto with within|]). exact Hlive. }
  pose proof (finalize_closes _ _ _ _ _ _ _ Hlive6 Hv E7) as Hwin.
  pose proof (run_rel (unchanged hand) _ _ _ _ (hand_kept_history _ _ _) E8) as H8. injection H8 as H8 _ _.
  pose proof (admin_scopes _ Hs Hr) as Hadm.
  split_and!; [|unfold window in *; by rewrite H8|done..|].
  { destruct Hlive as (_ & _ & d & Hd & Hc). by exists d, s1. }
  intros Hpin.
  pose proof (run_rel (unchanged claims) _ _ _ _ (claims_kept_can_claim _ _) E1) as C1.
  pose proof (run_rel (unchanged claims) _ _ _ _ (claims_kept_create _ _) E2) as C2.
  assert (C8 : claims s8 = claims s3).
  { transitivity (claims s7); [by eapply (run_rel (unchanged claims)), E8; auto with within|].
    transitivity (claims s6); [by eapply (run_rel (unchanged claims)), E7; auto with within|].
    transitivity (claims s5); [by eapply (run_rel (unchanged claims)), E6; auto with within|].
    transitivity (claims s4); [by eapply (run_rel (unchanged claims)), E5; auto with within|].
    by eapply (run_rel (unchanged claims)), E4; auto with within. }
  assert (Hpin2 : completed_migration_claimed_handover_version s2 = "").
  { unfold unchanged, claims in C1, C2. congruence. }
  pose proof (record_claimed_run _ _ _ _ E3 Hpin2) as Hcl. injection C8 as C8 _. rewrite <- C8 in Hcl.
  split; [done|]. intros config. apply claimed_stays_closed; [|done].
  unfold active_admin_key_count. rewrite Hk. by apply active_admin_app.
Qed.
End claim.

(** ** Witnesses *)

#[local] Existing Instance toy.
#[local] Existing Instance toy_laws.

Lemma admin_claim_uses_window_witness : exists r s',
  window s' = None /\ api_keys s' = api_keys demo_initial ++ [r] /\ is_active_admin r = true.
Proof.
  assert (Hw : hand_wf demo_initial) by (unfold demo_initial; apply exec_moves; done).
  assert (H : browser_handover_activated demo_initial &&
    match (create_initial_admin_api_key_if_available (JStr "") (JStr "admin") demo_initial).1 with
    | Ok (Some _) => true | _ => false end = true) by (vm_compute; reflexivity).
  apply andb_true_iff in H as [Ha H].
  destruct (create_initial_admin_api_key_if_available (JStr "") (JStr "admin") demo_initial) as [[[[r secret]|]|e] s'] eqn:E; try discriminate H.
  destruct (admin_claim_uses_window _ _ _ _ _ _ Hw Ha E) as (_ & H1 & H2 & H3 & _).
  exists r, s'. exact (conj H1 (conj H2 H3)).
Defined.

Lemma bootstrap_proof_single_use_witness : exists p s',
  bootstrap_proof demo_initial = Some p /\
  (consume_bootstrap_proof (JStr (bs_secret p)) (exec [OpEnsureProof] s')).1 <> Ok true.
Proof.
  assert (H : match bootstrap_proof demo_initial with
    | Some p => match (consume_bootstrap_proof (JStr (bs_secret p)) demo_initial).1 with Ok b => b | _ => false end
    | None => false end = true) by (vm_compute; reflexivity).
  destruct (bootstrap_proof demo_initial) as [p|] eqn:Ep; [|done]. exists p.
  destruct (consume_bootstrap_proof (JStr (bs_secret p)) demo_initial) as [[b|e] s'] eqn:E; [|done]. cbn in H. subst b.
  exists s'. split; [done|]. assert (Hd : proof_drawn demo_initial) by (unfold demo_initial; apply proof_drawn_run; by intros q n Hq).
  exact (proj2 (bootstrap_proof_single_use _ _ _ Hd E) [OpEnsureProof] (JStr (bs_secret p)) eq_refl).
Defined.
