(* ===== verification/AuthFile.v ===== *)
(** * The API key store on disk

    A saved store reads back after a restart, the handover window with it;
    arbitrary content of the store file gives a well-formed store or
    [PersistError]. *)

From S2P Require Import Prelude PyDict PyStr Json PyFloat Config AuthStore AuthFacts AuthToy AuthSteps AuthKeys AuthHandover AuthClaim.

Section file.
Context {W : AuthWorld} {L : AuthLaws}.

(** ** Reading arbitrary content *)

Definition raises_persist {A} (r : result A) : Prop := exists m, r = Raise (PersistError m).

Lemma invalid_raises {A} m : raises_persist (@invalid_store A m).
Proof. by eexists. Qed.

Lemma read_key_scopes o r : read_key o = inr r -> scopes_ok (key_scopes r).
Proof.
  unfold read_key, sum_bind, mbind, get_scopes. destruct (_required_string_field o "id"); [done|].
  destruct (_required_string_field o "name"); [done|].
  destruct (_normalize_scopes _) as [|l] eqn:El; [done|].
  repeat (case_match; try done). all: intros [= <-]; by eapply normalize_scopes_ok.
Qed.

Lemma read_session_scopes o r : read_session o = inr r -> scopes_ok (ses_scopes r).
Proof.
  unfold read_session, sum_bind, mbind, get_scopes. destruct (optional_string _ _); [done|].
  destruct (optional_string _ _); [done|]. destruct (as_bool _ _); [done|]. destruct (_required_string_field _ _); [done|].
  destruct (as_bool _ _); [done|]. destruct (_normalize_scopes _) as [|l] eqn:El; [done|].
  repeat (case_match; try done). intros [= <-]. by eapply normalize_scopes_ok.
Qed.

Lemma read_keys_contract l :
  match read_keys l with
  | Ok rs => Forall (fun r => scopes_ok (key_scopes r)) rs
  | Raise e => exists m, e = PersistError m
  end.
Proof.
  induction l as [|v l IH]; [apply Forall_nil_2|]. destruct v as [| | | | | |o]; try by eexists. cbn [read_keys].
  destruct (read_key o) as [m|r] eqn:E; [by eexists|]. destruct (read_keys l) as [rs|e]; cbn; [|done].
  apply Forall_cons. split; [by eapply read_key_scopes|done].
Qed.

Lemma read_sessions_contract l : forall d, dwf d ->
  Forall (fun kv => ses_secret kv.2 = kv.1 /\ scopes_ok (ses_scopes kv.2)) d ->
  match read_sessions l d with
  | Ok d' => dwf d' /\ Forall (fun kv => ses_secret kv.2 = kv.1 /\ scopes_ok (ses_scopes kv.2)) d'
  | Raise e => exists m, e = PersistError m
  end.
Proof.
  induction l as [|v l IH]; intros d Hw Hd; [done|]. destruct v as [| | | | | |o]; try by eexists. cbn [read_sessions].
  destruct (read_session o) as [m|r] eqn:E; [by eexists|]. apply IH; [by apply dwf_dset|].
  apply Forall_dset; [done|]. split; [done|]. by eapply read_session_scopes.
Qed.


(** ** Reading what was written *)

Lemma read_key_json r : scopes_ok (key_scopes r) -> exists o, key_json r = JObj o /\ read_key o = inr r.
Proof.
  destruct r as [i n sc h c u rv]. intros Hs. eexists. split; [reflexivity|].
  destruct rv; cbv -[_normalize_scopes scopes_json]; by rewrite normalize_scopes_id.
Qed.

Lemma read_session_json r : scopes_ok (ses_scopes r) -> exists o, session_json r = JObj o /\ read_session o = inr r.
Proof.
  destruct r as [sec sc c e b m i h]. intros Hs. eexists. split; [reflexivity|].
  destruct i, h; cbv -[_normalize_scopes scopes_json]; by rewrite normalize_scopes_id.
Qed.

Lemma read_keys_json l : Forall (fun r => scopes_ok (key_scopes r)) l -> read_keys (map key_json l) = Ok l.
Proof.
  induction 1 as [|r l Hr Hl IH]; [done|]. cbn [map read_keys]. destruct (read_key_json r Hr) as (o & -> & ->).
  by rewrite IH.
Qed.

Lemma read_sessions_json l : forall d, Forall (fun r => scopes_ok (ses_scopes r)) l ->
  read_sessions (map session_json l) d = Ok (dupdate d (map (fun r => (ses_secret r, r)) l)).
Proof.
  induction l as [|r l IH]; intros d H; [done|]. apply Forall_cons in H as [Hr Hl]. cbn [map read_sessions].
  destruct (read_session_json r Hr) as (o & -> & ->). by rewrite IH.
Qed.

Lemma json_ok_strings l : json_ok (JArr (map JStr l)).
Proof. apply json_ok_arr. apply Forall_forall. intros x Hx. apply list_elem_of_fmap in Hx as (y & -> & _). done. Qed.

Lemma json_ok_opt v : json_ok (opt_json v).
Proof. by destruct v. Qed.

Lemma json_ok_key r : json_ok (key_json r).
Proof.
  apply json_ok_obj. split; [apply (bool_decide_unpack _); vm_compute; exact I|].
  repeat apply Forall_cons_2; try done; [apply json_ok_strings|apply json_ok_opt].
Qed.

Lemma json_ok_session r : json_ok (session_json r).
Proof.
  apply json_ok_obj. split; [apply (bool_decide_unpack _); vm_compute; exact I|].
  repeat apply Forall_cons_2; try done; [apply json_ok_strings|apply json_ok_opt..].
Qed.

Lemma json_ok_store s : json_ok (store_json s).
Proof.
  apply json_ok_obj. split; [apply (bool_decide_unpack _); vm_compute; exact I|].
  repeat apply Forall_cons_2; try done; cbn [snd]; [vm_compute; lia|..]; apply json_ok_arr, Forall_forall; intros x Hx;
    apply list_elem_of_fmap in Hx as (y & -> & _); [apply json_ok_key|apply json_ok_session].
Qed.

(** The sessions in file order are those of the dictionary. *)
Lemma sorted_sessions_get d k : dwf d -> Forall session_ok d ->
  dget (dfrom (map (fun r => (ses_secret r, r)) (merge_sort session_le (dvals d)))) k = dget d k.
Proof.
  intros Hw Hs.
  assert (Hp : map (fun r => (ses_secret r, r)) (merge_sort session_le (dvals d)) ≡ₚ d).
  { rewrite merge_sort_Permutation. unfold dvals. rewrite map_map. clear Hw.
    induction Hs as [|[x r] d [Hx _] Hs IH]; [done|]. cbn in *. rewrite Hx. by constructor. }
  assert (Hnd : NoDup (map fst (map (fun r => (ses_secret r, r)) (merge_sort session_le (dvals d))))).
  { unfold dwf, dkeys in Hw. rewrite Hp. exact Hw. }
  rewrite dget_dfrom by done. apply option_eq. intros v. rewrite !dget_elem_of by done. by rewrite Hp.
Qed.

(** The text of a well-formed store reads back as that store. *)
Lemma from_str_store s : store_ok s -> exists c, from_str (dumps 2 (store_json s)) = Ok c /\
  content_keys c = api_keys s /\ content_claimed c = browser_handover_claimed_version s /\
  forall k, dget (content_sessions c) k = dget (ui_sessions s) k.
Proof.
  intros Hok. unfold from_str. rewrite loads_dumps by apply json_ok_store. unfold store_json.
  match goal with |- context [dget ?p "version"] => set (payload := p) end.
  change (dget payload "version") with (Some (JInt 3)).
  change (dget payload "browser_handover_claimed_version") with (Some (JStr (browser_handover_claimed_version s))).
  change (dget payload "api_keys") with (Some (JArr (map key_json (api_keys s)))).
  change (dget payload "ui_sessions") with (Some (JArr (map session_json (merge_sort session_le (dvals (ui_sessions s)))))).
  cbn [default id from_option mbind result_bind]. change (3 <? 1) with false. cbv iota. cbn [mbind result_bind].
  rewrite (read_keys_json _ (ok_scopes _ Hok)). cbn [mbind result_bind]. rewrite read_sessions_json.
  2: { rewrite merge_sort_Permutation. apply Forall_forall. intros r Hr.
       unfold dvals in Hr. apply list_elem_of_fmap in Hr as ([k r'] & -> & Hin).
       pose proof (ok_sessions _ Hok) as Hs. rewrite Forall_forall in Hs. by destruct (Hs _ Hin) as (_ & Hsc & _). }
  eexists. split; [reflexivity|]. cbn [content_keys content_claimed content_sessions]. split; [done|]. split; [done|]. intros k.
  apply sorted_sessions_get; apply Hok.
Qed.

(** ** Restarting *)

(** The parts a save keeps after it wrote the text. *)
Definition saved_parts (s : ApiKeyStore) : list ApiKeyRecord * dict string UiSessionRecord * string * dict string string :=
  (api_keys s, ui_sessions s, browser_handover_claimed_version s, files s).

Lemma parts_kept_history ev rs ds : within (unchanged saved_parts) (__record_history_event ev rs ds).
Proof.
  unfold __record_history_event, _utc_now_iso, datetime_now.
  repeat first [progress within_auto | apply within_modify; intros ?; reflexivity | by intros ?].
Qed.

Lemma parts_kept_disk : within (unchanged saved_parts) disk.
Proof. unfold disk. repeat first [progress within_auto | by intros ?]. Qed.

Lemma to_str_run s text s' : store_ok s -> to_str s = (Ok text, s') ->
  store_ok s' /\ text = dumps 2 (store_json s') /\ api_keys s' = api_keys s /\
  browser_handover_claimed_version s' = browser_handover_claimed_version s.
Proof.
  intros Hok E. pose proof (run_rel calm _ _ _ _ calm_to_str E) as Hc.
  split; [by eapply store_ok_step; [apply StepCalm|]|]. split.
  - unfold to_str in E. do 4 apply st_bind_inv in E as (? & ? & _ & E). by injection E as <- <-.
  - split; [apply Hc|]. assert (Hk : within (unchanged claims) to_str).
    { unfold to_str, __prune_expired_ui_sessions, __prune_bootstrap_proof, __prune_bootstrap_exchange, datetime_now.
      repeat first [progress within_auto | apply within_modify; intros ?; reflexivity | by intros ?
        | apply claims_kept_clear_proof | apply claims_kept_clear_exchange]. }
    pose proof (run_rel _ _ _ _ _ Hk E) as H. by injection H.
Qed.

(** After a save the file holds the text of the store as it now is. *)
Lemma save_run p s u s' : store_ok s -> file_path s = Some p -> save s = (Ok u, s') ->
  store_ok s' /\ dget (files s') p = Some (dumps 2 (store_json s')) /\ api_keys s' = api_keys s /\
  browser_handover_claimed_version s' = browser_handover_claimed_version s.
Proof.
  intros Hok Hp E. assert (Hok' : store_ok s').
  { eapply store_ok_step; [apply StepCalm|exact Hok]. by eapply run_rel, E; apply calm_save. }
  split; [done|]. unfold save in E. rewrite (st_bind_ok (gets _) _ s _ s eq_refl), Hp in E.
  apply st_bind_inv in E as (? & s1 & E1 & E).
  assert (Hok1 : store_ok s1).
  { eapply store_ok_step; [apply StepCalm|exact Hok]. eapply run_rel, E1. apply within_when; [exact _|auto with within]. }
  assert (H1 : unchanged saved_parts s s1).
  { eapply run_rel, E1. apply within_when; [exact _|apply parts_kept_disk]. }
  apply st_bind_inv in E as (? & s2 & E2 & E). unfold to_file in E2.
  apply st_bind_inv in E2 as (? & s3 & E3 & E2). apply st_bind_inv in E2 as (text & s4 & E4 & E2).
  apply st_bind_inv in E2 as (? & s5 & E5 & E2). injection E2 as _ <-.
  pose proof (run_rel _ _ _ _ _ parts_kept_disk E3) as H3. pose proof (run_rel _ _ _ _ _ parts_kept_disk E5) as H5.
  assert (Hok3 : store_ok s3) by (eapply store_ok_step; [apply StepCalm; by eapply run_rel, E3; apply calm_disk|done]).
  destruct (to_str_run _ _ _ Hok3 E4) as (_ & -> & Hk4 & Hc4).
  set (s6 := set_files _ s5) in E.
  assert (H6 : unchanged saved_parts s6 s').
  { rewrite !(st_bind_ok (gets _) _ _ _ _ eq_refl) in E. eapply run_rel, E. apply within_when; [exact _|].
    apply within_bind; [exact _|apply parts_kept_history|]. intros _. by apply within_modify. }
  injection H1 as K1 _ C1 _. injection H3 as K3 _ C3 _. injection H5 as K5 S5 C5 F5. injection H6 as K6 S6 C6 F6.
  cbn in K6, S6, C6, F6. rewrite F6, dget_dset_eq. split; [|split; congruence]. f_equal. f_equal. unfold store_json. by rewrite K6, S6, C6, K5, S5, C5.
Qed.


(** ** A deadline without a time zone *)

Lemma session_expired_naive now r e : session_expired now r = Raise e -> e = TypeError.
Proof.
  unfold session_expired, iso_le. destruct (remembered r); [done|].
  destruct (fromisoformat (ses_expires_at r)) as [[t|t]|]; try done. by intros [= <-].
Qed.

Lemma expired_ids_naive now l k r t : (k, r) ∈ l -> remembered r = false ->
  fromisoformat (ses_expires_at r) = Some (Naive t) -> expired_session_ids now l = Raise TypeError.
Proof.
  intros Hin Hr Ht. induction l as [|[k' r'] l IH]; [by apply elem_of_nil in Hin|]. cbn [expired_session_ids].
  destruct (session_expired now r') as [b|e] eqn:E; cbn; [|by rewrite (session_expired_naive _ _ _ E)].
  apply elem_of_cons in Hin as [[= <- <-]|Hin]; [|by rewrite (IH Hin)].
  unfold session_expired, iso_le in E. by rewrite Hr, Ht in E.
Qed.

(** One stored session whose deadline carries no time zone, which reading
    the file accepts, makes every session lookup raise [TypeError], whatever
    the secret asked for: the pruning handles malformed deadlines but not
    naive ones. *)
Theorem naive_deadline_blocks_lookups s k r t secret :
  (k, r) ∈ ui_sessions s -> remembered r = false -> fromisoformat (ses_expires_at r) = Some (Naive t) ->
  (find_ui_session_by_secret secret s).1 = Raise TypeError.
Proof.
  intros Hin Hr Ht. unfold find_ui_session_by_secret. rewrite (st_bind_ok datetime_now _ s _ _ eq_refl).
  unfold __prune_expired_ui_sessions. unfold mbind, st_bind, gets, lift. cbn -[expired_session_ids].
  by rewrite (expired_ids_naive _ _ _ _ _ Hin Hr Ht).
Qed.

(** ** The sidecar *)

Lemma validate_deadline_json d : deadline_valid d ->
  exists o, deadline_json d = JObj o /\ __validate_browser_handover_deadline o = Some d.
Proof.
  destruct d as [k v op ex]. intros [Hk (a & b & Ha & Hb & Hab)]. cbn in *. eexists. split; [reflexivity|].
  unfold __validate_browser_handover_deadline.
  match goal with |- context [same_keys ?o _] => set (raw := o) end.
  change (same_keys raw _) with true. change (get_json raw "kind") with (JStr k).
  change (get_json raw "version_sha256") with (JStr v). change (get_json raw "opened_at") with (JStr op).
  change (get_json raw "expires_at") with (JStr ex). cbv iota. rewrite Ha, Hb.
  assert (Hc : bool_decide (k ∈ ["initial"; "recovery"]) && (negb (String.eqb k "initial") || String.eqb v "")
     && (negb (String.eqb k "recovery") || is_hex64 v) = true).
  { destruct Hk as [[-> ->]|[-> ->]]; reflexivity. }
  rewrite Hc. destruct (Z.leb_spec b a); [lia|done].
Qed.

Lemma hex_versions_id l : Forall (fun v => is_hex64 v = true) l -> hex_versions (map JStr l) = Some l.
Proof. induction 1 as [|v l Hv Hl IH]; [done|]. cbn [map hex_versions]. by rewrite Hv, IH. Qed.

Lemma json_ok_deadline d : json_ok (deadline_json d).
Proof.
  apply json_ok_obj. split; [apply (bool_decide_unpack _); vm_compute; exact I|]. by repeat apply Forall_cons_2.
Qed.

(** What is written to the sidecar reads back. *)
Lemma parse_deadline_text h : history_ok h -> parse_deadline (deadline_text h) = Some h.
Proof.
  intros (Hact & Hnd & Hlen & Hhex). destruct h as [a sn]. cbn [active seen_recovery_versions] in *.
  unfold parse_deadline, deadline_text. cbn [active seen_recovery_versions]. rewrite loads_dumps_line.
  2: { apply json_ok_obj. split; [apply (bool_decide_unpack _); vm_compute; exact I|].
       repeat apply Forall_cons_2; cbn [snd]; [destruct a; [apply json_ok_deadline|done]|vm_compute; lia|apply json_ok_strings|done]. }
  match goal with |- context [get_json ?o "schema"] => set (raw := o) end.
  change (get_json raw "schema") with (JInt 2). change (json_is_int 1 (JInt 2)) with false. cbv iota.
  change (same_keys raw ["schema"; "active"; "seen_recovery_versions"]) with true. change (json_is_int 2 (JInt 2)) with true.
  cbn [andb]. change (get_json raw "seen_recovery_versions") with (JArr (map JStr sn)).
  change (get_json raw "active") with (match a with Some d => deadline_json d | None => JNull end).
  assert (Ha : match (match a with Some d => deadline_json d | None => JNull end) with
               | JNull => Some None
               | JObj o => Some <$> __validate_browser_handover_deadline o
               | _ => None end = Some a).
  { destruct a as [d|]; [|done]. destruct (validate_deadline_json d (Hact d eq_refl)) as (o & -> & ->). done. }
  rewrite Ha. cbn [mbind option_bind]. rewrite length_map, (proj2 (Nat.leb_le _ _) Hlen), hex_versions_id by done.
  cbn [mbind option_bind]. by rewrite bool_decide_true.
Qed.

(** The handover window survives a restart: after the sidecar was written,
    a new process whose read succeeds finds exactly the window, with its
    deadline, and the recovery versions that were written, so a restart
    neither extends a window nor forgets a version. *)
Theorem handover_survives_restart p h s u s' fresh r s'' :
  history_ok h -> file_path s = Some p -> p <> "" ->
  __write_browser_handover_deadline h s = (Ok u, s') ->
  fresh = new_store (Some p) (ticks s') (files s') (history s') ->
  disk_fails (ticks fresh) = false ->
  __load_browser_handover_deadline fresh = (r, s'') ->
  r = Ok (Some h) /\ browser_handover_deadline s'' = Some h /\ browser_handover_deadline_invalid s'' = false.
Proof.
  intros Hh Hp Hne Hw -> Hd Hl. unfold __write_browser_handover_deadline in Hw.
  assert (Hpath : forall x, file_path x = Some p ->
    __browser_handover_deadline_path x = Some (path_join (dirname p) __BROWSER_HANDOVER_DEADLINE_NAME)).
  { intros x Hx. unfold __browser_handover_deadline_path. rewrite Hx. by destruct p. }
  rewrite (st_bind_ok (gets _) _ s _ s eq_refl), (Hpath s Hp) in Hw.
  destruct (_BROWSER_HANDOVER_STATE_MAX_BYTES <? _) eqn:Hsize; [done|].
  unfold _write_completed_migration_private_file in Hw. apply st_bind_inv in Hw as (? & s1 & _ & Hw).
  rewrite (st_bind_ok (modify _) _ _ _ _ eq_refl) in Hw.
  pose proof (run_rel _ _ _ _ _ parts_kept_disk Hw) as H. injection H as _ _ _ Hf. cbn [files set_files] in Hf.
  set (fresh := new_store _ _ _ _) in *. assert (Hfresh : file_path (set_browser_handover_deadline_loaded true fresh) = Some p) by done.
  unfold __load_browser_handover_deadline in Hl. rewrite (st_bind_ok (gets _) _ _ _ _ eq_refl) in Hl. change (browser_handover_deadline_loaded fresh) with false in Hl. cbv iota in Hl.
  rewrite (st_bind_ok (modify _) _ _ _ _ eq_refl), (st_bind_ok (gets _) _ _ _ _ eq_refl), (Hpath _ Hfresh) in Hl.
  rewrite (st_bind_ok (gets _) _ _ _ _ eq_refl) in Hl. cbn [mbind option_bind] in Hl.
  change (files (set_browser_handover_deadline_loaded true fresh)) with (files s') in Hl. rewrite Hf, dget_dset_eq in Hl. rewrite (st_bind_ok tick _ _ _ _ eq_refl) in Hl.
  change (ticks (set_browser_handover_deadline_loaded true fresh)) with (ticks fresh) in Hl. rewrite Hd, Hsize in Hl. cbn [orb] in Hl.
  rewrite (parse_deadline_text h Hh) in Hl. rewrite (st_bind_ok (modify _) _ _ _ _ eq_refl) in Hl.
  by injection Hl as <- <-.
Qed.
End file.

(** ** Witnesses *)

#[local] Existing Instance toy.
#[local] Existing Instance toy_laws.


Definition demo_handover : HandoverState := default (mkHandover None []) (browser_handover_deadline demo_recovery).

Lemma handover_survives_restart_witness : exists s' s'',
  __write_browser_handover_deadline demo_handover demo_recovery = (Ok tt, s') /\
  browser_handover_deadline s'' = Some demo_handover.
Proof.
  assert (H : bool_decide (is_Some (browser_handover_deadline demo_recovery)) && bool_decide (file_path demo_recovery = Some demo_path) &&
    match (__write_browser_handover_deadline demo_handover demo_recovery).1 with Ok _ => true | _ => false end = true)
    by (vm_compute; reflexivity).
  apply andb_true_iff in H as [[Hs%bool_decide_eq_true Hp%bool_decide_eq_true]%andb_true_iff H].
  assert (Hh : history_ok demo_handover).
  { destruct Hs as [h Hs]. unfold demo_handover. rewrite Hs. by apply demo_recovery_ok. }
  destruct (__write_browser_handover_deadline demo_handover demo_recovery) as [[[]|e] s'] eqn:E; [|done].
  destruct (__load_browser_handover_deadline (new_store (Some demo_path) (ticks s') (files s') (history s'))) as [r s''] eqn:El.
  exists s', s''. split; [done|].
  exact (proj1 (proj2 (handover_survives_restart demo_path demo_handover demo_recovery tt s' _ r s'' Hh Hp ltac:(done) E eq_refl eq_refl El))).
Defined.

Definition naive_session : UiSessionRecord := mkSession "x" ["read"] "z" "N" false false None None.

Lemma naive_deadline_blocks_lookups_witness :
  (find_ui_session_by_secret "y" (set_ui_sessions [("x", naive_session)] demo)).1 = Raise TypeError.
Proof. apply (naive_deadline_blocks_lookups _ "x" naive_session 0); [left|reflexivity|reflexivity]. Defined.
