(* ===== verification/WebAuth.v ===== *)
(** * Authorisation of requests

    The request checks of [web/web_app.py]: host and origin signals, bearer
    tokens and session cookies, and the gate every [/server] request passes
    before its handler.  The store operations it calls are those of
    [AuthStore], in the same state monad; [bottle.abort] and
    [bottle.redirect] end the request, so the result is a verdict.  The class
    [WebWorld] is [urllib.parse.urlparse] and [ipaddress.ip_address]; the
    request is what [bottle] hands out.  The application has a store. *)

From S2P Require Import Prelude PyDict PyStr Json Config AuthStore.

(** ** What surrounds a request *)

(** The attributes of a parse result; the port may raise [ValueError]. *)
Record Parsed := mkParsed {
  p_scheme : string; p_hostname : option string; p_username : option string; p_password : option string;
  p_path : string; p_params : string; p_query : string; p_fragment : string; p_port : result (option Z) }.

Class WebWorld := {
  urlparse : string -> result Parsed;
  (** [ipaddress.ip_address(text).is_loopback]; [None] is [ValueError] *)
  is_loopback_ip : string -> option bool }.

Record request := mkRequest {
  req_path : string; req_method : string; req_url : string; headers : dict string string;
  cookies : dict string string; remote_addr : option string; url_scheme : option string }.

(** [bottle.request.get_header(name, "")], [get_cookie(name)] *)
Definition get_header (q : request) (name : string) : string := default "" (dget (headers q) name).
Definition get_cookie (q : request) (name : string) : option string := dget (cookies q) name.

(** The configuration of a matched route; [None] where the entry is missing. *)
Record route := mkRoute {
  rule : string; route_scope : option string; allow_sessionless_ui : bool; allow_first_admin_bootstrap : bool;
  allow_bootstrap_proof_exchange : bool; allow_browser_api_key_entry : bool; always_auth : bool }.

Inductive verdict := Granted | Abort (status : Z) | Redirect (location : string).

#[export] Instance verdict_eq_dec : EqDecision verdict.
Proof. solve_decision. Defined.

Definition _AUTH_SCOPES : list string := ["read"; "write"; "stream"; "admin"].
Definition _LEGACY_UNAUTHENTICATED_SCOPES : list string := ["read"; "write"; "stream"].
Definition _UI_SESSION_COOKIE_NAME : string := "seedsync_ui_session".
Definition _BOOTSTRAP_EXCHANGE_COOKIE_NAME : string := "seedsync_bootstrap_exchange".

(** ** Text helpers *)

Definition before_last (c : ascii) (s : string) : string :=
  str (rev (tail (drop_while (fun x => negb (Ascii.eqb x c)) (rev (chars s))))).

Definition is_blank (s : string) : bool := String.eqb (strip s) "".
Definition skip_prefix (n : nat) (s : string) : string := str (drop n (chars s)).

Definition __is_server_path (path : string) : bool := String.eqb path "/server" || startswith path "/server/".

Definition __strip_host_port (host : string) : string :=
  if contains host ":" && negb (startswith host "[") then before_last ":" host
  else if startswith host "[" && contains host "]:" then before_last ":" host
  else host.

Definition __normalize_hostname (host : string) : string :=
  let n := lower (strip host) in
  let n := if endswith n "." then str (removelast (chars n)) else n in
  if startswith n "[" && endswith n "]" then n
  else if contains n ":" then "[" +:+ n +:+ "]"
  else n.

Definition __get_allowed_hostname (config : conf) : string :=
  match general_attr config "allowed_hostname" with Some (VStr v) => v | _ => "" end.

Definition __is_browser_auth_disabled (config : conf) : bool :=
  match general_attr config "disable_browser_auth" with Some (VBool true) => true | _ => false end.

Definition __extract_bearer_token (q : request) : option string :=
  let h := strip (get_header q "Authorization") in
  if startswith h "Bearer " then
    let token := strip (skip_prefix 7 h) in if String.eqb token "" then None else Some token
  else None.

Definition __has_bearer_authorization_header (q : request) : bool :=
  let h := strip (get_header q "Authorization") in String.eqb h "Bearer" || startswith h "Bearer ".

Definition __has_authorization_header (q : request) : bool := negb (is_blank (get_header q "Authorization")).

Definition __request_host (q : request) : string := __normalize_hostname (__strip_host_port (get_header q "Host")).

Definition __request_remote_addr (q : request) : string := strip (default "" (remote_addr q)).

Definition __is_loopback_host (host : string) : bool := bool_decide (host ∈ ["localhost"; "127.0.0.1"; "[::1]"]).

Definition __is_unsafe_request (q : request) : bool := negb (bool_decide (upper (req_method q) ∈ ["GET"; "HEAD"; "OPTIONS"])).

Definition __has_proxy_forwarding_headers (q : request) : bool :=
  existsb (fun name => negb (is_blank (get_header q name))) ["Forwarded"; "X-Forwarded-For"; "X-Forwarded-Host"; "X-Forwarded-Proto"].

Definition __request_forwarded_proto (q : request) : option string :=
  let v := lower (strip (get_header q "X-Forwarded-Proto")) in
  if String.eqb v "" || contains v "," then None
  else if bool_decide (v ∈ ["http"; "https"]) then Some v else None.

Definition blank_host (h : option string) : bool := match h with None => true | Some s => String.eqb s "" end.

Section web.
Context {V : WebWorld}.

Definition origin : Type := string * string * Z.

Definition __is_loopback_remote_addr (q : request) : bool :=
  let a := __request_remote_addr q in
  if String.eqb a "" then false else default false (is_loopback_ip a).

(** [parsed.port], the default for the scheme, or nothing when it is invalid *)
Definition port_of (p : Parsed) (scheme : string) : result (option Z) :=
  match p_port p with
  | Ok (Some z) => Ok (Some z)
  | Ok None => Ok (if String.eqb scheme "http" then Some 80 else if String.eqb scheme "https" then Some 443 else None)
  | Raise ValueError => Ok None
  | Raise e => Raise e
  end.

Definition __parse_origin (raw : string) : result (option origin) :=
  if is_blank raw then Ok None
  else
    p ← urlparse (strip raw);
    if String.eqb (p_scheme p) "" || blank_host (p_hostname p) then Ok None
    else
      let scheme := lower (strip (p_scheme p)) in
      if String.eqb scheme "" then Ok None
      else
        port ← port_of p scheme;
        Ok (match port with Some z => Some (scheme, __normalize_hostname (default "" (p_hostname p)), z) | None => None end).

(** userinfo, path, parameters, query or fragment are present *)
Definition has_extras (p : Parsed) : bool :=
  bool_decide (is_Some (p_username p)) || bool_decide (is_Some (p_password p)) || negb (String.eqb (p_path p) "")
  || negb (String.eqb (p_params p) "") || negb (String.eqb (p_query p) "") || negb (String.eqb (p_fragment p) "").

Definition __parse_browser_origin_header (raw : string) : result (option origin) :=
  if is_blank raw then Ok None
  else if negb (String.eqb raw (strip raw)) then Ok None
  else
    p ← urlparse raw;
    if has_extras p || contains raw "?" || contains raw "#" then Ok None else __parse_origin raw.

Definition __request_origin (q : request) : result (option origin) :=
  if is_blank (req_url q) then Ok None else __parse_origin (req_url q).

Definition __request_forwarded_host (q : request) : result (option string) :=
  let v := strip (get_header q "X-Forwarded-Host") in
  if String.eqb v "" || contains v "," || contains v "://" then Ok None
  else p ← urlparse ("//" +:+ v); Ok (if blank_host (p_hostname p) || has_extras p then None else Some v).

Definition __request_forwarded_origin (q : request) : result (option origin) :=
  host ← __request_forwarded_host q;
  match __request_forwarded_proto q, host with
  | Some proto, Some h =>
      p ← urlparse (proto +:+ "://" +:+ h);
      if String.eqb (p_scheme p) "" || blank_host (p_hostname p) then Ok None
      else if has_extras p then Ok None
      else
        let scheme := lower (strip (p_scheme p)) in
        if bool_decide (scheme ∈ ["http"; "https"]) then
          port ← port_of p scheme;
          Ok (match port with Some z => Some (scheme, __normalize_hostname (default "" (p_hostname p)), z) | None => None end)
        else Ok None
  | _, _ => Ok None
  end.

Definition __effective_request_origin (q : request) : result (option origin) :=
  o ← __request_origin q;
  match o with
  | None => Ok None
  | Some o =>
      f ← __request_forwarded_origin q;
      Ok (Some (default o f))
  end.

Definition __request_local_origin (q : request) : result (option origin) :=
  match url_scheme q with
  | None => Ok None
  | Some sch =>
      let scheme := lower (strip sch) in
      if negb (bool_decide (scheme ∈ ["http"; "https"])) then Ok None
      else let host := get_header q "Host" in
        if is_blank host then Ok None else __parse_origin (scheme +:+ "://" +:+ strip host)
  end.

(** [Origin], else [Referer], must name this origin *)
Definition signals_match (q : request) (o : origin) : result bool :=
  og ← __parse_origin (get_header q "Origin");
  match og with
  | Some og => Ok (bool_decide (og = o))
  | None =>
      rf ← __parse_origin (get_header q "Referer");
      Ok (match rf with Some rf => bool_decide (rf = o) | None => false end)
  end.

Definition __is_direct_same_origin_browser_request (q : request) : result bool :=
  o ← __request_local_origin q;
  match o with None => Ok false | Some o => signals_match q o end.

Definition __is_same_origin_browser_request (q : request) : result bool :=
  o ← __effective_request_origin q;
  match o with
  | None => Ok false
  | Some o =>
      let site := get_header q "Sec-Fetch-Site" in
      if negb (is_blank site) && negb (bool_decide (lower (strip site) ∈ ["same-origin"; "none"])) then Ok false
      else signals_match q o
  end.

(** one browser signal of [__has_hostile_browser_origin_signal] *)
Definition hostile_header (q : request) (o : option origin) (name : string) : result bool :=
  let raw := get_header q name in
  if is_blank raw then Ok false
  else if String.eqb (lower (strip raw)) "null" then Ok true
  else
    parsed ← (if String.eqb name "Origin" then __parse_browser_origin_header raw else __parse_origin raw);
    Ok (match o, parsed with Some o, Some p => negb (bool_decide (p = o)) | _, _ => true end).

Definition __has_hostile_browser_origin_signal (q : request) : result bool :=
  let site := lower (strip (get_header q "Sec-Fetch-Site")) in
  if negb (String.eqb site "") && negb (bool_decide (site ∈ ["same-origin"; "none"])) then Ok true
  else
    o ← __effective_request_origin q;
    h ← hostile_header q o "Origin";
    if h : bool then Ok true else hostile_header q o "Referer".

(** ** Decisions on the store *)

Context {W : AuthWorld}.

Definition __is_browser_handover_open (config : conf) : st ApiKeyStore bool :=
  state ← get_browser_handover_state config; mret (open state).

Definition __allow_first_admin_bootstrap (config : conf) (q : request) : st ApiKeyStore bool :=
  version ← gets (effective_browser_handover_version config);
  can ← can_claim_initial_admin (JStr version) config;
  if can : bool then lift (__is_same_origin_browser_request q) else mret false.

Definition __allow_browser_api_key_entry (q : request) : st ApiKeyStore bool := lift (__is_same_origin_browser_request q).

Definition __allow_sessionless_ui_route (q : request) : st ApiKeyStore bool :=
  admins ← gets active_admin_key_count;
  if (admins =? 0) && __is_loopback_remote_addr q && negb (__has_proxy_forwarding_headers q)
     && __is_loopback_host (__request_host q)
  then lift (__is_direct_same_origin_browser_request q) else mret false.

Definition __allow_bootstrap_proof_exchange (q : request) : st ApiKeyStore bool :=
  admins ← gets active_admin_key_count;
  if negb (admins =? 0) then mret false
  else
    same ← lift (__is_same_origin_browser_request q);
    if negb same then mret false
    else
      match get_cookie q _BOOTSTRAP_EXCHANGE_COOKIE_NAME with
      | None => mret false
      | Some c => if is_blank c then mret false else peek_bootstrap_exchange (JStr (strip c))
      end.

(** [getattr(session, "api_key_id", None)] is truthy *)
Definition has_key_id (session : UiSessionRecord) : bool :=
  match api_key_id session with None | Some "" => false | Some _ => true end.

Definition __get_ui_session (q : request) : st ApiKeyStore (option UiSessionRecord) :=
  match get_cookie q _UI_SESSION_COOKIE_NAME with
  | None => mret None
  | Some secret =>
      if is_blank secret then mret None
      else
        found ← find_ui_session_by_secret secret;
        match found with
        | None => mret None
        | Some session =>
            if has_key_id session then
              s ← gets id;
              key ← lift (resolve_ui_session_api_key session s);
              match key with
              | None => invalidate_ui_session (JStr secret);; mret None
              | Some _ => mret (Some session)
              end
            else if bootstrap session then mret (Some session)
            else invalidate_ui_session (JStr secret);; mret None
        end
  end.

Definition __get_ui_session_scopes (q : request) : st ApiKeyStore (option (list string)) :=
  found ← __get_ui_session q;
  match found with
  | None => mret None
  | Some session =>
      if has_key_id session then
        s ← gets id;
        key ← lift (resolve_ui_session_api_key session s);
        mret (key_scopes <$> key)
      else mret (if bootstrap session then Some (ses_scopes session) else None)
  end.

Definition allowed_by (required : string) (scopes : list string) : bool :=
  bool_decide (required ∈ scopes) || (bool_decide ("admin" ∈ scopes) && bool_decide (required ∈ _AUTH_SCOPES)).

Definition __authorize_scopes (required : string) (scopes : list string) : verdict :=
  if allowed_by required scopes then Granted else Abort 403.

(** a session's scopes, with the browser-origin signal required for writes *)
Definition session_verdict (q : request) (required : string) (scopes : list string) : st ApiKeyStore verdict :=
  same ← (if bool_decide (required ∈ ["write"; "admin"]) then lift (__is_same_origin_browser_request q) else mret true);
  mret (if same : bool then __authorize_scopes required scopes else Abort 403).

(** [allow and check()] *)
Definition allows (flag : bool) (check : st ApiKeyStore bool) : st ApiKeyStore bool := if flag then check else mret false.

(** A request without a bearer token while browser authentication is disabled;
    the early return of the caller leaves this branch unreached. *)
Definition disabled_without_token (config : conf) (q : request) (required : string) (rt : route) : st ApiKeyStore verdict :=
  b1 ← allows (allow_bootstrap_proof_exchange rt) (__allow_bootstrap_proof_exchange q);
  if b1 : bool then mret Granted else
  b2 ← allows (allow_first_admin_bootstrap rt) (__allow_first_admin_bootstrap config q);
  if b2 : bool then mret Granted else
  b3 ← allows (allow_browser_api_key_entry rt) (__allow_browser_api_key_entry q);
  if b3 : bool then mret Granted else
  scopes ← __get_ui_session_scopes q;
  match scopes with
  | Some l => session_verdict q required l
  | None =>
      mret (if allow_first_admin_bootstrap rt || allow_bootstrap_proof_exchange rt || allow_browser_api_key_entry rt
            then Abort 401 else __authorize_scopes required _LEGACY_UNAUTHENTICATED_SCOPES)
  end.

Definition without_token (config : conf) (q : request) (required : string) (rt : route) : st ApiKeyStore verdict :=
  b1 ← allows (allow_bootstrap_proof_exchange rt) (__allow_bootstrap_proof_exchange q);
  if b1 : bool then mret Granted else
  b2 ← allows (allow_first_admin_bootstrap rt) (__allow_first_admin_bootstrap config q);
  if b2 : bool then mret Granted else
  current_session ← __get_ui_session q;
  handover_open ← __is_browser_handover_open config;
  if handover_open && match current_session with Some session => negb (bootstrap session) | None => false end
  then mret (Redirect "/bootstrap")
  else
    scopes ← __get_ui_session_scopes q;
    match scopes with
    | Some l => session_verdict q required l
    | None =>
        b3 ← allows (allow_sessionless_ui rt) (__allow_sessionless_ui_route q);
        if b3 : bool then mret Granted else
        b4 ← allows (allow_browser_api_key_entry rt) (__allow_browser_api_key_entry q);
        mret (if b4 : bool then Granted else Abort 401)
    end.

Definition __authorize_server_route (config : conf) (q : request) (required : string) (rt : route) : st ApiKeyStore verdict :=
  let browser_auth_disabled := __is_browser_auth_disabled config && negb (always_auth rt) in
  if browser_auth_disabled then
    hostile ← (if __is_unsafe_request q then lift (__has_hostile_browser_origin_signal q) else mret false);
    mret (if hostile : bool then Abort 403 else Granted)
  else
    match __extract_bearer_token q with
    | None =>
        let has_authorization_header :=
          if browser_auth_disabled then __has_authorization_header q else __has_bearer_authorization_header q in
        if has_authorization_header then mret (Abort 401)
        else if browser_auth_disabled then disabled_without_token config q required rt
        else without_token config q required rt
    | Some token =>
        record ← find_api_key_by_secret token;
        match record with
        | Some r => mret (if is_revoked r then Abort 403 else __authorize_scopes required (key_scopes r))
        | None => mret (Abort 401)
        end
    end.

(** The hook before every request.  [matched] is what the router answers. *)
Definition __gate_server_request (config : conf) (matched : option route) (q : request) : st ApiKeyStore verdict :=
  if negb (__is_server_path (req_path q)) then mret Granted
  else
    let allowed_hostname := __normalize_hostname (__get_allowed_hostname config) in
    let host := __request_host q in
    if negb (String.eqb allowed_hostname "") && negb (bool_decide (host ∈ ["localhost"; "127.0.0.1"; "[::1]"; allowed_hostname]))
    then mret (Abort 400)
    else
      match matched with
      | None => mret (Abort 404)
      | Some rt =>
          if negb (__is_server_path (rule rt)) then mret (Abort 404)
          else match route_scope rt with
          | None => mret (Abort 404)
          | Some scope =>
              let required := lower (strip scope) in
              if bool_decide (required ∈ _AUTH_SCOPES) then __authorize_server_route config q required rt
              else mret (Abort 404)
          end
      end.

(** The scopes of the streams a request may receive. *)
Definition expand_admin (scopes : list string) : list string :=
  if bool_decide ("admin" ∈ scopes) then scopes ++ _AUTH_SCOPES else scopes.

Definition __request_auth_scopes (config : conf) (q : request) : st ApiKeyStore (list string) :=
  if __is_browser_auth_disabled config then mret _AUTH_SCOPES
  else
    record ← match __extract_bearer_token q with
             | Some token => find_api_key_by_secret token
             | None => mret None
             end;
    match record with
    | Some r =>
        if is_revoked r then
          session_scopes ← __get_ui_session_scopes q; mret (expand_admin (default [] session_scopes))
        else mret (expand_admin (key_scopes r))
    | None => session_scopes ← __get_ui_session_scopes q; mret (expand_admin (default [] session_scopes))
    end.
End web.
