(* ===== verification/WebAuthFacts.v ===== *)
(** * Authorisation is sound

    A request to a server route reaches its handler only on grounds that the
    store backs at that moment: an active key whose scopes suffice, through
    its secret or an unexpired session bound to it, one of the exceptions the
    route declares, or the explicit open mode.  A bootstrap session is never
    grounds for anything. *)

From S2P Require Import Prelude PyDict PyStr Json Config AuthStore AuthFacts AuthToy AuthSteps AuthKeys AuthHandover AuthClaim WebAuth.

Section web.
Context {V : WebWorld} {W : AuthWorld} {L : AuthLaws}.

(** ** The checks leave keys alone and only drop sessions *)

Lemma calm_get_state config : within calm (get_browser_handover_state config).
Proof. unfold get_browser_handover_state. calm_auto. Qed.
Hint Resolve calm_get_state : within.
Lemma calm_handover_open config : within calm (__is_browser_handover_open config).
Proof. unfold __is_browser_handover_open. calm_auto. Qed.
Lemma calm_first_admin config q : within calm (__allow_first_admin_bootstrap config q).
Proof. unfold __allow_first_admin_bootstrap. calm_auto. Qed.
Lemma calm_exchange q : within calm (__allow_bootstrap_proof_exchange q).
Proof. unfold __allow_bootstrap_proof_exchange, peek_bootstrap_exchange. calm_auto. Qed.
Lemma calm_get_session q : within calm (__get_ui_session q).
Proof. unfold __get_ui_session. calm_auto. Qed.
Hint Resolve calm_handover_open calm_first_admin calm_exchange calm_get_session : within.
Lemma calm_allows b m : within calm m -> within calm (allows b m).
Proof. intros H. destruct b; [exact H|apply within_ret; exact _]. Qed.
Hint Resolve calm_allows : within.

(** ** Sessions *)

(** The session has not expired at a moment of this request. *)
Definition unexpired (s : ApiKeyStore) (r : UiSessionRecord) : Prop :=
  remembered r = true \/
  exists n t, (ticks s <= n)%nat /\ fromisoformat (ses_expires_at r) = Some (Aware t) /\ clock n < t.

Lemma sublist_in {V'} (a b : dict string V') k v : a `sublist_of` b -> dget a k = Some v -> (k, v) ∈ b.
Proof. intros Hs H%dget_Some_elem_of. by eapply elem_of_sublist. Qed.

Lemma find_session_run secret s r s' : find_ui_session_by_secret secret s = (Ok (Some r), s') ->
  (secret, r) ∈ ui_sessions s /\ unexpired s r.
Proof.
  unfold find_ui_session_by_secret. rewrite (st_bind_ok datetime_now _ s _ _ eq_refl). intros ([] & s1 & E1 & E)%st_bind_inv.
  pose proof (run_rel calm _ _ _ _ (calm_prune_sessions _) E1) as (_ & _ & Hsub). cbn [ui_sessions set_ticks] in Hsub.
  rewrite (st_bind_ok (gets _) _ s1 _ s1 eq_refl) in E. destruct (dget (ui_sessions s1) secret) as [r'|] eqn:Ed; [|done].
  destruct (remembered r') eqn:Hr.
  - injection E as <- _. split; [by eapply sublist_in|by left].
  - unfold iso_le in E. destruct (fromisoformat (ses_expires_at r')) as [[t|t]|] eqn:Et; [done| |done].
    destruct (Z.leb_spec t (clock (ticks s))); [done|]. injection E as <- _.
    split; [by eapply sublist_in|]. right. exists (ticks s), t. split; [lia|done].
Qed.

(** What a resolved session stands for. *)
Lemma resolve_run session s r : resolve_ui_session_api_key session s = Ok (Some r) ->
  r ∈ api_keys s /\ is_revoked r = false /\ api_key_id session = Some (key_id r) /\ api_key_secret_hash session = Some (secret_hash r).
Proof.
  unfold resolve_ui_session_api_key. destruct (api_key_id session) as [id|]; [|done].
  destruct (api_key_secret_hash session) as [h|]; [|done]. destruct (_ || _); [done|].
  destruct (get_api_key id s) as [k|] eqn:Ek; [|done]. apply get_api_key_in in Ek as [Hin <-].
  destruct (is_revoked k) eqn:Hr; [done|]. unfold compare_digest. destruct (_ && _); [|done]. cbn [mbind result_bind].
  destruct (String.eqb_spec (secret_hash k) h) as [<-|]; [|done]. by intros [= <-].
Qed.

Lemma get_session_run q s session s' : __get_ui_session q s = (Ok (Some session), s') ->
  exists secret, get_cookie q _UI_SESSION_COOKIE_NAME = Some secret /\ (secret, session) ∈ ui_sessions s /\ unexpired s session /\
    (has_key_id session = true \/ bootstrap session = true).
Proof.
  unfold __get_ui_session. destruct (get_cookie q _UI_SESSION_COOKIE_NAME) as [secret|]; [|done].
  destruct (is_blank secret); [done|]. intros (found & s1 & E1 & E)%st_bind_inv. destruct found as [session'|]; [|done].
  destruct (find_session_run _ _ _ _ E1) as [Hin Hex]. exists secret. split; [done|].
  destruct (has_key_id session') eqn:Hk.
  - rewrite (st_bind_ok (gets _) _ s1 _ s1 eq_refl) in E. apply st_bind_inv in E as (key & s2 & E2 & E).
    destruct key as [r|]; [injection E as <- _; tauto|]. apply st_bind_inv in E as (? & ? & _ & E). done.
  - destruct (bootstrap session') eqn:Hb; [injection E as <- _; tauto|]. apply st_bind_inv in E as (? & ? & _ & E). done.
Qed.

(** The scopes of the cookie's session are those of its key, or a bootstrap
    session's own. *)
Lemma session_scopes_run q s l s' : __get_ui_session_scopes q s = (Ok (Some l), s') ->
  exists secret session, get_cookie q _UI_SESSION_COOKIE_NAME = Some secret /\ (secret, session) ∈ ui_sessions s /\
    unexpired s session /\
    ((exists r, r ∈ api_keys s /\ is_revoked r = false /\ api_key_id session = Some (key_id r) /\
        api_key_secret_hash session = Some (secret_hash r) /\ l = key_scopes r) \/
     (bootstrap session = true /\ l = ses_scopes session)).
Proof.
  unfold __get_ui_session_scopes. intros (found & s1 & E1 & E)%st_bind_inv. destruct found as [session|]; [|done].
  destruct (get_session_run _ _ _ _ E1) as (secret & Hc & Hin & Hex & _). exists secret, session. split_and!; try done.
  pose proof (run_rel calm _ _ _ _ (calm_get_session q) E1) as (Hk & _ & _).
  destruct (has_key_id session).
  - rewrite (st_bind_ok (gets _) _ s1 _ s1 eq_refl) in E. unfold id in E. apply st_bind_inv in E as (key & s2 & E2 & E).
    injection E as E _. destruct key as [r|]; [|done]. injection E as <-. left. exists r.
    unfold lift in E2. injection E2 as E2 _. apply resolve_run in E2 as (Hr & Ha & Hi & Hh). by rewrite Hk in Hr.
  - injection E as E _. destruct (bootstrap session); [|done]. injection E as <-. by right.
Qed.

(** ** Grounds for a request *)

Definition key_grants (required : string) (r : ApiKeyRecord) : Prop :=
  is_revoked r = false /\ (required ∈ key_scopes r \/ "admin" ∈ key_scopes r).

Inductive grounds (config : conf) (q : request) (required : string) (rt : route) (s : ApiKeyStore) : Prop :=
  (** the open compatibility mode, for a request that is not a hostile write *)
  | ByOpenMode :
      __is_browser_auth_disabled config = true -> always_auth rt = false ->
      (__is_unsafe_request q = true -> __has_hostile_browser_origin_signal q = Ok false) -> grounds config q required rt s
  (** the secret of an active key whose scopes suffice *)
  | ByToken token r :
      __extract_bearer_token q = Some token -> r ∈ api_keys s -> _verify_secret token (secret_hash r) = Ok true ->
      key_grants required r -> grounds config q required rt s
  (** an unexpired session bound to an active key, as it now is, whose scopes suffice *)
  | BySession secret session r :
      get_cookie q _UI_SESSION_COOKIE_NAME = Some secret -> (secret, session) ∈ ui_sessions s -> unexpired s session ->
      r ∈ api_keys s -> api_key_id session = Some (key_id r) -> api_key_secret_hash session = Some (secret_hash r) ->
      key_grants required r ->
      (required ∈ ["write"; "admin"] -> __is_same_origin_browser_request q = Ok true) -> grounds config q required rt s
  (** what the route itself allows *)
  | ByExchange :
      allow_bootstrap_proof_exchange rt = true -> active_admin_key_count s = 0 ->
      __is_same_origin_browser_request q = Ok true -> grounds config q required rt s
  | ByHandover s1 s2 version :
      allow_first_admin_bootstrap rt = true -> calm s s1 ->
      can_claim_initial_admin (JStr version) config s1 = (Ok true, s2) ->
      __is_same_origin_browser_request q = Ok true -> grounds config q required rt s
  | BySessionless :
      allow_sessionless_ui rt = true -> active_admin_key_count s = 0 -> __is_loopback_remote_addr q = true ->
      __has_proxy_forwarding_headers q = false -> __is_direct_same_origin_browser_request q = Ok true ->
      grounds config q required rt s
  | ByKeyEntry :
      allow_browser_api_key_entry rt = true -> __is_same_origin_browser_request q = Ok true -> grounds config q required rt s.

Lemma allowed_by_spec required l : allowed_by required l = true -> required ∈ l \/ "admin" ∈ l.
Proof.
  unfold allowed_by. intros [H|H]%orb_true_iff; [left; by apply bool_decide_eq_true in H|].
  apply andb_true_iff in H as [H _]. right. by apply bool_decide_eq_true in H.
Qed.

Lemma calm_grounds config q required rt s s' : calm s s' -> grounds config q required rt s' -> grounds config q required rt s.
Proof.
  intros Hc Hg. pose proof Hc as (Hk & Ht & Hs). destruct Hg as
    [H1 H2 H3|token r H1 H2 H3 H4|secret ses r H1 H2 H3 H4 H5 H6 H7 H8|H1 H2 H3|s1 s2 v H1 H2 H3 H4|H1 H2 H3 H4 H5|H1 H2].
  - by apply ByOpenMode.
  - rewrite Hk in H2. by eapply ByToken.
  - rewrite Hk in H4. eapply BySession; try done; [by eapply elem_of_sublist|].
    destruct H3 as [H3|(n & t & Hn & H3)]; [by left|right; exists n, t; split; [lia|done]].
  - apply ByExchange; try done. unfold active_admin_key_count in *. by rewrite Hk in H2.
  - apply (ByHandover _ _ _ _ _ s1 s2 v); try done. by transitivity s'.
  - apply BySessionless; try done. unfold active_admin_key_count in *. by rewrite Hk in H2.
  - by apply ByKeyEntry.
Qed.

Lemma verdict_granted required l : __authorize_scopes required l = Granted -> required ∈ l \/ "admin" ∈ l.
Proof. unfold __authorize_scopes. destruct (allowed_by required l) eqn:E; [|done]. intros _. by apply allowed_by_spec. Qed.

(** A session that is let through is one of a key: a bootstrap session has
    no scope a route asks for. *)
Lemma session_grounds config q required rt s l s1 s2 : store_ok s -> required ∈ _AUTH_SCOPES ->
  __get_ui_session_scopes q s = (Ok (Some l), s1) -> session_verdict q required l s1 = (Ok Granted, s2) ->
  grounds config q required rt s.
Proof.
  intros Hok Hreq Hl Hv. destruct (session_scopes_run _ _ _ _ Hl) as (secret & session & Hc & Hin & Hex & Hwho).
  unfold session_verdict in Hv. apply st_bind_inv in Hv as (same & s3 & E & Hv). injection Hv as Hv _.
  destruct same; [|done]. apply verdict_granted in Hv.
  assert (Hsame : required ∈ ["write"; "admin"] -> __is_same_origin_browser_request q = Ok true).
  { intros Hw. rewrite bool_decide_true in E by done. unfold lift in E. by injection E. }
  destruct Hwho as [(r & Hr & Ha & Hi & Hh & ->)|[Hb ->]]; [by eapply BySession|]. exfalso.
  pose proof (ok_sessions _ Hok) as Hs. rewrite Forall_forall in Hs. destruct (Hs _ Hin) as (_ & _ & Hbs).
  cbn in Hbs. rewrite (Hbs Hb) in Hv. destruct Hv as [Hv|Hv]; apply list_elem_of_singleton in Hv; [|done]. subst required.
  by apply (bool_decide_eq_true_2 _) in Hreq.
Qed.

Lemma exchange_grounds config q required rt s s' :
  allows (allow_bootstrap_proof_exchange rt) (__allow_bootstrap_proof_exchange q) s = (Ok true, s') -> grounds config q required rt s.
Proof.
  unfold allows. destruct (allow_bootstrap_proof_exchange rt) eqn:Ef; [|done]. unfold __allow_bootstrap_proof_exchange.
  rewrite (st_bind_ok (gets _) _ s _ s eq_refl). destruct (Z.eqb_spec (active_admin_key_count s) 0); [|done]. cbn [negb].
  intros (same & s1 & E1 & E)%st_bind_inv. destruct same; [|done]. unfold lift in E1. injection E1 as E1 _. by apply ByExchange.
Qed.

Lemma handover_grounds config q required rt s s' :
  allows (allow_first_admin_bootstrap rt) (__allow_first_admin_bootstrap config q) s = (Ok true, s') -> grounds config q required rt s.
Proof.
  unfold allows. destruct (allow_first_admin_bootstrap rt) eqn:Ef; [|done]. unfold __allow_first_admin_bootstrap.
  rewrite (st_bind_ok (gets _) _ s _ s eq_refl). intros (can & s1 & E1 & E)%st_bind_inv. destruct can; [|done].
  unfold lift in E. injection E as E _. by eapply ByHandover.
Qed.

Lemma sessionless_grounds config q required rt s s' :
  allows (allow_sessionless_ui rt) (__allow_sessionless_ui_route q) s = (Ok true, s') -> grounds config q required rt s.
Proof.
  unfold allows. destruct (allow_sessionless_ui rt) eqn:Ef; [|done]. unfold __allow_sessionless_ui_route.
  rewrite (st_bind_ok (gets _) _ s _ s eq_refl). destruct (_ && _ && _ && _) eqn:E; [|done].
  apply andb_true_iff in E as [[[E1 E2]%andb_true_iff E3]%andb_true_iff E4]. unfold lift. intros [= E _].
  apply BySessionless; try done; [lia|by apply negb_true_iff in E3].
Qed.

Lemma entry_grounds config q required rt s s' :
  allows (allow_browser_api_key_entry rt) (__allow_browser_api_key_entry q) s = (Ok true, s') -> grounds config q required rt s.
Proof.
  unfold allows. destruct (allow_browser_api_key_entry rt) eqn:Ef; [|done]. unfold __allow_browser_api_key_entry, lift.
  intros [= E _]. by apply ByKeyEntry.
Qed.

Lemma calm_scopes q : within calm (__get_ui_session_scopes q).
Proof. unfold __get_ui_session_scopes. calm_auto. Qed.
Lemma calm_sessionless q : within calm (__allow_sessionless_ui_route q).
Proof. unfold __allow_sessionless_ui_route. calm_auto. Qed.
Hint Resolve calm_scopes calm_sessionless : within.

Lemma store_ok_calm s s' : calm s s' -> store_ok s -> store_ok s'.
Proof. intros H. apply store_ok_step. by apply StepCalm. Qed.

Lemma without_token_sound config q required rt s s' : store_ok s -> required ∈ _AUTH_SCOPES ->
  without_token config q required rt s = (Ok Granted, s') -> grounds config q required rt s.
Proof.
  intros Hok Hreq E. unfold without_token in E.
  apply st_bind_inv in E as (b1 & s1 & E1 & E). destruct b1; [by eapply exchange_grounds|].
  assert (C1 : calm s s1) by (eapply run_rel, E1; auto with within).
  apply st_bind_inv in E as (b2 & s2 & E2 & E). destruct b2; [by eapply calm_grounds, handover_grounds, E2|].
  assert (C2 : calm s1 s2) by (eapply run_rel, E2; auto with within).
  apply st_bind_inv in E as (cur & s3 & E3 & E). apply st_bind_inv in E as (ho & s4 & E4 & E).
  assert (C4 : calm s s4).
  { etransitivity; [exact C1|]. etransitivity; [exact C2|]. etransitivity; eapply run_rel; try eassumption; auto with within. }
  apply (calm_grounds _ _ _ _ _ _ C4). pose proof (store_ok_calm _ _ C4 Hok) as Hok4.
  destruct (ho && _); [done|]. apply st_bind_inv in E as (scopes & s5 & E5 & E).
  destruct scopes as [l|]; [by eapply session_grounds|].
  assert (C5 : calm s4 s5) by (eapply run_rel, E5; auto with within). apply (calm_grounds _ _ _ _ _ _ C5).
  apply st_bind_inv in E as (b3 & s6 & E6 & E). destruct b3; [by eapply sessionless_grounds|].
  assert (C6 : calm s5 s6) by (eapply run_rel, E6; auto with within). apply (calm_grounds _ _ _ _ _ _ C6).
  apply st_bind_inv in E as (b4 & s7 & E7 & E). destruct b4; [by eapply entry_grounds|done].
Qed.

End web.

(** ** Witness *)

#[local] Existing Instance toy.
#[local] Existing Instance toy_laws.

Definition plain_web : WebWorld := {|
  urlparse _ := Ok (mkParsed "http" (Some "localhost") None None "" "" "" "" (Ok None));
  is_loopback_ip _ := Some true |}.
#[local] Existing Instance plain_web.

Definition demo_route : route := mkRoute "/server/status" (Some "read") false false false false false.
Definition demo_request : request :=
  mkRequest "/server/status" "GET" "http://localhost/server/status" [("Authorization", "Bearer " +:+ numeral "t" 0)] [] None None.

