(* ===== verification/AdminApi.v ===== *)
(** * The administration API

    [web/handler/admin.py]: the handlers for keys, the first administrator,
    the bootstrap exchange and remembered browsers, over the store's
    operations.  A response is its status, its JSON body and the cookies it
    sets; the text of an error message is not modelled.  An exception that no
    handler catches propagates to the web server. *)

From S2P Require Import Prelude PyDict PyStr Json Config AuthStore AuthFacts AuthToy AuthSteps AuthKeys WebAuth.

Inductive cookie :=
  | SetCookie (name value : string) (secure : bool) (max_age : Z)
  | DeleteCookie (name : string).

Inductive response :=
  | RJson (status : Z) (body : json) (cookies : list cookie)
  | RError (status : Z)
  | REmpty (status : Z).

Definition status_of (r : response) : Z := match r with RJson st _ _ | RError st | REmpty st => st end.

(** The body as decoded from UTF-8, and what [bottle] says of the URL. *)
Record call := mkCall { call_request : request; call_body : option string; call_scheme : string; call_query : dict string string }.

Definition __secure_browser_cookie (c : call) : bool :=
  let forwarded := lower (strip (get_header (call_request c) "X-Forwarded-Proto")) in
  if bool_decide (forwarded ∈ ["http"; "https"]) then String.eqb forwarded "https"
  else String.eqb (lower (call_scheme c)) "https".

Definition __load_request_json (c : call) : result (dict string json) :=
  match call_body c with
  | None => Raise ValueError
  | Some raw =>
      if is_blank raw then Ok []
      else match loads raw with
           | None => Raise ValueError
           | Some (JObj o) => Ok o
           | Some _ => Raise ValueError
           end
  end.

Definition _is_string_list (v : json) : bool :=
  match v with JArr l => forallb (fun x => match x with JStr _ => true | _ => false end) l | _ => false end.

Definition is_string (v : json) : bool := match v with JStr _ => true | _ => false end.

Definition __query_flag (c : call) (name : string) : bool :=
  match dget (call_query c) name with
  | None => false
  | Some v => bool_decide (lower (strip v) ∈ ["1"; "true"; "yes"; "on"])
  end.

(** [try: m  except E: answer e], for the exceptions the handler names *)
Definition handle (answer : exn -> option response) (m : st ApiKeyStore response) : st ApiKeyStore response := fun s =>
  match m s with
  | (Ok r, s') => (Ok r, s')
  | (Raise e, s') => match answer e with Some r => (Ok r, s') | None => (Raise e, s') end
  end.

Definition bad_request (e : exn) : option response :=
  match e with TypeError | ValueError => Some (RError 400) | _ => None end.

(** [KeyError] is 404, [ValueError] is 400 *)
Definition missing_or_bad (e : exn) : option response :=
  match e with KeyError => Some (RError 404) | ValueError => Some (RError 400) | _ => None end.

Section admin.
Context {W : AuthWorld}.

Definition session_cookie (c : call) (r : UiSessionRecord) (age : Z) : cookie :=
  SetCookie _UI_SESSION_COOKIE_NAME (ses_secret r) (__secure_browser_cookie c) age.

(** ** First run *)

Definition __handle_exchange_bootstrap_proof (c : call) : st ApiKeyStore response :=
  admins ← gets active_admin_key_count;
  if 0 <? admins then mret (RError 409)
  else handle bad_request (
    data ← lift (__load_request_json c);
    match default (JStr "") (dget data "proof") with
    | JStr p =>
        if is_blank p then mret (RError 400)
        else
          let proof := JStr (strip p) in
          let exchange := match get_cookie (call_request c) _BOOTSTRAP_EXCHANGE_COOKIE_NAME with Some v => JStr v | None => JNull end in
          ok1 ← peek_bootstrap_exchange exchange;
          if negb ok1 then mret (RError 401) else
          ok2 ← peek_bootstrap_proof proof;
          if negb ok2 then mret (RError 401) else
          ok3 ← consume_bootstrap_exchange exchange;
          if negb ok3 then mret (RError 401) else
          ok4 ← consume_bootstrap_proof proof;
          if negb ok4 then mret (RError 401) else
          session ← create_ui_session (JArr [JStr "bootstrap"]) (JBool true) JNull JNull (JBool false);
          age ← lift (cookie_max_age_seconds session);
          mret (RJson 200 (JObj [("expires_at", JStr (ses_expires_at session))])
            [DeleteCookie _BOOTSTRAP_EXCHANGE_COOKIE_NAME; session_cookie c session age])
    | _ => mret (RError 400)
    end).

Definition payload_json (p : HandoverPayload) : json := JObj [
  ("configured_version", JStr (configured_version p)); ("claimed_version", JStr (payload_claimed_version p));
  ("open", JBool (open p)); ("window_type", opt_json (window_type p)); ("opened_at", opt_json (payload_opened_at p));
  ("expires_at", opt_json (payload_expires_at p)); ("remaining_seconds", JInt (remaining_seconds p));
  ("expired", JBool (expired p)); ("state_invalid", JBool (state_invalid p));
  ("recovery_version_closed", JBool (recovery_version_closed p)); ("recovery_history_full", JBool (recovery_history_full p))].

(** Without a pending migration claim no transaction is begun. *)
Definition __handle_bootstrap_first_api_key (config : conf) (c : call) : st ApiKeyStore response :=
  handle (fun e => match e with OSError | TypeError | ValueError => Some (RError 400) | _ => None end) (
    version ← gets (effective_browser_handover_version config);
    data ← lift (__load_request_json c);
    let name := default (JStr "bootstrap-admin") (dget data "name") in
    if negb (is_string name) then raise ValueError
    else
      created ← create_initial_admin_api_key_if_available (JStr version) name;
      match created with
      | None => mret (RError 409)
      | Some (record, secret) =>
          session ← create_remembered_browser_session_for_api_key (JStr (key_id record));
          state ← get_browser_handover_state config;
          age ← lift (cookie_max_age_seconds session);
          mret (RJson 201 (JObj [("key", to_public_dict record); ("secret", JStr secret); ("browser_handover", payload_json state)])
            [session_cookie c session age])
      end).

Definition __handle_remember_browser_session (config : conf) (c : call) : st ApiKeyStore response :=
  handle (fun e => match e with TypeError | ValueError | KeyError => Some (RError 400) | _ => None end) (
    data ← lift (__load_request_json c);
    match default (JStr "") (dget data "secret") with
    | JStr secret =>
        if is_blank secret then mret (RError 400)
        else
          record ← find_api_key_by_secret (strip secret);
          match record with
          | None => mret (RError 401)
          | Some r =>
              if is_revoked r then mret (RError 403)
              else
                session ← create_remembered_browser_session_for_api_key (JStr (key_id r));
                state ← get_browser_handover_state config;
                age ← lift (cookie_max_age_seconds session);
                mret (RJson 201 (JObj [("key", to_public_dict r); ("browser_handover", payload_json state);
                    ("remembered", JBool true);
                    ("expires_at", if String.eqb (ses_expires_at session) "" then JNull else JStr (ses_expires_at session));
                    ("cookie_max_age_seconds", JInt age)])
                  [session_cookie c session age])
          end
    | _ => mret (RError 400)
    end).

(** ** Keys *)

(** the session named by the cookie, when no bearer token identified a key *)
Definition session_key_id (q : request) : st ApiKeyStore (option string) :=
  match get_cookie q _UI_SESSION_COOKIE_NAME with
  | None => mret None
  | Some v =>
      if is_blank v then mret None
      else
        session ← find_ui_session_by_secret (strip v);
        match session with
        | None => mret None
        | Some session =>
            s ← gets id;
            key ← lift (resolve_ui_session_api_key session s);
            mret (key_id <$> key)
        end
  end.

Definition __current_api_key_id (q : request) : st ApiKeyStore (option string) :=
  match __extract_bearer_token q with
  | Some token =>
      record ← find_api_key_by_secret token;
      match record with
      | Some r => if is_revoked r then session_key_id q else mret (Some (key_id r))
      | None => session_key_id q
      end
  | None => session_key_id q
  end.

Definition __handle_list_api_keys (c : call) : st ApiKeyStore response :=
  keys ← gets (list_api_keys (__query_flag c "include_revoked"));
  current ← __current_api_key_id (call_request c);
  mret (RJson 200 (JObj [("keys", JArr keys); ("current_key_id", opt_json current)]) []).

Definition key_body (r : ApiKeyRecord) : json := JObj [("key", to_public_dict r)].
Definition key_secret_body (r : ApiKeyRecord) (secret : string) : json :=
  JObj [("key", to_public_dict r); ("secret", JStr secret)].

Definition __handle_create_api_key (c : call) : st ApiKeyStore response :=
  handle bad_request (
    data ← lift (__load_request_json c);
    let name := default (JStr "") (dget data "name") in
    let scopes := default (JArr []) (dget data "scopes") in
    if negb (is_string name) then raise ValueError
    else if negb (_is_string_list scopes) then raise ValueError
    else
      created ← create_api_key name scopes;
      mret (RJson 201 (key_secret_body created.1 created.2) [])).

Definition __handle_update_api_key (id : string) (c : call) : st ApiKeyStore response :=
  handle (fun e => match e with TypeError => Some (RError 400) | _ => missing_or_bad e end) (
    data ← lift (__load_request_json c);
    let scopes := get_json data "scopes" in
    if given scopes && negb (_is_string_list scopes) then raise ValueError
    else
      record ← update_api_key id (get_json data "name") scopes;
      mret (RJson 200 (key_body record) [])).

Definition __handle_delete_api_key (id : string) : st ApiKeyStore response :=
  handle missing_or_bad (delete_api_key id;; mret (REmpty 204)).

Definition __handle_revoke_api_key (id : string) : st ApiKeyStore response :=
  handle missing_or_bad (record ← revoke_api_key id; mret (RJson 200 (key_body record) [])).

Definition __handle_rotate_api_key (id : string) : st ApiKeyStore response :=
  handle missing_or_bad (r ← rotate_api_key id; mret (RJson 200 (key_secret_body r.1 r.2) [])).
End admin.

(** ** A refused update *)

Section refused.
Context {W : AuthWorld}.

Lemma get_upd_key id f s r : (forall x, key_id (f x) = key_id x) -> get_api_key id s = Some r ->
  get_api_key id (set_api_keys (upd_key id f (api_keys s)) s) = Some (f r).
Proof.
  intros Hf. unfold get_api_key. cbn [api_keys set_api_keys]. induction (api_keys s) as [|x l IH]; [done|].
  cbn [List.find upd_key]. destruct (String.eqb (key_id x) id) eqn:E; cbn [List.find].
  - intros [= <-]. by rewrite Hf, E.
  - intros H. rewrite E. by apply IH.
Qed.

End refused.

#[local] Existing Instance toy.
#[local] Existing Instance toy_laws.

Definition rename_call : call :=
  mkCall (mkRequest "/server/admin/api-keys/v1/x" "PUT" "" [] [] None None)
    (Some (dumps Spaced (JObj [("name", JStr "renamed"); ("scopes", JArr [JStr "bogus"])]))) "http" [].

