(* ===== verification/Regex.v ===== *)
(** * Regular expressions

    The part of Python's [re] that the parsers use, as a backtracking matcher:
    character classes, greedy and lazy repetition of a class, alternatives in
    order of preference, optional parts, named groups, backreferences and the
    zero-width tests.  A position in the text is a zipper: the characters
    before it, in reverse, and those after it.

    The reference definition is [outs], the list of all ways to match, in
    order of preference; [run_outs] says that the matcher returns the first of
    them its continuation accepts, and the [elem_of_outs_*] lemmas say which
    ways there are. *)

From S2P Require Import Prelude PyStr.

Definition text : Type := list ascii.
Definition caps : Type := list (string * text).

Inductive regex :=
  | Eps
  | Cls (p : ascii -> bool)
  | Seq (a b : regex)
  | Alt (a b : regex)
  | Star (p : ascii -> bool)
  | Lazy (p : ascii -> bool)
  | Grp (n : string) (a : regex)
  | Back (n : string)
  | Bos
  | Eos
  | WordB
  | NotAfter (p : ascii -> bool)
  | NotBefore (p : ascii -> bool).

(** ** Characters and derived forms *)

Definition newline : ascii := chr 10.

(** [.] *)
Definition any (c : ascii) : bool := negb (Ascii.eqb c newline).

(** [\w]: letters and numbers of Latin-1, and the underscore *)
Definition is_word (c : ascii) : bool :=
  let n := ord c in
  is_digit c || ((65 <=? n) && (n <=? 90)) || ((97 <=? n) && (n <=? 122)) || (n =? 95) ||
  bool_decide (n ∈ [170; 178; 179; 181; 185; 186; 188; 189; 190]) ||
  ((192 <=? n) && negb ((n =? 215) || (n =? 247))).

Definition one_of (l : text) (c : ascii) : bool := bool_decide (c ∈ l).

Definition cat (l : list regex) : regex := fold_right Seq Eps l.

Fixpoint lits (l : text) (r : regex) : regex :=
  match l with [] => r | c :: l' => Seq (Cls (Ascii.eqb c)) (lits l' r) end.

(** The text [s] itself *)
Definition Lit (s : string) : regex := lits (chars s) Eps.

Definition Plus (p : ascii -> bool) : regex := Seq (Cls p) (Star p).
Definition Opt (a : regex) : regex := Alt a Eps.

Fixpoint Alts (l : list regex) : regex :=
  match l with [] => Cls (fun _ => false) | [a] => a | a :: l' => Alt a (Alts l') end.

Fixpoint Times (n : nat) (p : ascii -> bool) : regex :=
  match n with O => Eps | S n => Seq (Cls p) (Times n p) end.

(** ** The matcher *)

Definition lookup_cap (c : caps) (n : string) : option text :=
  snd <$> List.find (fun kv => String.eqb kv.1 n) c.

(** What was read between two positions *)
Definition between (b b' : text) : text := rev (take (length b' - length b) b').

(** A literal prefix, character by character *)
Fixpoint skip_lit (l b s : text) : option (text * text) :=
  match l with
  | [] => Some (b, s)
  | x :: l' =>
      match s with
      | y :: s' => if Ascii.eqb x y then skip_lit l' (y :: b) s' else None
      | [] => None
      end
  end.

Definition at_end (s : text) : bool :=
  match s with [] => true | [c] => Ascii.eqb c newline | _ => false end.

Definition word_at (l : text) : bool := match l with c :: _ => is_word c | [] => false end.
Definition starts (p : ascii -> bool) (l : text) : bool := match l with c :: _ => p c | [] => false end.

(** tried in this order, the second only if the first fails *)
Notation orelse a b := (match a with Some x => Some x | None => b end) (only parsing).

Section run.
Context {X : Type}.

Definition kont : Type := text -> text -> caps -> option X.


Fixpoint run_star (p : ascii -> bool) (b s : text) (c : caps) (k : kont) : option X :=
  match s with
  | x :: s' => if p x then orelse (run_star p (x :: b) s' c k) (k b s c) else k b s c
  | [] => k b s c
  end.

Fixpoint run_lazy (p : ascii -> bool) (b s : text) (c : caps) (k : kont) : option X :=
  match s with
  | x :: s' => if p x then orelse (k b s c) (run_lazy p (x :: b) s' c k) else k b s c
  | [] => k b s c
  end.

Fixpoint run (r : regex) (b s : text) (c : caps) (k : kont) : option X :=
  match r with
  | Eps => k b s c
  | Cls p => match s with x :: s' => if p x then k (x :: b) s' c else None | [] => None end
  | Seq r1 r2 => run r1 b s c (fun b s c => run r2 b s c k)
  | Alt r1 r2 => orelse (run r1 b s c k) (run r2 b s c k)
  | Star p => run_star p b s c k
  | Lazy p => run_lazy p b s c k
  | Grp n r => run r b s c (fun b' s' c' => k b' s' ((n, between b b') :: c'))
  | Back n =>
      match lookup_cap c n with
      | Some t => match skip_lit t b s with Some (b', s') => k b' s' c | None => None end
      | None => None
      end
  | Bos => match b with [] => k b s c | _ => None end
  | Eos => if at_end s then k b s c else None
  | WordB => if xorb (word_at b) (word_at s) then k b s c else None
  | NotAfter p => if starts p b then None else k b s c
  | NotBefore p => if starts p s then None else k b s c
  end.
End run.

(** ** Entry points *)

Record mtch := mkMatch { m_before : text; m_rest : text; m_caps : caps }.

(** [m.group(n)] *)
Definition group (m : mtch) (n : string) : option string := str <$> lookup_cap (m_caps m) n.
(** [m.group(n)] of a group that every match sets *)
Definition group_ (m : mtch) (n : string) : string := default "" (group m n).

Definition accept : kont := fun b s c => Some (mkMatch b s c).
Definition accept_all : kont := fun b s c => match s with [] => Some (mkMatch b s c) | _ => None end.

(** [pattern.match] at a position *)
Definition match_at (r : regex) (b s : text) : option mtch := run r b s [] accept.

Definition re_match (r : regex) (s : string) : option mtch := match_at r [] (chars s).
Definition re_fullmatch (r : regex) (s : string) : option mtch := run r [] (chars s) [] accept_all.

Fixpoint search_from (r : regex) (b s : text) : option mtch :=
  match match_at r b s with
  | Some m => Some m
  | None => match s with x :: s' => search_from r (x :: b) s' | [] => None end
  end.

Definition re_search (r : regex) (s : string) : option mtch := search_from r [] (chars s).

Definition is_match (r : regex) (s : string) : bool := match re_match r s with Some _ => true | None => false end.
Definition is_found (r : regex) (s : string) : bool := match re_search r s with Some _ => true | None => false end.


(** ** All ways to match, in order of preference *)

Definition out : Type := text * text * caps.

Fixpoint first {A B} (k : A -> option B) (l : list A) : option B :=
  match l with [] => None | a :: l' => match k a with Some x => Some x | None => first k l' end end.

Fixpoint outs_star (p : ascii -> bool) (b s : text) (c : caps) : list out :=
  match s with
  | x :: s' => if p x then outs_star p (x :: b) s' c ++ [(b, s, c)] else [(b, s, c)]
  | [] => [(b, s, c)]
  end.

Fixpoint outs_lazy (p : ascii -> bool) (b s : text) (c : caps) : list out :=
  match s with
  | x :: s' => if p x then (b, s, c) :: outs_lazy p (x :: b) s' c else [(b, s, c)]
  | [] => [(b, s, c)]
  end.

Fixpoint outs (r : regex) (b s : text) (c : caps) : list out :=
  match r with
  | Eps => [(b, s, c)]
  | Cls p => match s with x :: s' => if p x then [(x :: b, s', c)] else [] | [] => [] end
  | Seq r1 r2 => concat (map (fun '(b', s', c') => outs r2 b' s' c') (outs r1 b s c))
  | Alt r1 r2 => outs r1 b s c ++ outs r2 b s c
  | Star p => outs_star p b s c
  | Lazy p => outs_lazy p b s c
  | Grp n r => map (fun '(b', s', c') => (b', s', (n, between b b') :: c')) (outs r b s c)
  | Back n =>
      match lookup_cap c n with
      | Some t => match skip_lit t b s with Some (b', s') => [(b', s', c)] | None => [] end
      | None => []
      end
  | Bos => match b with [] => [(b, s, c)] | _ => [] end
  | Eos => if at_end s then [(b, s, c)] else []
  | WordB => if xorb (word_at b) (word_at s) then [(b, s, c)] else []
  | NotAfter p => if starts p b then [] else [(b, s, c)]
  | NotBefore p => if starts p s then [] else [(b, s, c)]
  end.

Section first.
Context {A B : Type}.
Implicit Types (k : A -> option B) (l : list A).

Lemma first_app k l l' : first k (l ++ l') = orelse (first k l) (first k l').
Proof. induction l as [|a l IH]; simpl; [done|]. by destruct (k a). Qed.

Lemma first_single k a : first k [a] = k a.
Proof. simpl. by destruct (k a). Qed.

Lemma first_ext k k' l : (forall a, k a = k' a) -> first k l = first k' l.
Proof. intros H. induction l as [|a l IH]; simpl; [done|]. by rewrite H, IH. Qed.

Lemma first_concat {C} k (f : C -> list A) (l : list C) : first k (concat (map f l)) = first (fun a => first k (f a)) l.
Proof. induction l as [|a l IH]; simpl; [done|]. rewrite first_app, IH. by destruct (first k (f a)). Qed.

Lemma first_map {C} k (f : C -> A) (l : list C) : first k (map f l) = first (fun a => k (f a)) l.
Proof. induction l as [|a l IH]; simpl; [done|]. by rewrite IH. Qed.

Lemma first_Some k l x : first k l = Some x -> exists a, a ∈ l /\ k a = Some x.
Proof.
  induction l as [|a l IH]; simpl; [done|]. destruct (k a) eqn:E; [intros [= ->]|intros (a' & ? & ?)%IH];
    [exists a|exists a']; split; try done; by constructor.
Qed.

Lemma first_None k l : first k l = None <-> forall a, a ∈ l -> k a = None.
Proof.
  induction l as [|a l IH]; simpl; [split; [intros _ a Ha; by inversion Ha|done]|]. destruct (k a) eqn:E.
  - split; [done|]. intros H. rewrite <- E. apply H. by constructor.
  - rewrite IH. split; intros H a' Ha; [apply elem_of_cons in Ha as [->|Ha]; auto|apply H; by constructor].
Qed.
End first.

Definition app_kont {X} (k : kont (X := X)) (o : out) : option X := let '(b, s, c) := o in k b s c.

Lemma run_star_outs {X} p c (k : kont (X := X)) s : forall b, run_star p b s c k = first (app_kont k) (outs_star p b s c).
Proof.
  induction s as [|x s IH]; intros b; cbn [run_star outs_star]; [by rewrite first_single|]. destruct (p x).
  - by rewrite first_app, IH, first_single.
  - by rewrite first_single.
Qed.

Lemma run_lazy_outs {X} p c (k : kont (X := X)) s : forall b, run_lazy p b s c k = first (app_kont k) (outs_lazy p b s c).
Proof.
  induction s as [|x s IH]; intros b; simpl; [by destruct (k b [] c)|]. destruct (p x); simpl.
  - rewrite IH. by destruct (k b (x :: s) c).
  - by destruct (k b (x :: s) c).
Qed.

(** The matcher returns the first outcome that its continuation accepts. *)
Lemma run_outs {X} r : forall b s c (k : kont (X := X)), run r b s c k = first (app_kont k) (outs r b s c).
Proof.
  induction r as [|p|r1 IH1 r2 IH2|r1 IH1 r2 IH2|p|p|n r IH|n| | | |p|p]; intros b s c k; cbn [run outs];
    try (repeat case_match; cbn [first app_kont]; repeat case_match; congruence).
  - rewrite IH1, first_concat. apply first_ext. intros [[b' s'] c']. apply IH2.
  - rewrite first_app. by rewrite IH1, IH2.
  - apply run_star_outs.
  - apply run_lazy_outs.
  - rewrite IH, first_map. apply first_ext. by intros [[b' s'] c'].
Qed.

Lemma run_Some {X} r b s c (k : kont (X := X)) x :
  run r b s c k = Some x -> exists b' s' c', (b', s', c') ∈ outs r b s c /\ k b' s' c' = Some x.
Proof. rewrite run_outs. intros ([[b' s'] c'] & H & Hk)%first_Some. by exists b', s', c'. Qed.

Lemma run_None {X} r b s c (k : kont (X := X)) :
  run r b s c k = None <-> forall b' s' c', (b', s', c') ∈ outs r b s c -> k b' s' c' = None.
Proof.
  rewrite run_outs, first_None. split; [intros H b' s' c' Ho; exact (H _ Ho)|]. intros H [[b' s'] c']. apply H.
Qed.

(** ** Which ways there are *)

Lemma elem_of_outs_star p c b' s' c' s : forall b,
  (b', s', c') ∈ outs_star p b s c <->
  c' = c /\ exists l, s = l ++ s' /\ b' = rev l ++ b /\ Forall (fun x => p x = true) l.
Proof.
  assert (H0 : forall b s, (b', s', c') ∈ [(b, s, c)] -> c' = c /\ exists l, s = l ++ s' /\ b' = rev l ++ b /\
    Forall (fun x => p x = true) l).
  { intros b t [= -> -> ->]%list_elem_of_singleton. split; [done|]. by exists []. }
  induction s as [|x s IH]; intros b; simpl.
  { split; [apply H0|]. intros (-> & [|y l] & E & -> & _); [|done]. simpl in *. subst. by apply list_elem_of_singleton. }
  destruct (p x) eqn:Ep.
  - rewrite elem_of_app, IH. split.
    + intros [(-> & l & -> & -> & Hl)|H]; [|by apply H0]. split; [done|]. exists (x :: l). repeat split; [|by constructor].
      simpl. by rewrite <- app_assoc.
    + intros (-> & [|y l] & E & -> & Hl); simpl in *; [right; subst; by apply list_elem_of_singleton|].
      apply Forall_cons in Hl as [_ Hl]. injection E as -> ->. left. split; [done|]. exists l. rewrite <- app_assoc. done.
  - split; [apply H0|]. intros (-> & [|y l] & E & -> & Hl); simpl in *; [subst; by apply list_elem_of_singleton|].
    injection E as -> ->. apply Forall_cons in Hl as [Hy _]. congruence.
Qed.

Lemma outs_lazy_star p c o s : forall b, o ∈ outs_lazy p b s c <-> o ∈ outs_star p b s c.
Proof.
  induction s as [|x s IH]; intros b; simpl; [done|]. destruct (p x); [|done].
  rewrite elem_of_cons, elem_of_app, list_elem_of_singleton, IH. tauto.
Qed.

Lemma elem_of_outs_seq r1 r2 b s c b' s' c' :
  (b', s', c') ∈ outs (Seq r1 r2) b s c <->
  exists b1 s1 c1, (b1, s1, c1) ∈ outs r1 b s c /\ (b', s', c') ∈ outs r2 b1 s1 c1.
Proof.
  cbn [outs]. rewrite elem_of_concat_map. split.
  - intros ([[b1 s1] c1] & H1 & H2). by exists b1, s1, c1.
  - intros (b1 & s1 & c1 & H1 & H2). by exists (b1, s1, c1).
Qed.

Lemma elem_of_outs_grp n r b s c b' s' c' :
  (b', s', c') ∈ outs (Grp n r) b s c <->
  exists c1, (b', s', c1) ∈ outs r b s c /\ c' = (n, between b b') :: c1.
Proof.
  cbn [outs]. rewrite list_elem_of_fmap. split.
  - intros ([[b1 s1] c1] & [= -> -> ->] & H). by exists c1.
  - intros (c1 & H & ->). by exists (b', s', c1).
Qed.

Lemma skip_lit_spec l : forall b s b' s', skip_lit l b s = Some (b', s') <-> s = l ++ s' /\ b' = rev l ++ b.
Proof.
  induction l as [|x l IH]; intros b s b' s'; simpl.
  { split; [by intros [= -> ->]|by intros [-> ->]]. }
  destruct s as [|y s]; [split; [done|by intros [? _]]|]. destruct (Ascii.eqb_spec x y) as [<-|Hxy].
  - rewrite IH. split; [intros [-> ->]|intros [[= ->] ->]]; by rewrite <- app_assoc.
  - split; [done|]. by intros [[= -> ->] _].
Qed.

(** Matching reads a piece of the text from left to right. *)
Lemma outs_zip r : forall b s c b' s' c', (b', s', c') ∈ outs r b s c -> exists l, s = l ++ s' /\ b' = rev l ++ b.
Proof.
  induction r as [|p|r1 IH1 r2 IH2|r1 IH1 r2 IH2|p|p|n r IH|n| | | |p|p]; intros b s c b' s' c' H;
    try solve [cbn [outs] in H; repeat case_match; try (by inversion H);
      apply list_elem_of_singleton in H as [= -> -> ->]; by exists []].
  - cbn [outs] in H. destruct s as [|x s]; [by inversion H|]. destruct (p x); [|by inversion H].
    apply list_elem_of_singleton in H as [= -> -> ->]. by exists [x].
  - apply elem_of_outs_seq in H as (b1 & s1 & c1 & (l1 & -> & ->)%IH1 & (l2 & -> & ->)%IH2).
    exists (l1 ++ l2). by rewrite rev_app_distr, !app_assoc.
  - cbn [outs] in H. apply elem_of_app in H as [H|H]; eauto.
  - apply elem_of_outs_star in H as (_ & l & -> & -> & _). by exists l.
  - cbn [outs] in H. rewrite outs_lazy_star in H. apply elem_of_outs_star in H as (_ & l & -> & -> & _). by exists l.
  - apply elem_of_outs_grp in H as (c1 & H & _). eauto.
  - cbn [outs] in H. destruct (lookup_cap c n); [|by inversion H]. destruct (skip_lit t b s) as [[b1 s1]|] eqn:E; [|by inversion H].
    apply list_elem_of_singleton in H as [= -> -> ->]. apply skip_lit_spec in E as [-> ->]. by eexists.
Qed.

Lemma between_app l b : between b (rev l ++ b) = l.
Proof.
  unfold between. rewrite length_app, Nat.add_sub, take_app_length' by lia. apply rev_involutive.
Qed.

(** ** Running a pattern on a text of known shape *)

Section shape.
Context {X : Type}.
Implicit Types (k : kont (X := X)).

Lemma orelse_l (o o' : option X) x : o = Some x -> orelse o o' = Some x.
Proof. by intros ->. Qed.

Lemma run_lits l r b s c k :
  run (lits l r) b s c k = match skip_lit l b s with Some (b', s') => run r b' s' c k | None => None end.
Proof.
  revert b s. induction l as [|x l IH]; intros b s; [done|]. cbn [lits run skip_lit]. destruct s as [|y s]; [done|].
  destruct (Ascii.eqb x y) eqn:E; [|done]. apply IH.
Qed.

Lemma run_Lit w b s c k :
  run (Lit w) b s c k = match skip_lit (chars w) b s with Some (b', s') => k b' s' c | None => None end.
Proof. apply run_lits. Qed.

Lemma skip_lit_app l b s : skip_lit l b (l ++ s) = Some (rev l ++ b, s).
Proof. by apply skip_lit_spec. Qed.

(** past the literal, which is there *)
Lemma run_lit_app w b s c k : run (Lit w) b (chars w ++ s) c k = k (rev (chars w) ++ b) s c.
Proof. by rewrite run_Lit, skip_lit_app. Qed.

Lemma run_star_stop p b rest c k :
  (forall l1 rest1, rest = l1 ++ rest1 -> l1 <> [] -> Forall (fun x => p x = true) l1 -> k (rev l1 ++ b) rest1 c = None) ->
  run_star p b rest c k = k b rest c.
Proof.
  revert b. induction rest as [|x rest IH]; intros b H; simpl; [done|]. destruct (p x) eqn:E; [|done]. rewrite IH.
  - pose proof (H [x] rest eq_refl ltac:(done) ltac:(by constructor)) as H1. simpl in H1. by rewrite H1.
  - intros l1 rest1 -> Hne Hl. specialize (H (x :: l1) rest1 eq_refl ltac:(done) ltac:(by constructor)).
    simpl in H. by rewrite <- app_assoc in H.
Qed.

(** the longest stretch after which the rest matches *)
Lemma run_star_longest p l b rest c k x :
  Forall (fun x => p x = true) l -> k (rev l ++ b) rest c = Some x ->
  (forall l1 rest1, rest = l1 ++ rest1 -> l1 <> [] -> Forall (fun x => p x = true) l1 -> k (rev l1 ++ rev l ++ b) rest1 c = None) ->
  run_star p b (l ++ rest) c k = Some x.
Proof.
  intros Hl. revert b. induction Hl as [|y l Hy Hl IH]; intros b Hk Hn; simpl in *; [by rewrite run_star_stop|].
  rewrite Hy, (IH (y :: b)); [done|by rewrite <- app_assoc in Hk|]. intros l1 rest1 E Hne H1.
  specialize (Hn l1 rest1 E Hne H1). by rewrite <- app_assoc in Hn.
Qed.

(** the only stretch after which the rest can match *)
Lemma run_star_only p l b rest c k :
  Forall (fun x => p x = true) l ->
  (forall l1 rest1, l ++ rest = l1 ++ rest1 -> l1 <> l -> k (rev l1 ++ b) rest1 c = None) ->
  run_star p b (l ++ rest) c k = k (rev l ++ b) rest c.
Proof.
  intros Hl. revert b. induction Hl as [|y l Hy Hl IH]; intros b Hn; simpl in *.
  - apply run_star_stop. intros l1 rest1 E Hne _. by apply Hn.
  - rewrite Hy, IH.
    + pose proof (Hn [] (y :: l ++ rest) eq_refl ltac:(done)) as H1. simpl in H1. rewrite H1, <- app_assoc. simpl. by destruct (k (rev l ++ y :: b) rest c).
    + intros l1 rest1 E Hne. assert (Hy' : y :: l1 <> y :: l) by congruence.
      specialize (Hn (y :: l1) rest1 ltac:(simpl; by rewrite E) Hy'). simpl in Hn.
      by rewrite <- app_assoc in Hn.
Qed.

(** A continuation that cannot start with a character of the class leaves no
    choice. *)
Definition stuck_on p k : Prop := forall b s c, starts p s = true -> k b s c = None.

Lemma run_star_class p l b rest c k :
  Forall (fun x => p x = true) l -> starts p rest = false -> stuck_on p k ->
  run_star p b (l ++ rest) c k = k (rev l ++ b) rest c.
Proof.
  intros Hl Hr Hk. revert b. induction Hl as [|y l Hy Hl IH]; intros b; simpl.
  - destruct rest as [|x rest]; simpl in *; [done|by rewrite Hr].
  - rewrite Hy, IH, (Hk b), <- app_assoc by done. simpl. by destruct (k (rev l ++ y :: b) rest c).
Qed.

Lemma run_plus_class p x l b rest c k :
  Forall (fun x => p x = true) (x :: l) -> starts p rest = false -> stuck_on p k ->
  run (Plus p) b (x :: l ++ rest) c k = k (rev (x :: l) ++ b) rest c.
Proof.
  intros [Hx Hl]%Forall_cons Hr Hk. cbn [Plus run]. rewrite Hx, run_star_class by done. simpl. by rewrite <- app_assoc.
Qed.

Lemma run_plus_longest p x l b rest c k o :
  Forall (fun x => p x = true) (x :: l) -> k (rev (x :: l) ++ b) rest c = Some o ->
  (forall l1 rest1, rest = l1 ++ rest1 -> l1 <> [] -> Forall (fun x => p x = true) l1 -> k (rev l1 ++ rev (x :: l) ++ b) rest1 c = None) ->
  run (Plus p) b (x :: l ++ rest) c k = Some o.
Proof.
  intros [Hx Hl]%Forall_cons Hk Hn. cbn [Plus run]. rewrite Hx. cbn [rev] in Hk, Hn. rewrite <- app_assoc in Hk, Hn.
  by apply run_star_longest.
Qed.

Lemma stuck_lit p w k : match chars w with [] => False | x :: _ => p x = false end -> stuck_on p (fun b s c => run (Lit w) b s c k).
Proof.
  intros Hw b s c Hs. rewrite run_Lit. destruct (chars w) as [|x l]; [done|]. destruct s as [|y s]; [done|]. simpl in *.
  destruct (Ascii.eqb_spec x y) as [->|]; [congruence|done].
Qed.

Lemma stuck_cls p q k : (forall x, p x = true -> q x = false) -> stuck_on p (fun b s c => run (Cls q) b s c k).
Proof. intros Hq b s c Hs. destruct s as [|y s]; [done|]. cbn [run]. by rewrite Hq. Qed.

Lemma stuck_plus p q k : (forall x, p x = true -> q x = false) -> stuck_on p (fun b s c => run (Plus q) b s c k).
Proof. intros Hq. apply stuck_cls, Hq. Qed.
End shape.

(** A pattern that starts with [^] is only tried at the start. *)
Fixpoint anchored (r : regex) : bool :=
  match r with Bos => true | Seq a _ => anchored a | _ => false end.

Lemma run_anchored {X} r : anchored r = true -> forall b s c (k : kont (X := X)), b <> [] -> run r b s c k = None.
Proof.
  induction r as [| |r1 IH1 r2 _| | | | | | | | | |]; intros Ha b s c k Hb; try done; cbn [run]; [by apply IH1|by destruct b].
Qed.

Lemma search_anchored r s : anchored r = true -> re_search r s = re_match r s.
Proof.
  intros Ha. unfold re_search, re_match. assert (H : forall t b, b <> [] -> search_from r b t = None).
  { induction t as [|x t IH]; intros b Hb; cbn [search_from]; unfold match_at; rewrite run_anchored by done; [done|by apply IH]. }
  destruct (chars s) as [|x t]; cbn [search_from]; [by destruct (match_at _ _ _)|].
  destruct (match_at r [] (x :: t)); [done|]. by apply H.
Qed.

Lemma match_search r s m : re_match r s = Some m -> re_search r s = Some m.
Proof. unfold re_match, re_search. intros H. destruct (chars s); simpl; by rewrite H. Qed.
