(* ===== verification/LftpParser.v ===== *)
(** * The LFTP status parser ([lftp/job_status_parser.py])

    [LftpJobStatusParser.parse] reads the output of [jobs -v]: the queue with
    the commands waiting in it, then the running jobs with the lines that
    report their progress.  The regular expressions are those of the source,
    over [Regex].  A deque of lines that is consumed from the left is a list;
    one round of a loop says how many further lines it took.  The job that
    later lines belong to ([prev_job]) is always the last one appended, so the
    jobs are kept latest first.  Log output is not modelled. *)

From S2P Require Import Prelude PyStr PyDict PyFloat JobStatus Regex.
From Stdlib Require Import SpecFloat.

(** ** Texts and numbers *)

Definition squote : ascii := "'".
Definition backtick : ascii := "`".

(** [int(s)] of a captured run of digits *)
Definition int_ (s : string) : result Z :=
  let l := chars s in
  match l with
  | [] => Raise ValueError
  | _ => if forallb is_digit l && (length l <=? Json.max_int_digits)%nat then Ok (digits_value l) else Raise ValueError
  end.

(** [float(s)] of digits with an optional point *)
Definition float_ (s : string) : double :=
  let l := chars s in
  let ds := Json.take_while is_digit l in
  let fs := tail (drop_while is_digit l) in
  round_decimal false (digits_value (ds ++ fs)) (- Z.of_nat (length fs)).

(** [int(x)] of a float that is not negative *)
Definition trunc (x : double) : result Z :=
  match x with
  | S754_zero _ => Ok 0
  | S754_finite s m e =>
      let v := if 0 <=? e then Z.pos m * 2 ^ e else Z.pos m / 2 ^ (- e) in Ok (if s then - v else v)
  | S754_infinity _ => Raise OverflowError
  | S754_nan => Raise ValueError
  end.

(** [x * n] of a float and an integer that a float represents *)
Definition mul_int (x : double) (n : Z) : double := SFmul 53 1024 x (round_quotient false n 1).

Definition job_basename (remote : string) : string := basename (normpath remote).

(** ** Patterns *)

Definition sp : regex := Cls is_space.
Definition sps : regex := Plus is_space.
Definition digits : regex := Plus is_digit.

Definition __SIZE_UNITS : list string := ["b"; "B";
  "k"; "kb"; "kib"; "K"; "Kb"; "KB"; "KiB"; "Kib";
  "m"; "mb"; "mib"; "M"; "Mb"; "MB"; "MiB"; "Mib";
  "g"; "gb"; "gib"; "G"; "Gb"; "GB"; "GiB"; "Gib"].
Definition __SIZE_UNITS_REGEX : regex := Alts (map Lit __SIZE_UNITS).
Definition __MIRROR_SIZE_UNITS_REGEX : regex :=
  Alts (map Lit (__SIZE_UNITS ++ ["t"; "tb"; "tib"; "T"; "Tb"; "TB"; "TiB"; "Tib"])).

Definition time_unit (name unit : string) : regex := Opt (Grp name (Seq (Star is_digit) (Lit unit))).
Definition __TIME_UNITS_REGEX : regex :=
  cat [time_unit "eta_d" "d"; time_unit "eta_h" "h"; time_unit "eta_m" "m"; time_unit "eta_s" "s"].

(** [\d+\.?\d*] *)
Definition decimal : regex := cat [digits; Opt (Lit "."); Star is_digit].
(** [\d+\.?\d*\s?({units})?] and the same with the unit required *)
Definition size_of (units : regex) : regex := cat [decimal; Opt sp; Opt units].
Definition speed_of (units : regex) : regex := cat [decimal; Opt sp; units].

Definition __QUOTED_FILE_NAME_REGEX : regex := cat [Lit "`"; Grp "name" (Star any); Lit "'"].
Definition __QUEUE_DONE_REGEX : regex :=
  cat [Bos; Lit "["; Grp "id" digits; Lit "]"; sp; Lit "Done"; sp; Lit "(queue"; sp; Lit "("; Plus any; Lit "))"].
Definition __QUEUE_COMMAND_ECHO_REGEX : regex :=
  cat [Bos; Lit "queue"; sps; Alts [Lit "mirror"; Lit "pget"; Lit "get"]; Alt sp Eos].
Definition __STATUS_COMMAND_ECHO_MARKER : string := "jobs -v".
Definition __STATUS_COMMAND_ECHO_BRACKETED_LINE_REGEX : regex :=
  cat [Bos; Lit "["; digits; Lit "]"; sps; Lit "jobs -v"; Opt (cat [sps; Lit "&"]); Eos].
Definition __STATUS_COMMAND_ECHO_STRUCTURED_LINE_REGEX : regex :=
  cat [Bos; Alts [
    cat [Lit "["; digits; Lit "]"; sps; Alts (map Lit ["queue"; "pget"; "get"; "mirror"; "Done"]); WordB];
    cat [Alt (Lit "Now executing:") (Lit "-"); Star is_space; Lit "["; digits; Lit "]"; sps;
         Alts (map Lit ["pget"; "get"; "mirror"]); WordB];
    cat [digits; Lit "."; sps; Alts (map Lit ["pget"; "get"; "mirror"]); WordB];
    Alts [Lit "Queue is "; Lit "Commands queued:"; cat [Alts (map Lit ["sftp"; "ftp"; "ftps"]); Lit "://"];
          cat [Lit "\"; Alts (map Lit ["mirror"; "chunk"; "transfer"]); sps]; Lit "`"; Lit "Getting file list";
          cat [Lit "cd"; sp]; cat [Lit "chmod"; sp]; Lit "file:"]]].
Definition word_or_slash (c : ascii) : bool := is_word c || Ascii.eqb c slash.
Definition __STATUS_COMMAND_ECHO_TOKEN_REGEX : regex :=
  cat [NotAfter word_or_slash; Lit "jobs -v"; NotBefore word_or_slash].
Definition __MIRROR_HEADER_PREFIX_REGEX : regex := cat [Bos; Lit "["; Grp "id" digits; Lit "]"; sps; Lit "mirror"; sps].
Definition __MIRROR_QUEUE_HEADER_PREFIX_REGEX : regex := cat [Bos; Grp "id" digits; Lit "."; sps; Lit "mirror"; sps].

(** [{local}/{remote}\s+\(pct%\)(\s+speed/s)?], which ends every totals row *)
Definition totals (units : regex) : list regex := [
  Grp "szlocal" (size_of units); Lit "/"; Grp "szremote" (size_of units); sps;
  Lit "("; Grp "pctlocal" digits; Lit "%)";
  Opt (cat [sps; Grp "speed" (speed_of __SIZE_UNITS_REGEX); Lit "/s"])].

Definition __MIRROR_PROGRESS_SUFFIX_REGEX : regex :=
  cat ([Bos; sps] ++ totals __MIRROR_SIZE_UNITS_REGEX ++ [Star is_space; Eos]).

(** a path in single, double or no quotes, greedy on purpose *)
Definition quoted (q n : string) : regex :=
  cat [Grp q (Alt (Cls (one_of [squote; quote])) Eps); Grp n (Plus any); Back q].
Definition flags_then (rest : list regex) : regex := cat ([Grp "flags" (Lazy any); sps] ++ rest).
Definition bracket_id : regex := cat [Bos; Lit "["; Grp "id" digits; Lit "]"; sps].
Definition dotted_id : regex := cat [Bos; Grp "id" digits; Lit "."; sps].
Definition get_command : regex := Grp "command" (Alt (Lit "pget") (Lit "get")).

Definition pget_header_m : regex :=
  cat [bracket_id; get_command; sps;
       flags_then [quoted "lq" "remote"; sps; Lit "-o"; sps; quoted "rq" "local"; Eos]].
Definition mirror_header_m : regex :=
  cat [bracket_id; Lit "mirror"; sps;
       flags_then ([quoted "lq" "remote"; sps; quoted "rq" "local"; sps; Lit "--"; sps] ++
                   totals __MIRROR_SIZE_UNITS_REGEX ++ [Eos])].
Definition mirror_fl_header_m : regex :=
  cat [bracket_id; Lit "mirror"; sps; flags_then [quoted "lq" "remote"; sps; quoted "rq" "local"; Eos]].
Definition filename_m : regex := cat [Lit "\transfer"; sp; __QUOTED_FILE_NAME_REGEX].

Definition paren_percent : regex := cat [Lit "("; digits; Lit "%)"].
Definition eta_then (more : list regex) : regex := Opt (cat ([Lit "eta:"; Grp "eta" __TIME_UNITS_REGEX] ++ more)).

Definition chunk_at_m : regex :=
  cat [Bos; __QUOTED_FILE_NAME_REGEX; sps; Lit "at"; sps; digits; sps; Opt (cat [paren_percent; sps]);
       Opt (cat [Grp "speed" (speed_of __SIZE_UNITS_REGEX); Lit "/s"; sps]); eta_then [sps];
       Star is_space; Lit "["; Grp "desc" (Star any); Lit "]"; Eos].
Definition chunk_at2_m : regex :=
  cat [Bos; __QUOTED_FILE_NAME_REGEX; sps; Lit "at"; sps; digits; sps; paren_percent].
Definition chunk_got_m : regex :=
  cat [Bos; __QUOTED_FILE_NAME_REGEX; Lit ","; sps; Lit "got"; sps; Grp "szlocal" digits; sps; Lit "of"; sps;
       Grp "szremote" digits; sps; Lit "("; Grp "pctlocal" digits; Lit "%)";
       Opt (cat [sps; Grp "speed" (speed_of __SIZE_UNITS_REGEX); Lit "/s"]);
       Opt (cat [sp; Lit "eta:"; Grp "eta" __TIME_UNITS_REGEX])].
Definition chunk_header_m : regex := cat [Bos; Lit "\chunk"; sps; digits; Opt (cat [Lit "-"; digits]); Eos].
Definition chmod_header_m : regex := cat [Lit "chmod"; sp; Grp "name" (Star any)].
Definition chmod_pattern_m : regex := cat [__QUOTED_FILE_NAME_REGEX; sp; Lit "[]"].
Definition mirror_m : regex :=
  cat ([Lit "\mirror"; sp; __QUOTED_FILE_NAME_REGEX; sps; Lit "--"; sps] ++ totals __SIZE_UNITS_REGEX ++ [Eos]).
Definition mirror_empty_m : regex := cat [Lit "\mirror"; sp; __QUOTED_FILE_NAME_REGEX; Star is_space; Eos].
Definition in_brackets : list regex := [Lit "["; Star any; Lit "]"; Eos].
Definition orphan_progress_m : regex :=
  cat ([Bos; speed_of __SIZE_UNITS_REGEX; Lit "/s"; sps; Lit "eta:"; __TIME_UNITS_REGEX; sps] ++ in_brackets).
Definition partial_progress_m : regex := cat ([Bos; Lit "/s"; sps; Lit "eta:"; __TIME_UNITS_REGEX; sps] ++ in_brackets).
Definition chunk_wrap_m : regex :=
  cat ([Bos; Opt (Seq (Cls (fun c => negb (one_of [backtick; backslash] c))) (Star any)); Lit "'"; sps; Lit "at"; sps; digits; sps;
        Opt (cat [paren_percent; sps]); Opt (cat [speed_of __SIZE_UNITS_REGEX; Lit "/s"; sps]);
        Opt (cat [Lit "eta:"; __TIME_UNITS_REGEX; sps]); Star is_space] ++ in_brackets).
Definition log_line : regex :=
  cat [Bos; Times 4 is_digit; Lit "-"; Times 2 is_digit; Lit "-"; Times 2 is_digit; sp;
       Times 2 is_digit; Lit ":"; Times 2 is_digit; Lit ":"; Times 2 is_digit; Star any; sp; Lit "->"; sp; Star any; Eos].

Definition protocols : regex := Alts (map Lit ["sftp"; "ftp"; "ftps"]).
Definition queue_header1 : regex :=
  cat [Bos; Lit "["; digits; Lit "] queue ("; protocols; Lit "://"; Star any; Lit "@"; Star any; Lit ")";
       Opt (cat [sps; Lit "--"; sps; Alt (cat [digits; Lit "."; digits]) digits; sp; __SIZE_UNITS_REGEX; Lit "/s"]); Eos].
Definition queue_header2 : regex := cat [Bos; protocols; Lit "://"; Star any; Lit "@"; Star any; Eos].
Definition queue_pget_m : regex :=
  cat [dotted_id; get_command; sps;
       flags_then [quoted "lq" "remote"; sps; Lit "-o"; sps; quoted "rq" "local"; Eos]].
Definition queue_mirror_m : regex :=
  cat [dotted_id; Lit "mirror"; sps; flags_then [quoted "lq" "remote"; sps; quoted "rq" "local"; Eos]].
Definition dotted_line : regex := cat [Bos; digits; Lit "."].
Definition bracket_line : regex := cat [Bos; Lit "["; digits; Lit "]"].
Definition executing_line : regex := cat [Bos; Lit "-["; digits; Lit "]"].
Definition cd_line : regex := cat [Bos; Lit "cd"; sp; Star any; Eos].
Definition queue_stopped : regex := cat [Lit "Queue is stopped"; Cls any].

(** ** Sizes and times *)

Definition size_m : regex :=
  cat [Grp "number" decimal; Star is_space; Opt (Grp "units" __SIZE_UNITS_REGEX)].
Definition mirror_size_m : regex :=
  cat [Star is_space; Grp "number" decimal; Star is_space; Opt (Grp "units" __MIRROR_SIZE_UNITS_REGEX); Star is_space].

Definition multipliers (unit : string) : option Z :=
  if String.eqb unit "b" then Some 1
  else if String.eqb unit "k" then Some 1024
  else if String.eqb unit "m" then Some (1024 * 1024)
  else if String.eqb unit "g" then Some (1024 * 1024 * 1024)
  else None.

(** [s[0].lower()] *)
Definition first_lower (s : string) : string := lower (str (take 1 (chars s))).

Definition _size_to_bytes (size : string) : result Z :=
  if String.eqb size "0" then Ok 0 else
  match re_search size_m size with
  | None => Raise ValueError
  | Some m =>
      match multipliers (first_lower (default "b" (group m "units"))) with
      | None => Raise ValueError
      | Some k => trunc (mul_int (float_ (group_ m "number")) k)
      end
  end.

Definition unit_power (c : string) : option Z :=
  if String.eqb c "k" then Some 1 else if String.eqb c "m" then Some 2
  else if String.eqb c "g" then Some 3 else if String.eqb c "t" then Some 4 else None.

Definition _mirror_size_to_bytes (size : string) : result Z :=
  match re_fullmatch mirror_size_m size with
  | None => Raise ValueError
  | Some m =>
      let unit := lower (default "b" (group m "units")) in
      if String.eqb unit "b" then trunc (mul_int (float_ (group_ m "number")) 1)
      else match unit_power (first_lower unit) with
           | None => Raise ValueError
           | Some power =>
               let base := if endswith unit "ib" then 1024 else 1000 in
               trunc (mul_int (float_ (group_ m "number")) (base ^ power))
           end
  end.

(** [int((result.group(n) or '0x')[:-1])] *)
Definition eta_part (m : mtch) (n : string) : result Z :=
  match group m n with
  | None => Ok 0
  | Some s => if String.eqb s "" then Ok 0 else int_ (str (removelast (chars s)))
  end.

Definition _eta_to_seconds (eta : string) : result Z :=
  match re_search __TIME_UNITS_REGEX eta with
  | None => Raise ValueError
  | Some m =>
      eta_d ← eta_part m "eta_d"; eta_h ← eta_part m "eta_h";
      eta_m ← eta_part m "eta_m"; eta_s ← eta_part m "eta_s";
      Ok (eta_d * 24 * 3600 + eta_h * 3600 + eta_m * 60 + eta_s)
  end.

Definition present (o : option Z) : pyval := PyBool (match o with Some _ => true | None => false end).
Definition both (a : bool) (v : pyval) : pyval := if a then v else PyBool false.

Definition __set_record_provenance (status : LftpJobStatus) (shape : string) (t : TransferState) : result LftpJobStatus :=
  let got := String.eqb shape "got" in
  set_record_provenance status (PyStr shape) (both got (present (size_local t))) (both got (present (percent_local t)))
    (present (speed t)) (present (t_eta t)).

(** ** Echoes of the status command *)

(** offset of the first [q] that no backslash escapes *)
Fixpoint close_quote (escaped : bool) (l : text) : option nat :=
  match l with
  | [] => None
  | c :: l' =>
      if escaped then S <$> close_quote false l'
      else if Ascii.eqb c backslash then S <$> close_quote true l'
      else if Ascii.eqb c quote then Some O
      else S <$> close_quote false l'
  end.

(** [s.find(c)] and [s.rfind(c)] *)
Fixpoint find_char (c : ascii) (l : text) : option nat :=
  match l with
  | [] => None
  | x :: l' => if Ascii.eqb x c then Some O else S <$> find_char c l'
  end.

Fixpoint rfind_char (c : ascii) (l : text) : option nat :=
  match l with
  | [] => None
  | x :: l' =>
      match rfind_char c l' with
      | Some n => Some (S n)
      | None => if Ascii.eqb x c then Some O else None
      end
  end.

(** where the quoted text that starts at [index] with [c] ends *)
Definition span_end (last : option nat) (prev : option ascii) (index : nat) (c : ascii) (l : text) : option nat :=
  if Ascii.eqb c quote then (fun n => index + 1 + n)%nat <$> close_quote false l
  else if Ascii.eqb c backtick then
    match last with Some e => if (index <? e)%nat then Some e else None | None => None end
  else if Ascii.eqb c squote && match prev with None => true | Some p => is_space p end then
    (fun n => index + 1 + n)%nat <$> find_char squote l
  else None.

(** [skipped] characters belong to the span found last. *)
Fixpoint spans_from (last : option nat) (prev : option ascii) (index skipped : nat) (l : text) : list (nat * nat) :=
  match l with
  | [] => []
  | c :: l' =>
      match skipped with
      | S n => spans_from last (Some c) (S index) n l'
      | O =>
          match span_end last prev index c l' with
          | Some e => (index, S e) :: spans_from last (Some c) (S index) (e - index) l'
          | None => spans_from last (Some c) (S index) O l'
          end
      end
  end.

Definition __quoted_spans (line : string) : list (nat * nat) :=
  spans_from (rfind_char squote (chars line)) None O O (chars line).

Definition in_span (i : nat) (s : nat * nat) : bool := (s.1 <=? i)%nat && (i <? s.2)%nat.

(** [re.finditer] over the marker: the positions where it occurs, which cannot
    overlap *)
Fixpoint marker_echo (spans : list (nat * nat)) (relaxed : bool) (b l : text) : bool :=
  match l with
  | [] => false
  | c :: l' =>
      (prefix_of (chars __STATUS_COMMAND_ECHO_MARKER) l && negb (existsb (in_span (length b)) spans) &&
       (match match_at __STATUS_COMMAND_ECHO_TOKEN_REGEX b l with Some _ => true | None => false end || relaxed))
      || marker_echo spans relaxed (c :: b) l'
  end.

Definition __has_status_command_echo (line : string) : bool :=
  contains line __STATUS_COMMAND_ECHO_MARKER && negb (String.eqb line __STATUS_COMMAND_ECHO_MARKER) &&
  is_match __STATUS_COMMAND_ECHO_STRUCTURED_LINE_REGEX line &&
  marker_echo (__quoted_spans line) (existsb (startswith line) ["\mirror "; "\chunk "; "\transfer "; "`"]) [] (chars line).

(** ** Headers of mirrors with exclusions *)

Definition word : Type := string * nat * nat.
Definition word_text (w : word) : string := w.1.1.
Definition word_start (w : word) : nat := w.1.2.
Definition word_end (w : word) : nat := w.2.

(** A word in progress: where it starts, its characters in reverse, and the
    quote that is open *)
Definition pending : Type := nat * text * option ascii.

Fixpoint words_from (i : nat) (cur : option pending) (l : text) : result (list word) :=
  match l with
  | [] =>
      match cur with
      | None => Ok []
      | Some (start, value, None) => Ok [(str (rev value), start, i)]
      | Some (_, _, Some _) => Raise LftpKnownOptionsMirrorHeaderError
      end
  | c :: l' =>
      if is_space c && bool_decide (cur = None) then words_from (S i) None l' else
      let '(start, value, open) := default (i, [], None) cur in
      if one_of [squote; quote] c && (bool_decide (open = Some c) || (bool_decide (open = None) && (i =? start)%nat)) then
        words_from (S i) (Some (start, value, if bool_decide (open = Some c) then None else Some c)) l'
      else
        let plain :=
          if bool_decide (open = None) && is_space c then
            rest ← words_from (S i) None l'; Ok ((str (rev value), start, i) :: rest)
          else words_from (S i) (Some (start, c :: value, open)) l' in
        if Ascii.eqb c backslash then
          match l' with
          | d :: l'' => words_from (S (S i)) (Some (start, d :: c :: value, open)) l''
          | [] => plain
          end
        else plain
  end.

Definition __split_rendered_command_words (t : string) : result (list word) := words_from O None (chars t).

Definition known_options : list string := ["--exclude"; "--exclude-glob"].
Definition is_known_option (w : string) : bool := bool_decide (w ∈ known_options).

(** the rendering of a trailing backslash that LFTP leaves ambiguous *)
Definition ambiguous_argument (candidate : word) (following : list word) : bool :=
  contains (word_text candidate) "\ " &&
  match following with
  | [_] => true
  | f0 :: f1 :: _ => negb (String.eqb (word_text f0) "--") && String.eqb (word_text f1) "--"
  | [] => false
  end.

(** The positional words, and the end of the separator [--] if there is one;
    [pos] are those seen so far, latest first. *)
Fixpoint positional_words (pos : list word) (ws : list word) : result (list word * option nat) :=
  match ws with
  | [] => Ok (rev pos, None)
  | w :: ws' =>
      let t := word_text w in
      let known := is_known_option t in
      match pos with
      | _ :: _ =>
          if String.eqb t "-c" || known then Raise LftpKnownOptionsMirrorHeaderError
          else if String.eqb t "--" && (2 <=? length pos)%nat then Ok (rev pos, Some (word_end w))
          else positional_words (w :: pos) ws'
      | [] =>
          if String.eqb t "-c" then positional_words pos ws'
          else if known then
            match ws' with
            | [] => Raise LftpKnownOptionsMirrorHeaderError
            | candidate :: ws'' =>
                if ambiguous_argument candidate ws'' then positional_words (candidate :: pos) ws''
                else positional_words pos ws''
            end
          else if startswith t "-" then Raise LftpKnownOptionsMirrorHeaderError
          else positional_words (w :: pos) ws'
      end
  end.

Fixpoint join_words (l : list string) : string :=
  match l with [] => "" | [a] => a | a :: l' => a +:+ " " +:+ join_words l' end.

Definition merge_words (l : list word) : word :=
  (join_words (map word_text l), default O (word_start <$> head l), default O (word_end <$> last l)).

Definition is_path (w : word) : bool := startswith (word_text w) "/".

Fixpoint last_path (l : list word) : option nat :=
  match l with
  | [] => None
  | w :: l' => match last_path l' with Some n => Some (S n) | None => if is_path w then Some O else None end
  end.

(** more than two positional words are two paths with unquoted blanks *)
Definition two_paths (l : list word) : result (list word) :=
  if (length l <=? 2)%nat then Ok l
  else if (length (List.filter is_path l) <? 2)%nat || negb (match l with w :: _ => is_path w | [] => false end)
  then Raise LftpKnownOptionsMirrorHeaderError
  else let n := default O (last_path l) in Ok [merge_words (take n l); merge_words (drop n l)].

Definition progress : Type := string * string * string * option string.
Definition known_header : Type := Z * string * string * string * option progress.

Definition mirror_progress (suffix : text) : result progress :=
  match match_at __MIRROR_PROGRESS_SUFFIX_REGEX [] suffix with
  | None => Raise LftpKnownOptionsMirrorHeaderError
  | Some m => Ok (group_ m "szlocal", group_ m "szremote", group_ m "pctlocal", group m "speed")
  end.

Definition __parse_known_options_mirror_header (line : string) (prefix_pattern : regex) : result (option known_header) :=
  match re_match prefix_pattern line with
  | None => Ok None
  | Some prefix =>
      let remainder := m_rest prefix in
      if negb (infix_of (chars "--exclude") remainder) then Ok None else
      words ← words_from O None remainder;
      if negb (existsb (fun w => is_known_option (word_text w)) words) then Ok None else
      '(positionals, separator) ← positional_words [] words;
      positionals ← two_paths positionals;
      match positionals with
      | [remote; local] =>
          progress ← match separator with
                     | None => Ok None
                     | Some e => p ← mirror_progress (drop e remainder); Ok (Some p)
                     end;
          id ← int_ (group_ prefix "id");
          Ok (Some (id, strip (str (take (word_start remote) remainder)), word_text remote, word_text local, progress))
      | _ => Raise LftpKnownOptionsMirrorHeaderError
      end
  end.

(** ** Running jobs *)

Definition __WRONG_TYPE_FAILURE_PREFIXES : list string := [
  "get: Access failed: Wrong type"; "pget: Access failed: Wrong type";
  "pget-chunk: Access failed: Wrong type"; "mirror: Access failed: Wrong type"].

Definition lstrip (s : string) : string := str (drop_while is_space (chars s)).

Definition __is_wrong_type_failure_line (line : string) : bool :=
  existsb (startswith (lstrip line)) __WRONG_TYPE_FAILURE_PREFIXES.

(** [if x: f(x)], for an optional text *)
Definition if_text {A} (o : option string) (f : string -> result A) : result (option A) :=
  match o with
  | None => Ok None
  | Some s => if String.eqb s "" then Ok None else a ← f s; Ok (Some a)
  end.

(** the counters of an [at] row and of a [got] row *)
Definition at_state (m : mtch) : result TransferState :=
  speed ← if_text (group m "speed") _size_to_bytes;
  eta ← if_text (group m "eta") _eta_to_seconds;
  Ok (mkTransfer None None None speed eta).

Definition got_state (m : mtch) : result TransferState :=
  size_local ← int_ (group_ m "szlocal");
  size_remote ← int_ (group_ m "szremote");
  percent_local ← int_ (group_ m "pctlocal");
  speed ← if_text (group m "speed") _size_to_bytes;
  eta ← if_text (group m "eta") _eta_to_seconds;
  Ok (mkTransfer (Some size_local) (Some size_remote) (Some percent_local) speed eta).

Definition mirror_state (szlocal szremote pct : string) (speed : option string) : result TransferState :=
  size_local ← _mirror_size_to_bytes szlocal;
  size_remote ← _mirror_size_to_bytes szremote;
  percent_local ← int_ pct;
  speed ← if_text speed _size_to_bytes;
  Ok (mkTransfer (Some size_local) (Some size_remote) (Some percent_local) speed None).

(** What a data line says, tried in this order; [check] refuses a line about
    another file. *)
Definition chunk_data (check_at check_got : string -> bool) (line : string) : result (option (string * TransferState)) :=
  match re_search chunk_at_m line with
  | Some m => if check_at (group_ m "name") then t ← at_state m; Ok (Some ("at", t)) else Raise ValueError
  | None =>
      match re_search chunk_at2_m line with
      | Some m => if check_at (group_ m "name") then Ok (Some ("at", no_transfer)) else Raise ValueError
      | None =>
          match re_search chunk_got_m line with
          | Some m => if check_got (group_ m "name") then t ← got_state m; Ok (Some ("got", t)) else Raise ValueError
          | None => Ok None
          end
      end
  end.

Definition is_chunk (line : string) : bool :=
  is_found chunk_at_m line || is_found chunk_at2_m line || is_found chunk_got_m line.

(** [LftpJobStatus(...)] of a row, with its provenance and total *)
Definition job_of (id : Z) (ty : JobType) (s : JobState) (flags remote local : string) : LftpJobStatus :=
  new_job id ty s (job_basename remote) flags (Some remote) (Some local).

Definition with_total (status : LftpJobStatus) (shape : string) (t : TransferState) : result LftpJobStatus :=
  status ← __set_record_provenance status shape t; set_total_transfer_state status t.

Definition command_type (m : mtch) : JobType := if String.eqb (group_ m "command") "get" then GET else PGET.

(** The jobs so far, latest first, and the further lines consumed *)
Definition step_result : Type := list LftpJobStatus * nat.

Definition pget_step (jobs : list LftpJobStatus) (m : mtch) (rest : list string) : result step_result :=
  match rest with
  | [] => Raise ValueError
  | sftp :: rest' =>
      if negb (contains sftp "sftp") then Raise ValueError else
      let data := match rest' with l :: _ => if is_chunk l then Some l else None | [] => None end in
      id ← int_ (group_ m "id");
      let remote := group_ m "remote" in
      let status := job_of id (command_type m) JRUNNING (group_ m "flags") remote (group_ m "local") in
      found ← match data with
              | None => Ok None
              | Some l => chunk_data (String.eqb remote) (fun n => String.eqb (job_basename n) (job_basename remote)) l
              end;
      let '(shape, t) := default ("none", no_transfer) found in
      status ← with_total status shape t;
      Ok (status :: jobs, match data with Some _ => 2%nat | None => 1%nat end)
  end.

Definition known_step (jobs : list LftpJobStatus) (h : known_header) : result step_result :=
  let '(id, flags, remote, local, progress) := h in
  let status := job_of id MIRROR JRUNNING flags remote local in
  status ← match progress with
           | Some (szlocal, szremote, pct, spd) => t ← mirror_state szlocal szremote pct spd; with_total status "got" t
           | None => __set_record_provenance status "none" no_transfer
           end;
  Ok (status :: jobs, O).

Definition mirror_step (jobs : list LftpJobStatus) (m : mtch) : result step_result :=
  id ← int_ (group_ m "id");
  let status := job_of id MIRROR JRUNNING (group_ m "flags") (group_ m "remote") (group_ m "local") in
  t ← mirror_state (group_ m "szlocal") (group_ m "szremote") (group_ m "pctlocal") (group m "speed");
  status ← with_total status "got" t;
  Ok (status :: jobs, O).

(** [lines and f(lines[0])] *)
Definition next_is (f : string -> bool) (rest : list string) : bool := match rest with l :: _ => f l | [] => false end.

Definition listing_line (l : string) : bool := startswith l "Getting file list" || startswith l "cd ".
Definition one_if (b : bool) : nat := if b then 1%nat else O.

Definition mirror_fl_step (jobs : list LftpJobStatus) (m : mtch) (rest : list string) : result step_result :=
  id ← int_ (group_ m "id");
  let status := job_of id MIRROR JRUNNING (group_ m "flags") (group_ m "remote") (group_ m "local") in
  status ← __set_record_provenance status "none" no_transfer;
  Ok (status :: jobs, one_if (next_is listing_line rest)).

Definition filename_step (jobs : list LftpJobStatus) (m : mtch) (rest : list string) : result step_result :=
  let name := group_ m "name" in
  match rest with
  | line :: _ =>
      if negb (startswith line "`") then Ok (jobs, O) else
      match jobs with
      | [] => Raise AssertionError
      | prev_job :: others =>
          found ← chunk_data (fun n => String.eqb n (job_basename name)) (fun n => String.eqb n (job_basename name)) line;
          match found with
          | None => Raise ValueError
          | Some (_, t) => prev_job ← add_active_file_transfer_state prev_job name t; Ok (prev_job :: others, 1%nat)
          end
      end
  | [] => Ok (jobs, O)
  end.

Definition mirror_empty_skip (m : mtch) (l : string) : bool :=
  contains l "Getting file list" || startswith l "cd " || String.eqb l (group_ m "name" +:+ ":") || startswith l "mkdir ".

Definition chmod_step (jobs : list LftpJobStatus) (m : mtch) (rest : list string) : result step_result :=
  match rest with
  | l :: rest' =>
      if negb (startswith l "file:") then Raise ValueError else
      match rest' with
      | l' :: _ =>
          match re_search chmod_pattern_m l' with
          | Some m' => if String.eqb (group_ m "name") (group_ m' "name") then Ok (jobs, 2%nat) else Raise ValueError
          | None => Ok (jobs, 1%nat)
          end
      | [] => Ok (jobs, 1%nat)
      end
  | [] => Raise ValueError
  end.

Definition is_orphan (line : string) : bool :=
  is_match orphan_progress_m line || is_match partial_progress_m line || is_match chunk_wrap_m line.

(** lines after the headers, inside a job *)
Definition detail_step (jobs : list LftpJobStatus) (line : string) (rest : list string) : result step_result :=
  match re_search filename_m line with
  | Some m => filename_step jobs m rest
  | None =>
      if is_found mirror_m line then Ok (jobs, O) else
      match re_search mirror_empty_m line with
      | Some m => Ok (jobs, one_if (next_is (mirror_empty_skip m) rest))
      | None =>
          if negb (bool_decide (jobs = [])) && listing_line line then Ok (jobs, O)
          else if is_found chunk_header_m line then Ok (jobs, one_if (next_is (fun l => startswith l "`") rest))
          else match re_search chmod_header_m line with
               | Some m => chmod_step jobs m rest
               | None =>
                   if is_match __QUEUE_DONE_REGEX line then
                     match rest with [] => Ok (jobs, O) | _ :: _ => Raise ValueError end
                   else if negb (bool_decide (jobs = [])) then Ok (jobs, O)
                   else if is_orphan line then Ok (jobs, O)
                   else Raise ValueError
               end
      end
  end.

(** One round of the loop of [__parse_jobs] *)
Definition job_step (jobs : list LftpJobStatus) (line : string) (rest : list string) : result step_result :=
  known ← __parse_known_options_mirror_header line __MIRROR_HEADER_PREFIX_REGEX;
  if __is_wrong_type_failure_line line || startswith line "mirror: Access failed:" then Ok (jobs, O) else
  if negb (negb (bool_decide (jobs = [])) || is_match pget_header_m line || bool_decide (is_Some known) ||
           is_match mirror_header_m line || is_match mirror_fl_header_m line)
  then (if is_orphan line then Ok (jobs, O) else Raise ValueError)
  else
    match re_search pget_header_m line with
    | Some m => pget_step jobs m rest
    | None =>
        match known with
        | Some h => known_step jobs h
        | None =>
            match re_search mirror_header_m line with
            | Some m => mirror_step jobs m
            | None =>
                match re_search mirror_fl_header_m line with
                | Some m => mirror_fl_step jobs m rest
                | None => detail_step jobs line rest
                end
            end
        end
    end.

(** [skipped] lines were consumed by the round before. *)
Fixpoint jobs_from (jobs : list LftpJobStatus) (skipped : nat) (lines : list string) : result (list LftpJobStatus) :=
  match lines with
  | [] => Ok jobs
  | line :: rest =>
      match skipped with
      | S n => jobs_from jobs n rest
      | O => '(jobs, n) ← job_step jobs line rest; jobs_from jobs n rest
      end
  end.

Definition __parse_jobs (lines : list string) : result (list LftpJobStatus) :=
  jobs ← jobs_from [] O lines; Ok (rev jobs).

(** ** The queue *)

Definition queue_stop (l : string) : bool :=
  is_match dotted_line l || is_match cd_line l || is_match bracket_line l || is_match __QUEUE_DONE_REGEX l.

(** how many lines to skip up to the next one that starts something *)
Fixpoint count_until (stop : string -> bool) (lines : list string) : nat :=
  match lines with [] => O | l :: lines' => if stop l then O else S (count_until stop lines') end.

Definition queued_of (ty : JobType) (m : mtch) : result LftpJobStatus :=
  id ← int_ (group_ m "id");
  Ok (job_of id ty JQUEUED (group_ m "flags") (group_ m "remote") (group_ m "local")).

(** A numbered line of the queue: the command, if it can be read, and how many
    following lines go with it *)
Definition queued_command (line : string) (rest : list string) : result (list LftpJobStatus * nat) :=
  if contains line "jobs -v" then Ok ([], count_until queue_stop rest) else
  known ← __parse_known_options_mirror_header line __MIRROR_QUEUE_HEADER_PREFIX_REGEX;
  match known with
  | Some (id, flags, remote, local, _) => Ok ([job_of id MIRROR JQUEUED flags remote local], O)
  | None =>
      match re_match queue_pget_m line with
      | Some m => j ← queued_of (command_type m) m; Ok ([j], O)
      | None =>
          match re_match queue_mirror_m line with
          | Some m => j ← queued_of MIRROR m; Ok ([j], O)
          | None => Ok ([], count_until queue_stop rest)
          end
      end
  end.

(** The commands waiting, and the lines after them *)
Fixpoint commands_from (skipped : nat) (lines : list string) : result (list LftpJobStatus * list string) :=
  match lines with
  | [] => Ok ([], [])
  | line :: rest =>
      match skipped with
      | S n => commands_from n rest
      | O =>
          if is_match dotted_line line then
            '(js, n) ← queued_command line rest;
            '(js', rest') ← commands_from n rest;
            Ok (js ++ js', rest')
          else if is_match cd_line line then commands_from O rest
          else Ok ([], lines)
      end
  end.

Definition queue_status (lines : list string) : result (list string) :=
  match lines with
  | [] => Raise ValueError
  | line :: lines =>
      Ok (if is_match queue_stopped line then lines
          else if is_match (Lit "Now executing:") line then drop_while (is_match executing_line) lines
          else lines)
  end.

Definition queued_jobs (lines : list string) : result (list LftpJobStatus * list string) :=
  if next_is (is_match (Lit "Commands queued:")) lines then
    match tail lines with
    | [] => Raise ValueError
    | lines => commands_from O lines
    end
  else Ok ([], lines).

(** a last line that says the queue is done is dropped *)
Definition drop_done (lines : list string) : list string :=
  if next_is (is_match __QUEUE_DONE_REGEX) lines then tail lines else lines.

Definition __parse_queue (lines : list string) : result (list LftpJobStatus * list string) :=
  match lines with
  | [] => Ok ([], [])
  | [line] => if is_match __QUEUE_DONE_REGEX line then Ok ([], []) else Raise ValueError
  | line1 :: line2 :: lines =>
      if negb (is_match queue_header1 line1) then Raise ValueError
      else if negb (is_match queue_header2 line2) then Raise ValueError
      else
        lines ← queue_status lines;
        '(queue, lines) ← queued_jobs lines;
        Ok (queue, drop_done lines)
  end.

(** ** The snapshot *)

Inductive outcome := complete_success | blank_empty | partial_queue | hard_error | not_attempted.

#[export] Instance outcome_eq_dec : EqDecision outcome.
Proof. solve_decision. Defined.

Definition esc : string := str [chr 27].

(** the bracketed-paste toggles *)
Definition paste_toggles : list string := [esc +:+ "[?2004h"; esc +:+ "[?2004l"].

Definition snapshot_lines (output : string) : list string :=
  List.filter (fun l => negb (bool_decide (l ∈ paste_toggles)))
    (List.filter (fun l => negb (String.eqb l "")) (map strip (splitlines output))).

Fixpoint index_of (f : string -> bool) (lines : list string) : option nat :=
  match lines with [] => None | l :: lines' => if f l then Some O else S <$> index_of f lines' end.

Definition is_marker (l : string) : bool := String.eqb l __STATUS_COMMAND_ECHO_MARKER.

Definition fail_snapshot {A} (msg : string) : st outcome A :=
  modify (fun _ => hard_error);; raise (LftpJobStatusParserError msg).

Definition parse_status_lines (lines : list string) : st outcome (list LftpJobStatus) :=
  let has_wrong_type_failure := existsb __is_wrong_type_failure_line lines in
  match __parse_queue lines with
  | Raise LftpKnownOptionsMirrorHeaderError => fail_snapshot "Lftp status output had incomplete queue membership"
  | Raise ValueError => modify (fun _ => partial_queue);; mret []
  | Raise e => raise e
  | Ok (queue, lines) =>
      match __parse_jobs lines with
      | Raise ValueError | Raise LftpKnownOptionsMirrorHeaderError =>
          fail_snapshot "Lftp status output had incomplete job membership"
      | Raise e => raise e
      | Ok jobs =>
          let statuses := queue ++ jobs in
          if has_wrong_type_failure && negb (bool_decide (statuses = [])) &&
             negb (existsb (fun j => bool_decide (job_state j = JRUNNING)) statuses)
          then modify (fun _ => hard_error);; mret []
          else modify (fun _ => if bool_decide (statuses = []) then blank_empty else complete_success);; mret statuses
      end
  end.

Definition __parse (output : string) : st outcome (list LftpJobStatus) :=
  modify (fun _ => not_attempted);;
  let lines := snapshot_lines output in
  if existsb (is_match __STATUS_COMMAND_ECHO_BRACKETED_LINE_REGEX) lines then
    fail_snapshot "Lftp status output contained a bracketed status command echo"
  else
  let jobs_marker_index := index_of is_marker lines in
  let preamble := match jobs_marker_index with None => lines | Some i => take i lines end in
  if existsb (is_match __QUEUE_COMMAND_ECHO_REGEX) preamble then
    fail_snapshot "Lftp status output contained a queue command echo before the snapshot"
  else
  let lines := match jobs_marker_index with None => lines | Some i => drop (S i) lines end in
  if existsb (is_match __QUEUE_COMMAND_ECHO_REGEX) lines then
    fail_snapshot "Lftp status output contained a queue command echo instead of a complete snapshot"
  else if existsb __has_status_command_echo lines then
    fail_snapshot "Lftp status command echo was interleaved with transfer progress"
  else
    parse_status_lines
      (List.filter (fun l => negb (is_match log_line l)) (List.filter (fun l => negb (is_marker l)) lines)).

Definition parse (output : string) : st outcome (list LftpJobStatus) := fun o =>
  match __parse output not_attempted with
  | (Ok statuses, o') => (Ok statuses, o')
  | (Raise e, _) => (Raise e, hard_error)
  end.
