(* ===== verification/LftpParserFacts.v ===== *)
(** * What the LFTP status parser answers

    The errors each part of [LftpParser] can raise, the shape of the snapshot
    it returns, and where the jobs in it come from. *)

From S2P Require Import Prelude PyStr PyDict PyFloat JobStatus Regex LftpParser.

(** ** Errors *)

(** A call returns, or raises one of these. *)
Definition errs {A} (E : list exn) (r : result A) : Prop := match r with Ok _ => True | Raise e => e ∈ E end.

Definition header_errors : list exn := [ValueError; LftpKnownOptionsMirrorHeaderError].
Definition row_errors : list exn := [ValueError; OverflowError; LftpKnownOptionsMirrorHeaderError].

Lemma errs_bind {A B} E (m : result A) (f : A -> result B) : errs E m -> (forall a, m = Ok a -> errs E (f a)) -> errs E (m ≫= f).
Proof. destruct m; simpl; auto. Qed.

Lemma errs_mono {A} E E' (m : result A) : errs E m -> E ⊆ E' -> errs E' m.
Proof. destruct m; simpl; auto. Qed.

Lemma errs_raise {A} E e : e ∈ E -> errs (A := A) E (Raise e).
Proof. done. Qed.

Lemma errs_ok {A} E (a : A) : errs E (Ok a).
Proof. done. Qed.

Create HintDb errs.
#[export] Hint Resolve errs_ok : errs.
#[export] Hint Extern 1 (_ ∈ _) => (unfold header_errors, row_errors; set_solver) : errs.
#[export] Hint Resolve errs_raise : errs.

Ltac errs_step :=
  match goal with
  | |- errs _ (mbind _ _) => apply errs_bind; [|intros ? ?]
  | |- errs _ (let '(_, _) := ?x in _) => destruct x
  | |- errs _ (match ?x with _ => _ end) => destruct x eqn:?
  | |- errs _ _ => solve [eauto with errs]
  end.

Lemma int_errs E s : ValueError ∈ E -> errs E (int_ s).
Proof. intros HV. unfold int_. repeat errs_step. Qed.

Lemma trunc_errs x : errs row_errors (trunc x).
Proof. unfold trunc. repeat errs_step. Qed.
#[export] Hint Resolve int_errs trunc_errs : errs.

Lemma size_errs s : errs row_errors (_size_to_bytes s).
Proof. unfold _size_to_bytes. repeat errs_step. Qed.

Lemma mirror_size_errs s : errs row_errors (_mirror_size_to_bytes s).
Proof. unfold _mirror_size_to_bytes. repeat errs_step. Qed.

Lemma eta_errs s : errs row_errors (_eta_to_seconds s).
Proof. unfold _eta_to_seconds, eta_part. repeat errs_step. Qed.
#[export] Hint Resolve size_errs mirror_size_errs eta_errs : errs.

Lemma if_text_errs {A} E o (f : string -> result A) : (forall s, errs E (f s)) -> errs E (if_text o f).
Proof. intros H. unfold if_text. repeat errs_step. Qed.
#[export] Hint Resolve if_text_errs : errs.

Lemma chunk_data_errs f g line : errs row_errors (chunk_data f g line).
Proof. unfold chunk_data, at_state, got_state. repeat errs_step. Qed.

Lemma mirror_state_errs a b p s : errs row_errors (mirror_state a b p s).
Proof. unfold mirror_state. repeat errs_step. Qed.

Lemma words_errs E l : LftpKnownOptionsMirrorHeaderError ∈ E -> forall i cur, errs E (words_from i cur l).
Proof.
  intros HK.
  remember (length l) as n eqn:Hn. revert l Hn. induction (lt_wf n) as [n _ IH]. intros l ->.
  assert (H : forall l' i cur, (length l' < length l)%nat -> errs E (words_from i cur l')).
  { intros l' i cur Hl. by eapply IH. }
  clear IH. destruct l as [|c l]; intros i cur; cbn [words_from].
  { destruct cur as [[[? ?] [?|]]|]; eauto with errs. }
  cbn [length] in H. repeat errs_step; apply H; simpl; lia.
Qed.

Lemma positional_errs E ws : LftpKnownOptionsMirrorHeaderError ∈ E -> forall pos, errs E (positional_words pos ws).
Proof.
  intros HK.
  remember (length ws) as n eqn:Hn. revert ws Hn. induction (lt_wf n) as [n _ IH]. intros ws ->.
  assert (H : forall ws' pos, (length ws' < length ws)%nat -> errs E (positional_words pos ws')).
  { intros ws' pos Hl. by eapply IH. }
  clear IH. destruct ws as [|w ws]; intros pos; cbn [positional_words]; [by eauto with errs|].
  cbn [length] in H. repeat errs_step; apply H; simpl; lia.
Qed.
#[export] Hint Resolve chunk_data_errs mirror_state_errs words_errs positional_errs : errs.

Lemma known_header_errs E line r : ValueError ∈ E -> LftpKnownOptionsMirrorHeaderError ∈ E ->
  errs E (__parse_known_options_mirror_header line r).
Proof. intros HV HK. unfold __parse_known_options_mirror_header, two_paths, mirror_progress. repeat errs_step. Qed.
#[export] Hint Resolve known_header_errs : errs.

(** ** The records a row builds *)

Lemma provenance_ok j shape t : exists sh fp, __set_record_provenance j shape t =
  Ok (mkJob (job_id j) (job_type j) (job_state j) (job_name j) (job_flags j) (job_remote_path j) (job_local_path j)
        (job_path_pair_id j) (job_path_pair_name j) (total_transfer_state j) (active_files_state j) sh fp) /\
  sh ∈ ["at"; "got"; "none"].
Proof.
  unfold __set_record_provenance, set_record_provenance. eexists _, _. split; [reflexivity|].
  destruct (existsb _ _) eqn:E; [|set_solver]. apply existsb_exists in E as (x & Hx & Ex). apply String.eqb_eq in Ex as ->.
  by apply list_elem_of_In.
Qed.

(** A running record stays running, keeps its identity and its invariant. *)
Definition same_job (j j' : LftpJobStatus) : Prop :=
  job_id j' = job_id j /\ job_type j' = job_type j /\ job_name j' = job_name j /\ job_flags j' = job_flags j /\
  job_remote_path j' = job_remote_path j /\ job_local_path j' = job_local_path j.

Lemma same_job_trans a b c : same_job a b -> same_job b c -> same_job a c.
Proof. unfold same_job. intuition congruence. Qed.

Definition running (j : LftpJobStatus) : Prop := job_state j = JRUNNING /\ job_wf j.
Definition queued (j : LftpJobStatus) : Prop := job_state j = JQUEUED /\ job_wf j.

Lemma job_of_wf id ty s f r l : job_wf (job_of id ty s f r l).
Proof. apply job_status_invariant. constructor. Qed.

Lemma provenance_running j shape t : running j -> exists j',
  __set_record_provenance j shape t = Ok j' /\ running j' /\ same_job j j' /\
  total_transfer_state j' = total_transfer_state j /\ active_files_state j' = active_files_state j.
Proof.
  intros [Hs Hw]. destruct (provenance_ok j shape t) as (sh & fp & E & Hsh). rewrite E. eexists. split; [reflexivity|].
  split; [|by repeat split]. split; [done|]. destruct Hw. constructor; simpl; auto.
Qed.

Lemma with_total_running j shape t : running j -> exists j', with_total j shape t = Ok j' /\ running j' /\ same_job j j' /\
  total_transfer_state j' = t /\ active_files_state j' = active_files_state j.
Proof.
  intros H. unfold with_total. destruct (provenance_running j shape t H) as (j1 & E & [Hs Hw] & Hj & Ht & Ha). rewrite E. simpl.
  unfold set_total_transfer_state. rewrite Hs. eexists. split; [reflexivity|]. split; [|split; [exact Hj|by split]].
  split; [done|]. destruct Hw. constructor; simpl; auto. congruence.
Qed.

Lemma add_active_running j n t : running j -> exists j', add_active_file_transfer_state j n t = Ok j' /\ running j' /\ same_job j j' /\
  total_transfer_state j' = total_transfer_state j /\ active_files_state j' = dset (active_files_state j) n t.
Proof.
  intros [Hs Hw]. unfold add_active_file_transfer_state. rewrite Hs. eexists. split; [reflexivity|].
  split; [|by repeat split]. split; [done|]. destruct Hw. constructor; simpl; auto. congruence.
Qed.

(** ** One round of the loop *)

(** A row of the snapshot that starts a job, and the identity it gives it *)
Inductive header_of (line : string) (j : LftpJobStatus) : Prop :=
  | pget_header m id : re_search pget_header_m line = Some m -> int_ (group_ m "id") = Ok id ->
      same_job (job_of id (command_type m) JRUNNING (group_ m "flags") (group_ m "remote") (group_ m "local")) j -> header_of line j
  | known_mirror_header id flags remote local p :
      __parse_known_options_mirror_header line __MIRROR_HEADER_PREFIX_REGEX = Ok (Some (id, flags, remote, local, p)) ->
      same_job (job_of id MIRROR JRUNNING flags remote local) j -> header_of line j
  | mirror_header m id : re_search mirror_header_m line = Some m \/ re_search mirror_fl_header_m line = Some m ->
      int_ (group_ m "id") = Ok id ->
      same_job (job_of id MIRROR JRUNNING (group_ m "flags") (group_ m "remote") (group_ m "local")) j -> header_of line j.

(** A round starts one job from its line, or updates the last one, or nothing. *)
Inductive round (line : string) (jobs : list LftpJobStatus) : list LftpJobStatus -> Prop :=
  | round_idle : round line jobs jobs
  | round_start j : header_of line j -> running j -> round line jobs (j :: jobs)
  | round_update j j' others : jobs = j :: others -> same_job j j' -> running j' -> round line jobs (j' :: others).

Definition round_ok (line : string) (jobs : list LftpJobStatus) (r : result step_result) : Prop :=
  match r with
  | Ok (jobs', _) => round line jobs jobs'
  | Raise e => e ∈ row_errors
  end.

Lemma round_bind {A} line jobs (m : result A) (f : A -> result step_result) :
  errs row_errors m -> (forall a, m = Ok a -> round_ok line jobs (f a)) -> round_ok line jobs (m ≫= f).
Proof. destruct m; simpl; auto. Qed.

Lemma running_job_of id ty f r l : running (job_of id ty JRUNNING f r l).
Proof. split; [done|apply job_of_wf]. Qed.

Lemma value_error_round line jobs : round_ok line jobs (Raise ValueError).
Proof. unfold round_ok, row_errors. set_solver. Qed.

Lemma idle_round line jobs n : round_ok line jobs (Ok (jobs, n)).
Proof. constructor. Qed.
#[export] Hint Resolve running_job_of value_error_round idle_round : errs.

Lemma pget_step_round line jobs m rest : re_search pget_header_m line = Some m -> round_ok line jobs (pget_step jobs m rest).
Proof.
  intros Hm. unfold pget_step. destruct rest as [|sftp rest]; [by auto with errs|]. case_match; [by auto with errs|].
  apply round_bind; [by auto with errs|]. intros id Hid. apply round_bind; [case_match; by auto with errs|]. intros found _.
  destruct (default _ found) as [shape t].
  edestruct (with_total_running (job_of id (command_type m) JRUNNING (group_ m "flags") (group_ m "remote") (group_ m "local")) shape t)
    as (j & E & Hr & Hj & _); [by auto with errs|]. rewrite E. simpl. apply round_start; [|done]. by eapply pget_header.
Qed.

Lemma known_step_round line jobs h :
  __parse_known_options_mirror_header line __MIRROR_HEADER_PREFIX_REGEX = Ok (Some h) -> round_ok line jobs (known_step jobs h).
Proof.
  destruct h as [[[[id flags] remote] local] p]. intros Hh. unfold known_step.
  set (j0 := job_of id MIRROR JRUNNING flags remote local). assert (H0 : running j0) by apply running_job_of.
  destruct p as [[[[a b] c] d]|].
  - pose proof (mirror_state_errs a b c d) as H. destruct (mirror_state a b c d) as [t|e]; [|exact H]. clear H.
    cbn [mbind result_bind]. destruct (with_total_running j0 "got" t H0) as (j & E & Hr & Hj & _). rewrite E.
    apply round_start; [|done]. by eapply known_mirror_header.
  - destruct (provenance_running j0 "none" no_transfer H0) as (j & E & Hr & Hj & _). rewrite E.
    apply round_start; [|done]. by eapply known_mirror_header.
Qed.

Lemma mirror_step_round line jobs m : re_search mirror_header_m line = Some m -> round_ok line jobs (mirror_step jobs m).
Proof.
  intros Hm. unfold mirror_step. apply round_bind; [by auto with errs|]. intros id Hid.
  apply round_bind; [by auto with errs|]. intros t _.
  destruct (with_total_running (job_of id MIRROR JRUNNING (group_ m "flags") (group_ m "remote") (group_ m "local")) "got" t)
    as (j & E & Hr & Hj & _); [by auto with errs|]. rewrite E. simpl. apply round_start; [|done]. eapply mirror_header; eauto.
Qed.

Lemma mirror_fl_step_round line jobs m rest :
  re_search mirror_fl_header_m line = Some m -> round_ok line jobs (mirror_fl_step jobs m rest).
Proof.
  intros Hm. unfold mirror_fl_step. apply round_bind; [by auto with errs|]. intros id Hid.
  destruct (provenance_running (job_of id MIRROR JRUNNING (group_ m "flags") (group_ m "remote") (group_ m "local")) "none" no_transfer)
    as (j & E & Hr & Hj & _); [by auto with errs|]. rewrite E. simpl. apply round_start; [|done]. eapply mirror_header; eauto.
Qed.

Lemma filename_step_round line jobs m rest : jobs <> [] -> Forall running jobs -> round_ok line jobs (filename_step jobs m rest).
Proof.
  intros Hne Hr. unfold filename_step. destruct rest as [|l rest]; [by auto with errs|]. case_match; [by auto with errs|].
  destruct jobs as [|j others]; [done|]. apply round_bind; [by auto with errs|]. intros [[sh t]|] _; [|by auto with errs].
  apply Forall_cons in Hr as [Hj _]. destruct (add_active_running j (group_ m "name") t Hj) as (j' & E & Hr' & Hs & _).
  rewrite E. simpl. by eapply round_update.
Qed.

Lemma detail_step_round line jobs rest : jobs <> [] -> Forall running jobs -> round_ok line jobs (detail_step jobs line rest).
Proof.
  intros Hne Hr. unfold detail_step, chmod_step. destruct (re_search filename_m line) as [m|]; [by apply filename_step_round|].
  repeat case_match; auto with errs.
Qed.


Lemma is_match_search r s : is_match r s = true -> re_search r s <> None.
Proof. unfold is_match. destruct (re_match r s) eqn:E; [|done]. intros _. by rewrite (match_search _ _ _ E). Qed.

(** The guard on the first line makes the assertion of the loop hold: details
    are only read when there is a job. *)
Lemma job_step_round line jobs rest : Forall running jobs -> round_ok line jobs (job_step jobs line rest).
Proof.
  intros Hr. unfold job_step. apply round_bind; [by auto with errs|]. intros known Hk. case_match; [by auto with errs|].
  destruct (negb (bool_decide (jobs = []))) eqn:Ej; cbn [orb].
  - apply negb_true_iff, bool_decide_eq_false in Ej. cbn [negb]. destruct (re_search pget_header_m line) eqn:E1; [by apply pget_step_round|].
    destruct known; [by apply known_step_round|]. destruct (re_search mirror_header_m line) eqn:E2; [by apply mirror_step_round|].
    destruct (re_search mirror_fl_header_m line) eqn:E3; [by apply mirror_fl_step_round|]. by apply detail_step_round.
  - case_match eqn:Eg; [case_match; by auto with errs|]. apply negb_false_iff in Eg.
    destruct (re_search pget_header_m line) eqn:E1; [by apply pget_step_round|].
    destruct known; [by apply known_step_round|]. destruct (re_search mirror_header_m line) eqn:E2; [by apply mirror_step_round|].
    destruct (re_search mirror_fl_header_m line) eqn:E3; [by apply mirror_fl_step_round|].
    exfalso. repeat (apply orb_prop in Eg as [Eg|Eg]); try (by apply is_match_search in Eg).
    by apply bool_decide_eq_true in Eg as [? ?].
Qed.

(** The jobs of a snapshot: each comes from a header among the lines. *)
Lemma jobs_from_ok lines : forall jobs n, Forall running jobs ->
  match jobs_from jobs n lines with
  | Ok jobs' => Forall running jobs' /\
      Forall (fun j' => (exists line, line ∈ lines /\ header_of line j') \/ exists j, j ∈ jobs /\ same_job j j') jobs'
  | Raise e => e ∈ row_errors
  end.
Proof.
  induction lines as [|line rest IH]; intros jobs n Hr; simpl.
  { split; [done|]. apply Forall_forall. intros j Hj. right. by exists j. }
  destruct n as [|n].
  2: { specialize (IH jobs n Hr). destruct (jobs_from jobs n rest); [|done]. destruct IH as [H1 H2]. split; [done|].
       eapply Forall_impl; [exact H2|]. simpl. intros j [(l & Hl & Hh)|?]; [left|by right]. exists l. split; [by constructor|done]. }
  pose proof (job_step_round line jobs rest Hr) as Hs. destruct (job_step jobs line rest) as [[jobs' n]|e]; [|exact Hs].
  simpl in *. assert (Hr' : Forall running jobs').
  { inversion Hs; subst; auto. apply Forall_cons. split; [done|]. by apply Forall_cons in Hr as [_ ?]. }
  specialize (IH jobs' n Hr'). destruct (jobs_from jobs' n rest); [|done]. destruct IH as [H1 H2]. split; [done|].
  eapply Forall_impl; [exact H2|]. simpl. intros j [(l & Hl & Hh)|(j1 & Hj1 & Hsame)].
  { left. exists l. split; [by constructor|done]. }
  inversion Hs as [|j2 Hh Hrun|j2 j3 others E Hs2 Hrun]; subst.
  - right. by exists j1.
  - apply elem_of_cons in Hj1 as [->|Hj1]; [|right; by exists j1]. left. exists line. split; [by constructor|].
    destruct Hh; [eapply pget_header|eapply known_mirror_header|eapply mirror_header]; eauto; by eapply same_job_trans.
  - right. apply elem_of_cons in Hj1 as [->|Hj1]; [exists j2|exists j1]; (split; [by constructor|]); [by eapply same_job_trans|done].
Qed.

(** ** The queue *)

(** A numbered row of the queue, and the identity it gives its job *)
Inductive queue_row (line : string) (j : LftpJobStatus) : Prop :=
  | known_queue_row id flags remote local p :
      __parse_known_options_mirror_header line __MIRROR_QUEUE_HEADER_PREFIX_REGEX = Ok (Some (id, flags, remote, local, p)) ->
      j = job_of id MIRROR JQUEUED flags remote local -> queue_row line j
  | pget_queue_row m id : re_match queue_pget_m line = Some m -> int_ (group_ m "id") = Ok id ->
      j = job_of id (command_type m) JQUEUED (group_ m "flags") (group_ m "remote") (group_ m "local") -> queue_row line j
  | mirror_queue_row m id : re_match queue_mirror_m line = Some m -> int_ (group_ m "id") = Ok id ->
      j = job_of id MIRROR JQUEUED (group_ m "flags") (group_ m "remote") (group_ m "local") -> queue_row line j.

Definition row_queued (line : string) (j : LftpJobStatus) : Prop := queued j /\ queue_row line j.

Lemma queued_job_of id ty f r l : queued (job_of id ty JQUEUED f r l).
Proof. split; [done|apply job_of_wf]. Qed.

Definition queued_ok (line : string) (r : result (list LftpJobStatus * nat)) : Prop :=
  match r with Ok (js, _) => Forall (row_queued line) js | Raise e => e ∈ header_errors end.

Lemma queued_of_ok line ty m (P : forall id j, int_ (group_ m "id") = Ok id ->
    j = job_of id ty JQUEUED (group_ m "flags") (group_ m "remote") (group_ m "local") -> queue_row line j) :
  queued_ok line (j ← queued_of ty m; Ok ([j], O)).
Proof.
  unfold queued_of. pose proof (int_errs header_errors (group_ m "id")) as H.
  destruct (int_ (group_ m "id")) as [id|e]; simpl; [|by apply H; auto with errs].
  apply Forall_singleton. split; [apply queued_job_of|by eapply P].
Qed.

Lemma queued_command_ok line rest : queued_ok line (queued_command line rest).
Proof.
  unfold queued_command. case_match; [constructor|].
  pose proof (known_header_errs header_errors line __MIRROR_QUEUE_HEADER_PREFIX_REGEX) as He.
  destruct (__parse_known_options_mirror_header _ _) as [[h|]|e] eqn:Eh; simpl; [| |by apply He; auto with errs].
  - destruct h as [[[[id flags] remote] local] p]. apply Forall_singleton. split; [apply queued_job_of|by eapply known_queue_row].
  - destruct (re_match queue_pget_m line) eqn:E1; [apply queued_of_ok; intros; by eapply pget_queue_row|].
    destruct (re_match queue_mirror_m line) eqn:E2; [apply queued_of_ok; intros; by eapply mirror_queue_row|constructor].
Qed.

(** what a list of lines gives: its rows, and a tail of it *)
Definition rows_ok (lines : list string) (r : result (list LftpJobStatus * list string)) : Prop :=
  match r with
  | Ok (js, rest) => rest `suffix_of` lines /\ Forall (fun j => exists line, line ∈ lines /\ row_queued line j) js
  | Raise e => e ∈ header_errors
  end.

Lemma rows_ok_suffix lines lines' r : rows_ok lines' r -> lines' `suffix_of` lines -> rows_ok lines r.
Proof.
  unfold rows_ok. intros H Hs. destruct r as [[js rest]|e]; [|done]. destruct H as [H1 H2]. split; [by etrans|].
  eapply Forall_impl; [exact H2|]. simpl. intros j (l & Hl & ?). exists l. split; [|done].
  destruct Hs as [k ->]. apply elem_of_app. by right.
Qed.

Lemma rows_ok_none lines : rows_ok lines (Ok ([], lines)).
Proof. split; [reflexivity|constructor]. Qed.

Lemma commands_from_ok lines : forall n, rows_ok lines (commands_from n lines).
Proof.
  induction lines as [|line rest IH]; intros n; simpl; [apply rows_ok_none|].
  assert (Hs : rest `suffix_of` line :: rest) by by exists [line].
  destruct n as [|n]; [|by eapply rows_ok_suffix]. case_match; [|case_match; [by eapply rows_ok_suffix|apply rows_ok_none]].
  pose proof (queued_command_ok line rest) as Hq. destruct (queued_command line rest) as [[js n]|e]; [|exact Hq].
  simpl. specialize (IH n). destruct (commands_from n rest) as [[js' rest']|e]; [|exact IH]. simpl.
  eapply (rows_ok_suffix _ _ _ IH) in Hs as [Hs1 Hs2]. split; [done|]. apply Forall_app. split; [|done].
  eapply Forall_impl; [exact Hq|]. simpl. intros j Hj. exists line. split; [by constructor|done].
Qed.

Lemma drop_while_suffix_of {A} (p : A -> bool) l : drop_while p l `suffix_of` l.
Proof. destruct (drop_while_suffix p l) as [k Hk]. by exists k. Qed.

Lemma tail_suffix_of {A} (l : list A) : tail l `suffix_of` l.
Proof. destruct l as [|x l]; [done|]. by exists [x]. Qed.

Lemma parse_queue_ok lines : rows_ok lines (__parse_queue lines).
Proof.
  assert (HV : forall l, rows_ok l (Raise ValueError)) by (intros; simpl; auto with errs).
  unfold __parse_queue. destruct lines as [|l1 [|l2 lines]]; [apply rows_ok_none|case_match; [split; [by exists [l1]|constructor]|by apply HV]|].
  case_match; [by apply HV|]. case_match; [by apply HV|].
  apply (rows_ok_suffix _ lines); [|by exists [l1; l2]]. destruct lines as [|l lines]; [by apply HV|].
  apply (rows_ok_suffix _ lines); [|by exists [l]]. unfold queue_status. cbn [mbind result_bind].
  set (lines' := if is_match queue_stopped l then _ else _).
  assert (Hl : lines' `suffix_of` lines) by (unfold lines'; repeat case_match; auto using drop_while_suffix_of).
  apply (rows_ok_suffix _ lines'); [|done]. clearbody lines'. clear l lines Hl. unfold queued_jobs.
  assert (Hd : forall l r, rows_ok l r -> rows_ok l ('(queue, lines) ← r; Ok (queue, drop_done lines))).
  { intros l [[q rest]|e]; [|done]. intros [H1 H2]. split; [|done]. etrans; [|exact H1]. unfold drop_done.
    case_match; [apply tail_suffix_of|done]. }
  apply Hd. case_match; [|apply rows_ok_none]. pose proof (tail_suffix_of lines') as Ht. destruct (tail lines') as [|l ls]; [by apply HV|].
  eapply rows_ok_suffix; [apply commands_from_ok|done].
Qed.

(** ** The snapshot *)

Lemma parse_jobs_ok lines :
  match __parse_jobs lines with
  | Ok jobs => Forall (fun j => running j /\ exists line, line ∈ lines /\ header_of line j) jobs
  | Raise e => e ∈ row_errors
  end.
Proof.
  unfold __parse_jobs. pose proof (jobs_from_ok lines [] O (Forall_nil_2 _)) as H. destruct (jobs_from [] O lines); [|done].
  destruct H as [H1 H2]. simpl. apply Forall_rev, Forall_forall. intros j Hj. rewrite Forall_forall in H1, H2.
  split; [by apply H1|]. destruct (H2 j Hj) as [?|(j' & Hj' & _)]; [done|by inversion Hj'].
Qed.

(** Queued jobs first, then running ones, each from a row of the snapshot *)
Definition from_rows (lines : list string) (statuses : list LftpJobStatus) : Prop :=
  exists queue jobs, statuses = queue ++ jobs /\
    Forall (fun j => exists line, line ∈ lines /\ row_queued line j) queue /\
    Forall (fun j => running j /\ exists line, line ∈ lines /\ header_of line j) jobs.

(** what the outcome says about the list returned *)
Definition outcome_fits (statuses : list LftpJobStatus) (o : outcome) : Prop :=
  match statuses with [] => o ∈ [blank_empty; partial_queue; hard_error] | _ :: _ => o = complete_success end.

Definition reported_error (e : exn) : Prop := (exists msg, e = LftpJobStatusParserError msg) \/ e = OverflowError.

Definition answer_ok (lines : list string) (r : result (list LftpJobStatus) * outcome) : Prop :=
  match r with
  | (Ok statuses, o) => from_rows lines statuses /\ outcome_fits statuses o
  | (Raise e, _) => reported_error e
  end.

Lemma answer_empty lines o : o ∈ [blank_empty; partial_queue; hard_error] -> answer_ok lines (Ok [], o).
Proof. intros H. split; [|done]. exists [], []. by repeat constructor. Qed.

Lemma answer_fail lines msg o : answer_ok lines (fail_snapshot msg o).
Proof. left. by exists msg. Qed.

Lemma status_lines_ok lines o : answer_ok lines (parse_status_lines lines o).
Proof.
  unfold parse_status_lines. pose proof (parse_queue_ok lines) as Hq. destruct (__parse_queue lines) as [[queue rest]|e].
  2: { simpl in Hq. unfold header_errors in Hq. apply elem_of_cons in Hq as [->|Hq]; [apply answer_empty; set_solver|].
       apply list_elem_of_singleton in Hq as ->. apply answer_fail. }
  destruct Hq as [[k ->] Hq]. pose proof (parse_jobs_ok rest) as Hj. destruct (__parse_jobs rest) as [jobs|e].
  2: { simpl in Hj. unfold row_errors in Hj. apply elem_of_cons in Hj as [->|Hj]; [apply answer_fail|].
       apply elem_of_cons in Hj as [->|Hj]; [by right|]. apply list_elem_of_singleton in Hj as ->. apply answer_fail. }
  case_match; [apply answer_empty; set_solver|]. simpl. split.
  - exists queue, jobs. split; [done|]. split; [done|]. eapply Forall_impl; [exact Hj|]. simpl.
    intros j (Hr & l & Hl & Hh). split; [done|]. exists l. split; [set_solver|done].
  - destruct (queue ++ jobs); simpl; [set_solver|done].
Qed.

Lemma answer_mono lines lines' r : answer_ok lines r -> lines ⊆ lines' -> answer_ok lines' r.
Proof.
  destruct r as [[statuses|e] o]; [|done]. intros [(q & j & -> & Hq & Hj) Ho] Hs. split; [|done]. exists q, j. split; [done|].
  split; eapply Forall_impl; try done; simpl; [intros a (l & ? & ?)|intros a (? & l & ? & ?)]; eauto.
Qed.

Lemma filter_In_subset {A} (p : A -> bool) l : List.filter p l ⊆ l.
Proof. intros x Hx. apply list_elem_of_In, filter_In in Hx as [Hx _]. by apply list_elem_of_In. Qed.

Lemma parse_ok output : answer_ok (snapshot_lines output) (__parse output not_attempted).
Proof.
  unfold __parse. set (lines := snapshot_lines output). unfold mbind, st_bind, modify.
  case_match; [apply answer_fail|]. set (ls := match index_of is_marker lines with None => lines | Some i => drop (S i) lines end).
  set (pre := match index_of is_marker lines with None => lines | Some i => take i lines end).
  assert (Hls : ls ⊆ lines).
  { unfold ls. destruct (index_of is_marker lines) as [i|]; [|done]. intros l [n Hn]%list_elem_of_lookup.
    rewrite lookup_drop in Hn. by eapply list_elem_of_lookup_2. }
  clearbody ls pre. repeat (case_match; [apply answer_fail|]). eapply answer_mono; [apply status_lines_ok|].
  etrans; [apply filter_In_subset|]. by etrans; [apply filter_In_subset|].
Qed.

(** C4: Whatever LFTP printed, the parser answers in one of these ways and
    its outcome says which: a snapshot with jobs (complete success), an empty
    one (blank, a queue that could not be read, or a recognised terminal
    failure), or, with the outcome [hard_error], an [LftpJobStatusParserError]
    or the [OverflowError] of a size too large for a float.  No other
    exception, the assertion on the current job included, can escape. *)
Theorem parse_contract output o :
  match parse output o with
  | (Ok statuses, o') => outcome_fits statuses o'
  | (Raise e, o') => o' = hard_error /\ reported_error e
  end.
Proof. unfold parse. pose proof (parse_ok output) as H. by destruct (__parse output not_attempted) as [[sts|e] o']; [destruct H|]. Qed.

(** C11: The parser invents no job and confuses none: the jobs of a snapshot
    are queued ones followed by running ones, every queued job has the number,
    kind, flags and paths of a numbered row of the output, and every running
    job those of a job header of the output, whatever progress rows followed
    it; queued jobs carry no counters. *)
Theorem parsed_jobs_grounded output o statuses o' :
  parse output o = (Ok statuses, o') -> from_rows (snapshot_lines output) statuses.
Proof. unfold parse. pose proof (parse_ok output) as H. by destruct (__parse output not_attempted) as [[sts|e] o1]; [destruct H; intros [= <- _]|]. Qed.

(** An output with one running mirror, whose local total is [size] *)
Definition one_mirror (size : string) : string :=
  "[0] queue (sftp://u@h)" +:+ str [newline] +:+ "sftp://u@h" +:+ str [newline] +:+ "Queue is stopped." +:+ str [newline] +:+
  "[1] mirror -c /remote/a /local -- " +:+ size +:+ "/20 (50%)".

Lemma parsed_jobs_grounded_witness : exists statuses,
  parse (one_mirror "10") not_attempted = (Ok statuses, complete_success) /\ length statuses = 1%nat /\
  from_rows (snapshot_lines (one_mirror "10")) statuses.
Proof.
  eexists. split; [vm_compute; reflexivity|]. split; [reflexivity|].
  apply (parsed_jobs_grounded (one_mirror "10") not_attempted _ complete_success). vm_compute. reflexivity.
Defined.

(** A speed of 310 digits is infinite as a float, and its conversion escapes
    the parser as [OverflowError]. *)
Example oversized_speed_escapes :
  parse ("[0] queue (sftp://u@h)" +:+ str [newline] +:+ "sftp://u@h" +:+ str [newline] +:+ "Queue is stopped." +:+ str [newline] +:+
    "[1] pget -c /remote/a -o /local" +:+ str [newline] +:+ "sftp://u@h" +:+ str [newline] +:+
    "`/remote/a', got 1 of 2 (50%) " +:+ str (repeat "9"%char 310) +:+ "b/s") not_attempted = (Raise OverflowError, hard_error).
Proof. vm_compute. reflexivity. Qed.
