(* ===== verification/LftpRows.v ===== *)
(** * Rows of the status output, as LFTP prints them

    For each kind of row that [LftpParser] reads, a canonical text built from
    its fields, and what the patterns find in it: the row's own pattern gives
    the fields back, the patterns tried before it do not match.  Paths are
    printed in double quotes, as for names with blanks. *)

From S2P Require Import Prelude PyStr PyDict PyFloat JobStatus Regex LftpParser LftpParserFacts.

(** ** Fields *)

Definition path_char (c : ascii) : bool := negb (Ascii.eqb c quote) && negb (is_line_break c).

(** An absolute path without double quotes and line breaks that does not spell
    an exclusion option or the status command *)
Record path_ok (p : string) : Prop := {
  path_head : head (chars p) = Some slash;
  path_chars : Forall (fun c => path_char c = true) (chars p);
  path_no_exclude : infix_of (chars "--exclude") (chars p) = false;
  path_no_status : infix_of (chars "jobs -v") (chars p) = false }.

(** A number Python reads *)
Record number_ok (s : string) : Prop := {
  number_digits : Forall (fun c => is_digit c = true) (chars s);
  number_some : chars s <> [];
  number_short : (length (chars s) <= Json.max_int_digits)%nat }.

Lemma int_number s : number_ok s -> int_ s = Ok (digits_value (chars s)).
Proof.
  intros [Hd Hn Hl]. unfold int_. destruct (chars s) as [|c l]; [done|].
  assert (H : forallb is_digit (c :: l) = true).
  { apply forallb_forall. intros x Hx. rewrite Forall_forall in Hd. apply Hd. by apply list_elem_of_In. }
  by rewrite H, (proj2 (Nat.leb_le _ _) Hl).
Qed.

Lemma path_char_any c : path_char c = true -> any c = true.
Proof.
  unfold path_char, any. intros [_ H]%andb_prop. apply negb_true_iff in H. apply negb_true_iff, not_true_iff_false.
  intros ->%Ascii.eqb_eq. by vm_compute in H.
Qed.

Lemma path_any p : path_ok p -> Forall (fun c => any c = true) (chars p).
Proof. intros [_ H _ _]. eapply Forall_impl; [exact H|]. apply path_char_any. Qed.

Lemma path_cons p : path_ok p -> exists l, chars p = slash :: l.
Proof. intros [H _ _ _]. destruct (chars p) as [|c l]; [done|]. injection H as ->. by exists l. Qed.

Lemma path_no_quote p : path_ok p -> quote ∉ chars p.
Proof.
  intros [_ H _ _] Hq. rewrite Forall_forall in H. apply H in Hq. by vm_compute in Hq.
Qed.

Definition in_quotes (p : string) (rest : text) : text := quote :: chars p ++ quote :: rest.

(** ** A path in quotes *)

Lemma between_nil b : between b b = [].
Proof. unfold between. by rewrite Nat.sub_diag. Qed.

Lemma between_one x b : between b (x :: b) = [x].
Proof. exact (between_app [x] b). Qed.

(** where the quotes of a row are *)
Lemma quote_after l1 rest pre l : quote ∉ pre -> pre ++ quote :: l = l1 ++ quote :: rest -> l1 = pre /\ l = rest \/ exists l2, l = l2 ++ quote :: rest.
Proof.
  revert l1. induction pre as [|x pre IH]; intros l1 Hq E; simpl in *.
  - destruct l1 as [|y l1]; simpl in E; [left; split; congruence|]. right. exists l1. congruence.
  - destruct l1 as [|y l1]; simpl in E; [injection E as -> _; exfalso; apply Hq; constructor|]. injection E as -> E.
    destruct (IH l1) as [[-> ->]|H]; [|done|by left|by right]. intros H. apply Hq. by constructor.
Qed.

Lemma quote_last l1 rest l : quote ∉ l -> l ++ [quote] = l1 ++ quote :: rest -> l1 = l /\ rest = [].
Proof. intros Hq E. destruct (quote_after l1 rest l [] Hq E) as [[-> ->]|(l2 & H)]; [done|]. by destruct l2. Qed.

Section paths.
Context {X : Type}.
Implicit Types (K : kont (X := X)).

(** A quoted path is read to the closing quote if what follows matches there
    and after no later quote. *)
Lemma run_quoted q n p b rest c K x : path_ok p -> q <> n ->
  (forall l1 rest1 b c, rest = l1 ++ quote :: rest1 -> K b rest1 c = None) ->
  K (quote :: rev (chars p) ++ quote :: b) rest ((n, chars p) :: (q, [quote]) :: c) = Some x ->
  run (quoted q n) b (in_quotes p rest) c K = Some x.
Proof.
  intros Hp Hqn Hrest Hk. unfold quoted, cat, in_quotes. cbn [fold_right run]. rewrite between_one.
  assert (Hlook : forall t, lookup_cap ((n, t) :: (q, [quote]) :: c) q = Some [quote]).
  { intros t. unfold lookup_cap. cbn [List.find fst]. destruct (String.eqb_spec n q) as [->|_]; [done|]. by rewrite String.eqb_refl. }
  change (one_of [squote; quote] quote) with true.
  destruct (path_cons p Hp) as [l Hl]. rewrite Hl.
  erewrite (run_plus_longest any slash l (quote :: b) (quote :: rest)); [reflexivity|by rewrite <- Hl; apply path_any| |].
  - cbn beta. rewrite between_app, <- Hl, Hlook. cbn [skip_lit]. rewrite Ascii.eqb_refl. exact Hk.
  - intros l1 rest1 E Hne _. cbn beta. rewrite Hlook.
    destruct rest1 as [|y rest1]; [done|]. cbn [skip_lit]. destruct (Ascii.eqb_spec quote y) as [<-|]; [|done].
    destruct l1 as [|z l1]; [done|]. simpl in E. injection E as _ E. by apply (Hrest l1 rest1).
Qed.

(** one blank before something that is not blank *)
Lemma run_sps b s c K : starts is_space s = false -> stuck_on is_space K ->
  run sps b (" "%char :: s) c K = K (" "%char :: b) s c.
Proof. intros Hs HK. unfold sps. apply (run_plus_class is_space " "%char [] b s c K); [by repeat constructor|done|done]. Qed.

Lemma run_sps_pos b s c K x : starts is_space s = false -> K (" "%char :: b) s c = Some x ->
  run sps b (" "%char :: s) c K = Some x.
Proof.
  intros Hs HK. unfold sps. apply (run_plus_longest is_space " "%char [] b s c K); [by repeat constructor|done|].
  intros [|y l1] rest1 -> Hne Hl; [done|]. apply Forall_cons in Hl as [Hy _]. simpl in Hs. congruence.
Qed.

Lemma run_sps_none b s c K : starts is_space s = false -> run sps b s c K = None.
Proof. intros Hs. unfold sps. cbn [Plus run]. destruct s as [|y s]; [done|]. simpl in Hs. by rewrite Hs. Qed.
End paths.

(** ** Headers *)

Definition get_text (ty : JobType) : string := match ty with GET => "get" | _ => "pget" end.
Definition to : string := " -o ".

(** [pget -c <remote> -o <local>] and [mirror -c <remote> <local>] *)
Definition get_args (ty : JobType) (remote local : string) : text :=
  chars (get_text ty) ++ chars " -c " ++ in_quotes remote (chars to ++ in_quotes local []).
Definition mirror_args (remote local : string) (rest : text) : text :=
  chars "mirror -c " ++ in_quotes remote (" "%char :: in_quotes local rest).

Definition get_caps (ty : JobType) (remote local : string) (c : caps) : caps :=
  ("local", chars local) :: ("rq", [quote]) :: ("remote", chars remote) :: ("lq", [quote]) ::
  ("flags", chars "-c") :: ("command", chars (get_text ty)) :: c.

(** the quotes after the first path of a row *)
Lemma later_quotes pre local rest l1 rest1 : quote ∉ pre -> path_ok local ->
  pre ++ in_quotes local rest = l1 ++ quote :: rest1 ->
  starts is_space rest1 = false \/ rest = rest1 \/ exists l2, rest = l2 ++ quote :: rest1.
Proof.
  intros Hpre Hl E. unfold in_quotes in E. destruct (path_cons local Hl) as [l El].
  destruct (quote_after _ _ _ _ Hpre E) as [[_ <-]|(l2 & E2)]; [left; by rewrite El|].
  destruct (quote_after _ _ _ _ (path_no_quote _ Hl) E2) as [[_ ->]|H]; auto.
Qed.

Definition get_tail : regex :=
  cat [get_command; sps; flags_then [quoted "lq" "remote"; sps; Lit "-o"; sps; quoted "rq" "local"; Eos]].

(** membership in concrete texts *)
Ltac by_decide := apply (bool_decide_unpack _); vm_compute; exact I.

Section args.
Context {X : Type}.
Implicit Types (K : kont (X := X)).

(** the flags end at the first blank *)
Lemma run_flags b s c K x : starts is_space s = false ->
  K (rev (chars "-c ") ++ b) s (("flags", chars "-c") :: c) = Some x ->
  run (Grp "flags" (Lazy any)) b (chars "-c " ++ s) c (fun b s c => run sps b s c K) = Some x.
Proof.
  intros Hs HK. cbn [run]. change (chars "-c " ++ s) with ("-"%char :: "c"%char :: " "%char :: s). cbn [run_lazy].
  change (any "-") with true. change (any "c") with true. change (any " ") with true. cbn iota.
  rewrite !run_sps_none by done. erewrite run_sps_pos; [reflexivity|done|].
  change ("c"%char :: "-"%char :: b) with (rev (chars "-c") ++ b). rewrite between_app. exact HK.
Qed.

(** a quoted path between other arguments *)
Lemma run_path q n p pre local rest b c K x : path_ok p -> path_ok local -> q <> n -> quote ∉ pre ->
  (forall b rest1 c, rest = rest1 \/ (exists l2, rest = l2 ++ quote :: rest1) -> run sps b rest1 c K = None) ->
  run sps (quote :: rev (chars p) ++ quote :: b) (pre ++ in_quotes local rest) ((n, chars p) :: (q, [quote]) :: c) K = Some x ->
  run (quoted q n) b (in_quotes p (pre ++ in_quotes local rest)) c (fun b s c => run sps b s c K) = Some x.
Proof.
  intros Hp Hl Hqn Hpre Hrest HK. apply run_quoted; [done|done| |done]. intros l1 rest1 b1 c1 E.
  destruct (later_quotes _ _ _ _ _ Hpre Hl E) as [H|H]; [by apply run_sps_none|by apply Hrest].
Qed.
End args.

Lemma run_get_tail ty remote local b c : ty <> MIRROR -> path_ok remote -> path_ok local ->
  exists b', run get_tail b (get_args ty remote local) c accept = Some (mkMatch b' [] (get_caps ty remote local c)).
Proof.
  intros Hty Hr Hl. set (B := quote :: rev (chars local) ++ quote :: rev (chars to) ++ quote :: rev (chars remote) ++
    quote :: rev (chars "-c ") ++ " "%char :: rev (chars (get_text ty)) ++ b). exists B.
  assert (H : run (cat [sps; flags_then [quoted "lq" "remote"; sps; Lit "-o"; sps; quoted "rq" "local"; Eos]])
    (rev (chars (get_text ty)) ++ b) (chars " -c " ++ in_quotes remote (chars to ++ in_quotes local []))
    (("command", chars (get_text ty)) :: c) accept = Some (mkMatch B [] (get_caps ty remote local c))).
  { unfold flags_then, cat. cbn [fold_right app]. cbn [run].
    apply (run_sps_pos _ (chars "-c " ++ in_quotes remote (chars to ++ in_quotes local []))); [done|].
    apply run_flags; [done|]. apply run_path; try done; [by_decide| |].
    - intros b1 rest1 c1 [<-|[[|? ?] ?]]; by try apply run_sps_none.
    - apply (run_sps_pos _ (chars "-o " ++ in_quotes local [])); [done|].
      change (chars "-o " ++ in_quotes local []) with (chars "-o" ++ " "%char :: in_quotes local []). rewrite run_lit_app.
      apply run_sps_pos; [done|]. apply run_quoted; [done|done|by intros [|? ?]|]. cbn [run at_end]. done. }
  unfold get_tail, cat in *. cbn [fold_right run] in *. unfold get_command. cbn [run]. unfold get_args.
  destruct ty; [done| |].
  - rewrite run_lit_app, between_app. apply orelse_l. exact H.
  - rewrite run_Lit. cbn [skip_lit chars get_text]. change (skip_lit _ _ _) with (@None (text * text)).
    rewrite run_lit_app, between_app. cbn beta. exact H.
Qed.

(** ** Numbers and what surrounds them *)

Section pieces.
Context {X : Type}.
Implicit Types (K : kont (X := X)).

Lemma run_lit_stuck p w b s c K : match chars w with [] => False | x :: _ => p x = false end -> starts p s = true ->
  run (Lit w) b s c K = None.
Proof. intros Hw Hs. exact (stuck_lit p w K Hw b s c Hs). Qed.

Lemma run_lit_head w b s c K : match chars w with [] => False | x :: _ => starts (Ascii.eqb x) s = false end ->
  run (Lit w) b s c K = None.
Proof.
  rewrite run_Lit. destruct (chars w) as [|x l]; [done|]. destruct s as [|y s]; [done|]. simpl. by intros ->.
Qed.

Lemma run_digits b id rest c K : number_ok id -> starts is_digit rest = false -> stuck_on is_digit K ->
  run digits b (chars id ++ rest) c K = K (rev (chars id) ++ b) rest c.
Proof.
  intros [Hd Hn _] Hr HK. unfold digits. destruct (chars id) as [|x l]; [done|]. by apply run_plus_class.
Qed.

Lemma run_digits_pos b id rest c K x : number_ok id -> starts is_digit rest = false ->
  K (rev (chars id) ++ b) rest c = Some x -> run digits b (chars id ++ rest) c K = Some x.
Proof.
  intros [Hd Hn _] Hr HK. unfold digits. destruct (chars id) as [|y l]; [done|]. apply run_plus_longest; [done|done|].
  intros [|z l1] rest1 -> Hne Hl; [done|]. apply Forall_cons in Hl as [Hz _]. simpl in Hr. congruence.
Qed.
End pieces.

Ltac stuck := intros ? ? ? ?; cbn beta; first
  [ eapply run_lit_stuck; [|eassumption]; done
  | match goal with |- run (Alt _ _) _ _ _ _ = None => cbn [run]; erewrite !run_lit_stuck by (done || eassumption); done end ].

(** One step of a pattern over a text that starts the way it demands *)
Ltac row_step := first
  [ rewrite run_lit_app
  | rewrite run_digits; [|done|done|stuck]
  | rewrite run_sps; [|done|stuck] ]; cbn beta; rewrite ?between_app.

Definition bracket (id : string) (rest : text) : text := chars "[" ++ chars id ++ chars "]" ++ " "%char :: rest.
Definition dotted (id : string) (rest : text) : text := chars id ++ chars "." ++ " "%char :: rest.

Lemma prefix_none id ty remote local : number_ok id -> ty <> MIRROR ->
  re_match __MIRROR_HEADER_PREFIX_REGEX (str (bracket id (get_args ty remote local))) = None.
Proof.
  intros Hid Hty. unfold re_match, match_at, __MIRROR_HEADER_PREFIX_REGEX, cat, bracket. rewrite chars_str.
  cbn [fold_right run]. rewrite run_lit_app. cbn beta. row_step. row_step. 
  rewrite run_sps; [|by destruct ty|stuck]. apply run_lit_head. by destruct ty.
Qed.

Section ids.
Context {X : Type}.
Implicit Types (K : kont (X := X)).

Lemma run_bracket_id id rest c K : number_ok id -> starts is_space rest = false -> stuck_on is_space K ->
  run bracket_id [] (bracket id rest) c K = K (rev (bracket id [])) rest (("id", chars id) :: c).
Proof.
  intros Hid Hs HK. unfold bracket_id, cat, bracket. cbn [fold_right run]. row_step. row_step. row_step.
  rewrite run_sps; [|done|done]. f_equal. rewrite !rev_app_distr. simpl. by rewrite <- ?app_assoc.
Qed.

Lemma run_dotted_id id rest c K : number_ok id -> starts is_space rest = false -> stuck_on is_space K ->
  run dotted_id [] (dotted id rest) c K = K (rev (dotted id [])) rest (("id", chars id) :: c).
Proof.
  intros Hid Hs HK. unfold dotted_id, cat, dotted. cbn [fold_right run].
  row_step. row_step.
  rewrite run_sps; [|done|done]. f_equal. rewrite !rev_app_distr. simpl. by rewrite <- ?app_assoc, ?app_nil_r.
Qed.

Lemma stuck_get_tail K : stuck_on is_space (fun b s c => run get_tail b s c K).
Proof. intros b s c Hs. unfold get_tail, cat, get_command. cbn [fold_right run]. by rewrite !(run_lit_stuck is_space) by done. Qed.

Lemma get_args_start ty remote local : starts is_space (get_args ty remote local) = false.
Proof. by destruct ty. Qed.
End ids.

Definition found (r : option mtch) (c : caps) : Prop := exists b rest, r = Some (mkMatch b rest c).

Lemma get_row_match id ty remote local : number_ok id -> ty <> MIRROR -> path_ok remote -> path_ok local ->
  found (re_match pget_header_m (str (bracket id (get_args ty remote local)))) (get_caps ty remote local [("id", chars id)]).
Proof.
  intros Hid Hty Hr Hl. destruct (run_get_tail ty remote local (rev (bracket id [])) [("id", chars id)]) as [b' E]; try done.
  exists b', []. unfold re_match, match_at. rewrite chars_str. change pget_header_m with (Seq bracket_id get_tail). cbn [run].
  rewrite run_bracket_id; [done|done|apply get_args_start|apply stuck_get_tail].
Qed.

Lemma queue_get_row_match id ty remote local : number_ok id -> ty <> MIRROR -> path_ok remote -> path_ok local ->
  found (re_match queue_pget_m (str (dotted id (get_args ty remote local)))) (get_caps ty remote local [("id", chars id)]).
Proof.
  intros Hid Hty Hr Hl. destruct (run_get_tail ty remote local (rev (dotted id [])) [("id", chars id)]) as [b' E]; try done.
  exists b', []. unfold re_match, match_at. rewrite chars_str. change queue_pget_m with (Seq dotted_id get_tail). cbn [run].
  rewrite run_dotted_id; [done|done|apply get_args_start|apply stuck_get_tail].
Qed.

(** ** Mirrors *)

Definition mirror_caps (remote local : string) (c : caps) : caps :=
  ("local", chars local) :: ("rq", [quote]) :: ("remote", chars remote) :: ("lq", [quote]) :: ("flags", chars "-c") :: c.

Definition mirror_tail (ending : list regex) : regex :=
  cat [Lit "mirror"; sps; flags_then ([quoted "lq" "remote"; sps; quoted "rq" "local"] ++ ending)].

Lemma run_mirror_tail ending remote local rest b c c' : path_ok remote -> path_ok local ->
  (forall b c, run (cat ([sps; quoted "rq" "local"] ++ ending)) b rest c accept = None) -> quote ∉ rest ->
  (forall b, exists b', run (cat ending) b rest (mirror_caps remote local c) accept = Some (mkMatch b' [] c')) ->
  exists b', run (mirror_tail ending) b (mirror_args remote local rest) c accept = Some (mkMatch b' [] c').
Proof.
  intros Hr Hl H1 Hq HK. edestruct HK as [b' Hb']. exists b'. unfold mirror_tail, flags_then, cat, mirror_args. cbn [fold_right app]. cbn [run].
  change (chars "mirror -c " ++ in_quotes remote (" "%char :: in_quotes local rest))
    with (chars "mirror" ++ " "%char :: chars "-c " ++ in_quotes remote (chars " " ++ in_quotes local rest)).
  row_step. apply run_sps_pos; [done|]. apply run_flags; [done|]. apply run_path; try done; [by_decide| |].
  - intros b1 rest1 c1 [<-|(l2 & ->)]; [apply H1|]. destruct Hq. apply elem_of_app. right. constructor.
  - apply run_sps_pos; [done|]. apply run_quoted; [done|done| |exact Hb']. intros l1 rest1 b1 c1 ->. destruct Hq.
    apply elem_of_app. right. constructor.
Qed.

Lemma mirror_args_start remote local rest : starts is_space (mirror_args remote local rest) = false.
Proof. done. Qed.

Lemma stuck_mirror_tail {X} ending (K : kont (X := X)) : stuck_on is_space (fun b s c => run (mirror_tail ending) b s c K).
Proof. intros b s c Hs. unfold mirror_tail, cat. cbn [fold_right run]. by rewrite (run_lit_stuck is_space) by done. Qed.

Lemma mirror_row_match id remote local : number_ok id -> path_ok remote -> path_ok local ->
  found (re_match mirror_fl_header_m (str (bracket id (mirror_args remote local [])))) (mirror_caps remote local [("id", chars id)]).
Proof.
  intros Hid Hr Hl.
  destruct (run_mirror_tail [Eos] remote local [] (rev (bracket id [])) [("id", chars id)] (mirror_caps remote local [("id", chars id)]))
    as [b' E]; try done; [by inversion 1|by eexists|].
  exists b', []. unfold re_match, match_at. rewrite chars_str. change mirror_fl_header_m with (Seq bracket_id (mirror_tail [Eos])). cbn [run].
  rewrite run_bracket_id; [done|done|done|apply stuck_mirror_tail].
Qed.

Lemma queue_mirror_row_match id remote local : number_ok id -> path_ok remote -> path_ok local ->
  found (re_match queue_mirror_m (str (dotted id (mirror_args remote local [])))) (mirror_caps remote local [("id", chars id)]).
Proof.
  intros Hid Hr Hl.
  destruct (run_mirror_tail [Eos] remote local [] (rev (dotted id [])) [("id", chars id)] (mirror_caps remote local [("id", chars id)]))
    as [b' E]; try done; [by inversion 1|by eexists|].
  exists b', []. unfold re_match, match_at. rewrite chars_str. change queue_mirror_m with (Seq dotted_id (mirror_tail [Eos])). cbn [run].
  rewrite run_dotted_id; [done|done|done|apply stuck_mirror_tail].
Qed.

(** *** With totals *)

Definition totals_text (a b p : string) : text :=
  " "%char :: " "%char :: chars "--" ++ " "%char :: chars a ++ "/"%char :: chars b ++ " "%char :: "("%char :: chars p ++ chars "%)".

Definition totals_caps (a b p : string) (c : caps) : caps :=
  ("pctlocal", chars p) :: ("szremote", chars b) :: ("szlocal", chars a) :: c.

Section totals.
Context {X : Type}.
Implicit Types (K : kont (X := X)).

Lemma run_lit1 x b s c K : run (Lit (String x "")) b (x :: s) c K = K (x :: b) s c.
Proof. exact (run_lit_app (String x "") b s c K). Qed.

Lemma run_opt_none r b s c K : run r b s c K = None -> run (Opt r) b s c K = K b s c.
Proof. intros H. unfold Opt. cbn [run]. by rewrite H. Qed.

(** a size without fraction and unit, before a slash and before a blank *)
Lemma run_size_slash a b s c K x : number_ok a -> K (rev (chars a) ++ b) ("/"%char :: s) c = Some x ->
  run (size_of __MIRROR_SIZE_UNITS_REGEX) b (chars a ++ "/"%char :: s) c K = Some x.
Proof.
  intros Ha HK. unfold size_of, decimal, cat. cbn [fold_right run]. apply run_digits_pos; [done|done|].
  rewrite run_opt_none by reflexivity. cbn [run run_star]. change (is_digit "/") with false. cbn iota.
  rewrite run_opt_none by reflexivity. by rewrite run_opt_none by reflexivity.
Qed.

Lemma run_size_blank a b s c K x : number_ok a -> (forall b c, K b ("("%char :: s) c = None) ->
  K (rev (chars a) ++ b) (" "%char :: "("%char :: s) c = Some x ->
  run (size_of __MIRROR_SIZE_UNITS_REGEX) b (chars a ++ " "%char :: "("%char :: s) c K = Some x.
Proof.
  intros Ha HN HK. unfold size_of, decimal, cat. cbn [fold_right run]. apply run_digits_pos; [done|done|].
  rewrite run_opt_none by reflexivity. cbn [run run_star]. change (is_digit " ") with false. cbn iota.
  rewrite run_opt_none.
  - by rewrite run_opt_none by reflexivity.
  - cbn [run sp]. change (is_space " ") with true. cbn iota. rewrite run_opt_none by reflexivity. apply HN.
Qed.

Lemma run_two_blanks b s c K x : starts is_space s = false -> K (" "%char :: " "%char :: b) s c = Some x ->
  run sps b (" "%char :: " "%char :: s) c K = Some x.
Proof.
  intros Hs HK. unfold sps. apply (run_plus_longest is_space " "%char [" "%char] b s c K); [by repeat constructor|done|].
  intros [|y l1] rest1 -> Hne Hl; [done|]. apply Forall_cons in Hl as [Hy _]. simpl in Hs. congruence.
Qed.
End totals.

Definition totals_ending : list regex := [sps; Lit "--"; sps] ++ totals __MIRROR_SIZE_UNITS_REGEX ++ [Eos].

Lemma digit_is_no_space c : is_digit c = true -> is_space c = false.
Proof. unfold is_digit, is_space. lia. Qed.

Lemma number_start s rest : number_ok s -> starts is_space (chars s ++ rest) = false.
Proof. intros [Hd Hn _]. destruct (chars s) as [|x l]; [done|]. apply Forall_cons in Hd as [Hx _]. by apply digit_is_no_space. Qed.

Lemma run_totals a b p b0 c : number_ok a -> number_ok b -> number_ok p ->
  exists b', run (cat totals_ending) b0 (totals_text a b p) c accept = Some (mkMatch b' [] (totals_caps a b p c)).
Proof.
  intros Ha Hb Hp. eexists. unfold totals_ending, totals, cat, totals_text. cbn [fold_right app]. cbn [run].
  apply run_two_blanks; [done|]. rewrite run_lit_app. apply run_sps_pos; [by apply number_start|].
  apply run_size_slash; [done|]. rewrite between_app.
  rewrite run_lit1. apply run_size_blank; [done|intros; by apply run_sps_none|]. rewrite between_app.
  apply run_sps_pos; [done|]. rewrite run_lit1. apply run_digits_pos; [done|done|]. rewrite between_app.
  rewrite <- (app_nil_r (chars "%)")), run_lit_app. rewrite run_opt_none by done. done.
Qed.

(** ** Rows that do not match *)

(** what holds at the end of every match *)
Definition ends (P : text -> text -> Prop) (r : regex) : Prop :=
  forall b s c b' s' c', (b', s', c') ∈ outs r b s c -> P b' s'.

Lemma ends_seq P r1 r2 : ends P r2 -> ends P (Seq r1 r2).
Proof. intros H b s c b' s' c' (b1 & s1 & c1 & _ & H2)%elem_of_outs_seq. by eapply H. Qed.

Lemma ends_eps_r P r : ends P r -> ends P (Seq r Eps).
Proof. intros H b s c b' s' c' (b1 & s1 & c1 & H1 & [= -> -> ->]%list_elem_of_singleton)%elem_of_outs_seq. by eapply H. Qed.

Lemma elem_of_outs_lit w b s c b' s' c' :
  (b', s', c') ∈ outs (Lit w) b s c <-> s = chars w ++ s' /\ b' = rev (chars w) ++ b /\ c' = c.
Proof.
  unfold Lit. generalize (chars w) as l. intros l. revert b s. induction l as [|x l IH]; intros b s; cbn [lits].
  { cbn [outs app rev]. rewrite list_elem_of_singleton. split; [by intros [= -> -> ->]|by intros (-> & -> & ->)]. }
  rewrite elem_of_outs_seq. split.
  - intros (b1 & s1 & c1 & H1 & H2). cbn [outs] in H1. destruct s as [|y s]; [by inversion H1|].
    destruct (Ascii.eqb_spec x y) as [<-|]; [|by inversion H1]. apply list_elem_of_singleton in H1 as [= -> -> ->].
    apply IH in H2 as (-> & -> & ->). simpl. by rewrite <- app_assoc.
  - intros (-> & -> & ->). exists (x :: b), (l ++ s'), c. split.
    + cbn [outs app]. rewrite Ascii.eqb_refl. by constructor.
    + apply IH. simpl. by rewrite <- app_assoc.
Qed.

Lemma ends_lit w P : (forall b s, P (rev (chars w) ++ b) s) -> ends P (Lit w).
Proof. intros H b s c b' s' c' (-> & -> & ->)%elem_of_outs_lit. apply H. Qed.

Lemma match_ends P r s m : ends P r -> re_match r s = Some m -> P (m_before m) (m_rest m) /\ rev (m_before m) ++ m_rest m = chars s.
Proof.
  intros HP Hm. apply run_Some in Hm as (b' & s' & c' & Ho & [= <-]). split; [by eapply HP|].
  apply outs_zip in Ho as (l & -> & ->). simpl. by rewrite app_nil_r, rev_involutive.
Qed.

Definition ends_totals (b s : text) : Prop := at_end s = true /\ exists x b', b = x :: b' /\ x ∈ [")"%char; "s"%char].

Lemma totals_end : ends ends_totals (cat totals_ending).
Proof.
  unfold totals_ending, totals, cat. cbn [fold_right app]. do 9 apply ends_seq.
  intros b s c b' s' c' (b1 & s1 & c1 & (-> & -> & ->)%elem_of_outs_lit & H)%elem_of_outs_seq.
  apply elem_of_outs_seq in H as (b2 & s2 & c2 & H2 & H). apply elem_of_outs_seq in H as (b3 & s3 & c3 & H3 & H4).
  apply list_elem_of_singleton in H4 as [= -> -> ->]. cbn [outs] in H3. destruct (at_end s2) eqn:Es; [|by inversion H3].
  apply list_elem_of_singleton in H3 as [= -> -> ->]. split; [done|]. unfold Opt in H2. cbn [outs] in H2.
  apply elem_of_app in H2 as [H2|H2].
  - assert (He : ends (fun b _ => exists b', b = "s"%char :: b') (Seq sps (Seq (Grp "speed" (speed_of __SIZE_UNITS_REGEX)) (Seq (Lit "/s") Eps)))).
    { do 2 apply ends_seq. apply ends_eps_r, ends_lit. intros b0 s0. by eexists. }
    destruct (He _ _ _ _ _ _ H2) as [b0 ->]. eexists _, _. split; [done|set_solver].
  - apply list_elem_of_singleton in H2 as [= -> -> ->]. eexists _, _. split; [done|]. set_solver.
Qed.

Lemma at_end_clean s : at_end s = true -> newline ∉ s -> s = [].
Proof.
  intros Hs Hn. destruct s as [|x [|y s]]; [done| |done]. simpl in Hs. apply Ascii.eqb_eq in Hs as ->. destruct Hn. constructor.
Qed.

(** a row that ends in a quote has no totals *)
Lemma no_totals t : newline ∉ t -> re_match mirror_header_m (str (t ++ [quote])) = None.
Proof.
  intros Hn. destruct (re_match _ _) as [m|] eqn:E; [exfalso|done].
  assert (He : ends ends_totals mirror_header_m).
  { change mirror_header_m with (Seq bracket_id (mirror_tail totals_ending)). apply ends_seq. unfold mirror_tail, cat. cbn [fold_right].
    do 2 apply ends_seq. apply ends_eps_r. unfold flags_then, cat. rewrite fold_right_app. cbn [fold_right app]. do 5 apply ends_seq.
    apply totals_end. }
  destruct (match_ends _ _ _ _ He E) as [[Hs (x & b' & Hb & Hx)] Ht]. rewrite chars_str in Ht.
  rewrite (at_end_clean (m_rest m) Hs) in Ht.
  - rewrite Hb in Ht. simpl in Ht. rewrite app_nil_r in Ht. apply app_inj_tail in Ht as [_ ->]. set_solver.
  - intros Hin. assert (newline ∈ t ++ [quote]) as [?|?%list_elem_of_singleton]%elem_of_app; [rewrite <- Ht; set_solver|done|].
    discriminate.
Qed.

(** at least one character is read *)
Lemma outs_plus p b s c b' s' c' : (b', s', c') ∈ outs (Plus p) b s c -> exists x l, s = x :: l ++ s'.
Proof.
  unfold Plus. intros (b1 & s1 & c1 & H1 & H2)%elem_of_outs_seq. cbn [outs] in H1. destruct s as [|x s]; [by inversion H1|].
  destruct (p x); [|by inversion H1]. apply list_elem_of_singleton in H1 as [= -> -> ->].
  apply outs_zip in H2 as (l & -> & _). by exists x, l.
Qed.

Lemma outs_quoted q n b s c b' s' c' : (b', s', c') ∈ outs (quoted q n) b s c -> exists x l, s = x :: l ++ s'.
Proof.
  unfold quoted, cat. cbn [fold_right]. intros (b1 & s1 & c1 & H1 & H2)%elem_of_outs_seq.
  apply elem_of_outs_seq in H2 as (b2 & s2 & c2 & H2 & H3). apply elem_of_outs_grp in H2 as (c3 & H2 & _).
  apply outs_zip in H1 as (l1 & -> & _). apply outs_plus in H2 as (x & l2 & ->). apply outs_zip in H3 as (l3 & -> & _).
  destruct l1 as [|y l1]; [exists x, (l2 ++ l3)|exists y, (l1 ++ x :: l2 ++ l3)]; simpl; rewrite <- ?app_assoc; simpl; by rewrite <- ?app_assoc.
Qed.

Lemma number_no s x : number_ok s -> is_digit x = false -> x ∉ chars s.
Proof. intros [Hd _ _] Hx Hin. rewrite Forall_forall in Hd. apply Hd in Hin. congruence. Qed.

(** the dashes before the totals are not part of a path *)
Lemma totals_not_local a b p b0 c : number_ok a -> number_ok b -> number_ok p ->
  run (cat ([sps; quoted "rq" "local"] ++ totals_ending)) b0 (totals_text a b p) c accept = None.
Proof.
  intros Ha Hb Hp. destruct (run _ _ _ _ _) as [m|] eqn:E; [exfalso|done].
  apply run_Some in E as (b' & s' & c' & H & _). unfold cat, totals_ending in H. cbn [fold_right app] in H.
  apply elem_of_outs_seq in H as (b1 & s1 & c1 & (x1 & l1 & E1)%outs_plus & H).
  apply elem_of_outs_seq in H as (b2 & s2 & c2 & (x2 & l2 & ->)%outs_quoted & H).
  apply elem_of_outs_seq in H as (b3 & s3 & c3 & (x3 & l3 & ->)%outs_plus & H).
  apply elem_of_outs_seq in H as (b4 & s4 & c4 & (-> & _ & _)%elem_of_outs_lit & _).
  set (T := " "%char :: chars a ++ "/"%char :: chars b ++ " "%char :: "("%char :: chars p ++ chars "%)").
  assert (HT : "-"%char ∉ T).
  { pose proof (number_no a "-" Ha eq_refl). pose proof (number_no b "-" Hb eq_refl). pose proof (number_no p "-" Hp eq_refl).
    unfold T. rewrite !elem_of_cons, !elem_of_app, !elem_of_cons, !elem_of_app, !elem_of_cons, !elem_of_app.
    assert ("-"%char ∉ chars "%)") by by_decide. intuition discriminate. }
  unfold totals_text in E1. fold T in E1. clearbody T. injection E1 as -> E1. clear - E1 HT.
  assert (H : exists w, "-"%char :: T = w ++ "-"%char :: "-"%char :: s4).
  { destruct l1 as [|y1 l1]; [|simpl in E1; injection E1 as <- E1; destruct l1 as [|y2 l1]].
    - simpl in E1. injection E1 as <- E1. destruct l2 as [|y2 l2].
      + simpl in E1. injection E1 as <- E1. exists l3. exact E1.
      + simpl in E1. injection E1 as <- E1. exists (l2 ++ x3 :: l3). rewrite <- app_assoc. exact E1.
    - simpl in E1. injection E1 as <- E1. exists (l2 ++ x3 :: l3). rewrite <- app_assoc. exact E1.
    - simpl in E1. injection E1 as <- E1. exists (l1 ++ x2 :: l2 ++ x3 :: l3). rewrite <- app_assoc. simpl. rewrite <- app_assoc. exact E1. }
  destruct H as [[|y w] E]; simpl in E.
  - injection E as E. apply HT. rewrite E. constructor.
  - injection E as _ E. apply HT. rewrite E. apply elem_of_app. right. constructor.
Qed.

Lemma totals_row_match id remote local a b p : number_ok id -> path_ok remote -> path_ok local ->
  number_ok a -> number_ok b -> number_ok p ->
  found (re_match mirror_header_m (str (bracket id (mirror_args remote local (totals_text a b p)))))
    (totals_caps a b p (mirror_caps remote local [("id", chars id)])).
Proof.
  intros Hid Hr Hl Ha Hb Hp.
  assert (Hq : quote ∉ totals_text a b p).
  { pose proof (number_no a quote Ha eq_refl). pose proof (number_no b quote Hb eq_refl). pose proof (number_no p quote Hp eq_refl).
    unfold totals_text. rewrite !elem_of_cons, !elem_of_app, !elem_of_cons, !elem_of_app, !elem_of_cons, !elem_of_app, !elem_of_cons, !elem_of_app.
    assert (quote ∉ chars "%)") by by_decide. assert (quote ∉ chars "--") by by_decide. intuition discriminate. }
  destruct (run_mirror_tail totals_ending remote local (totals_text a b p) (rev (bracket id [])) [("id", chars id)]
    (totals_caps a b p (mirror_caps remote local [("id", chars id)]))) as [b' E]; try done.
  { intros. by apply totals_not_local. }
  { intros. by apply run_totals. }
  exists b', []. unfold re_match, match_at. rewrite chars_str.
  change mirror_header_m with (Seq bracket_id (mirror_tail totals_ending)). cbn [run].
  rewrite run_bracket_id; [done|done|done|apply stuck_mirror_tail].
Qed.

(** ** File names and their counters *)

Record name_ok (n : string) : Prop := {
  name_chars : Forall (fun c => is_line_break c = false) (chars n);
  name_no_quote : squote ∉ chars n;
  name_no_status : infix_of (chars "jobs -v") (chars n) = false }.

Lemma name_any n : name_ok n -> Forall (fun c => any c = true) (chars n).
Proof.
  intros [H _ _]. eapply Forall_impl; [exact H|]. simpl. intros c Hc. apply negb_true_iff, not_true_iff_false.
  intros ->%Ascii.eqb_eq. by vm_compute in Hc.
Qed.

Definition name_text (n : string) (rest : text) : text := backtick :: chars n ++ squote :: rest.

Lemma run_name {X} n rest b c (K : kont (X := X)) : name_ok n -> squote ∉ rest ->
  run __QUOTED_FILE_NAME_REGEX b (name_text n rest) c K =
  K (squote :: rev (chars n) ++ backtick :: b) rest (("name", chars n) :: c).
Proof.
  intros Hok Hr. pose proof (name_any n Hok) as Hn. destruct Hok as [_ Hq _]. unfold __QUOTED_FILE_NAME_REGEX, cat, name_text. cbn [fold_right run]. rewrite run_lit1.
  rewrite run_star_only; [by rewrite between_app, run_lit1|done|]. intros l1 rest1 E Hne. apply run_lit_head.
  change (starts (Ascii.eqb squote) rest1 = false). destruct rest1 as [|y rest1]; [done|]. cbn [starts]. destruct (Ascii.eqb_spec squote y) as [<-|]; [exfalso|done].
  revert l1 E Hne. induction (chars n) as [|z l IH]; intros [|y l1] E Hne; simpl in E; try done.
  - injection E as _ E. apply Hr. rewrite E. apply elem_of_app. right. constructor.
  - injection E as -> E. apply Hq. constructor.
  - injection E as -> E. apply Forall_cons in Hn as [_ Hn]. refine (IH _ Hn l1 E _); [|congruence]. intros H. apply Hq. by constructor.
Qed.

Definition got_text (n a b p : string) : text :=
  name_text n (chars "," ++ " "%char :: chars "got" ++ " "%char :: chars a ++ " "%char :: chars "of" ++ " "%char ::
    chars b ++ " "%char :: chars "(" ++ chars p ++ chars "%)").

Definition got_caps (n a b p : string) : caps := [("pctlocal", chars p); ("szremote", chars b); ("szlocal", chars a); ("name", chars n)].

Lemma got_no_quote a b p : number_ok a -> number_ok b -> number_ok p -> squote ∉ chars "," ++ " "%char :: chars "got" ++ " "%char ::
  chars a ++ " "%char :: chars "of" ++ " "%char :: chars b ++ " "%char :: chars "(" ++ chars p ++ chars "%)".
Proof.
  intros Ha Hb Hp. pose proof (number_no a squote Ha eq_refl). pose proof (number_no b squote Hb eq_refl).
  pose proof (number_no p squote Hp eq_refl). repeat (rewrite ?elem_of_app, ?elem_of_cons).
  assert (squote ∉ chars "," ++ chars "got" ++ chars "of" ++ chars "(" ++ chars "%)") as Hs by by_decide.
  rewrite !elem_of_app in Hs. assert (squote <> " "%char) by by_decide. intuition.
Qed.

Section got.
Context (n a b p : string) (Hn : name_ok n) (Ha : number_ok a) (Hb : number_ok b) (Hp : number_ok p).

Lemma got_not_at : re_search chunk_at_m (str (got_text n a b p)) = None /\ re_search chunk_at2_m (str (got_text n a b p)) = None.
Proof.
  split; unfold chunk_at_m, chunk_at2_m, cat; cbn [fold_right]; rewrite search_anchored by done; unfold re_match, match_at, got_text;
    rewrite chars_str; cbn [run]; rewrite run_name by (done || by apply got_no_quote); cbn beta; by apply run_sps_none.
Qed.

Lemma got_found : found (re_search chunk_got_m (str (got_text n a b p))) (got_caps n a b p).
Proof.
  eexists _, _. unfold chunk_got_m, cat; cbn [fold_right]; rewrite search_anchored by done; unfold re_match, match_at, got_text.
  rewrite chars_str; cbn [run]; rewrite run_name by (done || by apply got_no_quote); cbn beta.
  rewrite run_lit_app. apply run_sps_pos; [done|]. rewrite run_lit_app. apply run_sps_pos; [by apply number_start|].
  apply run_digits_pos; [done|done|]. rewrite between_app. apply run_sps_pos; [done|]. rewrite run_lit_app.
  apply run_sps_pos; [by apply number_start|]. apply run_digits_pos; [done|done|]. rewrite between_app.
  apply run_sps_pos; [done|]. rewrite run_lit_app. apply run_digits_pos; [done|done|]. rewrite between_app.
  rewrite <- (app_nil_r (chars "%)")), run_lit_app. rewrite !run_opt_none by done. done.
Qed.
End got.

Definition transfer_text (n : string) : text := chars "\transfer" ++ " "%char :: name_text n [].

Lemma transfer_found n : name_ok n -> found (re_search filename_m (str (transfer_text n))) [("name", chars n)].
Proof.
  intros Hn. assert (H : found (re_match filename_m (str (transfer_text n))) [("name", chars n)]).
  { eexists _, _. unfold re_match, match_at, filename_m, cat, transfer_text. rewrite chars_str. cbn [fold_right run].
    rewrite run_lit_app. cbn [sp run]. change (is_space " ") with true. cbn iota. rewrite run_name; [done|done|by inversion 1]. }
  destruct H as (b & rest & H). exists b, rest. by apply match_search.
Qed.
