(* ===== verification/LftpRoundTrip.v ===== *)
(** * The lines of a status snapshot

    A snapshot as LFTP prints it (queue header, commands waiting, running
    jobs with their files), as a value and as lines, and what one round of
    [__parse_jobs] and [__parse_queue] makes of each line. *)

From S2P Require Import Prelude PyStr PyDict PyFloat JobStatus Regex LftpParser LftpParserFacts LftpRows.

(** ** Texts that a separator splits *)

Lemma prefix_of_sep w x a b : x ∉ w -> prefix_of w (a ++ x :: b) = prefix_of w a.
Proof.
  revert a. induction w as [|y w IH]; intros [|z a] Hx; simpl; try done.
  - destruct (Ascii.eqb_spec y x) as [->|]; [|done]. destruct Hx. constructor.
  - rewrite IH; [done|]. intros H. apply Hx. by constructor.
Qed.

Lemma infix_of_sep w x a b : w <> [] -> x ∉ w -> infix_of w (a ++ x :: b) = infix_of w a || infix_of w b.
Proof.
  intros Hw Hx. induction a as [|z a IH].
  - change ([] ++ x :: b) with (x :: b). cbn [infix_of]. rewrite (prefix_of_sep w x [] b Hx : prefix_of w (x :: b) = _).
    by destruct w.
  - change ((z :: a) ++ x :: b) with (z :: a ++ x :: b). cbn [infix_of]. rewrite IH.
    rewrite (prefix_of_sep w x (z :: a) b Hx : prefix_of w (z :: a ++ x :: b) = _). by rewrite orb_assoc.
Qed.

Lemma infix_of_none w x a : w = x :: tail w -> x ∉ a -> infix_of w a = false.
Proof.
  intros -> Hx. induction a as [|y a IH]; [done|]. cbn [infix_of prefix_of]. rewrite IH.
  - destruct (Ascii.eqb_spec x y) as [->|]; [|done]. destruct Hx. constructor.
  - intros H. apply Hx. by constructor.
Qed.

(** ** Headers of mirrors *)

Section headers.
Context (id remote local : string) (Hid : number_ok id) (Hr : path_ok remote) (Hl : path_ok local).

(** what may follow the paths of a mirror *)
Definition after_paths (rest : text) : Prop := infix_of (chars "--exclude") rest = false.

Lemma mirror_no_exclude rest : after_paths rest -> infix_of (chars "--exclude") (chars "-c " ++ in_quotes remote (" "%char :: in_quotes local rest)) = false.
Proof.
  intros Hrest. unfold in_quotes.
  assert (Hq : quote ∉ chars "--exclude") by by_decide.
  rewrite (infix_of_sep _ quote (chars "-c ")), (infix_of_sep _ quote (chars remote)) by done.
  change (" "%char :: quote :: chars local ++ quote :: rest) with ([" "%char] ++ quote :: chars local ++ quote :: rest).
  rewrite (infix_of_sep _ quote [" "%char]), (infix_of_sep _ quote (chars local)) by done.
  by rewrite Hrest, (path_no_exclude _ Hr), (path_no_exclude _ Hl).
Qed.

Definition mirror_line (rest : text) : string := str (bracket id (mirror_args remote local rest)).

Lemma mirror_known rest : after_paths rest -> __parse_known_options_mirror_header (mirror_line rest) __MIRROR_HEADER_PREFIX_REGEX = Ok None.
Proof.
  intros Hrest. unfold __parse_known_options_mirror_header, re_match, match_at, mirror_line. rewrite chars_str.
  unfold __MIRROR_HEADER_PREFIX_REGEX, bracket, cat, mirror_args. cbn [fold_right run]. row_step. row_step. row_step. row_step.
  change (chars "mirror -c " ++ in_quotes remote (" "%char :: in_quotes local rest))
    with (chars "mirror" ++ " "%char :: chars "-c " ++ in_quotes remote (" "%char :: in_quotes local rest)).
  row_step. erewrite run_sps_pos; [|done|reflexivity]. cbn [m_rest]. by rewrite mirror_no_exclude.
Qed.

Lemma mirror_not_get rest : re_search pget_header_m (mirror_line rest) = None.
Proof.
  rewrite search_anchored by done. change pget_header_m with (Seq bracket_id get_tail).
  unfold mirror_line, re_match, match_at. rewrite chars_str. cbn [run].
  rewrite run_bracket_id; [|done|done|apply stuck_get_tail]. unfold get_tail, get_command, cat. cbn [fold_right run].
  by rewrite !run_lit_head by done.
Qed.

End headers.

(** ** Lines told apart by their first character *)

Definition headed (x : ascii) (l : string) : Prop := exists t, chars l = x :: t.

Lemma not_failure x l : headed x l -> is_space x = false -> x ∉ ["g"; "p"; "m"]%char ->
  __is_wrong_type_failure_line l || startswith l "mirror: Access failed:" = false.
Proof.
  intros (t & E) Hs Hx. unfold __is_wrong_type_failure_line, lstrip, startswith. rewrite E. cbn [drop_while]. rewrite Hs.
  cbn [existsb __WRONG_TYPE_FAILURE_PREFIXES]. unfold startswith. rewrite !chars_str.
  assert (H : forall y w, y ∈ ["g"; "p"; "m"]%char -> prefix_of (y :: w) (x :: t) = false).
  { intros y w Hy. cbn [prefix_of]. destruct (Ascii.eqb_spec y x) as [->|]; done. }
  cbn [chars String.list_ascii_of_string]. by rewrite !H by set_solver.
Qed.

Lemma is_match_head x l w r : headed x l -> match chars w with [] => False | y :: _ => Ascii.eqb y x = false end ->
  is_match (Seq Bos (Seq (Lit w) r)) l = false.
Proof.
  intros (t & E) Hw. unfold is_match, re_match, match_at. rewrite E. cbn [run]. rewrite run_lit_head; [done|].
  destruct (chars w); [done|]. by cbn [starts].
Qed.

Lemma not_found_head x l w r r' : headed x l -> match chars w with [] => False | y :: _ => Ascii.eqb y x = false end ->
  re_search (Seq Bos (Seq (Seq (Lit w) r) r')) l = None.
Proof.
  intros (t & E) Hw. rewrite search_anchored by done. unfold re_match, match_at. rewrite E. cbn [run].
  rewrite run_lit_head; [done|]. destruct (chars w); [done|]. by cbn [starts].
Qed.

Lemma not_chunk x l : headed x l -> Ascii.eqb backtick x = false -> is_chunk l = false.
Proof.
  intros Hx Hb. unfold is_chunk, is_found, chunk_at_m, chunk_at2_m, chunk_got_m, __QUOTED_FILE_NAME_REGEX, cat. cbn [fold_right].
  by rewrite !(not_found_head x) by done.
Qed.

Definition next_job (rest : list string) : Prop := match rest with [] => True | l :: _ => headed "[" l end.

Lemma bracket_headed id t : headed "[" (str (bracket id t)).
Proof. unfold headed, bracket. rewrite chars_str. by eexists. Qed.

(** ** The records expected *)

Definition some {A} (o : option A) : bool := match o with Some _ => true | None => false end.

(** A running job as a row with counters reports it *)
Definition reported (id : string) (ty : JobType) (remote local shape : string) (t : TransferState)
    (files : dict string TransferState) : LftpJobStatus :=
  let got := String.eqb shape "got" in
  mkJob (digits_value (chars id)) ty JRUNNING (job_basename remote) "-c" (Some (strip remote)) (Some (strip local)) None None t files
    shape (mkPresence (got && some (size_local t)) (got && some (percent_local t)) (some (speed t)) (some (t_eta t))).

Lemma with_total_reported id ty remote local shape t : shape ∈ ["at"; "got"; "none"] ->
  with_total (job_of (digits_value (chars id)) ty JRUNNING "-c" remote local) shape t = Ok (reported id ty remote local shape t []).
Proof.
  intros Hs. unfold with_total, __set_record_provenance, set_record_provenance.
  assert (H : existsb (String.eqb shape) ["at"; "got"; "none"] = true).
  { apply existsb_exists. exists shape. split; [by apply list_elem_of_In|apply String.eqb_refl]. }
  rewrite H. unfold reported, job_of, new_job, both, present, some, is_true. simpl. repeat f_equal; by repeat case_match.
Qed.

Lemma provenance_reported id ty remote local :
  __set_record_provenance (job_of (digits_value (chars id)) ty JRUNNING "-c" remote local) "none" no_transfer =
  Ok (reported id ty remote local "none" no_transfer []).
Proof. done. Qed.

(** the counters of a row without speed *)
Definition counters (a b p : string) : TransferState :=
  mkTransfer (Some (digits_value (chars a))) (Some (digits_value (chars b))) (Some (digits_value (chars p))) None None.

(** ** Running jobs *)

Definition get_line (id : string) (ty : JobType) (remote local : string) : string := str (bracket id (get_args ty remote local)).
Definition got_line (n a b p : string) : string := str (got_text n a b p).
Definition transfer_line (n : string) : string := str (transfer_text n).

(** [sftp://user@host/path], printed under the queue and under a transfer *)
Definition site_line (site : string) : string := str (chars "sftp://" ++ chars site).

Lemma site_sftp site : contains (site_line site) "sftp" = true.
Proof. unfold contains, site_line. by rewrite chars_str. Qed.

Definition amounts : Type := string * string * string.
Definition amounts_ok (x : amounts) : Prop := let '(a, b, p) := x in number_ok a /\ number_ok b /\ number_ok p.

Lemma got_state_ok b0 r n a b p : number_ok a -> number_ok b -> number_ok p ->
  got_state (mkMatch b0 r (got_caps n a b p)) = Ok (counters a b p).
Proof.
  intros Ha Hb Hp. unfold got_state, group_, group, lookup_cap, got_caps. cbn. rewrite !str_chars, !int_number by done. done.
Qed.

Lemma chunk_data_got f g n a b p : name_ok n -> number_ok a -> number_ok b -> number_ok p -> g n = true ->
  chunk_data f g (got_line n a b p) = Ok (Some ("got", counters a b p)).
Proof.
  intros Hn Ha Hb Hp Hg. unfold chunk_data, got_line. destruct (got_not_at n a b p Hn Ha Hb Hp) as [-> ->].
  destruct (got_found n a b p Hn Ha Hb Hp) as (b0 & r & ->).
  change (group_ (mkMatch b0 r (got_caps n a b p)) "name") with (str (chars n)). rewrite str_chars, Hg. by rewrite got_state_ok.
Qed.

Lemma got_is_chunk n a b p : name_ok n -> number_ok a -> number_ok b -> number_ok p -> is_chunk (got_line n a b p) = true.
Proof.
  intros Hn Ha Hb Hp. unfold is_chunk, is_found, got_line. destruct (got_not_at n a b p Hn Ha Hb Hp) as [-> ->].
  by destruct (got_found n a b p Hn Ha Hb Hp) as (b0 & r & ->).
Qed.

Lemma get_command_type b r ty remote local c : ty <> MIRROR -> command_type (mkMatch b r (get_caps ty remote local c)) = ty.
Proof. by destruct ty. Qed.

Definition get_data (data : option amounts) (remote : string) : list string :=
  match data with None => [] | Some (a, b, p) => [got_line remote a b p] end.
Definition get_shape (data : option amounts) : string := match data with None => "none" | Some _ => "got" end.
Definition get_counters (data : option amounts) : TransferState :=
  match data with None => no_transfer | Some (a, b, p) => counters a b p end.

Lemma get_step jobs id ty remote local site data rest :
  number_ok id -> ty <> MIRROR -> path_ok remote -> path_ok local ->
  match data with None => True | Some x => amounts_ok x /\ name_ok remote end -> next_job rest ->
  job_step jobs (get_line id ty remote local) (site_line site :: get_data data remote ++ rest) =
  Ok (reported id ty remote local (get_shape data) (get_counters data) [] :: jobs, S (length (get_data data remote))).
Proof.
  intros Hid Hty Hr Hl Hdata Hrest. unfold job_step, __parse_known_options_mirror_header, get_line.
  rewrite prefix_none by done. cbn [mbind result_bind].
  rewrite (not_failure "[") by (apply bracket_headed || done || by_decide).
  destruct (get_row_match id ty remote local Hid Hty Hr Hl) as (b0 & r0 & Em). unfold is_match at 1. rewrite Em.
  rewrite orb_true_r. cbn [orb negb]. rewrite (match_search _ _ _ Em).
  unfold pget_step. rewrite site_sftp. cbn [negb]. rewrite get_command_type by done.
  set (m := mkMatch b0 r0 _).
  change (group_ m "id") with (str (chars id)). change (group_ m "remote") with (str (chars remote)).
  change (group_ m "local") with (str (chars local)). change (group_ m "flags") with "-c". rewrite !str_chars, int_number by done.
  cbn [mbind result_bind]. destruct data as [[[a b] p]|]; cbn [get_data app].
  - destruct Hdata as [(Ha & Hb & Hp) Hn]. rewrite got_is_chunk by done. rewrite chunk_data_got by (done || apply String.eqb_refl).
    cbn [mbind result_bind from_option]; unfold Datatypes.id; cbn iota beta. rewrite with_total_reported by set_solver. done.
  - assert (Hn : match rest with [] => None | l :: _ => if is_chunk l then Some l else None end = @None string).
    { destruct rest as [|l rest]; [done|]. by rewrite (not_chunk "[" l). }
    rewrite Hn. cbn [mbind result_bind from_option]; unfold Datatypes.id; cbn iota beta. rewrite with_total_reported by set_solver. done.
Qed.

Lemma infix_totals a b p : number_ok a -> number_ok b -> number_ok p -> after_paths (totals_text a b p).
Proof.
  intros Ha Hb Hp. unfold after_paths, totals_text. assert (Hs : " "%char ∉ chars "--exclude") by by_decide.
  set (Y := chars a ++ "/"%char :: chars b ++ " "%char :: "("%char :: chars p ++ chars "%)").
  change (" "%char :: " "%char :: chars "--" ++ " "%char :: Y) with ([] ++ " "%char :: [] ++ " "%char :: chars "--" ++ " "%char :: Y).
  rewrite !(infix_of_sep (chars "--exclude") " "%char) by done. rewrite (infix_of_none (chars "--exclude") "-"%char Y); [done|done|].
  pose proof (number_no a "-" Ha eq_refl). pose proof (number_no b "-" Hb eq_refl). pose proof (number_no p "-" Hp eq_refl).
  unfold Y. repeat (rewrite ?elem_of_app, ?elem_of_cons). assert ("-"%char ∉ chars "%)") by by_decide. intuition discriminate.
Qed.

Lemma path_no_newline p : path_ok p -> newline ∉ chars p.
Proof. intros Hp Hin. pose proof (path_any p Hp) as H. rewrite Forall_forall in H. apply H in Hin. by vm_compute in Hin. Qed.

Lemma mirror_no_totals id remote local : number_ok id -> path_ok remote -> path_ok local ->
  re_search mirror_header_m (mirror_line id remote local []) = None.
Proof.
  intros Hid Hr Hl. rewrite search_anchored by done.
  set (t := chars "[" ++ chars id ++ chars "]" ++ " "%char :: chars "mirror -c " ++ quote :: chars remote ++ quote :: " "%char :: quote :: chars local).
  assert (E : mirror_line id remote local [] = str (t ++ [quote])).
  { unfold mirror_line, bracket, mirror_args, in_quotes, t. f_equal. repeat (rewrite <- ?app_assoc; cbn [app]). done. }
  rewrite E. apply no_totals. pose proof (number_no id newline Hid eq_refl). pose proof (path_no_newline _ Hr). pose proof (path_no_newline _ Hl).
  unfold t. assert (newline ∉ chars "[" ++ chars "]" ++ chars "mirror -c ") as Hc by by_decide. rewrite !elem_of_app in Hc.
  repeat (rewrite ?elem_of_app, ?elem_of_cons). assert (newline <> " "%char /\ newline <> quote) by (split; by_decide). intuition.
Qed.

Section mirrors.
Context (jobs : list LftpJobStatus) (id remote local : string) (rest : list string).
Context (Hid : number_ok id) (Hr : path_ok remote) (Hl : path_ok local).

(** a mirror header is not taken for anything else *)
Lemma mirror_job_step tail m : after_paths tail -> re_match mirror_header_m (mirror_line id remote local tail) = Some m \/
    re_match mirror_fl_header_m (mirror_line id remote local tail) = Some m ->
  job_step jobs (mirror_line id remote local tail) rest =
  match re_search mirror_header_m (mirror_line id remote local tail) with
  | Some m => mirror_step jobs m
  | None => match re_search mirror_fl_header_m (mirror_line id remote local tail) with
            | Some m => mirror_fl_step jobs m rest
            | None => detail_step jobs (mirror_line id remote local tail) rest
            end
  end.
Proof.
  intros Ht Hm. unfold job_step. rewrite mirror_known by done. cbn [mbind result_bind].
  rewrite (not_failure "[") by (apply bracket_headed || done || by_decide). rewrite mirror_not_get by done.
  assert (H : is_match mirror_header_m (mirror_line id remote local tail) || is_match mirror_fl_header_m (mirror_line id remote local tail) = true).
  { unfold is_match. destruct Hm as [-> | ->]; [done|]. by destruct (re_match mirror_header_m _). }
  rewrite <- orb_assoc, H, orb_true_r. done.
Qed.

Lemma listing_step : next_is listing_line rest = false ->
  job_step jobs (mirror_line id remote local []) rest = Ok (reported id MIRROR remote local "none" no_transfer [] :: jobs, O).
Proof.
  intros Hn. destruct (mirror_row_match id remote local Hid Hr Hl) as (b & r & Em).
  rewrite (mirror_job_step [] (mkMatch b r _)) by (done || by right; exact Em). rewrite mirror_no_totals by done.
  unfold mirror_line at 1. rewrite (match_search _ _ _ Em). unfold mirror_fl_step. set (m := mkMatch b r _).
  change (group_ m "id") with (str (chars id)). change (group_ m "remote") with (str (chars remote)).
  change (group_ m "local") with (str (chars local)). change (group_ m "flags") with "-c". rewrite !str_chars, int_number by done.
  cbn [mbind result_bind]. rewrite provenance_reported. by rewrite Hn.
Qed.

Lemma totals_step a b p t : number_ok a -> number_ok b -> number_ok p -> mirror_state a b p None = Ok t ->
  job_step jobs (mirror_line id remote local (totals_text a b p)) rest = Ok (reported id MIRROR remote local "got" t [] :: jobs, O).
Proof.
  intros Ha Hb Hp Ht. destruct (totals_row_match id remote local a b p Hid Hr Hl Ha Hb Hp) as (b0 & r & Em).
  rewrite (mirror_job_step _ (mkMatch b0 r _)) by (by apply infix_totals || by left; exact Em).
  unfold mirror_line at 1. rewrite (match_search _ _ _ Em). unfold mirror_step. set (m := mkMatch b0 r _).
  change (group_ m "id") with (str (chars id)). change (group_ m "remote") with (str (chars remote)).
  change (group_ m "local") with (str (chars local)). change (group_ m "flags") with "-c".
  change (group_ m "szlocal") with (str (chars a)). change (group_ m "szremote") with (str (chars b)).
  change (group_ m "pctlocal") with (str (chars p)). change (group m "speed") with (@None string).
  rewrite !str_chars, int_number by done. cbn [mbind result_bind]. rewrite Ht. cbn [mbind result_bind].
  rewrite with_total_reported by set_solver. done.
Qed.
End mirrors.

(** ** The files of a job *)

Lemma not_found_bracket x l r r' : headed x l -> Ascii.eqb "[" x = false -> re_search (Seq (Seq Bos (Seq (Lit "[") r)) r') l = None.
Proof.
  intros (t & E) Hx. rewrite search_anchored by done. unfold re_match, match_at. rewrite E. cbn [run]. by rewrite run_lit_head.
Qed.

Lemma transfer_headed n : headed "\" (transfer_line n).
Proof. unfold headed, transfer_line, transfer_text. rewrite chars_str. by eexists. Qed.

Lemma file_step jobs id ty remote local shape t files n a b p rest :
  name_ok n -> name_ok (job_basename n) -> number_ok a -> number_ok b -> number_ok p ->
  job_step (reported id ty remote local shape t files :: jobs) (transfer_line n) (got_line (job_basename n) a b p :: rest) =
  Ok (reported id ty remote local shape t (dset files n (counters a b p)) :: jobs, 1%nat).
Proof.
  intros Hn Hb' Ha Hb Hp. unfold job_step, __parse_known_options_mirror_header.
  pose proof (transfer_headed n) as Hh.
  assert (Hk : re_match __MIRROR_HEADER_PREFIX_REGEX (transfer_line n) = None).
  { destruct Hh as (t0 & E). unfold re_match, match_at. rewrite E. unfold __MIRROR_HEADER_PREFIX_REGEX, cat. cbn [fold_right run].
    by rewrite run_lit_head. }
  rewrite Hk. cbn [mbind result_bind]. rewrite (not_failure "\") by (done || by_decide). rewrite bool_decide_false by done. cbn [negb orb].
  rewrite (not_found_bracket "\" _ _ _ Hh eq_refl : re_search pget_header_m (transfer_line n) = None).
  rewrite (not_found_bracket "\" _ _ _ Hh eq_refl : re_search mirror_header_m (transfer_line n) = None).
  rewrite (not_found_bracket "\" _ _ _ Hh eq_refl : re_search mirror_fl_header_m (transfer_line n) = None).
  unfold detail_step, transfer_line. destruct (transfer_found n Hn) as (b0 & r & ->).
  unfold filename_step. set (m := mkMatch b0 r _). change (group_ m "name") with (str (chars n)). rewrite str_chars.
  assert (Hs : startswith (got_line (job_basename n) a b p) "`" = true).
  { unfold startswith, got_line, got_text, name_text. by rewrite chars_str. }
  rewrite Hs. cbn [negb]. rewrite chunk_data_got by (done || apply String.eqb_refl). done.
Qed.

(** ** Snapshots *)

Inductive job_row :=
  | GetRow (id : string) (ty : JobType) (remote local site : string) (data : option amounts)
  | MirrorRow (id remote local : string) (totals : option amounts) (files : list (string * amounts)).

Definition file_lines (f : string * amounts) : list string :=
  let '(n, (a, b, p)) := f in [transfer_line n; got_line (job_basename n) a b p].

Definition totals_of (o : option amounts) : text := match o with None => [] | Some (a, b, p) => totals_text a b p end.

Definition row_lines (r : job_row) : list string :=
  match r with
  | GetRow id ty remote local site data => get_line id ty remote local :: site_line site :: get_data data remote
  | MirrorRow id remote local totals files => mirror_line id remote local (totals_of totals) :: concat (map file_lines files)
  end.

Definition totals_state (o : option amounts) : result TransferState :=
  match o with None => Ok no_transfer | Some (a, b, p) => mirror_state a b p None end.

Definition file_ok (f : string * amounts) : Prop := name_ok f.1 /\ name_ok (job_basename f.1) /\ amounts_ok f.2.

(** other text within a line, up to its end *)
Record free_text (s : string) : Prop := {
  free_chars : Forall (fun c => is_line_break c = false) (chars s);
  free_end : exists l c, chars s = l ++ [c] /\ is_space c = false;
  free_no_status : infix_of (chars "jobs -v") (chars s) = false }.

(** fields that LFTP can print, with totals that fit a float *)
Definition row_ok (r : job_row) : Prop :=
  match r with
  | GetRow id ty remote local site data =>
      number_ok id /\ ty <> MIRROR /\ path_ok remote /\ path_ok local /\ free_text site /\
      match data with None => True | Some x => amounts_ok x /\ name_ok remote end
  | MirrorRow id remote local totals files =>
      number_ok id /\ path_ok remote /\ path_ok local /\ is_ok (totals_state totals) = true /\
      match totals with None => True | Some x => amounts_ok x end /\ Forall file_ok files
  end.

Definition add_file_row (d : dict string TransferState) (f : string * amounts) : dict string TransferState :=
  let '(n, (a, b, p)) := f in dset d n (counters a b p).

(** the status that the row stands for *)
Definition row_status (r : job_row) : LftpJobStatus :=
  match r with
  | GetRow id ty remote local _ data => reported id ty remote local (get_shape data) (get_counters data) []
  | MirrorRow id remote local totals files =>
      reported id MIRROR remote local (get_shape totals)
        (match totals_state totals with Ok t => t | Raise _ => no_transfer end) (fold_left add_file_row files [])
  end.

Lemma jobs_from_skip jobs l rest : jobs_from jobs (length l) (l ++ rest) = jobs_from jobs O rest.
Proof. induction l as [|x l IH]; simpl; [by destruct rest|exact IH]. Qed.

Lemma jobs_from_step jobs line l rest jobs' : job_step jobs line (l ++ rest) = Ok (jobs', length l) ->
  jobs_from jobs O (line :: l ++ rest) = jobs_from jobs' O rest.
Proof. intros E. cbn [jobs_from]. rewrite E. cbn [mbind result_bind]. apply jobs_from_skip. Qed.

Lemma files_jobs jobs id ty remote local shape t rest files : Forall file_ok files -> forall d,
  jobs_from (reported id ty remote local shape t d :: jobs) O (concat (map file_lines files) ++ rest) =
  jobs_from (reported id ty remote local shape t (fold_left add_file_row files d) :: jobs) O rest.
Proof.
  induction 1 as [|[n [[a b] p]] files (Hn & Hb' & Ha & Hb & Hp) Hf IH]; intros d; [done|]. cbn [map concat file_lines fold_left].
  rewrite <- app_assoc. cbn [app]. etrans; [|apply IH].
  apply (jobs_from_step _ (transfer_line n) [got_line (job_basename n) a b p]). by apply file_step.
Qed.

Lemma not_listing x l : headed x l -> x ∉ ["G"; "c"]%char -> listing_line l = false.
Proof.
  intros (t & E) Hx. unfold listing_line, startswith. rewrite E.
  assert (H : forall y w, y ∈ ["G"; "c"]%char -> prefix_of (y :: w) (x :: t) = false).
  { intros y w Hy. cbn [prefix_of]. destruct (Ascii.eqb_spec y x) as [->|]; done. }
  cbn [chars String.list_ascii_of_string]. by rewrite !H by set_solver.
Qed.

Lemma row_jobs jobs r rest : row_ok r -> next_job rest -> jobs_from jobs O (row_lines r ++ rest) = jobs_from (row_status r :: jobs) O rest.
Proof.
  destruct r as [id ty remote local site data|id remote local totals files]; cbn [row_ok row_lines row_status].
  - intros (Hid & Hty & Hr & Hl & Hs & Hd) Hrest. rewrite <- app_comm_cons.
    apply (jobs_from_step jobs (get_line id ty remote local) (site_line site :: get_data data remote)). by apply get_step.
  - intros (Hid & Hr & Hl & Ht & Ha & Hf) Hrest. rewrite <- app_comm_cons. rewrite <- files_jobs by done.
    apply (jobs_from_step jobs _ []). destruct totals as [[[a b] p]|].
    + destruct Ha as (Ha & Hb & Hp). cbn [totals_state is_ok] in *. destruct (mirror_state a b p None) as [t|] eqn:E; [|done].
      by apply totals_step.
    + apply listing_step; [done|done|done|]. destruct files as [|[n [[a b] p]] files]; cbn.
      * destruct rest as [|l rest]; [done|]. apply (not_listing "["); [done|by_decide].
      * done.
Qed.

Lemma row_headed r rest : next_job (row_lines r ++ rest).
Proof. destruct r; apply bracket_headed. Qed.

Lemma rows_next rows : next_job (concat (map row_lines rows)).
Proof. destruct rows as [|r rows]; [done|]. apply row_headed. Qed.

Lemma rows_jobs rows : Forall row_ok rows -> forall jobs,
  jobs_from jobs O (concat (map row_lines rows)) = Ok (rev (map row_status rows) ++ jobs).
Proof.
  induction 1 as [|r rows Hr Hrs IH]; intros jobs; [done|]. cbn [map concat]. rewrite row_jobs by (done || apply rows_next).
  rewrite IH. cbn [rev]. by rewrite <- app_assoc.
Qed.

Lemma parse_rows rows : Forall row_ok rows -> __parse_jobs (concat (map row_lines rows)) = Ok (map row_status rows).
Proof.
  intros H. unfold __parse_jobs. rewrite rows_jobs by done. cbn [mbind result_bind]. by rewrite app_nil_r, rev_involutive.
Qed.

(** ** The queue *)

Inductive queue_cmd :=
  | QueuedGet (id : string) (ty : JobType) (remote local : string)
  | QueuedMirror (id remote local : string).

Definition queue_text (q : queue_cmd) : text :=
  match q with
  | QueuedGet id ty remote local => dotted id (get_args ty remote local)
  | QueuedMirror id remote local => dotted id (mirror_args remote local [])
  end.
Definition queue_line (q : queue_cmd) : string := str (queue_text q).

Definition queue_ok (q : queue_cmd) : Prop :=
  match q with
  | QueuedGet id ty remote local => number_ok id /\ ty <> MIRROR /\ path_ok remote /\ path_ok local
  | QueuedMirror id remote local => number_ok id /\ path_ok remote /\ path_ok local
  end.

Definition queue_status_of (q : queue_cmd) : LftpJobStatus :=
  match q with
  | QueuedGet id ty remote local => job_of (digits_value (chars id)) ty JQUEUED "-c" remote local
  | QueuedMirror id remote local => job_of (digits_value (chars id)) MIRROR JQUEUED "-c" remote local
  end.

Lemma infix_of_app w x a b : w = x :: tail w -> x ∉ a -> infix_of w (a ++ b) = infix_of w b.
Proof.
  intros -> Hx. induction a as [|y a IH]; [done|]. cbn [app infix_of prefix_of].
  destruct (Ascii.eqb_spec x y) as [->|]; [destruct Hx; constructor|]. cbn [andb orb]. apply IH. intros H. apply Hx. by constructor.
Qed.

Definition status_word : text := chars "jobs -v".

(** the status command does not occur in the arguments *)
Lemma args_no_status : quote ∉ status_word /\ (forall remote rest, path_ok remote ->
  infix_of status_word (in_quotes remote rest) = infix_of status_word rest).
Proof.
  assert (Hq : quote ∉ status_word) by by_decide. split; [done|]. intros remote rest Hr. unfold in_quotes.
  change (quote :: chars remote ++ quote :: rest) with ([] ++ quote :: chars remote ++ quote :: rest).
  rewrite !infix_of_sep by done. by rewrite (path_no_status _ Hr : infix_of status_word (chars remote) = false).
Qed.

Lemma get_args_no_status ty remote local : path_ok remote -> path_ok local -> infix_of status_word (get_args ty remote local) = false.
Proof.
  intros Hr Hl. destruct args_no_status as [_ H]. unfold get_args.
  rewrite (infix_of_app _ "j"%char), (infix_of_app _ "j"%char) by (done || by_decide || (destruct ty; by_decide)).
  rewrite H by done. rewrite (infix_of_app _ "j"%char) by (done || by_decide). by rewrite H.
Qed.

Lemma mirror_args_no_status remote local rest : path_ok remote -> path_ok local ->
  infix_of status_word (mirror_args remote local rest) = infix_of status_word rest.
Proof.
  intros Hr Hl. destruct args_no_status as [_ H]. unfold mirror_args. rewrite (infix_of_app _ "j"%char) by (done || by_decide).
  rewrite H by done. change (" "%char :: in_quotes local rest) with ([" "%char] ++ in_quotes local rest).
  rewrite (infix_of_app _ "j"%char) by (done || by_decide). by rewrite H.
Qed.

Lemma dotted_no_status id t : number_ok id -> infix_of status_word t = false -> infix_of status_word (dotted id t) = false.
Proof.
  intros Hid Ht. unfold dotted. rewrite (infix_of_app _ "j"%char) by (done || by apply number_no).
  change (chars "." ++ " "%char :: t) with (chars ". " ++ t). by rewrite (infix_of_app _ "j"%char) by (done || by_decide).
Qed.

Lemma bracket_no_status id t : number_ok id -> infix_of status_word t = false -> infix_of status_word (bracket id t) = false.
Proof.
  intros Hid Ht. unfold bracket. rewrite (infix_of_app _ "j"%char) by (done || by_decide).
  rewrite (infix_of_app _ "j"%char) by (done || by apply number_no).
  change (chars "]" ++ " "%char :: t) with (chars "] " ++ t). by rewrite (infix_of_app _ "j"%char) by (done || by_decide).
Qed.

Lemma queue_no_status q : queue_ok q -> contains (queue_line q) "jobs -v" = false.
Proof.
  unfold contains, queue_line. rewrite chars_str. destruct q as [id ty remote local|id remote local]; cbn [queue_ok queue_text].
  - intros (Hid & Hty & Hr & Hl). apply dotted_no_status; [done|by apply get_args_no_status].
  - intros (Hid & Hr & Hl). apply dotted_no_status; [done|by rewrite mirror_args_no_status].
Qed.

Lemma dotted_line_match id t : number_ok id -> is_match dotted_line (str (dotted id t)) = true.
Proof.
  intros Hid. unfold is_match, re_match, match_at, dotted_line, dotted, cat. rewrite chars_str. cbn [fold_right run].
  erewrite run_digits_pos; [reflexivity|done|done|]. rewrite run_lit_app. reflexivity.
Qed.

Lemma queue_prefix_get id ty remote local : number_ok id -> ty <> MIRROR ->
  __parse_known_options_mirror_header (str (dotted id (get_args ty remote local))) __MIRROR_QUEUE_HEADER_PREFIX_REGEX = Ok None.
Proof.
  intros Hid Hty. unfold __parse_known_options_mirror_header, re_match, match_at, __MIRROR_QUEUE_HEADER_PREFIX_REGEX, dotted, cat.
  rewrite chars_str. cbn [fold_right run]. row_step. row_step. rewrite run_sps; [|by destruct ty|stuck]. rewrite run_lit_head; [done|by destruct ty].
Qed.

Lemma queue_prefix_mirror id remote local : number_ok id -> path_ok remote -> path_ok local ->
  __parse_known_options_mirror_header (str (dotted id (mirror_args remote local []))) __MIRROR_QUEUE_HEADER_PREFIX_REGEX = Ok None.
Proof.
  intros Hid Hr Hl. unfold __parse_known_options_mirror_header, re_match, match_at, __MIRROR_QUEUE_HEADER_PREFIX_REGEX, dotted, cat, mirror_args.
  rewrite chars_str. cbn [fold_right run]. row_step. row_step. row_step.
  change (chars "mirror -c " ++ in_quotes remote (" "%char :: in_quotes local []))
    with (chars "mirror" ++ " "%char :: chars "-c " ++ in_quotes remote (" "%char :: in_quotes local [])).
  row_step. erewrite run_sps_pos; [|done|reflexivity]. cbn [m_rest]. by rewrite mirror_no_exclude.
Qed.

Lemma queue_mirror_not_get id remote local : number_ok id -> re_match queue_pget_m (str (dotted id (mirror_args remote local []))) = None.
Proof.
  intros Hid. change queue_pget_m with (Seq dotted_id get_tail). unfold re_match, match_at. rewrite chars_str. cbn [run].
  rewrite run_dotted_id; [|done|done|apply stuck_get_tail]. unfold get_tail, get_command, cat. cbn [fold_right run].
  by rewrite !run_lit_head by done.
Qed.

Lemma queued_command_line q rest : queue_ok q -> queued_command (queue_line q) rest = Ok ([queue_status_of q], O).
Proof.
  intros Hq. unfold queued_command. rewrite (queue_no_status q Hq). unfold queue_line.
  destruct q as [id ty remote local|id remote local]; cbn [queue_ok queue_text queue_status_of] in *.
  - destruct Hq as (Hid & Hty & Hr & Hl). rewrite queue_prefix_get by done. cbn [mbind result_bind].
    destruct (queue_get_row_match id ty remote local Hid Hty Hr Hl) as (b & r & ->). rewrite get_command_type by done.
    unfold queued_of. set (m := mkMatch b r _). change (group_ m "id") with (str (chars id)).
    change (group_ m "remote") with (str (chars remote)). change (group_ m "local") with (str (chars local)).
    change (group_ m "flags") with "-c". by rewrite !str_chars, int_number by done.
  - destruct Hq as (Hid & Hr & Hl). rewrite queue_prefix_mirror by done. cbn [mbind result_bind]. rewrite queue_mirror_not_get by done.
    destruct (queue_mirror_row_match id remote local Hid Hr Hl) as (b & r & ->).
    unfold queued_of. set (m := mkMatch b r _). change (group_ m "id") with (str (chars id)).
    change (group_ m "remote") with (str (chars remote)). change (group_ m "local") with (str (chars local)).
    change (group_ m "flags") with "-c". by rewrite !str_chars, int_number by done.
Qed.

Lemma commands_end rest : next_job rest -> commands_from O rest = Ok ([], rest).
Proof.
  destruct rest as [|l rest]; [done|]. intros (t & E). cbn [commands_from].
  assert (H1 : is_match dotted_line l = false) by (unfold is_match, re_match, match_at; by rewrite E).
  assert (H2 : is_match cd_line l = false) by (unfold is_match, re_match, match_at; by rewrite E). by rewrite H1, H2.
Qed.

Lemma commands_lines qs rest : Forall queue_ok qs -> next_job rest ->
  commands_from O (map queue_line qs ++ rest) = Ok (map queue_status_of qs, rest).
Proof.
  intros Hqs Hr. induction Hqs as [|q qs Hq Hqs IH]; [by apply commands_end|]. cbn [map app commands_from].
  assert (H : is_match dotted_line (queue_line q) = true).
  { unfold queue_line. destruct q; apply dotted_line_match; apply Hq. }
  rewrite H, queued_command_line by done. cbn [mbind result_bind]. by rewrite IH.
Qed.

(** ** The head of the queue *)

Section completeness.
Context {X : Type}.
Implicit Types (K : kont (X := X)).

(** one stretch after which the rest matches is enough *)
Lemma run_star_some p l b rest c K : Forall (fun x => p x = true) l -> K (rev l ++ b) rest c <> None ->
  run_star p b (l ++ rest) c K <> None.
Proof.
  intros Hl HK E. apply HK. rewrite run_star_outs, first_None in E. specialize (E (rev l ++ b, rest, c)). apply E.
  apply elem_of_outs_star. split; [done|]. by exists l.
Qed.

Lemma run_alt_l r1 r2 b s c K : run r1 b s c K <> None -> run (Alt r1 r2) b s c K <> None.
Proof. cbn [run]. by destruct (run r1 b s c K). Qed.
End completeness.

Lemma is_match_some r l : run r [] l [] accept <> None -> is_match r (str l) = true.
Proof. unfold is_match, re_match, match_at. rewrite chars_str. by destruct (run r [] l [] accept). Qed.

(** [user@host] *)
Definition at_site (user host : string) : string := str (chars user ++ "@"%char :: chars host).
Definition queue_line1 (id user host : string) : string :=
  str (chars "[" ++ chars id ++ chars "] queue (" ++ chars "sftp" ++ chars "://" ++ chars user ++ "@"%char :: chars host ++ chars ")").
Definition queue_line2 (user host : string) : string := site_line (at_site user host).

Lemma free_any s : free_text s -> Forall (fun c => any c = true) (chars s).
Proof.
  intros [H _ _]. eapply Forall_impl; [exact H|]. simpl. intros c Hc. apply negb_true_iff, not_true_iff_false.
  intros ->%Ascii.eqb_eq. by vm_compute in Hc.
Qed.

Lemma queue_line1_match id user host : number_ok id -> free_text user -> free_text host ->
  is_match queue_header1 (queue_line1 id user host) = true.
Proof.
  intros Hid Hu Hh. apply is_match_some. unfold queue_header1, protocols, cat. cbn [fold_right map Alts]. cbn [run].
  row_step. row_step. row_step. apply run_alt_l. row_step. row_step.
  apply run_star_some; [by apply free_any|]. rewrite run_lit1. apply run_star_some; [by apply free_any|].
  rewrite <- (app_nil_r (chars ")")), run_lit_app. rewrite run_opt_none by done. done.
Qed.

Lemma queue_line2_match user host : free_text user -> free_text host -> is_match queue_header2 (queue_line2 user host) = true.
Proof.
  intros Hu Hh. unfold queue_line2, site_line, at_site. rewrite chars_str. apply is_match_some.
  unfold queue_header2, protocols, cat. cbn [fold_right map Alts]. cbn [run].
  change (chars "sftp://" ++ chars user ++ "@"%char :: chars host) with (chars "sftp" ++ chars "://" ++ chars user ++ "@"%char :: chars host).
  apply run_alt_l. row_step. row_step. apply run_star_some; [by apply free_any|]. rewrite run_lit1.
  rewrite <- (app_nil_r (chars host)). apply run_star_some; [by apply free_any|]. done.
Qed.

(** What the queue is doing *)
Inductive queue_state :=
  | Stopped
  | Executing (first : string) (others : list (string * string)).

Definition executing_other (x : string * string) : string := str (chars "-[" ++ chars x.1 ++ chars "]" ++ chars x.2).

Definition state_lines (s : queue_state) : list string :=
  match s with
  | Stopped => ["Queue is stopped."]
  | Executing first others => str (chars "Now executing:" ++ chars first) :: map executing_other others
  end.

Definition state_ok (s : queue_state) : Prop :=
  match s with
  | Stopped => True
  | Executing first others => free_text first /\ Forall (fun x => number_ok x.1 /\ free_text x.2) others
  end.

Definition next_section (rest : list string) : Prop := match rest with [] => True | l :: _ => headed "[" l \/ headed "C" l end.

Lemma state_read s rest : state_ok s -> next_section rest -> queue_status (state_lines s ++ rest) = Ok rest.
Proof.
  intros Hs Hr. destruct s as [|first others]; [done|]. cbn [state_lines app queue_status]. destruct Hs as [Hf Ho].
  assert (H1 : is_match queue_stopped (str (chars "Now executing:" ++ chars first)) = false).
  { unfold is_match, re_match, match_at. by rewrite chars_str. }
  assert (H2 : is_match (Lit "Now executing:") (str (chars "Now executing:" ++ chars first)) = true).
  { apply is_match_some. by rewrite run_lit_app. }
  rewrite H1, H2. f_equal. induction Ho as [|[id t] others [Hid Ht] Ho IH]; cbn [map app drop_while].
  - destruct rest as [|l rest]; [done|]. cbn [drop_while].
    assert (H : is_match executing_line l = false).
    { unfold is_match, re_match, match_at. by destruct Hr as [(t & ->)|(t & ->)]. }
    by rewrite H.
  - assert (H : is_match executing_line (executing_other (id, t)) = true).
    { apply is_match_some. unfold executing_line, cat. cbn [fold_right fst snd run]. row_step. row_step. by row_step. }
    by rewrite H, IH.
Qed.

(** ** The whole snapshot *)

Record snapshot := mkSnapshot {
  snap_id : string; snap_user : string; snap_host : string; snap_state : queue_state;
  snap_queue : list queue_cmd; snap_rows : list job_row }.

Definition queue_section (qs : list queue_cmd) : list string :=
  match qs with [] => [] | _ => "Commands queued:" :: map queue_line qs end.

Definition render (s : snapshot) : list string :=
  queue_line1 (snap_id s) (snap_user s) (snap_host s) :: queue_line2 (snap_user s) (snap_host s) ::
  state_lines (snap_state s) ++ queue_section (snap_queue s) ++ concat (map row_lines (snap_rows s)).

Record snapshot_ok (s : snapshot) : Prop := {
  snap_id_ok : number_ok (snap_id s);
  snap_user_ok : free_text (snap_user s);
  snap_host_ok : free_text (snap_host s);
  snap_state_ok : state_ok (snap_state s);
  snap_queue_ok : Forall queue_ok (snap_queue s);
  snap_rows_ok : Forall row_ok (snap_rows s) }.

(** the jobs that the snapshot lists *)
Definition snapshot_jobs (s : snapshot) : list LftpJobStatus :=
  map queue_status_of (snap_queue s) ++ map row_status (snap_rows s).

Lemma bracket_not_done id t : number_ok id -> starts (Ascii.eqb "D") t = false -> is_match __QUEUE_DONE_REGEX (str (bracket id t)) = false.
Proof.
  intros Hid Ht. unfold is_match, re_match, match_at, __QUEUE_DONE_REGEX, bracket, cat. rewrite chars_str. cbn [fold_right run].
  row_step. row_step. row_step. cbn [sp run]. change (is_space " ") with true. cbn iota. by rewrite run_lit_head.
Qed.

Lemma rows_not_done rows : Forall row_ok rows -> drop_done (concat (map row_lines rows)) = concat (map row_lines rows).
Proof.
  destruct 1 as [|r rows Hr _]; [done|]. unfold drop_done. cbn [map concat]. destruct r; cbn [row_lines app next_is].
  - unfold get_line. rewrite bracket_not_done; [done|apply Hr|by destruct ty].
  - unfold mirror_line. by rewrite bracket_not_done by (done || apply Hr).
Qed.

Lemma queue_read s : snapshot_ok s ->
  __parse_queue (render s) = Ok (map queue_status_of (snap_queue s), concat (map row_lines (snap_rows s))).
Proof.
  intros [Hid Hu Hh Hst Hq Hr]. unfold render, __parse_queue. rewrite <- (rows_not_done (snap_rows s)) at 2 by done.
  assert (Hn : next_section (queue_section (snap_queue s) ++ concat (map row_lines (snap_rows s)))).
  { destruct (snap_queue s); [|right; by eexists]. pose proof (rows_next (snap_rows s)) as H. cbn [queue_section app].
    destruct (concat _); [done|by left]. }
  rewrite queue_line1_match, queue_line2_match by done. cbn [negb]. rewrite state_read by done. cbn [mbind result_bind].
  unfold queued_jobs. destruct (snap_queue s) as [|q qs]; cbn [queue_section app].
  - pose proof (rows_next (snap_rows s)) as H. destruct (concat (map row_lines (snap_rows s))) as [|l rest]; [done|].
    assert (Hc : is_match (Lit "Commands queued:") l = false).
    { destruct H as (t & E). unfold is_match, re_match, match_at. by rewrite E. }
    cbn [next_is]. by rewrite Hc.
  - change (next_is (is_match (Lit "Commands queued:")) ("Commands queued:" :: map queue_line (q :: qs) ++ concat (map row_lines (snap_rows s))))
      with true.
    pose proof (commands_lines (q :: qs) (concat (map row_lines (snap_rows s))) Hq (rows_next _)) as E. cbn [tail map app] in *. by rewrite E.
Qed.
