(* ===== verification/LftpSnapshot.v ===== *)
(** * Reading back a status snapshot

    The lines of [LftpRoundTrip.render], joined to one output, pass every test
    of [parse] for echoes and log output, so that the parser returns exactly
    the jobs they were printed from. *)

From S2P Require Import Prelude PyStr PyDict PyFloat JobStatus Regex LftpParser LftpParserFacts LftpRows LftpRoundTrip.

(** ** From text to lines *)

Definition unlines (lines : list string) : string := str (concat (map (fun l => chars l ++ [newline]) lines)).

Definition no_break (l : text) : Prop := Forall (fun c => is_line_break c = false) l.

Lemma splitlines_line l rest : forall cur, no_break l ->
  splitlines_chars cur (l ++ newline :: rest) = (rev cur ++ l) :: splitlines_chars [] rest.
Proof.
  induction l as [|x l IH]; intros cur Hl.
  - cbn [app splitlines_chars]. change (is_line_break newline) with true. cbn iota. rewrite app_nil_r. by destruct rest.
  - apply Forall_cons in Hl as [Hx Hl]. cbn [app splitlines_chars]. rewrite Hx, IH by done. cbn [rev]. by rewrite <- app_assoc.
Qed.

Lemma splitlines_of_unlines lines : Forall (fun l => no_break (chars l)) lines -> splitlines (unlines lines) = lines.
Proof.
  intros H. unfold splitlines, unlines. rewrite chars_str. induction H as [|l lines Hl _ IH]; [done|]. cbn [map concat].
  rewrite <- app_assoc. cbn [app]. rewrite splitlines_line by done. cbn [rev app map]. by rewrite str_chars, IH.
Qed.

(** A line that passes every test for echoes and log output *)
Record safe_line (l : string) : Prop := {
  safe_break : no_break (chars l);
  safe_strip : strip l = l;
  safe_head : exists x, headed x l /\ x ∉ ["q"; "g"; "p"; "m"; chr 27]%char /\ is_space x = false;
  safe_status : contains l "jobs -v" = false;
  safe_bracket : is_match __STATUS_COMMAND_ECHO_BRACKETED_LINE_REGEX l = false;
  safe_log : is_match log_line l = false }.

Lemma existsb_none {A} (f : A -> bool) l : Forall (fun x => f x = false) l -> existsb f l = false.
Proof. induction 1 as [|x l Hx _ IH]; [done|]. cbn [existsb]. by rewrite Hx, IH. Qed.

Lemma filter_keep {A} (f : A -> bool) l : Forall (fun x => f x = true) l -> List.filter f l = l.
Proof. induction 1 as [|x l Hx _ IH]; [done|]. cbn [List.filter]. by rewrite Hx, IH. Qed.

Lemma map_same {A} (f : A -> A) l : Forall (fun x => f x = x) l -> map f l = l.
Proof. induction 1 as [|x l Hx _ IH]; [done|]. cbn [map]. by rewrite Hx, IH. Qed.

Lemma safe_lines_kept lines : Forall safe_line lines -> snapshot_lines (unlines lines) = lines.
Proof.
  intros H. unfold snapshot_lines. rewrite splitlines_of_unlines by (eapply Forall_impl; [exact H|]; intros ? []; done).
  rewrite map_same by (eapply Forall_impl; [exact H|]; intros ? []; done).
  rewrite (filter_keep (fun l => negb (String.eqb l ""))).
  - apply filter_keep. eapply Forall_impl; [exact H|]. intros l Hl. rewrite bool_decide_false; [done|].
    intros [->|Hin]%elem_of_cons; [|apply list_elem_of_singleton in Hin as ->]; destruct Hl as [_ _ (x & (t & E) & Hx & _) _ _ _];
      cbn in E; injection E as <- _; apply Hx; by_decide.
  - eapply Forall_impl; [exact H|]. intros l [_ _ (x & (t & E) & _) _ _ _]. destruct l; done.
Qed.

(** Nothing but the snapshot is read from safe lines. *)
Lemma parse_safe lines o : Forall safe_line lines ->
  parse (unlines lines) o = match parse_status_lines lines not_attempted with (Ok s, o') => (Ok s, o') | (Raise e, _) => (Raise e, hard_error) end.
Proof.
  intros H. unfold parse, __parse. unfold mbind at 1, st_bind at 1, modify at 1. rewrite safe_lines_kept by done.
  rewrite existsb_none by (eapply Forall_impl; [exact H|]; intros ? []; done).
  assert (Hm : Forall (fun l => is_marker l = false) lines).
  { eapply Forall_impl; [exact H|]. intros l [_ _ _ Hs _ _]. unfold is_marker. apply String.eqb_neq. intros ->. by vm_compute in Hs. }
  assert (Hi : index_of is_marker lines = None).
  { clear H. induction Hm as [|l lines Hl _ IH]; [done|]. cbn [index_of]. by rewrite Hl, IH. }
  rewrite Hi. assert (Hq : existsb (is_match __QUEUE_COMMAND_ECHO_REGEX) lines = false).
  { apply existsb_none. eapply Forall_impl; [exact H|]. intros l [_ _ (x & Hx & Hn & _) _ _ _].
    apply (is_match_head x l "queue"); [done|]. change (Ascii.eqb "q" x = false). destruct (Ascii.eqb_spec "q" x) as [<-|]; [|done]. exfalso. apply Hn. by_decide. }
  rewrite Hq. rewrite existsb_none.
  2: { eapply Forall_impl; [exact H|]. intros l [_ _ _ Hs _ _]. unfold __has_status_command_echo.
       by rewrite (Hs : contains l __STATUS_COMMAND_ECHO_MARKER = false). }
  rewrite (filter_keep (fun l => negb (is_marker l))) by (eapply Forall_impl; [exact Hm|]; simpl; by intros ? ->).
  rewrite filter_keep; [done|]. eapply Forall_impl; [exact H|]. intros l [_ _ _ _ _ Hl]. by rewrite Hl.
Qed.

(** ** The rendered lines are safe *)

Lemma no_break_app a b : no_break a -> no_break b -> no_break (a ++ b).
Proof. intros. by apply Forall_app. Qed.

Lemma no_break_cons c b : is_line_break c = false -> no_break b -> no_break (c :: b).
Proof. intros. by apply Forall_cons. Qed.

Lemma no_break_number s : number_ok s -> no_break (chars s).
Proof. intros [H _ _]. eapply Forall_impl; [exact H|]. simpl. unfold is_digit, is_line_break. intros c. lia. Qed.

Lemma no_break_path p : path_ok p -> no_break (chars p).
Proof.
  intros [_ H _ _]. eapply Forall_impl; [exact H|]. simpl. unfold path_char. intros c [_ Hc]%andb_prop. by apply negb_true_iff.
Qed.

Lemma no_break_name n : name_ok n -> no_break (chars n).
Proof. by intros []. Qed.

Lemma no_break_free n : free_text n -> no_break (chars n).
Proof. by intros []. Qed.

Lemma no_break_nil : no_break [].
Proof. constructor. Qed.

Create HintDb lines.
#[export] Hint Resolve no_break_app no_break_cons no_break_number no_break_path no_break_name no_break_free no_break_nil : lines.
#[export] Hint Extern 2 (no_break (chars (String _ _))) => (apply (bool_decide_unpack _); vm_compute; exact I) : lines.
#[export] Hint Extern 2 (is_line_break _ = false) => reflexivity : lines.

Lemma bracket_not_echo id t : number_ok id -> starts (Ascii.eqb "j") t = false -> starts is_space t = false ->
  is_match __STATUS_COMMAND_ECHO_BRACKETED_LINE_REGEX (str (bracket id t)) = false.
Proof.
  intros Hid Ht Hs. unfold is_match, re_match, match_at, __STATUS_COMMAND_ECHO_BRACKETED_LINE_REGEX, bracket, cat.
  rewrite chars_str. cbn [fold_right run]. row_step. row_step. row_step. rewrite run_sps; [|done|stuck]. by rewrite run_lit_head.
Qed.

Lemma outs_times p n : forall b s c b' s' c', (b', s', c') ∈ outs (Times n p) b s c -> exists l, s = l ++ s' /\ Forall (fun x => p x = true) l.
Proof.
  induction n as [|n IH]; intros b s c b' s' c' H.
  - apply list_elem_of_singleton in H as [= -> -> ->]. by exists [].
  - apply elem_of_outs_seq in H as (b1 & s1 & c1 & H1 & (l & -> & Hl)%IH). cbn [outs] in H1. destruct s as [|x s]; [by inversion H1|].
    destruct (p x) eqn:Ep; [|by inversion H1]. apply list_elem_of_singleton in H1 as [= _ <- _]. exists (x :: l). split; [done|by constructor].
Qed.

Lemma class_sep (p : ascii -> bool) a b x y s t : Forall (fun c => p c = true) a -> Forall (fun c => p c = true) b ->
  p x = false -> p y = false -> a ++ x :: s = b ++ y :: t -> x = y.
Proof.
  intros Ha Hb Hx Hy. revert b Hb. induction Ha as [|z a Hz Ha IH]; intros [|w b] Hb E; simpl in E; try (injection E as -> E); try done.
  - apply Forall_cons in Hb as [Hw _]. congruence.
  - congruence.
  - apply Forall_cons in Hb as [_ Hb]. by eapply IH.
Qed.

Lemma dotted_not_log id t : number_ok id -> is_match log_line (str (dotted id t)) = false.
Proof.
  intros [Hid _ _]. unfold is_match. destruct (re_match log_line (str (dotted id t))) as [m|] eqn:E; [exfalso|done].
  unfold re_match, match_at in E. rewrite chars_str in E. apply run_Some in E as (b' & s' & c' & H & _).
  unfold log_line, cat in H. cbn [fold_right] in H. apply elem_of_outs_seq in H as (b1 & s1 & c1 & H1 & H).
  apply list_elem_of_singleton in H1 as [= -> -> ->].
  apply elem_of_outs_seq in H as (b2 & s2 & c2 & (l & E & Hl)%outs_times & H).
  apply elem_of_outs_seq in H as (b3 & s3 & c3 & (-> & _ & _)%elem_of_outs_lit & _).
  pose proof (class_sep is_digit (chars id) l "."%char "-"%char _ _ Hid Hl eq_refl eq_refl E). done.
Qed.

Lemma head_not_log x l : headed x l -> is_digit x = false -> is_match log_line l = false.
Proof.
  intros (t & E) Hx. unfold is_match, re_match, match_at. rewrite E. unfold log_line, cat. cbn [fold_right Times run]. by rewrite Hx.
Qed.

Lemma head_not_echo x l : headed x l -> Ascii.eqb "[" x = false -> is_match __STATUS_COMMAND_ECHO_BRACKETED_LINE_REGEX l = false.
Proof. intros Hx Hb. by apply (is_match_head x l "["). Qed.

(** a line by its first and last characters *)
Lemma safe_text t x t1 t2 y : t = x :: t1 -> t = t2 ++ [y] -> no_break t -> x ∉ ["q"; "g"; "p"; "m"; chr 27]%char ->
  is_space x = false -> is_space y = false -> infix_of status_word t = false ->
  is_match __STATUS_COMMAND_ECHO_BRACKETED_LINE_REGEX (str t) = false -> is_match log_line (str t) = false -> safe_line (str t).
Proof.
  intros Hx Hy Hb Hn Hsx Hsy Hi He Hl. constructor; try done; rewrite ?chars_str; try done.
  - apply strip_trimmed. split; [by rewrite Hx|]. rewrite Hy, rev_app_distr. done.
  - exists x. split; [|done]. exists t1. by rewrite chars_str.
  - unfold contains. by rewrite chars_str.
Qed.

(** a line that starts with neither a bracket nor a digit *)
Lemma safe_plain t x t1 t2 y : t = x :: t1 -> t = t2 ++ [y] -> no_break t -> x ∉ ["q"; "g"; "p"; "m"; chr 27; "["]%char ->
  is_digit x = false -> is_space x = false -> is_space y = false -> infix_of status_word t = false -> safe_line (str t).
Proof.
  intros Hx Hy Hb Hn Hd Hsx Hsy Hi. assert (Hh : headed x (str t)) by (exists t1; by rewrite chars_str).
  assert (Hbx : Ascii.eqb "[" x = false).
  { destruct (Ascii.eqb_spec "[" x) as [<-|]; [|done]. exfalso. apply Hn. by_decide. }
  eapply safe_text; [exact Hx|exact Hy|done| |done|done|done|by eapply head_not_echo|by eapply head_not_log]. set_solver.
Qed.

(** a line [\[id\] ...] *)
Lemma safe_brackets id t t2 y : number_ok id -> t = t2 ++ [y] -> no_break t -> is_space y = false -> infix_of status_word t = false ->
  starts (Ascii.eqb "j") t = false -> starts is_space t = false -> safe_line (str (bracket id t)).
Proof.
  intros Hid Ht Hb Hy Hi Hj Hs.
  eapply (safe_text (bracket id t) "["%char _ (bracket id t2) y); [reflexivity| | |by_decide|done|done|by apply bracket_no_status|by apply bracket_not_echo|].
  - unfold bracket. rewrite Ht. repeat (rewrite <- ?app_assoc; cbn [app]). done.
  - unfold bracket. auto 10 with lines.
  - apply (head_not_log "["%char); [apply bracket_headed|done].
Qed.

Lemma get_args_end ty remote local : exists t, get_args ty remote local = t ++ [quote].
Proof.
  exists (chars (get_text ty) ++ chars " -c " ++ quote :: chars remote ++ quote :: chars to ++ quote :: chars local).
  unfold get_args, in_quotes. repeat (rewrite <- ?app_assoc; cbn [app]). done.
Qed.

Lemma mirror_args_end remote local rest : mirror_args remote local rest =
  (chars "mirror -c " ++ quote :: chars remote ++ quote :: " "%char :: quote :: chars local ++ [quote]) ++ rest.
Proof. unfold mirror_args, in_quotes. repeat (rewrite <- ?app_assoc; cbn [app]). done. Qed.

Lemma get_args_break ty remote local : path_ok remote -> path_ok local -> no_break (get_args ty remote local).
Proof. intros. unfold get_args, in_quotes, to. destruct ty; cbn [get_text]; auto 12 with lines. Qed.

Lemma mirror_args_break remote local rest : path_ok remote -> path_ok local -> no_break rest -> no_break (mirror_args remote local rest).
Proof. intros. unfold mirror_args, in_quotes. auto 12 with lines. Qed.

Lemma totals_break a b p : number_ok a -> number_ok b -> number_ok p -> no_break (totals_text a b p).
Proof. intros. unfold totals_text. auto 14 with lines. Qed.

Lemma safe_get_line id ty remote local : number_ok id -> path_ok remote -> path_ok local -> safe_line (get_line id ty remote local).
Proof.
  intros Hid Hr Hl. destruct (get_args_end ty remote local) as [t Ht].
  eapply safe_brackets; [done|exact Ht|by apply get_args_break|done|by apply get_args_no_status|by destruct ty|by destruct ty].
Qed.

(** a line [id. ...] *)
Lemma safe_dotted id t t2 y : number_ok id -> t = t2 ++ [y] -> no_break t -> is_space y = false -> infix_of status_word t = false ->
  safe_line (str (dotted id t)).
Proof.
  intros Hid Ht Hb Hy Hi. pose proof Hid as [Hd Hn _].
  assert (Hx : exists x l, chars id = x :: l /\ is_digit x = true).
  { destruct (chars id) as [|x l]; [done|]. apply Forall_cons in Hd as [Hx _]. by exists x, l. }
  destruct Hx as (x & l & El & Hx).
  assert (Hhead : dotted id t = x :: l ++ chars "." ++ " "%char :: t) by (unfold dotted; by rewrite El).
  eapply safe_text; [exact Hhead| | | |by apply digit_is_no_space|exact Hy|by apply dotted_no_status| |by apply dotted_not_log].
  - unfold dotted. rewrite Ht. instantiate (1 := chars id ++ chars "." ++ " "%char :: t2).
    repeat (rewrite <- ?app_assoc; cbn [app]). done.
  - unfold dotted. auto 10 with lines.
  - assert (Hc : forallb (fun c => negb (is_digit c)) ["q"; "g"; "p"; "m"; chr 27]%char = true) by done. intros Hin.
    rewrite forallb_forall in Hc. apply list_elem_of_In, Hc in Hin. by rewrite Hx in Hin.
  - apply (head_not_echo x); [eexists; by rewrite chars_str|]. destruct (Ascii.eqb_spec "[" x) as [<-|]; [by vm_compute in Hx|done].
Qed.

Lemma safe_queue_line q : queue_ok q -> safe_line (queue_line q).
Proof.
  unfold queue_line. destruct q as [id ty remote local|id remote local]; cbn [queue_ok queue_text].
  - intros (Hid & Hty & Hr & Hl). destruct (get_args_end ty remote local) as [t Ht].
    eapply safe_dotted; [done|exact Ht|by apply get_args_break|done|by apply get_args_no_status].
  - intros (Hid & Hr & Hl). apply (safe_dotted id _ (chars "mirror -c " ++ quote :: chars remote ++ quote :: " "%char :: quote :: chars local) quote);
      [done| |apply mirror_args_break; auto with lines|done|by rewrite mirror_args_no_status].
    rewrite mirror_args_end, app_nil_r. repeat (rewrite <- ?app_assoc; cbn [app]). done.
Qed.

Lemma totals_no_status a b p : number_ok a -> number_ok b -> number_ok p -> infix_of status_word (totals_text a b p) = false.
Proof.
  intros Ha Hb Hp. apply (infix_of_none _ "j"%char); [done|].
  pose proof (number_no a "j" Ha eq_refl). pose proof (number_no b "j" Hb eq_refl). pose proof (number_no p "j" Hp eq_refl).
  unfold totals_text. repeat (rewrite ?elem_of_app, ?elem_of_cons). assert ("j"%char ∉ chars "--" ++ chars "%)") as Hc by by_decide.
  rewrite elem_of_app in Hc. intuition discriminate.
Qed.

Lemma safe_mirror_line id remote local totals : number_ok id -> path_ok remote -> path_ok local ->
  match totals with None => True | Some x => amounts_ok x end -> safe_line (mirror_line id remote local (totals_of totals)).
Proof.
  intros Hid Hr Hl Ht. unfold mirror_line. rewrite mirror_args_end. destruct totals as [[[a b] p]|]; cbn [totals_of].
  - destruct Ht as (Ha & Hb & Hp).
    eapply (safe_brackets id _ ((chars "mirror -c " ++ quote :: chars remote ++ quote :: " "%char :: quote :: chars local ++ [quote]) ++
      " "%char :: " "%char :: chars "--" ++ " "%char :: chars a ++ "/"%char :: chars b ++ " "%char :: "("%char :: chars p ++ ["%"%char]) ")"%char);
      [done| | |done| |done|done].
    + unfold totals_text. repeat (rewrite <- ?app_assoc; cbn [app]). done.
    + rewrite <- mirror_args_end. apply mirror_args_break; [done|done|by apply totals_break].
    + rewrite <- mirror_args_end, mirror_args_no_status by done. by apply totals_no_status.
  - rewrite app_nil_r. eapply (safe_brackets id _ (chars "mirror -c " ++ quote :: chars remote ++ quote :: " "%char :: quote :: chars local) quote);
      [done| | |done| |done|done].
    + repeat (rewrite <- ?app_assoc; cbn [app]). done.
    + pose proof (mirror_args_break remote local [] Hr Hl no_break_nil) as H. by rewrite mirror_args_end, app_nil_r in H.
    + pose proof (mirror_args_no_status remote local [] Hr Hl) as H. by rewrite mirror_args_end, app_nil_r in H.
Qed.

Lemma safe_site_line site : free_text site -> safe_line (site_line site).
Proof.
  intros [Hb (l & c & E & Hc) Hi]. unfold site_line.
  eapply (safe_plain _ "s"%char _ (chars "sftp://" ++ l) c); [reflexivity|by rewrite E, app_assoc|auto with lines|by_decide|done|done|done|].
  by rewrite (infix_of_app _ "j"%char) by (done || by_decide).
Qed.

Lemma free_at_site user host : free_text user -> free_text host -> free_text (at_site user host).
Proof.
  intros [Hb1 _ Hi1] [Hb2 (l & c & E & Hc) Hi2]. unfold at_site. constructor; rewrite chars_str.
  - by apply no_break_app, no_break_cons.
  - exists (chars user ++ "@"%char :: l), c. split; [|done]. rewrite E. by rewrite <- app_assoc.
  - rewrite infix_of_sep by (done || by_decide). by rewrite Hi1, Hi2.
Qed.

Lemma safe_name_line (head : text) x t1 n rest y t2 : head ++ name_text n rest = x :: t1 -> name_ok n -> no_break head -> no_break rest ->
  x ∉ ["q"; "g"; "p"; "m"; chr 27; "["]%char -> is_digit x = false -> is_space x = false -> is_space y = false ->
  squote :: rest = t2 ++ [y] -> "j"%char ∉ head -> "j"%char ∉ rest -> safe_line (str (head ++ name_text n rest)).
Proof.
  intros Hh Hn Hbh Hbr Hx Hd Hsx Hsy Hr Hjh Hjr. unfold name_text in *.
  eapply (safe_plain _ x _ (head ++ backtick :: chars n ++ t2) y); try done.
  - rewrite Hr, <- app_assoc. cbn [app]. by rewrite <- app_assoc.
  - auto 10 with lines.
  - rewrite (infix_of_app _ "j"%char) by done. change (backtick :: chars n ++ squote :: rest) with ([] ++ backtick :: chars n ++ squote :: rest).
    rewrite infix_of_sep by (done || by_decide). rewrite infix_of_sep by (done || by_decide).
    rewrite (name_no_status _ Hn : infix_of status_word (chars n) = false), (infix_of_none status_word "j"%char rest) by done. done.
Qed.

Lemma safe_transfer_line n : name_ok n -> safe_line (transfer_line n).
Proof.
  intros Hn. unfold transfer_line, transfer_text.
  replace (chars "\transfer" ++ " "%char :: name_text n []) with (chars "\transfer " ++ name_text n []) by done.
  eapply (safe_name_line _ "\"%char _ n [] squote []); try done; by_decide.
Qed.

Lemma safe_got_line n a b p : name_ok n -> number_ok a -> number_ok b -> number_ok p -> safe_line (got_line n a b p).
Proof.
  intros Hn Ha Hb Hp. unfold got_line, got_text.
  set (rest := chars "," ++ " "%char :: chars "got" ++ " "%char :: chars a ++ " "%char :: chars "of" ++ " "%char ::
    chars b ++ " "%char :: chars "(" ++ chars p ++ chars "%)").
  assert (Hj : "j"%char ∉ rest).
  { pose proof (number_no a "j" Ha eq_refl). pose proof (number_no b "j" Hb eq_refl). pose proof (number_no p "j" Hp eq_refl).
    unfold rest. repeat (rewrite ?elem_of_app, ?elem_of_cons).
    assert ("j"%char ∉ chars "," ++ chars "got" ++ chars "of" ++ chars "(" ++ chars "%)") as Hc by by_decide.
    rewrite !elem_of_app in Hc. assert ("j"%char <> " "%char) by by_decide. intuition. }
  assert (Hbr : no_break rest) by (unfold rest; auto 20 with lines).
  assert (He : squote :: rest = (squote :: chars "," ++ " "%char :: chars "got" ++ " "%char :: chars a ++ " "%char :: chars "of" ++ " "%char ::
    chars b ++ " "%char :: chars "(" ++ chars p ++ ["%"%char]) ++ [")"%char]).
  { unfold rest. repeat (rewrite <- ?app_assoc; cbn [app]). done. }
  exact (safe_name_line [] backtick _ n rest ")"%char _ eq_refl Hn no_break_nil Hbr ltac:(by_decide) eq_refl eq_refl eq_refl He ltac:(by_decide) Hj).
Qed.

Lemma safe_queue_line1 id user host : number_ok id -> free_text user -> free_text host -> safe_line (queue_line1 id user host).
Proof.
  intros Hid Hu Hh. unfold queue_line1.
  set (t := chars "queue (sftp://" ++ chars user ++ "@"%char :: chars host ++ chars ")").
  change (safe_line (str (bracket id t))).
  apply (safe_brackets id t (chars "queue (sftp://" ++ chars user ++ "@"%char :: chars host) ")"%char); unfold t; try done.
  - repeat (rewrite <- ?app_assoc; cbn [app]). done.
  - auto 10 with lines.
  - rewrite (infix_of_app _ "j"%char) by (done || by_decide). rewrite infix_of_sep by (done || by_decide).
    change (chars host ++ chars ")") with (chars host ++ ")"%char :: []). rewrite infix_of_sep by (done || by_decide).
    destruct Hu as [_ _ Hu], Hh as [_ _ Hh]. fold status_word in Hu, Hh. by rewrite Hu, Hh.
Qed.

Lemma safe_state_lines s : state_ok s -> Forall safe_line (state_lines s).
Proof.
  destruct s as [|first others]; cbn [state_ok state_lines].
  - intros _. apply Forall_singleton. change "Queue is stopped." with (str (chars "Queue is stopped.")).
    eapply (safe_plain _ "Q"%char _ (chars "Queue is stopped") "."%char); try done; by_decide.
  - intros [[Hb (l & c & E & Hc) Hi] Ho]. apply Forall_cons. split.
    + eapply (safe_plain _ "N"%char _ (chars "Now executing:" ++ l) c); [reflexivity|by rewrite E, app_assoc|auto with lines|by_decide|done|done|done|].
      by rewrite (infix_of_app _ "j"%char) by (done || by_decide).
    + apply Forall_map. eapply Forall_impl; [exact Ho|]. intros [id t] [Hid [Hb' (l' & c' & E' & Hc') Hi']]. unfold executing_other. cbn [fst snd] in *.
      eapply (safe_plain _ "-"%char _ (chars "-[" ++ chars id ++ chars "]" ++ l') c'); [reflexivity| |auto with lines|by_decide|done|done|done|].
      * rewrite E'. repeat (rewrite <- ?app_assoc; cbn [app]). done.
      * rewrite !(infix_of_app _ "j"%char) by (done || by_decide || by apply number_no). done.
Qed.

Lemma safe_row_lines r : row_ok r -> Forall safe_line (row_lines r).
Proof.
  destruct r as [id ty remote local site data|id remote local totals files]; cbn [row_ok row_lines].
  - intros (Hid & Hty & Hr & Hl & Hs & Hd). repeat apply Forall_cons_2; [by apply safe_get_line|by apply safe_site_line|].
    destruct data as [[[a b] p]|]; [|constructor]. destruct Hd as [(Ha & Hb & Hp) Hn]. apply Forall_singleton. by apply safe_got_line.
  - intros (Hid & Hr & Hl & Ht & Ha & Hf). apply Forall_cons_2; [by apply safe_mirror_line|].
    induction Hf as [|[n [[a b] p]] files (Hn & Hb & H1 & H2 & H3) Hf IH]; [constructor|]. cbn [map concat file_lines]. apply Forall_app.
    split; [|exact IH]. repeat apply Forall_cons_2; [by apply safe_transfer_line|by apply safe_got_line|constructor].
Qed.

Lemma render_safe s : snapshot_ok s -> Forall safe_line (render s).
Proof.
  intros [Hid Hu Hh Hst Hq Hr]. unfold render. repeat apply Forall_cons_2.
  - by apply safe_queue_line1.
  - by apply safe_site_line, free_at_site.
  - apply Forall_app. split; [by apply safe_state_lines|]. apply Forall_app. split.
    + destruct (snap_queue s) as [|q qs]; [constructor|]. apply Forall_cons_2.
      * change "Commands queued:" with (str (chars "Commands queued:")).
        eapply (safe_plain _ "C"%char _ (chars "Commands queued") ":"%char); try done; by_decide.
      * apply Forall_map. eapply Forall_impl; [exact Hq|]. apply safe_queue_line.
    + induction Hr as [|r rows Hr Hrs IH]; [constructor|]. cbn [map concat]. apply Forall_app. split; [by apply safe_row_lines|done].
Qed.

Lemma safe_not_failure l : safe_line l -> __is_wrong_type_failure_line l = false.
Proof.
  intros [_ _ (x & Hx & Hn & Hs) _ _ _]. destruct (__is_wrong_type_failure_line l) eqn:E; [|done].
  pose proof (not_failure x l Hx Hs ltac:(set_solver)) as H. by rewrite E in H.
Qed.


(** A mirror and a get waiting, a get and a mirror with two files running *)
Definition demo_snapshot : snapshot :=
  mkSnapshot "0" "someone:" "localhost" (Executing " [1] pget" [("2", " mirror")])
    [QueuedMirror "1" "/remote/a b" "/local/"; QueuedGet "2" GET "/remote/x -o y" "/local/"]
    [GetRow "1" PGET "/remote/c.txt" "/local/" "someone:@localhost/home" (Some ("1000", "2000", "50"));
     MirrorRow "2" "/remote/d" "/local/" (Some ("17", "26000000", "0")) [("e/f", ("10", "20", "50")); ("g", ("1", "3", "33"))]].

(** The conditions on fields, decided *)
Definition number_okb (s : string) : bool :=
  forallb is_digit (chars s) && negb (String.eqb s "") && (length (chars s) <=? Json.max_int_digits)%nat.
Definition path_okb (p : string) : bool :=
  startswith p "/" && forallb path_char (chars p) && negb (contains p "--exclude") && negb (contains p "jobs -v").
Definition name_okb (n : string) : bool :=
  forallb (fun c => negb (is_line_break c) && negb (Ascii.eqb c squote)) (chars n) && negb (contains n "jobs -v").
Definition free_textb (s : string) : bool :=
  forallb (fun c => negb (is_line_break c)) (chars s) && match rev (chars s) with [] => false | c :: _ => negb (is_space c) end &&
  negb (contains s "jobs -v").

Lemma forallb_Forall {A} (f : A -> bool) l : forallb f l = true -> Forall (fun x => f x = true) l.
Proof. intros H. apply Forall_forall. intros x Hx. rewrite forallb_forall in H. by apply H, list_elem_of_In. Qed.

Lemma number_okb_ok s : number_okb s = true -> number_ok s.
Proof.
  intros [[H1%forallb_Forall H2]%andb_prop H3%Nat.leb_le]%andb_prop. constructor; [done| |done].
  intros ->%chars_nil. done.
Qed.

Lemma path_okb_ok p : path_okb p = true -> path_ok p.
Proof.
  intros [[[H1 H2%forallb_Forall]%andb_prop H3%negb_true_iff]%andb_prop H4%negb_true_iff]%andb_prop. constructor; try done.
  apply startswith_spec in H1 as [t ->]. done.
Qed.

Lemma row_name_okb_ok n : name_okb n = true -> name_ok n.
Proof.
  intros [H1%forallb_Forall H2%negb_true_iff]%andb_prop. constructor; [| |done].
  - eapply Forall_impl; [exact H1|]. simpl. intros c [H _]%andb_prop. by apply negb_true_iff.
  - intros Hin. rewrite Forall_forall in H1. apply H1, andb_prop in Hin as [_ Hin]. done.
Qed.

Lemma free_textb_ok s : free_textb s = true -> free_text s.
Proof.
  intros [[H1%forallb_Forall H2]%andb_prop H3%negb_true_iff]%andb_prop. constructor; [| |done].
  - eapply Forall_impl; [exact H1|]. simpl. intros c. apply negb_true_iff.
  - destruct (rev (chars s)) as [|c l] eqn:E; [done|]. exists (rev l), c. split; [|by apply negb_true_iff].
    rewrite <- (rev_involutive (chars s)), E. done.
Qed.

Ltac field := first [apply number_okb_ok | apply path_okb_ok | apply row_name_okb_ok | apply free_textb_ok]; vm_compute; reflexivity.

Lemma demo_snapshot_ok : snapshot_ok demo_snapshot.
Proof.
  constructor; cbn [demo_snapshot snap_id snap_user snap_host snap_state snap_queue snap_rows]; [field|field|field|..].
  - split; [field|]. apply Forall_singleton. split; field.
  - apply Forall_cons_2; [split; [field|split; field]|]. apply Forall_singleton. repeat (split; [field || discriminate|]). field.
  - apply Forall_cons_2; [|apply Forall_singleton]; cbn [row_ok].
    + repeat (split; [field || discriminate|]). split; [split; [field|split; field]|field].
    + do 3 (split; [field|]). split; [vm_compute; reflexivity|]. split; [split; [field|split; field]|].
      apply Forall_cons_2; [|apply Forall_singleton]; (split; [field|split; [field|split; [field|split; field]]]).
Qed.

