(* ===== verification/LftpKnown.v ===== *)
(** * Headers of mirrors with exclusions

    A mirror that recovers single files is queued with one [--exclude] option
    per file to leave out.  Its header is read word by word; here that reading
    is shown to give back the number, the flags and the two paths, whatever
    the exclusion patterns are. *)

From S2P Require Import Prelude PyStr PyDict PyFloat JobStatus Regex LftpParser LftpParserFacts LftpRows LftpRoundTrip.

(** ** Words *)

(** a text that double quotes protect *)
Record quotable (s : string) : Prop := {
  quotable_quote : quote ∉ chars s;
  quotable_backslash : backslash ∉ chars s }.

Lemma words_quoted l : forall i start value rest, quote ∉ l -> backslash ∉ l ->
  words_from i (Some (start, value, Some quote)) (l ++ quote :: rest) =
  words_from (i + S (length l)) (Some (start, rev l ++ value, None)) rest.
Proof.
  induction l as [|c l IH]; intros i start value rest Hq Hb.
  - cbn [app words_from]. rewrite (bool_decide_false (Some _ = None)) by done. rewrite andb_false_r. cbn [from_option]. unfold Datatypes.id.
    rewrite (bool_decide_true (Some quote = Some quote)) by done. cbn [orb length rev]. by rewrite Nat.add_1_r.
  - assert (Hc : c <> quote) by (intros ->; apply Hq; constructor).
    assert (Hcb : Ascii.eqb c backslash = false) by (destruct (Ascii.eqb_spec c backslash) as [->|]; [destruct Hb; constructor|done]).
    cbn [app words_from]. rewrite (bool_decide_false (Some _ = None)) by done. rewrite andb_false_r. cbn [from_option]. unfold Datatypes.id.
    rewrite (bool_decide_false (Some quote = Some c)) by congruence. rewrite (bool_decide_false (Some quote = None)) by done.
    cbn [orb andb]. rewrite andb_false_r, Hcb. rewrite IH.
    + cbn [rev length]. rewrite <- app_assoc. f_equal. lia.
    + intros H. apply Hq. by constructor.
    + intros H. apply Hb. by constructor.
Qed.

(** a quoted word followed by a blank or the end *)
Lemma words_quoted_word s i rest : quotable s ->
  words_from i None (in_quotes s (" "%char :: rest)) =
  ws ← words_from (i + length (chars s) + 3) None rest; Ok ((s, i, (i + length (chars s) + 2)%nat) :: ws).
Proof.
  intros [Hq Hb]. unfold in_quotes. cbn [words_from]. change (is_space quote) with false. cbn [andb from_option]. unfold Datatypes.id.
  rewrite (bool_decide_false (None = Some quote)) by done. rewrite bool_decide_true by done. rewrite Nat.eqb_refl.
  change (one_of [squote; quote] quote) with true. cbn [andb orb]. rewrite words_quoted by done. rewrite app_nil_r.
  cbn [words_from]. rewrite (bool_decide_false (Some _ = None)) by done. rewrite andb_false_r. cbn [from_option]. unfold Datatypes.id.
  change (one_of [squote; quote] " ") with false. cbn [andb]. change (Ascii.eqb " " backslash) with false. cbn iota.
  rewrite bool_decide_true by done. change (is_space " ") with true. cbn [andb]. rewrite rev_involutive, str_chars.
  replace (S (S i + S (length (chars s)))) with (i + length (chars s) + 3)%nat by lia.
  by replace (S i + S (length (chars s)))%nat with (i + length (chars s) + 2)%nat by lia.
Qed.

Lemma words_quoted_last s i : quotable s ->
  words_from i None (in_quotes s []) = Ok [(s, i, (i + length (chars s) + 2)%nat)].
Proof.
  intros [Hq Hb]. unfold in_quotes. cbn [words_from]. change (is_space quote) with false. cbn [andb from_option]. unfold Datatypes.id.
  rewrite (bool_decide_false (None = Some quote)) by done. rewrite bool_decide_true by done. rewrite Nat.eqb_refl.
  change (one_of [squote; quote] quote) with true. cbn [andb orb]. rewrite words_quoted by done. rewrite app_nil_r.
  cbn [words_from]. rewrite rev_involutive, str_chars. by replace (S i + S (length (chars s)))%nat with (i + length (chars s) + 2)%nat by lia.
Qed.

(** an option, which needs no quotes *)
Lemma words_bare l : forall i start value rest, Forall (fun c => is_space c = false /\ c ∉ [squote; quote; backslash]) l ->
  (start < i)%nat ->
  words_from i (Some (start, value, None)) (l ++ " "%char :: rest) =
  ws ← words_from (S (i + length l)) None rest; Ok ((str (rev value ++ l), start, (i + length l)%nat) :: ws).
Proof.
  induction l as [|c l IH]; intros i start value rest Hl Hi.
  - cbn [app words_from]. rewrite (bool_decide_false (Some _ = None)) by done. rewrite andb_false_r. cbn [from_option]. unfold Datatypes.id.
    change (one_of [squote; quote] " ") with false. cbn [andb]. change (Ascii.eqb " " backslash) with false. cbn iota.
    rewrite bool_decide_true by done. change (is_space " ") with true. cbn [andb length]. by rewrite app_nil_r, Nat.add_0_r.
  - apply Forall_cons in Hl as [[Hs Hc] Hl]. cbn [app words_from]. rewrite Hs. cbn [andb from_option]. unfold Datatypes.id.
    assert (Ho : one_of [squote; quote] c = false) by (unfold one_of; apply bool_decide_false; set_solver).
    assert (Hb : Ascii.eqb c backslash = false) by (apply Ascii.eqb_neq; set_solver).
    rewrite Ho, Hb, andb_false_r. cbn [andb]. rewrite IH by (done || lia). cbn [rev length]. rewrite <- app_assoc. cbn [app].
    by replace (S i + length l)%nat with (i + S (length l))%nat by lia.
Qed.

Lemma words_option w i rest : Forall (fun c => is_space c = false /\ c ∉ [squote; quote; backslash]) (chars w) -> w <> "" ->
  words_from i None (chars w ++ " "%char :: rest) =
  ws ← words_from (S (i + length (chars w))) None rest; Ok ((w, i, (i + length (chars w))%nat) :: ws).
Proof.
  intros Hw Hne. rewrite <- chars_nil in Hne. pose proof (str_chars w) as Ew. destruct (chars w) as [|c l]; [done|]. rewrite <- Ew. clear Ew.
  apply Forall_cons in Hw as [[Hs Hc] Hl]. cbn [app words_from]. rewrite Hs. cbn [andb from_option]. unfold Datatypes.id.
  assert (Ho : one_of [squote; quote] c = false) by (unfold one_of; apply bool_decide_false; set_solver).
  assert (Hb : Ascii.eqb c backslash = false) by (apply Ascii.eqb_neq; set_solver).
  rewrite Ho, Hb, andb_false_r. cbn [andb]. rewrite words_bare by (done || lia). cbn [rev length app].
  by replace (S i + length l)%nat with (i + S (length l))%nat by lia.
Qed.

(** ** The header *)

Definition exclusion (e : string) (rest : text) : text := chars "--exclude" ++ " "%char :: in_quotes e (" "%char :: rest).

(** [-c --exclude "e1" ... "remote" "local"] *)
Definition excluding_args (es : list string) (remote local : string) : text :=
  chars "-c" ++ " "%char :: fold_right exclusion (in_quotes remote (" "%char :: in_quotes local [])) es.

Definition excluding_flags (es : list string) : text := chars "-c" ++ concat (map (fun e => chars " --exclude " ++ in_quotes e []) es).

Definition excluding_line (id : string) (es : list string) (remote local : string) : string :=
  str (bracket id (chars "mirror" ++ " "%char :: excluding_args es remote local)).

Lemma in_quotes_length s rest : length (in_quotes s rest) = (length (chars s) + 2 + length rest)%nat.
Proof. unfold in_quotes. cbn [length]. rewrite length_app. cbn [length]. lia. Qed.

Section excluding.
Context (remote local : string) (Hr : quotable remote) (Hl : quotable local) (Hrs : startswith remote "/" = true) (Hls : startswith local "/" = true).

Definition excluded_length (es : list string) : nat := foldr (fun e n => 10 + (length (chars e) + 3) + n)%nat O es.

Lemma path_option p : startswith p "/" = true -> String.eqb p "-c" = false /\ is_known_option p = false /\ String.eqb p "--" = false /\ startswith p "-" = false.
Proof. intros [t ->]%startswith_spec. done. Qed.

Lemma exclude_words es : Forall quotable es -> forall i, exists ws e1 s2 e2,
  words_from i None (fold_right exclusion (in_quotes remote (" "%char :: in_quotes local [])) es) = Ok ws /\
  positional_words [] ws = Ok ([(remote, (i + excluded_length es)%nat, e1); (local, s2, e2)], None) /\
  (es <> [] -> existsb (fun w => is_known_option (word_text w)) ws = true).
Proof.
  induction 1 as [|e es He _ IH]; intros i; cbn [fold_right].
  - rewrite words_quoted_word, words_quoted_last by done. cbn [mbind result_bind]. do 4 eexists. split; [reflexivity|]. split; [|done].
    destruct (path_option _ Hrs) as (R1 & R2 & _ & R4), (path_option _ Hls) as (L1 & L2 & L3 & _).
    cbn [positional_words word_text fst]. rewrite R1, R2, R4, L1, L2, L3. cbn [orb andb rev app excluded_length foldr]. by rewrite Nat.add_0_r.
  - unfold exclusion at 1. rewrite words_option; [|by_decide|done]. rewrite words_quoted_word by done.
    destruct (IH (S (i + length (chars "--exclude")) + length (chars e) + 3)%nat) as (ws & e1 & s2 & e2 & E & Ep & _).
    rewrite E. cbn [mbind result_bind]. do 4 eexists. split; [reflexivity|]. split; [|done].
    cbn [positional_words word_text fst]. change (is_known_option "--exclude") with true. change (String.eqb "--exclude" "-c") with false. cbn iota.
    assert (Ha : ambiguous_argument (e, S (i + length (chars "--exclude")), (S (i + length (chars "--exclude")) + length (chars e) + 2)%nat) ws = false).
    { unfold ambiguous_argument, contains. cbn [word_text fst]. rewrite (infix_of_none _ backslash); [done|done|apply He]. }
    rewrite Ha, Ep. do 4 f_equal. f_equal. cbn [excluded_length foldr]. change (length (chars "--exclude")) with 9%nat. unfold excluded_length. lia.
Qed.

Lemma excluding_text es t : fold_right exclusion t es =
  match es with [] => t | _ => tail (concat (map (fun e => chars " --exclude " ++ in_quotes e []) es) ++ " "%char :: t) end.
Proof.
  induction es as [|e es IH]; [done|]. cbn [fold_right map concat]. rewrite IH. unfold exclusion, in_quotes.
  destruct es as [|e' es]; repeat (rewrite <- ?app_assoc; cbn [app tail map concat chars String.list_ascii_of_string]); done.
Qed.

Lemma excluding_split es : excluding_args es remote local =
  (excluding_flags es ++ [" "%char]) ++ in_quotes remote (" "%char :: in_quotes local []).
Proof.
  unfold excluding_args, excluding_flags. rewrite excluding_text. destruct es as [|e es]; [done|].
  cbn [map concat]. repeat (rewrite <- ?app_assoc; cbn [app tail chars String.list_ascii_of_string]). done.
Qed.

Lemma excluding_length es : (3 + excluded_length es)%nat = length (excluding_flags es ++ [" "%char]).
Proof.
  unfold excluding_flags. rewrite !length_app. change (length (chars "-c")) with 2%nat. change (length [" "%char]) with 1%nat.
  assert (H : excluded_length es = length (concat (map (fun e => chars " --exclude " ++ in_quotes e []) es))).
  { unfold excluded_length. induction es as [|e es IH]; [done|]. cbn [foldr map concat]. rewrite !length_app, <- IH, in_quotes_length.
    change (length (chars " --exclude ")) with 11%nat. cbn [length]. lia. }
  lia.
Qed.

Lemma excluding_flags_trimmed es : trimmed (excluding_flags es).
Proof.
  split; [done|]. unfold excluding_flags. induction es as [|e es IH] using rev_ind; [done|].
  rewrite map_app, concat_app. cbn [map concat]. rewrite app_nil_r. unfold in_quotes. rewrite !rev_app_distr. cbn [rev].
  rewrite rev_app_distr. done.
Qed.
End excluding.

Lemma exclude_found es remote local : es <> [] -> infix_of (chars "--exclude") (excluding_args es remote local) = true.
Proof. destruct es as [|e es]; [done|]. intros _. unfold excluding_args. cbn [fold_right]. unfold exclusion at 1. done. Qed.

(** C12: The header of a running mirror with exclusions is read exactly: for
    any non-empty list of exclusion patterns, also ones that look like options
    or paths, and any two absolute paths, none with double quotes or
    backslashes, the reading gives the job's number, the flags as printed and
    the two paths. *)
Theorem excluded_mirror_header id es remote local :
  number_ok id -> es <> [] -> Forall quotable es -> quotable remote -> quotable local ->
  startswith remote "/" = true -> startswith local "/" = true ->
  __parse_known_options_mirror_header (excluding_line id es remote local) __MIRROR_HEADER_PREFIX_REGEX =
  Ok (Some (digits_value (chars id), str (excluding_flags es), remote, local, None)).
Proof.
  intros Hid Hne Hes Hr Hl Hrs Hls. unfold __parse_known_options_mirror_header, re_match, match_at, excluding_line. rewrite chars_str.
  unfold __MIRROR_HEADER_PREFIX_REGEX, bracket, cat. cbn [fold_right run]. row_step. row_step. row_step. row_step. row_step.
  erewrite run_sps_pos; [|done|reflexivity]. cbn [m_rest]. rewrite exclude_found by done. cbn [negb].
  destruct (exclude_words remote local Hr Hl Hrs Hls es Hes 3) as (ws & e1 & s2 & e2 & Ew & Ep & Hk).
  assert (Ew' : words_from 0 None (excluding_args es remote local) = Ok (("-c", 0%nat, 2%nat) :: ws)).
  { unfold excluding_args. rewrite words_option; [|by_decide|done]. change (S (0 + length (chars "-c"))) with 3%nat. by rewrite Ew. }
  rewrite Ew'. cbn [mbind result_bind existsb]. rewrite (Hk Hne), orb_true_r. cbn [negb].
  assert (Ep' : positional_words [] (("-c", 0%nat, 2%nat) :: ws) = positional_words [] ws) by done.
  rewrite Ep', Ep. cbn [mbind result_bind]. unfold two_paths. cbn [length Nat.leb mbind result_bind word_start word_text fst snd].
  change (group_ _ "id") with (str (chars id)). rewrite str_chars, int_number by done. cbn [mbind result_bind].
  rewrite excluding_length, excluding_split, take_app_length, str_app. change (str [" "%char]) with (str [chr 32]).
  by rewrite strip_snoc_space, strip_trimmed by (done || apply excluding_flags_trimmed).
Qed.

Lemma excluded_mirror_header_witness :
  __parse_known_options_mirror_header (excluding_line "7" ["--exclude"; "/a b"] "/remote/d" "/local") __MIRROR_HEADER_PREFIX_REGEX =
  Ok (Some (7, str (excluding_flags ["--exclude"; "/a b"]), "/remote/d", "/local", None)).
Proof.
  apply (excluded_mirror_header "7"); [|done|apply Forall_cons_2; [|apply Forall_singleton]| | |done|done]; constructor;
    first [by_decide|done|apply Nat.leb_le; vm_compute; reflexivity].
Defined.
