(* ===== verification/ModelPages.v ===== *)
(** * Pages of the model ([controller/controller.py], the part web clients read)

    A scope is a path pair, or the files outside every pair under a reserved
    name.  The roots of a scope, and the children of one file, are served as
    pages in the order of their identities; a page names the identity the next
    one continues after.  A client that is told which identities changed asks
    for the roots they belong to.  All of this reads the [model] under its
    lock; traces and timings are not modelled.  The text of
    [datetime.timestamp()] depends on the time zone of the host and is the
    class [Timestamps]. *)

From S2P Require Import Prelude PyDict PyStr Json ModelFile ModelState Model.

Definition MODEL_LEGACY_SCOPE_ID : string := "__legacy__".

Definition _model_scope_id (path_pair_id : option string) : string := default MODEL_LEGACY_SCOPE_ID path_pair_id.

Definition expected_path_pair_id (scope_id : string) : option string :=
  if String.eqb scope_id MODEL_LEGACY_SCOPE_ID then None else Some scope_id.

(** ** Records *)

(** [str(t.timestamp())] *)
Class Timestamps := { timestamp_text : Z -> string }.

Definition _model_state_name (f : ModelFile) : string :=
  match state f with
  | DEFAULT => "default" | DOWNLOADING => "downloading" | QUEUED => "queued" | DOWNLOADED => "downloaded"
  | DELETED => "deleted" | EXTRACTING => "extracting" | EXTRACTED => "extracted" | VALIDATING => "validating"
  | VALIDATED => "validated" | CORRUPT => "corrupt" | MOVE_FAILED => "move_failed"
  end.

Section pages.
Context `{Timestamps}.

(** a timestamp slot holds a datetime or None *)
Definition timestamp_field (v : pyval) : pyval :=
  match v with PyDatetime t => PyStr (timestamp_text t) | _ => PyNone end.

Definition page_record : Type := dict string pyval.

Definition _model_file_page_record (r : fileref) : page_record :=
  let f := ref_file r in
  [("name", PyStr (name f)); ("is_dir", PyBool (is_dir f)); ("state", PyStr (_model_state_name f));
   ("remote_size", py_opt_int (remote_size f)); ("local_size", py_opt_int (local_size f));
   ("remote_present", PyBool (remote_present f)); ("local_present", PyBool (local_present f));
   ("remote_has_transferable_content", PyBool (remote_has_transferable_content f));
   ("transferred_size", transferred_size f); ("display_size_total", display_size_total f);
   ("display_transferred_size", display_transferred_size f); ("download_progress", download_progress f);
   ("downloading_speed", downloading_speed f); ("eta", eta f);
   ("is_extractable", is_extractable f); ("is_stoppable", is_stoppable f);
   ("explicitly_stopped", explicitly_stopped f); ("complete_local_coverage", complete_local_coverage f);
   ("local_created_timestamp", timestamp_field (py_opt_datetime (local_created_timestamp f)));
   ("local_modified_timestamp", timestamp_field (py_opt_datetime (local_modified_timestamp f)));
   ("remote_created_timestamp", timestamp_field (py_opt_datetime (remote_created_timestamp f)));
   ("remote_modified_timestamp", timestamp_field (py_opt_datetime (remote_modified_timestamp f)));
   ("downloaded_timestamp", timestamp_field (downloaded_timestamp f));
   ("full_path", PyStr (full_path (ref_parents r) f)); ("file_id", PyStr (file_id r));
   ("path_pair_id", py_opt_str (path_pair_id f)); ("path_pair_name", py_opt_str (path_pair_name f));
   ("validation_progress", validation_progress f); ("validation_error", validation_error f);
   ("corrupt_chunks", corrupt_chunks f);
   ("final_move_succeeded", PyBool (final_move_succeeded f)); ("final_move_pending", PyBool (final_move_pending f));
   ("children", PyList []); ("child_count", PyInt (Z.of_nat (child_count f)));
   ("has_children", PyBool (0 <? Z.of_nat (child_count f)))].

Definition progress_fields (f : ModelFile) : page_record :=
  [("download_progress", download_progress f); ("transferred_size", transferred_size f);
   ("downloading_speed", downloading_speed f); ("eta", eta f)].

Definition _model_file_progress_presentation (s : model) (r : fileref) : page_record :=
  match dget (published_files s) (file_id r) with
  | None => progress_fields (ref_file r)
  | Some published => progress_fields published
  end.

Definition _model_file_page_record_with_overlay (s : model) (r : fileref) : page_record :=
  dupdate (_model_file_page_record r) (_model_file_progress_presentation s r).

(** ** Identities *)

Definition malformed {A} : result A := Raise (ModelPageCursorError "File identity is malformed").

(** the path inside the identity, before it is checked *)
Definition identity_path (scope_id file_id : string) : result string :=
  if String.eqb scope_id MODEL_LEGACY_SCOPE_ID then Ok file_id
  else match loads file_id with
       | None => malformed
       | Some (JArr [JStr p; JStr path]) =>
           if String.eqb p scope_id then Ok path
           else Raise (ModelPageCursorError "File identity is outside this path-pair scope")
       | Some _ => Raise (ModelPageCursorError "File identity is outside this path-pair scope")
       end.

Definition __scoped_file_path (scope_id file_id : string) : result string :=
  path ← identity_path scope_id file_id;
  if String.eqb path "" || startswith path "/" then malformed else
  let normalized := normpath path in
  if String.eqb normalized "." || String.eqb normalized ".." || startswith normalized "../" then malformed else
  if negb (String.eqb (build_file_id normalized (expected_path_pair_id scope_id)) file_id)
  then Raise (ModelPageCursorError "File identity is not canonical")
  else Ok normalized.

Definition no_such_file {A} : result A := Raise (ModelPageCursorError "File does not exist in this path-pair scope").

(** the walk down the tree *)
Fixpoint descend (components : list string) (current : fileref) : result fileref :=
  match components with
  | [] => Ok current
  | component :: rest =>
      match List.find (fun c => String.eqb (name (ref_file c)) component) (child_refs current) with
      | None => no_such_file
      | Some c => descend rest c
      end
  end.

Definition __resolve_scoped_model_file (s : model) (scope_id id : string) : result fileref :=
  path ← __scoped_file_path scope_id id;
  match split slash path with
  | [] => malformed
  | (root :: rest) as components =>
      if existsb (fun c => String.eqb c "") components then malformed else
      match (get_file (build_file_id root (expected_path_pair_id scope_id)) s).1 with
      | Raise (ModelError _) => no_such_file
      | Raise e => Raise e
      | Ok current =>
          if negb (bool_decide (path_pair_id (ref_file current) = expected_path_pair_id scope_id))
          then Raise (ModelPageCursorError "File is outside this path-pair scope")
          else
            current ← descend rest current;
            if negb (String.eqb (file_id current) id)
            then Raise (ModelPageCursorError "File identity is not canonical") else Ok current
      end
  end.

Definition in_scope (scope_id : string) (r : fileref) : bool :=
  bool_decide (path_pair_id (ref_file r) = expected_path_pair_id scope_id).

Definition __scoped_model_file_candidates (s : model) (scope_id : string) (parent_file_id : option string)
    : result (list fileref) :=
  match parent_file_id with
  | Some parent => r ← __resolve_scoped_model_file s scope_id parent; Ok (child_refs r)
  | None => l ← iter_files_by_id s; Ok (List.filter (in_scope scope_id) l)
  end.

(** ** A page of candidates *)

Definition sort_key : Type := list json.

Definition after_identity (cursor_file_id : option string) (cursor_sort_key : option sort_key) : option string :=
  match cursor_sort_key with Some [JStr id] => Some id | _ => cursor_file_id end.

(** [after_id is not None and candidate.file_id <= after_id] *)
Definition already_seen (after_id : option string) (r : fileref) : bool :=
  match after_id with Some a => bool_decide (String.le (file_id r) a) | None => false end.

Fixpoint root_page (limit : Z) (after_id : option string) (candidates : list fileref)
    (total : Z) (selected : list fileref) (has_successor : bool) : Z * list fileref * bool :=
  match candidates with
  | [] => (total, selected, has_successor)
  | c :: candidates' =>
      if already_seen after_id c then root_page limit after_id candidates' (total + 1) selected has_successor
      else if Z.of_nat (length selected) <? limit
      then root_page limit after_id candidates' (total + 1) (selected ++ [c]) has_successor
      else root_page limit after_id candidates' (total + 1) selected true
  end.

(** [heapq] under [_ReverseModelSortKey]: the greatest identity is at index 0.
    The heap is the list of its entries in that order. *)
Fixpoint heappush (r : fileref) (heap : list fileref) : list fileref :=
  match heap with
  | [] => [r]
  | top :: heap' => if bool_decide (String.le (file_id top) (file_id r)) then r :: heap else top :: heappush r heap'
  end.
Definition heapreplace (r : fileref) (heap : list fileref) : list fileref := heappush r (tail heap).

Fixpoint child_page (limit : Z) (after_id : option string) (candidates : list fileref)
    (total : Z) (selected_heap : list fileref) (has_successor : bool) : result (Z * list fileref * bool) :=
  match candidates with
  | [] => Ok (total, selected_heap, has_successor)
  | c :: candidates' =>
      if already_seen after_id c then child_page limit after_id candidates' (total + 1) selected_heap has_successor
      else if Z.of_nat (length selected_heap) <? limit
      then child_page limit after_id candidates' (total + 1) (heappush c selected_heap) has_successor
      else
        match selected_heap with
        | [] => Raise IndexError
        | top :: _ =>
            child_page limit after_id candidates' (total + 1)
              (if negb (bool_decide (String.le (file_id top) (file_id c))) then heapreplace c selected_heap else selected_heap) true
        end
  end.

Definition id_le (a b : fileref) : Prop := String.le (file_id a) (file_id b).
#[export] Instance id_le_dec a b : Decision (id_le a b) := String.le_dec _ _.

Definition __bounded_model_page_files (candidates : list fileref) (limit : Z) (cursor_file_id : option string)
    (cursor_sort_key : option sort_key) (parent_file_id : option string) : result (Z * list fileref * bool) :=
  let after_id := after_identity cursor_file_id cursor_sort_key in
  match parent_file_id with
  | None => Ok (root_page limit after_id candidates 0 [] false)
  | Some _ =>
      '(total, selected_heap, has_successor) ← child_page limit after_id candidates 0 [] false;
      Ok (total, merge_sort id_le selected_heap, has_successor)
  end.

(** ** Pages *)

Record model_page := mkPage {
  pg_model_version : Z; pg_global_model_version : Z; pg_path_pair_id : string; pg_parent_file_id : option string;
  pg_limit : Z; pg_total : Z; pg_records : list page_record;
  pg_next_cursor_file_id : option string; pg_next_cursor_sort_key : option sort_key }.

(** [(file_id,) if next_cursor_file_id else None] *)
Definition next_sort_key (id : string) : option sort_key := if String.eqb id "" then None else Some [JStr id].

Definition __get_model_page_locked (s : model) (scope_id : string) (limit : Z) (cursor_file_id : option string)
    (cursor_sort_key : option sort_key) (parent_file_id : option string) : result model_page :=
  candidates ← __scoped_model_file_candidates s scope_id parent_file_id;
  '(total, page_files, has_successor) ←
    __bounded_model_page_files candidates limit cursor_file_id cursor_sort_key parent_file_id;
  let next_cursor_file_id := if has_successor : bool then file_id <$> last page_files else None in
  Ok (mkPage (scope_version_of s (expected_path_pair_id scope_id)) (version s) scope_id parent_file_id limit total
        (map (_model_file_page_record_with_overlay s) page_files) next_cursor_file_id
        (next_cursor_file_id ≫= next_sort_key)).

(** the version of the cursor, the sort mode and the filters are accepted and not used *)
Definition get_model_page (s : model) (scope_id : string) (limit : Z) (cursor_file_id : option string)
    (cursor_version : option Z) (cursor_sort_key : option sort_key) (parent_file_id : option string) : result model_page :=
  __get_model_page_locked s scope_id limit cursor_file_id cursor_sort_key parent_file_id.

Definition get_model_page_and_add_listener (l : listener) (scope_id : string) (limit : Z)
    (cursor_file_id : option string) (cursor_version : option Z) (cursor_sort_key : option sort_key)
    (parent_file_id : option string) : st model model_page :=
  page ← gets (fun s => __get_model_page_locked s scope_id limit cursor_file_id cursor_sort_key parent_file_id);
  page ← lift page;
  add_listener l;;
  mret page.

(** ** Changed roots *)

Record root_updates := mkUpdates {
  up_model_version : Z; up_global_model_version : Z; up_records : list page_record; up_removed_file_ids : list string }.

(** the identity of the root a file belongs to *)
Definition root_id_of (scope_id file_id : string) : option string :=
  match __scoped_file_path scope_id file_id with
  | Ok path => Some (build_file_id (default "" (head (split slash path))) (expected_path_pair_id scope_id))
  | Raise _ => None
  end.

Fixpoint collect_updates (s : model) (scope_id : string) (root_ids : list string)
    : result (list page_record * list string) :=
  match root_ids with
  | [] => Ok ([], [])
  | root_id :: rest =>
      match (get_file root_id s).1 with
      | Raise (ModelError _) => '(records, removed) ← collect_updates s scope_id rest; Ok (records, root_id :: removed)
      | Raise e => Raise e
      | Ok root =>
          '(records, removed) ← collect_updates s scope_id rest;
          Ok (if in_scope scope_id root then (_model_file_page_record_with_overlay s root :: records, removed)
              else (records, root_id :: removed))
      end
  end.

Definition get_model_root_updates (s : model) (scope_id : string) (file_ids : list string) : result root_updates :=
  let root_ids : gset string := list_to_set (omap (root_id_of scope_id) file_ids) in
  '(records, removed) ← collect_updates s scope_id (sorted_ids root_ids);
  Ok (mkUpdates (scope_version_of s (expected_path_pair_id scope_id)) (version s) records removed).

Definition get_model_scope_version_snapshot (s : model) (scope_id : string) : Z * Z :=
  (scope_version_of s (expected_path_pair_id scope_id), version s).
End pages.
