(* ===== verification/ModelApi.v ===== *)
(** * Delivery of the model to web clients ([web/handler/model_api.py])

    The handler serves pages of one scope with an opaque cursor, and streams
    the changes of a scope.  A stream starts with a page, taken while its
    listener is registered; the listener then collects the identities of
    changed files, coalesced and bounded, and each round of the stream turns
    what was collected into one event.  Locks are not modelled: each method of
    a listener is one step.  [Event] is the flag [available].  Traces, timings
    and the acknowledgement of a completion are not modelled. *)

From S2P Require Import Prelude PyDict PyStr Json Base64 ModelFile ModelState Model LftpStatus ModelPages.

(** ** The listener of one scope *)

Definition _MAX_IDENTITIES : Z := 200.
Definition _MAX_IDENTITY_BYTES : Z := 32 * 1024.

Record ScopedModelListener := mkScoped {
  sl_scope_id : string; sl_changes : dict string Z; sl_global_versions : dict string Z;
  sl_reset_version : option Z; sl_reset_origin_global_version : option Z;
  sl_identity_bytes : Z; sl_closed : bool; sl_available : bool }.

Definition new_scoped_listener (scope_id : string) : ScopedModelListener :=
  mkScoped scope_id [] [] None None 0 false false.

(** [len(file_id.encode("utf-8"))] *)
Definition encoded_length (file_id : string) : Z := Z.of_nat (utf8_length (chars file_id)).

(** the queue once the identity has been entered *)
Definition queue_identity (version global_version : Z) (file_id : string) (l : ScopedModelListener) : ScopedModelListener :=
  let present := dhas (sl_changes l) file_id in
  let globals := if present then dpop (sl_global_versions l) file_id else sl_global_versions l in
  let bytes := if present then sl_identity_bytes l - encoded_length file_id else sl_identity_bytes l in
  mkScoped (sl_scope_id l) (dset (dpop (sl_changes l) file_id) file_id version) (dset globals file_id global_version)
    (sl_reset_version l) (sl_reset_origin_global_version l) (bytes + encoded_length file_id) (sl_closed l) (sl_available l).

(** what no longer fits is replaced by a reset *)
Definition bound_queue (version global_version : Z) (l : ScopedModelListener) : ScopedModelListener :=
  if (_MAX_IDENTITIES <? Z.of_nat (length (sl_changes l))) || (_MAX_IDENTITY_BYTES <? sl_identity_bytes l)
  then mkScoped (sl_scope_id l) [] [] (Some version) (Some global_version) 0 (sl_closed l) true
  else mkScoped (sl_scope_id l) (sl_changes l) (sl_global_versions l) (sl_reset_version l)
         (sl_reset_origin_global_version l) (sl_identity_bytes l) (sl_closed l) true.

Definition model_version_published (version global_version : Z) (path_pair_id : option string) (file_id : string)
    (l : ScopedModelListener) : ScopedModelListener :=
  if negb (String.eqb (_model_scope_id path_pair_id) (sl_scope_id l)) then l
  else if sl_closed l then l
  else match sl_reset_version l with
       | Some v => mkScoped (sl_scope_id l) (sl_changes l) (sl_global_versions l) (Some (Z.max v version))
                     (Some global_version) (sl_identity_bytes l) (sl_closed l) (sl_available l)
       | None => bound_queue version global_version (queue_identity version global_version file_id l)
       end.

Inductive scoped_event :=
  | ModelReset (model_version : Z) (origin_global_version : option Z)
  | ModelInvalidate (model_version : Z) (file_ids : list string) (origin_global_version : option Z).

(** [max(l)] of the versions collected *)
Definition max_of (l : list Z) : Z := match l with [] => 0 | x :: l' => fold_left Z.max l' x end.

Definition take_next_event (l : ScopedModelListener) : option scoped_event * ScopedModelListener :=
  if sl_closed l then (None, l)
  else match sl_reset_version l with
       | Some v =>
           (Some (ModelReset v (sl_reset_origin_global_version l)),
            mkScoped (sl_scope_id l) (sl_changes l) [] None None (sl_identity_bytes l) false false)
       | None =>
           match sl_changes l with
           | [] => (None, l)
           | changes =>
               let origin := max_of (map (fun c => default (-1) (dget (sl_global_versions l) c.1)) changes) in
               (Some (ModelInvalidate (max_of (dvals changes)) (dkeys changes) (if 0 <=? origin then Some origin else None)),
                mkScoped (sl_scope_id l) [] [] None (sl_reset_origin_global_version l) 0 false false)
           end
       end.

Definition close (l : ScopedModelListener) : ScopedModelListener :=
  mkScoped (sl_scope_id l) [] [] None None 0 true true.

(** ** The listener of the summary *)

Definition _MAX_SCOPES : Z := 128.

Record SummaryModelListener := mkSummary {
  su_scopes : dict string Z; su_reset : bool; su_closed : bool; su_available : bool }.

Definition new_summary_listener : SummaryModelListener := mkSummary [] false false false.

Definition summary_version_changed (version : Z) (path_pair_id : option string) (l : SummaryModelListener) : SummaryModelListener :=
  let scope := _model_scope_id path_pair_id in
  if su_closed l then l else if su_reset l then l
  else
    let scopes := dset (dpop (su_scopes l) scope) scope version in
    if _MAX_SCOPES <? Z.of_nat (length scopes) then mkSummary [] true false true else mkSummary scopes false false true.

Definition model_summary_changed (l : SummaryModelListener) : SummaryModelListener :=
  if su_closed l then l else mkSummary (su_scopes l) true false true.

Inductive summary_event :=
  | SummaryReset
  | SummaryUpdate (path_pair_ids : list string).

Definition summary_take_next_event (l : SummaryModelListener) : option summary_event * SummaryModelListener :=
  if su_closed l then (None, l)
  else if su_reset l then (Some SummaryReset, mkSummary (su_scopes l) false false false)
  else match su_scopes l with
       | [] => (None, l)
       | scopes => (Some (SummaryUpdate (dkeys scopes)), mkSummary [] false false false)
       end.

Definition summary_close (l : SummaryModelListener) : SummaryModelListener := mkSummary [] (su_reset l) true true.

(** ** Requests *)

(** The query parameters of a page request *)
Record page_request := mkPageRequest {
  rq_limit : option string; rq_cursor : option string; rq_sort : option string;
  rq_status : option string; rq_name : option string; rq_parent_file_id : option string }.

Definition bad_request {A} : result A := Raise (HttpAbort 400).

Definition has_control (s : string) : bool := existsb (fun c => ord c <? 32) (chars s).
Definition str_len (s : string) : Z := Z.of_nat (length (chars s)).

Definition __validate_scope_id (path_pair_id : string) : result string :=
  if String.eqb path_pair_id "" || (128 <? str_len path_pair_id) then bad_request
  else if has_control path_pair_id then bad_request else Ok path_pair_id.

Definition _DEFAULT_LIMIT : Z := 100.
Definition _MAX_LIMIT : Z := 200.

Definition __read_limit (rq : page_request) : result Z :=
  match rq_limit rq with
  | None | Some "" => Ok _DEFAULT_LIMIT
  | Some raw =>
      match py_int raw with
      | None => bad_request
      | Some limit => if (limit <? 1) || (_MAX_LIMIT <? limit) then bad_request else Ok limit
      end
  end.

Definition __read_parent_file_id (rq : page_request) : result string :=
  match rq_parent_file_id rq with
  | Some p => if String.eqb p "" || (4096 <? str_len p) then bad_request else Ok p
  | None => bad_request
  end.

Definition allowed_statuses : list string :=
  ["default"; "queued"; "downloading"; "downloaded"; "stopped"; "deleted"; "extracting"; "extracted"; "validating";
   "validated"; "corrupt"; "move_failed"; "move_succeeded"; "local_only"].

(** [value or None] *)
Definition nonempty (v : option string) : option string :=
  match v with Some s => if String.eqb s "" then None else Some s | None => None end.

Definition __read_query (rq : page_request) : result (Z * option string * option string * string) :=
  match py_int (default "1" (rq_sort rq)) with
  | None => bad_request
  | Some sort_mode =>
      if negb ((0 <=? sort_mode) && (sort_mode <? 13)) then bad_request else
      let status := nonempty (rq_status rq) in
      if match status with Some s => negb (bool_decide (s ∈ allowed_statuses)) | None => false end then bad_request else
      let name := nonempty (rq_name rq) in
      if match name with Some n => (256 <? str_len n) || has_control n | None => false end then bad_request else
      Ok (sort_mode, status, name, "identity-v1")
  end.

(** ** Cursors *)

Definition _MAX_CURSOR_LENGTH : Z := 4096.

(** [base64.urlsafe_b64encode] and its inverse: two characters of the alphabet are replaced *)
Definition to_urlsafe (c : ascii) : ascii := if ord c =? 43 then "-"%char else if ord c =? 47 then "_"%char else c.
Definition from_urlsafe (c : ascii) : ascii := if ord c =? 45 then "+"%char else if ord c =? 95 then "/"%char else c.
Definition urlsafe_b64encode (s : string) : string := str (map to_urlsafe (chars (b64encode s))).
Definition urlsafe_b64decode (s : string) : option string := b64decode (str (map from_urlsafe (chars s))).

(** [bytes.decode("utf-8")] within the alphabet: one byte below 128, or two
    bytes for the code points from 128 to 255.  Longer sequences stand for
    characters outside the alphabet. *)
Fixpoint utf8_decode (l : list ascii) : option (list ascii) :=
  match l with
  | [] => Some []
  | a :: r =>
      if ord a <? 128 then cons a <$> utf8_decode r
      else match r with
           | b :: r' =>
               if ((ord a =? 194) || (ord a =? 195)) && (128 <=? ord b) && (ord b <? 192)
               then cons (chr ((ord a - 192) * 64 + (ord b - 128))) <$> utf8_decode r' else None
           | [] => None
           end
  end.

Definition decode_payload (raw_cursor : string) : option json :=
  let padded := raw_cursor +:+ str (repeat "="%char (Z.to_nat ((- str_len raw_cursor) mod 4))) in
  if existsb (fun c => 128 <=? ord c) (chars padded) then None else
  bytes ← urlsafe_b64decode padded; text ← utf8_decode (chars bytes); loads (str text).

Definition key_value (v : json) : bool := match v with JStr _ | JInt _ | JFloat _ => true | _ => false end.

(** [payload.get(key) == value], an absent key being None *)
Definition field_is (payload : dict string json) (key : string) (value : option string) : bool :=
  match dget payload key, value with
  | Some (JStr s), Some v => String.eqb s v
  | (None | Some JNull), None => true
  | _, _ => false
  end.

Definition cursor : Type := option string * option Z * option sort_key.

Definition __decode_cursor (raw_cursor : option string) (scope_id : string) (parent_file_id : option string)
    (query_signature : string) : result cursor :=
  match raw_cursor with
  | None | Some "" => Ok (None, None, None)
  | Some raw =>
      if _MAX_CURSOR_LENGTH <? str_len raw then bad_request else
      match decode_payload raw with
      | Some (JObj payload) =>
          match dget payload "after", dget payload "version", dget payload "after_key" with
          | Some (JStr after), Some (JInt version), Some (JArr key) =>
              if negb (forallb key_value key) then bad_request
              else if negb (field_is payload "scope" (Some scope_id)) || negb (field_is payload "parent" parent_file_id) ||
                      negb (field_is payload "query" (Some query_signature))
              then Raise CursorContractError
              else Ok (Some after, Some version, Some key)
          | _, _, _ => bad_request
          end
      | _ => bad_request
      end
  end.

Definition cursor_payload (version : Z) (scope_id : string) (parent_file_id : option string) (after : string)
    (after_sort_key : option sort_key) (query_signature : string) : json :=
  JObj [("version", JInt version); ("scope", JStr scope_id);
        ("parent", match parent_file_id with Some p => JStr p | None => JNull end); ("after", JStr after);
        ("after_key", JArr (default [] after_sort_key)); ("query", JStr query_signature)].

Definition __encode_cursor (version : Z) (scope_id : string) (parent_file_id after_file_id : option string)
    (after_sort_key : option sort_key) (query_signature : string) : option string :=
  match after_file_id with
  | None => None
  | Some after =>
      let payload := dumps Compact (cursor_payload version scope_id parent_file_id after after_sort_key query_signature) in
      Some (rstrip_char "=" (urlsafe_b64encode payload))
  end.

(** ** Pages *)

Record public_page := mkPublic {
  pp_model_version : Z; pp_global_model_version : option Z; pp_path_pair_id : string; pp_parent_file_id : option string;
  pp_limit : Z; pp_total : Z; pp_records : list page_record; pp_next_cursor : option string }.

Definition __public_page (page : model_page) (query_signature : string) (preserve_global_model_version : bool) : public_page :=
  mkPublic (pg_model_version page) (if preserve_global_model_version then Some (pg_global_model_version page) else None)
    (pg_path_pair_id page) (pg_parent_file_id page) (pg_limit page) (pg_total page) (pg_records page)
    (__encode_cursor (pg_model_version page) (pg_path_pair_id page) (pg_parent_file_id page)
       (pg_next_cursor_file_id page) (pg_next_cursor_sort_key page) query_signature).

Inductive page_answer :=
  | PageError (error : string)
  | Page (p : public_page).

(** the page as it leaves the process *)
Definition transport (p : public_page) : public_page :=
  mkPublic (pp_model_version p) None (pp_path_pair_id p) (pp_parent_file_id p) (pp_limit p) (pp_total p)
    (pp_records p) (pp_next_cursor p).

Section handlers.
Context `{Timestamps}.

(** the page the controller answers with, registering the listener if there is one *)
Definition controller_page (add : option listener) (scope_id : string) (limit : Z) (c : cursor)
    (parent_file_id : option string) : st model model_page :=
  let '(cursor_file_id, cursor_version, cursor_sort_key) := c in
  match add with
  | None =>
      page ← gets (fun s => get_model_page s scope_id limit cursor_file_id cursor_version cursor_sort_key parent_file_id);
      lift page
  | Some l => get_model_page_and_add_listener l scope_id limit cursor_file_id cursor_version cursor_sort_key parent_file_id
  end.

Definition __get_page (rq : page_request) (scope_id : string) (parent_file_id : option string) (add : option listener)
    : st model page_answer := fun s =>
  match __read_limit rq with
  | Raise e => (Raise e, s)
  | Ok limit =>
      match __read_query rq with
      | Raise e => (Raise e, s)
      | Ok (_, _, _, query_signature) =>
          match __decode_cursor (rq_cursor rq) scope_id parent_file_id query_signature with
          | Raise CursorContractError => (Ok (PageError "cursor_reset_required"), s)
          | Raise e => (Raise e, s)
          | Ok c =>
              match controller_page add scope_id limit c parent_file_id s with
              | (Raise (ModelPageCursorError _), s') => (Ok (PageError "invalid_model_cursor"), s')
              | (Raise e, s') => (Raise e, s')
              | (Ok page, s') => (Ok (Page (__public_page page query_signature true)), s')
              end
          end
      end
  end.

Definition page_status (a : page_answer) : Z :=
  match a with
  | PageError e => if String.eqb e "cursor_reset_required" then 409 else 400
  | Page _ => 200
  end.

Definition transport_answer (a : page_answer) : page_answer :=
  match a with PageError e => PageError e | Page p => Page (transport p) end.

Definition __handle_roots (rq : page_request) (path_pair_id : string) : st model (Z * page_answer) :=
  scope_id ← lift (__validate_scope_id path_pair_id);
  page ← __get_page rq scope_id None None;
  mret (page_status page, transport_answer page).

Definition __handle_children (rq : page_request) (path_pair_id : string) : st model (Z * page_answer) :=
  scope_id ← lift (__validate_scope_id path_pair_id);
  parent_file_id ← lift (__read_parent_file_id rq);
  page ← __get_page rq scope_id (Some parent_file_id) None;
  mret (page_status page, transport_answer page).

(** ** The stream of one scope *)

Inductive sse_event :=
  | SsePage (p : public_page)
  | SseInvalidate (model_version : Z) (file_ids : list string) (records : list page_record) (removed_file_ids : list string)
  | SseReset (model_version : Z) (reason : string).

(** the answer to a stream request: a refusal, or the first events with the listener *)
Inductive stream_answer :=
  | StreamRefused (status : Z) (answer : page_answer)
  | StreamOpened (first : list sse_event) (l : ScopedModelListener).

(** [l] is what the model keeps of the new [ScopedModelListener].  The request
    also asks the scanners to scan this pair next, which changes nothing here. *)
Definition __handle_stream (rq : page_request) (path_pair_id : string) (reconnect_id : string) (l : listener)
    : st model stream_answer :=
  scope_id ← lift (__validate_scope_id path_pair_id);
  answer ← __get_page rq scope_id None (Some l);
  mret (match answer with
        | PageError e => StreamRefused (page_status answer) answer
        | Page p =>
            StreamOpened (SsePage (transport p) ::
                          (if String.eqb (strip reconnect_id) "" then []
                           else [SseReset (pp_model_version p) "replay_unavailable"]))
              (new_scoped_listener scope_id)
        end).

(** one round of the stream that finds an event or none: the next event,
    completed with what the model holds now; keepalives are not modelled *)
Definition stream_round (s : model) (scope_id : string) (l : ScopedModelListener)
    : result (option sse_event) * ScopedModelListener :=
  let '(event, l') := take_next_event l in
  (match event with
   | None => Ok None
   | Some (ModelReset _ _) => Ok (Some (SseReset (get_model_scope_version_snapshot s scope_id).1 "coalesced"))
   | Some (ModelInvalidate _ changed_ids _) =>
       updates ← get_model_root_updates s scope_id changed_ids;
       Ok (Some (SseInvalidate (up_model_version updates) changed_ids (up_records updates) (up_removed_file_ids updates)))
   end, l').
End handlers.
