(* ===== verification/ModelPagesFacts.v ===== *)
(** * Pages cover what they page ([ModelPages], [ModelApi])

    A page is a window of the candidates in the order of their identities;
    the cursor a page carries is read back as the identity the next page
    starts after; so following the cursors visits every candidate once. *)

From S2P Require Import Prelude PyDict PyStr Json Base64 ModelFile ModelState Model ModelIndex ModelPages ModelApi.

(** ** Windows *)

Definition unseen (after_id : option string) (l : list fileref) : list fileref :=
  List.filter (fun c => negb (already_seen after_id c)) l.

Lemma unseen_cons after c l :
  unseen after (c :: l) = if already_seen after c then unseen after l else c :: unseen after l.
Proof. unfold unseen. cbn [List.filter]. by destruct (already_seen after c). Qed.

Lemma root_page_window limit after cands : forall total selected more,
  (length selected <= limit)%nat ->
  root_page (Z.of_nat limit) after cands total selected more =
  (total + Z.of_nat (length cands), selected ++ take (limit - length selected) (unseen after cands),
   more || (limit <? length selected + length (unseen after cands))%nat).
Proof.
  induction cands as [|c cands IH]; intros total selected more Hl; cbn [root_page length].
  { rewrite Z.add_0_r. change (unseen after []) with (@nil fileref). rewrite take_nil, app_nil_r. cbn [length].
    destruct (Nat.ltb_spec limit (length selected + 0)); [lia|]. by rewrite orb_false_r. }
  rewrite unseen_cons. destruct (already_seen after c) eqn:Es.
  { rewrite IH by done. f_equal. f_equal. lia. }
  destruct (Z.ltb_spec (Z.of_nat (length selected)) (Z.of_nat limit)).
  - rewrite IH by (rewrite length_app; cbn [length]; lia). rewrite length_app. cbn [length].
    replace (limit - length selected)%nat with (S (limit - (length selected + 1))) by lia. rewrite firstn_cons, <- app_assoc.
    f_equal; [f_equal; lia|]. do 2 f_equal; lia.
  - rewrite IH by done. replace (limit - length selected)%nat with O by lia.
    f_equal; [f_equal; lia|]. rewrite orb_true_l. symmetry. apply orb_true_iff. right. apply Nat.ltb_lt. cbn [length]. lia.
Qed.

(** ** The heap keeps the smallest identities *)

#[export] Instance id_le_trans : Transitive id_le.
Proof. intros a b c. unfold id_le. apply (transitivity (R := String.le)). Qed.
#[export] Instance id_le_total : Total id_le.
Proof. intros a b. unfold id_le. apply (total String.le). Qed.

Lemma heappush_perm r h : heappush r h ≡ₚ r :: h.
Proof.
  induction h as [|t h IH]; cbn [heappush]; [done|]. case_bool_decide; [done|]. rewrite IH. apply Permutation_swap.
Qed.

Definition descending (h : list fileref) : Prop := StronglySorted (flip id_le) h.

Lemma heappush_descending r h : descending h -> descending (heappush r h).
Proof.
  unfold descending. induction h as [|t h IH]; intros Hd; cbn [heappush]; [by repeat constructor|].
  apply StronglySorted_inv in Hd as [Hd Ht]. case_bool_decide as E.
  - constructor; [by constructor|]. constructor; [done|]. eapply Forall_impl; [exact Ht|]. intros x Hx.
    unfold flip in *. by etrans.
  - constructor; [by apply IH|]. rewrite heappush_perm. constructor; [|done].
    unfold flip, id_le. by destruct (total String.le (file_id r) (file_id t)).
Qed.

(** What the heap holds after some candidates: as many as fit, all at most as
    large as those left out. *)
Record heap_ok (limit : nat) (seen heap dropped : list fileref) : Prop := {
  ho_perm : seen ≡ₚ heap ++ dropped;
  ho_desc : descending heap;
  ho_least : forall x y, x ∈ heap -> y ∈ dropped -> id_le x y;
  ho_size : (length heap <= limit)%nat;
  ho_full : dropped <> [] -> length heap = limit }.

Lemma heap_push limit seen heap dropped c : heap_ok limit seen heap dropped -> (length heap < limit)%nat ->
  heap_ok limit (seen ++ [c]) (heappush c heap) dropped.
Proof.
  intros [Hp Hd Hl Hs Hf] Hlt. assert (dropped = []) as -> by (destruct dropped; [done|]; by specialize (Hf ltac:(done)); lia).
  split; try done; [|by apply heappush_descending|intros x y _ Hy; by apply elem_of_nil in Hy|].
  - rewrite Hp, heappush_perm, !app_nil_r. by rewrite Permutation_app_comm.
  - rewrite heappush_perm. cbn [length]. lia.
Qed.

Lemma heap_replace limit seen top heap dropped c : heap_ok limit seen (top :: heap) dropped ->
  length (top :: heap) = limit -> negb (bool_decide (String.le (file_id top) (file_id c))) = true ->
  heap_ok limit (seen ++ [c]) (heapreplace c (top :: heap)) (top :: dropped).
Proof.
  intros [Hp Hd Hl Hs Hf] Hlen Hc. rewrite negb_true_iff, bool_decide_eq_false in Hc.
  assert (Hct : id_le c top) by (destruct (total String.le (file_id c) (file_id top)); done).
  apply StronglySorted_inv in Hd as [Hd Ht]. unfold heapreplace. cbn [tail].
  split; [|by apply heappush_descending| | |].
  - rewrite Hp, heappush_perm, (Permutation_app_comm _ [c]). cbn [app]. by rewrite Permutation_middle.
  - intros x y Hx Hy. rewrite heappush_perm in Hx. apply elem_of_cons in Hx as [->|Hx]; apply elem_of_cons in Hy as [->|Hy].
    + done.
    + etrans; [exact Hct|]. apply Hl; [left|done].
    + rewrite Forall_forall in Ht. by apply Ht.
    + apply Hl; [by right|done].
  - rewrite heappush_perm. done.
  - intros _. rewrite heappush_perm. done.
Qed.

Lemma heap_leave limit seen top heap dropped c : heap_ok limit seen (top :: heap) dropped ->
  length (top :: heap) = limit -> negb (bool_decide (String.le (file_id top) (file_id c))) = false ->
  heap_ok limit (seen ++ [c]) (top :: heap) (c :: dropped).
Proof.
  intros [Hp Hd Hl Hs Hf] Hlen Hc. rewrite negb_false_iff, bool_decide_eq_true in Hc. split; try done.
  - rewrite Hp, (Permutation_app_comm _ [c]). apply (Permutation_middle (top :: heap)).
  - intros x y Hx [->|Hy]%elem_of_cons; [|by apply Hl]. apply StronglySorted_inv in Hd as [_ Ht].
    apply elem_of_cons in Hx as [->|Hx]; [done|]. rewrite Forall_forall in Ht. etrans; [by apply Ht|exact Hc].
Qed.

Lemma child_page_heap limit after cands : (0 < limit)%nat -> forall total seen heap dropped more,
  heap_ok limit seen heap dropped -> (more = true <-> dropped <> []) ->
  exists heap' dropped' more',
    child_page (Z.of_nat limit) after cands total heap more = Ok (total + Z.of_nat (length cands), heap', more') /\
    heap_ok limit (seen ++ unseen after cands) heap' dropped' /\ (more' = true <-> dropped' <> []).
Proof.
  intros H0. induction cands as [|c cands IH]; intros total seen heap dropped more Hh Hm; cbn [child_page length].
  { rewrite Z.add_0_r. change (unseen after []) with (@nil fileref). rewrite app_nil_r. eauto 6. }
  replace (total + Z.of_nat (S (length cands))) with (total + 1 + Z.of_nat (length cands)) by lia.
  rewrite unseen_cons. destruct (already_seen after c) eqn:Es; [by apply (IH (total + 1) seen heap dropped)|].
  replace (seen ++ c :: unseen after cands) with ((seen ++ [c]) ++ unseen after cands) by by rewrite <- app_assoc.
  destruct (Z.ltb_spec (Z.of_nat (length heap)) (Z.of_nat limit)).
  { eapply IH; [apply heap_push; [done|lia]|done]. }
  pose proof (ho_size _ _ _ _ Hh). destruct heap as [|top heap]; [cbn [length] in *; lia|].
  assert (Hlen : length (top :: heap) = limit) by lia.
  destruct (negb _) eqn:Ec.
  - eapply IH; [by eapply heap_replace|done].
  - eapply IH; [by eapply heap_leave|done].
Qed.

(** ** Both kinds of page are the same window *)

Definition by_identity (l : list fileref) : list fileref := merge_sort id_le l.

Lemma by_identity_perm l : by_identity l ≡ₚ l.
Proof. apply merge_sort_Permutation. Qed.

Lemma by_identity_sorted l : StronglySorted id_le (by_identity l).
Proof. apply StronglySorted_merge_sort; apply _. Qed.

(** distinct identities leave one order *)
Lemma identity_unique l1 l2 : NoDup (map file_id l1) -> StronglySorted id_le l1 -> StronglySorted id_le l2 ->
  l1 ≡ₚ l2 -> l1 = l2.
Proof.
  intros Hnd H1 H2 Hp. apply (StronglySorted_unique_strong id_le); [|done..].
  intros x1 x2 Hx1 Hx2 Ha Hb. rewrite <- Hp in Hx2. assert (E : file_id x1 = file_id x2) by by apply (anti_symm String.le).
  apply list_elem_of_lookup in Hx1 as [i Hi]. apply list_elem_of_lookup in Hx2 as [j Hj].
  assert (i = j) as ->; [|congruence].
  eapply (NoDup_lookup (map file_id l1)); [done| |]; rewrite list_lookup_fmap, ?Hi, ?Hj; cbn [fmap option_fmap option_map]; [done|by rewrite E].
Qed.

Lemma unseen_perm after l1 l2 : l1 ≡ₚ l2 -> unseen after l1 ≡ₚ unseen after l2.
Proof. unfold unseen. induction 1; cbn [List.filter]; repeat case_match; eauto using Permutation; by etrans. Qed.

Lemma elem_of_List_filter (p : fileref -> bool) l x : x ∈ List.filter p l -> x ∈ l.
Proof. rewrite !list_elem_of_In, filter_In. tauto. Qed.

Lemma filter_sorted (p : fileref -> bool) l : StronglySorted id_le l -> StronglySorted id_le (List.filter p l).
Proof.
  induction 1 as [|x l Hl IH Hx]; cbn [List.filter]; [constructor|]. destruct (p x); [|done].
  constructor; [done|]. apply Forall_forall. intros y Hy. rewrite Forall_forall in Hx. by apply Hx, elem_of_List_filter with p.
Qed.

Lemma filter_ids_NoDup (p : fileref -> bool) l : NoDup (map file_id l) -> NoDup (map file_id (List.filter p l)).
Proof.
  induction l as [|x l IH]; cbn [List.filter map]; intros H; [done|]. apply NoDup_cons in H as [Hx H].
  destruct (p x); cbn [map]; [|by apply IH]. apply NoDup_cons. split; [|by apply IH]. intros Hin. apply Hx.
  apply list_elem_of_fmap in Hin as (y & -> & Hy). apply list_elem_of_fmap. exists y. split; [done|].
  by apply elem_of_List_filter in Hy.
Qed.

Lemma NoDup_ids_perm l1 l2 : l1 ≡ₚ l2 -> NoDup (map file_id l1) -> NoDup (map file_id l2).
Proof. intros Hp. by rewrite Hp. Qed.

Lemma heap_window limit seen heap dropped : NoDup (map file_id seen) -> heap_ok limit seen heap dropped ->
  by_identity heap = take limit (by_identity seen) /\ (dropped <> [] <-> (limit < length seen)%nat).
Proof.
  intros Hnd [Hp Hd Hl Hs Hf]. split.
  - assert (E : by_identity seen = by_identity heap ++ by_identity dropped).
    { apply identity_unique; [by eapply NoDup_ids_perm, Hnd; rewrite by_identity_perm|apply by_identity_sorted| |].
      - apply StronglySorted_app_2; try apply by_identity_sorted. intros x y Hx Hy.
        rewrite by_identity_perm in Hx, Hy. by apply Hl.
      - by rewrite !by_identity_perm. }
    rewrite E. destruct (decide (dropped = [])) as [->|Hne].
    + rewrite app_nil_r. symmetry. apply firstn_all2. by rewrite by_identity_perm.
    + rewrite <- (Hf Hne) at 1. rewrite <- (by_identity_perm heap) at 2. by rewrite take_app_length.
  - rewrite Hp, length_app. destruct dropped as [|d dropped]; cbn [length]; [split; [done|lia]|].
    split; [|done]. intros _. rewrite Hf by done. lia.
Qed.

(** The page of any candidates is a window of them in the order of their identities. *)
Lemma bounded_page_window cands limit after key parent : (0 < limit)%nat -> NoDup (map file_id cands) ->
  (parent = None -> StronglySorted id_le cands) ->
  let rest := unseen (after_identity after key) (by_identity cands) in
  __bounded_model_page_files cands (Z.of_nat limit) after key parent =
  Ok (Z.of_nat (length cands), take limit rest, (limit <? length rest)%nat).
Proof.
  intros H0 Hnd Hs. cbv zeta. unfold __bounded_model_page_files. set (a := after_identity after key).
  destruct parent as [parent|].
  - destruct (child_page_heap limit a cands H0 0 [] [] [] false) as (h & d & more & -> & Hh & Hm).
    { split; try done; [constructor|intros x y Hx; by apply elem_of_nil in Hx|cbn [length]; lia]. }
    { split; done. }
    cbn [mbind result_bind]. rewrite Z.add_0_l. change ([] ++ unseen a cands) with (unseen a cands) in Hh.
    destruct (heap_window limit (unseen a cands) h d (filter_ids_NoDup _ _ Hnd) Hh) as [Hw Hd].
    assert (E : by_identity (unseen a cands) = unseen a (by_identity cands)).
    { apply identity_unique.
      - eapply NoDup_ids_perm; [symmetry; apply by_identity_perm|by apply filter_ids_NoDup].
      - apply by_identity_sorted.
      - apply filter_sorted, by_identity_sorted.
      - rewrite by_identity_perm. apply unseen_perm. by rewrite by_identity_perm. }
    change (merge_sort id_le h) with (by_identity h). rewrite Hw, E. do 2 f_equal. rewrite <- E.
    rewrite (Permutation_length (by_identity_perm (unseen a cands))).
    destruct more; symmetry; [by apply Nat.ltb_lt, Hd, Hm|]. apply Nat.ltb_ge.
    destruct (decide (limit < length (unseen a cands))%nat) as [Hlt|]; [|lia]. by apply Hd, Hm in Hlt.
  - assert (by_identity cands = cands) as ->.
    { symmetry. apply identity_unique; [done|by apply Hs|apply by_identity_sorted|]. by rewrite by_identity_perm. }
    rewrite root_page_window by (cbn [length]; lia). cbn [length app]. rewrite Nat.sub_0_r, Z.add_0_l. done.
Qed.

(** ** The cursor is read back *)

Definition seven_bit (c : ascii) : Prop := ord c < 128.

Lemma seven_bit_forall (l : list ascii) : Forall seven_bit l -> existsb (fun c => 128 <=? ord c) l = false.
Proof.
  induction 1 as [|c l Hc _ IH]; [done|]. cbn [existsb]. rewrite IH, orb_false_r. apply Z.leb_gt. exact Hc.
Qed.

Lemma utf8_decode_ascii l : Forall seven_bit l -> utf8_decode l = Some l.
Proof.
  induction 1 as [|c l Hc _ IH]; [done|]. cbn [utf8_decode]. destruct (Z.ltb_spec (ord c) 128); [|unfold seven_bit in *; lia].
  by rewrite IH.
Qed.

Lemma esc_char_ascii c : Forall seven_bit (esc_char c).
Proof.
  assert (E : forallb (fun x => ord x <? 128) (esc_char c) = true) by (destruct c as [[] [] [] [] [] [] [] []]; vm_compute; reflexivity).
  apply Forall_forall. intros x Hx%list_elem_of_In. rewrite forallb_forall in E. by apply Z.ltb_lt, E.
Qed.

Lemma json_str_ascii s : Forall seven_bit (json_str_chars s).
Proof.
  unfold json_str_chars. constructor; [done|]. apply Forall_app. split; [|by repeat constructor].
  apply Forall_concat. induction (chars s) as [|c l IH]; constructor; [apply esc_char_ascii|done].
Qed.

Lemma show_int_ascii z : Forall seven_bit (show_int z).
Proof.
  assert (Hd : forall c, is_digit c = true -> seven_bit c).
  { intros c Hc. unfold is_digit in Hc. apply andb_true_iff in Hc as [_ Hc%Z.leb_le]. unfold seven_bit. lia. }
  assert (Hpos : forall y, 0 <= y -> Forall seven_bit (show_int y)).
  { intros y Hy. destruct (show_int_digits y Hy) as [_ Hall]. apply Forall_forall. intros c Hc. by apply Hd, Hall. }
  destruct (Z.le_gt_cases 0 z) as [Hz|Hz]; [by apply Hpos|].
  unfold show_int. destruct (Z.ltb_spec z 0); [|lia]. constructor; [done|].
  specialize (Hpos (- z) ltac:(lia)). unfold show_int in Hpos. destruct (Z.ltb_spec (- z) 0); [lia|]. exact Hpos.
Qed.

(** Base 64 without its padding *)
Lemma b64_shape l : exists body pads, b64_encode l = body ++ repeat "="%char pads /\
  Forall (fun c => is_Some (b64_value c)) body /\ (Z.of_nat pads = (- Z.of_nat (length body)) mod 4).
Proof.
  assert (Hc : forall n, 0 <= n < 64 -> is_Some (b64_value (b64_char n))).
  { intros n Hn. destruct (b64_table n Hn) as [-> _]. by eexists. }
  induction l as [l IH] using (induction_ltof1 _ (@length ascii)). unfold ltof in IH.
  destruct l as [|a [|b [|c r]]]; cbn [b64_encode].
  - by exists [], O.
  - pose proof (ord_range a). eexists [_; _], 2%nat. split; [reflexivity|]. split; [|done].
    pose proof (Z.mod_pos_bound (ord a) 4).
    assert (0 <= ord a / 4 < 64) by (split; [apply Z.div_pos|apply Z.div_lt_upper_bound]; lia).
    repeat constructor; apply Hc; lia.
  - pose proof (ord_range a). pose proof (ord_range b). eexists [_; _; _], 1%nat. split; [reflexivity|]. split; [|done].
    pose proof (Z.mod_pos_bound (ord a) 4). pose proof (Z.mod_pos_bound (ord b) 16).
    assert (0 <= ord b / 16 < 16) by (split; [apply Z.div_pos|apply Z.div_lt_upper_bound]; lia).
    assert (0 <= ord a / 4 < 64) by (split; [apply Z.div_pos|apply Z.div_lt_upper_bound]; lia).
    repeat constructor; apply Hc; lia.
  - pose proof (ord_range a). pose proof (ord_range b). pose proof (ord_range c).
    pose proof (Z.mod_pos_bound (ord a) 4). pose proof (Z.mod_pos_bound (ord b) 16). pose proof (Z.mod_pos_bound (ord c) 64).
    assert (0 <= ord b / 16 < 16) by (split; [apply Z.div_pos|apply Z.div_lt_upper_bound]; lia).
    assert (0 <= ord a / 4 < 64) by (split; [apply Z.div_pos|apply Z.div_lt_upper_bound]; lia).
    assert (0 <= ord c / 64 < 4) by (split; [apply Z.div_pos|apply Z.div_lt_upper_bound]; lia).
    destruct (IH r ltac:(cbn [length]; lia)) as (body & pads & -> & Hb & Hp).
    eexists (_ :: _ :: _ :: _ :: body), pads. split; [reflexivity|]. split; [repeat constructor; try apply Hc; try lia; done|].
    rewrite Hp. cbn [length]. replace (- Z.of_nat (S (S (S (S (length body)))))) with (- Z.of_nat (length body) + (-1) * 4) by lia.
    by rewrite Z.mod_add.
Qed.

Lemma b64_value_plain c : is_Some (b64_value c) ->
  from_urlsafe (to_urlsafe c) = c /\ Ascii.eqb (to_urlsafe c) "=" = false /\ seven_bit (to_urlsafe c).
Proof.
  intros H. destruct c as [[] [] [] [] [] [] [] []]; vm_compute in H; try (by destruct H); by vm_compute.
Qed.

Lemma urlsafe_body body : Forall (fun c => is_Some (b64_value c)) body -> map from_urlsafe (map to_urlsafe body) = body.
Proof.
  induction 1 as [|c l Hc _ IH]; [done|]. cbn [map]. rewrite IH. by destruct (b64_value_plain c Hc) as [-> _].
Qed.

Lemma map_pad (f : ascii -> ascii) n : f "="%char = "="%char -> map f (repeat "="%char n) = repeat "="%char n.
Proof. intros Hf. induction n as [|n IH]; [done|]. cbn [repeat map]. by rewrite Hf, IH. Qed.

Lemma rstrip_pad body n : Forall (fun c => Ascii.eqb c "=" = false) body ->
  rstrip_by (fun x => Ascii.eqb x "=") (body ++ repeat "="%char n) = body.
Proof.
  intros Hb. unfold rstrip_by. rewrite rev_app_distr.
  assert (Hr : rev (repeat "="%char n) = repeat "="%char n).
  { induction n as [|n IH]; [done|]. cbn [repeat rev]. rewrite IH. clear. induction n; [done|]. cbn [repeat app]. by rewrite IHn. }
  rewrite Hr. clear Hr. induction n as [|n IH]; [|exact IH]. cbn [repeat app].
  destruct (rev body) as [|c l] eqn:E; [by rewrite <- (rev_involutive body), E|]. cbn [drop_while].
  assert (Hc : Ascii.eqb c "=" = false).
  { rewrite Forall_forall in Hb. apply Hb. apply list_elem_of_In, in_rev. rewrite E. by left. }
  rewrite Hc, <- E. apply rev_involutive.
Qed.

Lemma payload_round_trip payload : Forall seven_bit (chars payload) ->
  decode_payload (rstrip_char "=" (urlsafe_b64encode payload)) = loads payload.
Proof.
  intros Ha. destruct (b64_shape (chars payload)) as (body & pads & E & Hb & Hp).
  set (safe := map to_urlsafe body).
  assert (Hs : rstrip_char "=" (urlsafe_b64encode payload) = str safe).
  { unfold rstrip_char, urlsafe_b64encode, b64encode. rewrite !chars_str, E, map_app.
    rewrite map_pad by done. f_equal. apply rstrip_pad. unfold safe. apply Forall_fmap. eapply Forall_impl; [exact Hb|]. intros c Hc. by apply b64_value_plain. }
  rewrite Hs. unfold decode_payload, str_len. rewrite chars_str.
  assert (Hl : length safe = length body) by apply length_map. rewrite Hl, <- Hp, Nat2Z.id, chars_app, !chars_str.
  rewrite seven_bit_forall; cycle 1.
  { apply Forall_app. split; [|clear; induction pads; by constructor]. unfold safe. apply Forall_fmap.
    eapply Forall_impl; [exact Hb|]. intros c Hc. by apply b64_value_plain. }
  assert (Hd : urlsafe_b64decode (str safe +:+ str (repeat "="%char pads)) = Some payload).
  { unfold urlsafe_b64decode. rewrite chars_app, !chars_str, map_app.
    unfold safe. rewrite urlsafe_body, map_pad by done.
    rewrite <- E. apply b64decode_b64encode. }
  rewrite Hd. cbn [mbind option_bind]. rewrite utf8_decode_ascii by done. cbn [mbind option_bind]. by rewrite str_chars.
Qed.

Lemma cursor_payload_ok version scope parent after id sig : (length (show_int version) <= max_int_digits)%nat ->
  json_ok (cursor_payload version scope parent after (next_sort_key id) sig) /\
  Forall seven_bit (chars (dumps Compact (cursor_payload version scope parent after (next_sort_key id) sig))).
Proof.
  intros Hv. unfold next_sort_key. split.
  - unfold cursor_payload. split; [apply (bool_decide_unpack _); vm_compute; done|].
    destruct (String.eqb id ""), parent; cbn -[show_int max_int_digits]; tauto.
  - unfold dumps. rewrite chars_str. unfold cursor_payload.
    destruct (String.eqb id ""), parent; cbn [default dump newline item_sep key_pad app];
      repeat first [apply json_str_ascii | apply show_int_ascii | progress (apply Forall_app; split)
                   | apply Forall_cons; split; [done|] | apply Forall_nil_2 | done];
      apply (bool_decide_unpack _); vm_compute; done.
Qed.

Lemma cursor_round_trip version scope parent after id sig c : (length (show_int version) <= max_int_digits)%nat ->
  __encode_cursor version scope parent (Some after) (next_sort_key id) sig = Some c -> str_len c <= _MAX_CURSOR_LENGTH ->
  __decode_cursor (Some c) scope parent sig = Ok (Some after, Some version, Some (default [] (next_sort_key id))).
Proof.
  intros Hv Hc Hl. injection Hc as Hc. destruct (cursor_payload_ok version scope parent after id sig Hv) as [Hj Ha].
  pose proof (payload_round_trip _ Ha) as Hp. rewrite Hc, loads_dumps in Hp by done.
  unfold __decode_cursor. destruct c as [|ch c]; [by vm_compute in Hp|].
  destruct (Z.ltb_spec _MAX_CURSOR_LENGTH (str_len (String ch c))); [lia|]. rewrite Hp. unfold cursor_payload.
  set (fields := [_; _; _; _; _; _]).
  assert (E1 : dget fields "after" = Some (JStr after)) by reflexivity.
  assert (E2 : dget fields "version" = Some (JInt version)) by reflexivity.
  assert (E3 : dget fields "after_key" = Some (JArr (default [] (next_sort_key id)))) by reflexivity.
  assert (E4 : dget fields "scope" = Some (JStr scope)) by reflexivity.
  assert (E5 : dget fields "parent" = Some (match parent with Some p => JStr p | None => JNull end)) by reflexivity.
  assert (E6 : dget fields "query" = Some (JStr sig)) by reflexivity.
  unfold field_is. rewrite E1, E2, E3, E4, E5, E6, !String.eqb_refl.
  assert (forallb key_value (default [] (next_sort_key id)) = true) as -> by (unfold next_sort_key; by destruct (String.eqb id "")).
  by destruct parent; rewrite ?String.eqb_refl.
Qed.

(** ** Following the cursors *)

Section walk.
Context `{Timestamps}.

Definition with_cursor (rq : page_request) (c : option string) : page_request :=
  mkPageRequest (rq_limit rq) c (rq_sort rq) (rq_status rq) (rq_name rq) (rq_parent_file_id rq).

(** The pages a client collects: it asks again with the cursor of each page. *)
Fixpoint walk (n : nat) (s : model) (rq : page_request) (scope : string) (parent c : option string) : option (list public_page) :=
  match n with
  | O => None
  | S n =>
      match (__get_page (with_cursor rq c) scope parent None s).1 with
      | Ok (Page p) =>
          match pp_next_cursor p with
          | None => Some [p]
          | Some c' => cons p <$> walk n s rq scope parent (Some c')
          end
      | _ => None
      end
  end.

Lemma read_limit_range rq limit : __read_limit rq = Ok limit -> 1 <= limit <= _MAX_LIMIT.
Proof.
  unfold __read_limit, _DEFAULT_LIMIT, _MAX_LIMIT, bad_request. intros E. repeat case_match; simplify_eq; try lia.
Qed.

Context (s : model) (rq : page_request) (scope : string) (parent : option string) (cands : list fileref) (limit : nat).
Context (q : Z * option string * option string) (sig : string).
Let version := scope_version_of s (expected_path_pair_id scope).
Let L := by_identity cands.
Let record := _model_file_page_record_with_overlay s.

Context (Hlimit : __read_limit rq = Ok (Z.of_nat limit)) (Hquery : __read_query rq = Ok (q, sig)).
Context (Hcands : __scoped_model_file_candidates s scope parent = Ok cands).
Context (Hnd : NoDup (map file_id cands)) (Hsorted : parent = None -> StronglySorted id_le cands).
Context (Hversion : (length (show_int version) <= max_int_digits)%nat).
Context (Hfits : forall r c, r ∈ cands ->
  __encode_cursor version scope parent (Some (file_id r)) (next_sort_key (file_id r)) sig = Some c -> str_len c <= _MAX_CURSOR_LENGTH).

Lemma limit_pos : (0 < limit)%nat.
Proof. pose proof (read_limit_range _ _ Hlimit). lia. Qed.

Lemma L_sorted : StronglySorted id_le L.
Proof. apply by_identity_sorted. Qed.

Lemma L_NoDup : NoDup (map file_id L).
Proof. eapply NoDup_ids_perm, Hnd. symmetry. apply by_identity_perm. Qed.

(** One request: a window of the candidates after the cursor *)
Lemma get_page_window c after ver key : __decode_cursor c scope parent sig = Ok (after, ver, key) ->
  let todo := unseen (after_identity after key) L in
  let next := if (limit <? length todo)%nat then file_id <$> last (take limit todo) else None in
  (__get_page (with_cursor rq c) scope parent None s).1 =
  Ok (Page (mkPublic version (Some (ModelState.version s)) scope parent (Z.of_nat limit) (Z.of_nat (length cands))
              (map record (take limit todo)) (__encode_cursor version scope parent next (next ≫= next_sort_key) sig))).
Proof.
  intros Hc. cbv zeta. unfold __get_page. change (__read_limit (with_cursor rq c)) with (__read_limit rq).
  change (__read_query (with_cursor rq c)) with (__read_query rq). rewrite Hlimit, Hquery. destruct q as [[sm st] nm].
  cbn [rq_cursor with_cursor]. rewrite Hc.
  change (controller_page None scope (Z.of_nat limit) (after, ver, key) parent s)
    with (__get_model_page_locked s scope (Z.of_nat limit) after key parent, s).
  unfold __get_model_page_locked. rewrite Hcands. cbn [mbind result_bind].
  rewrite bounded_page_window by (done || apply limit_pos). cbn [mbind result_bind]. reflexivity.
Qed.

(** What is left after a prefix *)
Lemma unseen_after done x todo : L = done ++ x :: todo -> unseen (Some (file_id x)) L = todo.
Proof.
  pose proof L_sorted as Hs. pose proof L_NoDup as Hd. intros E. rewrite E in Hs, Hd. rewrite E. unfold unseen.
  rewrite map_app in Hd. apply NoDup_app in Hd as (_ & _ & Hd). apply NoDup_cons in Hd as [Hx _].
  rewrite List.filter_app. cbn [List.filter]. unfold already_seen at 2. rewrite bool_decide_eq_true_2 by done. cbn [negb].
  replace (List.filter _ done) with (@nil fileref); cycle 1.
  { symmetry. apply StronglySorted_app in Hs as (Hs & _ & _). clear E. revert Hs. induction done as [|y done IH]; intros Hs; [done|].
    cbn [List.filter]. unfold already_seen at 1. rewrite bool_decide_eq_true_2 by (apply Hs; [by left|by left]). cbn [negb].
    apply IH. intros a b Ha Hb. apply Hs; [by right|done]. }
  cbn [app]. apply StronglySorted_app in Hs as (_ & _ & Hs). apply StronglySorted_inv in Hs as [_ Hs]. clear E.
  revert Hx Hs. induction todo as [|y todo IH]; intros Hx Hs; [done|]. cbn [List.filter map] in *.
  apply not_elem_of_cons in Hx as [Hx Hx']. apply Forall_cons in Hs as [Hy Hs]. unfold already_seen at 1.
  rewrite bool_decide_eq_false_2; [cbn [negb]; by rewrite IH|]. intros Hle. apply Hx. symmetry. by apply (anti_symm String.le).
Qed.

Lemma next_after id : after_identity (Some id) (Some (default [] (next_sort_key id))) = Some id.
Proof. unfold next_sort_key. by destruct (String.eqb id ""). Qed.

Definition page_fits (p : public_page) : Prop :=
  (length (pp_records p) <= limit)%nat /\ pp_total p = Z.of_nat (length cands) /\ pp_model_version p = version.

Lemma walk_from n : forall c after ver key done todo, L = done ++ todo ->
  __decode_cursor c scope parent sig = Ok (after, ver, key) -> unseen (after_identity after key) L = todo ->
  (length todo < n)%nat -> exists pages, walk n s rq scope parent c = Some pages /\
    concat (map pp_records pages) = map record todo /\ Forall page_fits pages.
Proof.
  induction n as [|n IH]; intros c after ver key done todo HL Hc Hu Hn; [lia|]. cbn [walk].
  rewrite (get_page_window _ _ _ _ Hc), Hu. cbn [pp_next_cursor].
  assert (Hp : forall c', page_fits (mkPublic version (Some (ModelState.version s)) scope parent (Z.of_nat limit)
    (Z.of_nat (length cands)) (map record (take limit todo)) c')).
  { intros c'. split_and!; [|done..]. cbn [pp_records]. rewrite length_map, length_take. lia. }
  destruct (Nat.ltb_spec limit (length todo)) as [Hlt|Hge]; cycle 1.
  { cbn [__encode_cursor]. eexists. split; [done|]. split; [|by constructor].
    cbn [map concat pp_records]. by rewrite app_nil_r, firstn_all2. }
  pose proof limit_pos as H0.
  destruct (last (take limit todo)) as [x|] eqn:Ex; cycle 1.
  { apply last_None in Ex. apply (f_equal length) in Ex. rewrite length_take in Ex. cbn [length] in Ex. lia. }
  apply last_Some in Ex as [front Ef].
  assert (HL' : L = (done ++ front) ++ x :: drop limit todo).
  { rewrite HL, <- (take_drop limit todo) at 1. rewrite Ef, <- !app_assoc. done. }
  cbn [fmap option_fmap option_map mbind option_bind].
  destruct (__encode_cursor version scope parent (Some (file_id x)) (next_sort_key (file_id x)) sig) as [c'|] eqn:Ec; [|done].
  assert (Hx : x ∈ cands).
  { rewrite <- (by_identity_perm cands). fold L. rewrite HL', elem_of_app. right. left. }
  pose proof (cursor_round_trip _ _ _ _ _ _ _ Hversion Ec (Hfits _ _ Hx Ec)) as Hd.
  assert (Hu' : unseen (after_identity (Some (file_id x)) (Some (default [] (next_sort_key (file_id x))))) L = drop limit todo).
  { rewrite next_after. by apply (unseen_after (done ++ front)). }
  assert (HL2 : L = (done ++ take limit todo) ++ drop limit todo) by (rewrite <- app_assoc; by rewrite take_drop).
  destruct (IH _ _ _ _ _ _ HL2 Hd Hu' ltac:(rewrite length_drop; lia)) as (pages & -> & Hr & Hf).
  cbn [fmap option_fmap option_map]. eexists. split; [done|]. split; [|by constructor].
    cbn [map concat pp_records]. rewrite Hr, <- map_app. by rewrite take_drop.
Qed.
End walk.

(** the candidates at the top of a scope *)
Lemma root_candidates s scope : roots_ok s ->
  exists cands, __scoped_model_file_candidates s scope None = Ok cands /\ NoDup (map file_id cands) /\
    StronglySorted id_le cands /\
    (forall r, r ∈ cands <-> dget (files_by_id s) (file_id r) = Some r /\ path_pair_id (ref_file r) = expected_path_pair_id scope).
Proof.
  intros [Hi _]. destruct (iter_files_by_id_spec s Hi) as (l & El & Ho & Hp).
  exists (List.filter (in_scope scope) l). unfold __scoped_model_file_candidates. rewrite El. cbn [mbind result_bind].
  split; [done|]. assert (Hnd : NoDup (map file_id l)) by (rewrite Ho, (ix_ordered s Hi); apply Hi).
  assert (Hs : StronglySorted id_le l).
  { pose proof (ix_sorted s Hi) as Hs. rewrite <- Ho in Hs. clear -Hs. induction l as [|x l IH]; [constructor|].
    apply StronglySorted_inv in Hs as [Hs Hx]. constructor; [by apply IH|]. change (Forall (String.le (file_id x)) (map file_id l)) in Hx.
    apply (proj1 (List.Forall_map file_id (String.le (file_id x)) l)) in Hx. exact Hx. }
  split_and!; [by apply filter_ids_NoDup|by apply filter_sorted|].
  intros r. rewrite list_elem_of_In, filter_In, <- list_elem_of_In. unfold in_scope. rewrite bool_decide_eq_true, Hp.
  split; intros [H1 H2]; split; try done.
  - unfold iter_files, dvals in H1. apply list_elem_of_fmap in H1 as ([fid r'] & -> & Hr). apply dget_elem_of in Hr; [|apply Hi].
    cbn [snd]. by rewrite (ix_keys s Hi _ _ Hr).
  - unfold iter_files, dvals. apply list_elem_of_fmap. exists (file_id r, r). split; [done|]. apply dget_elem_of; [apply Hi|done].
Qed.

(** C6: Following the cursors of the pages API loses and repeats nothing: for
    any accepted request, the pages of a scope's roots, or of one file's
    children, are finitely many, each holds at most the requested number of
    records and the true total, and put together they are the records of all
    candidates, once each and in the order of their identities, provided the
    identities are distinct and a cursor of each fits the length the API
    accepts. *)
Theorem pages_cover_scope `{Timestamps} s rq scope parent cands limit q sig :
  __read_limit rq = Ok limit -> __read_query rq = Ok (q, sig) ->
  __scoped_model_file_candidates s scope parent = Ok cands -> NoDup (map file_id cands) -> (parent = None -> reachable s) ->
  (length (show_int (scope_version_of s (expected_path_pair_id scope))) <= max_int_digits)%nat ->
  (forall r c, r ∈ cands -> __encode_cursor (scope_version_of s (expected_path_pair_id scope)) scope parent (Some (file_id r))
    (next_sort_key (file_id r)) sig = Some c -> str_len c <= _MAX_CURSOR_LENGTH) ->
  exists pages, walk (S (length cands)) s rq scope parent None = Some pages /\
    concat (map pp_records pages) = map (_model_file_page_record_with_overlay s) (by_identity cands) /\
    Forall (fun p => Z.of_nat (length (pp_records p)) <= limit /\ pp_total p = Z.of_nat (length cands)) pages.
Proof.
  intros Hl Hq Hc Hnd Hr Hv Hf. pose proof (read_limit_range _ _ Hl) as Hrange.
  rewrite <- (Z2Nat.id limit) in Hl |- * by lia.
  assert (Hs : parent = None -> StronglySorted id_le cands).
  { intros ->. destruct (root_candidates s scope (reachable_roots s (Hr eq_refl))) as (l & El & _ & Hs & _). congruence. }
  destruct (walk_from s rq scope parent cands (Z.to_nat limit) q sig Hl Hq Hc Hnd Hs Hv Hf (S (length cands)) None None None None
    [] (by_identity cands)) as (pages & Hw & Hcat & Hfit); try done.
  - clear. cbn [after_identity]. unfold unseen. induction (by_identity cands) as [|x l IH]; [done|].
    cbn [List.filter already_seen negb]. by f_equal.
  - rewrite by_identity_perm. lia.
  - exists pages. split; [done|]. split; [done|]. eapply Forall_impl; [exact Hfit|]. intros p (H1 & H2 & _). split; [lia|done].
Qed.

(** A scope of three roots in pages of two *)
Definition demo_pages_ops : list op :=
  [OAdd (sample_root 1 "c" (Some "p")) None; OAdd (sample_root 2 "a" (Some "q")) None; OAdd (sample_root 3 "b" (Some "p")) None;
   OAdd (sample_root 4 "a" (Some "p")) None].
Definition demo_pages_model : model := run_ops demo_pages_ops (empty_model 0).
Definition demo_pages_request : page_request := mkPageRequest (Some "2") None None None None None.
Definition no_clock : Timestamps := {| timestamp_text := fun _ => "" |}.

Lemma pages_cover_scope_witness : exists cands pages,
  __scoped_model_file_candidates demo_pages_model "p" None = Ok cands /\ length cands = 3%nat /\
  walk (H := no_clock) 4 demo_pages_model demo_pages_request "p" None None = Some pages /\ length pages = 2%nat /\
  concat (map pp_records pages) = map (_model_file_page_record_with_overlay (H := no_clock) demo_pages_model) (by_identity cands).
Proof.
  assert (Hr : reachable demo_pages_model) by (apply reachable_run_ops; [constructor|reflexivity]).
  destruct (root_candidates demo_pages_model "p" (reachable_roots _ Hr)) as (cands & Hc & Hnd & _).
  assert (Hlen : length cands = 3%nat).
  { assert (E : (fun r => match r with Ok l => length l | Raise _ => O end) (__scoped_model_file_candidates demo_pages_model "p" None) = 3%nat)
      by (vm_compute; reflexivity). by rewrite Hc in E. }
  destruct (pages_cover_scope (H := no_clock) demo_pages_model demo_pages_request "p" None cands 2 (1, None, None) "identity-v1")
    as (pages & Hw & Hcat & _); [reflexivity|reflexivity|exact Hc|exact Hnd|intros _; exact Hr|apply Nat.leb_le; vm_compute; reflexivity| |].
  - assert (Hall : forallb (fun r => match __encode_cursor (scope_version_of demo_pages_model (Some "p")) "p" None (Some (file_id r))
        (next_sort_key (file_id r)) "identity-v1" with Some c => str_len c <=? _MAX_CURSOR_LENGTH | None => true end) cands = true).
    { assert (E : match __scoped_model_file_candidates demo_pages_model "p" None with
        | Ok l => forallb (fun r => match __encode_cursor (scope_version_of demo_pages_model (Some "p")) "p" None (Some (file_id r))
            (next_sort_key (file_id r)) "identity-v1" with Some c => str_len c <=? _MAX_CURSOR_LENGTH | None => true end) l
        | Raise _ => false end = true) by (vm_compute; reflexivity). by rewrite Hc in E. }
    intros r c Hin E. rewrite forallb_forall in Hall. specialize (Hall r (proj1 (list_elem_of_In _ _) Hin)).
    change (expected_path_pair_id "p") with (Some "p") in E. rewrite E in Hall. by apply Z.leb_le in Hall.
  - rewrite Hlen in Hw. exists cands, pages. split; [exact Hc|]. split; [exact Hlen|]. split; [exact Hw|]. split; [|exact Hcat].
    assert (E : (length <$> walk (H := no_clock) 4 demo_pages_model demo_pages_request "p" None None) = Some 2%nat) by (vm_compute; reflexivity).
    rewrite Hw in E. by injection E.
Defined.
