(* ===== verification/ModelAnnounce.v ===== *)
(** * Every visible change is announced

    What a client sees of a root is the stored root and the four live values
    of its published copy.  A returning operation announces every root whose
    view it changed to each listener with the additive callback, by the root's
    identity and scope.  [tells D] is that statement up to the roots in [D],
    whose change is still to be announced; [owes fid] is a program that ends by
    announcing [fid]. *)

From S2P Require Import Prelude PyStr PyDict ModelFile ModelFileFacts JobStatus ModelState Model.
From S2P Require Import ModelFrames ModelIndex ModelProjection ModelPages.

(** ** What is seen *)

Definition counters : list prop := [P_download_progress; P_transferred_size; P_downloading_speed; P_eta].

(** The live values of a published copy are integers or None. *)
Definition typed_file (f : ModelFile) : Prop :=
  Forall (fun q => match get_prop q f with PyInt _ | PyNone => True | _ => False end) counters.

Definition visible (s : model) (fid : string) : option fileref * option page_record :=
  (dget (files_by_id s) fid, progress_fields <$> dget (published_files s) fid).

(** Names a file system can hold, that are no identifier of another root *)
Definition plain_name (nm : string) : bool :=
  negb (String.eqb nm "") && negb (String.eqb nm ".") && negb (String.eqb nm "..") &&
  negb (existsb (Ascii.eqb slash) (chars nm)) && negb (startswith nm (str ["["%char; quote])).

Definition served_root (r : fileref) : bool :=
  proper_root r && plain_name (name (ref_file r)) &&
  negb (bool_decide (path_pair_id (ref_file r) = Some MODEL_LEGACY_SCOPE_ID)).

Record fine (s : model) : Prop := {
  fine_typed : Forall (fun kv => typed_file kv.2) (published_files s);
  fine_served : Forall (fun kv => served_root kv.2 = true) (files_by_id s) }.

Lemma values_dpop {V} (P : V -> Prop) (d : dict string V) k : Forall (fun kv => P kv.2) d -> Forall (fun kv => P kv.2) (dpop d k).
Proof. induction 1 as [|[k' v'] d Hk Hd IH]; cbn [dpop]; [done|]. case_decide; [done|by constructor]. Qed.

Lemma values_dget {V} (P : V -> Prop) (d : dict string V) k v : Forall (fun kv => P kv.2) d -> dget d k = Some v -> P v.
Proof. intros H E%dget_Some_elem_of. rewrite Forall_forall in H. by apply (H (k, v)). Qed.

Lemma served_at s fid r : fine s -> dget (files_by_id s) fid = Some r -> served_root r = true.
Proof. intros [_ F]. by apply (values_dget (fun r => served_root r = true)). Qed.

Lemma typed_at s fid p : fine s -> dget (published_files s) fid = Some p -> typed_file p.
Proof. intros [F _]. by apply (values_dget typed_file). Qed.

(** A published event carries the identity and the pair of a root. *)
Definition event_ok (e : event) : Prop :=
  match e with
  | EvVersionPublished _ _ _ sc fid =>
      exists r, served_root r = true /\ path_pair_id (ref_file r) = sc /\ file_id r = fid
  | _ => True
  end.

Section announce.
(** the listener that follows, if any *)
Context (who : option nat).

(** it is registered with the additive callback *)
Definition registered (s : model) : Prop :=
  match who with
  | Some n => exists l, l ∈ listeners s /\ l_id l = n /\ l_version_published l = true
  | None => True
  end.

Definition heard (es : list event) (fid : string) : Prop :=
  match who with
  | Some n => exists sv gv sc, EvVersionPublished n sv gv sc fid ∈ es
  | None => True
  end.

Lemma registered_same s s' : listeners s' = listeners s -> registered s -> registered s'.
Proof. unfold registered. by intros ->. Qed.

Definition tells_by (D : gset string) (es : list event) (s s' : model) : Prop :=
  fine s' /\ registered s' /\ log s' = log s ++ es /\ Forall event_ok es /\
  forall fid, visible s' fid = visible s fid \/ heard es fid \/ fid ∈ D.

Definition tells (D : gset string) (s s' : model) : Prop := exists es, tells_by D es s s'.

Lemma heard_app es es' fid : heard es fid \/ heard es' fid -> heard (es ++ es') fid.
Proof.
  unfold heard. destruct who; [|done]. intros [(a & b & c & H)|(a & b & c & H)]; exists a, b, c; apply elem_of_app; auto.
Qed.

Lemma tells_by_trans D es es' s1 s2 s3 : tells_by D es s1 s2 -> tells_by D es' s2 s3 -> tells_by D (es ++ es') s1 s3.
Proof.
  intros (_ & _ & L1 & E1 & V1) (F & R & L2 & E2 & V2). split_and!; [done..|by rewrite L2, L1, app_assoc|by apply Forall_app|].
  intros fid. destruct (V1 fid) as [H1|[H1|H1]]; [|right; left; apply heard_app; auto|auto].
  destruct (V2 fid) as [H2|[H2|H2]]; [left; congruence|right; left; apply heard_app; auto|auto].
Qed.

Lemma tells_refl D s : fine s -> registered s -> tells_by D [] s s.
Proof. intros F R. split_and!; try done; [by rewrite app_nil_r|by left]. Qed.

(** every returning run from a fine state *)
Definition tell {A} (D : gset string) (m : st model A) : Prop := forall s a s',
  fine s -> registered s -> m s = (Ok a, s') -> tells D s s'.

(** the same, and [fid] is announced *)
Definition owes {A} (fid : string) (m : st model A) : Prop := forall s a s',
  fine s -> registered s -> m s = (Ok a, s') -> exists es, tells_by {[fid]} es s s' /\ heard es fid.

Lemma owed_heard D fid es s s' : tells_by {[fid]} es s s' -> heard es fid -> tells_by D es s s'.
Proof.
  intros (F & R & L & Ev & V) He. split_and!; try done.
  intros f. destruct (V f) as [?|[?|Hf]]; auto. apply elem_of_singleton in Hf as ->. auto.
Qed.

Lemma tell_owes {A} D fid (m : st model A) : owes fid m -> tell D m.
Proof.
  intros H s a s' F R E. destruct (H s a s' F R E) as (es & T & He). exists es. by eapply owed_heard.
Qed.

Lemma tell_weaken {A} D (m : st model A) : tell ∅ m -> tell D m.
Proof.
  intros H s a s' F R E. destruct (H s a s' F R E) as (es & F' & R' & L & Ev & V). exists es. split_and!; try done.
  intros f. destruct (V f) as [?|[?|Hf]]; [auto..|]. by apply elem_of_empty in Hf.
Qed.

Lemma bind_ok_inv {A B} (m : st model A) (k : A -> st model B) s b s' : (m ≫= k) s = (Ok b, s') ->
  exists a s1, m s = (Ok a, s1) /\ k a s1 = (Ok b, s').
Proof. unfold mbind, st_bind. destruct (m s) as [[a|e] s1]; [eauto|done]. Qed.

Lemma tell_bind {A B} D (m : st model A) (k : A -> st model B) : tell D m -> (forall a, tell D (k a)) -> tell D (m ≫= k).
Proof.
  intros Hm Hk s b s' F R (a & s1 & E1 & E2)%bind_ok_inv. destruct (Hm s a s1 F R E1) as (es & H1).
  destruct (Hk a s1 b s') as (es' & H2); [apply H1..|done|]. exists (es ++ es'). by eapply tells_by_trans.
Qed.

Lemma owes_bind {A B} fid (m : st model A) (k : A -> st model B) : tell {[fid]} m -> (forall a, owes fid (k a)) -> owes fid (m ≫= k).
Proof.
  intros Hm Hk s b s' F R (a & s1 & E1 & E2)%bind_ok_inv. destruct (Hm s a s1 F R E1) as (es & H1).
  destruct (Hk a s1 b s') as (es' & H2 & He); [apply H1..|done|]. exists (es ++ es'). split; [by eapply tells_by_trans|].
  apply heard_app. auto.
Qed.

Lemma tell_gets {A B} D (f : model -> A) (k : A -> st model B) : (forall s, fine s -> tell D (k (f s))) -> tell D (gets f ≫= k).
Proof. intros H s b s' F R E. by apply (H s F s b s'). Qed.

Lemma owes_gets {A B} fid (f : model -> A) (k : A -> st model B) : (forall s, fine s -> owes fid (k (f s))) -> owes fid (gets f ≫= k).
Proof. intros H s b s' F R E. by apply (H s F s b s'). Qed.

Lemma tell_mfor {A} D (l : list A) (f : A -> st model unit) : (forall x, x ∈ l -> tell D (f x)) -> tell D (mfor l f).
Proof.
  induction l as [|x l IH]; intros H.
  - intros s a s' F R [= <- <-]. exists []. by apply tells_refl.
  - cbn [mfor]. apply tell_bind; [apply H; left|]. intros _. apply IH. intros y Hy. apply H. by right.
Qed.

Lemma tell_finally {A} D (m : st model A) fin : tell D m -> tell D fin -> tell D (mfinally m fin).
Proof.
  intros Hm Hf s a s' F R E. unfold mfinally in E. destruct (m s) as [r s1] eqn:E1. destruct (fin s1) as [[u|e] s2] eqn:E2; [|done].
  injection E as -> ->. destruct (Hm s a s1 F R E1) as (es & H1). destruct (Hf s1 u s') as (es' & H2); [apply H1..|done|].
  exists (es ++ es'). by eapply tells_by_trans.
Qed.

(** ** Steps nobody sees *)

Definition unpublished (e : event) : bool := match e with EvVersionPublished _ _ _ _ _ => false | _ => true end.

Definition mute : relation model := fun s s' =>
  files_by_id s' = files_by_id s /\ published_files s' = published_files s /\ listeners s' = listeners s /\
  exists es, log s' = log s ++ es /\ forallb unpublished es = true.

#[local] Instance mute_preorder : PreOrder mute.
Proof.
  split; [intros s; split_and!; try done; exists []; by rewrite app_nil_r|].
  intros a b c (H1 & H2 & H3 & es & H4 & H5) (K1 & K2 & K3 & es' & K4 & K5). split_and!; try congruence.
  exists (es ++ es'). rewrite forallb_app, H5, K5. split; [|done]. by rewrite K4, H4, app_assoc.
Qed.

Lemma tell_mute {A} D (m : st model A) : within mute m -> tell D m.
Proof.
  intros H s a s' F R E. specialize (H s). rewrite E in H. cbn [snd] in H. destruct H as (H1 & H2 & H3 & es & H4 & H5). exists es. split_and!.
  - destruct F as [Ft Fs]. split; rewrite ?H1, ?H2; [exact Ft|exact Fs].
  - by eapply registered_same.
  - done.
  - apply Forall_forall. intros e He. rewrite forallb_forall in H5. apply list_elem_of_In, H5 in He. by destruct e.
  - intros fid. left. unfold visible. by rewrite H1, H2.
Qed.

Ltac mute_modify := apply within_modify; intros ?; split_and!; try reflexivity; exists []; by rewrite app_nil_r.

Lemma emit_mute e : unpublished e = true -> within mute (emit e).
Proof. intros He s. split_and!; try done. exists [e]. split; [done|]. cbn [forallb]. by rewrite He. Qed.
#[local] Hint Extern 2 (within mute (emit _)) => apply emit_mute; reflexivity : within.
#[local] Hint Extern 4 (within mute (modify _)) => mute_modify : within.

Lemma record_transition_mute fid reason p c level snap g :
  within mute (record_completion_provenance_transition fid reason p c level snap g).
Proof. unfold record_completion_provenance_transition, completion_provenance_trace_is_enabled. within_auto. Qed.
#[local] Hint Resolve record_transition_mute : within.

Lemma bind_identity_mute fid pp p pi c src d : within mute (bind_published_identity fid pp p pi c src d).
Proof. unfold bind_published_identity, keep_published_identity. within_auto. Qed.
#[local] Hint Resolve bind_identity_mute : within.

Lemma record_rollback_mute file caller src ctx pp p pi c o : within mute (record_rollback file caller src ctx pp p pi c o).
Proof. unfold record_rollback, completion_provenance_trace_is_enabled. within_auto. Qed.
#[local] Hint Resolve record_rollback_mute : within.

Lemma full_effective_mute r : within mute (full_effective_file r).
Proof. unfold full_effective_file. within_auto. Qed.
#[local] Hint Resolve full_effective_mute : within.

Lemma advance_mute r : within mute (advance_version r).
Proof. unfold advance_version. within_auto. Qed.
#[local] Hint Resolve advance_mute : within.

Lemma correction_mute fid r : within mute (notify_legacy_overlay_correction_if_needed fid r).
Proof. unfold notify_legacy_overlay_correction_if_needed, notify_legacy_publication_change. within_auto. Qed.
#[local] Hint Resolve correction_mute : within.

Lemma drop_overlay_mute fid : within mute (drop_overlay fid).
Proof. unfold drop_overlay. within_auto. Qed.
#[local] Hint Resolve drop_overlay_mute : within.

(** ** Publication *)

Lemma set_prop_typed q g v g' : typed_file g -> set_prop q g v = Ok g' -> typed_file g'.
Proof.
  unfold typed_file. intros Hg E. apply Forall_forall. intros c Hc. rewrite Forall_forall in Hg.
  destruct (decide (q = c)) as [->|Hne].
  - pose proof (set_prop_outcome c g v) as Ho. rewrite (get_set_prop _ _ _ _ E).
    destruct (prop_error c v) eqn:Ep; [congruence|].
    assert (Hcc : c = P_download_progress \/ c = P_transferred_size \/ c = P_downloading_speed \/ c = P_eta)
      by (unfold counters in Hc; set_solver).
    by destruct Hcc as [->|[->|[->| ->]]]; destruct v.
  - rewrite (frame_set_prop q c _ _ _ Hne) with (2 := E); [by apply Hg|].
    unfold counters in Hc. assert (Hcc : c = P_download_progress \/ c = P_transferred_size \/ c = P_downloading_speed \/ c = P_eta) by set_solver.
    by destruct Hcc as [->|[->|[->| ->]]]; destruct q.
Qed.

Lemma copy_typed now f p : copy_for_publication now f = Ok p -> typed_file p.
Proof.
  rewrite copy_for_publication_fold. assert (H0 : typed_file (put_state (new_file now (name f) (is_dir f)) (state f))).
  { unfold typed_file, counters. repeat constructor. }
  revert H0. generalize (put_state (new_file now (name f) (is_dir f)) (state f)). generalize copied_props.
  induction l as [|q l IH]; intros g Hg; cbn [copy_props]; [by intros [= <-]|].
  unfold copy_prop. destruct (optional_prop q); [destruct (get_prop q f)|]; try (by apply IH);
    (destruct (set_prop q g _) as [g'|] eqn:E; [|done]; cbn [mbind result_bind]; apply IH; by eapply set_prop_typed).
Qed.

Lemma overlay_typed p o q : typed_file p -> apply_overlay p o = Ok q -> typed_file q.
Proof.
  intros Hp. destruct o as [o|]; cbn [apply_overlay]; [|by intros [= <-]].
  destruct (set_download_progress p _) as [p1|] eqn:E1; [|done]. cbn [mbind result_bind].
  destruct (set_transferred_size p1 _) as [p2|] eqn:E2; [|done]. cbn [mbind result_bind].
  destruct (set_downloading_speed p2 _) as [p3|] eqn:E3; [|done]. cbn [mbind result_bind]. intros E4.
  eapply (set_prop_typed P_eta), E4. eapply (set_prop_typed P_downloading_speed), E3.
  eapply (set_prop_typed P_transferred_size), E2. by eapply (set_prop_typed P_download_progress), E1.
Qed.

(** A refreshed root: its copy, well typed, under its identity. *)
Lemma refresh_outcome r i c ctx s p s' : refresh_published_file r i c ctx s = (Ok p, s') ->
  typed_file p /\ mute (upd_published_files (fun d => dset d (file_id r) p) s) s'.
Proof.
  unfold refresh_published_file. intros E.
  apply bind_ok_inv in E as (pp & s1 & [= <- <-] & E). apply bind_ok_inv in E as (pi & s1 & [= <- <-] & E).
  apply bind_ok_inv in E as (ch & s1 & [= <- <-] & E). apply bind_ok_inv in E as (dbg & s1 & E1 & E).
  assert (s1 = s) as ->.
  { unfold completion_provenance_trace_is_enabled in E1. repeat case_match; by injection E1. }
  apply bind_ok_inv in E as (now & s1 & [= <- <-] & E). apply bind_ok_inv in E as (p1 & s1 & Ec & E).
  injection Ec as Ec <-. apply bind_ok_inv in E as (o & s1 & [= <- <-] & E). apply bind_ok_inv in E as (p2 & s1 & Eo & E).
  injection Eo as Eo <-. apply bind_ok_inv in E as (u1 & s1 & E2 & E). apply bind_ok_inv in E as (u2 & s2 & [= <- <-] & E).
  apply bind_ok_inv in E as (u3 & s3 & E3 & [= <- <-]). split; [by eapply overlay_typed, Eo; eapply copy_typed|].
  pose proof (bind_identity_mute (file_id r) (dget (published_files s) (file_id r)) p2 (dget (published_ids s) (file_id r))
    (publication_identity s r i).1 (publication_identity s r i).2 dbg s) as H1. rewrite E2 in H1.
  pose proof (record_rollback_mute r c (publication_identity s r i).2 ctx (dget (published_files s) (file_id r)) p2
    (dget (published_ids s) (file_id r)) (publication_identity s r i).1 (match dget (overlays s) (file_id r) with Some _ => true | None => false end)
    (upd_published_files (fun d => dset d (file_id r) p2) s1)) as H2. rewrite E3 in H2. etrans; [|exact H2].
  destruct H1 as (A1 & A2 & A3 & es & A4 & A5). cbn [snd] in *. split_and!; cbn; try done; [by rewrite A2|]. eauto.
Qed.

Lemma refresh_tell r i c ctx : tell {[file_id r]} (refresh_published_file r i c ctx).
Proof.
  intros s p s' [Ft Fs] R E. destruct (refresh_outcome _ _ _ _ _ _ _ E) as [Hp (H1 & H2 & H3 & es & H4 & H5)]. cbn in H1, H2, H3, H4.
  exists es. split_and!; try done.
  - split; rewrite ?H1, ?H2; [|exact Fs]. by apply (Forall_dset (fun kv => typed_file kv.2)).
  - by eapply registered_same.
  - apply Forall_forall. intros e He. rewrite forallb_forall in H5. apply list_elem_of_In, H5 in He. by destruct e.
  - intros fid. unfold visible. rewrite H1, H2, dget_dset. case_decide; [subst; right; right; set_solver|by left].
Qed.

(** ** Notification *)

Definition notes (r : fileref) (gv sv : Z) (l : listener) : list event :=
  (if l_version_changed l then [EvVersionChanged (l_id l) sv (path_pair_id (ref_file r)) (file_id r)] else []) ++
  (if l_version_published l then [EvVersionPublished (l_id l) sv gv (path_pair_id (ref_file r)) (file_id r)] else []).

Lemma notify_run r gv sv s :
  notify_versioned_change r gv sv s = (Ok tt, upd_log (fun es => es ++ concat (map (notes r gv sv) (listeners s))) s).
Proof.
  unfold notify_versioned_change. rewrite (st_bind_ok (gets listeners) _ s _ s eq_refl). generalize (listeners s). intros ls.
  revert s. induction ls as [|l ls IH]; intros s; cbn [mfor map concat].
  - unfold mret, st_ret. f_equal. destruct s. unfold upd_log. cbn. by rewrite app_nil_r.
  - unfold notes at 1. destruct (l_version_changed l), (l_version_published l); cbn [when app];
      unfold mbind, st_bind, emit, modify, mret, st_ret; rewrite IH; destruct s; unfold upd_log; cbn; by rewrite <- ?app_assoc.
Qed.

Lemma notify_owes r gv sv : served_root r = true -> owes (file_id r) (notify_versioned_change r gv sv).
Proof.
  intros Hr s a s' [Ft Fs] R E. rewrite notify_run in E. injection E as <- <-.
  eexists. split; [split_and!|].
  - split; [exact Ft|exact Fs].
  - exact R.
  - reflexivity.
  - apply Forall_concat. apply Forall_forall. intros es (k & -> & _)%list_elem_of_fmap. unfold notes.
    apply Forall_app. split; case_match; repeat constructor; by exists r.
  - intros fid. by left.
  - unfold heard, registered in *. destruct who as [n|]; [|done]. destruct R as (l & Hl & Hn & Hp).
    exists sv, gv, (path_pair_id (ref_file r)). apply list_elem_of_In, in_concat. exists (notes r gv sv l). split.
    + apply in_map. by apply list_elem_of_In.
    + unfold notes. rewrite Hp, Hn. apply in_or_app. right. by left.
Qed.

(** One step of a syntax-directed argument; primitive updates go to [mute]. *)
Ltac tell_step :=
  lazymatch goal with
  | |- tell _ (gets _ ≫= _) => apply tell_gets; intros ? ?
  | |- owes _ (gets _ ≫= _) => apply owes_gets; intros ? ?
  | |- tell _ (_ ≫= _) => apply tell_bind; [|intros ?]
  | |- owes _ (_ ≫= _) => apply owes_bind; [|intros ?]
  | |- tell _ (mfor _ _) => apply tell_mfor; intros ? ?
  | |- tell _ (mfinally _ _) => apply tell_finally
  | |- tell _ (if ?b then _ else _) => destruct b
  | |- tell _ (match ?x with _ => _ end) => destruct x eqn:?
  | |- owes _ (notify_versioned_change _ _ _) => apply notify_owes
  | |- tell _ (refresh_published_file _ _ _ _) => apply refresh_tell
  end.
Ltac tell_auto := repeat first [solve [apply tell_mute; within_auto] | tell_step].

Lemma republish_tell c ctx fid : tell ∅ (republish c ctx fid).
Proof.
  unfold republish. apply tell_gets. intros s0 F. destruct (dget (files_by_id s0) fid) as [r|] eqn:E; [|tell_auto].
  apply tell_owes with (file_id r). tell_auto. by eapply served_at.
Qed.

Lemma clear_tell ctx p : tell ∅ (clear_active_progress_overlays ctx p).
Proof. unfold clear_active_progress_overlays. tell_auto. apply republish_tell. Qed.

Lemma clear_except_tell X : tell ∅ (clear_active_progress_overlays_except X).
Proof. unfold clear_active_progress_overlays_except. tell_auto. apply republish_tell. Qed.

Lemma restore_tell new ids : tell ∅ (restore_active_progress_overlays new ids).
Proof. unfold restore_active_progress_overlays. tell_auto. apply republish_tell. Qed.

Lemma clear_matches_tell fid i : tell ∅ (clear_active_progress_overlay_if_job_identity_matches fid i).
Proof. unfold clear_active_progress_overlay_if_job_identity_matches. tell_auto. apply republish_tell. Qed.

Lemma replace_tell new X : tell ∅ (replace_active_progress_overlays new X).
Proof. unfold replace_active_progress_overlays. tell_auto. apply republish_tell. Qed.

Lemma publish_tell new ids m e : tell ∅ (publish_active_lftp_root_counters new ids m e).
Proof.
  unfold publish_active_lftp_root_counters. tell_auto; try apply clear_tell; try apply republish_tell. apply clear_matches_tell.
Qed.

Lemma settle_tell statuses retire replaced fid o : tell ∅ (settle_overlay statuses retire replaced fid o).
Proof.
  unfold settle_overlay. apply tell_gets. intros s0 F. destruct (bool_decide (fid ∈ retire)); [tell_auto|].
  destruct (dget statuses fid) as [j|]; [|tell_auto]. destruct (dget (files_by_id s0) fid) as [r|] eqn:E; [|tell_auto].
  destruct (_ && _); [tell_auto; apply clear_matches_tell|]. cbv zeta. destruct (bool_decide (_ = o)); [tell_auto|].
  apply tell_owes with (file_id r). tell_auto. by eapply served_at.
Qed.

(** ** Adding, removing, updating *)

Lemma served_index r : served_root r = true -> tell {[file_id r]} (index_file r).
Proof.
  intros Hr s a s' [Ft Fs] R E. injection E as <- <-. exists []. split_and!; cbn; try done.
  - split; [exact Ft|]. by apply (Forall_dset (fun kv => served_root kv.2 = true)).
  - by rewrite app_nil_r.
  - intros fid. unfold visible. cbn. rewrite dget_dset. case_decide; [subst; right; right; set_solver|by left].
Qed.

Lemma add_tell r i : served_root r = true -> tell ∅ (add_file r i).
Proof.
  intros Hr. unfold add_file. apply tell_bind; [apply clear_tell|]. intros _. apply tell_gets. intros s0 _.
  destruct (dhas (files_by_id s0) (file_id r)); [tell_auto|]. apply tell_owes with (file_id r).
  apply owes_bind; [by apply served_index|]. intros _. tell_auto. done.
Qed.

(** the steps that take one root away *)
Lemma unindex_tell r fid : tell {[fid]} (unindex_file r fid).
Proof.
  unfold unindex_file. apply tell_bind; [|intros _; tell_auto].
  intros s a s' [Ft Fs] R E. injection E as <- <-. exists []. split_and!; cbn; try done.
  - split; [exact Ft|]. by apply (values_dpop (fun r => served_root r = true)).
  - by rewrite app_nil_r.
  - intros f. unfold visible. cbn. destruct (decide (fid = f)) as [->|Hne]; [right; right; set_solver|]. left. by rewrite dget_dpop_ne.
Qed.

Lemma unpublish_tell fid : tell {[fid]} (modify (upd_published_files (fun d => dpop d fid))).
Proof.
  intros s a s' [Ft Fs] R E. injection E as <- <-. exists []. split_and!; cbn; try done.
  - split; [|exact Fs]. by apply (values_dpop typed_file).
  - by rewrite app_nil_r.
  - intros f. unfold visible. cbn. destruct (decide (fid = f)) as [->|Hne]; [right; right; set_solver|]. left. by rewrite dget_dpop_ne.
Qed.

(** from a state in which the indices agree *)
Definition tell_in {A} (D : gset string) (m : st model A) : Prop := forall s a s',
  roots_ok s -> fine s -> registered s -> m s = (Ok a, s') -> tells D s s'.

Lemma tell_in_tell {A} D (m : st model A) : tell D m -> tell_in D m.
Proof. intros H s a s' _. apply H. Qed.

Lemma tell_in_bind {A B} D (m : st model A) (k : A -> st model B) :
  tell_in D m -> within (keeps roots_ok) m -> (forall a, tell_in D (k a)) -> tell_in D (m ≫= k).
Proof.
  intros Hm Hr Hk s b s' Ro F R (a & s1 & E1 & E2)%bind_ok_inv. destruct (Hm s a s1 Ro F R E1) as (es & H1).
  specialize (Hr s Ro). rewrite E1 in Hr. destruct (Hk a s1 b s' Hr) as (es' & H2); [apply H1..|done|].
  exists (es ++ es'). by eapply tells_by_trans.
Qed.

Lemma tell_in_gets {A B} D (f : model -> A) (k : A -> st model B) :
  (forall s, roots_ok s -> fine s -> tell_in D (k (f s))) -> tell_in D (gets f ≫= k).
Proof. intros H s b s' Ro F R E. by apply (H s Ro F s b s'). Qed.

Definition owes_in {A} (fid : string) (m : st model A) : Prop := forall s a s',
  roots_ok s -> fine s -> registered s -> m s = (Ok a, s') -> exists es, tells_by {[fid]} es s s' /\ heard es fid.

Lemma tell_in_owes {A} fid (m : st model A) : owes_in fid m -> tell_in ∅ m.
Proof. intros H s a s' Ro F R E. destruct (H s a s' Ro F R E) as (es & T & He). exists es. by eapply owed_heard. Qed.

Lemma owes_in_bind {A B} fid (m : st model A) (k : A -> st model B) :
  tell_in {[fid]} m -> within (keeps roots_ok) m -> (forall a, owes_in fid (k a)) -> owes_in fid (m ≫= k).
Proof.
  intros Hm Hr Hk s b s' Ro F R (a & s1 & E1 & E2)%bind_ok_inv. destruct (Hm s a s1 Ro F R E1) as (es & H1).
  specialize (Hr s Ro). rewrite E1 in Hr. destruct (Hk a s1 b s' Hr) as (es' & H2 & He); [apply H1..|done|].
  exists (es ++ es'). split; [by eapply tells_by_trans|]. apply heard_app. auto.
Qed.

Lemma remove_tell k : tell_in ∅ (remove_file k).
Proof.
  unfold remove_file. apply tell_in_bind; [apply tell_in_tell, clear_tell|auto with within|]. intros _ s b s' Ro F R E.
  apply bind_ok_inv in E as (rid & s1 & [= <- <-] & E). apply bind_ok_inv in E as (fid & s1 & E1 & E). injection E1 as _ <-.
  apply bind_ok_inv in E as (r & s1 & E1 & E). unfold get_ref in E1. apply bind_ok_inv in E1 as (o & s2 & [= <- <-] & E1).
  destruct (dget (files_by_id s) fid) as [r'|] eqn:Er; [|done]. injection E1 as -> <-.
  pose proof (ix_keys s (ro_index s Ro) _ _ Er) as Hid. pose proof (served_at _ _ _ F Er) as Hr.
  revert E. apply tell_owes with fid; [|done..]. subst fid.
  apply owes_gets. intros s2 _. apply owes_bind; [destruct (dhas _ _); cbn [negb when]; tell_auto|]. intros _.
  apply owes_bind; [tell_auto|]. intros legacy. apply owes_bind; [apply unindex_tell|]. intros _.
  apply owes_bind; [apply unpublish_tell|]. intros _. tell_auto. done.
Qed.

Lemma served_fallback s r r' : with_fallback s r = Ok r' -> served_root r = true -> served_root r' = true /\ file_id r' = file_id r.
Proof.
  intros E Hr. pose proof (with_fallback_same _ _ _ E) as (_ & Hid & Hp). split; [|done].
  unfold served_root in *. rewrite Hp. apply andb_true_iff in Hr as [[Hp1 Hn]%andb_true_iff Hpair]. rewrite Hp1.
  assert (Hnp : name (ref_file r') = name (ref_file r) /\ path_pair_id (ref_file r') = path_pair_id (ref_file r)).
  { rewrite Hp1 in Hp. unfold with_fallback in E. repeat case_match; try (injection E as <-; done).
    destruct (set_transferred_size _ _) as [f'|] eqn:Ef; [|done]. injection E as <-. cbn [ref_file].
    pose proof (frame_set_prop P_transferred_size P_path_pair_id _ _ _ ltac:(done) eq_refl Ef) as Hpp.
    apply (set_prop_frame P_transferred_size) in Ef as (Hn' & _). split; [done|]. cbn [get_prop] in Hpp. unfold py_opt_str in Hpp.
    by destruct (path_pair_id f'), (path_pair_id (ref_file r)); simplify_eq. }
  destruct Hnp as [-> ->]. by rewrite Hn.
Qed.

Lemma write_object_tell r : served_root r = true -> tell {[file_id r]} (write_object r).
Proof.
  intros Hr s a s' [Ft Fs] R E. injection E as <- <-. exists []. split_and!; cbn; try done.
  - split; [exact Ft|]. cbn. case_match; [|done]. case_match; [|done]. by apply (Forall_dset (fun kv => served_root kv.2 = true)).
  - by rewrite app_nil_r.
  - intros fid. unfold visible. cbn. case_match; [|by left]. case_match; [|by left]. rewrite dget_dset.
    case_decide; [subst; right; right; set_solver|by left].
Qed.

Lemma put_root_tell r : served_root r = true -> tell {[file_id r]} (modify (upd_files_by_id (fun d => dset d (file_id r) r))).
Proof.
  intros Hr s a s' [Ft Fs] R E. injection E as <- <-. exists []. split_and!; cbn; try done.
  - split; [exact Ft|]. by apply (Forall_dset (fun kv => served_root kv.2 = true)).
  - by rewrite app_nil_r.
  - intros fid. unfold visible. cbn. rewrite dget_dset. case_decide; [subst; right; right; set_solver|by left].
Qed.

Lemma update_tell r0 i ctx : served_root r0 = true -> tell_in ∅ (update_file r0 i ctx).
Proof.
  intros Hr0. unfold update_file. apply tell_in_gets. intros s0 _ _ s b s' Ro F R E.
  apply bind_ok_inv in E as (r & s1 & E1 & E). injection E1 as Er <-.
  destruct (served_fallback _ _ _ Er Hr0) as [Hr _].
  assert (Hp : proper_root r = true) by (unfold served_root in Hr; by apply andb_true_iff in Hr as [[? _]%andb_true_iff _]).
  revert s b s' Ro F R E. apply (tell_in_owes (file_id r)).
  apply owes_in_bind; [apply tell_in_tell, write_object_tell, Hr|by apply write_object_ok|]. intros _.
  apply owes_in_bind; [apply tell_in_tell; unfold retire_active_projection_for_candidate; tell_auto|auto with within|]. intros _.
  apply owes_in_bind; [apply tell_in_tell, tell_weaken, clear_tell|auto with within|]. intros _ s b s' Ro F R E.
  apply bind_ok_inv in E as (o & s1 & [= <- <-] & E). destruct (dget _ _) as [old|] eqn:Eo; [|done].
  pose proof (ix_keys s (ro_index s Ro) _ _ Eo) as Hid. revert E.
  match goal with |- ?m s = _ -> _ => enough (Hm : owes (file_id r) m) by (intros E; by eapply Hm) end.
  apply owes_gets. intros s2 _. apply owes_bind; [destruct (dhas _ _); cbn [negb when]; tell_auto; rewrite <- Hid; apply refresh_tell|].
  intros _. apply owes_bind; [tell_auto|]. intros legacy. apply owes_bind; [by apply put_root_tell|]. intros _. tell_auto. done.
Qed.

(** ** Transactions *)

Ltac keep_auto := within_auto; try (apply keeps_roots; frame_modify).

Lemma tell_in_mfor {A} D (l : list A) (f : A -> st model unit) :
  (forall x, x ∈ l -> tell_in D (f x) /\ within (keeps roots_ok) (f x)) -> tell_in D (mfor l f).
Proof.
  induction l as [|x l IH]; intros H.
  - intros s a s' _ F R [= <- <-]. exists []. by apply tells_refl.
  - cbn [mfor]. apply tell_in_bind; [apply H; left..|]. intros _. apply IH. intros y Hy. apply H. by right.
Qed.

Lemma tell_in_finally {A} D (m : st model A) fin :
  tell_in D m -> within (keeps roots_ok) m -> tell_in D fin -> tell_in D (mfinally m fin).
Proof.
  intros Hm Hr Hf s a s' Ro F R E. unfold mfinally in E. specialize (Hr s Ro). destruct (m s) as [r s1] eqn:E1.
  destruct (fin s1) as [[u|e] s2] eqn:E2; [|done]. injection E as -> ->. destruct (Hm s a s1 Ro F R E1) as (es & H1).
  destruct (Hf s1 u s' Hr) as (es' & H2); [apply H1..|done|]. exists (es ++ es'). by eapply tells_by_trans.
Qed.

Lemma typed_py_eq q f g : q ∈ counters -> typed_file f -> typed_file g -> py_eq (get_prop q f) (get_prop q g) = true ->
  get_prop q f = get_prop q g.
Proof.
  unfold typed_file. rewrite !Forall_forall. intros Hq Hf Hg. specialize (Hf q Hq). specialize (Hg q Hq).
  destruct (get_prop q f), (get_prop q g); try done. cbn [py_eq]. by intros ->%Z.eqb_eq.
Qed.

Lemma equal_progress f g : typed_file f -> typed_file g -> mf_eqb f g = true -> progress_fields f = progress_fields g.
Proof.
  intros Hf Hg E. destruct f as [fl cs]. cbn [mf_eqb] in E. apply andb_true_iff in E as [E _].
  unfold comparison_attributes in E. cbn [py_eq] in E.
  repeat match goal with H : _ && _ = true |- _ => apply andb_true_iff in H as [? ?] end.
  unfold progress_fields.
  f_equal; [|f_equal; [|f_equal; [|f_equal]]]; f_equal;
    [apply (typed_py_eq P_download_progress)|apply (typed_py_eq P_transferred_size)
    |apply (typed_py_eq P_downloading_speed)|apply (typed_py_eq P_eta)]; try done; unfold counters; set_solver.
Qed.

Lemma publish_retired_tell fid : tell_in ∅ (publish_retired fid).
Proof.
  intros s b s' Ro F R E. unfold publish_retired in E. apply bind_ok_inv in E as (o & s1 & [= <- <-] & E).
  destruct (dget (files_by_id s) fid) as [r|] eqn:Er; [|injection E as <- <-; exists []; by apply tells_refl].
  pose proof (ix_keys s (ro_index s Ro) _ _ Er) as Hid. pose proof (served_at _ _ _ F Er) as Hr.
  apply bind_ok_inv in E as (pp & s1 & [= <- <-] & E). apply bind_ok_inv in E as (new & s1 & E1 & E).
  destruct (refresh_tell _ _ _ _ _ _ _ F R E1) as (es & T).
  destruct (dget (published_files s) fid) as [pp|] eqn:Epp; [destruct (mf_eqb pp new) eqn:Eq|].
  - injection E as <- <-. destruct (refresh_outcome _ _ _ _ _ _ _ E1) as [Hnew (H1 & H2 & _)]. cbn in H1, H2.
    exists es. destruct T as (F' & R' & L & Ev & V). split_and!; try done. intros f. destruct (V f) as [?|[?|Hf]]; auto.
    apply elem_of_singleton in Hf as ->. left. unfold visible. rewrite H1, H2, Hid, dget_dset_eq, Epp. f_equal.
    cbn. f_equal. symmetry. apply equal_progress; [exact (typed_at s fid pp F Epp)|done|done].
  - revert E. match goal with |- ?m s1 = _ -> _ => enough (Hm : owes (file_id r) m) end.
    { intros E. destruct (Hm s1 b s') as (es' & T' & He); [apply T..|done|]. exists (es ++ es').
      eapply owed_heard; [by eapply tells_by_trans|]. apply heard_app. auto. }
    tell_auto. done.
  - revert E. match goal with |- ?m s1 = _ -> _ => enough (Hm : owes (file_id r) m) end.
    { intros E. destruct (Hm s1 b s') as (es' & T' & He); [apply T..|done|]. exists (es ++ es').
      eapply owed_heard; [by eapply tells_by_trans|]. apply heard_app. auto. }
    tell_auto. done.
Qed.

Lemma retained_tell {A} (m : st model A) X : tell_in ∅ m -> within (keeps roots_ok) m ->
  tell_in ∅ (apply_with_active_progress_retained m X).
Proof.
  intros Hm Hr. unfold apply_with_active_progress_retained. apply tell_in_gets. intros s0 _ _.
  apply tell_in_bind; [apply tell_in_tell; tell_auto|keep_auto|]. intros before.
  apply tell_in_bind; [apply tell_in_tell; unfold begin_retirement; tell_auto|keep_auto|]. intros _.
  apply tell_in_bind; [apply tell_in_tell; tell_auto|keep_auto|]. intros _.
  apply tell_in_finally; [done..|].
  apply tell_in_bind; [apply tell_in_tell; tell_auto|keep_auto|]. intros _.
  apply tell_in_bind; [|keep_auto|].
  { apply tell_in_mfor. intros fid _. split; [apply publish_retired_tell|]. unfold publish_retired. within_auto. }
  intros _. apply tell_in_tell. unfold remember_correction. tell_auto.
Qed.

Lemma replacement_tell {A} (m : st model A) st e : tell_in ∅ m -> within (keeps roots_ok) m ->
  tell_in ∅ (apply_authoritative_root_replacement m st e).
Proof.
  intros Hm Hr. unfold apply_authoritative_root_replacement.
  do 3 (apply tell_in_gets; intros ? _ _). apply tell_in_bind; [apply tell_in_tell; tell_auto|keep_auto|]. intros _.
  assert (Hret : within (keeps roots_ok) (apply_with_active_progress_retained m (retire_set s st e))) by by apply retained_ok.
  apply tell_in_bind.
  - apply tell_in_finally; [| |apply tell_in_tell; tell_auto].
    + apply tell_in_bind; [apply tell_in_tell; tell_auto|keep_auto|]. intros _.
      apply tell_in_finally; [by apply retained_tell|done|apply tell_in_tell; tell_auto].
    + keep_auto.
  - keep_auto.
  - intros a. apply tell_in_gets. intros s9 _ _. apply tell_in_tell. tell_auto. apply settle_tell.
Qed.

(** ** Histories *)

Fixpoint op_served (o : op) : bool :=
  match o with
  | OAdd r _ | OUpdate r _ _ => served_root r
  | OInsertCandidate _ => false
  | ORemoveListener l => negb (bool_decide (who = Some (l_id l)))
  | ORetained l _ | OReplacement l _ _ => forallb op_served l
  | _ => true
  end.

Lemma op_served_proper o : op_served o = true -> op_proper o = true.
Proof.
  assert (Hr : forall r, served_root r = true -> proper_root r = true)
    by (intros r Hr; unfold served_root in Hr; by apply andb_true_iff in Hr as [[? _]%andb_true_iff _]).
  induction o as [o IH] using op_ind'. destruct o; cbn [op_served op_proper]; auto; try done.
  all: rewrite Forall_forall in IH; rewrite !forallb_forall; intros H x Hx; apply IH; [by apply list_elem_of_In|by apply H].
Qed.

Lemma add_listener_tell l : tell ∅ (add_listener l).
Proof.
  intros s a s' F R E. unfold add_listener, when in E. apply bind_ok_inv in E as (o & s1 & [= <- <-] & E).
  destruct (existsb _ _); injection E as <- <-; exists []; [by apply tells_refl|].
  split_and!; cbn; try done; [by split; apply F| |by rewrite app_nil_r|].
  { unfold registered in *. destruct who; [|done]. destruct R as (k & Hk & Hn). exists k. split; [apply elem_of_app; by left|done]. }
  intros fid. by left.
Qed.

Lemma remove_listener_tell l : who <> Some (l_id l) -> tell ∅ (remove_listener l).
Proof.
  intros Hl s a s' F R E. injection E as <- <-. exists [].
  split_and!; cbn; try done; [by split; apply F| |by rewrite app_nil_r|intros fid; by left].
  unfold registered in *. destruct who as [n|]; [|done]. destruct R as (k & Hk & Hn & Hp).
  exists k. split; [|done]. cbn. revert Hk. induction (listeners s) as [|x ls IH]; cbn [remove_listener_id]; [done|].
  intros [->|Hk]%elem_of_cons.
  - destruct (Nat.eqb_spec (l_id l) (l_id x)); [congruence|left].
  - destruct (Nat.eqb (l_id l) (l_id x)); [done|]. right. by apply IH.
Qed.

Lemma run_op_tell o : op_served o = true -> tell_in ∅ (run_op o).
Proof.
  induction o as [o IH] using op_ind'. intros Ho.
  assert (Hbody : forall l, Forall (fun o => op_served o = true -> tell_in ∅ (run_op o)) l -> forallb op_served l = true ->
    tell_in ∅ (run_body l) /\ within (keeps roots_ok) (run_body l)).
  { intros l Hl Hs. rewrite Forall_forall in Hl. rewrite forallb_forall in Hs.
    assert (Hk : forall x, x ∈ l -> within (keeps roots_ok) (run_op x))
      by (intros x Hx; apply run_op_roots, op_served_proper, Hs; by apply list_elem_of_In).
    split; [|by apply within_mfor; [exact _|]]. apply tell_in_mfor. intros x Hx. split; [|by apply Hk].
    apply Hl; [done|]. apply Hs. by apply list_elem_of_In. }
  destruct o; cbn [op_served] in Ho; try discriminate Ho;
    try (rewrite run_op_retained; apply retained_tell; by apply Hbody);
    try (rewrite run_op_replacement; apply replacement_tell; by apply Hbody);
    cbn [run_op]; try (by apply remove_tell); try (by apply update_tell); apply tell_in_tell;
    eauto using add_tell, clear_tell, add_listener_tell;
    try (apply tell_bind; [|intros ?; tell_auto]);
    eauto using clear_except_tell, restore_tell, clear_matches_tell, replace_tell, publish_tell;
    try (apply remove_listener_tell; eapply bool_decide_eq_false_1; by apply negb_true_iff);
    unfold clear_published_file_job_identity_if_matches, clear_published_file_job_identity_if_replaced,
      set_downloaded_timestamp_overlay_generation, set_tree_file_count,
      set_version_publication_callback, set_completion_provenance_diagnostics, notify_summary_changed; tell_auto.
Qed.
End announce.
