(* ===== verification/ModelStreamFacts.v ===== *)
(** * A subscribed client is never silently stale

    The stream of a scope composes three parts: the model announces every
    change of a root, the listener keeps the announced identities or a request
    to start over, and an event carries what the model holds for them.  A
    client applies an event to its copy of the scope, or reads the scope again
    when told to. *)

From S2P Require Import Prelude PyDict PyStr Json ModelFile ModelFileFacts ModelState Model ModelIndex ModelPages ModelApi.
From S2P Require Import ControllerPersistFacts ModelAnnounce ModelPagesFacts.

(** ** The queue of a listener *)

Definition pending (l : ScopedModelListener) (fid : string) : Prop :=
  is_Some (sl_reset_version l) \/ fid ∈ dkeys (sl_changes l).

(** identities a listener may hold *)
Record listener_ok (P : string -> Prop) (l : ScopedModelListener) : Prop := {
  lo_open : sl_closed l = false;
  lo_ids : Forall P (dkeys (sl_changes l));
  lo_nodup : dwf (sl_changes l);
  lo_bound : Z.of_nat (length (sl_changes l)) <= _MAX_IDENTITIES;
  lo_reset : is_Some (sl_reset_version l) -> sl_changes l = [];
  lo_wake : sl_available l = false -> sl_reset_version l = None /\ sl_changes l = [] }.

Lemma new_listener_ok P scope : listener_ok P (new_scoped_listener scope).
Proof. split; try done; constructor. Qed.

Lemma dpop_wf {V} (d : dict string V) k : dwf d -> dwf (dpop d k) /\ k ∉ dkeys (dpop d k) /\
  (forall k', k' ∈ dkeys (dpop d k) <-> k' <> k /\ k' ∈ dkeys d).
Proof.
  unfold dwf, dkeys. induction d as [|[k1 v1] d IH]; cbn [dpop map fst]; intros Hnd.
  { split_and!; [done|apply not_elem_of_nil|]. intros k'. split; [by intros ?%elem_of_nil|by intros [_ ?%elem_of_nil]]. }
  apply NoDup_cons in Hnd as [Hk1 Hnd]. specialize (IH Hnd) as (I1 & I2 & I3). case_decide as E; [subst k1|].
  - split_and!; [done|done|]. intros k'. rewrite elem_of_cons. split; [|naive_solver]. intros Hk'. split; [by intros ->|by right].
  - cbn [map fst]. split_and!.
    + apply NoDup_cons. split; [|done]. rewrite I3. tauto.
    + rewrite not_elem_of_cons. done.
    + intros k'. rewrite !elem_of_cons, I3. split; [|naive_solver]. intros [->|[? ?]]; [|tauto]. split; [congruence|by left].
Qed.

Lemma queue_identity_ok P v g fid l : listener_ok P l -> P fid ->
  let l' := queue_identity v g fid l in
  dwf (sl_changes l') /\ Forall P (dkeys (sl_changes l')) /\ sl_closed l' = false /\
  (forall f, f ∈ dkeys (sl_changes l') <-> f = fid \/ f ∈ dkeys (sl_changes l)).
Proof.
  intros [Ho Hi Hn Hb Hr Hw] HP. cbn. destruct (dpop_wf (sl_changes l) fid Hn) as (W1 & W2 & W3).
  assert (Hk : forall f, f ∈ dkeys (dset (dpop (sl_changes l) fid) fid v) <-> f = fid \/ f ∈ dkeys (sl_changes l)).
  { intros f. rewrite elem_of_dkeys_dset, W3. destruct (decide (f = fid)); tauto. }
  split_and!; [by apply dwf_dset| |done|exact Hk]. rewrite Forall_forall in Hi |- *. intros f [->|Hf]%Hk; auto.
Qed.

Lemma published_ok P v g sc fid l : listener_ok P l -> (_model_scope_id sc = sl_scope_id l -> P fid) ->
  let l' := model_version_published v g sc fid l in
  listener_ok P l' /\ sl_scope_id l' = sl_scope_id l /\ (forall f, pending l f -> pending l' f) /\
  (_model_scope_id sc = sl_scope_id l -> pending l' fid).
Proof.
  intros Hl HP. cbv zeta. unfold model_version_published. destruct (String.eqb_spec (_model_scope_id sc) (sl_scope_id l)) as [Hsc|Hsc];
    cbn [negb]; [|by split_and!].
  specialize (HP Hsc). pose proof Hl as [Ho Hi Hn Hb Hr Hw]. rewrite Ho.
  destruct (sl_reset_version l) as [v0|] eqn:Er.
  { refine (conj _ (conj eq_refl (conj (fun _ _ => or_introl (mk_is_Some _ _ eq_refl)) (fun _ => or_introl (mk_is_Some _ _ eq_refl))))). split; cbn; try done.
    - intros _. apply Hr. by eexists.
    - intros Ha. by destruct (Hw Ha). }
  pose proof (queue_identity_ok P v g fid l Hl HP) as (Q1 & Q2 & Q3 & Q4). unfold bound_queue.
  destruct (Z.ltb_spec _MAX_IDENTITIES (Z.of_nat (length (sl_changes (queue_identity v g fid l))))) as [Hlt|Hge]; cbn [orb].
  { refine (conj _ (conj eq_refl (conj (fun _ _ => or_introl (mk_is_Some _ _ eq_refl)) (fun _ => or_introl (mk_is_Some _ _ eq_refl))))).
    split; cbn; try done; try constructor; rewrite ?Q3; done. }
  destruct (_ <? _).
  { refine (conj _ (conj eq_refl (conj (fun _ _ => or_introl (mk_is_Some _ _ eq_refl)) (fun _ => or_introl (mk_is_Some _ _ eq_refl))))). split; cbn; try done; constructor. }
  split_and!; try done.
  - split; try done. cbn. rewrite Er. by intros [? ?].
  - intros f [[? Hf]|Hf]; [congruence|]. right. apply Q4. by right.
  - intros _. right. apply Q4. by left.
Qed.

(** ** Identities of roots *)

Definition root_identity (scope fid : string) : Prop :=
  exists nm, plain_name nm = true /\ (expected_path_pair_id scope = None -> startswith nm "[" = false) /\
    fid = build_file_id nm (expected_path_pair_id scope).

Record plain_facts (nm : string) : Prop := {
  pf_nonempty : nm <> ""; pf_dot : nm <> "."; pf_dots : nm <> ".."; pf_slash : slash ∉ chars nm;
  pf_bracket : startswith nm (str ["["%char; quote]) = false }.

Lemma plain_name_facts nm : plain_name nm = true -> plain_facts nm.
Proof.
  unfold plain_name. rewrite !andb_true_iff, !negb_true_iff, !String.eqb_neq. intros ((((H1 & H2) & H3) & H4) & H5). split; try done.
  intros Hin. rewrite <- not_true_iff_false in H4. apply H4. apply existsb_exists. exists slash. split; [by apply list_elem_of_In|].
  apply Ascii.eqb_refl.
Qed.

Lemma split_single nm : slash ∉ chars nm -> split slash nm = [nm].
Proof.
  intros H. unfold split. assert (E : forall l cur, slash ∉ l -> split_chars slash cur l = [rev cur ++ l]).
  { induction l as [|c l IH]; intros cur Hl; cbn [split_chars]; [by rewrite app_nil_r|]. apply not_elem_of_cons in Hl as [Hc Hl].
    destruct (Ascii.eqb_spec c slash); [congruence|]. rewrite IH by done. cbn [rev]. by rewrite <- app_assoc. }
  rewrite E by done. cbn [rev app map]. by rewrite str_chars.
Qed.

Lemma no_slash_prefix nm p : slash ∉ chars nm -> slash ∈ chars p -> startswith nm p = false.
Proof.
  intros Hn Hp. destruct (startswith nm p) eqn:E; [|done]. exfalso. apply Hn. unfold startswith in E.
  revert E Hp. generalize (chars nm). clear Hn. induction (chars p) as [|c l IH]; intros k E Hp; [by apply elem_of_nil in Hp|].
  destruct k as [|d k]; [done|]. cbn [prefix_of] in E. apply andb_true_iff in E as [->%Ascii.eqb_eq E].
  apply elem_of_cons in Hp as [->|Hp]; [by left|]. right. by apply IH.
Qed.

Lemma normpath_plain nm : plain_facts nm -> normpath nm = nm.
Proof.
  intros [H1 H2 H3 H4 _]. unfold normpath. rewrite (proj2 (String.eqb_neq _ _)) by done.
  rewrite (no_slash_prefix nm "/") by (done || by apply (bool_decide_unpack _)). cbn [negb]. rewrite split_single by done. cbn [fold_left].
  unfold normal_step. rewrite (proj2 (String.eqb_neq nm "") H1), (proj2 (String.eqb_neq nm ".") H2), (proj2 (String.eqb_neq nm "..") H3). cbn [orb negb rev app join_path].
  change ("" +:+ nm) with nm. by rewrite (proj2 (String.eqb_neq nm "") H1).
Qed.

Lemma scoped_path_root scope nm : plain_facts nm ->
  __scoped_file_path scope (build_file_id nm (expected_path_pair_id scope)) = Ok nm.
Proof.
  intros Hp. pose proof Hp as [H1 H2 H3 H4 _]. unfold __scoped_file_path.
  assert (E : identity_path scope (build_file_id nm (expected_path_pair_id scope)) = Ok nm).
  { unfold identity_path, expected_path_pair_id. destruct (String.eqb scope MODEL_LEGACY_SCOPE_ID); [done|].
    rewrite loads_scoped. by rewrite String.eqb_refl. }
  rewrite E. cbn [mbind result_bind]. rewrite (proj2 (String.eqb_neq nm "")) by done.
  rewrite (no_slash_prefix nm "/") by (done || by apply (bool_decide_unpack _)). cbn [orb]. rewrite normpath_plain by done.
  rewrite !(proj2 (String.eqb_neq nm _)) by done. rewrite (no_slash_prefix nm "../") by (done || by apply (bool_decide_unpack _)). cbn [orb].
  by rewrite String.eqb_refl.
Qed.

Lemma root_id_of_root scope fid : root_identity scope fid -> root_id_of scope fid = Some fid.
Proof.
  intros (nm & Hp & _ & ->). pose proof (plain_name_facts _ Hp) as Hf. unfold root_id_of. rewrite scoped_path_root by done.
  rewrite split_single by apply Hf. done.
Qed.

Lemma served_facts r : served_root r = true -> proper_root r = true /\ plain_name (name (ref_file r)) = true /\
  ref_parents r = [] /\ path_pair_id (ref_file r) <> Some MODEL_LEGACY_SCOPE_ID.
Proof.
  unfold served_root. rewrite !andb_true_iff, negb_true_iff. intros [[H1 H2] H3%bool_decide_eq_false_1]. split_and!; try done.
  unfold proper_root in H1. by destruct (ref_parents r).
Qed.

Lemma served_id r : served_root r = true -> file_id r = build_file_id (name (ref_file r)) (path_pair_id (ref_file r)).
Proof. intros (_ & _ & Hp & _)%served_facts. unfold file_id, full_path. by rewrite Hp. Qed.

Lemma served_identity scope r : served_root r = true -> path_pair_id (ref_file r) = expected_path_pair_id scope ->
  root_identity scope (file_id r).
Proof.
  intros Hr Hs. rewrite served_id by done. destruct (served_facts r Hr) as (H1 & H2 & H3 & H4). exists (name (ref_file r)).
  split_and!; [done| |by rewrite Hs]. intros Hn. unfold proper_root in H1. rewrite H3, Hs, Hn in H1. by apply negb_true_iff in H1.
Qed.

Lemma scope_of_pair sc scope : sc <> Some MODEL_LEGACY_SCOPE_ID -> _model_scope_id sc = scope -> sc = expected_path_pair_id scope.
Proof.
  intros Hsc <-. unfold expected_path_pair_id. destruct sc as [p|]; cbn; [|done].
  destruct (String.eqb_spec p MODEL_LEGACY_SCOPE_ID); congruence.
Qed.

(** An identity names the pair of its root. *)
Lemma identity_pair scope r : served_root r = true -> root_identity scope (file_id r) ->
  path_pair_id (ref_file r) = expected_path_pair_id scope.
Proof.
  intros Hr (nm & Hp & Hb & E). rewrite served_id in E by done. destruct (served_facts r Hr) as (H1 & H2 & H3 & _).
  unfold proper_root in H1. rewrite H3 in H1.
  destruct (path_pair_id (ref_file r)) as [p|], (expected_path_pair_id scope) as [p'|].
  - by apply build_scoped_id_inj in E as [_ ->].
  - cbn [build_file_id] in E. specialize (Hb eq_refl). by rewrite <- E in Hb.
  - cbn [build_file_id] in E. rewrite E in H1. done.
  - done.
Qed.

(** ** What the model shows of a scope *)

Section stream.
Context `{Timestamps}.

Definition shown (s : model) (scope fid : string) : option page_record :=
  match dget (files_by_id s) fid with
  | Some r => if in_scope scope r then Some (_model_file_page_record_with_overlay s r) else None
  | None => None
  end.

Lemma shown_visible s s' scope fid : roots_ok s -> roots_ok s' -> visible s' fid = visible s fid -> shown s' scope fid = shown s scope fid.
Proof.
  intros Hs Hs' [= E1 E2]. unfold shown. rewrite E1. destruct (dget (files_by_id s) fid) as [r|] eqn:Er; [|done].
  pose proof (ix_keys s (ro_index s Hs) _ _ Er) as Hid. destruct (in_scope scope r); [|done]. f_equal.
  unfold _model_file_page_record_with_overlay, _model_file_progress_presentation. rewrite Hid. f_equal.
  destruct (dget (published_files s') fid), (dget (published_files s) fid); cbn [fmap option_fmap option_map] in E2; congruence.
Qed.

Lemma shown_identity s scope fid rec : roots_ok s -> fine s -> shown s scope fid = Some rec -> root_identity scope fid.
Proof.
  intros Hs F. unfold shown. destruct (dget (files_by_id s) fid) as [r|] eqn:Er; [|done].
  destruct (in_scope scope r) eqn:Ei; [|done]. intros _. apply bool_decide_eq_true in Ei.
  rewrite <- (ix_keys s (ro_index s Hs) _ _ Er). apply served_identity; [by eapply served_at|done].
Qed.

Lemma shown_key s scope fid rec : roots_ok s -> shown s scope fid = Some rec -> dget rec "file_id" = Some (PyStr fid).
Proof.
  intros Hs. unfold shown. destruct (dget (files_by_id s) fid) as [r|] eqn:Er; [|done].
  destruct (in_scope scope r); [|done]. intros [= <-]. rewrite <- (ix_keys s (ro_index s Hs) _ _ Er).
  unfold _model_file_page_record_with_overlay, _model_file_progress_presentation. by case_match.
Qed.

(** ** An event carries what is shown *)

Lemma resolve_present s fid r : dget (files_by_id s) fid = Some r -> (get_file fid s).1 = Ok r.
Proof.
  intros E. unfold get_file. rewrite (st_bind_ok (gets _) _ s _ s eq_refl). unfold resolve_file_id.
  assert (dhas (files_by_id s) fid = true) as -> by (apply dhas_true; by eexists).
  unfold lift, get_ref, gets, mbind, st_bind. by rewrite E.
Qed.

Lemma resolve_absent s scope fid : roots_ok s -> fine s -> root_identity scope fid -> dget (files_by_id s) fid = None ->
  (exists msg, (get_file fid s).1 = Raise (ModelError msg)) \/ (exists r, (get_file fid s).1 = Ok r /\ in_scope scope r = false).
Proof.
  intros Hs F Hid E. unfold get_file. rewrite (st_bind_ok (gets _) _ s _ s eq_refl). unfold resolve_file_id.
  assert (dhas (files_by_id s) fid = false) as -> by by apply dhas_false.
  destruct (elements (default ∅ (dget (file_ids_by_name s) fid))) as [|f [|g fs]] eqn:Ee; [left; by eexists| |left; by eexists].
  assert (Hf : f ∈ default ∅ (dget (file_ids_by_name s) fid)) by (apply elem_of_elements; rewrite Ee; left).
  apply (ix_names s (ro_index s Hs)) in Hf as (r & Hr & Hn). right. exists r.
  split; [unfold lift, get_ref, gets, mbind, st_bind; by rewrite Hr|].
  destruct (in_scope scope r) eqn:Ei; [|done]. apply bool_decide_eq_true in Ei. exfalso.
  pose proof (served_at _ _ _ F Hr) as Sr. pose proof (ix_keys s (ro_index s Hs) _ _ Hr) as Hk. rewrite served_id in Hk by done.
  destruct (served_facts r Sr) as (_ & Hp & _). destruct Hid as (nm & _ & _ & ->).
  destruct (expected_path_pair_id scope) as [p|].
  - apply plain_name_facts in Hp as [_ _ _ _ Hb]. by rewrite Hn in Hb.
  - rewrite Hn, Ei in Hk. cbn [build_file_id] in *. congruence.
Qed.

Lemma collect_exact s scope ids : roots_ok s -> fine s -> Forall (root_identity scope) ids ->
  collect_updates s scope ids = Ok (omap (shown s scope) ids, List.filter (fun i => bool_decide (shown s scope i = None)) ids).
Proof.
  intros Hs F. induction 1 as [|i ids Hi _ IH]; [done|]. cbn [collect_updates omap list_omap List.filter].
  destruct (dget (files_by_id s) i) as [r|] eqn:Er.
  - rewrite (resolve_present _ _ _ Er), IH. cbn [mbind result_bind].
    assert (Hin : in_scope scope r = true).
    { apply bool_decide_eq_true. apply identity_pair; [by eapply served_at|]. by rewrite (ix_keys s (ro_index s Hs) _ _ Er). }
    assert (Hsh : shown s scope i = Some (_model_file_page_record_with_overlay s r)) by (unfold shown; by rewrite Er, Hin).
    by rewrite Hin, Hsh.
  - assert (Hsh : shown s scope i = None) by (unfold shown; by rewrite Er). rewrite Hsh. cbn [bool_decide].
    destruct (resolve_absent s scope i Hs F Hi Er) as [[msg ->]|(r & -> & Hr)]; rewrite IH; cbn [mbind result_bind]; by rewrite ?Hr.
Qed.

(** The updates of queued roots: each is a current record or a removal, once. *)
Lemma updates_exact s scope ids : roots_ok s -> fine s -> Forall (root_identity scope) ids -> NoDup ids ->
  exists sorted, sorted ≡ₚ ids /\ get_model_root_updates s scope ids =
    Ok (mkUpdates (scope_version_of s (expected_path_pair_id scope)) (version s) (omap (shown s scope) sorted)
          (List.filter (fun i => bool_decide (shown s scope i = None)) sorted)).
Proof.
  intros Hs F Hi Hnd. unfold get_model_root_updates.
  assert (E : omap (root_id_of scope) ids = ids).
  { clear Hnd. induction Hi as [|i ids Hi _ IH]; [done|]. cbn [omap list_omap]. rewrite root_id_of_root by done. by f_equal. }
  rewrite E. exists (sorted_ids (list_to_set ids)).
  assert (Hp : sorted_ids (list_to_set ids) ≡ₚ ids).
  { unfold sorted_ids. rewrite merge_sort_Permutation. by apply elements_list_to_set. }
  split; [done|]. rewrite collect_exact; [done..|]. by rewrite Hp.
Qed.

(** ** The client *)

(** the records by their identity *)
Definition keyed (records : list page_record) : list (string * page_record) :=
  omap (fun rec => match dget rec "file_id" with Some (PyStr i) => Some (i, rec) | _ => None end) records.

(** a client's copy of the scope; None: it has to read the scope again *)
Definition receive (ev : sse_event) (view : option (gmap string page_record)) : option (gmap string page_record) :=
  match ev with
  | SseInvalidate _ _ records removed =>
      (fun v => filter (fun kv => kv.1 ∉ removed) (list_to_map (keyed records) ∪ v)) <$> view
  | SseReset _ _ => None
  | SsePage _ => view
  end.

(** what the pages of the scope hold together *)
Definition scope_view (s : model) (scope : string) : gmap string page_record :=
  match __scoped_model_file_candidates s scope None with
  | Ok cands => list_to_map (map (fun r => (file_id r, _model_file_page_record_with_overlay s r)) cands)
  | Raise _ => ∅
  end.

Lemma keyed_shown s scope ids : roots_ok s -> keyed (omap (shown s scope) ids) = omap (fun i => pair i <$> shown s scope i) ids.
Proof.
  intros Hs. unfold keyed. induction ids as [|i ids IH]; [done|]. cbn [omap list_omap]. destruct (shown s scope i) as [rec|] eqn:E; cbn [fmap option_fmap option_map].
  - cbn [omap list_omap]. rewrite (shown_key _ _ _ _ Hs E). by f_equal.
  - done.
Qed.

Lemma scope_view_shown s scope fid : roots_ok s -> scope_view s scope !! fid = shown s scope fid.
Proof.
  intros Hs. unfold scope_view. destruct (root_candidates s scope Hs) as (cands & -> & Hnd & _ & Hin).
  unfold shown. destruct (dget (files_by_id s) fid) as [r|] eqn:Er; [destruct (in_scope scope r) eqn:Ei|].
  - pose proof (ix_keys s (ro_index s Hs) _ _ Er) as Hk. apply elem_of_list_to_map.
    + rewrite <- list_fmap_compose. exact Hnd.
    + apply list_elem_of_fmap. exists r. rewrite Hk. split; [done|]. apply Hin. rewrite Hk. split; [done|]. by apply bool_decide_eq_true in Ei.
  - apply not_elem_of_list_to_map_1. rewrite <- list_fmap_compose. intros (r' & -> & Hr')%list_elem_of_fmap. cbn in Er.
    apply Hin in Hr' as [Hr' Hp]. rewrite Hr' in Er. injection Er as ->. apply bool_decide_eq_false in Ei. done.
  - apply not_elem_of_list_to_map_1. rewrite <- list_fmap_compose. intros (r' & -> & Hr')%list_elem_of_fmap. cbn in Er.
    apply Hin in Hr' as [Hr' _]. congruence.
Qed.

Lemma keyed_lookup s scope ids fid : roots_ok s -> NoDup ids ->
  (list_to_map (keyed (omap (shown s scope) ids)) : gmap string page_record) !! fid =
  if bool_decide (fid ∈ ids) then shown s scope fid else None.
Proof.
  intros Hs Hnd. rewrite keyed_shown by done. induction ids as [|i ids IH]; [done|]. apply NoDup_cons in Hnd as [Hi Hnd].
  specialize (IH Hnd). cbn [omap list_omap]. destruct (decide (fid = i)) as [->|Hne].
  - rewrite bool_decide_eq_true_2 by left. destruct (shown s scope i) as [rec|] eqn:E; cbn [fmap option_fmap option_map].
    + cbn [list_to_map foldr fst snd uncurry]. by rewrite lookup_insert_eq.
    + rewrite IH, bool_decide_eq_false_2 by done. done.
  - assert (Hb : bool_decide (fid ∈ i :: ids) = bool_decide (fid ∈ ids)) by (apply bool_decide_ext; rewrite elem_of_cons; tauto).
    rewrite Hb. destruct (shown s scope i) as [rec|]; cbn [fmap option_fmap option_map]; [|exact IH].
    cbn [list_to_map foldr fst snd uncurry]. rewrite lookup_insert_ne by done. exact IH.
Qed.

(** An event about the stale roots makes the copy current. *)
Lemma receive_exact s scope ids ver chg v : roots_ok s -> NoDup ids ->
  (forall fid, v !! fid = shown s scope fid \/ fid ∈ ids) ->
  receive (SseInvalidate ver chg (omap (shown s scope) ids) (List.filter (fun i => bool_decide (shown s scope i = None)) ids)) (Some v) =
  Some (scope_view s scope).
Proof.
  intros Hs Hnd Hv. cbn [receive fmap option_fmap option_map]. f_equal. apply map_eq. intros fid. rewrite scope_view_shown by done.
  rewrite map_lookup_filter, lookup_union, keyed_lookup by done.
  assert (Hrem : forall i, i ∈ List.filter (fun i => bool_decide (shown s scope i = None)) ids <-> i ∈ ids /\ shown s scope i = None).
  { intros i. rewrite list_elem_of_In, filter_In, <- list_elem_of_In, bool_decide_eq_true. done. }
  destruct (decide (fid ∈ ids)) as [Hin|Hin].
  - rewrite bool_decide_eq_true_2 by done. destruct (shown s scope fid) as [rec|] eqn:E.
    + destruct (v !! fid); cbn; rewrite option_guard_True by (cbn; rewrite Hrem, E; by intros [_ ?]); done.
    + rewrite (left_id None union). destruct (v !! fid) as [x|]; [|done]. cbn. rewrite option_guard_False; [done|]. cbn. rewrite Hrem. tauto.
  - rewrite bool_decide_eq_false_2, (left_id None union) by done. destruct (Hv fid) as [->|?]; [|done].
    destruct (shown s scope fid); [|done]. cbn. rewrite option_guard_True; [done|]. cbn. rewrite Hrem. tauto.
Qed.

(** ** The composed system *)

(** the calls of one listener among the events of the model *)
Definition feed (n : nat) (es : list event) (l : ScopedModelListener) : ScopedModelListener :=
  fold_left (fun l e =>
    match e with
    | EvVersionPublished m sv gv sc fid => if Nat.eqb m n then model_version_published sv gv sc fid l else l
    | _ => l
    end) es l.

Lemma scope_of_expected scope : _model_scope_id (expected_path_pair_id scope) = scope.
Proof. unfold expected_path_pair_id. by destruct (String.eqb_spec scope MODEL_LEGACY_SCOPE_ID). Qed.

Lemma feed_ok n scope es : forall l, Forall event_ok es -> listener_ok (root_identity scope) l -> sl_scope_id l = scope ->
  let l' := feed n es l in
  listener_ok (root_identity scope) l' /\ sl_scope_id l' = scope /\ (forall f, pending l f -> pending l' f) /\
  (forall f, heard (Some n) es f -> root_identity scope f -> pending l' f).
Proof.
  induction es as [|e es IH]; intros l Hes Hl Hsc; cbn zeta.
  { split_and!; try done. intros f (? & ? & ? & Hf). by apply elem_of_nil in Hf. }
  apply Forall_cons in Hes as [He Hes].
  assert (Hstep : exists l1, feed n (e :: es) l = feed n es l1 /\ listener_ok (root_identity scope) l1 /\ sl_scope_id l1 = scope /\
    (forall f, pending l f -> pending l1 f) /\
    (forall sv gv sc f, e = EvVersionPublished n sv gv sc f -> root_identity scope f -> pending l1 f)).
  { destruct e as [| | | |m sv gv sc fid| | |]; try (exists l; by split_and!).
    exists (if Nat.eqb m n then model_version_published sv gv sc fid l else l). split; [done|].
    destruct He as (r & Hr & <- & <-). destruct (Nat.eqb_spec m n) as [->|Hne]; cycle 1.
    { split_and!; try done. intros ? ? ? ? [= ?]. done. }
    destruct (published_ok (root_identity scope) sv gv (path_pair_id (ref_file r)) (file_id r) l Hl) as (P1 & P2 & P3 & P4).
    { intros Hs. apply served_identity; [done|]. apply scope_of_pair; [apply (served_facts r Hr)|congruence]. }
    split_and!; [done|congruence|done|]. intros ? ? ? f [= <- <- <- <-] Hf. apply P4.
    rewrite (identity_pair scope r) by done. by rewrite scope_of_expected. }
  destruct Hstep as (l1 & -> & H1 & H2 & H3 & H4). destruct (IH l1 Hes H1 H2) as (I1 & I2 & I3 & I4). split_and!; try done; [auto|].
  intros f (sv & gv & sc & [Hf|Hf]%elem_of_cons) Hid; [|apply I4; [by exists sv, gv, sc|done]]. apply I3. by eapply H4.
Qed.

Record client := mkClient { cl_model : model; cl_listener : ScopedModelListener; cl_view : option (gmap string page_record) }.

(** The model changes, the stream delivers an event, the client reads the scope. *)
Inductive client_step (n : nat) (scope : string) : client -> client -> Prop :=
  | step_change s l v o s' : op_served (Some n) o = true -> run_op o s = (Ok tt, s') ->
      client_step n scope (mkClient s l v) (mkClient s' (feed n (drop (length (log s)) (log s')) l) v)
  | step_event s l v ev l' : stream_round s scope l = (Ok (Some ev), l') ->
      client_step n scope (mkClient s l v) (mkClient s l' (receive ev v))
  | step_read s l v : client_step n scope (mkClient s l v) (mkClient s l (Some (scope_view s scope))).

(** The copy differs from the model only where something is queued. *)
Record client_ok (n : nat) (scope : string) (c : client) : Prop := {
  co_roots : roots_ok (cl_model c);
  co_fine : fine (cl_model c);
  co_registered : registered (Some n) (cl_model c);
  co_scope : sl_scope_id (cl_listener c) = scope;
  co_listener : listener_ok (root_identity scope) (cl_listener c);
  co_view : match cl_view c with
            | None => True
            | Some v => forall fid, v !! fid = shown (cl_model c) scope fid \/ pending (cl_listener c) fid
            end }.

Lemma change_ok n scope s l v o s' : client_ok n scope (mkClient s l v) -> op_served (Some n) o = true -> run_op o s = (Ok tt, s') ->
  client_ok n scope (mkClient s' (feed n (drop (length (log s)) (log s')) l) v).
Proof.
  intros [Ro F R Hsc Hl Hv] Ho E. cbn in *. destruct (run_op_tell (Some n) o Ho s tt s' Ro F R E) as (es & F' & R' & L & Ev & V).
  pose proof (run_op_roots o (op_served_proper _ _ Ho) s Ro) as Ro'. rewrite E in Ro'. cbn [snd] in Ro'.
  rewrite L, drop_app_length. destruct (feed_ok n scope es l Ev Hl Hsc) as (I1 & I2 & I3 & I4). split; cbn; try done.
  destruct v as [v|]; [|done]. intros fid. destruct (Hv fid) as [Hf|Hf]; [|right; auto].
  destruct (V fid) as [Hs|[Hh|?%elem_of_empty]]; [| |done].
  - left. rewrite Hf. symmetry. by apply shown_visible.
  - rewrite Hf. destruct (shown s' scope fid) as [rec'|] eqn:E'; [right; apply I4; [done|]; exact (shown_identity s' scope fid rec' Ro' F' E')|].
    destruct (shown s scope fid) as [rec|] eqn:E0; [right; apply I4; [done|]; exact (shown_identity s scope fid rec Ro F E0)|by left].
Qed.

(** A round from a state of the system *)
Definition event_bounded (ev : sse_event) : Prop :=
  match ev with
  | SseInvalidate _ ids records removed =>
      Z.of_nat (length ids) <= _MAX_IDENTITIES /\ (length records + length removed = length ids)%nat
  | _ => True
  end.

Lemma omap_filter_length {A B} (f : A -> option B) (l : list A) `{!forall x, Decision (f x = None)} :
  (length (omap f l) + length (List.filter (fun i => bool_decide (f i = None)) l) = length l)%nat.
Proof.
  induction l as [|x l IH]; [done|]. cbn [omap list_omap List.filter]. case_bool_decide as E.
  - rewrite E. cbn [length]. rewrite <- IH. cbn. lia.
  - destruct (f x) as [y|]; [|done]. cbn [length]. rewrite <- IH. cbn. lia.
Qed.

Lemma round_ok n scope c : client_ok n scope c -> exists ev l', stream_round (cl_model c) scope (cl_listener c) = (Ok ev, l') /\
  match ev with
  | None => sl_reset_version (cl_listener c) = None /\ sl_changes (cl_listener c) = []
  | Some e => event_bounded e /\ client_ok n scope (mkClient (cl_model c) l' (receive e (cl_view c))) /\
      forall v v', cl_view c = Some v -> receive e (Some v) = Some v' -> v' = scope_view (cl_model c) scope
  end.
Proof.
  destruct c as [s l view]. intros [Ro F R Hsc Hl Hv]. cbn in *. unfold stream_round, take_next_event.
  pose proof Hl as [Ho Hi Hn Hb Hr Hw]. rewrite Ho. destruct (sl_reset_version l) as [v0|] eqn:Er.
  { eexists _, _. split; [done|]. split_and!; try done. split; cbn; try done.
    assert (Hnil : sl_changes l = []) by (apply Hr; by eexists). split; cbn; rewrite ?Hnil; try done; constructor. }
  destruct (sl_changes l) as [|ch chs] eqn:Ec; [by eexists _, _|].
  set (changes := ch :: chs) in *.
  destruct (updates_exact s scope (dkeys changes) Ro F Hi Hn) as (ids & Hp & Hu).
  eexists _, _. rewrite Hu. cbn [mbind result_bind up_model_version up_records up_removed_file_ids]. split; [done|].
  assert (Hnd : NoDup ids) by by rewrite Hp.
  assert (Hcur : forall v, view = Some v -> forall ver chg, receive (SseInvalidate ver chg (omap (shown s scope) ids)
    (List.filter (fun i => bool_decide (shown s scope i = None)) ids)) (Some v) = Some (scope_view s scope)).
  { intros v -> ver chg. apply receive_exact; [done..|]. intros fid. destruct (Hv fid) as [?|[[? ?]|Hf]]; [by left|congruence|].
    right. rewrite Hp. by rewrite Ec in Hf. }
  split_and!.
  - cbn [event_bounded]. split; [|by rewrite omap_filter_length, Hp].
    change (Z.of_nat (length (map fst changes)) <= _MAX_IDENTITIES). by rewrite length_map.
  - split; cbn [cl_model cl_listener cl_view]; try done.
    destruct view as [v|]; [|done]. rewrite (Hcur v eq_refl). intros fid. left. by apply scope_view_shown.
  - intros v v' Hview Hrec. rewrite (Hcur v Hview) in Hrec. by injection Hrec.
Qed.

Lemma client_step_ok n scope c c' : client_step n scope c c' -> client_ok n scope c -> client_ok n scope c'.
Proof.
  intros Hs Hc. destruct Hs as [s l v o s' Ho E|s l v ev l' E|s l v].
  - by eapply change_ok.
  - destruct (round_ok _ _ _ Hc) as (ev' & l1 & E' & H1). cbn in E'. rewrite E in E'. injection E' as <- <-. apply H1.
  - destruct Hc as [Ro F R Hsc Hl Hv]. split; cbn; try done. intros fid. left. by apply scope_view_shown.
Qed.

(** ** Opening a stream *)

(** Histories of returning calls on roots a client can be served *)
Inductive served_history : model -> Prop :=
  | served_new now : served_history (empty_model now)
  | served_op s o s' : served_history s -> op_served None o = true -> run_op o s = (Ok tt, s') -> served_history s'.

Lemma served_history_ok s : served_history s -> roots_ok s /\ fine s.
Proof.
  induction 1 as [now|s o s' _ [Ro F] Ho E].
  - split; [apply reachable_roots; constructor|]. split; constructor.
  - destruct (run_op_tell None o Ho s tt s' Ro F I E) as (es & F' & _). split; [|done].
    pose proof (run_op_roots o (op_served_proper _ _ Ho) s Ro) as H1. by rewrite E in H1.
Qed.

Lemma open_stream rq scope rid lst s first l0 s1 : __handle_stream rq scope rid lst s = (Ok (StreamOpened first l0), s1) ->
  l0 = new_scoped_listener scope /\ add_listener lst s = (Ok tt, s1).
Proof.
  unfold __handle_stream. intros E. apply bind_ok_inv in E as (sc & s2 & Ev & E).
  assert (sc = scope /\ s2 = s) as [-> ->].
  { unfold __validate_scope_id, bad_request, lift in Ev. repeat case_match; simplify_eq; done. }
  apply bind_ok_inv in E as (a & s2 & Eg & E). injection E as E ->.
  destruct a as [e|p]; [done|]. injection E as _ <-. split; [done|].
  unfold __get_page in Eg. destruct (__read_limit rq) as [limit|]; [|done]. destruct (__read_query rq) as [[q sig]|]; [|done].
  destruct q as [[sm st] nm]. destruct (__decode_cursor _ _ _ _) as [c|e]; [|by destruct e].
  destruct (controller_page _ _ _ _ _ s) as [[page|e] s3] eqn:Ep; [|by destruct e]. injection Eg as _ ->.
  destruct c as [[cf cv] ck]. cbn [controller_page] in Ep. unfold get_model_page_and_add_listener in Ep.
  apply bind_ok_inv in Ep as (r & s4 & [= <- <-] & Ep). apply bind_ok_inv in Ep as (pg & s4 & E1 & Ep). injection E1 as _ <-.
  apply bind_ok_inv in Ep as (u & s4 & E2 & E3). injection E3 as <- <-. by destruct u.
Qed.

Lemma opened_ok s lst scope s1 : roots_ok s -> fine s -> (forall k, k ∈ listeners s -> l_id k <> l_id lst) ->
  l_version_published lst = true -> add_listener lst s = (Ok tt, s1) ->
  client_ok (l_id lst) scope (mkClient s1 (new_scoped_listener scope) None).
Proof.
  intros Ro F Hf Hp E. assert (Hs : s1 = upd_listeners (fun ls => ls ++ [lst]) s).
  { unfold add_listener in E. apply bind_ok_inv in E as (b & s2 & [= <- <-] & E).
    assert (Hn : existsb (fun m => Nat.eqb (l_id lst) (l_id m)) (listeners s) = false).
    { apply not_true_iff_false. intros (k & Hk & He%Nat.eqb_eq)%existsb_exists. apply list_elem_of_In in Hk. by apply (Hf k). }
    rewrite Hn in E. by injection E. }
  subst s1. split; cbn [cl_model cl_listener cl_view]; try done.
  - eapply roots_ok_unchanged, Ro. done.
  - by destruct F.
  - exists lst. split; [cbn; apply elem_of_app; right; left|done].
Qed.

(** C5: A subscribed client is never silently stale.  A stream of a scope is
    opened with a fresh listener on a model built by returning calls on roots
    whose names are file names (and not the prefix of a scoped identity);
    then such calls, deliveries of the stream and readings of the whole scope
    interleave in any order, each one step, the calls leaving this listener
    registered.  Whenever the listener does not signal, a client that has a
    copy of the scope has exactly the current records of the current roots;
    in any case the next round succeeds, and if it has an event, of at most 200
    records and removals, the event makes the copy exact or tells the client
    to read the scope again. *)
Theorem stream_never_stale s scope rq rid lst first l0 s1 c :
  served_history s -> (forall k, k ∈ listeners s -> l_id k <> l_id lst) -> l_version_published lst = true ->
  __handle_stream rq scope rid lst s = (Ok (StreamOpened first l0), s1) ->
  rtc (client_step (l_id lst) scope) (mkClient s1 l0 None) c ->
  (forall v, sl_available (cl_listener c) = false -> cl_view c = Some v -> v = scope_view (cl_model c) scope) /\
  exists ev l', stream_round (cl_model c) scope (cl_listener c) = (Ok ev, l') /\
    match ev with
    | None => forall v, cl_view c = Some v -> v = scope_view (cl_model c) scope
    | Some e => event_bounded e /\
        forall v v', cl_view c = Some v -> receive e (Some v) = Some v' -> v' = scope_view (cl_model c) scope
    end.
Proof.
  intros Hh Hfresh Hpub Hopen Hsteps. destruct (served_history_ok s Hh) as [Ro F].
  destruct (open_stream _ _ _ _ _ _ _ _ Hopen) as [-> Hadd].
  assert (Hc : client_ok (l_id lst) scope c).
  { assert (H0 : client_ok (l_id lst) scope (mkClient s1 (new_scoped_listener scope) None)) by by apply opened_ok with s.
    clear -Hsteps H0. induction Hsteps; eauto using client_step_ok. }
  assert (Hquiet : sl_reset_version (cl_listener c) = None -> sl_changes (cl_listener c) = [] ->
    forall v, cl_view c = Some v -> v = scope_view (cl_model c) scope).
  { intros H1 H2 v Hv. destruct Hc as [Ro' _ _ _ _ Hview]. rewrite Hv in Hview. apply map_eq. intros fid.
    rewrite scope_view_shown by done. destruct (Hview fid) as [?|[[? ?]|Hf]]; [done|congruence|]. rewrite H2 in Hf. by apply elem_of_nil in Hf. }
  split.
  - intros v Ha Hv. destruct (lo_wake _ _ (co_listener _ _ _ Hc) Ha) as [H1 H2]. by apply Hquiet.
  - destruct (round_ok _ _ _ Hc) as (ev & l' & E & H1). exists ev, l'. split; [done|]. destruct ev as [e|]; [|destruct H1; by apply Hquiet].
    destruct H1 as (H1 & _ & H2). done.
Qed.
End stream.

(** ** A stream on three roots, one of which is removed *)

Fixpoint run_returning (ops : list op) (s : model) : option model :=
  match ops with
  | [] => Some s
  | o :: ops' => match run_op o s with (Ok _, s') => run_returning ops' s' | (Raise _, _) => None end
  end.

Lemma served_returning ops : forall s s', served_history s -> forallb (op_served None) ops = true -> run_returning ops s = Some s' ->
  served_history s'.
Proof.
  induction ops as [|o ops IH]; cbn [run_returning forallb]; intros s s' Hs Ho E; [by injection E as <-|].
  apply andb_true_iff in Ho as [Ho Hos]. destruct (run_op o s) as [[[]|e] s2] eqn:E2; [|done].
  apply (IH s2); [by eapply served_op|done|done].
Qed.

Definition demo_stream_model : model := default (empty_model 0) (run_returning demo_pages_ops (empty_model 0)).
Definition demo_listener : listener := mkListener 7 false true false.
Definition demo_removal : op := ORemove (file_id (sample_root 3 "b" (Some "p"))).
Definition demo_opened : model := (add_listener demo_listener demo_stream_model).2.
Definition demo_after : model := (run_op demo_removal demo_opened).2.
Definition demo_client : client :=
  mkClient demo_after (feed 7 (drop (length (log demo_opened)) (log demo_after)) (new_scoped_listener "p"))
    (Some (scope_view (H := no_clock) demo_opened "p")).

Lemma stream_never_stale_witness : exists v e l' v', cl_view demo_client = Some v /\ size v = 3%nat /\
  stream_round (H := no_clock) (cl_model demo_client) "p" (cl_listener demo_client) = (Ok (Some e), l') /\
  receive e (Some v) = Some v' /\ v' = scope_view (H := no_clock) (cl_model demo_client) "p" /\ size v' = 2%nat.
Proof.
  assert (Hh : served_history demo_stream_model).
  { apply (served_returning demo_pages_ops (empty_model 0)); [constructor|vm_compute; reflexivity|vm_compute; reflexivity]. }
  destruct (__handle_stream (H := no_clock) demo_pages_request "p" "" demo_listener demo_stream_model) as [[a|e] s1] eqn:Eo; cycle 1.
  { assert (E : is_ok (__handle_stream (H := no_clock) demo_pages_request "p" "" demo_listener demo_stream_model).1 = true) by (vm_compute; reflexivity).
    rewrite Eo in E. discriminate E. }
  destruct a as [st an|first l0].
  { assert (E : match (__handle_stream (H := no_clock) demo_pages_request "p" "" demo_listener demo_stream_model).1 with
      | Ok (StreamOpened _ _) => true | _ => false end = true) by (vm_compute; reflexivity). rewrite Eo in E. discriminate E. }
  destruct (open_stream (H := no_clock) _ _ _ _ _ _ _ _ Eo) as [-> Hadd].
  assert (Hs1 : s1 = demo_opened) by (unfold demo_opened; rewrite Hadd; reflexivity). subst s1.
  assert (Hstep : rtc (client_step (H := no_clock) 7 "p") (mkClient demo_opened (new_scoped_listener "p") None) demo_client).
  { eapply rtc_l; [apply step_read|]. eapply rtc_l; [|apply rtc_refl]. unfold demo_client, demo_after.
    apply (step_change (H := no_clock) 7 "p" demo_opened _ _ demo_removal); [vm_compute; reflexivity|].
    assert (E : (run_op demo_removal demo_opened).1 = Ok tt) by (vm_compute; reflexivity).
    destruct (run_op demo_removal demo_opened) as [r s2]. cbn [fst snd] in *. by rewrite E. }
  destruct (stream_never_stale (H := no_clock) demo_stream_model "p" demo_pages_request "" demo_listener first (new_scoped_listener "p") demo_opened demo_client Hh)
    as (_ & ev & l' & Er & Hev); [|reflexivity|exact Eo|exact Hstep|].
  { intros k Hk. exfalso. assert (E : listeners demo_stream_model = []) by (vm_compute; reflexivity). rewrite E in Hk. by apply elem_of_nil in Hk. }
  destruct ev as [e|]; cycle 1.
  { assert (E : match (stream_round (H := no_clock) (cl_model demo_client) "p" (cl_listener demo_client)).1 with Ok (Some _) => true | _ => false end = true)
      by (vm_compute; reflexivity). rewrite Er in E. discriminate E. }
  destruct Hev as [_ Hev]. exists (scope_view (H := no_clock) demo_opened "p"), e, l', (scope_view (H := no_clock) (cl_model demo_client) "p").
  split; [reflexivity|]. split; [vm_compute; reflexivity|]. split; [exact Er|]. split; [|split; [reflexivity|vm_compute; reflexivity]].
  destruct (receive e (Some (scope_view (H := no_clock) demo_opened "p"))) as [v'|] eqn:Ev; [by rewrite (Hev _ v' eq_refl Ev)|].
  assert (E : match (stream_round (H := no_clock) (cl_model demo_client) "p" (cl_listener demo_client)).1 with
    | Ok (Some (SseInvalidate _ _ _ _)) => true | _ => false end = true) by (vm_compute; reflexivity).
  rewrite Er in E. destruct e; [discriminate E|discriminate Ev|discriminate E].
Defined.
